(* ===== verification/_CoqProject ===== *)
-Q . S2P
Prelude.v
Clock.v
LockedQueue.v
TcpSocket.v
UdpSocket.v
DnsResolver.v
LinkedList.v
HandleManager.v
NodePool.v
DataMap.v
DataValue.v
Float.v
Text.v
DataNode.v
HeaderMap.v
WsConnection.v
HttpRequest.v
EventLoop.v
DataRefcount.v
DataCopy.v
MsgPack.v
HttpState.v
JsonText.v
JsonParse.v
DataBuild.v
ParsedNodes.v
HjsonScan.v
Hjson.v
HjsonSafe.v
HjsonJson.v
HjsonNodes.v
DataMerge.v
DataHandle.v
DataIterator.v
Natives.v
NativesJson.v
NativesJsonSafe.v
NativesLinkedList.v
NativesJsonTable.v
NativesHttp.v
NativesHttpSafe.v
NativesText.v
QueryNodes.v
NativesTextSafe.v
NativesTextFacts.v
QueryText.v
TcpLoop.v
UdpLoop.v
WsLoop.v
NativesWs.v
NativesDns.v
NativesCurl.v
CurlSockets.v
HttpLoop.v
HttpLoopSafe.v
GameFrame.v
GameFrameSafe.v
TcpState.v
TcpSafe.v
TcpSteps.v
TcpSystem.v
UdpState.v
UdpSafe.v
UdpSystem.v
WsFacts.v
WsState.v
WsSafe.v
WsRecv.v
WsWorld.v
WsSystem.v
System.v
HttpAnswer.v
PluginMemory.v
NativesScenarios.v
HttpScenarios.v
TextScenarios.v
TcpScenarios.v
UdpScenarios.v
WsScenarios.v
Shutdown.v
