(* ===== verification/Prelude.v ===== *)
(** * async2: a verification development

    async2 is a SourceMod extension: scripts (plugins) of a game server call its
    natives to make HTTP requests, to use TCP, UDP and WebSocket connections and
    to work with JSON-like data.  This library models the C++ code under [src/]
    and proves what makes it correct.

    ** The program and how its parts interact

    The game thread calls natives on behalf of plugins and runs a hook once per
    frame; an event thread runs libuv, libcurl and c-ares.  Plugins name objects
    by integer handles.  A native looks the object up in the handle table,
    changes it or queues an operation for the event thread; the event thread
    works on the operations and pushes completed requests and events; the frame
    hook takes these and calls the plugins' functions.  The data passed around is
    a graph of reference-counted nodes, parsed from and printed as JSON, Hjson
    and MessagePack.

    ** Which file models what

    Shared: [Prelude] (machine integers, the option monad [let?], bytes, list
    lemmas, the hint databases and tactics), [Float] and [Text] (conversions of
    the C++ arithmetic types, [printf] and [strtod] of the sources), [DataValue]
    (the value a node graph stands for).

    Data.  [LinkedList] is [linked_list.cpp]; [NodePool] is
    [data/data_node_pool.h]; [DataMap] is the interface of the third-party hash
    map; [DataNode] is [data/data_node.cpp] over an explicit heap, with
    [DataRefcount], [DataCopy] and [DataMerge] its theory; [DataHandle] and
    [DataIterator] are [data/data_handle.cpp] and [data/data_iterator.cpp].

    Text.  [MsgPack] is [msgpack/]; [JsonText] and [JsonParse] are the serializer
    and the walk over simdjson's answers of [data/data_node.cpp]; [HjsonScan] and
    [Hjson] are [hjson/hjson_parse.cpp], scalar and AVX2 scanners included, with
    [HjsonSafe], [HjsonJson] and [HjsonNodes] their theory; [DataBuild] and
    [ParsedNodes] allocate the nodes of a parsed value.

    Handles and natives.  [HandleManager] is [handle_manager.cpp].  [Natives]
    defines the [world] both threads share (handle table, C++ objects, node heap,
    the event loop's members, plugin memory), the monad [N] of a native, whose
    outcomes are [Done], undefined behaviour [UB] and [BadArg] (what the script
    compiler excludes), and the invariant [Inv].  [NativesJson],
    [NativesLinkedList], [NativesHttp], [NativesText] (URL, crypto, utility and
    Hjson natives), [NativesCurl], [NativesWs] and [NativesDns] are the
    [natives_*.cpp] files of these names; the TCP and UDP natives are in
    [TcpLoop] and [UdpLoop].  [Clock] is the clock of [natives_utils.cpp].

    Requests.  [HeaderMap], [HttpRequest], [LockedQueue] and [EventLoop] are the
    data and methods of the headers of these names; [HttpLoop] is the event
    thread's part of a request ([event_loop.cpp]) and [GameFrame] the game
    thread's ([extension.cpp], [http_request.cpp]).  [HttpState] is the
    invariant; [HttpLoopSafe], [NativesHttpSafe] and [GameFrameSafe] show that the
    steps keep it; [System] lets them interleave.

    Sockets.  [TcpSocket], [UdpSocket] and [WsConnection] are the data of
    [tcp_socket.h], [udp_socket.h], [ws_connection.h] and [socket_event.h];
    [TcpLoop], [UdpLoop] and [WsLoop] are the operations and callbacks of
    [event_loop.cpp] and the dispatch of [extension.cpp].  For each kind, [*State]
    is the invariant, [*Safe] and its helpers ([TcpSteps], [WsRecv],
    [WsWorld]) the steps, [*System] the runs and theorems, [WsFacts] what is
    computed from frames.  [DnsResolver] is [dns_resolver.cpp].  [CurlSockets] is the code of
    [event_loop.cpp] that lets libuv watch libcurl's sockets and time, and
    [Shutdown] is [EventLoop::Stop].

    [*Scenarios] and [PluginMemory] hold the concrete runs: the witnesses of the
    theorems, and runs in which a condition of a theorem does not hold and the
    code misbehaves.

    ** What the theorems show

    - The whole: however natives of any plugins, the event thread's work, frames,
      callbacks, plugin unloading and leaving clients interleave, no step has
      undefined behaviour; requests are accounted for and answered; a handle's
      object has the type of the handle ([System], [HttpAnswer]).
    - Sockets: the same for TCP, UDP and WebSockets, with one close event per
      socket and no libuv or libcurl handle left behind ([TcpSystem],
      [UdpSystem], [WsSystem]); data arrives in order and whole ([TcpSystem],
      [WsFacts]); the resolver answers each request once and its cache gives back
      what was found, for as long as it may ([DnsResolver]).  The polls and the
      timer are those libcurl asked for ([CurlSockets]).
    - The end: unless a TCP connect or write is under way, [Stop] completes and
      frees every registered socket and queued request once ([Shutdown]).
    - Data: reference counts are exact, so that nodes are neither used after
      they are freed nor leaked ([DataRefcount], [NativesJsonTable]); copies and
      comparison are right ([DataCopy]); the pool hands no block out twice.
    - Refinement: the linked list, with its natives, is a list of pairs
      ([LinkedList], [NativesLinkedList]).
    - Text: what is printed is parsed back (MessagePack, JSON by the Hjson
      parser, query strings); the parsers read only their input and free what
      they drop; the vectorised scanners equal the scalar ones; the natives write
      only into the caller's buffer.
    - What is not so: theorems named [*_needed] and the lemmas of the scenario
      files show plugin behaviour, or states, for which the code does not do what
      it should.

    ** Conventions, bounds and fuel

    Integers are [Z], kept at their width with [uN] and [sN] where the source
    converts or may overflow; signed overflow is undefined behaviour.  A pointer
    is an address in an explicit store; [None], or [UB], is the use of a dead one.
    Recursion that is not structural has fuel computed from the state: the number
    of references for [Decref] ([fuel_of]), the number of list nodes, the 2^32 ids
    of the handle table, the length of the input for the parsers, the source's own
    depth limits for copying, comparing and printing.  The theorems that a
    function returns include that this fuel is enough; where it can run out (a
    full handle table, comparison of cyclic data) they say so by a hypothesis.

    Each function of the event thread and each native is one step, as is one turn
    of a loop over a queue; queues are always used under their locks.  A plugin's
    callback is split into the part before and after the plugin's code.  An atomic
    flag that the other thread may set has one value during a step.  The three
    kinds of socket events share one queue in the source; as they are dispatched
    independently, the model gives each kind its own.  The UDP and WebSocket runs
    allow any other step of the program in between that leaves their part alone.
    A name that is resolved at once is resolved in a second step.

    ** What is not modelled

    Third-party code is a parameter or an input: simdjson, libcurl, libuv, c-ares,
    OpenSSL, zlib, the hash map, the script virtual machine, the operating system.
    Not modelled are: [EventLoop::Start] and the registration with SourceMod
    (calls of libuv, libcurl and SourceMod without state of their own), logging
    and the console command, the options given to libcurl's easy handles, the
    Windows branches, the sizes of standard containers reported by
    [JsonMemorySize], [JsonPoolStats] and [EstimateBytes], and the processor
    detection of the Hjson scanner, which is a boolean. *)

From Stdlib Require Import ZArith Lia.
From stdpp Require Import base numbers list gmap gmultiset.

(** ** Notations *)

Declare Scope async2_scope.
Delimit Scope async2_scope with async2.

(** A byte of a buffer is a [Z] in [[0, 256)]; a C++ [std::string],
    [std::vector<uint8_t>] or character buffer is a list of them. *)
Abbreviation byte := Z (only parsing).
Abbreviation bytes := (list Z) (only parsing).

Open Scope Z_scope.
Open Scope async2_scope.

(** ** Machine integers

    [uN w x] is the value of the unsigned [w]-bit integer whose bits are the
    low [w] bits of [x]; [sN w x] the two's complement reading of the same
    bits.  They are the C++ conversions to [uintW_t] and [intW_t]. *)

Definition uN (w x : Z) : Z := x mod 2 ^ w.
Definition sN (w x : Z) : Z := (x + 2 ^ (w - 1)) mod 2 ^ w - 2 ^ (w - 1).

Definition u_range (w x : Z) : Prop := 0 <= x < 2 ^ w.
Definition s_range (w x : Z) : Prop := - 2 ^ (w - 1) <= x < 2 ^ (w - 1).

Definition is_byte (b : Z) : Prop := 0 <= b < 256.

Section MachineIntegers.

Context (w : Z) (Hw : 0 < w).

Lemma pow2_split : 2 ^ w = 2 * 2 ^ (w - 1).
Proof using Hw. rewrite <- Z.pow_succ_r by lia. f_equal; lia. Qed.

Lemma pow2_half_pos : 0 < 2 ^ (w - 1).
Proof using Hw. apply Z.pow_pos_nonneg; lia. Qed.

Lemma u_bounds x : u_range w (uN w x).
Proof using Hw. unfold u_range, uN. apply Z.mod_pos_bound, Z.pow_pos_nonneg; lia. Qed.

Lemma s_bounds x : s_range w (sN w x).
Proof using Hw.
  unfold s_range, sN. pose proof pow2_split. pose proof pow2_half_pos.
  pose proof (Z.mod_pos_bound (x + 2 ^ (w - 1)) (2 ^ w)). lia.
Qed.

Lemma u_id x : u_range w x -> uN w x = x.
Proof. intros. unfold uN. by apply Z.mod_small. Qed.

Lemma s_id x : s_range w x -> sN w x = x.
Proof using Hw.
  unfold s_range, sN. intros. pose proof pow2_split. pose proof pow2_half_pos.
  rewrite Z.mod_small; lia.
Qed.

Lemma s_u x : sN w (uN w x) = sN w x.
Proof using Hw.
  unfold sN, uN. f_equal. by rewrite Zplus_mod_idemp_l.
Qed.

Lemma u_s x : uN w (sN w x) = uN w x.
Proof using Hw.
  unfold sN, uN. rewrite Zminus_mod_idemp_l. f_equal; lia.
Qed.

(** Adding to a wrapped counter. *)
Lemma s_add x y : sN w (sN w x + y) = sN w (x + y).
Proof using Hw.
  unfold sN. f_equal. set (h := 2 ^ (w - 1)).
  replace ((x + h) mod 2 ^ w - h + y + h) with ((x + h) mod 2 ^ w + y) by lia.
  rewrite Zplus_mod_idemp_l. f_equal. lia.
Qed.

Lemma s_of_u x : u_range w x -> sN w x = if x <? 2 ^ (w - 1) then x else x - 2 ^ w.
Proof using Hw.
  unfold u_range, sN. intros. pose proof pow2_split. pose proof pow2_half_pos.
  destruct (Z.ltb_spec x (2 ^ (w - 1))).
  - rewrite Z.mod_small; lia.
  - rewrite <- (Z.mod_unique (x + 2 ^ (w - 1)) (2 ^ w) 1 (x + 2 ^ (w - 1) - 2 ^ w)); lia.
Qed.

Lemma u_of_s x : s_range w x -> uN w x = if x <? 0 then x + 2 ^ w else x.
Proof using Hw.
  unfold s_range, uN. intros. pose proof pow2_split. pose proof pow2_half_pos.
  destruct (Z.ltb_spec x 0).
  - rewrite <- (Z.mod_unique x (2 ^ w) (-1) (x + 2 ^ w)); lia.
  - rewrite Z.mod_small; lia.
Qed.

End MachineIntegers.

Create HintDb machine.
#[export] Hint Resolve u_bounds s_bounds : machine.

(** ** Option helpers *)

Notation "'let?' x := e 'in' k" :=
  (match e with Some x => k | None => None end)
  (at level 10, x pattern, e at level 100, k at level 200)
  : async2_scope.

(** ** Automation *)

(** Case analysis on the scrutinee of a [match] or [if] in the goal or in a
    hypothesis, remembering the equation. *)
Ltac case_scrut :=
  match goal with
  | |- context [match ?e with _ => _ end] => let E := fresh "E" in destruct e eqn:E
  | H : context [match ?e with _ => _ end] |- _ => let E := fresh "E" in destruct e eqn:E
  end.

(** Turns boolean comparisons of the context into propositions. *)
Ltac zbool :=
  repeat match goal with
  | H : (_ && _)%bool = true |- _ => apply andb_true_iff in H; destruct H
  | H : (_ || _)%bool = false |- _ => apply orb_false_iff in H; destruct H
  | H : negb _ = true |- _ => apply negb_true_iff in H
  | H : negb _ = false |- _ => apply negb_false_iff in H
  | H : (_ <? _) = true |- _ => apply Z.ltb_lt in H
  | H : (_ <? _) = false |- _ => apply Z.ltb_ge in H
  | H : (_ <=? _) = true |- _ => apply Z.leb_le in H
  | H : (_ <=? _) = false |- _ => apply Z.leb_gt in H
  | H : (_ =? _) = true |- _ => apply Z.eqb_eq in H
  | H : (_ =? _) = false |- _ => apply Z.eqb_neq in H
  end.

(** ** Fresh heap addresses

    [operator new] returns an address that holds no live object. *)

Definition fresh_addr {A} (m : gmap positive A) : positive :=
  Pos.succ (map_fold (fun k _ acc => Pos.max k acc) 1%positive m).

Lemma fresh_addr_bound {A} (m : gmap positive A) k :
  is_Some (m !! k) -> (k < fresh_addr m)%positive.
Proof.
  unfold fresh_addr. intros Hk. apply Pos.lt_succ_r. revert Hk.
  apply (map_fold_weak_ind (fun r m => is_Some (m !! k) -> (k <= r)%positive)).
  - rewrite lookup_empty. by intros [? [=]].
  - intros i x m' r Hi IH. destruct (decide (i = k)) as [->|Hne].
    + intros _. lia.
    + rewrite lookup_insert_ne by done. intros H. specialize (IH H). lia.
Qed.

Lemma fresh_addr_None {A} (m : gmap positive A) : m !! fresh_addr m = None.
Proof.
  destruct (m !! fresh_addr m) eqn:E; [|done].
  pose proof (fresh_addr_bound m (fresh_addr m)) as H. rewrite E in H.
  specialize (H (mk_is_Some _ _ eq_refl)). lia.
Qed.

(** ** Identifier cursors

    Both [LinkedList::NextId] and [HandleManager::CreateHandle] issue
    identifiers from a 32-bit cursor that skips the reserved value 0.  The
    issued values are the elements of a cycle of length [2^32 - 1]; [cursor
    base i] is the [i]-th one after [base]. *)

Definition skip0 (x : Z) : Z := if x =? 0 then 1 else x.
Definition cursor (base : Z) (i : nat) : Z := (base - 1 + Z.of_nat i) mod (2 ^ 32 - 1) + 1.

Lemma cursor_range base i : 1 <= cursor base i < 2 ^ 32.
Proof.
  unfold cursor. pose proof (Z.mod_pos_bound (base - 1 + Z.of_nat i) (2 ^ 32 - 1)). lia.
Qed.

Lemma cursor_0 base : 1 <= base < 2 ^ 32 -> cursor base 0 = base.
Proof. intros. unfold cursor. rewrite Z.mod_small; lia. Qed.

Lemma cursor_S base i : skip0 (uN 32 (cursor base i + 1)) = cursor base (S i).
Proof.
  unfold skip0, uN. pose proof (cursor_range base i) as Hr. unfold cursor in *.
  rewrite Nat2Z.inj_succ.
  replace (base - 1 + Z.succ (Z.of_nat i)) with ((base - 1 + Z.of_nat i) + 1) by lia.
  set (a := base - 1 + Z.of_nat i) in *.
  pose proof (Z.mod_pos_bound a (2 ^ 32 - 1) ltac:(lia)).
  destruct (Z.eq_dec (a mod (2 ^ 32 - 1)) (2 ^ 32 - 2)) as [E|E].
  - rewrite E. replace ((a + 1) mod (2 ^ 32 - 1)) with 0; [reflexivity|].
    rewrite <- Zplus_mod_idemp_l, E. reflexivity.
  - rewrite <- (Zplus_mod_idemp_l a 1), (Z.mod_small (a mod (2 ^ 32 - 1) + 1)) by lia.
    rewrite Z.mod_small by lia.
    destruct (Z.eqb_spec (a mod (2 ^ 32 - 1) + 1 + 1) 0); lia.
Qed.

Lemma cursor_inj base i j :
  (Z.of_nat i < 2 ^ 32 - 1) -> (Z.of_nat j < 2 ^ 32 - 1) ->
  cursor base i = cursor base j -> i = j.
Proof.
  unfold cursor. intros Hi Hj H.
  assert ((base - 1 + Z.of_nat i) mod (2 ^ 32 - 1) =
          (base - 1 + Z.of_nat j) mod (2 ^ 32 - 1)) as E by lia.
  clear H. pose proof (Z.div_mod (base - 1 + Z.of_nat i) (2 ^ 32 - 1) ltac:(lia)).
  pose proof (Z.div_mod (base - 1 + Z.of_nat j) (2 ^ 32 - 1) ltac:(lia)).
  rewrite E in *. nia.
Qed.

(** The first [n] identifiers issued after [base]. *)
Definition issued (base : Z) (n : nat) : list Z := cursor base <$> seq 0 n.

Lemma issued_S base n : issued base (S n) = issued base n ++ [cursor base n].
Proof. unfold issued. by rewrite seq_S, fmap_app. Qed.

Lemma elem_of_issued base n x :
  x ∈ issued base n <-> exists i, (i < n)%nat /\ x = cursor base i.
Proof.
  unfold issued. rewrite list_elem_of_fmap. setoid_rewrite elem_of_seq.
  split; intros (i & ?); exists i; intuition lia.
Qed.

Lemma issued_NoDup base n : Z.of_nat n < 2 ^ 32 -> NoDup (issued base n).
Proof.
  intros Hn. induction n as [|n IH]; [constructor|].
  rewrite issued_S. apply list.NoDup_app. split_and!.
  - apply IH; lia.
  - intros x (i & Hi & ->)%elem_of_issued. rewrite list_elem_of_singleton.
    intros E%cursor_inj; lia.
  - apply NoDup_singleton.
Qed.

Lemma length_issued base n : length (issued base n) = n.
Proof. unfold issued. by rewrite length_fmap, length_seq. Qed.

(** ** Lists *)

Lemma NoDup_subset_length {A} `{EqDecision A} (l k : list A) :
  NoDup l -> (forall x, x ∈ l -> x ∈ k) -> (length l <= length k)%nat.
Proof.
  intros Hl Hsub. by apply submseteq_length, NoDup_submseteq.
Qed.
