(* ===== verification/Clock.v ===== *)
(** * [src/natives_utils.cpp]: the anchored clock

    [GetAnchoredTimeMs] answers with the monotonic clock plus an offset, and
    compares it with the wall clock when ten seconds have passed since it last
    did.  Both clocks are readings in milliseconds, given as arguments.  They
    are far from the bounds of [int64_t], so that the arithmetic is exact. *)

From stdpp Require Import base numbers list.
From Stdlib Require Import ZArith Lia Sorted.
From S2P Require Import Prelude.

#[local] Open Scope Z_scope.

Definition SYNC_INTERVAL_MS : Z := 10000.
Definition SNAP_THRESHOLD_MS : Z := 500.

Record Clock := mkClock { g_clock_offset : Z; g_last_returned : Z; g_last_sync_mono : Z }.

Definition InitAnchoredClock (mono real : Z) : Clock := mkClock (real - mono) real mono.

Definition GetAnchoredTimeMs (mono real : Z) (c : Clock) : Z * Clock :=
  let candidate := mono + g_clock_offset c in
  let '(candidate, c) :=
    if mono - g_last_sync_mono c >=? SYNC_INTERVAL_MS then
      let drift := real - candidate in
      if (drift >? SNAP_THRESHOLD_MS) || (drift <? - SNAP_THRESHOLD_MS) then
        (real, mkClock (real - mono) real mono)
      else if drift >? 0 then (real, mkClock (real - mono) (g_last_returned c) mono)
      else (candidate, mkClock (g_clock_offset c) (g_last_returned c) mono)
    else (candidate, c) in
  let last := if candidate >? g_last_returned c then candidate else g_last_returned c in
  (last, mkClock (g_clock_offset c) last (g_last_sync_mono c)).

(** The answers to a sequence of readings. *)
Fixpoint times (readings : list (Z * Z)) (c : Clock) : list Z :=
  match readings with
  | [] => []
  | (mono, real) :: rest => let '(t, c) := GetAnchoredTimeMs mono real c in t :: times rest c
  end.

(** ** Properties *)

(** The last answer belongs to the reading [m] of the monotonic clock. *)
Definition anchored (m : Z) (c : Clock) : Prop := g_last_returned c = m + g_clock_offset c /\ g_last_sync_mono c <= m.

Lemma init_anchored mono real : anchored mono (InitAnchoredClock mono real).
Proof. unfold anchored, InitAnchoredClock. cbn. lia. Qed.

(** One call: the answer is the candidate. *)
Lemma call_spec m mono real c : anchored m c -> m <= mono ->
  let '(t, c') := GetAnchoredTimeMs mono real c in
  anchored mono c' /\ g_last_returned c' = t /\
  (mono - g_last_sync_mono c < SYNC_INTERVAL_MS ->
     t = g_last_returned c + (mono - m) /\ g_last_sync_mono c' = g_last_sync_mono c /\ g_clock_offset c' = g_clock_offset c) /\
  (SYNC_INTERVAL_MS <= mono - g_last_sync_mono c -> real <= t <= real + SNAP_THRESHOLD_MS /\ g_last_sync_mono c' = mono) /\
  (mono + g_clock_offset c <= real + SNAP_THRESHOLD_MS -> g_last_returned c + (mono - m) <= t).
Proof.
  unfold anchored, GetAnchoredTimeMs, SYNC_INTERVAL_MS, SNAP_THRESHOLD_MS. intros [Ea Es] Hm.
  repeat (match goal with |- context [if ?b then _ else _] => destruct b eqn:? end; cbn [g_clock_offset g_last_returned g_last_sync_mono]);
    rewrite ?orb_true_iff, ?orb_false_iff, ?Z.geb_le, ?Z.gtb_lt, ?Z.ltb_lt, ?Z.ltb_ge in *;
    repeat match goal with H : (_ >=? _) = false |- _ => rewrite Z.geb_leb, Z.leb_gt in H | H : (_ >? _) = false |- _ => rewrite Z.gtb_ltb, Z.ltb_ge in H end;
    try lia.
Qed.

Definition last_mono (m : Z) (rs : list (Z * Z)) : Z := List.last rs.*1 m.

(** The clock follows the monotonic clock and stays with the wall clock.  For
    readings whose monotonic part does not decrease: a call less than ten
    seconds after the last comparison answers the previous answer plus the
    monotonic time that passed; a call that compares answers within half a
    second after the wall clock; and the answer is below the previous one only
    when the wall clock is found more than half a second behind. *)
Theorem clock_follows (m0 r0 mono real : Z) (rs : list (Z * Z)) : StronglySorted Z.le (m0 :: rs.*1 ++ [mono]) ->
  let c := fold_left (fun c '(m, r) => (GetAnchoredTimeMs m r c).2) rs (InitAnchoredClock m0 r0) in
  let '(t, c') := GetAnchoredTimeMs mono real c in
  (mono - g_last_sync_mono c < SYNC_INTERVAL_MS -> t = g_last_returned c + (mono - last_mono m0 rs)) /\
  (SYNC_INTERVAL_MS <= mono - g_last_sync_mono c -> real <= t <= real + SNAP_THRESHOLD_MS) /\
  (t < g_last_returned c -> real + SNAP_THRESHOLD_MS < mono + g_clock_offset c).
Proof.
  intros Hs c. assert (anchored (last_mono m0 rs) c /\ last_mono m0 rs <= mono) as [Ha Hle].
  { subst c. pose proof (init_anchored m0 r0) as Ha. revert Ha. generalize (InitAnchoredClock m0 r0) as c. unfold last_mono.
    revert m0 Hs. induction rs as [|[m r] rs IH]; intros m0 Hs c Ha.
    - cbn in *. split; [done|]. apply StronglySorted_inv in Hs as [_ Hs]. by apply Forall_cons in Hs as [? _].
    - cbn [fold_left]. apply StronglySorted_inv in Hs as [Hs Hf]. cbn in Hs, Hf. apply Forall_cons in Hf as [Hm _].
      pose proof (call_spec m0 m r c Ha Hm) as Hc. destruct (GetAnchoredTimeMs m r c) as [t c'] eqn:E. destruct Hc as (Ha' & _).
      specialize (IH m Hs c' Ha'). destruct rs as [|x rs]; [exact IH|]. cbn [fmap list_fmap fst] in IH |- *.
      assert (forall d d', List.last (x.1 :: rs.*1) d = List.last (x.1 :: rs.*1) d') as El.
      { generalize (x.1) as y. generalize (rs.*1) as l. induction l as [|z l IHl]; intros y d d'; [done|]. apply (IHl z). }
      change (List.last (m :: x.1 :: rs.*1) m0) with (List.last (x.1 :: rs.*1) m0). rewrite (El m0 m). exact IH. }
  pose proof (call_spec _ mono real c Ha Hle) as Hc. destruct (GetAnchoredTimeMs mono real c) as [t c'].
  destruct Hc as (_ & _ & H1 & H2 & H3). split_and!; [tauto|tauto|]. intros Hlt. apply Z.nle_gt. intros Hn. specialize (H3 Hn). lia.
Qed.

Definition clock_20 : Clock := fold_left (fun c '(m, r) => (GetAnchoredTimeMs m r c).2) [(5, 1005); (20, 1020)] (InitAnchoredClock 0 1000).

Lemma clock_follows_witness : (GetAnchoredTimeMs 30 0 clock_20).1 = g_last_returned clock_20 + (30 - 20).
Proof.
  pose proof (clock_follows 0 1000 30 0 [(5, 1005); (20, 1020)]) as Hc. cbv zeta in Hc. fold clock_20 in Hc.
  destruct (GetAnchoredTimeMs 30 0 clock_20) as [t c']. destruct Hc as [Hc _].
  - cbn. repeat (apply SSorted_cons; [|repeat constructor; lia]). apply SSorted_nil.
  - apply Hc. vm_compute. reflexivity.
Defined.

(** The clock jumps backwards when the wall clock is set back: after eleven
    seconds in which the wall clock was set back by a minute the answer is
    below the one given before.  The documentation of the native says that it
    never does. *)
Theorem clock_can_go_back : times [(1000, 101000); (12000, 52000)] (InitAnchoredClock 0 100000) = [101000; 52000].
Proof. reflexivity. Qed.
