(* ===== verification/LockedQueue.v ===== *)
(** * [src/locked_queue.h]: the queues between the two threads

    A deque under a mutex with an atomic flag that says, without the lock,
    whether something is queued.  Every use in the sources holds the lock around
    [Push], [Pop] and [Empty], so an operation is one step. *)

From stdpp Require Import base numbers list.
From S2P Require Import Prelude.

Record LockedQueue (T : Type) := mkQueue { queue_ : list T; has_items_ : bool }.
#[global] Arguments mkQueue {T} queue_ has_items_.
#[global] Arguments queue_ {T} l.
#[global] Arguments has_items_ {T} l.

Section Queue.

Context {T : Type}.
Implicit Types (q : LockedQueue T).

Definition new_LockedQueue : LockedQueue T := mkQueue [] false.

Definition Empty q : bool := match queue_ q with [] => true | _ :: _ => false end.

(** [front] of an empty deque is undefined. *)
Definition Pop q : option (T * LockedQueue T) :=
  match queue_ q with
  | [] => None
  | output :: rest => let q := mkQueue rest (has_items_ q) in Some (output, mkQueue rest (negb (Empty q)))
  end.

Definition Push (item : T) q : LockedQueue T := mkQueue (queue_ q ++ [item]) true.

Definition HasItems q : bool := has_items_ q.

(** [while (!q.Empty()) out.push_back(q.Pop());] with fuel; an exhausted queue ends the loop. *)
Fixpoint drain (fuel : nat) (out : list T) q : option (list T * LockedQueue T) :=
  match fuel with
  | O => None
  | S fuel => if Empty q then Some (out, q) else let? (x, q) := Pop q in drain fuel (out ++ [x]) q
  end.

Definition DrainAll q : option (list T * LockedQueue T) := drain (S (length (queue_ q))) [] q.

(** ** The flag *)

(** The flag tells whether the queue holds something. *)
Definition flag_ok q : Prop := has_items_ q = negb (Empty q).

Lemma flag_new : flag_ok new_LockedQueue.
Proof. done. Qed.

Lemma flag_Push x q : flag_ok (Push x q).
Proof. unfold flag_ok, Push, Empty. simpl. by destruct (queue_ q). Qed.

Lemma Pop_spec q x rest : queue_ q = x :: rest -> exists q', Pop q = Some (x, q') /\ queue_ q' = rest /\ flag_ok q'.
Proof. intros E. unfold Pop. rewrite E. eexists. split; [done|]. by split. Qed.

Lemma drain_spec fuel : forall out q, (length (queue_ q) < fuel)%nat ->
  exists q', drain fuel out q = Some (out ++ queue_ q, q') /\ queue_ q' = [] /\ (flag_ok q -> flag_ok q').
Proof.
  induction fuel as [|fuel IH]; intros out q Hlen; [lia|]. cbn [drain].
  destruct (queue_ q) as [|x rest] eqn:E.
  - exists q. unfold Empty. rewrite E, app_nil_r. done.
  - unfold Empty at 1. rewrite E. destruct (Pop_spec q x rest E) as (q' & -> & Eq & Hf).
    destruct (IH (out ++ [x]) q') as (q'' & H1 & H2 & H3); [rewrite Eq; simpl in Hlen; lia|].
    exists q''. rewrite H1, Eq, <- app_assoc. split_and!; [done..|]. intros _. by apply H3.
Qed.

(** Draining takes everything, in the order of insertion. *)
Lemma DrainAll_spec q : exists q', DrainAll q = Some (queue_ q, q') /\ queue_ q' = [] /\ (flag_ok q -> flag_ok q').
Proof. apply (drain_spec (S (length (queue_ q))) [] q). lia. Qed.

End Queue.
