(* ===== verification/TcpSocket.v ===== *)
(** * [src/tcp_socket.h], [src/socket_event.h]: sockets, operations and events

    The data of TCP: the members of a socket, the operations the game thread
    queues for the event thread, the events that go back, and what the event
    loop keeps: the table of sockets, resolutions in progress and libuv's
    handles with their pending requests. *)

From stdpp Require Import base numbers list gmap.
From Stdlib Require Import ZArith Lia.
From S2P Require Import Prelude LockedQueue.

Module Tcp.

Inductive TcpState := CREATED | RESOLVING | CONNECTING | CONNECTED | LISTENING | CLOSING | CLOSED.

#[export] Instance TcpState_eq_dec : EqDecision TcpState.
Proof. solve_decision. Defined.

Record TcpSocket := mkSocket {
  handle_id : Z;
  plugin_context : positive;
  on_connect : Z;
  on_data : Z;
  on_error : Z;
  on_close : Z;
  on_accept : Z;
  userdata : Z;
  max_chunk_size : Z;
  nodelay : bool;
  keepalive : bool;
  keepalive_delay : Z;
  send_bufsize : Z;
  recv_bufsize : Z;
  handle_closed : bool;
  uv_handle : option positive;
  state : TcpState
}.

Definition eta (s : TcpSocket) : TcpSocket :=
  mkSocket (handle_id s) (plugin_context s) (on_connect s) (on_data s) (on_error s) (on_close s) (on_accept s) (userdata s)
    (max_chunk_size s) (nodelay s) (keepalive s) (keepalive_delay s) (send_bufsize s) (recv_bufsize s) (handle_closed s) (uv_handle s) (state s).

Ltac setter p :=
  let x := fresh "x" in let s := fresh "s" in intros x s;
  let t := eval cbv beta delta [eta] in (eta s) in
  let t := eval pattern (p s) in t in
  lazymatch t with ?F _ => let u := eval cbv beta in (F x) in exact u end.

Definition set_handle_id : Z -> TcpSocket -> TcpSocket := ltac:(setter handle_id).
Definition set_on_connect : Z -> TcpSocket -> TcpSocket := ltac:(setter on_connect).
Definition set_on_data : Z -> TcpSocket -> TcpSocket := ltac:(setter on_data).
Definition set_on_error : Z -> TcpSocket -> TcpSocket := ltac:(setter on_error).
Definition set_on_close : Z -> TcpSocket -> TcpSocket := ltac:(setter on_close).
Definition set_on_accept : Z -> TcpSocket -> TcpSocket := ltac:(setter on_accept).
Definition set_max_chunk_size : Z -> TcpSocket -> TcpSocket := ltac:(setter max_chunk_size).
Definition set_nodelay : bool -> TcpSocket -> TcpSocket := ltac:(setter nodelay).
Definition set_keepalive : bool -> TcpSocket -> TcpSocket := ltac:(setter keepalive).
Definition set_keepalive_delay : Z -> TcpSocket -> TcpSocket := ltac:(setter keepalive_delay).
Definition set_send_bufsize : Z -> TcpSocket -> TcpSocket := ltac:(setter send_bufsize).
Definition set_recv_bufsize : Z -> TcpSocket -> TcpSocket := ltac:(setter recv_bufsize).
Definition set_handle_closed : bool -> TcpSocket -> TcpSocket := ltac:(setter handle_closed).
Definition set_uv_handle : option positive -> TcpSocket -> TcpSocket := ltac:(setter uv_handle).
Definition set_state : TcpState -> TcpSocket -> TcpSocket := ltac:(setter state).

Definition new_TcpSocket (ctx : positive) (userdata : Z) : TcpSocket :=
  mkSocket 0 ctx 0 0 0 0 0 userdata 4096 false false 60 0 0 false None CREATED.

(** ** Operations: the game thread asks, the event thread does

    An operation names its socket by the handle; the ones that register the
    socket also carry the pointer. *)
Inductive TcpOp :=
  | CONNECT (id : Z) (host : bytes) (port : Z) (socket_ptr : positive)
  | SEND (id : Z) (data : bytes)
  | CLOSE (id : Z)
  | LISTEN (id : Z) (host : bytes) (port : Z) (on_accept backlog : Z) (socket_ptr : positive)
  | BIND (id : Z) (host : bytes) (port : Z) (socket_ptr : positive)
  | SET_OPTION (id : Z) (option_id option_value : Z)
  | ACCEPT_CONFIG (id : Z) (on_connect on_data on_error on_close : Z) (socket_ptr : positive).

(** ** Events: the event thread reports, the game thread calls back *)

Inductive SocketEventType := TCP_CONNECTED | TCP_ACCEPTED | TCP_DATA | TCP_ERROR | TCP_CLOSED.

#[export] Instance SocketEventType_eq_dec : EqDecision SocketEventType.
Proof. solve_decision. Defined.

Record SocketEvent := mkEvent {
  e_type : SocketEventType;
  e_handle_id : Z;
  e_plugin_ctx : positive;
  e_callback : Z;
  e_data : bytes;
  e_error_code : Z;
  e_error_msg : bytes;
  e_remote_addr : bytes;
  e_remote_port : Z;
  e_accepted : option positive;             (* accepted_handle_id, the pointer *)
  e_userdata : Z;
  e_handle_closed : bool
}.

Definition IsCloseEvent (t : SocketEventType) : bool := bool_decide (t = TCP_CLOSED).

Definition MakeSocketEvent (t : SocketEventType) (id : Z) (ctx : positive) (callback userdata : Z) (closed : bool) : SocketEvent :=
  mkEvent t id ctx callback [] 0 [] [] 0 None userdata closed.

Definition MakeErrorEvent (t : SocketEventType) (id : Z) (ctx : positive) (callback userdata : Z) (closed : bool) (code : Z) (msg : bytes) : SocketEvent :=
  mkEvent t id ctx callback [] code msg [] 0 None userdata closed.

(** ** libuv

    A [uv_tcp_t] with the socket its [data] points to, the callback of
    [uv_close] once that was called, whether it reads or listens, the pending
    [uv_connect_t] and the pending writes with the sockets their [data] points
    to and the bytes written. *)
Inductive CloseCallback := CB_OnTcpClosed | CB_delete_handle | CB_delete_client | CB_null.

Record uv_tcp_t := mkUv {
  uv_data : positive;
  uv_closing : option CloseCallback;
  uv_reading : bool;
  uv_listening : bool;
  uv_connect : option positive;
  uv_writes : list (positive * bytes)
}.

Definition uv_tcp_init (data : positive) : uv_tcp_t := mkUv data None false false None [].

(** A resolution in progress: what its callback captures, the name and the port
    that are resolved. *)
Inductive Resolution :=
  | R_connect (id : Z) (host : bytes) (port : Z)
  | R_listen (id backlog : Z) (host : bytes) (port : Z)
  | R_bind (id : Z) (host : bytes) (port : Z).

Record TcpLoop := mkTcp {
  tcp_op_queue : LockedQueue TcpOp;
  socket_done_queue : LockedQueue SocketEvent;
  tcp_sockets_ : gmap Z positive;
  resolving : list Resolution;
  uv_handles : gmap positive uv_tcp_t
}.

Definition new_TcpLoop : TcpLoop := mkTcp new_LockedQueue new_LockedQueue ∅ [] ∅.

Definition set_ops (q : LockedQueue TcpOp) (t : TcpLoop) : TcpLoop :=
  mkTcp q (socket_done_queue t) (tcp_sockets_ t) (resolving t) (uv_handles t).
Definition set_events (q : LockedQueue SocketEvent) (t : TcpLoop) : TcpLoop :=
  mkTcp (tcp_op_queue t) q (tcp_sockets_ t) (resolving t) (uv_handles t).
Definition set_sockets (m : gmap Z positive) (t : TcpLoop) : TcpLoop :=
  mkTcp (tcp_op_queue t) (socket_done_queue t) m (resolving t) (uv_handles t).
Definition set_resolving (l : list Resolution) (t : TcpLoop) : TcpLoop :=
  mkTcp (tcp_op_queue t) (socket_done_queue t) (tcp_sockets_ t) l (uv_handles t).
Definition set_uvs (m : gmap positive uv_tcp_t) (t : TcpLoop) : TcpLoop :=
  mkTcp (tcp_op_queue t) (socket_done_queue t) (tcp_sockets_ t) (resolving t) m.

End Tcp.
