(* ===== verification/UdpSocket.v ===== *)
(** * [src/udp_socket.h]: UDP sockets, operations and events

    The members of a socket, the operations the game thread queues, the events
    that go back and what the event loop keeps: the table of sockets, the
    resolutions in progress and libuv's handles with their pending sends. *)

From stdpp Require Import base numbers list gmap.
From Stdlib Require Import ZArith Lia.
From S2P Require Import Prelude LockedQueue.

Module Udp.

Inductive UdpState := CREATED | BOUND | CLOSING | CLOSED.

#[export] Instance UdpState_eq_dec : EqDecision UdpState.
Proof. solve_decision. Defined.

Record UdpSocket := mkSocket {
  handle_id : Z;
  plugin_context : positive;
  on_data : Z;
  on_error : Z;
  on_close : Z;
  userdata : Z;
  broadcast : bool;
  ttl : Z;
  send_bufsize : Z;
  recv_bufsize : Z;
  handle_closed : bool;
  uv_handle : option positive;
  state : UdpState
}.

Definition eta (s : UdpSocket) : UdpSocket :=
  mkSocket (handle_id s) (plugin_context s) (on_data s) (on_error s) (on_close s) (userdata s) (broadcast s) (ttl s)
    (send_bufsize s) (recv_bufsize s) (handle_closed s) (uv_handle s) (state s).

Ltac setter p :=
  let x := fresh "x" in let s := fresh "s" in intros x s;
  let t := eval cbv beta delta [eta] in (eta s) in
  let t := eval pattern (p s) in t in
  lazymatch t with ?F _ => let u := eval cbv beta in (F x) in exact u end.

Definition set_handle_id : Z -> UdpSocket -> UdpSocket := ltac:(setter handle_id).
Definition set_on_data : Z -> UdpSocket -> UdpSocket := ltac:(setter on_data).
Definition set_on_error : Z -> UdpSocket -> UdpSocket := ltac:(setter on_error).
Definition set_on_close : Z -> UdpSocket -> UdpSocket := ltac:(setter on_close).
Definition set_broadcast : bool -> UdpSocket -> UdpSocket := ltac:(setter broadcast).
Definition set_ttl : Z -> UdpSocket -> UdpSocket := ltac:(setter ttl).
Definition set_send_bufsize : Z -> UdpSocket -> UdpSocket := ltac:(setter send_bufsize).
Definition set_recv_bufsize : Z -> UdpSocket -> UdpSocket := ltac:(setter recv_bufsize).
Definition set_handle_closed : bool -> UdpSocket -> UdpSocket := ltac:(setter handle_closed).
Definition set_uv_handle : option positive -> UdpSocket -> UdpSocket := ltac:(setter uv_handle).
Definition set_state : UdpState -> UdpSocket -> UdpSocket := ltac:(setter state).

Definition new_UdpSocket (ctx : positive) (userdata : Z) : UdpSocket :=
  mkSocket 0 ctx 0 0 0 userdata false 0 0 0 false None CREATED.

(** ** Operations and events *)

(** [BIND] carries the pointer that is registered under the handle. *)
Inductive UdpOp :=
  | BIND (id : Z) (addr : bytes) (port : Z) (socket_ptr : positive)
  | SEND (id : Z) (data : bytes) (addr : bytes) (port : Z)
  | CLOSE (id : Z)
  | SET_OPTION (id : Z) (option_id option_value : Z).

Inductive UdpEventType := UDP_DATA | UDP_ERROR | UDP_CLOSED.

#[export] Instance UdpEventType_eq_dec : EqDecision UdpEventType.
Proof. solve_decision. Defined.

(** The members of a [SocketEvent] that UDP uses. *)
Record UdpEvent := mkEvent {
  e_type : UdpEventType;
  e_handle_id : Z;
  e_plugin_ctx : positive;
  e_callback : Z;
  e_data : bytes;
  e_error_code : Z;
  e_error_msg : bytes;
  e_remote_addr : bytes;
  e_remote_port : Z;
  e_userdata : Z;
  e_handle_closed : bool
}.

Definition MakeSocketEvent (t : UdpEventType) (id : Z) (ctx : positive) (callback userdata : Z) (closed : bool) : UdpEvent :=
  mkEvent t id ctx callback [] 0 [] [] 0 userdata closed.

Definition MakeErrorEvent (t : UdpEventType) (id : Z) (ctx : positive) (callback userdata : Z) (closed : bool) (code : Z) (msg : bytes) : UdpEvent :=
  mkEvent t id ctx callback [] code msg [] 0 userdata closed.

(** ** libuv and the event loop

    A [uv_udp_t] with the socket its [data] points to, whether [uv_close] was
    called and whether it receives, and the sends that are not done: the bytes
    and the address. *)
Record uv_udp_t := mkUv {
  uv_data : positive;
  uv_closing : bool;
  uv_receiving : bool;
  uv_sends : list (bytes * bytes)
}.

Definition uv_udp_init (data : positive) : uv_udp_t := mkUv data false false [].

(** What the callback of a resolution captures, and the name it resolves. *)
Inductive Resolution :=
  | R_bind (id : Z) (addr : bytes) (port : Z)
  | R_send (id : Z) (data : bytes) (addr : bytes) (port : Z).

Record UdpLoop := mkUdp {
  udp_op_queue : LockedQueue UdpOp;
  udp_events : LockedQueue UdpEvent;
  udp_sockets_ : gmap Z positive;
  resolving : list Resolution;
  uv_handles : gmap positive uv_udp_t
}.

Definition new_UdpLoop : UdpLoop := mkUdp new_LockedQueue new_LockedQueue ∅ [] ∅.

Definition set_ops (q : LockedQueue UdpOp) (t : UdpLoop) : UdpLoop := mkUdp q (udp_events t) (udp_sockets_ t) (resolving t) (uv_handles t).
Definition set_events (q : LockedQueue UdpEvent) (t : UdpLoop) : UdpLoop := mkUdp (udp_op_queue t) q (udp_sockets_ t) (resolving t) (uv_handles t).
Definition set_sockets (m : gmap Z positive) (t : UdpLoop) : UdpLoop := mkUdp (udp_op_queue t) (udp_events t) m (resolving t) (uv_handles t).
Definition set_resolving (l : list Resolution) (t : UdpLoop) : UdpLoop := mkUdp (udp_op_queue t) (udp_events t) (udp_sockets_ t) l (uv_handles t).
Definition set_uvs (m : gmap positive uv_udp_t) (t : UdpLoop) : UdpLoop := mkUdp (udp_op_queue t) (udp_events t) (udp_sockets_ t) (resolving t) m.

End Udp.
