(* ===== verification/DnsResolver.v ===== *)
(** * [src/dns_resolver.h], [src/dns_resolver.cpp]: name resolution with a cache

    [Resolve] answers at once for address literals and names in the cache, and
    asks c-ares otherwise; [OnResolveComplete] stores what c-ares found and
    answers.  An answer is what the callback is called with.  c-ares, libuv's
    timer and polls, [inet_pton] and the clock are outside: the requests c-ares
    has, the sockets it watches and the timer are kept as state, literals are
    read by parameters, results and the time (in nanoseconds) are arguments. *)

From stdpp Require Import base numbers list gmap.
From Stdlib Require Import ZArith Lia.
From S2P Require Import Prelude LockedQueue.

Module Dns.

(** ** Data *)

(** An IPv4 or IPv6 address with a port in host order, or another family. *)
Inductive sockaddr := Sin4 (sin_addr : bytes) (sin_port : Z) | Sin6 (sin6_addr : bytes) (sin6_port : Z) | SaOther (family : Z).

Definition SetAddrPort (port : Z) (a : sockaddr) : sockaddr :=
  match a with Sin4 x _ => Sin4 x (uN 16 port) | Sin6 x _ => Sin6 x (uN 16 port) | SaOther f => SaOther f end.

Record DnsCacheEntry := mkEntry { addr : sockaddr; addrlen : Z; expires_at : Z }.

(** The call of a [ResolveCallback]: a status, and an address that may be null. *)
Record Answer := mkAnswer { a_status : Z; a_addr : option sockaddr; a_len : Z }.

(** A [ResolveRequest]; [callback] stands for the function that is called. *)
Record ResolveRequest := mkRequest { callback : positive; port : Z; hostname : bytes }.

(** A node of [ares_addrinfo]; [ai_family] is the family of [ai_addr]. *)
Record addrinfo_node := mkNode { ai_addr : sockaddr; ai_addrlen : Z; ai_ttl : Z }.

Record DnsResolver := mkDns {
  initialized_ : bool;
  channel_ : bool;                              (* not null *)
  timeout_ms_ : Z;
  tries_ : Z;
  cache_ : gmap (list Z) DnsCacheEntry;
  cache_ttl_ : Z;
  requests : gmap positive ResolveRequest;      (* given to c-ares *)
  poll_handles_ : gmap Z Z;                     (* the events of each socket *)
  closing_polls : list Z;                       (* [uv_close] was called *)
  timer_ : option Z
}.

Definition dns_eta (r : DnsResolver) : DnsResolver :=
  mkDns (initialized_ r) (channel_ r) (timeout_ms_ r) (tries_ r) (cache_ r) (cache_ttl_ r) (requests r) (poll_handles_ r) (closing_polls r) (timer_ r).

Ltac dns_setter p :=
  let x := fresh "x" in let r := fresh "r" in intros x r;
  let t := eval cbv beta delta [dns_eta] in (dns_eta r) in
  let t := eval pattern (p r) in t in
  lazymatch t with ?F _ => let u := eval cbv beta in (F x) in exact u end.

Definition set_initialized : bool -> DnsResolver -> DnsResolver := ltac:(dns_setter initialized_).
Definition set_channel : bool -> DnsResolver -> DnsResolver := ltac:(dns_setter channel_).
Definition set_timeouts (timeout tries : Z) (r : DnsResolver) : DnsResolver :=
  mkDns (initialized_ r) (channel_ r) timeout tries (cache_ r) (cache_ttl_ r) (requests r) (poll_handles_ r) (closing_polls r) (timer_ r).
Definition set_cache : gmap (list Z) DnsCacheEntry -> DnsResolver -> DnsResolver := ltac:(dns_setter cache_).
Definition set_cache_ttl : Z -> DnsResolver -> DnsResolver := ltac:(dns_setter cache_ttl_).
Definition set_requests : gmap positive ResolveRequest -> DnsResolver -> DnsResolver := ltac:(dns_setter requests).
Definition set_polls : gmap Z Z -> DnsResolver -> DnsResolver := ltac:(dns_setter poll_handles_).
Definition set_closing_polls : list Z -> DnsResolver -> DnsResolver := ltac:(dns_setter closing_polls).
Definition set_timer : option Z -> DnsResolver -> DnsResolver := ltac:(dns_setter timer_).

Definition new_DnsResolver : DnsResolver := mkDns false false 5000 2 ∅ 60 ∅ ∅ [] None.

Definition kMaxCacheEntries : nat := 1024.
Definition ARES_SUCCESS : Z := 0.
Definition ARES_ENOTFOUND : Z := 4.
Definition ARES_EDESTRUCTION : Z := 16.
Definition ARES_ECANCELLED : Z := 24.

(** [std::chrono::seconds] in nanoseconds. *)
Definition seconds (n : Z) : Z := n * 1000000000.

(** ** Channel, timer, sockets *)

(** [rc] is what [ares_init_options] returns. *)
Definition InitChannel (rc : Z) (r : DnsResolver) : bool * DnsResolver :=
  if rc =? ARES_SUCCESS then (true, set_channel true r) else (false, r).

Definition Init (rc : Z) (r : DnsResolver) : bool * DnsResolver :=
  let '(ok, r) := InitChannel rc r in if ok then (true, set_initialized true r) else (false, r).

(** [tv] is what [ares_timeout] returns: seconds and microseconds, or null. *)
Definition UpdateTimer (tv : option (Z * Z)) (r : DnsResolver) : DnsResolver :=
  match tv with
  | Some (sec, usec) => let ms := sec * 1000 + usec / 1000 in set_timer (Some (if ms =? 0 then 1 else ms)) r
  | None => set_timer None r
  end.

Definition UV_READABLE : Z := 1.
Definition UV_WRITABLE : Z := 2.
Definition ARES_SOCKET_BAD : Z := -1.

Definition OnSockStateChange (sock : Z) (readable writable : bool) (r : DnsResolver) : DnsResolver :=
  if negb readable && negb writable then
    match poll_handles_ r !! sock with
    | Some _ => set_closing_polls (sock :: closing_polls r) (set_polls (delete sock (poll_handles_ r)) r)
    | None => r
    end
  else
    let events := Z.lor (if readable then UV_READABLE else 0) (if writable then UV_WRITABLE else 0) in
    set_polls (<[sock := events]> (poll_handles_ r)) r.

(** [OnPollActivity]: the descriptors given to [ares_process_fd], which calls
    back from there; then [UpdateTimer]. *)
Definition poll_descriptors (sock events : Z) : Z * Z :=
  (if Z.testbit events 0 then sock else ARES_SOCKET_BAD, if Z.testbit events 1 then sock else ARES_SOCKET_BAD).

(** ** Resolution *)

Section Resolve.

(** [inet_pton] for the two families. *)
Context (inet_pton4 inet_pton6 : bytes -> option bytes).

(** The cache's part: an entry that has not expired, or the cache without one
    that has. *)
Definition cache_lookup (host : bytes) (now : Z) (r : DnsResolver) : option DnsCacheEntry * DnsResolver :=
  if cache_ttl_ r >? 0 then
    match cache_ r !! host with
    | Some e => if now <? expires_at e then (Some e, r) else (None, set_cache (delete host (cache_ r)) r)
    | None => (None, r)
    end
  else (None, r).

(** [cb] is the callback; [tv] what [ares_timeout] then returns. *)
Definition Resolve (host : bytes) (port : Z) (cb : positive) (now : Z) (tv : option (Z * Z)) (r : DnsResolver) : option Answer * DnsResolver :=
  match inet_pton4 host with
  | Some a => (Some (mkAnswer 0 (Some (Sin4 a (uN 16 port))) 16), r)
  | None =>
      match inet_pton6 host with
      | Some a => (Some (mkAnswer 0 (Some (Sin6 a (uN 16 port))) 28), r)
      | None =>
          match cache_lookup host now r with
          | (Some e, r) => (Some (mkAnswer 0 (Some (SetAddrPort port (addr e))) (addrlen e)), r)
          | (None, r) => (None, UpdateTimer tv (set_requests (<[cb := mkRequest cb port host]> (requests r)) r))
          end
      end
  end.

End Resolve.

(** The entry that expires first; of several the first of the loop. *)
Definition older (acc : option (list Z * DnsCacheEntry)) (x : list Z * DnsCacheEntry) : option (list Z * DnsCacheEntry) :=
  match acc with
  | None => Some x
  | Some o => if expires_at x.2 <? expires_at o.2 then Some x else Some o
  end.
Definition oldest (m : gmap (list Z) DnsCacheEntry) : option (list Z * DnsCacheEntry) := foldl older None (map_to_list m).

Definition evict (m : gmap (list Z) DnsCacheEntry) : gmap (list Z) DnsCacheEntry :=
  if (kMaxCacheEntries <=? size m)%nat then match oldest m with Some (k, _) => delete k m | None => m end else m.

Definition entry_ttl (node_ttl max_ttl : Z) : Z :=
  let ttl := if node_ttl >? 0 then node_ttl else max_ttl in if ttl >? max_ttl then max_ttl else ttl.

(** What is stored for a node. *)
Definition cache_node (host : bytes) (n : addrinfo_node) (now : Z) (r : DnsResolver) : DnsResolver :=
  if (cache_ttl_ r >? 0) && negb (bool_decide (host = [])) then
    let entry := mkEntry (SetAddrPort 0 (ai_addr n)) (ai_addrlen n) (now + seconds (entry_ttl (ai_ttl n) (cache_ttl_ r))) in
    set_cache (<[host := entry]> (evict (cache_ r))) r
  else r.

(** c-ares calls back for a request it was given; [result] is null or a list of
    nodes.  [None]: there is no such request. *)
Definition OnResolveComplete (cb : positive) (status : Z) (result : option (list addrinfo_node)) (now : Z) (r : DnsResolver) : option (Answer * DnsResolver) :=
  let? req := requests r !! cb in
  let r := set_requests (delete cb (requests r)) r in
  match (if status =? ARES_SUCCESS then result else None) with
  | None | Some [] => Some (mkAnswer status None 0, r)
  | Some (n :: _) =>
      match ai_addr n with
      | SaOther _ => Some (mkAnswer ARES_ENOTFOUND None 0, r)
      | a => Some (mkAnswer 0 (Some (SetAddrPort (port req) a)) (ai_addrlen n), cache_node (hostname req) n now r)
      end
  end.

(** ** Settings and shutdown *)

Definition FlushCache (r : DnsResolver) : DnsResolver := set_cache ∅ r.

Definition SetCacheTtl (n : Z) (r : DnsResolver) : DnsResolver := set_cache_ttl (if n >=? 0 then n else 0) r.

Definition INT_MAX : Z := 2 ^ 31 - 1.

(** [capacity] and [bucket_count] are the standard library's. *)
Definition GetCacheStats (capacity : bytes -> Z) (bucket_count : Z) (r : DnsResolver) : Z * Z :=
  let mem := foldr (fun k acc => 144 + (capacity k + 1) + acc) 0 (map_to_list (cache_ r)).*1 + bucket_count * 8 in
  (sN 32 (Z.of_nat (size (cache_ r))), if mem >? INT_MAX then INT_MAX else mem).

(** [ares_cancel] and [ares_destroy] answer the requests that are left. *)
Definition answer_all (status : Z) (r : DnsResolver) : list (positive * Answer) * DnsResolver :=
  ((fun cb => (cb, mkAnswer status None 0)) <$> (map_to_list (requests r)).*1, set_requests ∅ r).

Definition Reinit (timeout_ms tries rc : Z) (r : DnsResolver) : bool * list (positive * Answer) * DnsResolver :=
  if negb (initialized_ r) then (false, [], r) else
  let r := set_timeouts (if timeout_ms >? 0 then timeout_ms else 5000) (if tries >? 0 then tries else 2) r in
  let '(answers, r) := answer_all ARES_ECANCELLED r in
  let '(ok, r) := InitChannel rc (set_channel false r) in (ok, answers, r).

Definition Shutdown (r : DnsResolver) : list (positive * Answer) * DnsResolver :=
  if negb (initialized_ r) then ([], r) else
  let r := set_polls ∅ (set_closing_polls ((map_to_list (poll_handles_ r)).*1 ++ closing_polls r) r) in
  let r := set_timer None r in
  let '(answers, r) := if channel_ r then let '(l, r) := answer_all ARES_EDESTRUCTION r in (l, set_channel false r) else ([], r) in
  (answers, set_initialized false (set_cache ∅ r)).

(** ** The operation that the game thread queues ([event_loop.h]) *)

Record DnsOp := mkDnsOp { op_timeout_ms : Z; op_tries : Z }.

Record DnsLoop := mkDnsLoop { dns_op_queue : LockedQueue DnsOp; dns_resolver_ : DnsResolver }.

Definition new_DnsLoop : DnsLoop := mkDnsLoop new_LockedQueue new_DnsResolver.

(** ** The cache *)

Definition port_of (a : sockaddr) : option Z := match a with Sin4 _ p | Sin6 _ p => Some p | SaOther _ => None end.

Lemma port_SetAddrPort n a : is_Some (port_of a) -> port_of (SetAddrPort n a) = Some (uN 16 n).
Proof. destruct a; cbn; [done|done|]. by intros [? ?]. Qed.

Lemma SetAddrPort_twice n m a : SetAddrPort n (SetAddrPort m a) = SetAddrPort n a.
Proof. by destruct a. Qed.

Lemma foldl_older l : forall acc, match foldl older acc l with
  | Some o => (o ∈ l \/ acc = Some o) /\ (forall x, x ∈ l -> expires_at o.2 <= expires_at x.2) /\ (forall a, acc = Some a -> expires_at o.2 <= expires_at a.2)
  | None => acc = None /\ l = []
  end.
Proof.
  induction l as [|x l IH]; intros acc; cbn [foldl].
  - destruct acc as [o|]; [|done]. split_and!; [by right|by intros x ?%not_elem_of_nil|]. intros a [= ->]. lia.
  - specialize (IH (older acc x)). destruct (foldl older (older acc x) l) as [o|]; [|destruct IH as [E _]; unfold older in E; destruct acc as [a|]; [by destruct (_ <? _)|done]].
    destruct IH as (H1 & H2 & H3).
    assert (exists a, older acc x = Some a /\ expires_at a.2 <= expires_at x.2 /\ (forall b, acc = Some b -> expires_at a.2 <= expires_at b.2) /\ (a = x \/ acc = Some a)) as (a & Ea & A1 & A2 & A3).
    { unfold older. destruct acc as [b|]; [|exists x; split_and!; [done|lia|done|by left]]. destruct (Z.ltb_spec (expires_at x.2) (expires_at b.2)).
      - exists x. split_and!; [done|lia| |by left]. intros c [= ->]. lia.
      - exists b. split_and!; [done|lia| |by right]. intros c [= ->]. lia. }
    specialize (H3 a Ea). split_and!.
    + destruct H1 as [H1|H1]; [left; by constructor|]. assert (o = a) as -> by congruence. destruct A3 as [-> |]; [left; constructor|by right].
    + intros y [->|Hy]%elem_of_cons; [lia|by apply H2].
    + intros b Hb. specialize (A2 b Hb). lia.
Qed.

(** The evicted entry is one that expires first. *)
Lemma oldest_spec m : m <> ∅ -> exists k e, oldest m = Some (k, e) /\ m !! k = Some e /\ forall k' e', m !! k' = Some e' -> expires_at e <= expires_at e'.
Proof.
  intros Hne. pose proof (foldl_older (map_to_list m) None) as Hf. unfold oldest. destruct (foldl older None (map_to_list m)) as [[k e]|].
  - destruct Hf as ([Hin|?] & Hmin & _); [|done]. exists k, e. split_and!; [done|by apply elem_of_map_to_list|]. intros k' e' He. apply (Hmin (k', e')). by apply elem_of_map_to_list.
  - destruct Hf as [_ Hnil]. by apply map_to_list_empty_iff in Hnil.
Qed.

Lemma evict_subset m : evict m ⊆ m.
Proof. unfold evict. destruct (_ <=? _)%nat; [|done]. destruct (oldest m) as [[k e]|]; [apply delete_subseteq|done]. Qed.

Lemma evict_size m : (size m <= kMaxCacheEntries)%nat -> (size (evict m) < kMaxCacheEntries)%nat.
Proof.
  intros Hs. unfold evict. destruct (Nat.leb_spec kMaxCacheEntries (size m)); [|done]. destruct (oldest_spec m) as (k & e & -> & Hk & _).
  { intros ->. rewrite map_size_empty in *. unfold kMaxCacheEntries in *. lia. }
  rewrite map_size_delete_Some by (by eexists). unfold kMaxCacheEntries in *. lia.
Qed.

Lemma entry_ttl_max n m : entry_ttl n m <= m.
Proof. unfold entry_ttl. repeat match goal with |- context [?a >? ?b] => destruct (Z.gtb_spec a b) end; lia. Qed.

(** A full cache gives up what expires first.  When c-ares has found an address for
    a name and the cache holds its 1024 entries, one entry is removed: no other
    entry expires earlier than the removed one.  All other entries stay as they
    are, and the name is stored with the address (port 0) for at most the
    configured time to live.  A cache with room loses nothing. *)
Theorem dns_evicts_oldest (host : bytes) (n : addrinfo_node) (now : Z) (r : DnsResolver) : 0 < cache_ttl_ r -> host <> [] ->
  exists gone e, cache_ (cache_node host n now r) = <[host := e]> (filter (fun x => x.1 ∉ gone) (cache_ r)) /\
    addr e = SetAddrPort 0 (ai_addr n) /\ expires_at e <= now + seconds (cache_ttl_ r) /\
    length gone = (if decide (kMaxCacheEntries <= size (cache_ r))%nat then 1 else 0)%nat /\
    forall k o, k ∈ gone -> cache_ r !! k = Some o -> forall k' e', cache_ r !! k' = Some e' -> expires_at o <= expires_at e'.
Proof.
  intros Ht Hh. unfold cache_node. assert (cache_ttl_ r >? 0 = true) as -> by (apply Z.gtb_lt; lia). rewrite bool_decide_false by done. cbn [negb andb cache_ set_cache].
  set (e := mkEntry _ _ _). pose proof (entry_ttl_max (ai_ttl n) (cache_ttl_ r)) as Hm.
  assert (expires_at e <= now + seconds (cache_ttl_ r)) as He by (unfold e, seconds; cbn; lia).
  assert (forall l, filter (fun x : list Z * DnsCacheEntry => x.1 ∉ l) (cache_ r) = foldr delete (cache_ r) l) as Hfold.
  { intros l. apply map_eq. intros k. apply option_eq. intros x. rewrite map_lookup_filter_Some, lookup_foldr_delete_Some. cbn. tauto. }
  unfold evict. case_decide as Hsz.
  - rewrite (proj2 (Nat.leb_le _ _) Hsz). destruct (oldest_spec (cache_ r)) as (k & o & -> & Hk & Hmin).
    { intros E. rewrite E, map_size_empty in Hsz. unfold kMaxCacheEntries in Hsz. lia. }
    exists [k], e. rewrite Hfold. split_and!; try done. intros k' o' ->%list_elem_of_singleton Ho'. assert (o' = o) as -> by congruence. exact Hmin.
  - rewrite (proj2 (Nat.leb_gt _ _)) by lia. exists [], e. rewrite Hfold. split_and!; try done. by intros k o ?%not_elem_of_nil.
Qed.

(** The clock and the settings that matter. *)
Section Cached.

Context (inet_pton4 inet_pton6 : bytes -> option bytes).


(** ** Runs *)

(** Callbacks that were passed to [Resolve] with their ports, and the answers
    given; the time, and the largest time to live so far. *)
Record dns_state := mkDnsState {
  resolver : DnsResolver;
  clock : Z;
  issued : list (positive * Z);
  answered : list (positive * Answer);
  max_ttl : Z
}.

Inductive dns_op :=
  | DInit (rc : Z) | DResolve (host : bytes) (port : Z) (cb : positive) (now : Z) (tv : option (Z * Z))
  | DComplete (cb : positive) (status : Z) (result : option (list addrinfo_node)) (now : Z)
  | DFlush | DSetTtl (n : Z) | DReinit (timeout_ms tries rc : Z) | DShutdown
  | DSock (sock : Z) (readable writable : bool) | DTimer (tv : option (Z * Z)).

Definition with_resolver (r : DnsResolver) (s : dns_state) : dns_state := mkDnsState r (clock s) (issued s) (answered s) (max_ttl s).

Definition dns_step (o : dns_op) (s : dns_state) : option dns_state :=
  let r := resolver s in
  match o with
  | DInit rc => Some (with_resolver (Init rc r).2 s)
  | DResolve host port cb now tv =>
      let '(a, r) := Resolve inet_pton4 inet_pton6 host port cb now tv r in
      Some (mkDnsState r now ((cb, port) :: issued s) (match a with Some a => (cb, a) :: answered s | None => answered s end) (max_ttl s))
  | DComplete cb status result now =>
      let? (a, r) := OnResolveComplete cb status result now r in Some (mkDnsState r now (issued s) ((cb, a) :: answered s) (max_ttl s))
  | DFlush => Some (with_resolver (FlushCache r) s)
  | DSetTtl n => let r := SetCacheTtl n r in Some (mkDnsState r (clock s) (issued s) (answered s) (Z.max (max_ttl s) (cache_ttl_ r)))
  | DReinit timeout tries rc => let '(_, l, r) := Reinit timeout tries rc r in Some (mkDnsState r (clock s) (issued s) (l ++ answered s) (max_ttl s))
  | DShutdown => let '(l, r) := Shutdown r in Some (mkDnsState r (clock s) (issued s) (l ++ answered s) (max_ttl s))
  | DSock sock rd wr => Some (with_resolver (OnSockStateChange sock rd wr r) s)
  | DTimer tv => Some (with_resolver (UpdateTimer tv r) s)
  end.

(** Time does not go back, callbacks are new objects, c-ares answers requests
    that it has. *)
Definition dns_may (o : dns_op) (s : dns_state) : Prop :=
  match o with
  | DResolve _ _ cb now _ => clock s <= now /\ cb ∉ (issued s).*1
  | DComplete cb _ _ now => clock s <= now /\ is_Some (requests (resolver s) !! cb)
  | _ => True
  end.

Inductive dns_runs : dns_state -> Prop :=
  | dns_start now : dns_runs (mkDnsState new_DnsResolver now [] [] 60)
  | dns_next s o s' : dns_runs s -> dns_may o s -> dns_step o s = Some s' -> dns_runs s'.

Definition entry_ok (now ttl : Z) (e : DnsCacheEntry) : Prop := port_of (addr e) = Some 0 /\ expires_at e <= now + seconds ttl.

Record dns_ok (s : dns_state) : Prop := {
  N_size : (size (cache_ (resolver s)) <= kMaxCacheEntries)%nat;
  N_entries : map_Forall (fun _ => entry_ok (clock s) (max_ttl s)) (cache_ (resolver s));
  N_ttl : cache_ttl_ (resolver s) <= max_ttl s;
  N_nodup : NoDup (issued s).*1;
  N_once : (answered s).*1 ++ (map_to_list (requests (resolver s))).*1 ≡ₚ (issued s).*1;
  N_requests : map_Forall (fun cb q => (cb, port q) ∈ issued s) (requests (resolver s));
  N_ports : forall cb a ad, (cb, a) ∈ answered s -> a_addr a = Some ad -> exists p, (cb, p) ∈ issued s /\ port_of ad = Some (uN 16 p)
}.

Lemma dns_ok_start now : dns_ok (mkDnsState new_DnsResolver now [] [] 60).
Proof.
  split; cbn; try done; [rewrite map_size_empty; unfold kMaxCacheEntries; lia|constructor|]. by intros cb a ad ?%not_elem_of_nil.
Qed.

(** A step that leaves requests and answers alone. *)
Lemma dns_ok_quiet s r ttl : dns_ok s -> requests r = requests (resolver s) -> cache_ r ⊆ cache_ (resolver s) -> cache_ttl_ r <= ttl -> max_ttl s <= ttl ->
  dns_ok (mkDnsState r (clock s) (issued s) (answered s) ttl).
Proof.
  intros [H1 H2 H3 H4 H5 H6 H7] Er Ec Et Em. split; cbn; rewrite ?Er; try done.
  - etrans; [by apply map_subseteq_size|done].
  - intros k e He. destruct (H2 k e) as [E1 E2]; [by eapply lookup_weaken|]. split; [done|]. unfold seconds in *. lia.
Qed.

(** c-ares answers all it has. *)
Lemma dns_ok_answers s r status : dns_ok s -> r = (answer_all status (resolver s)).2 -> 
  dns_ok (mkDnsState r (clock s) (issued s) ((answer_all status (resolver s)).1 ++ answered s) (max_ttl s)).
Proof.
  intros [H1 H2 H3 H4 H5 H6 H7] ->. split; cbn; try done.
  - rewrite fmap_app, app_nil_r, <- list_fmap_compose. cbn. rewrite list_fmap_id, Permutation_app_comm. exact H5.
  - intros cb a ad [Hin|Hin]%elem_of_app Ha; [|by eapply H7]. apply list_elem_of_fmap in Hin as (cb' & [= -> ->] & _). done.
Qed.

Lemma lookup_subset host now r : cache_ (cache_lookup host now r).2 ⊆ cache_ r /\ requests (cache_lookup host now r).2 = requests r /\
  cache_ttl_ (cache_lookup host now r).2 = cache_ttl_ r /\ (forall e, (cache_lookup host now r).1 = Some e -> exists k, cache_ r !! k = Some e).
Proof.
  unfold cache_lookup. destruct (_ >? 0); [|by split_and!]. destruct (cache_ r !! host) as [e|] eqn:E; [|by split_and!]. destruct (now <? _); cbn; split_and!; try done.
  - intros e' [= <-]. by exists host.
  - apply delete_subseteq.
Qed.

(** Time passes. *)
Lemma dns_ok_later s now : dns_ok s -> clock s <= now -> dns_ok (mkDnsState (resolver s) now (issued s) (answered s) (max_ttl s)).
Proof. intros [H1 H2 H3 H4 H5 H6 H7] Hn. split; try done. intros k e He. destruct (H2 k e He). split; [done|]. cbn. lia. Qed.

Lemma dns_ok_answered s cb p a : dns_ok s -> cb ∉ (issued s).*1 -> (forall ad, a_addr a = Some ad -> port_of ad = Some (uN 16 p)) ->
  dns_ok (mkDnsState (resolver s) (clock s) ((cb, p) :: issued s) ((cb, a) :: answered s) (max_ttl s)).
Proof.
  intros [H1 H2 H3 H4 H5 H6 H7] Hcb Ha. split; cbn; try done.
  - by constructor.
  - by rewrite H5.
  - intros c q Hq. constructor 2. by apply H6.
  - intros c a' ad [[= -> ->]|Hin]%elem_of_cons Had; [exists p; split; [constructor|by apply Ha]|]. destruct (H7 c a' ad Hin Had) as (p' & Hp & E). exists p'. split; [by constructor|done].
Qed.

Lemma dns_ok_asked s cb p host tv : dns_ok s -> cb ∉ (issued s).*1 ->
  dns_ok (mkDnsState (UpdateTimer tv (set_requests (<[cb := mkRequest cb p host]> (requests (resolver s))) (resolver s))) (clock s) ((cb, p) :: issued s) (answered s) (max_ttl s)).
Proof.
  intros [H1 H2 H3 H4 H5 H6 H7] Hcb. assert (requests (resolver s) !! cb = None) as Hn.
  { destruct (requests (resolver s) !! cb) as [q|] eqn:E; [|done]. destruct Hcb. apply list_elem_of_fmap. exists (cb, port q). split; [done|by apply H6]. }
  set (r := UpdateTimer _ _). assert (cache_ r = cache_ (resolver s) /\ cache_ttl_ r = cache_ttl_ (resolver s) /\ requests r = <[cb := mkRequest cb p host]> (requests (resolver s))) as (E1 & E2 & E3).
  { unfold r, UpdateTimer. by destruct tv as [[? ?]|]. }
  split; cbn [resolver clock issued answered max_ttl]; rewrite ?E1, ?E2, ?E3; try done.
  - by constructor.
  - rewrite map_to_list_insert by done. cbn. by rewrite <- Permutation_middle, H5.
  - intros c q [[<- <-]|[_ Hq]]%lookup_insert_Some; [constructor|]. constructor 2. by apply H6.
  - intros c a' ad Hin Had. destruct (H7 c a' ad Hin Had) as (p' & Hp & E). exists p'. split; [by constructor|done].
Qed.

(** A request that is answered. *)
Lemma dns_ok_complete s cb req a : dns_ok s -> requests (resolver s) !! cb = Some req -> (forall ad, a_addr a = Some ad -> port_of ad = Some (uN 16 (port req))) ->
  dns_ok (mkDnsState (set_requests (delete cb (requests (resolver s))) (resolver s)) (clock s) (issued s) ((cb, a) :: answered s) (max_ttl s)).
Proof.
  intros [H1 H2 H3 H4 H5 H6 H7] Hreq Ha. split; cbn; try done.
  - rewrite <- H5. rewrite <- (map_to_list_delete (requests (resolver s)) cb req) by done. cbn. by rewrite <- Permutation_middle.
  - intros c q [_ Hq]%lookup_delete_Some. by apply H6.
  - intros c a' ad [[= -> ->]|Hin]%elem_of_cons Had; [exists (port req); split; [by apply H6|by apply Ha]|by eapply H7].
Qed.

Lemma dns_ok_cache s host n : dns_ok s -> is_Some (port_of (ai_addr n)) ->
  dns_ok (mkDnsState (cache_node host n (clock s) (resolver s)) (clock s) (issued s) (answered s) (max_ttl s)).
Proof.
  intros H Hf. unfold cache_node. destruct (_ && _); [|by destruct s]. destruct H as [H1 H2 H3 H4 H5 H6 H7]. split; cbn; try done.
  - destruct (evict (cache_ (resolver s)) !! host) eqn:E; [rewrite map_size_insert_Some by (by eexists)|rewrite map_size_insert_None by done];
      pose proof (evict_size _ H1); lia.
  - apply map_Forall_insert_2; [|intros k e He; apply (H2 k e); eapply lookup_weaken; [exact He|apply evict_subset]]. split; cbn; [by rewrite port_SetAddrPort|].
    pose proof (entry_ttl_max (ai_ttl n) (cache_ttl_ (resolver s))). unfold seconds. lia.
Qed.

Lemma dns_step_ok s o s' : dns_ok s -> dns_may o s -> dns_step o s = Some s' -> dns_ok s'.
Proof.
  intros H Hm Hs. destruct o; cbn [dns_step dns_may] in *.
  - injection Hs as <-. apply dns_ok_quiet; unfold Init, InitChannel; destruct (rc =? ARES_SUCCESS); try done; apply H.
  - destruct Hm as [Hn Hcb]. pose proof (dns_ok_later s now H Hn) as Hl. unfold Resolve in Hs.
    destruct (inet_pton4 host) as [a4|]; [injection Hs as <-; apply (dns_ok_answered _ cb _ _ Hl); [done|by intros ad [= <-]]|].
    destruct (inet_pton6 host) as [a6|]; [injection Hs as <-; apply (dns_ok_answered _ cb _ _ Hl); [done|by intros ad [= <-]]|].
    destruct (lookup_subset host now (resolver s)) as (L1 & L2 & L3 & L4). destruct (cache_lookup host now (resolver s)) as [[e|] r]; cbn in L1, L2, L3, L4; injection Hs as <-.
    + assert (dns_ok (mkDnsState r now (issued s) (answered s) (max_ttl s))) as Hr by (apply (dns_ok_quiet _ _ _ Hl); cbn; rewrite ?L3; try done; apply H).
      apply (dns_ok_answered _ cb _ _ Hr); [done|]. intros ad [= <-]. destruct (L4 e eq_refl) as [k Hk]. destruct (N_entries _ H k e Hk) as [Hp _].
      apply port_SetAddrPort. by eexists.
    + assert (dns_ok (mkDnsState r now (issued s) (answered s) (max_ttl s))) as Hr by (apply (dns_ok_quiet _ _ _ Hl); cbn; rewrite ?L3; try done; apply H).
      exact (dns_ok_asked _ cb port0 host tv Hr Hcb).
  - destruct Hm as [Hn [req Hreq]]. pose proof (dns_ok_later s now H Hn) as Hl. unfold OnResolveComplete in Hs. rewrite Hreq in Hs. cbn in Hs.
    assert (forall st, dns_ok (mkDnsState (set_requests (delete cb (requests (resolver s))) (resolver s)) now (issued s) ((cb, mkAnswer st None 0) :: answered s) (max_ttl s))) as Hnone
      by (intros st; by apply (dns_ok_complete _ cb req _ Hl)).
    destruct (if status =? ARES_SUCCESS then result else None) as [[|n ns]|]; [injection Hs as <-; apply Hnone| |injection Hs as <-; apply Hnone].
    assert (is_Some (port_of (ai_addr n)) -> dns_ok (mkDnsState (cache_node (hostname req) n now (set_requests (delete cb (requests (resolver s))) (resolver s))) now (issued s)
      ((cb, mkAnswer 0 (Some (SetAddrPort (port req) (ai_addr n))) (ai_addrlen n)) :: answered s) (max_ttl s))) as Hsome.
    { intros Hf. eapply (dns_ok_cache (mkDnsState _ now (issued s) (_ :: answered s) (max_ttl s))); [|done]. apply (dns_ok_complete _ cb req _ Hl Hreq). intros ad [= <-]. by apply port_SetAddrPort. }
    destruct (ai_addr n) as [x q|x q|f]; injection Hs as <-; [apply Hsome; by eexists|apply Hsome; by eexists|apply Hnone].
  - injection Hs as <-. apply dns_ok_quiet; try done; [apply map_empty_subseteq|apply H].
  - injection Hs as <-. apply dns_ok_quiet; try done; [apply Z.le_max_r|apply Z.le_max_l].
  - unfold Reinit in Hs. destruct (initialized_ _); cbn in Hs; [|injection Hs as <-; by destruct s].
    set (r1 := set_timeouts _ _ (resolver s)) in Hs. assert (dns_ok (mkDnsState r1 (clock s) (issued s) (answered s) (max_ttl s))) as Hr1 by (apply dns_ok_quiet; try done; apply H).
    pose proof (dns_ok_answers _ _ ARES_ECANCELLED Hr1 eq_refl) as Hr2. unfold InitChannel in Hs. destruct (rc =? ARES_SUCCESS); injection Hs as <-; apply (dns_ok_quiet _ _ _ Hr2); try done; apply H.
  - unfold Shutdown in Hs. destruct (initialized_ _); cbn in Hs; [|injection Hs as <-; by destruct s].
    set (r1 := set_timer None _) in Hs. assert (dns_ok (mkDnsState r1 (clock s) (issued s) (answered s) (max_ttl s))) as Hr1 by (apply dns_ok_quiet; try done; apply H).
    destruct (channel_ (resolver s)); injection Hs as <-.
    + pose proof (dns_ok_answers _ _ ARES_EDESTRUCTION Hr1 eq_refl) as Hr2. apply (dns_ok_quiet _ _ _ Hr2); try done; [apply map_empty_subseteq|apply H].
    + apply (dns_ok_quiet _ _ _ Hr1); try done; [apply map_empty_subseteq|apply H].
  - injection Hs as <-. unfold OnSockStateChange. destruct (_ && _); [destruct (_ !! _); [|by destruct s]|]; apply dns_ok_quiet; try done; apply H.
  - injection Hs as <-. unfold UpdateTimer. destruct tv as [[? ?]|]; apply dns_ok_quiet; try done; apply H.
Qed.


End Cached.


(** ** Scenarios *)

Module DnsScenarios.

Definition host : bytes := [97; 46; 98].
Definition node4 : addrinfo_node := mkNode (Sin4 [10; 0; 0; 1] 0) 16 5.
Definition waiting : DnsResolver := set_requests {[1%positive := mkRequest 1 27015 host]} (set_initialized true (set_channel true new_DnsResolver)).

(** A cache that is full: the entry of [k] expires at second [k]. *)
Definition full_cache : gmap (list Z) DnsCacheEntry :=
  list_to_map ((fun k => ([Z.of_nat k], mkEntry (Sin4 [0; 0; 0; 0] 0) 16 (seconds (Z.of_nat k)))) <$> seq 1 kMaxCacheEntries).

Lemma dns_evicts_oldest_witness : exists gone e, cache_ (cache_node host node4 0 (set_cache full_cache waiting)) = <[host := e]> (filter (fun x => x.1 ∉ gone) full_cache) /\ length gone = 1%nat.
Proof.
  destruct (dns_evicts_oldest host node4 0 (set_cache full_cache waiting)) as (gone & e & H1 & _ & _ & H2 & _); [reflexivity|discriminate|].
  exists gone, e. split; [exact H1|]. rewrite H2. rewrite decide_True; [reflexivity|]. apply Nat.leb_le. vm_compute. reflexivity.
Defined.


Definition scenario : list dns_op :=
  [DInit 0; DResolve host 80 1 0 None; DResolve host 81 2 0 None; DComplete 1 ARES_SUCCESS (Some [node4]) (seconds 1); DResolve host 82 3 (seconds 2) None; DReinit 100 1 0].

(** The steps one after another, each with its condition. *)
Fixpoint run_dns (l : list dns_op) (s : dns_state) : option dns_state :=
  match l with
  | [] => Some s
  | o :: l => let? s' := dns_step (fun _ => None) (fun _ => None) o s in
      if match o with
         | DResolve _ _ cb now _ => (clock s <=? now) && bool_decide (cb ∉ (issued s).*1)
         | DComplete cb _ _ now => (clock s <=? now) && bool_decide (is_Some (requests (resolver s) !! cb))
         | _ => true
         end then run_dns l s' else None
  end.

Lemma run_dns_runs l : forall s s', dns_runs (fun _ => None) (fun _ => None) s -> run_dns l s = Some s' -> dns_runs (fun _ => None) (fun _ => None) s'.
Proof.
  induction l as [|o l IH]; intros s s' Hr Hs; cbn in Hs; [by injection Hs as <-|]. destruct (dns_step _ _ o s) as [s1|] eqn:E; [|done]. cbn in Hs.
  destruct (match o with DResolve _ _ _ _ _ => _ | _ => _ end) eqn:Hm; [|done]. apply (IH s1); [|done]. eapply dns_next; [exact Hr| |exact E].
  destruct o; cbn in *; try done; apply andb_prop in Hm as [H1%Z.leb_le H2%bool_decide_eq_true]; by split.
Qed.


End DnsScenarios.

End Dns.
