(* ===== verification/LinkedList.v ===== *)
(** * [src/linked_list.h], [src/linked_list.cpp]: the id-addressed linked list

    The C++ class keeps a circular doubly linked chain of heap nodes around an
    embedded sentinel, an index [nodes_] from 32-bit ids to node addresses,
    and a queue of recycled ids.  The model keeps the same state: a heap of
    nodes with [prev]/[next] pointers, the sentinel, the id cursor, the queue
    and the index.  Every operation is the pointer code of the source in the
    option monad, where [None] is a dereference of an address that holds no
    node.  The abstract specification is a list of (id, value) pairs; the
    refinement theorem says that every operation succeeds, returns what the
    list specification returns and keeps the representation. *)

From stdpp Require Import base numbers list gmap.
From Stdlib Require Import ZArith Lia.
From S2P Require Import Prelude.

(** ** State *)

(** A [Node*]: the address of the list's own sentinel, or a heap address. *)
Inductive ptr := Sentinel | At (a : positive).

#[export] Instance ptr_eq_dec : EqDecision ptr.
Proof. solve_decision. Defined.

Record Node := mkNode { value : Z; prev : ptr; next : ptr; node_id : Z }.

Record LinkedList := mkLL {
  heap : gmap positive Node;      (* nodes created by [new] and not deleted *)
  sentinel_ : Node;
  next_id_ : Z;                   (* uint32_t *)
  free_ids_ : list Z;             (* std::queue<uint32_t>, front first *)
  nodes_ : gmap Z positive        (* robin_map<uint32_t, Node*> *)
}.

Definition set_heap (f : gmap positive Node -> gmap positive Node) (st : LinkedList) : LinkedList :=
  mkLL (f (heap st)) (sentinel_ st) (next_id_ st) (free_ids_ st) (nodes_ st).
Definition set_ids (n : Z) (q : list Z) (st : LinkedList) : LinkedList :=
  mkLL (heap st) (sentinel_ st) n q (nodes_ st).
Definition set_index (f : gmap Z positive -> gmap Z positive) (st : LinkedList) : LinkedList :=
  mkLL (heap st) (sentinel_ st) (next_id_ st) (free_ids_ st) (f (nodes_ st)).

(** Reading and writing the node a pointer designates. *)
Definition deref (st : LinkedList) (p : ptr) : option Node :=
  match p with Sentinel => Some (sentinel_ st) | At a => heap st !! a end.

Definition write (st : LinkedList) (p : ptr) (n : Node) : option LinkedList :=
  match p with
  | Sentinel => Some (mkLL (heap st) n (next_id_ st) (free_ids_ st) (nodes_ st))
  | At a => match heap st !! a with
            | Some _ => Some (set_heap <[a := n]> st)
            | None => None
            end
  end.

Definition set_prev (p q : ptr) (st : LinkedList) : option LinkedList :=
  let? n := deref st p in write st p (mkNode (value n) q (next n) (node_id n)).
Definition set_next (p q : ptr) (st : LinkedList) : option LinkedList :=
  let? n := deref st p in write st p (mkNode (value n) (prev n) q (node_id n)).

(** ** Operations *)

Definition new_LinkedList : LinkedList :=
  mkLL ∅ (mkNode 0 Sentinel Sentinel 0) 1 [] ∅.

Definition FindNode (st : LinkedList) (id : Z) : option ptr := At <$> nodes_ st !! id.

Definition InsertBefore (pos node : ptr) (st : LinkedList) : option LinkedList :=
  let? np := deref st pos in
  let? st := set_prev node (prev np) st in
  let? st := set_next node pos st in
  let? np := deref st pos in
  let? st := set_next (prev np) node st in
  set_prev pos node st.

Definition Unlink (node : ptr) (st : LinkedList) : option LinkedList :=
  let? n := deref st node in
  let? st := set_next (prev n) (next n) st in
  let? n := deref st node in
  set_prev (next n) (prev n) st.

Definition RecycleId (id : Z) (st : LinkedList) : LinkedList :=
  set_ids (next_id_ st) (free_ids_ st ++ [id]) st.

Definition NextId (st : LinkedList) : Z * LinkedList :=
  match free_ids_ st with
  | id :: q => (id, set_ids (next_id_ st) q st)
  | [] =>
      let id := next_id_ st in
      let n := uN 32 (next_id_ st + 1) in
      if id =? 0 then (n, set_ids (uN 32 (n + 1)) [] st) else (id, set_ids n [] st)
  end.

(** [new Node()], then the value and the id are stored into it. *)
Definition new_node (v : Z) (st : LinkedList) : positive * Z * LinkedList :=
  let '(id, st) := NextId st in
  let a := fresh_addr (heap st) in
  (a, id, set_heap <[a := mkNode v Sentinel Sentinel id]> st).

Definition PushFront (v : Z) (st : LinkedList) : option (Z * LinkedList) :=
  let '(a, id, st) := new_node v st in
  let? st := InsertBefore (next (sentinel_ st)) (At a) st in
  Some (id, set_index <[id := a]> st).

Definition PushBack (v : Z) (st : LinkedList) : option (Z * LinkedList) :=
  let '(a, id, st) := new_node v st in
  let? st := InsertBefore Sentinel (At a) st in
  Some (id, set_index <[id := a]> st).

(** [delete node]: the sentinel is not a heap object. *)
Definition delete_node (p : ptr) (st : LinkedList) : option LinkedList :=
  match p with
  | Sentinel => None
  | At a => match heap st !! a with Some _ => Some (set_heap (delete a) st) | None => None end
  end.

(** The common tail of the pops and of [Remove]: unlink, drop the index entry,
    recycle the id, delete. *)
Definition take_out (p : ptr) (id : Z) (st : LinkedList) : option LinkedList :=
  let? st := Unlink p st in
  delete_node p (RecycleId id (set_index (delete id) st)).

Definition pop_at (p : ptr) (st : LinkedList) : option (Z * LinkedList) :=
  let? n := deref st p in
  let? st := take_out p (node_id n) st in
  Some (value n, st).

Definition is_empty (m : gmap Z positive) : bool := bool_decide (size m = 0%nat).

Definition PopFront (st : LinkedList) : option (Z * LinkedList) :=
  if is_empty (nodes_ st) then Some (0, st) else pop_at (next (sentinel_ st)) st.

Definition PopBack (st : LinkedList) : option (Z * LinkedList) :=
  if is_empty (nodes_ st) then Some (0, st) else pop_at (prev (sentinel_ st)) st.

(** [Remove] with a non-null [out_value], as [Native_LinkedListRemove] calls it. *)
Definition Remove (id : Z) (st : LinkedList) : option (Z * LinkedList) :=
  match FindNode st id with
  | None => Some (0, st)
  | Some p => let? n := deref st p in
              let? st := take_out p id st in Some (value n, st)
  end.

Definition MoveToFront (id : Z) (st : LinkedList) : option LinkedList :=
  match FindNode st id with
  | None => Some st
  | Some p => if decide (p = next (sentinel_ st)) then Some st
              else let? st := Unlink p st in InsertBefore (next (sentinel_ st)) p st
  end.

Definition MoveToBack (id : Z) (st : LinkedList) : option LinkedList :=
  match FindNode st id with
  | None => Some st
  | Some p => if decide (p = prev (sentinel_ st)) then Some st
              else let? st := Unlink p st in InsertBefore Sentinel p st
  end.

Definition GetValue (id : Z) (st : LinkedList) : option Z :=
  match FindNode st id with
  | None => Some 0
  | Some p => value <$> deref st p
  end.

Definition SetValue (id v : Z) (st : LinkedList) : option LinkedList :=
  match FindNode st id with
  | None => Some st
  | Some p => let? n := deref st p in write st p (mkNode v (prev n) (next n) (node_id n))
  end.

Definition First (st : LinkedList) : option Z :=
  if decide (next (sentinel_ st) = Sentinel) then Some 0
  else node_id <$> deref st (next (sentinel_ st)).

Definition Last (st : LinkedList) : option Z :=
  if decide (prev (sentinel_ st) = Sentinel) then Some 0
  else node_id <$> deref st (prev (sentinel_ st)).

Definition Next (id : Z) (st : LinkedList) : option Z :=
  match FindNode st id with
  | None => Some 0
  | Some p => let? n := deref st p in
              if decide (next n = Sentinel) then Some 0 else node_id <$> deref st (next n)
  end.

Definition Prev (id : Z) (st : LinkedList) : option Z :=
  match FindNode st id with
  | None => Some 0
  | Some p => let? n := deref st p in
              if decide (prev n = Sentinel) then Some 0 else node_id <$> deref st (prev n)
  end.

Definition Size (st : LinkedList) : Z := sN 32 (Z.of_nat (size (nodes_ st))).

(** The two loops over the chain; the fuel is the number of heap nodes. *)
Fixpoint clear_loop (fuel : nat) (p : ptr) (st : LinkedList) : option LinkedList :=
  if decide (p = Sentinel) then Some st else
  match fuel with
  | O => None
  | S fuel => let? n := deref st p in
              let? st := delete_node p st in clear_loop fuel (next n) st
  end.

Definition Clear (st : LinkedList) : option LinkedList :=
  let? st := clear_loop (size (heap st)) (next (sentinel_ st)) st in
  Some (mkLL (heap st) (mkNode (value (sentinel_ st)) Sentinel Sentinel (node_id (sentinel_ st)))
          (next_id_ st) [] ∅).

Fixpoint copy_loop (fuel : nat) (p : ptr) (st copy : LinkedList) : option LinkedList :=
  if decide (p = Sentinel) then Some copy else
  match fuel with
  | O => None
  | S fuel => let? n := deref st p in
              let? r := PushBack (value n) copy in copy_loop fuel (next n) st r.2
  end.

Definition DeepCopy (st : LinkedList) : option LinkedList :=
  copy_loop (size (heap st)) (next (sentinel_ st)) st new_LinkedList.

(** The operations a plugin can apply to one list. *)
Inductive op :=
  | OPushFront (v : Z) | OPushBack (v : Z) | OPopFront | OPopBack
  | ORemove (id : Z) | OMoveToFront (id : Z) | OMoveToBack (id : Z)
  | OGetValue (id : Z) | OSetValue (id v : Z)
  | OFirst | OLast | ONext (id : Z) | OPrev (id : Z) | OSize | OClear.

Definition run (o : op) (st : LinkedList) : option (Z * LinkedList) :=
  match o with
  | OPushFront v => PushFront v st
  | OPushBack v => PushBack v st
  | OPopFront => PopFront st
  | OPopBack => PopBack st
  | ORemove i => Remove i st
  | OMoveToFront i => pair 0 <$> MoveToFront i st
  | OMoveToBack i => pair 0 <$> MoveToBack i st
  | OGetValue i => (fun v => (v, st)) <$> GetValue i st
  | OSetValue i v => pair 0 <$> SetValue i v st
  | OFirst => (fun v => (v, st)) <$> First st
  | OLast => (fun v => (v, st)) <$> Last st
  | ONext i => (fun v => (v, st)) <$> Next i st
  | OPrev i => (fun v => (v, st)) <$> Prev i st
  | OSize => Some (Size st, st)
  | OClear => pair 0 <$> Clear st
  end.

(** ** Chains of pointers, seen through the two link functions *)

Section Chains.

Implicit Types (nx pv : ptr -> ptr) (p q x y : ptr) (l k : list ptr).

(** [path nx pv p l q]: following [nx] from [p] visits [l] and reaches [q],
    and [pv] follows the same chain backwards. *)
Fixpoint path nx pv p l q : Prop :=
  match l with
  | [] => nx p = q /\ pv q = p
  | x :: l => nx p = x /\ pv x = p /\ path nx pv x l q
  end.

Definition upd (f : ptr -> ptr) p v : ptr -> ptr := fun x => if decide (x = p) then v else f x.

Lemma upd_eq f p v : upd f p v p = v.
Proof. unfold upd. by rewrite decide_True. Qed.
Lemma upd_ne f p v x : x <> p -> upd f p v x = f x.
Proof. intros. unfold upd. by rewrite decide_False. Qed.

Lemma path_app nx pv p l x k q :
  path nx pv p (l ++ x :: k) q <-> path nx pv p l x /\ path nx pv x k q.
Proof. revert p. induction l as [|y l IH]; intros p; simpl; [tauto|]. rewrite IH. tauto. Qed.

Lemma path_ext nx pv nx' pv' p l q :
  (forall x, x = p \/ x ∈ l -> nx' x = nx x) ->
  (forall x, x ∈ l \/ x = q -> pv' x = pv x) ->
  path nx pv p l q -> path nx' pv' p l q.
Proof.
  revert p. induction l as [|y l IH]; intros p Hn Hp; simpl.
  - intros [? ?]. rewrite Hn, Hp; auto.
  - intros (? & ? & Hpath). rewrite Hn by auto. rewrite Hp by (left; set_solver).
    split_and!; [done..|]. apply IH; [| |done].
    + intros x [->|Hx]; apply Hn; set_solver.
    + intros x [Hx| ->]; apply Hp; set_solver.
Qed.

(** The element before the end and the element after the start of a chain. *)
Fixpoint lastp p l : ptr := match l with [] => p | x :: l => lastp x l end.
Definition headp l q : ptr := match l with [] => q | x :: _ => x end.

Lemma lastp_elem p l : lastp p l ∈ p :: l.
Proof. revert p. induction l as [|x l IH]; intros p; simpl; [constructor|]. apply list_elem_of_further, IH. Qed.
Lemma headp_elem l q : headp l q ∈ l ++ [q].
Proof. destruct l; simpl; constructor. Qed.
Lemma lastp_ne z p l : z ∉ p :: l -> z <> lastp p l.
Proof.
  revert p. induction l as [|x l IH]; intros p; simpl.
  - by rewrite list_elem_of_singleton.
  - intros [_ H]%not_elem_of_cons. by apply IH.
Qed.
Lemma headp_ne z l q : z ∉ l -> z <> q -> z <> headp l q.
Proof. destruct l; simpl; [done|]. intros [H _]%not_elem_of_cons. done. Qed.
Lemma lastp_snoc p l x : lastp p (l ++ [x]) = x.
Proof. revert p. induction l as [|y l IH]; intros p; [done|apply IH]. Qed.

Lemma path_first nx pv p l q : path nx pv p l q -> nx p = headp l q.
Proof. destruct l; simpl; tauto. Qed.

Lemma path_last nx pv p l q : path nx pv p l q -> pv q = lastp p l.
Proof. revert p. induction l as [|x l IH]; intros p; simpl; [tauto|]. naive_solver. Qed.

(** Splits the non-membership and distinctness facts of the context. *)
Ltac notin :=
  repeat match goal with
  | H : _ ∉ _ :: _ |- _ => apply not_elem_of_cons in H as [? ?]
  | H : _ ∉ _ ++ _ |- _ => apply not_elem_of_app in H as [? ?]
  | H : NoDup (_ :: _) |- _ => apply NoDup_cons in H as [? ?]
  end.

Lemma NoDup_mid_ne p l y k : NoDup (p :: l ++ y :: k) -> p <> y /\ p ∉ l /\ p ∉ k.
Proof. intros H. notin. auto. Qed.

(** Linking a new element between two neighbours of a chain. *)
Lemma path_insert nx pv p l y k q :
  NoDup (p :: l ++ y :: k) -> q ∉ l ++ y :: k ->
  path nx pv p (l ++ k) q ->
  path (upd (upd nx y (headp k q)) (lastp p l) y)
       (upd (upd pv y (lastp p l)) (headp k q) y) p (l ++ y :: k) q.
Proof.
  revert p. induction l as [|x l IH]; intros p Hnd Hq; simpl.
  - intros Hpath. simpl in *. notin.
    assert (y <> headp k q) by (apply headp_ne; [done|congruence]).
    rewrite upd_eq. rewrite (upd_ne _ (headp k q)) by done. rewrite upd_eq.
    split_and!; [done..|]. destruct k as [|z k]; simpl in *.
    + rewrite (upd_ne _ p) by done. by rewrite !upd_eq.
    + rewrite (upd_ne _ p) by done. rewrite !upd_eq. split_and!; [done..|]. notin.
      destruct Hpath as (? & ? & Hpath). eapply path_ext; [..|exact Hpath].
      * intros w [->|Hw]; rewrite !upd_ne; [done|congruence..|done| |]; by intros ->.
      * intros w [Hw| ->]; rewrite !upd_ne; try done; by intros ->.
  - intros (? & ? & Hpath). pose proof (NoDup_mid_ne _ _ _ _ Hnd) as (? & ? & ?).
    apply NoDup_cons in Hnd as [Hp Hnd]. pose proof (NoDup_mid_ne _ _ _ _ Hnd) as (? & ? & ?).
    apply not_elem_of_cons in Hq as [Hqx Hq]. apply not_elem_of_cons in Hp as [Hpx _].
    assert (p <> lastp x l) by (apply lastp_ne; apply not_elem_of_cons; split; set_solver).
    assert (x <> headp k q) by (apply headp_ne; [done|congruence]).
    split_and!; [rewrite !upd_ne by done; done..|].
    by apply IH.
Qed.

(** Removing an element from a chain. *)
Lemma path_remove nx pv p l y k q :
  NoDup (p :: l ++ y :: k) -> q ∉ l ++ y :: k ->
  path nx pv p (l ++ y :: k) q ->
  path (upd nx (pv y) (nx y)) (upd pv (nx y) (pv y)) p (l ++ k) q.
Proof.
  intros Hnd Hq Hpath. pose proof Hpath as [Hl Hk]%path_app.
  rewrite (path_last _ _ _ _ _ Hl), (path_first _ _ _ _ _ Hk). clear Hl Hk.
  revert p Hnd Hq Hpath. induction l as [|x l IH]; intros p Hnd Hq; simpl.
  - intros (? & ? & Hpath). simpl in *. notin.
    destruct k as [|z k]; simpl in *; rewrite !upd_eq; [done|]. split_and!; [done..|]. notin.
    destruct Hpath as (? & ? & Hpath). eapply path_ext; [..|exact Hpath].
    + intros w [->|Hw]; rewrite upd_ne; [done|congruence|done|]; by intros ->.
    + intros w [Hw| ->]; rewrite upd_ne; try done; by intros ->.
  - intros (? & ? & Hpath). pose proof (NoDup_mid_ne _ _ _ _ Hnd) as (? & ? & ?).
    apply NoDup_cons in Hnd as [Hp Hnd]. pose proof (NoDup_mid_ne _ _ _ _ Hnd) as (? & ? & ?).
    apply not_elem_of_cons in Hq as [Hqx Hq]. apply not_elem_of_cons in Hp as [Hpx _].
    assert (p <> lastp x l) by (apply lastp_ne; apply not_elem_of_cons; split; set_solver).
    assert (x <> headp k q) by (apply headp_ne; [done|congruence]).
    split_and!; [rewrite !upd_ne by done; done..|].
    by apply IH.
Qed.

End Chains.

(** ** The links and the data of a state *)

Definition nx (st : LinkedList) (p : ptr) : ptr := from_option next Sentinel (deref st p).
Definition pv (st : LinkedList) (p : ptr) : ptr := from_option prev Sentinel (deref st p).
Definition dat (st : LinkedList) : gmap positive (Z * Z) := (fun n => (node_id n, value n)) <$> heap st.
Definition live (st : LinkedList) (p : ptr) : Prop := is_Some (deref st p).

(** [same st st']: nothing but links differs. *)
Definition same (st st' : LinkedList) : Prop :=
  dat st' = dat st /\ next_id_ st' = next_id_ st /\ free_ids_ st' = free_ids_ st /\
  nodes_ st' = nodes_ st.

Lemma same_trans st1 st2 st3 : same st1 st2 -> same st2 st3 -> same st1 st3.
Proof. unfold same. intuition congruence. Qed.

Lemma live_dat st a : live st (At a) <-> is_Some (dat st !! a).
Proof. unfold live, dat. simpl. by rewrite lookup_fmap, fmap_is_Some. Qed.

Lemma same_live st st' p : same st st' -> live st p -> live st' p.
Proof.
  intros (E & _). destruct p as [|a]; [by eexists|]. rewrite !live_dat. by rewrite E.
Qed.

Lemma write_spec st p n n' :
  deref st p = Some n -> node_id n' = node_id n ->
  exists st', write st p n' = Some st' /\
    (forall x, deref st' x = if decide (x = p) then Some n' else deref st x) /\
    next_id_ st' = next_id_ st /\ free_ids_ st' = free_ids_ st /\ nodes_ st' = nodes_ st /\
    (match p with Sentinel => dat st' = dat st
     | At a => dat st' = <[a := (node_id n, value n')]> (dat st) end).
Proof.
  intros Hd Hid. destruct p as [|a]; simpl in *.
  - eexists. split_and!; try done. by intros [|b].
  - rewrite Hd. eexists. split_and!; try done.
    + intros [|b]; simpl; [done|]. rewrite lookup_insert.
      repeat case_decide; congruence.
    + unfold dat, set_heap. simpl. by rewrite fmap_insert, Hid.
Qed.

Lemma dat_insert_id st p n : deref st p = Some n ->
  match p with Sentinel => True | At a => <[a := (node_id n, value n)]> (dat st) = dat st end.
Proof.
  destruct p as [|a]; [done|]. intros H. apply insert_id. unfold dat.
  rewrite lookup_fmap. simpl in H. by rewrite H.
Qed.

Lemma set_next_spec st p q : live st p ->
  exists st', set_next p q st = Some st' /\ same st st' /\
    (forall x, nx st' x = upd (nx st) p q x) /\ (forall x, pv st' x = pv st x).
Proof.
  intros [n Hn]. unfold set_next. rewrite Hn.
  destruct (write_spec st p n (mkNode (value n) (prev n) q (node_id n)) Hn eq_refl)
    as (st' & -> & Hd & ? & ? & ? & Hdat).
  exists st'. split_and!; [done|..].
  - split_and!; try done. pose proof (dat_insert_id _ _ _ Hn).
    destruct p; simpl in *; congruence.
  - intros x. unfold nx, upd. rewrite Hd. by case_decide.
  - intros x. unfold pv. rewrite Hd. case_decide; subst; [by rewrite Hn|done].
Qed.

Lemma set_prev_spec st p q : live st p ->
  exists st', set_prev p q st = Some st' /\ same st st' /\
    (forall x, pv st' x = upd (pv st) p q x) /\ (forall x, nx st' x = nx st x).
Proof.
  intros [n Hn]. unfold set_prev. rewrite Hn.
  destruct (write_spec st p n (mkNode (value n) q (next n) (node_id n)) Hn eq_refl)
    as (st' & -> & Hd & ? & ? & ? & Hdat).
  exists st'. split_and!; [done|..].
  - split_and!; try done. pose proof (dat_insert_id _ _ _ Hn).
    destruct p; simpl in *; congruence.
  - intros x. unfold pv, upd. rewrite Hd. by case_decide.
  - intros x. unfold nx. rewrite Hd. case_decide; subst; [by rewrite Hn|done].
Qed.

Lemma deref_pv st p n : deref st p = Some n -> prev n = pv st p.
Proof. unfold pv. by intros ->. Qed.
Lemma deref_nx st p n : deref st p = Some n -> next n = nx st p.
Proof. unfold nx. by intros ->. Qed.

Lemma InsertBefore_spec st pos node :
  live st pos -> live st node -> live st (pv st pos) -> node <> pos ->
  exists st', InsertBefore pos node st = Some st' /\ same st st' /\
    (forall x, nx st' x = upd (upd (nx st) node pos) (pv st pos) node x) /\
    (forall x, pv st' x = upd (upd (pv st) node (pv st pos)) pos node x).
Proof.
  intros Hpos Hnode Hpv Hne. unfold InsertBefore.
  destruct Hpos as [n Hn]. pose proof Hn as Hn0. rewrite Hn, (deref_pv _ _ _ Hn).
  destruct (set_prev_spec st node (pv st pos) Hnode) as (st1 & -> & S1 & P1 & N1).
  destruct (set_next_spec st1 node pos (same_live _ _ _ S1 Hnode)) as (st2 & -> & S2 & N2 & P2).
  pose proof (same_trans _ _ _ S1 S2) as S12.
  destruct (same_live _ _ pos S12 (mk_is_Some _ _ Hn0)) as [n2 Hn2].
  rewrite Hn2, (deref_pv _ _ _ Hn2).
  assert (pv st2 pos = pv st pos) as -> by (rewrite P2, P1; apply upd_ne; congruence).
  destruct (set_next_spec st2 (pv st pos) node (same_live _ _ _ S12 Hpv)) as (st3 & -> & S3 & N3 & P3).
  pose proof (same_trans _ _ _ S12 S3) as S13.
  destruct (set_prev_spec st3 pos node (same_live _ _ _ S13 (mk_is_Some _ _ Hn0)))
    as (st4 & -> & S4 & P4 & N4).
  exists st4. split_and!; [done|by eapply same_trans|..].
  - intros x. rewrite N4, N3. unfold upd. rewrite N2. unfold upd. by rewrite N1.
  - intros x. rewrite P4. unfold upd. rewrite P3, P2, P1. done.
Qed.

Lemma Unlink_spec st node :
  live st node -> live st (pv st node) -> live st (nx st node) -> pv st node <> node ->
  exists st', Unlink node st = Some st' /\ same st st' /\
    (forall x, nx st' x = upd (nx st) (pv st node) (nx st node) x) /\
    (forall x, pv st' x = upd (pv st) (nx st node) (pv st node) x).
Proof.
  intros [n Hn] Hpv Hnx Hne. unfold Unlink. rewrite Hn, (deref_pv _ _ _ Hn), (deref_nx _ _ _ Hn).
  destruct (set_next_spec st (pv st node) (nx st node) Hpv) as (st1 & -> & S1 & N1 & P1).
  destruct (same_live _ _ node S1 (mk_is_Some _ _ Hn)) as [n1 Hn1].
  rewrite Hn1, (deref_pv _ _ _ Hn1), (deref_nx _ _ _ Hn1).
  assert (nx st1 node = nx st node) as -> by (rewrite N1; apply upd_ne; congruence).
  rewrite P1.
  destruct (set_prev_spec st1 (nx st node) (pv st node) (same_live _ _ _ S1 Hnx))
    as (st2 & -> & S2 & P2 & N2).
  exists st2. split_and!; [done|by eapply same_trans|..].
  - intros x. by rewrite N2.
  - intros x. rewrite P2. unfold upd. by rewrite P1.
Qed.

(** ** The representation invariant

    The concrete state holds the entries [al], each with the address of its
    node.  [ids_ok]: the ids in use and the recycled ids are exactly the ids
    issued by the cursor since the last [Clear]. *)

Definition ids_ok (ids : list Z) (st : LinkedList) : Prop :=
  exists base k, ids ++ free_ids_ st ≡ₚ issued base k /\ skip0 (next_id_ st) = cursor base k /\
    0 <= next_id_ st < 2 ^ 32 /\ Z.of_nat k < 2 ^ 32.

Definition idx (e : positive * (Z * Z)) : Z * positive := (e.2.1, e.1).

Definition repA (st : LinkedList) (al : list (positive * (Z * Z))) : Prop :=
  NoDup al.*1 /\ dat st = list_to_map al /\
  path (nx st) (pv st) Sentinel (At <$> al.*1) Sentinel /\
  nodes_ st = list_to_map (idx <$> al) /\ ids_ok al.*2.*1 st.

Definition rep (st : LinkedList) (l : list (Z * Z)) : Prop := exists al, l = al.*2 /\ repA st al.

Lemma ids_ok_NoDup ids st : ids_ok ids st -> NoDup ids.
Proof.
  intros (base & k & Hp & _ & _ & Hk). pose proof (issued_NoDup base k Hk) as H.
  rewrite <- Hp in H. by apply list.NoDup_app in H as [? _].
Qed.

Lemma ids_ok_perm ids ids' st : ids ≡ₚ ids' -> ids_ok ids st -> ids_ok ids' st.
Proof. intros Hp (base & k & H & Hr). exists base, k. by rewrite <- Hp. Qed.

Lemma NextId_spec ids st id st' :
  ids_ok ids st -> Z.of_nat (length ids) < 2 ^ 32 - 1 -> NextId st = (id, st') ->
  id ∉ ids /\ 1 <= id < 2 ^ 32 /\ ids_ok (id :: ids) st' /\
  heap st' = heap st /\ sentinel_ st' = sentinel_ st /\ nodes_ st' = nodes_ st.
Proof.
  intros Hok Hlen Hn.
  assert (ids_ok (id :: ids) st' /\ 1 <= id < 2 ^ 32 /\
          heap st' = heap st /\ sentinel_ st' = sentinel_ st /\ nodes_ st' = nodes_ st) as (Hok' & H).
  { destruct Hok as (base & k & Hp & Hcur & Hr & Hk). unfold NextId in Hn.
    destruct (free_ids_ st) as [|i q] eqn:Hq.
    - rewrite app_nil_r in Hp.
      assert (length ids = k) as <- by (rewrite Hp; apply length_issued).
      pose proof (cursor_range base (length ids)) as Hcr. rewrite <- Hcur in Hcr.
      assert (id = skip0 (next_id_ st) /\
              st' = set_ids (uN 32 (skip0 (next_id_ st) + 1)) [] st) as [-> ->].
      { unfold skip0. destruct (Z.eqb_spec (next_id_ st) 0) as [E|E]; [|by simplify_eq].
        rewrite E in Hn. by simplify_eq. }
      split; [|done]. exists base, (S (length ids)). simpl. rewrite app_nil_r, issued_S.
      split_and!; [rewrite Hcur; etrans; [by apply perm_skip, Hp|apply Permutation_cons_append]| |apply (u_bounds 32); lia..|lia].
      rewrite Hcur. apply cursor_S.
    - simplify_eq. split.
      + exists base, k. simpl. split_and!; [by rewrite <- Hp, Permutation_middle|done|lia..].
      + assert (id ∈ issued base k) as (j & _ & ->)%elem_of_issued by (rewrite <- Hp; set_solver).
        split; [apply cursor_range|done]. }
  pose proof (ids_ok_NoDup _ _ Hok') as Hnd%NoDup_cons. tauto.
Qed.

Lemma At_fmap_NoDup (l : list positive) : NoDup l -> NoDup (Sentinel :: (At <$> l)).
Proof.
  intros H. apply NoDup_cons. split.
  - rewrite list_elem_of_fmap. by intros (? & ? & _).
  - apply NoDup_fmap; [|done]. by intros ?? [=].
Qed.

Lemma Sentinel_notin (l : list positive) : Sentinel ∉ At <$> l.
Proof. rewrite list_elem_of_fmap. by intros (? & ? & _). Qed.

Lemma repA_live st al p : repA st al -> p ∈ Sentinel :: (At <$> al.*1) -> live st p.
Proof.
  intros (Hnd & Hdat & _) [->|(a & -> & Ha)%list_elem_of_fmap]%elem_of_cons; [by eexists|].
  rewrite live_dat, Hdat. apply list_elem_of_fmap in Ha as ([a' d] & -> & Ha).
  exists d. by apply elem_of_list_to_map.
Qed.

Lemma repA_deref st al a i v : repA st al -> (a, (i, v)) ∈ al ->
  exists n, deref st (At a) = Some n /\ node_id n = i /\ value n = v.
Proof.
  intros (Hnd & Hdat & _) Ha. assert (dat st !! a = Some (i, v)) as H.
  { rewrite Hdat. by apply elem_of_list_to_map. }
  unfold dat in H. rewrite lookup_fmap in H. simpl.
  destruct (heap st !! a) as [n|]; simplify_eq/=. eauto.
Qed.

Lemma repA_ids_NoDup st al : repA st al -> NoDup (idx <$> al).*1.
Proof.
  intros (_ & _ & _ & _ & Hids). apply ids_ok_NoDup in Hids.
  rewrite <- !list_fmap_compose in *. done.
Qed.

Lemma repA_FindNode st al a i v :
  repA st al -> (a, (i, v)) ∈ al -> FindNode st i = Some (At a).
Proof.
  intros Hr Ha. unfold FindNode. pose proof (repA_ids_NoDup _ _ Hr) as Hnd.
  destruct Hr as (_ & _ & _ & -> & _).
  rewrite (elem_of_list_to_map_1 _ i a); [done|done|]. apply list_elem_of_fmap. by eexists (a, (i, v)).
Qed.

Lemma repA_FindNode_None st al i : repA st al -> i ∉ al.*2.*1 -> FindNode st i = None.
Proof.
  intros (_ & _ & _ & E & _) Hi. unfold FindNode. rewrite E.
  rewrite not_elem_of_list_to_map_1; [done|]. by rewrite <- !list_fmap_compose in *.
Qed.

(** Looking an id up in the abstract list. *)
Lemma elem_ids_split (al : list (positive * (Z * Z))) i : i ∈ al.*2.*1 ->
  exists al1 a v al2, al = al1 ++ (a, (i, v)) :: al2.
Proof.
  rewrite <- list_fmap_compose, list_elem_of_fmap. intros ([a [i' v]] & -> & H).
  apply list_elem_of_split in H as (al1 & al2 & ->). by repeat eexists.
Qed.

Lemma repA_neighbours st al1 a d al2 : repA st (al1 ++ (a, d) :: al2) ->
  pv st (At a) = lastp Sentinel (At <$> al1.*1) /\ nx st (At a) = headp (At <$> al2.*1) Sentinel.
Proof.
  intros (_ & _ & Hpath & _). rewrite !fmap_app, !fmap_cons in Hpath. simpl in Hpath.
  apply path_app in Hpath as [H1 H2]. split; [by eapply path_last|by eapply path_first].
Qed.

Lemma repA_ends st al : repA st al ->
  next (sentinel_ st) = headp (At <$> al.*1) Sentinel /\
  prev (sentinel_ st) = lastp Sentinel (At <$> al.*1).
Proof.
  intros (_ & _ & Hpath & _).
  split; [exact (path_first _ _ _ _ _ Hpath)|exact (path_last _ _ _ _ _ Hpath)].
Qed.

Lemma rep_new : rep new_LinkedList [].
Proof.
  exists []. split; [done|]. split_and!; simpl; try done; [constructor|].
  exists 1, 0%nat. split_and!; simpl; try done; lia.
Qed.

(** ** Relinking

    The three ways the operations change the chain: link a node that is not
    on it, unlink one, or unlink one and link it elsewhere. *)

Definition chain (st : LinkedList) (al : list (positive * (Z * Z))) : Prop :=
  path (nx st) (pv st) Sentinel (At <$> al.*1) Sentinel.

Lemma headp_live st (al1 al2 : list (positive * (Z * Z))) :
  (forall p, p ∈ Sentinel :: (At <$> (al1 ++ al2).*1) -> live st p) ->
  live st (lastp Sentinel (At <$> al1.*1)) /\ live st (headp (At <$> al2.*1) Sentinel).
Proof.
  intros H. rewrite !fmap_app in H. split; apply H.
  - pose proof (lastp_elem Sentinel (At <$> al1.*1)). set_solver.
  - pose proof (headp_elem (At <$> al2.*1) Sentinel). set_solver.
Qed.

Lemma chain_split st al1 al2 : chain st (al1 ++ al2) ->
  pv st (headp (At <$> al2.*1) Sentinel) = lastp Sentinel (At <$> al1.*1).
Proof.
  unfold chain. rewrite !fmap_app. destruct (At <$> al2.*1) as [|y k]; simpl.
  - rewrite app_nil_r. apply path_last.
  - intros [H _]%path_app. by apply path_last in H.
Qed.

Lemma chain_link st al1 e al2 :
  NoDup (al1 ++ e :: al2).*1 -> chain st (al1 ++ al2) ->
  live st (At e.1) -> (forall p, p ∈ Sentinel :: (At <$> (al1 ++ al2).*1) -> live st p) ->
  exists st', InsertBefore (headp (At <$> al2.*1) Sentinel) (At e.1) st = Some st' /\
    same st st' /\ chain st' (al1 ++ e :: al2).
Proof.
  intros Hnd Hc He Hlive. pose proof (headp_live _ _ _ Hlive) as [Hl Hh].
  pose proof (chain_split _ _ _ Hc) as Hpv.
  rewrite fmap_app, fmap_cons in Hnd.
  pose proof (At_fmap_NoDup _ Hnd) as HndA. rewrite fmap_app, fmap_cons in HndA.
  destruct (InsertBefore_spec st (headp (At <$> al2.*1) Sentinel) (At e.1)) as (st' & Hst & Hs & N & P).
  - done.
  - done.
  - by rewrite Hpv.
  - apply headp_ne; [|done]. apply NoDup_cons in HndA as [_ HndA].
    apply list.NoDup_app in HndA as (_ & _ & H%NoDup_cons). tauto.
  - exists st'. split_and!; [done..|]. unfold chain in *. rewrite !fmap_app in *. rewrite !fmap_cons.
    rewrite Hpv in N, P.
    eapply path_ext; [intros x _; apply N|intros x _; apply P|].
    apply path_insert; [done| |done].
    pose proof (Sentinel_notin (al1.*1 ++ e.1 :: al2.*1)) as H. by rewrite fmap_app, fmap_cons in H.
Qed.

Lemma chain_unlink st al1 e al2 :
  NoDup (al1 ++ e :: al2).*1 -> chain st (al1 ++ e :: al2) ->
  (forall p, p ∈ Sentinel :: (At <$> (al1 ++ e :: al2).*1) -> live st p) ->
  exists st', Unlink (At e.1) st = Some st' /\ same st st' /\ chain st' (al1 ++ al2).
Proof.
  intros Hnd Hc Hlive. pose proof Hc as Hc'. unfold chain in Hc'.
  rewrite !fmap_app, !fmap_cons in Hc'. apply path_app in Hc' as [H1 H2].
  apply path_last in H1. apply path_first in H2.
  rewrite fmap_app, fmap_cons in Hnd.
  pose proof (At_fmap_NoDup _ Hnd) as HndA. rewrite fmap_app, fmap_cons in HndA.
  destruct (Unlink_spec st (At e.1)) as (st' & Hst & Hs & N & P).
  - apply Hlive. rewrite !fmap_app. set_solver.
  - rewrite H1. apply Hlive. rewrite !fmap_app. pose proof (lastp_elem Sentinel (At <$> al1.*1)). set_solver.
  - rewrite H2. apply Hlive. rewrite !fmap_app, !fmap_cons.
    pose proof (headp_elem (At <$> al2.*1) Sentinel). set_solver.
  - rewrite H1. apply not_eq_sym, lastp_ne. apply not_elem_of_cons. split; [done|].
    apply NoDup_cons in HndA as [_ HndA]. apply list.NoDup_app in HndA as (_ & H & _). set_solver.
  - exists st'. split_and!; [done..|]. unfold chain in *. rewrite !fmap_app in *. rewrite !fmap_cons in Hc.
    eapply path_ext; [intros x _; apply N|intros x _; apply P|].
    apply path_remove; [done| |done].
    pose proof (Sentinel_notin (al1.*1 ++ e.1 :: al2.*1)) as H. by rewrite fmap_app, fmap_cons in H.
Qed.

Lemma list_to_map_mid {K A} `{Countable K} (l1 l2 : list (K * A)) k x :
  k ∉ l1.*1 -> (list_to_map (l1 ++ (k, x) :: l2) : gmap K A) = <[k := x]> (list_to_map (l1 ++ l2)).
Proof.
  intros Hk. induction l1 as [|[k' x'] l1 IH]; simpl in *; [done|].
  apply not_elem_of_cons in Hk as [Hne Hk]. rewrite IH by done. by apply insert_insert_ne.
Qed.

Lemma list_to_map_mid_delete {K A} `{Countable K} (l1 l2 : list (K * A)) k x :
  NoDup (l1 ++ (k, x) :: l2).*1 ->
  delete k (list_to_map (l1 ++ (k, x) :: l2) : gmap K A) = list_to_map (l1 ++ l2).
Proof.
  rewrite fmap_app, fmap_cons. intros (H1 & H2 & H3%NoDup_cons)%list.NoDup_app. simpl in *.
  rewrite list_to_map_mid by set_solver. apply delete_insert_id.
  apply not_elem_of_list_to_map_1. rewrite fmap_app. set_solver.
Qed.

(** ** The operations on the representation *)

Lemma push_mid st al1 al2 v a id st1 :
  repA st (al1 ++ al2) -> Z.of_nat (length (al1 ++ al2)) < 2 ^ 32 - 1 ->
  new_node v st = (a, id, st1) ->
  sentinel_ st1 = sentinel_ st /\ id ∉ (al1 ++ al2).*2.*1 /\ 1 <= id < 2 ^ 32 /\
  exists st2, InsertBefore (headp (At <$> al2.*1) Sentinel) (At a) st1 = Some st2 /\
    repA (set_index <[id := a]> st2) (al1 ++ (a, (id, v)) :: al2).
Proof.
  intros Hrep Hlen Hnew. pose proof Hrep as (Hnd & Hdat & Hpath & Hidx & Hids).
  unfold new_node in Hnew. destruct (NextId st) as [i st0] eqn:HN.
  assert (Z.of_nat (length (al1 ++ al2).*2.*1) < 2 ^ 32 - 1) as Hlen' by by rewrite !length_fmap.
  destruct (NextId_spec _ _ _ _ Hids Hlen' HN) as (Hfresh & Hrange & Hids' & Hheap & Hsent & Hn).
  simplify_eq. set (a := fresh_addr (heap st0)) in *.
  set (st1 := set_heap _ st0).
  assert (Ha : dat st !! a = None).
  { unfold dat. rewrite lookup_fmap. subst a. by rewrite Hheap, fresh_addr_None. }
  assert (Hna : a ∉ (al1 ++ al2).*1).
  { rewrite Hdat in Ha. by apply not_elem_of_list_to_map in Ha. }
  assert (Hlinks : forall x, x <> At a -> nx st1 x = nx st x /\ pv st1 x = pv st x).
  { intros [|b] Hb; unfold nx, pv; simpl; [by rewrite Hsent|].
    rewrite lookup_insert_ne by congruence. by rewrite Hheap. }
  assert (Hdat1 : dat st1 = <[a := (id, v)]> (dat st)).
  { unfold st1, dat, set_heap. simpl. rewrite fmap_insert. by rewrite Hheap. }
  split_and!; [done..|lia|lia|].
  destruct (chain_link st1 al1 (a, (id, v)) al2) as (st2 & HI & Hs & Hc).
  - rewrite fmap_app, fmap_cons in *. rewrite <- Permutation_middle. by apply NoDup_cons.
  - unfold chain. eapply path_ext; [..|exact Hpath];
      intros x Hx; apply Hlinks; intros ->; destruct Hx as [Hx|Hx]; try done;
      apply list_elem_of_fmap in Hx as (? & [= ->] & Hx); done.
  - apply live_dat. simpl. rewrite Hdat1, lookup_insert_eq. by eexists.
  - intros p [->|(b & -> & Hb)%list_elem_of_fmap]%elem_of_cons; [by eexists|].
    apply live_dat. rewrite Hdat1. rewrite lookup_insert_ne by (by intros ->).
    apply live_dat. eapply repA_live; [done|]. apply list_elem_of_further, list_elem_of_fmap. eauto.
  - exists st2. split; [done|]. destruct Hs as (Hd & E1 & E2 & E3). split_and!.
    + rewrite fmap_app, fmap_cons in *. rewrite <- Permutation_middle. by apply NoDup_cons.
    + change (dat (set_index _ st2)) with (dat st2). rewrite Hd, Hdat1, Hdat.
      rewrite fmap_app in Hna. rewrite list_to_map_mid by set_solver. done.
    + exact Hc.
    + simpl. rewrite E3. simpl. rewrite Hn, Hidx, !fmap_app, fmap_cons.
      change (idx (a, (id, v))) with (id, a). rewrite list_to_map_mid; [done|].
      rewrite <- list_fmap_compose. rewrite <- list_fmap_compose, fmap_app in Hfresh. set_solver.
    + rewrite !fmap_app, !fmap_cons in *. simpl.
      eapply ids_ok_perm; [by rewrite <- Permutation_middle|].
      destruct Hids' as (base & k & ?). exists base, k. simpl. by rewrite E1, E2.
Qed.

Lemma take_out_mid st al1 a i v al2 :
  repA st (al1 ++ (a, (i, v)) :: al2) ->
  exists st', take_out (At a) i st = Some st' /\ repA st' (al1 ++ al2).
Proof.
  intros Hrep. pose proof Hrep as (Hnd & Hdat & Hpath & Hidx & Hids).
  destruct (chain_unlink st al1 (a, (i, v)) al2) as (st1 & HU & (Hd & E1 & E2 & E3) & Hc);
    [done|done|intros p; by apply repA_live|].
  unfold take_out. simpl in HU. rewrite HU. simpl.
  assert (is_Some (heap st1 !! a)) as [n Hn].
  { apply (live_dat st1). rewrite Hd, Hdat. exists (i, v). apply elem_of_list_to_map; set_solver. }
  rewrite Hn. eexists. split; [done|]. pose proof (repA_ids_NoDup _ _ Hrep) as Hndi.
  rewrite fmap_app, fmap_cons in Hndi.
  split_and!.
  - rewrite !fmap_app, fmap_cons in *. apply list.NoDup_app in Hnd as (? & ? & H%NoDup_cons).
    apply list.NoDup_app. set_solver.
  - unfold dat in *. simpl. rewrite fmap_delete, Hd, Hdat. by apply list_to_map_mid_delete.
  - assert (Hna : At a ∉ At <$> (al1 ++ al2).*1).
    { rewrite list_elem_of_fmap. intros (? & [= <-] & Ha). rewrite !fmap_app, fmap_cons in *.
      apply list.NoDup_app in Hnd as (? & ? & [??]%NoDup_cons). set_solver. }
    eapply path_ext; [..|exact Hc]; intros [|b] Hx; try done;
      unfold nx, pv; simpl; rewrite lookup_delete_ne; try done;
      intros ->; destruct Hx as [Hx|Hx]; done.
  - simpl. rewrite E3, Hidx, !fmap_app, fmap_cons. by apply list_to_map_mid_delete.
  - destruct Hids as (base & k & Hp & Hr). exists base, k. simpl. rewrite E1, E2.
    split; [|done]. rewrite <- Hp, !fmap_app, !fmap_cons. simpl.
    rewrite (Permutation_app_comm (free_ids_ st) [i]). simpl. by rewrite <- !Permutation_middle.
Qed.

Lemma move_mid st al1 e al2 k1 k2 :
  repA st (al1 ++ e :: al2) -> al1 ++ al2 = k1 ++ k2 ->
  exists st1 st', Unlink (At e.1) st = Some st1 /\ chain st1 (k1 ++ k2) /\
    InsertBefore (headp (At <$> k2.*1) Sentinel) (At e.1) st1 = Some st' /\
    repA st' (k1 ++ e :: k2).
Proof.
  intros Hrep Hk. pose proof Hrep as (Hnd & Hdat & Hpath & Hidx & Hids).
  assert (Hp : al1 ++ e :: al2 ≡ₚ k1 ++ e :: k2).
  { rewrite <- !Permutation_middle. by rewrite Hk. }
  destruct (chain_unlink st al1 e al2) as (st1 & HU & Hs1 & Hc);
    [done|done|intros p; by apply repA_live|].
  rewrite Hk in Hc. exists st1.
  assert (Hlive : forall p, p ∈ Sentinel :: (At <$> (al1 ++ e :: al2).*1) -> live st1 p).
  { intros p Hp'. eapply same_live; [done|]. by eapply repA_live. }
  destruct (chain_link st1 k1 e k2) as (st' & HI & Hs2 & Hc2).
  - by rewrite <- Hp.
  - done.
  - apply Hlive. set_solver.
  - intros p Hp'. apply Hlive. rewrite <- Hk in Hp'. rewrite !fmap_app in *. set_solver.
  - exists st'. split_and!; [done..|]. pose proof (same_trans _ _ _ Hs1 Hs2) as (Hd & E1 & E2 & E3).
    split_and!.
    + by rewrite <- Hp.
    + rewrite Hd, Hdat. apply list_to_map_proper; [done|done].
    + exact Hc2.
    + rewrite E3, Hidx. apply list_to_map_proper; [by eapply repA_ids_NoDup|by rewrite Hp].
    + eapply ids_ok_perm; [by rewrite <- Hp|]. destruct Hids as (base & k & ?). exists base, k.
      by rewrite E1, E2.
Qed.

(** ** The abstract specification: a list of (id, value) pairs *)

Fixpoint assoc (i : Z) (l : list (Z * Z)) : option Z :=
  match l with [] => None | (j, v) :: l => if j =? i then Some v else assoc i l end.
Fixpoint after (i : Z) (l : list (Z * Z)) : list (Z * Z) :=
  match l with [] => [] | (j, v) :: l => if j =? i then l else after i l end.
Definition remove_id (i : Z) (l : list (Z * Z)) : list (Z * Z) := filter (fun e => e.1 <> i) l.
Definition set_id (i v : Z) (e : Z * Z) : Z * Z := if e.1 =? i then (i, v) else e.
Definition first_id (l : list (Z * Z)) : Z := from_option fst 0 (head l).

Definition spec (o : op) (l : list (Z * Z)) (r : Z) (l' : list (Z * Z)) : Prop :=
  match o with
  | OPushFront v => r ∉ l.*1 /\ 1 <= r < 2 ^ 32 /\ l' = (r, v) :: l
  | OPushBack v => r ∉ l.*1 /\ 1 <= r < 2 ^ 32 /\ l' = l ++ [(r, v)]
  | OPopFront => (r, l') = match l with [] => (0, []) | (_, v) :: t => (v, t) end
  | OPopBack => (r, l') = match reverse l with [] => (0, []) | (_, v) :: t => (v, reverse t) end
  | ORemove i => r = default 0 (assoc i l) /\ l' = remove_id i l
  | OMoveToFront i =>
      r = 0 /\ l' = match assoc i l with Some v => (i, v) :: remove_id i l | None => l end
  | OMoveToBack i =>
      r = 0 /\ l' = match assoc i l with Some v => remove_id i l ++ [(i, v)] | None => l end
  | OGetValue i => r = default 0 (assoc i l) /\ l' = l
  | OSetValue i v => r = 0 /\ l' = set_id i v <$> l
  | OFirst => r = first_id l /\ l' = l
  | OLast => r = first_id (reverse l) /\ l' = l
  | ONext i => r = first_id (after i l) /\ l' = l
  | OPrev i => r = first_id (after i (reverse l)) /\ l' = l
  | OSize => r = sN 32 (Z.of_nat (length l)) /\ l' = l
  | OClear => r = 0 /\ l' = []
  end.

Section AssocLemmas.

Context (i v : Z) (l1 l2 : list (Z * Z)).

Lemma assoc_app_notin (k1 k2 : list (Z * Z)) j :
  j ∉ k1.*1 -> assoc j (k1 ++ k2) = assoc j k2 /\ after j (k1 ++ k2) = after j k2 /\
  remove_id j (k1 ++ k2) = k1 ++ remove_id j k2 /\ (forall w, set_id j w <$> k1 = k1).
Proof.
  induction k1 as [|[x y] k1 IH]; [done|]. intros [Hne Hk]%not_elem_of_cons. simpl in *.
  destruct (IH Hk) as (-> & -> & E & F). unfold remove_id in *. rewrite filter_cons_True by done.
  rewrite E. rewrite (proj2 (Z.eqb_neq x j)) by congruence. split_and!; [done..|].
  intros w. f_equal; [|apply F]. unfold set_id. simpl.
  by rewrite (proj2 (Z.eqb_neq x j)) by congruence.
Qed.

Lemma assoc_notin (l : list (Z * Z)) j :
  j ∉ l.*1 -> assoc j l = None /\ after j l = [] /\ remove_id j l = l.
Proof.
  intros H. destruct (assoc_app_notin l [] j H) as (E1 & E2 & E3 & _).
  rewrite app_nil_r in E1, E2, E3. rewrite E1, E2, E3. split_and!; [done..|apply app_nil_r].
Qed.

Context (Hnd : NoDup (l1 ++ (i, v) :: l2).*1).

Lemma mid_notin : i ∉ l1.*1 /\ i ∉ l2.*1.
Proof using Hnd.
  rewrite fmap_app, fmap_cons in Hnd. apply list.NoDup_app in Hnd as (_ & H & [H2 _]%NoDup_cons).
  split; [|done]. intros Hi. apply (H _ Hi). simpl. constructor.
Qed.

Lemma assoc_mid : assoc i (l1 ++ (i, v) :: l2) = Some v.
Proof using Hnd.
  destruct (assoc_app_notin l1 ((i, v) :: l2) i (proj1 mid_notin)) as (-> & _). simpl.
  by rewrite Z.eqb_refl.
Qed.

Lemma after_mid : after i (l1 ++ (i, v) :: l2) = l2.
Proof using Hnd.
  destruct (assoc_app_notin l1 ((i, v) :: l2) i (proj1 mid_notin)) as (_ & -> & _). simpl.
  by rewrite Z.eqb_refl.
Qed.

Lemma remove_mid : remove_id i (l1 ++ (i, v) :: l2) = l1 ++ l2.
Proof using Hnd.
  destruct (assoc_app_notin l1 ((i, v) :: l2) i (proj1 mid_notin)) as (_ & _ & -> & _).
  unfold remove_id. rewrite filter_cons_False by (simpl; congruence).
  f_equal. apply (assoc_notin l2 i (proj2 mid_notin)).
Qed.

Lemma set_mid w : set_id i w <$> (l1 ++ (i, v) :: l2) = l1 ++ (i, w) :: l2.
Proof using Hnd.
  rewrite fmap_app, fmap_cons.
  destruct (assoc_app_notin l1 [] i (proj1 mid_notin)) as (_ & _ & _ & ->).
  destruct (assoc_app_notin l2 [] i (proj2 mid_notin)) as (_ & _ & _ & ->).
  unfold set_id. simpl. by rewrite Z.eqb_refl.
Qed.

End AssocLemmas.

Lemma rep_ids_NoDup st al : repA st al -> NoDup al.*2.*1.
Proof. intros (_ & _ & _ & _ & H). by apply ids_ok_NoDup in H. Qed.

Lemma rep_size st al : repA st al -> size (nodes_ st) = length al /\ size (heap st) = length al.
Proof.
  intros Hr. pose proof (repA_ids_NoDup _ _ Hr) as Hi. destruct Hr as (Hnd & Hdat & _ & Hn & _). split.
  - rewrite Hn, map_size_list_to_map, length_fmap; done.
  - rewrite <- (map_size_fmap (fun n => (node_id n, value n)) (heap st)).
    change (size (dat st) = length al). rewrite Hdat. by rewrite map_size_list_to_map.
Qed.

(** Case analysis on whether an id is in the list. *)
Lemma rep_cases st al i : repA st al ->
  (i ∉ al.*2.*1 /\ FindNode st i = None) \/
  exists al1 a v al2 n, al = al1 ++ (a, (i, v)) :: al2 /\ FindNode st i = Some (At a) /\
    deref st (At a) = Some n /\ node_id n = i /\ value n = v /\
    NoDup (al1.*2 ++ (i, v) :: al2.*2).*1.
Proof.
  intros Hr. destruct (decide (i ∈ al.*2.*1)) as [Hin|Hin].
  - right. destruct (elem_ids_split _ _ Hin) as (al1 & a & v & al2 & ->).
    pose proof (rep_ids_NoDup _ _ Hr) as Hnd. rewrite fmap_app, fmap_cons in Hnd. simpl in Hnd.
    destruct (repA_deref _ _ a i v Hr) as (n & ? & ? & ?); [set_solver|].
    exists al1, a, v, al2, n. split_and!; [done| |done..]. eapply (repA_FindNode _ _ _ _ v); [done|set_solver].
  - left. split; [done|]. by eapply repA_FindNode_None.
Qed.

(** ** Refinement *)

(** What every operation owes its specification. *)
Definition refines_op (o : op) (st : LinkedList) (al : list (positive * (Z * Z))) : Prop :=
  exists r st' l', run o st = Some (r, st') /\ spec o al.*2 r l' /\ rep st' l'.

Lemma refines_unchanged o st al r l' :
  repA st al -> run o st = Some (r, st) -> l' = al.*2 -> spec o al.*2 r l' -> refines_op o st al.
Proof. intros Hr Hrun -> Hs. exists r, st, al.*2. split_and!; [done..|]. by exists al. Qed.

Lemma refines_PushFront v st al : repA st al -> Z.of_nat (length al) < 2 ^ 32 - 1 ->
  refines_op (OPushFront v) st al.
Proof.
  intros Hr Hlen. unfold refines_op, run, PushFront. destruct (new_node v st) as [[a id] st1] eqn:HN.
  destruct (push_mid st [] al v a id st1 Hr Hlen HN) as (Hs & Hid & Hrg & st2 & HI & Hr2).
  rewrite Hs, (proj1 (repA_ends _ _ Hr)), HI.
  exists id. do 2 eexists. split_and!; [done|simpl; split_and!; [done|lia|lia|reflexivity]|].
  eexists. split; [|exact Hr2]. done.
Qed.

Lemma refines_PushBack v st al : repA st al -> Z.of_nat (length al) < 2 ^ 32 - 1 ->
  refines_op (OPushBack v) st al.
Proof.
  intros Hr Hlen. unfold refines_op, run, PushBack. destruct (new_node v st) as [[a id] st1] eqn:HN.
  rewrite <- (app_nil_r al) in Hr, Hlen.
  destruct (push_mid st al [] v a id st1 Hr Hlen HN) as (Hs & Hid & Hrg & st2 & HI & Hr2).
  simpl in HI. rewrite HI. rewrite app_nil_r in Hid.
  exists id. do 2 eexists. split_and!; [done|simpl; split_and!; [done|lia|lia|reflexivity]|].
  eexists. split; [|exact Hr2]. by rewrite fmap_app.
Qed.

Lemma pop_at_mid st al1 a i v al2 : repA st (al1 ++ (a, (i, v)) :: al2) ->
  exists st', pop_at (At a) st = Some (v, st') /\ repA st' (al1 ++ al2).
Proof.
  intros Hr. destruct (repA_deref _ _ a i v Hr) as (n & Hn & <- & <-); [set_solver|].
  unfold pop_at. rewrite Hn. destruct (take_out_mid _ _ _ _ _ _ Hr) as (st' & -> & ?). by eexists.
Qed.

Lemma is_empty_rep st al : repA st al -> is_empty (nodes_ st) = bool_decide (al = []).
Proof.
  intros Hr. unfold is_empty. rewrite (proj1 (rep_size _ _ Hr)).
  apply bool_decide_ext. by destruct al.
Qed.

Lemma refines_PopFront st al : repA st al -> refines_op OPopFront st al.
Proof.
  intros Hr. destruct al as [|[a [i v]] al].
  - eapply refines_unchanged; [done| |done|done]. simpl. unfold PopFront. by rewrite (is_empty_rep _ _ Hr).
  - destruct (pop_at_mid st [] a i v al Hr) as (st' & Hp & Hr').
    exists v, st', al.*2. split_and!; [|done|by exists al].
    simpl. unfold PopFront. rewrite (is_empty_rep _ _ Hr). by rewrite (proj1 (repA_ends _ _ Hr)).
Qed.

Lemma refines_PopBack st al : repA st al -> refines_op OPopBack st al.
Proof.
  intros Hr. destruct al as [|[a [i v]] al _] using rev_ind.
  - eapply refines_unchanged; [done| |done|done]. simpl. unfold PopBack. by rewrite (is_empty_rep _ _ Hr).
  - destruct (pop_at_mid st al a i v [] Hr) as (st' & Hp & Hr'). rewrite app_nil_r in Hr'.
    exists v, st', al.*2. split_and!; [| |by exists al].
    + simpl. unfold PopBack. rewrite (is_empty_rep _ _ Hr).
      rewrite bool_decide_eq_false_2 by (by destruct al).
      rewrite (proj2 (repA_ends _ _ Hr)), !fmap_app. simpl. by rewrite lastp_snoc.
    + simpl. rewrite fmap_app, reverse_app. simpl. by rewrite reverse_involutive.
Qed.

Lemma refines_Remove i st al : repA st al -> refines_op (ORemove i) st al.
Proof.
  intros Hr. destruct (rep_cases st al i Hr) as [[Hi Hf]|(al1 & a & v & al2 & n & -> & Hf & Hn & <- & <- & Hnd)].
  - destruct (assoc_notin _ _ Hi) as (Ha & _ & Hrm).
    eapply refines_unchanged; [done| |done|]; simpl; [unfold Remove; by rewrite Hf|by rewrite Ha, Hrm].
  - destruct (take_out_mid _ _ _ _ _ _ Hr) as (st' & Ht & Hr').
    exists (value n), st', (al1 ++ al2).*2. split_and!; [| |by eexists].
    + simpl. unfold Remove. simpl in Hn. rewrite Hf. simpl. by rewrite Hn, Ht.
    + rewrite !fmap_app, fmap_cons. simpl. by rewrite assoc_mid, remove_mid.
Qed.

Lemma refines_MoveToFront i st al : repA st al -> refines_op (OMoveToFront i) st al.
Proof.
  intros Hr. destruct (rep_cases st al i Hr) as [[Hi Hf]|(al1 & a & v & al2 & n & -> & Hf & Hn & <- & <- & Hnd)].
  - destruct (assoc_notin _ _ Hi) as (Ha & _ & _).
    eapply refines_unchanged; [done| |done|]; simpl; [unfold MoveToFront; by rewrite Hf|by rewrite Ha].
  - assert (exists st', MoveToFront (node_id n) st = Some st' /\
              repA st' ((a, (node_id n, value n)) :: al1 ++ al2)) as (st' & Hm & Hr').
    { unfold MoveToFront. rewrite Hf, (proj1 (repA_ends _ _ Hr)). case_decide as Hd.
      - exists st. split; [done|]. destruct al1 as [|[b d] al1]; [done|].
        simplify_eq/=. destruct Hr as (Hnda & _). rewrite fmap_cons, fmap_app in Hnda.
        apply NoDup_cons in Hnda as [Hb _]. simpl in Hb. set_solver.
      - destruct (move_mid st al1 (a, (node_id n, value n)) al2 [] (al1 ++ al2) Hr eq_refl)
          as (st1 & st' & HU & Hc & HI & Hr'). exists st'. split; [|done].
        simpl in HU, HI. rewrite HU. by rewrite (path_first _ _ _ _ _ Hc : next (sentinel_ st1) = _). }
    exists 0, st', ((a, (node_id n, value n)) :: al1 ++ al2).*2. split_and!; [| |by eexists].
    + simpl. by rewrite Hm.
    + rewrite fmap_cons, !fmap_app, fmap_cons. simpl. by rewrite assoc_mid, remove_mid.
Qed.

Lemma refines_MoveToBack i st al : repA st al -> refines_op (OMoveToBack i) st al.
Proof.
  intros Hr. destruct (rep_cases st al i Hr) as [[Hi Hf]|(al1 & a & v & al2 & n & -> & Hf & Hn & <- & <- & Hnd)].
  - destruct (assoc_notin _ _ Hi) as (Ha & _ & _).
    eapply refines_unchanged; [done| |done|]; simpl; [unfold MoveToBack; by rewrite Hf|by rewrite Ha].
  - assert (exists st', MoveToBack (node_id n) st = Some st' /\
              repA st' ((al1 ++ al2) ++ [(a, (node_id n, value n))])) as (st' & Hm & Hr').
    { unfold MoveToBack. rewrite Hf, (proj2 (repA_ends _ _ Hr)). case_decide as Hd.
      - exists st. split; [done|]. destruct al2 as [|[b d] al2 _] using rev_ind; [by rewrite app_nil_r|].
        rewrite fmap_app, fmap_cons, (fmap_app fst al2) in Hd. simpl in Hd.
        rewrite fmap_app, fmap_cons, (fmap_app At) in Hd. simpl in Hd.
        rewrite app_comm_cons, app_assoc, lastp_snoc in Hd. simplify_eq.
        destruct Hr as (Hnda & _). rewrite fmap_app, fmap_cons, fmap_app in Hnda.
        apply list.NoDup_app in Hnda as (_ & _ & [Hb _]%NoDup_cons). simpl in Hb. set_solver.
      - destruct (move_mid st al1 (a, (node_id n, value n)) al2 (al1 ++ al2) [] Hr (eq_sym (app_nil_r _)))
          as (st1 & st' & HU & Hc & HI & Hr'). exists st'. split; [|done].
        simpl in HU, HI. by rewrite HU. }
    exists 0, st', ((al1 ++ al2) ++ [(a, (node_id n, value n))]).*2. split_and!; [| |by eexists].
    + simpl. by rewrite Hm.
    + rewrite !fmap_app, !fmap_cons. simpl. by rewrite assoc_mid, remove_mid.
Qed.

Lemma refines_GetValue i st al : repA st al -> refines_op (OGetValue i) st al.
Proof.
  intros Hr. destruct (rep_cases st al i Hr) as [[Hi Hf]|(al1 & a & v & al2 & n & -> & Hf & Hn & <- & <- & Hnd)].
  - destruct (assoc_notin _ _ Hi) as (Ha & _ & _).
    eapply refines_unchanged; [done| |done|]; simpl; [unfold GetValue; by rewrite Hf|by rewrite Ha].
  - eapply refines_unchanged; [done| |done|].
    + simpl. unfold GetValue. rewrite Hf, Hn. done.
    + rewrite fmap_app, fmap_cons. simpl. by rewrite assoc_mid.
Qed.

Lemma set_id_notin i v (l : list (Z * Z)) : i ∉ l.*1 -> set_id i v <$> l = l.
Proof. intros Hi. by destruct (assoc_app_notin l [] i Hi) as (_ & _ & _ & ->). Qed.

(** Overwriting the value of a node keeps links, ids and index. *)
Lemma SetValue_mid st al1 a i v al2 n w :
  repA st (al1 ++ (a, (i, v)) :: al2) -> heap st !! a = Some n -> node_id n = i ->
  repA (set_heap <[a := mkNode w (prev n) (next n) (node_id n)]> st) (al1 ++ (a, (i, w)) :: al2).
Proof.
  intros (Hnd & Hdat & Hpath & Hidx & Hids) Hn Hid. subst i.
  rewrite fmap_app, fmap_cons in Hnd. split_and!.
  - by rewrite fmap_app, fmap_cons.
  - unfold dat in *. simpl. rewrite fmap_insert, Hdat. apply list.NoDup_app in Hnd as (_ & Hx & _).
    rewrite !list_to_map_mid by set_solver. apply insert_insert_eq.
  - unfold chain in *. rewrite fmap_app, fmap_cons in *.
    eapply path_ext; [..|exact Hpath]; intros [|b] _; try done; unfold nx, pv; simpl;
      (destruct (decide (b = a)) as [->|]; [by rewrite lookup_insert_eq, Hn|by rewrite lookup_insert_ne by done]).
  - rewrite fmap_app, fmap_cons in *. exact Hidx.
  - rewrite !fmap_app, !fmap_cons in *. destruct Hids as (base & k & ?). by exists base, k.
Qed.

Lemma refines_SetValue i w st al : repA st al -> refines_op (OSetValue i w) st al.
Proof.
  intros Hr. destruct (rep_cases st al i Hr) as [[Hi Hf]|(al1 & a & v & al2 & n & -> & Hf & Hn & Hid & <- & Hnd)].
  - eapply refines_unchanged; [done| | |simpl; split; [done|reflexivity]].
    + simpl. unfold SetValue. by rewrite Hf.
    + by apply set_id_notin.
  - exists 0. eexists _, (al1 ++ (a, (i, w)) :: al2).*2. split_and!.
    + simpl. unfold SetValue. rewrite Hf. rewrite Hn. simpl in *. rewrite Hn. simpl. reflexivity.
    + rewrite !fmap_app, !fmap_cons. simpl. by rewrite set_mid.
    + eexists. split; [done|]. by eapply SetValue_mid.
Qed.

(** The id read through a link is the id of the neighbouring element. *)
Lemma id_at_link st al al' : repA st al -> Forall (fun e => e ∈ al) al' ->
  let p := headp (At <$> al'.*1) Sentinel in
  (if decide (p = Sentinel) then Some 0 else node_id <$> deref st p) = Some (first_id al'.*2).
Proof.
  intros Hr Hal. destruct al' as [|[a [i v]] al']; [done|].
  apply Forall_cons in Hal as [He _]. destruct (repA_deref _ _ _ _ _ Hr He) as (n & Hn & <- & <-).
  simpl in *. by rewrite Hn.
Qed.

Lemma lastp_reverse p l : lastp p l = headp (reverse l) p.
Proof. destruct l as [|x l _] using rev_ind; [done|]. by rewrite lastp_snoc, reverse_snoc. Qed.

Lemma lastp_fmap_reverse {A} (al : list (positive * A)) :
  lastp Sentinel (At <$> al.*1) = headp (At <$> (reverse al).*1) Sentinel.
Proof. by rewrite lastp_reverse, !fmap_reverse. Qed.

(** The two links of an element in the middle. *)
Lemma repA_links st al1 a i v al2 n :
  repA st (al1 ++ (a, (i, v)) :: al2) -> deref st (At a) = Some n ->
  next n = headp (At <$> al2.*1) Sentinel /\ prev n = headp (At <$> (reverse al1).*1) Sentinel.
Proof.
  intros (_ & _ & Hpath & _) Hn. rewrite !fmap_app, !fmap_cons in Hpath.
  apply path_app in Hpath as [H1%path_last H2%path_first].
  rewrite lastp_fmap_reverse in H1. unfold nx in H2. unfold pv in H1. simpl in *.
  rewrite Hn in *. done.
Qed.

Lemma refines_First st al : repA st al -> refines_op OFirst st al.
Proof.
  intros Hr. eapply refines_unchanged; [done| |done|]; simpl; [|split; reflexivity].
  unfold First. rewrite (proj1 (repA_ends _ _ Hr)).
  rewrite (id_at_link st al al Hr) by (by apply Forall_forall). done.
Qed.

Lemma Forall_in_reverse {A} (l : list A) : Forall (fun e => e ∈ l) (reverse l).
Proof. apply Forall_forall. intros e. by rewrite elem_of_reverse. Qed.

Lemma refines_Last st al : repA st al -> refines_op OLast st al.
Proof.
  intros Hr. eapply refines_unchanged; [done| |done|]; simpl; [|split; reflexivity].
  unfold Last. rewrite (proj2 (repA_ends _ _ Hr)), lastp_fmap_reverse.
  rewrite (id_at_link st al (reverse al) Hr) by apply Forall_in_reverse. by rewrite fmap_reverse.
Qed.

Lemma refines_Next i st al : repA st al -> refines_op (ONext i) st al.
Proof.
  intros Hr. destruct (rep_cases st al i Hr) as [[Hi Hf]|(al1 & a & v & al2 & n & -> & Hf & Hn & <- & <- & Hnd)].
  - destruct (assoc_notin _ _ Hi) as (_ & Ha & _).
    eapply refines_unchanged; [done| |done|]; simpl; [unfold Next; by rewrite Hf|by rewrite Ha].
  - eapply refines_unchanged; [done| |done|].
    + simpl. unfold Next. rewrite Hf, Hn, (proj1 (repA_links _ _ _ _ _ _ _ Hr Hn)).
      rewrite (id_at_link st _ al2 Hr) by (apply Forall_forall; set_solver). done.
    + rewrite fmap_app, fmap_cons. simpl. by rewrite after_mid.
Qed.

Lemma refines_Prev i st al : repA st al -> refines_op (OPrev i) st al.
Proof.
  intros Hr. destruct (rep_cases st al i Hr) as [[Hi Hf]|(al1 & a & v & al2 & n & -> & Hf & Hn & <- & <- & Hnd)].
  - assert (i ∉ (reverse al.*2).*1) as Hi' by (by rewrite fmap_reverse, elem_of_reverse).
    destruct (assoc_notin _ _ Hi') as (_ & Ha & _).
    eapply refines_unchanged; [done| |done|]; simpl; [unfold Prev; by rewrite Hf|by rewrite Ha].
  - eapply refines_unchanged; [done| |done|].
    + simpl. unfold Prev. rewrite Hf, Hn, (proj2 (repA_links _ _ _ _ _ _ _ Hr Hn)).
      rewrite (id_at_link st _ (reverse al1) Hr); [done|].
      apply Forall_forall. intros e. rewrite elem_of_reverse. set_solver.
    + simpl. rewrite fmap_app, fmap_cons, reverse_app, reverse_cons, <- app_assoc. simpl.
      rewrite after_mid; [by rewrite fmap_reverse|].
      rewrite <- reverse_Permutation in Hnd.
      by rewrite <- fmap_reverse, reverse_app, reverse_cons, <- app_assoc in Hnd.
Qed.

Lemma refines_Size st al : repA st al -> refines_op OSize st al.
Proof.
  intros Hr. eapply refines_unchanged; [done..| |]; [reflexivity|].
  simpl. split; [|done]. unfold Size. by rewrite (proj1 (rep_size _ _ Hr)), length_fmap.
Qed.

(** The forward links alone: each element leads to the next one. *)
Fixpoint fwd (f : ptr -> ptr) (l : list ptr) : Prop :=
  match l with [] => True | x :: l => f x = headp l Sentinel /\ fwd f l end.

Lemma path_fwd f g p l : path f g p l Sentinel -> fwd f l.
Proof.
  revert p. induction l as [|x l IH]; intros p; simpl; [done|]. intros (_ & _ & H).
  split; [by apply path_first in H|by eapply IH].
Qed.

Lemma fwd_ext f g l : (forall x, x ∈ l -> g x = f x) -> fwd f l -> fwd g l.
Proof.
  induction l as [|x l IH]; intros H; simpl; [done|]. intros [Hx Hl].
  split; [rewrite H; [done|constructor]|]. apply IH; [|done]. intros y Hy. apply H. by constructor.
Qed.

Lemma fwd_next st a n l : fwd (nx st) (At a :: l) -> heap st !! a = Some n -> next n = headp l Sentinel.
Proof. intros [H _] Hn. unfold nx in H. simpl in H. by rewrite Hn in H. Qed.

(** [Clear]: walking the chain deletes every node. *)
Lemma clear_loop_spec al : forall st,
  NoDup al.*1 -> dat st = list_to_map al -> fwd (nx st) (At <$> al.*1) ->
  exists st', clear_loop (length al) (headp (At <$> al.*1) Sentinel) st = Some st' /\
    heap st' = ∅ /\ next_id_ st' = next_id_ st.
Proof.
  induction al as [|[a d] al IH]; intros st Hnd Hdat Hfwd.
  - exists st. split_and!; [done| |done]. unfold dat in Hdat. simpl in Hdat. by apply fmap_empty_inv in Hdat.
  - apply NoDup_cons in Hnd as [Ha Hnd]. simpl in Ha, Hdat.
    assert (is_Some (heap st !! a)) as [n Hn].
    { apply (live_dat st). rewrite Hdat, lookup_insert_eq. by eexists. }
    simpl. rewrite !Hn, (fwd_next _ _ _ _ Hfwd Hn). apply (IH (set_heap (delete a) st)); [done| |].
    + unfold dat in *. simpl. rewrite fmap_delete, Hdat. apply delete_insert_id.
      by apply not_elem_of_list_to_map_1.
    + destruct Hfwd as [_ Hfwd]. eapply fwd_ext; [|exact Hfwd].
      intros x (b & -> & Hb)%list_elem_of_fmap. unfold nx. simpl.
      rewrite lookup_delete_ne; [done|]. by intros ->.
Qed.

Lemma Clear_spec st al : repA st al ->
  exists st', Clear st = Some st' /\ heap st' = ∅ /\ repA st' [].
Proof.
  intros Hr. pose proof (rep_size _ _ Hr) as [_ Hs]. pose proof (repA_ends _ _ Hr) as [Hh _].
  destruct Hr as (Hnd & Hdat & Hpath & _ & base & k & _ & Hid & Hk).
  destruct (clear_loop_spec al st Hnd Hdat (path_fwd _ _ _ _ Hpath)) as (st' & H1 & H2 & H3).
  unfold Clear. rewrite Hs, Hh, H1. eexists. split_and!; [done|done|].
  split_and!; try done.
  - constructor.
  - unfold dat. simpl. by rewrite H2.
  - exists (skip0 (next_id_ st)), 0%nat. simpl. rewrite H3. split_and!; try lia; [done|].
    rewrite cursor_0; [done|]. unfold skip0. destruct (Z.eqb_spec (next_id_ st) 0); lia.
Qed.

Lemma refines_Clear st al : repA st al -> refines_op OClear st al.
Proof.
  intros Hr. destruct (Clear_spec st al Hr) as (st' & H1 & _ & H3).
  exists 0, st', []. simpl. rewrite H1. split_and!; [done..|]. by exists [].
Qed.

(** ** Properties *)

(** Any operation, on any list that still has a free id. *)
Lemma refines_any o st al : repA st al -> Z.of_nat (length al) < 2 ^ 32 - 1 -> refines_op o st al.
Proof.
  intros Hr Hl. destruct o; [by apply refines_PushFront|by apply refines_PushBack|
    by apply refines_PopFront|by apply refines_PopBack|by apply refines_Remove|
    by apply refines_MoveToFront|by apply refines_MoveToBack|by apply refines_GetValue|
    by apply refines_SetValue|by apply refines_First|by apply refines_Last|by apply refines_Next|
    by apply refines_Prev|by apply refines_Size|by apply refines_Clear].
Qed.

(** A sequence of operations, and the abstract runs it may follow. *)
Fixpoint run_all (os : list op) (st : LinkedList) : option (list Z * LinkedList) :=
  match os with
  | [] => Some ([], st)
  | o :: os => let? (r, st) := run o st in
               let? (rs, st) := run_all os st in Some (r :: rs, st)
  end.

Inductive spec_all : list op -> list (Z * Z) -> list Z -> list (Z * Z) -> Prop :=
  | spec_nil l : spec_all [] l [] l
  | spec_cons o os l r l1 rs l2 :
      spec o l r l1 -> spec_all os l1 rs l2 -> spec_all (o :: os) l (r :: rs) l2.

Lemma length_filter_le {A} (P : A -> Prop) `{!forall x, Decision (P x)} (l : list A) :
  (length (filter P l) <= length l)%nat.
Proof. apply submseteq_length, sublist_submseteq, sublist_filter. Qed.

Lemma assoc_remove_length i v l : assoc i l = Some v -> (length (remove_id i l) < length l)%nat.
Proof.
  unfold remove_id. induction l as [|[j w] l IH]; simpl; [done|].
  destruct (Z.eqb_spec j i) as [->|Hne].
  - intros _. rewrite filter_cons_False by (simpl; congruence). pose proof (length_filter_le (fun e => e.1 <> i) l). lia.
  - intros H. rewrite filter_cons_True by done. specialize (IH H). simpl. lia.
Qed.

(** An operation adds at most one element. *)
Lemma spec_length o l r l' : spec o l r l' -> (length l' <= S (length l))%nat.
Proof.
  destruct o; simpl.
  - intros (_ & _ & ->). done.
  - intros (_ & _ & ->). rewrite length_app. simpl. lia.
  - destruct l as [|[? ?] ?]; intros [= -> ->]; simpl; lia.
  - pose proof (length_reverse l). destruct (reverse l) as [|[? ?] t]; intros [= -> ->]; simpl in *; [lia|].
    rewrite length_reverse. lia.
  - intros [_ ->]. unfold remove_id. pose proof (length_filter_le (fun e => e.1 <> id) l). lia.
  - intros [_ ->]. destruct (assoc id l) eqn:E; [|lia]. apply assoc_remove_length in E. simpl. lia.
  - intros [_ ->]. destruct (assoc id l) eqn:E; [|lia]. apply assoc_remove_length in E.
    rewrite length_app. simpl. lia.
  - intros [_ ->]. lia.
  - intros [_ ->]. rewrite length_fmap. lia.
  - intros [_ ->]. lia.
  - intros [_ ->]. lia.
  - intros [_ ->]. lia.
  - intros [_ ->]. lia.
  - intros [_ ->]. lia.
  - intros [_ ->]. simpl. lia.
Qed.

Lemma run_all_refines os : forall st l, rep st l ->
  Z.of_nat (length l + length os) < 2 ^ 32 ->
  exists rs st' l', run_all os st = Some (rs, st') /\ spec_all os l rs l' /\ rep st' l'.
Proof.
  induction os as [|o os IH]; intros st l Hr Hlen.
  - exists [], st, l. split_and!; [done|constructor|done].
  - destruct Hr as (al & -> & Hr). simpl in Hlen. rewrite length_fmap in Hlen.
    destruct (refines_any o st al Hr) as (r & st1 & l1 & Hrun & Hs & Hr1); [lia|].
    pose proof (spec_length _ _ _ _ Hs) as Hl1. rewrite length_fmap in Hl1.
    destruct (IH st1 l1 Hr1) as (rs & st2 & l2 & Hrun2 & Hs2 & Hr2); [lia|].
    exists (r :: rs), st2, l2. simpl. rewrite Hrun, Hrun2.
    split_and!; [done|by econstructor|done].
Qed.

(** Following [First] and [Next] as a plugin does. *)
Fixpoint walk (fuel : nat) (id : Z) (st : LinkedList) : option (list Z) :=
  if id =? 0 then Some [] else
  match fuel with
  | O => None
  | S fuel => let? n := Next id st in let? ids := walk fuel n st in Some (id :: ids)
  end.

Lemma rep_ids_range st al i : repA st al -> i ∈ al.*2.*1 -> 1 <= i < 2 ^ 32.
Proof.
  intros (_ & _ & _ & _ & base & k & Hp & _) Hi.
  assert (i ∈ issued base k) as (j & _ & ->)%elem_of_issued by (rewrite <- Hp; set_solver).
  apply cursor_range.
Qed.

Lemma walk_spec st al : repA st al -> forall al2 al1, al = al1 ++ al2 ->
  walk (length al2) (first_id al2.*2) st = Some al2.*2.*1.
Proof.
  intros Hr. induction al2 as [|[a [i v]] al2 IH]; intros al1 Hal; [done|].
  assert (1 <= i < 2 ^ 32) as Hi.
  { eapply rep_ids_range; [exact Hr|]. rewrite Hal, !fmap_app, !fmap_cons. simpl. set_solver. }
  change (first_id ((a, (i, v)) :: al2).*2) with i. cbn [length walk].
  rewrite (proj2 (Z.eqb_neq i 0)) by lia.
  destruct (refines_Next i st al Hr) as (r & st' & l' & Hrun & [Hr' _] & _). simpl in Hrun.
  destruct (Next i st) as [z|]; [|done]. simpl in Hrun. simplify_eq.
  pose proof (rep_ids_NoDup _ _ Hr) as Hnd. rewrite fmap_app, fmap_cons in *. simpl in *.
  rewrite after_mid by done. rewrite (IH (al1 ++ [(a, (i, v))])) by (by rewrite <- app_assoc). done.
Qed.

(** The copy loop appends the values of the chain to the copy. *)
Lemma copy_loop_spec st (al2 : list (positive * (Z * Z))) : forall copy cl, fwd (nx st) (At <$> al2.*1) ->
  (forall a d, (a, d) ∈ al2 -> exists n, heap st !! a = Some n /\ value n = d.2) ->
  rep copy cl -> Z.of_nat (length cl + length al2) < 2 ^ 32 ->
  exists copy' cl', copy_loop (length al2) (headp (At <$> al2.*1) Sentinel) st copy = Some copy' /\
    rep copy' cl' /\ cl'.*2 = cl.*2 ++ al2.*2.*2.
Proof.
  induction al2 as [|[a d] al2 IH]; intros copy cl Hf Hval Hr Hlen.
  - exists copy, cl. split_and!; [done|done|]. simpl. by rewrite app_nil_r.
  - destruct (Hval a d) as (n & Hn & Hv); [constructor|].
    destruct Hr as (cal & -> & Hr). rewrite length_fmap in Hlen. simpl in Hlen.
    destruct (refines_PushBack (value n) copy cal Hr) as (id & copy1 & cl1 & Hrun & (_ & _ & ->) & Hr1); [lia|].
    destruct (IH copy1 (cal.*2 ++ [(id, value n)])) as (copy' & cl' & Hc & Hr' & Hcl).
    + apply Hf.
    + intros b e Hb. apply Hval. by constructor.
    + done.
    + rewrite length_app, length_fmap. simpl. lia.
    + exists copy', cl'. split_and!; [|done|].
      * simpl. rewrite Hn. rewrite (fwd_next _ _ _ _ Hf Hn). simpl in Hrun. by rewrite Hrun.
      * rewrite Hcl, fmap_app, <- app_assoc. simpl. by rewrite Hv.
Qed.

Lemma DeepCopy_spec st l : rep st l -> Z.of_nat (length l) < 2 ^ 32 ->
  exists copy cl, DeepCopy st = Some copy /\ rep copy cl /\ cl.*2 = l.*2.
Proof.
  intros (al & -> & Hr) Hlen. rewrite length_fmap in Hlen. unfold DeepCopy.
  rewrite (proj2 (rep_size _ _ Hr)), (proj1 (repA_ends _ _ Hr)).
  apply (copy_loop_spec st al new_LinkedList []); [| |apply rep_new|done].
  - destruct Hr as (_ & _ & Hp & _). by eapply path_fwd.
  - intros a [i v] He. destruct (repA_deref _ _ _ _ _ Hr He) as (n & ? & ? & ?). by exists n.
Qed.

(** A two-element list, for the witnesses. *)
Definition two : list op := [OPushBack 5; OPushFront 7].

Lemma rep_two : exists st, run_all two new_LinkedList = Some ([1; 2], st) /\ rep st [(2, 7); (1, 5)].
Proof.
  destruct (run_all_refines two new_LinkedList [] rep_new) as (rs & st & l & Hrun & Hs & Hr); [simpl; lia|].
  assert (fst <$> run_all two new_LinkedList = Some [1; 2]) as E by (vm_compute; reflexivity).
  rewrite Hrun in E. injection E as ->. exists st. split; [exact Hrun|]. unfold two in Hs.
  inversion Hs as [|? ? ? ? ? ? ? H1 H2]; subst. inversion H2 as [|? ? ? ? ? ? ? H3 H4]; subst.
  inversion H4; subst. destruct H1 as (_ & _ & ->). destruct H3 as (_ & _ & ->). done.
Qed.

(** C13: Every sequence of list operations on a new list runs to completion,
    without ever dereferencing a dead node, and returns what the list of
    (id, value) pairs returns, as long as it performs fewer than 2^32 - 1
    operations; the concrete state represents the abstract one throughout. *)
Theorem linked_list_refines (os : list op) :
  Z.of_nat (length os) < 2 ^ 32 ->
  exists rs st l, run_all os new_LinkedList = Some (rs, st) /\ spec_all os [] rs l /\ rep st l.
Proof. intros H. apply run_all_refines; [apply rep_new|done]. Qed.

Lemma linked_list_refines_witness :
  exists rs st l, run_all [OPushBack 5; OPushFront 7; OPopBack; OPushBack 9; ONext 2] new_LinkedList
    = Some (rs, st) /\ spec_all [OPushBack 5; OPushFront 7; OPopBack; OPushBack 9; ONext 2] [] rs l /\ rep st l.
Proof. apply (linked_list_refines [OPushBack 5; OPushFront 7; OPopBack; OPushBack 9; ONext 2]). simpl. lia. Defined.

(** Walking a list with [First] and [Next] visits exactly its ids, in order,
    and ends. *)
Theorem walk_visits_all (st : LinkedList) (l : list (Z * Z)) :
  rep st l -> exists i, First st = Some i /\ walk (length l) i st = Some l.*1.
Proof.
  intros (al & -> & Hr). destruct (refines_First st al Hr) as (r & st' & l' & Hrun & [-> _] & _).
  simpl in Hrun. destruct (First st) as [z|]; [|done]. simpl in Hrun. injection Hrun as -> <-.
  eexists. split; [done|]. rewrite length_fmap. by apply (walk_spec st al Hr al []).
Qed.

Lemma walk_visits_all_witness : exists st, run_all two new_LinkedList = Some ([1; 2], st) /\
  exists i, First st = Some i /\ walk 2 i st = Some [2; 1].
Proof.
  destruct rep_two as (st & Hrun & Hr). exists st. split; [exact Hrun|].
  exact (walk_visits_all st [(2, 7); (1, 5)] Hr).
Defined.

(** [DeepCopy] of any list succeeds and gives a list with the same values in
    the same order, and freshly numbered ids. *)
Theorem DeepCopy_values (st : LinkedList) (l : list (Z * Z)) :
  rep st l -> Z.of_nat (length l) < 2 ^ 32 ->
  exists copy cl, DeepCopy st = Some copy /\ rep copy cl /\ cl.*2 = l.*2.
Proof. apply DeepCopy_spec. Qed.

Lemma DeepCopy_values_witness : exists st, run_all two new_LinkedList = Some ([1; 2], st) /\
  exists copy cl, DeepCopy st = Some copy /\ rep copy cl /\ cl.*2 = [7; 5].
Proof.
  destruct rep_two as (st & Hrun & Hr). exists st. split; [exact Hrun|].
  apply (DeepCopy_values st [(2, 7); (1, 5)] Hr). simpl. lia.
Defined.

(** [Clear], which the destructor calls, deletes every node of the list:
    no node leaks. *)
Theorem Clear_frees_all (st : LinkedList) (l : list (Z * Z)) :
  rep st l -> exists st', Clear st = Some st' /\ heap st' = ∅ /\ rep st' [].
Proof.
  intros (al & -> & Hr). destruct (Clear_spec st al Hr) as (st' & H1 & H2 & H3).
  exists st'. split_and!; [done..|]. by exists [].
Qed.

Lemma Clear_frees_all_witness : exists st, run_all two new_LinkedList = Some ([1; 2], st) /\
  exists st', Clear st = Some st' /\ heap st' = ∅ /\ rep st' [].
Proof.
  destruct rep_two as (st & Hrun & Hr). exists st. split; [exact Hrun|].
  exact (Clear_frees_all st [(2, 7); (1, 5)] Hr).
Defined.
