(* ===== verification/HandleManager.v ===== *)
(** * [src/handle_manager.h], [src/handle_manager.cpp]: the handle table

    The table maps 32-bit handle ids to typed object pointers, remembers the
    plugin that owns each handle and, per plugin, the set of its handles.  The
    model keeps the same three members and adds the log of the objects that
    [DeleteHandlePointer] has deleted, so that leaks and double deletes can be
    stated.  [CreateHandle]'s scan is a loop with fuel; the theorems show that
    the fuel is enough whenever an id is free.

    [std::unordered_map] and [std::unordered_set] are finite maps and sets;
    where the source iterates over one, the model uses the order of
    [elements] and no theorem depends on that order. *)

From stdpp Require Import base numbers list gmap.
From Stdlib Require Import ZArith Lia.
From S2P Require Import Prelude.

(** ** State *)

Inductive HandleType :=
  | HANDLE_HTTP_REQUEST | HANDLE_JSON_VALUE | HANDLE_TCP_SOCKET | HANDLE_UDP_SOCKET
  | HANDLE_WS_SOCKET | HANDLE_LINKED_LIST | HANDLE_ITERATOR | HANDLE_NONE.

#[export] Instance HandleType_eq_dec : EqDecision HandleType.
Proof. solve_decision. Defined.

(** Objects and plugin contexts are identified by positive numbers; a null
    [owner] is [None]. *)
Record Handle := mkHandle {
  type : HandleType;
  pointer : positive;
  owner : option positive;
  closed : bool
}.

Record HandleManager := mkHM {
  next_handle_ : Z;                             (* int *)
  used_handles_ : gmap Z Handle;
  plugin_handles_ : gmap positive (gset Z);
  deleted : list (positive * HandleType)        (* log of [delete]d objects *)
}.

Definition new_HandleManager : HandleManager := mkHM 1 ∅ ∅ [].

(** ** Operations *)

(** [DeleteHandlePointer] deletes an object of each known type. *)
Definition DeleteHandlePointer (h : Handle) (log : list (positive * HandleType)) :=
  match type h with
  | HANDLE_NONE => log
  | t => log ++ [(pointer h, t)]
  end.

(** The loop visits every element of the map. *)
Definition CleanHandles (st : HandleManager) : HandleManager :=
  mkHM (next_handle_ st) ∅ ∅
    (foldl (fun log e => DeleteHandlePointer e.2 log) (deleted st) (map_to_list (used_handles_ st))).

(** The body shared by the seven typed getters. *)
Definition get_typed (t : HandleType) (handle : Z) (st : HandleManager) : option positive :=
  match used_handles_ st !! handle with
  | None => None
  | Some h => if decide (type h <> t) then None else if closed h then None else Some (pointer h)
  end.

Definition GetHttpRequest := get_typed HANDLE_HTTP_REQUEST.
Definition GetDataHandle := get_typed HANDLE_JSON_VALUE.
Definition GetTcpSocket := get_typed HANDLE_TCP_SOCKET.
Definition GetUdpSocket := get_typed HANDLE_UDP_SOCKET.
Definition GetWsSocket := get_typed HANDLE_WS_SOCKET.
Definition GetLinkedList := get_typed HANDLE_LINKED_LIST.
Definition GetDataIterator := get_typed HANDLE_ITERATOR.

(** [static_cast<int>(static_cast<uint32_t>(candidate) + 1)] *)
Definition bump (c : Z) : Z := sN 32 (uN 32 (uN 32 c + 1)).

(** The scan of [CreateHandle]: [Some 0] is the source's [return 0], [None]
    the end of the fuel. *)
Fixpoint scan (fuel : nat) (used : gmap Z Handle) (start candidate : Z) : option Z :=
  match fuel with
  | O => None
  | S fuel =>
      let candidate := skip0 candidate in
      match used !! candidate with
      | None => Some candidate
      | Some _ => let candidate := bump candidate in
                  if candidate =? start then Some 0 else scan fuel used start candidate
      end
  end.

(** [plugin_handles_[owner].insert(handle)] *)
Definition plugin_insert (o : positive) (h : Z) (m : gmap positive (gset Z)) : gmap positive (gset Z) :=
  <[o := {[h]} ∪ default ∅ (m !! o)]> m.

(** The fuel is one probe more than the number of handles in use. *)
Definition CreateHandle (p : positive) (t : HandleType) (o : option positive) (st : HandleManager)
    : option (Z * HandleManager) :=
  let? candidate := scan (S (size (used_handles_ st))) (used_handles_ st) (next_handle_ st) (next_handle_ st) in
  if candidate =? 0 then Some (0, st) else
  Some (candidate,
        mkHM (bump candidate) (<[candidate := mkHandle t p o false]> (used_handles_ st))
             (match o with Some o => plugin_insert o candidate (plugin_handles_ st)
                         | None => plugin_handles_ st end)
             (deleted st)).

Definition RemoveFromPluginSet (o : positive) (handle : Z) (m : gmap positive (gset Z)) : gmap positive (gset Z) :=
  match m !! o with
  | None => m
  | Some s => let s := s ∖ {[handle]} in if decide (s = ∅) then delete o m else <[o := s]> m
  end.

Definition FreeHandle (handle : Z) (st : HandleManager) : HandleManager :=
  match used_handles_ st !! handle with
  | None => st
  | Some h =>
      mkHM (next_handle_ st) (delete handle (used_handles_ st))
           (match owner h with Some o => RemoveFromPluginSet o handle (plugin_handles_ st)
                             | None => plugin_handles_ st end)
           (DeleteHandlePointer h (deleted st))
  end.

Definition MarkHandleClosed (handle : Z) (st : HandleManager) : HandleManager :=
  match used_handles_ st !! handle with
  | None => st
  | Some h => mkHM (next_handle_ st) (<[handle := mkHandle (type h) (pointer h) (owner h) true]> (used_handles_ st))
                   (plugin_handles_ st) (deleted st)
  end.

Definition set_owner (o : option positive) (h : Handle) : Handle :=
  mkHandle (type h) (pointer h) o (closed h).

Definition TransferHandle (handle : Z) (new_owner : option positive) (st : HandleManager) : bool * HandleManager :=
  match used_handles_ st !! handle with
  | None => (false, st)
  | Some h =>
      if closed h then (false, st) else
      if decide (owner h = new_owner) then (true, st) else
      let ph := match owner h with Some o => RemoveFromPluginSet o handle (plugin_handles_ st)
                                 | None => plugin_handles_ st end in
      (true, mkHM (next_handle_ st) (<[handle := set_owner new_owner h]> (used_handles_ st))
                  (match new_owner with Some o => plugin_insert o handle ph | None => ph end)
                  (deleted st))
  end.

(** The loop of [TakePluginHandles] over the ids of the plugin. *)
Fixpoint take_loop (ids : list Z) (used : gmap Z Handle) : list (Z * Handle) * gmap Z Handle :=
  match ids with
  | [] => ([], used)
  | id :: ids =>
      match used !! id with
      | None => take_loop ids used
      | Some h => let h := set_owner None h in
                  let '(r, used) := take_loop ids (<[id := h]> used) in ((id, h) :: r, used)
      end
  end.

Definition TakePluginHandles (ctx : positive) (st : HandleManager) : list (Z * Handle) * HandleManager :=
  match plugin_handles_ st !! ctx with
  | None => ([], st)
  | Some ids =>
      let '(r, used) := take_loop (elements ids) (used_handles_ st) in
      (r, mkHM (next_handle_ st) used (delete ctx (plugin_handles_ st)) (deleted st))
  end.

(** ** Traces of operations *)

Inductive hop :=
  | HCreate (p : positive) (t : HandleType) (o : option positive)
  | HFree (h : Z) | HMarkClosed (h : Z) | HTransfer (h : Z) (o : option positive)
  | HTake (ctx : positive) | HClean.

(** The id returned by [CreateHandle], 0 for the other operations. *)
Definition hstep (o : hop) (st : HandleManager) : option (Z * HandleManager) :=
  match o with
  | HCreate p t o => CreateHandle p t o st
  | HFree h => Some (0, FreeHandle h st)
  | HMarkClosed h => Some (0, MarkHandleClosed h st)
  | HTransfer h o => Some (0, (TransferHandle h o st).2)
  | HTake ctx => Some (0, (TakePluginHandles ctx st).2)
  | HClean => Some (0, CleanHandles st)
  end.

(** [hrun os st] also collects the objects whose handles were created. *)
Fixpoint hrun (os : list hop) (st : HandleManager) : option (list Z * list (positive * HandleType) * HandleManager) :=
  match os with
  | [] => Some ([], [], st)
  | o :: os =>
      let? (id, st) := hstep o st in
      let? (ids, created, st) := hrun os st in
      Some (id :: ids, match o with HCreate p t _ => if id =? 0 then created else (p, t) :: created
                                  | _ => created end, st)
  end.

(** ** The scan for a free id *)

(** The [i]-th id of the cycle that starts at [base]. *)
Definition hid (base : Z) (i : nat) : Z := sN 32 (cursor base i).

Lemma hid_inj base i j : Z.of_nat i < 2 ^ 32 - 1 -> Z.of_nat j < 2 ^ 32 - 1 ->
  hid base i = hid base j -> i = j.
Proof.
  unfold hid. intros Hi Hj H. apply (f_equal (uN 32)) in H.
  pose proof (cursor_range base i). pose proof (cursor_range base j).
  rewrite !(u_s 32), !(u_id 32) in H by (unfold u_range; lia). by eapply cursor_inj.
Qed.

Lemma sN32_zero x : u_range 32 x -> sN 32 x = 0 -> x = 0.
Proof.
  intros Hr H. apply (f_equal (uN 32)) in H. rewrite (u_s 32), (u_id 32) in H by done. exact H.
Qed.

Lemma hid_range base i : s_range 32 (hid base i) /\ hid base i <> 0.
Proof.
  split; [apply s_bounds; lia|]. intros H%sN32_zero; pose proof (cursor_range base i); unfold u_range; lia.
Qed.

Lemma skip0_sN x : u_range 32 x -> skip0 (sN 32 x) = sN 32 (skip0 x).
Proof.
  intros Hr. unfold skip0. destruct (Z.eqb_spec x 0) as [->|Hx]; [done|].
  destruct (Z.eqb_spec (sN 32 x) 0) as [E|E]; [|done]. by apply sN32_zero in E.
Qed.

Lemma bump_hid base i : skip0 (bump (hid base i)) = hid base (S i).
Proof.
  unfold bump, hid. rewrite skip0_sN by (apply u_bounds; lia).
  rewrite (u_s 32) by lia. rewrite (u_id 32 (cursor base i)) by (pose proof (cursor_range base i); unfold u_range; lia).
  by rewrite cursor_S.
Qed.

(** Where the cursor stands: the next probe. *)
Definition base_of (next : Z) : Z := skip0 (uN 32 next).

Lemma skip0_base next : s_range 32 next -> skip0 next = hid (base_of next) 0.
Proof.
  intros Hr. unfold hid, base_of. pose proof (u_bounds 32 ltac:(lia) next) as Hu.
  rewrite cursor_0 by (unfold skip0, u_range in *; destruct (Z.eqb_spec (uN 32 next) 0); lia).
  rewrite <- skip0_sN by done. by rewrite (s_u 32), (s_id 32) by (lia || done).
Qed.

(** The first [n] ids of the cycle are in use only if there are [n] ids in use. *)
Lemma all_used_size (used : gmap Z Handle) base n : Z.of_nat n < 2 ^ 32 ->
  (forall j, (j < n)%nat -> is_Some (used !! hid base j)) -> (n <= size used)%nat.
Proof.
  intros Hn H. rewrite <- (size_dom (D := gset Z)). transitivity (length (hid base <$> seq 0 n)).
  - by rewrite length_fmap, length_seq.
  - apply NoDup_subset_length.
    + apply NoDup_fmap_2_strong; [|apply NoDup_seq].
      intros x y Hx%elem_of_seq Hy%elem_of_seq. apply hid_inj; lia.
    + intros x (j & -> & Hj%elem_of_seq)%list_elem_of_fmap. apply elem_of_elements, elem_of_dom, H. lia.
Qed.

Lemma scan_spec (used : gmap Z Handle) start : s_range 32 start ->
  Z.of_nat (size used) < 2 ^ 32 - 1 ->
  forall fuel c i, (i + fuel = S (size used))%nat -> skip0 c = hid (base_of start) i ->
  (forall j, (j < i)%nat -> is_Some (used !! hid (base_of start) j)) ->
  exists k, (i <= k)%nat /\ scan fuel used start c = Some (hid (base_of start) k) /\
    used !! hid (base_of start) k = None /\
    forall j, (j < k)%nat -> is_Some (used !! hid (base_of start) j).
Proof.
  intros Hs Hsize. induction fuel as [|fuel IH]; intros c i Hi Hc Hused.
  { apply all_used_size in Hused; lia. }
  cbn [scan]. rewrite Hc. destruct (used !! hid (base_of start) i) eqn:E; [|by exists i].
  assert (forall j, (j < S i)%nat -> is_Some (used !! hid (base_of start) j)) as Hused'.
  { intros j Hj. destruct (decide (j = i)) as [->|]; [by eexists|apply Hused; lia]. }
  pose proof (all_used_size used (base_of start) (S i) ltac:(lia) Hused').
  destruct (Z.eqb_spec (bump (hid (base_of start) i)) start) as [Eq|_].
  - apply (f_equal skip0) in Eq. rewrite bump_hid, (skip0_base start Hs) in Eq. apply hid_inj in Eq; lia.
  - destruct (IH (bump (hid (base_of start) i)) (S i)) as (k & ? & ?); [lia|apply bump_hid|done|].
    exists k. split; [lia|done].
Qed.

(** What [CreateHandle] does to the table when an id is free. *)
Lemma CreateHandle_spec p t o st : s_range 32 (next_handle_ st) ->
  Z.of_nat (size (used_handles_ st)) < 2 ^ 32 - 1 ->
  exists k, let h := hid (base_of (next_handle_ st)) k in
    used_handles_ st !! h = None /\
    (forall j, (j < k)%nat -> is_Some (used_handles_ st !! hid (base_of (next_handle_ st)) j)) /\
    CreateHandle p t o st = Some (h,
      mkHM (bump h) (<[h := mkHandle t p o false]> (used_handles_ st))
        (match o with Some o => plugin_insert o h (plugin_handles_ st) | None => plugin_handles_ st end)
        (deleted st)).
Proof.
  intros Hn Hsize.
  destruct (scan_spec (used_handles_ st) (next_handle_ st) Hn Hsize (S (size (used_handles_ st)))
              (next_handle_ st) 0) as (k & _ & Hscan & Hfree & Hused); [lia|by apply skip0_base|intros; lia|].
  exists k. cbv zeta. split_and!; [done..|]. unfold CreateHandle. rewrite Hscan.
  by rewrite (proj2 (Z.eqb_neq _ _) (proj2 (hid_range _ _))).
Qed.

(** ** The invariant *)

Definition owned (ph : gmap positive (gset Z)) (ctx : positive) (h : Z) : Prop := h ∈ default ∅ (ph !! ctx).

Record wf (st : HandleManager) : Prop := {
  wf_next : s_range 32 (next_handle_ st);
  wf_ids : forall h x, used_handles_ st !! h = Some x -> s_range 32 h /\ h <> 0;
  wf_owned : forall ctx h, owned (plugin_handles_ st) ctx h <->
               exists x, used_handles_ st !! h = Some x /\ owner x = Some ctx;
  wf_nonempty : forall ctx s, plugin_handles_ st !! ctx = Some s -> s <> ∅
}.

Lemma owned_insert o h ph ctx h' :
  owned (plugin_insert o h ph) ctx h' <-> (ctx = o /\ h' = h) \/ owned ph ctx h'.
Proof.
  unfold owned, plugin_insert. destruct (decide (ctx = o)) as [->|Hne].
  - rewrite lookup_insert_eq. simpl. set_solver.
  - rewrite lookup_insert_ne by done. naive_solver.
Qed.

Lemma owned_remove o h ph ctx h' :
  owned (RemoveFromPluginSet o h ph) ctx h' <-> owned ph ctx h' /\ ~ (ctx = o /\ h' = h).
Proof.
  unfold owned, RemoveFromPluginSet. destruct (ph !! o) as [s|] eqn:E.
  - destruct (decide (ctx = o)) as [->|Hne].
    + rewrite E. case_decide as Hs.
      * rewrite lookup_delete_eq. simpl. set_solver.
      * rewrite lookup_insert_eq. simpl. set_solver.
    + case_decide as Hs; [rewrite lookup_delete_ne by done|rewrite lookup_insert_ne by done]; naive_solver.
  - split; [|tauto]. intros H. split; [done|]. intros [-> ->]. rewrite E in H. set_solver.
Qed.

Definition nonempty (ph : gmap positive (gset Z)) : Prop := forall ctx s, ph !! ctx = Some s -> s <> ∅.

Lemma nonempty_insert o h ph : nonempty ph -> nonempty (plugin_insert o h ph).
Proof.
  intros H ctx s. unfold plugin_insert. rewrite lookup_insert_Some. intros [[_ <-]|[_ Hs]]; [set_solver|by eapply H].
Qed.

Lemma nonempty_remove o h ph : nonempty ph -> nonempty (RemoveFromPluginSet o h ph).
Proof.
  intros H ctx s. unfold RemoveFromPluginSet. destruct (ph !! o) as [s0|] eqn:E; [|apply H].
  case_decide as Hd.
  - rewrite lookup_delete_Some. intros [_ ?]. by eapply H.
  - rewrite lookup_insert_Some. intros [[_ <-]|[_ Hs]]; [done|by eapply H].
Qed.

(** [take_loop] detaches the listed handles and reports them. *)
Lemma take_loop_spec ids : forall used, NoDup ids ->
  let '(r, used') := take_loop ids used in
  (forall h, used' !! h = if decide (h ∈ ids) then set_owner None <$> used !! h else used !! h) /\
  NoDup r.*1 /\
  (forall h x, (h, x) ∈ r <-> h ∈ ids /\ exists y, used !! h = Some y /\ x = set_owner None y).
Proof.
  induction ids as [|i ids IH]; intros used Hnd; simpl.
  - split_and!; [done|constructor|]. intros h x. split; [by intros ?%not_elem_of_nil|].
    by intros [?%not_elem_of_nil _].
  - apply NoDup_cons in Hnd as [Hi Hnd]. destruct (used !! i) as [y|] eqn:E.
    + specialize (IH (<[i := set_owner None y]> used) Hnd).
      destruct (take_loop ids _) as [r used']. destruct IH as (Hu & Hr & He). split_and!.
      * intros h. rewrite Hu. destruct (decide (h = i)) as [->|Hne].
        -- rewrite decide_False by done. rewrite decide_True by constructor. by rewrite lookup_insert_eq, E.
        -- rewrite lookup_insert_ne by done.
           destruct (decide (h ∈ ids)); [rewrite decide_True by (by constructor)|rewrite decide_False by set_solver]; done.
      * simpl. apply NoDup_cons. split; [|done].
        intros ([h x] & -> & Hx)%list_elem_of_fmap. by apply He in Hx as [Hx _].
      * intros h x. rewrite elem_of_cons, He. destruct (decide (h = i)) as [->|Hne].
        -- split; [intros [[= ->]|[? _]]; [|done]|intros (_ & z & ? & ?); left; congruence].
           split; [constructor|]. by exists y.
        -- rewrite lookup_insert_ne by done. rewrite elem_of_cons. naive_solver.
    + specialize (IH used Hnd). destruct (take_loop ids used) as [r used'].
      destruct IH as (Hu & Hr & He). split_and!; [|done|].
      * intros h. rewrite Hu. destruct (decide (h = i)) as [->|Hne].
        -- rewrite decide_False by done. rewrite decide_True by constructor. by rewrite E.
        -- destruct (decide (h ∈ ids)); [rewrite decide_True by (by constructor)|rewrite decide_False by set_solver]; done.
      * intros h x. rewrite He, elem_of_cons. naive_solver.
Qed.

Lemma take_spec ctx st : wf st ->
  let '(r, st') := TakePluginHandles ctx st in
  next_handle_ st' = next_handle_ st /\ deleted st' = deleted st /\
  plugin_handles_ st' = delete ctx (plugin_handles_ st) /\
  (forall h, used_handles_ st' !! h =
     (fun x => if decide (owner x = Some ctx) then set_owner None x else x) <$> used_handles_ st !! h) /\
  NoDup r.*1 /\
  (forall h x, (h, x) ∈ r <-> exists y, used_handles_ st !! h = Some y /\ owner y = Some ctx /\ x = set_owner None y).
Proof.
  intros Hwf. unfold TakePluginHandles. pose proof (wf_owned st Hwf ctx) as Ho. unfold owned in Ho.
  destruct (plugin_handles_ st !! ctx) as [s|] eqn:E; simpl in Ho.
  - pose proof (take_loop_spec (elements s) (used_handles_ st) (NoDup_elements s)) as H.
    destruct (take_loop _ _) as [r used']. destruct H as (Hu & Hr & He). simpl. split_and!; try done.
    + intros h. rewrite Hu. destruct (used_handles_ st !! h) as [x|] eqn:Ex; simpl; [|by case_decide].
      f_equal. destruct (decide (owner x = Some ctx)) as [Hx|Hx].
      * rewrite decide_True; [done|]. apply elem_of_elements, Ho. by exists x.
      * rewrite decide_False; [done|]. rewrite elem_of_elements, Ho. intros (y & ? & ?). by simplify_eq.
    + intros h x. rewrite He, elem_of_elements, Ho. split.
      * intros ((y & Hy & ?) & z & Hz & ->). simplify_eq. by exists y.
      * intros (y & ? & ? & ->). split; by exists y.
  - assert (forall h x, used_handles_ st !! h = Some x -> owner x <> Some ctx) as Hno.
    { intros h x Hx Hc. apply (not_elem_of_empty (C := gset Z) h), Ho. by exists x. }
    split_and!; try done.
    + by rewrite delete_id.
    + intros h. destruct (used_handles_ st !! h) as [x|] eqn:Ex; [|done]. simpl. f_equal.
      rewrite decide_False; [done|]. by eapply Hno.
    + constructor.
    + intros h x. split; [by intros ?%not_elem_of_nil|]. intros (y & Hy & Hc & _). by eapply Hno in Hc.
Qed.

(** ** Preservation *)

Lemma wf_new : wf new_HandleManager.
Proof.
  split; simpl; [unfold s_range; lia|by intros ??|..].
  - intros ctx h. unfold owned. rewrite lookup_empty. simpl. split; [set_solver|by intros (? & ? & _)].
  - by intros ??.
Qed.

Lemma bump_range c : s_range 32 (bump c).
Proof. apply s_bounds. lia. Qed.

Lemma wf_Create p t o st : wf st -> Z.of_nat (size (used_handles_ st)) < 2 ^ 32 - 1 ->
  exists h st', CreateHandle p t o st = Some (h, st') /\ wf st'.
Proof.
  intros Hwf Hsize. destruct (CreateHandle_spec p t o st (wf_next _ Hwf) Hsize) as (k & Hfree & _ & Hc).
  eexists _, _. split; [exact Hc|]. clear Hc. pose proof (hid_range (base_of (next_handle_ st)) k) as Hid.
  set (h := hid _ k) in *. destruct Hwf as [H1 H2 H3 H4]. split; simpl.
  - apply bump_range.
  - intros h' x. rewrite lookup_insert_Some. intros [[<- _]|[_ Hx]]; [done|by eapply H2].
  - intros ctx h'. transitivity ((o = Some ctx /\ h' = h) \/ owned (plugin_handles_ st) ctx h').
    + destruct o as [o|]; [rewrite owned_insert; naive_solver|naive_solver].
    + rewrite H3. destruct (decide (h' = h)) as [->|Hne].
      * rewrite lookup_insert_eq, Hfree. naive_solver.
      * rewrite lookup_insert_ne by done. naive_solver.
  - destruct o; [by apply nonempty_insert|done].
Qed.

(** Dropping the plugin-set entry of a handle whose owner is [o]. *)
Definition unown (o : option positive) (h : Z) (ph : gmap positive (gset Z)) : gmap positive (gset Z) :=
  match o with Some o => RemoveFromPluginSet o h ph | None => ph end.

Lemma owned_unown st h x : wf st -> used_handles_ st !! h = Some x -> forall ctx h',
  owned (unown (owner x) h (plugin_handles_ st)) ctx h' <->
  h' <> h /\ exists y, used_handles_ st !! h' = Some y /\ owner y = Some ctx.
Proof.
  intros Hwf Hx ctx h'. unfold unown. destruct (owner x) as [o|] eqn:Eo.
  - rewrite owned_remove, (wf_owned st Hwf). split.
    + intros [(y & Hy & Hc) Hne]. split; [|by exists y]. intros ->. simplify_eq. apply Hne. by split; congruence.
    + intros [Hne (y & ? & ?)]. split; [by exists y|]. tauto.
  - rewrite (wf_owned st Hwf). split; [|tauto]. intros (y & Hy & Hc). split; [|by exists y].
    intros ->. simplify_eq.
Qed.

Lemma nonempty_unown o h ph : nonempty ph -> nonempty (unown o h ph).
Proof. destruct o; [apply nonempty_remove|done]. Qed.

Lemma wf_Free h st : wf st -> wf (FreeHandle h st).
Proof.
  intros Hwf. unfold FreeHandle. destruct (used_handles_ st !! h) as [x|] eqn:E; [|done].
  pose proof (owned_unown st h x Hwf E) as Ho. pose proof Hwf as [H1 H2 H3 H4]. split; simpl.
  - done.
  - intros h' y. rewrite lookup_delete_Some. intros [_ ?]. by eapply H2.
  - intros ctx h'. etrans; [apply Ho|]. setoid_rewrite lookup_delete_Some. naive_solver.
  - exact (nonempty_unown (owner x) h _ H4).
Qed.

Lemma wf_Mark h st : wf st -> wf (MarkHandleClosed h st).
Proof.
  intros Hwf. unfold MarkHandleClosed. destruct (used_handles_ st !! h) as [x|] eqn:E; [|done].
  destruct Hwf as [H1 H2 H3 H4]. split; simpl; [done| | |done].
  - intros h' y. rewrite lookup_insert_Some. intros [[<- _]|[_ ?]]; by eapply H2.
  - intros ctx h'. rewrite H3. destruct (decide (h' = h)) as [->|Hne].
    + rewrite lookup_insert_eq, E. split; intros (y & [= <-] & ?); by eexists.
    + by rewrite lookup_insert_ne by done.
Qed.

Lemma wf_Transfer h o st : wf st -> wf (TransferHandle h o st).2.
Proof.
  intros Hwf. unfold TransferHandle. destruct (used_handles_ st !! h) as [x|] eqn:E; [|done].
  destruct (closed x); [done|]. case_decide as Ho; [done|]. simpl.
  pose proof (owned_unown st h x Hwf E) as Hu. pose proof Hwf as [H1 H2 H3 H4].
  fold (unown (owner x) h (plugin_handles_ st)). set (ph := unown (owner x) h (plugin_handles_ st)) in *.
  split; simpl; [done| | |].
  - intros h' y. rewrite lookup_insert_Some. intros [[<- _]|[_ ?]]; by eapply H2.
  - intros ctx h'. transitivity ((o = Some ctx /\ h' = h) \/ owned ph ctx h').
    + destruct o as [o|]; [rewrite owned_insert; naive_solver|naive_solver].
    + rewrite Hu. destruct (decide (h' = h)) as [->|Hne].
      * rewrite lookup_insert_eq. naive_solver.
      * rewrite lookup_insert_ne by done. naive_solver.
  - assert (nonempty ph) by (by apply nonempty_unown). destruct o; [by apply nonempty_insert|done].
Qed.

Lemma wf_Take ctx st : wf st -> wf (TakePluginHandles ctx st).2.
Proof.
  intros Hwf. pose proof (take_spec ctx st Hwf) as H. destruct (TakePluginHandles ctx st) as [r st'].
  destruct H as (En & _ & Ep & Eu & _). simpl. destruct Hwf as [H1 H2 H3 H4]. split.
  - by rewrite En.
  - intros h x. rewrite Eu. intros (y & Hy & _)%fmap_Some. by eapply H2.
  - intros c h. rewrite Ep, Eu. unfold owned. destruct (decide (c = ctx)) as [->|Hne].
    + rewrite lookup_delete_eq. simpl. split; [set_solver|]. intros (x & Hx & Hc).
      destruct (used_handles_ st !! h) as [y|]; [|done]. simpl in Hx. case_decide; simplify_eq/=.
    + rewrite lookup_delete_ne by done. etrans; [apply H3|].
      destruct (used_handles_ st !! h) as [y|]; simpl; [|naive_solver].
      case_decide; simpl; naive_solver.
  - rewrite Ep. intros c s. rewrite lookup_delete_Some. intros [_ ?]. by eapply H4.
Qed.

Lemma wf_Clean st : wf st -> wf (CleanHandles st).
Proof.
  intros [H1 _ _ _]. split; simpl; [done|by intros ??|..|by intros ??].
  intros ctx h. unfold owned. rewrite lookup_empty. simpl. split; [set_solver|by intros (? & ? & _)].
Qed.

(** ** Objects: what is live and what has been deleted *)

(** The object a handle stands for; [HANDLE_NONE] handles own none. *)
Definition obj (x : Handle) : option (positive * HandleType) :=
  match type x with HANDLE_NONE => None | t => Some (pointer x, t) end.

Definition objs (used : gmap Z Handle) : list (positive * HandleType) := omap obj (map_to_list used).*2.

Lemma DeleteHandlePointer_obj x log : DeleteHandlePointer x log = log ++ option_list (obj x).
Proof. unfold DeleteHandlePointer, obj. destruct (type x); simpl; try done. by rewrite app_nil_r. Qed.

Lemma omap_cons_list {A B} (f : A -> option B) x l : omap f (x :: l) = option_list (f x) ++ omap f l.
Proof. simpl. by destruct (f x). Qed.

Lemma objs_insert_fresh used h x : used !! h = None -> objs (<[h := x]> used) ≡ₚ option_list (obj x) ++ objs used.
Proof.
  intros Hh. unfold objs. rewrite (map_to_list_insert used h x Hh). rewrite fmap_cons, omap_cons_list. done.
Qed.

Lemma objs_lookup used h x : used !! h = Some x -> objs used ≡ₚ option_list (obj x) ++ objs (delete h used).
Proof.
  intros Hh. rewrite <- objs_insert_fresh by apply lookup_delete_eq. by rewrite insert_delete_id.
Qed.

Lemma objs_update used h x y : used !! h = Some x -> obj y = obj x -> objs (<[h := y]> used) ≡ₚ objs used.
Proof.
  intros Hh Hy. rewrite (objs_lookup used h x Hh), <- Hy.
  rewrite <- insert_delete_eq. by apply objs_insert_fresh, lookup_delete_eq.
Qed.

Lemma objs_fmap (f : Handle -> Handle) used used' : (forall x, obj (f x) = obj x) ->
  (forall h, used' !! h = f <$> used !! h) -> objs used' ≡ₚ objs used.
Proof.
  intros Hf Hu. assert (used' = f <$> used) as ->.
  { apply map_eq. intros h. by rewrite Hu, lookup_fmap. }
  unfold objs. rewrite map_to_list_fmap. apply reflexive_eq.
  induction (map_to_list used) as [|[h x] l IH]; [done|].
  rewrite !fmap_cons, !omap_cons_list, IH. simpl. by rewrite Hf.
Qed.

Lemma Clean_log l log : foldl (fun log e => DeleteHandlePointer e.2 log) log l = log ++ omap obj (l : list (Z * Handle)).*2.
Proof.
  revert log. induction l as [|[h x] l IH]; intros log; simpl; [by rewrite app_nil_r|].
  rewrite IH, DeleteHandlePointer_obj, <- app_assoc. destruct (obj x); done.
Qed.

(** The objects an operation brings into the table. *)
Definition born (o : hop) (id : Z) : list (positive * HandleType) :=
  match o with HCreate p t _ => if id =? 0 then [] else option_list (obj (mkHandle t p None false)) | _ => [] end.

(** Every object is either live in the table or deleted, exactly once. *)
Lemma hstep_conserves o st id st' : wf st -> Z.of_nat (size (used_handles_ st)) < 2 ^ 32 - 1 ->
  hstep o st = Some (id, st') ->
  deleted st' ++ objs (used_handles_ st') ≡ₚ born o id ++ deleted st ++ objs (used_handles_ st).
Proof.
  intros Hwf Hsize Hs. destruct o as [p t o|h|h|h o|ctx|]; simpl in Hs.
  - destruct (CreateHandle_spec p t o st (wf_next _ Hwf) Hsize) as (k & Hfree & _ & Hc). simplify_eq/=.
    rewrite (proj2 (Z.eqb_neq _ _) (proj2 (hid_range _ k))).
    rewrite objs_insert_fresh by done. change (obj (mkHandle t p o false)) with (obj (mkHandle t p None false)).
    rewrite !app_assoc. apply Permutation_app_tail. apply Permutation_app_comm.
  - simplify_eq/=. unfold FreeHandle. destruct (used_handles_ st !! h) as [x|] eqn:E; [|done]. simpl.
    rewrite DeleteHandlePointer_obj, (objs_lookup _ _ _ E). by rewrite <- app_assoc.
  - simplify_eq/=. unfold MarkHandleClosed. destruct (used_handles_ st !! h) as [x|] eqn:E; [|done]. simpl.
    by rewrite (objs_update _ _ _ _ E).
  - simplify_eq/=. unfold TransferHandle. destruct (used_handles_ st !! h) as [x|] eqn:E; [|done].
    destruct (closed x); [done|]. case_decide; [done|]. simpl. by rewrite (objs_update _ _ _ _ E).
  - simplify_eq/=. pose proof (take_spec ctx st Hwf) as H. destruct (TakePluginHandles ctx st) as [r st'].
    destruct H as (_ & Ed & _ & Eu & _). simpl. rewrite Ed. erewrite objs_fmap; [done| |exact Eu].
    intros x. simpl. by case_decide.
  - simplify_eq/=. rewrite Clean_log. unfold objs. rewrite map_to_list_empty. simpl. by rewrite app_nil_r.
Qed.

(** ** Traces *)

(** Only a creation makes the table grow. *)
Definition grows (o : hop) : nat := match o with HCreate _ _ _ => 1 | _ => 0 end.

Definition creations (os : list hop) : nat := sum_list (grows <$> os).

Lemma creations_cons o os : creations (o :: os) = (grows o + creations os)%nat.
Proof. done. Qed.

Lemma hstep_dom o st id st' : wf st -> hstep o st = Some (id, st') -> grows o = 0%nat ->
  id = 0 /\ next_handle_ st' = next_handle_ st /\ dom (used_handles_ st') ⊆ dom (used_handles_ st).
Proof.
  intros Hwf Hs Hg. destruct o as [p t o|h|h|h o|ctx|]; simplify_eq/=; (split; [done|]).
  - unfold FreeHandle. destruct (used_handles_ st !! h) eqn:E; [|done]. simpl. rewrite dom_delete. set_solver.
  - unfold MarkHandleClosed. destruct (used_handles_ st !! h) eqn:E; [|done]. simpl.
    rewrite dom_insert_lookup by (rewrite E; by eexists). done.
  - unfold TransferHandle. destruct (used_handles_ st !! h) eqn:E; [|done].
    destruct (closed h0); [done|]. case_decide; [done|]. simpl.
    rewrite dom_insert_lookup by (rewrite E; by eexists). done.
  - pose proof (take_spec ctx st Hwf) as H. destruct (TakePluginHandles ctx st) as [r st'].
    destruct H as (En & _ & _ & Eu & _). simpl. split; [done|]. intros h. rewrite !elem_of_dom, Eu.
    by intros [x (y & -> & _)%fmap_Some].
  - split; [done|]. rewrite dom_empty. set_solver.
Qed.

Lemma hstep_total o st : wf st -> Z.of_nat (size (used_handles_ st)) < 2 ^ 32 - 1 ->
  exists id st', hstep o st = Some (id, st') /\ wf st' /\
    (size (used_handles_ st') <= grows o + size (used_handles_ st))%nat.
Proof.
  intros Hwf Hsize. destruct (decide (grows o = 0%nat)) as [Hg|Hg].
  - assert (exists st', hstep o st = Some (0, st') /\ wf st') as (st' & Hs & Hwf').
    { destruct o; try done; (eexists; split; [reflexivity|]);
        [by apply wf_Free|by apply wf_Mark|by apply wf_Transfer|by apply wf_Take|by apply wf_Clean]. }
    exists 0, st'. split_and!; [done..|]. destruct (hstep_dom o st 0 st' Hwf Hs Hg) as (_ & _ & Hd).
    apply subseteq_size in Hd. rewrite !(size_dom (D := gset Z)) in Hd. lia.
  - destruct o as [p t o|?|?|? ?|?|]; try done.
    destruct (wf_Create p t o st Hwf Hsize) as (h & st' & Hc & Hwf'). exists h, st'.
    split_and!; [done..|]. destruct (CreateHandle_spec p t o st (wf_next _ Hwf) Hsize) as (k & Hf & _ & Hc').
    rewrite Hc in Hc'. simplify_eq/=. by rewrite map_size_insert_None.
Qed.

Lemma hrun_total os : forall st, wf st -> Z.of_nat (creations os + size (used_handles_ st)) < 2 ^ 32 - 1 ->
  exists ids created st', hrun os st = Some (ids, created, st') /\ wf st' /\
    (Forall (fun e => e.2 <> HANDLE_NONE) created ->
     deleted st' ++ objs (used_handles_ st') ≡ₚ created ++ deleted st ++ objs (used_handles_ st)).
Proof.
  induction os as [|o os IH]; intros st Hwf Hlen.
  - by exists [], [], st.
  - rewrite creations_cons in Hlen. destruct (hstep_total o st Hwf ltac:(lia)) as (id & st1 & Hs & Hwf1 & Hsz).
    destruct (IH st1 Hwf1 ltac:(lia)) as (ids & created & st' & Hrun & Hwf' & Hc).
    pose proof (hstep_conserves o st id st1 Hwf ltac:(lia) Hs) as Hc1.
    simpl. rewrite Hs, Hrun. eexists _, _, _. split_and!; [reflexivity|done|]. intros Hno.
    destruct o as [p t o|?|?|? ?|?|]; simpl in *; try by rewrite (Hc Hno), Hc1.
    destruct (id =? 0); [by rewrite (Hc Hno), Hc1|]. apply Forall_cons in Hno as [Ht Hno].
    rewrite (Hc Hno), Hc1. simpl in Ht. destruct t; try done; simpl; by rewrite <- Permutation_middle.
Qed.

(** ** The cooldown of freed ids *)

Section Cooldown.

Context (base : Z) (used0 : gmap Z Handle).

(** After [length cr] creations the cursor stands at position [k] of the cycle:
    [cr] are the ids created and [sk] the ids skipped since the start. *)
Record cooling (st : HandleManager) (k : nat) (cr sk : list Z) : Prop := {
  cool_next : skip0 (next_handle_ st) = hid base k;
  cool_used : forall h, is_Some (used_handles_ st !! h) -> is_Some (used0 !! h) \/ h ∈ cr;
  cool_pos : forall h, h ∈ cr ++ sk -> exists j, (j < k)%nat /\ h = hid base j;
  cool_sk : forall h, h ∈ sk -> is_Some (used0 !! h);
  cool_NoDup : NoDup sk;
  cool_len : (length cr + length sk)%nat = k
}.

Lemma cooling_bound st k cr sk : cooling st k cr sk -> (k <= length cr + size used0)%nat.
Proof.
  intros H. rewrite <- (cool_len _ _ _ _ H), <- (size_dom (D := gset Z)).
  apply Nat.add_le_mono_l, NoDup_subset_length; [by eapply cool_NoDup|].
  intros h Hh. apply elem_of_elements, elem_of_dom. by eapply cool_sk.
Qed.

Lemma cooling_size st k cr sk : cooling st k cr sk ->
  (size (used_handles_ st) <= length cr + size used0)%nat.
Proof.
  intros Hc. rewrite <- !(size_dom (D := gset Z)), (Nat.add_comm (length cr)).
  unfold size, set_size. simpl. rewrite <- length_app. apply NoDup_subset_length; [apply NoDup_elements|].
  intros h Hh%elem_of_elements%elem_of_dom. apply elem_of_app. rewrite elem_of_elements, elem_of_dom.
  by eapply cool_used.
Qed.

(** Moving the probe over an id in use. *)
Lemma cooling_skip st k cr sk : cooling st k cr sk -> Z.of_nat (length cr + size used0) < 2 ^ 32 - 1 ->
  forall next', is_Some (used_handles_ st !! hid base k) -> skip0 next' = hid base (S k) ->
  cooling (mkHM next' (used_handles_ st) (plugin_handles_ st) (deleted st)) (S k) cr (sk ++ [hid base k]).
Proof.
  intros H Hb next' Hu Hn. pose proof (cooling_bound _ _ _ _ H) as Hk. destruct H as [_ H1 H2 H3 H4 H5].
  assert (hid base k ∉ cr ++ sk) as Hnew.
  { intros (j & Hj & E)%H2. apply hid_inj in E; lia. }
  split; simpl; [done|done| | | |].
  - intros h. rewrite app_assoc, elem_of_app, list_elem_of_singleton. intros [(j & ? & ->)%H2| ->];
      [exists j|exists k]; (split; [lia|done]).
  - intros h. rewrite elem_of_app, list_elem_of_singleton. intros [?| ->]; [by apply H3|].
    destruct (H1 _ Hu) as [|Hin]; [done|]. exfalso. apply Hnew. set_solver.
  - apply list.NoDup_app. split_and!; [done| |apply NoDup_singleton].
    intros x Hx. rewrite list_elem_of_singleton. intros ->. apply Hnew. set_solver.
  - rewrite length_app. simpl. lia.
Qed.

(** Issuing the id under the probe. *)
Lemma cooling_issue st k cr sk p t o : cooling st k cr sk ->
  forall next' ph d, skip0 next' = hid base (S k) ->
  cooling (mkHM next' (<[hid base k := mkHandle t p o false]> (used_handles_ st)) ph d)
          (S k) (hid base k :: cr) sk.
Proof.
  intros [_ H1 H2 H3 H4 H5] next' ph d Hn. split; simpl; [done| | |done|done|lia].
  - intros h [x Hx]. rewrite lookup_insert_Some in Hx. rewrite elem_of_cons.
    destruct Hx as [[<- _]|[_ Hx]]; [by right; left|]. destruct (H1 h); [by eexists|by left|by right; right].
  - intros h [->|Hh]%elem_of_cons; [exists k; split; [lia|done]|].
    destruct (H2 h Hh) as (j & ? & ->). exists j. split; [lia|done].
Qed.

Lemma hid_shift next k j : s_range 32 next -> skip0 next = hid base k -> hid (base_of next) j = hid base (k + j).
Proof.
  intros Hr Hn. induction j as [|j IH]; [by rewrite Nat.add_0_r, <- Hn, skip0_base|].
  by rewrite Nat.add_succ_r, <- !bump_hid, IH.
Qed.

Lemma cooling_skips st : forall m k cr sk, cooling st k cr sk ->
  Z.of_nat (length cr + size used0) < 2 ^ 32 - 1 ->
  (forall j, (j < m)%nat -> is_Some (used_handles_ st !! hid base (k + j))) ->
  exists next' sk', cooling (mkHM next' (used_handles_ st) (plugin_handles_ st) (deleted st)) (k + m) cr sk'.
Proof.
  induction m as [|m IH]; intros k cr sk Hc Hb Hu.
  - exists (next_handle_ st), sk. rewrite Nat.add_0_r. by destruct st.
  - destruct (IH k cr sk Hc Hb) as (next' & sk' & Hc'); [intros j Hj; apply Hu; lia|].
    pose proof (cooling_skip _ _ _ _ Hc' Hb (bump (hid base (k + m))) (Hu m ltac:(lia)) (bump_hid _ _)) as H.
    simpl in H. rewrite Nat.add_succ_r. eauto.
Qed.

(** One operation keeps the cooldown invariant and issues no id of a position
    already passed. *)
Lemma cooling_step o st id st' k cr sk : wf st -> cooling st k cr sk ->
  Z.of_nat (grows o + length cr + size used0) < 2 ^ 32 - 1 -> hstep o st = Some (id, st') ->
  exists k' cr' sk', cooling st' k' cr' sk' /\ length cr' = (grows o + length cr)%nat /\
    (id = 0 \/ id ∈ cr').
Proof.
  intros Hwf Hc Hb Hs. destruct (decide (grows o = 0%nat)) as [Hg|Hg].
  - destruct (hstep_dom o st id st' Hwf Hs Hg) as (-> & Hn & Hd). exists k, cr, sk.
    destruct Hc as [H0 H1 H2 H3 H4 H5]. split_and!; [|lia|by left]. split; try done; [by rewrite Hn|].
    intros h Hh. apply H1, elem_of_dom, Hd, elem_of_dom, Hh.
  - destruct o as [p t o|?|?|? ?|?|]; try done. simpl in *.
    pose proof (cooling_size _ _ _ _ Hc) as Hsz.
    destruct (CreateHandle_spec p t o st (wf_next _ Hwf) ltac:(lia)) as (m & Hfree & Hused & Hcr).
    rewrite Hcr in Hs. pose proof (hid_shift _ _ m (wf_next _ Hwf) (cool_next _ _ _ _ Hc)) as Hm.
    destruct (cooling_skips st m k cr sk Hc ltac:(lia)) as (next' & sk' & Hc').
    { intros j Hj. rewrite <- (hid_shift _ _ _ (wf_next _ Hwf) (cool_next _ _ _ _ Hc)). by apply Hused. }
    rewrite Hm in Hs. simplify_eq/=. exists (S (k + m)), (hid base (k + m) :: cr), sk'.
    split_and!; [|done|right; constructor]. apply (cooling_issue _ _ _ _ p t o Hc'). apply bump_hid.
Qed.

Lemma cooling_run os : forall st k cr sk ids created st', wf st -> cooling st k cr sk ->
  Z.of_nat (creations os + length cr + size used0) < 2 ^ 32 - 1 -> hrun os st = Some (ids, created, st') ->
  forall h, h ∈ ids -> h <> 0 -> exists j, Z.of_nat j < 2 ^ 32 - 2 /\ h = hid base j.
Proof.
  induction os as [|o os IH]; intros st k cr sk ids created st' Hwf Hc Hb Hrun h Hh Hne; simpl in Hrun.
  - simplify_eq. by apply not_elem_of_nil in Hh.
  - rewrite creations_cons in Hb. destruct (hstep o st) as [[id st1]|] eqn:Hs; [|done].
    destruct (cooling_step o st id st1 k cr sk Hwf Hc ltac:(lia) Hs) as (k' & cr' & sk' & Hc' & Hl & Hid).
    destruct (hrun os st1) as [[[ids' created'] st2]|] eqn:Hr; [|done]. simplify_eq.
    apply elem_of_cons in Hh as [->|Hh].
    + destruct Hid as [?|Hid]; [done|]. pose proof (cooling_bound _ _ _ _ Hc') as Hk.
      destruct (cool_pos _ _ _ _ Hc' id) as (j & Hj & ->); [set_solver|]. exists j. split; [lia|done].
    + assert (wf st1) as Hwf1.
      { pose proof (cooling_size _ _ _ _ Hc).
        destruct (hstep_total o st Hwf) as (? & ? & E & ? & _); [lia|]. by simplify_eq. }
      eapply (IH st1 k' cr' sk'); eauto. lia.
Qed.

End Cooldown.

(** ** Properties *)

(** The trace used by the witnesses: three objects, a close, a transfer and a free. *)
Definition trace0 : list hop :=
  [HCreate 10 HANDLE_TCP_SOCKET (Some 1%positive); HCreate 11 HANDLE_JSON_VALUE (Some 1%positive);
   HCreate 12 HANDLE_LINKED_LIST None; HMarkClosed 1; HTransfer 3 (Some 2%positive); HFree 2].

(** C20: Any trace of fewer than 2^32 - 1 creations runs to completion (the scan
    for a free id always ends), keeps the table well formed (ids are nonzero
    int32 values; the per-plugin sets list exactly the owned handles and are
    never empty) and accounts for every object: those deleted together with
    those still in the table are the created ones, each once. *)
Theorem handle_table_sound (os : list hop) :
  Z.of_nat (creations os) < 2 ^ 32 - 1 ->
  exists ids created st, hrun os new_HandleManager = Some (ids, created, st) /\ wf st /\
    (Forall (fun e => e.2 <> HANDLE_NONE) created -> deleted st ++ objs (used_handles_ st) ≡ₚ created).
Proof.
  intros H. destruct (hrun_total os new_HandleManager wf_new) as (ids & created & st & ? & ? & Hc).
  - simpl. rewrite map_size_empty. lia.
  - exists ids, created, st. split_and!; [done..|]. intros Hf. rewrite (Hc Hf). simpl.
    unfold objs. by rewrite map_to_list_empty, app_nil_r.
Qed.

Lemma handle_table_sound_witness :
  exists ids created st, hrun trace0 new_HandleManager = Some (ids, created, st) /\ wf st /\
    (Forall (fun e => e.2 <> HANDLE_NONE) created -> deleted st ++ objs (used_handles_ st) ≡ₚ created).
Proof. apply (handle_table_sound trace0). vm_compute. reflexivity. Defined.

(** An id handed out by [CreateHandle] was free, and after it is handed out no
    later operation hands it out again before the cursor has gone round: not
    while the creations that follow and the handles in use at that moment
    number fewer than 2^32 - 1 together, whatever is freed in between. *)
Theorem id_cooldown (p : positive) (t : HandleType) (o : option positive) (os : list hop)
    (st st1 st' : HandleManager) (h : Z) (ids : list Z) (created : list (positive * HandleType)) :
  wf st -> Z.of_nat (size (used_handles_ st)) < 2 ^ 32 - 1 ->
  CreateHandle p t o st = Some (h, st1) ->
  Z.of_nat (creations os + size (used_handles_ st1)) < 2 ^ 32 - 1 ->
  hrun os st1 = Some (ids, created, st') ->
  used_handles_ st !! h = None /\ h <> 0 /\ h ∉ ids.
Proof.
  intros Hwf Hsz Hc Hb Hrun.
  destruct (wf_Create p t o st Hwf Hsz) as (h0 & st0 & Hc0 & Hwf1).
  destruct (CreateHandle_spec p t o st (wf_next _ Hwf) Hsz) as (k & Hfree & _ & Hcr).
  rewrite Hc in Hc0, Hcr. simplify_eq. pose proof (hid_range (base_of (next_handle_ st)) k) as [Hr Hne].
  split_and!; [done..|]. intros Hin.
  set (h := hid (base_of (next_handle_ st)) k) in *. set (st1 := mkHM (bump h) _ _ _) in *.
  set (base := base_of (bump h)).
  destruct (cooling_run base (used_handles_ st1) os st1 0 [] [] ids created st' Hwf1) with (h := h)
    as (j & Hj & Hh); try done.
  - split; simpl; try done; [apply skip0_base, bump_range|by left|by intros ? ?%not_elem_of_nil|
      by intros ? ?%not_elem_of_nil|constructor].
  - cbn [length]. rewrite Nat.add_0_r. exact Hb.
  - assert (hid base (S j) = hid base 0) as E.
    { rewrite <- bump_hid, <- Hh. apply skip0_base, bump_range. }
    apply hid_inj in E; lia.
Qed.

Lemma id_cooldown_witness : exists st1 st' ids created,
  CreateHandle 10 HANDLE_TCP_SOCKET None new_HandleManager = Some (1, st1) /\
  hrun [HFree 1; HCreate 11 HANDLE_TCP_SOCKET None] st1 = Some (ids, created, st') /\ 1 ∉ ids.
Proof.
  eexists _, _, _, _. split; [vm_compute; reflexivity|]. split; [vm_compute; reflexivity|].
  apply (id_cooldown 10 HANDLE_TCP_SOCKET None [HFree 1; HCreate 11 HANDLE_TCP_SOCKET None] new_HandleManager
           (mkHM 2 {[1 := mkHandle HANDLE_TCP_SOCKET 10 None false]} ∅ [])
           (mkHM 3 {[2 := mkHandle HANDLE_TCP_SOCKET 11 None false]} ∅ [(10%positive, HANDLE_TCP_SOCKET)])
           1 [0; 2] [(11%positive, HANDLE_TCP_SOCKET)]);
    [exact wf_new|vm_compute; reflexivity|vm_compute; reflexivity|vm_compute; reflexivity|vm_compute; reflexivity].
Defined.

(** A typed getter never returns a wrong or a dead object: what it returns for
    a handle was created with exactly that type and has not been deleted. *)
Theorem getters_safe (os : list hop) (t : HandleType) (h : Z) (p : positive)
    (ids : list Z) (created : list (positive * HandleType)) (st : HandleManager) :
  Z.of_nat (creations os) < 2 ^ 32 - 1 ->
  hrun os new_HandleManager = Some (ids, created, st) ->
  Forall (fun e => e.2 <> HANDLE_NONE) created -> NoDup created.*1 -> t <> HANDLE_NONE ->
  get_typed t h st = Some p ->
  (p, t) ∈ created /\ p ∉ (deleted st).*1.
Proof.
  intros Hlen Hrun Hno Hnd Htn Hget.
  destruct (hrun_total os new_HandleManager wf_new) as (ids' & created' & st' & Hrun' & _ & Hc).
  { simpl. rewrite map_size_empty. lia. }
  rewrite Hrun in Hrun'. simplify_eq. specialize (Hc Hno). simpl in Hc.
  unfold objs in Hc at 2. rewrite map_to_list_empty, app_nil_r in Hc.
  unfold get_typed in Hget. destruct (used_handles_ st' !! h) as [x|] eqn:E; [|done].
  case_decide as Ht; [done|]. destruct (closed x) eqn:Ecl; [done|]. injection Hget as <-.
  subst t.
  assert (obj x = Some (pointer x, type x)) as Eo by (unfold obj; by destruct (type x)).
  rewrite (objs_lookup _ _ _ E), Eo in Hc. simpl in Hc. split.
  - rewrite <- Hc. set_solver.
  - rewrite <- Hc, <- Permutation_middle, fmap_cons in Hnd. apply NoDup_cons in Hnd as [Hn _].
    rewrite fmap_app in Hn. set_solver.
Qed.

Lemma getters_safe_witness : exists ids created st,
  hrun trace0 new_HandleManager = Some (ids, created, st) /\
  GetLinkedList 3 st = Some 12%positive /\ GetTcpSocket 1 st = None /\
  (12%positive, HANDLE_LINKED_LIST) ∈ created /\ 12%positive ∉ (deleted st).*1.
Proof.
  destruct (hrun trace0 new_HandleManager) as [[[ids created] st]|] eqn:E; [|vm_compute in E; discriminate].
  exists ids, created, st. split; [reflexivity|].
  assert (GetLinkedList 3 st = Some 12%positive) as Hg by (vm_compute in E; injection E as <- <- <-; reflexivity).
  split; [exact Hg|]. split; [vm_compute in E; injection E as <- <- <-; reflexivity|].
  apply (getters_safe trace0 HANDLE_LINKED_LIST 3 12 ids created st);
    [vm_compute; reflexivity|exact E| | |discriminate|exact Hg];
    vm_compute in E; injection E as <- <- <-.
  - by repeat constructor.
  - apply NoDup_ListNoDup. repeat constructor; simpl; intuition discriminate.
Defined.

(** [TakePluginHandles], which runs when a plugin is unloaded, returns every
    handle the plugin owns exactly once and nothing else, detaches exactly
    these from their owner and leaves every other handle as it was. *)
Theorem take_plugin_handles_exact (ctx : positive) (st : HandleManager) : wf st ->
  let '(r, st') := TakePluginHandles ctx st in
  NoDup r.*1 /\
  (forall h x, (h, x) ∈ r <-> exists y, used_handles_ st !! h = Some y /\ owner y = Some ctx /\ x = set_owner None y) /\
  (forall h x, used_handles_ st' !! h = Some x -> owner x <> Some ctx) /\
  (forall h x, used_handles_ st !! h = Some x -> owner x <> Some ctx -> used_handles_ st' !! h = Some x) /\
  wf st'.
Proof.
  intros Hwf. pose proof (take_spec ctx st Hwf) as H. pose proof (wf_Take ctx st Hwf) as Hwf'.
  destruct (TakePluginHandles ctx st) as [r st']. destruct H as (_ & _ & _ & Eu & Hnd & He).
  split_and!; [done|exact He| | |done].
  - intros h x. rewrite Eu. intros (y & _ & ->)%fmap_Some. by case_decide.
  - intros h x Hx Hc. rewrite Eu, Hx. simpl. by rewrite decide_False.
Qed.

Lemma take_plugin_handles_exact_witness : exists r st',
  TakePluginHandles 1 (mkHM 3 {[1 := mkHandle HANDLE_TCP_SOCKET 10 (Some 1%positive) false]}
                            {[1%positive := {[1]}]} []) = (r, st') /\
  NoDup r.*1 /\ length r = 1%nat.
Proof.
  set (st0 := mkHM _ _ _ _).
  assert (wf st0) as Hwf.
  { split; simpl; [unfold s_range; lia| | |].
    - intros h x [<- <-]%lookup_singleton_Some. unfold s_range. lia.
    - intros c h. unfold owned. setoid_rewrite lookup_singleton_Some.
      destruct (decide (c = 1%positive)) as [->|Hne].
      + rewrite lookup_singleton_eq. simpl. rewrite elem_of_singleton. naive_solver.
      + rewrite lookup_singleton_ne by done. simpl. split; [set_solver|]. intros (x & [_ <-] & [= <-]). done.
    - intros c s [_ <-]%lookup_singleton_Some. set_solver. }
  pose proof (take_plugin_handles_exact 1 st0 Hwf) as H.
  destruct (TakePluginHandles 1 st0) as [r st'] eqn:E. exists r, st'. split; [reflexivity|].
  split; [apply H|]. vm_compute in E. injection E as <- <-. reflexivity.
Defined.

(** The table with [n] handles in use from [lo] on. *)
Definition table_of (lo n : Z) : gmap Z Handle :=
  list_to_map ((fun h => (h, mkHandle HANDLE_NONE 1 None false)) <$> seqZ lo n).

Lemma table_of_lookup lo n h : lo <= h < lo + n -> is_Some (table_of lo n !! h).
Proof.
  intros Hh. destruct (table_of lo n !! h) eqn:E; [by eexists|]. exfalso. unfold table_of in E.
  apply not_elem_of_list_to_map in E. apply E. rewrite <- list_fmap_compose, list_elem_of_fmap.
  exists h. split; [done|]. by apply elem_of_seqZ.
Qed.

(** With every nonzero id in use and the cursor at 1, the scan never ends: the
    probe after -1 is 0, which the wrap-around test compares with 1 before it
    is skipped. *)
Theorem scan_full_diverges (used : gmap Z Handle) :
  (forall h, s_range 32 h -> h <> 0 -> is_Some (used !! h)) ->
  forall fuel, scan fuel used 1 1 = None.
Proof.
  intros Hfull fuel.
  assert (forall fuel i c, skip0 c = hid 1 i -> scan fuel used 1 c = None) as H.
  { clear fuel. induction fuel as [|fuel IH]; intros i c Hc; [done|]. cbn [scan]. rewrite Hc.
    destruct (hid_range 1 i) as [H1 H2]. destruct (Hfull _ H1 H2) as [x ->].
    destruct (Z.eqb_spec (bump (hid 1 i)) 1) as [E|_]; [|by apply (IH (S i)), bump_hid].
    exfalso. unfold bump in E. apply (f_equal (uN 32)) in E.
    rewrite (u_s 32) in E by lia. unfold hid in E. rewrite (u_s 32) in E by lia.
    pose proof (cursor_range 1 i). rewrite (u_id 32 (cursor 1 i)) in E by (unfold u_range; lia).
    unfold uN in E. rewrite Z.mod_mod in E by lia.
    destruct (Z.eq_dec (cursor 1 i) (2 ^ 32 - 1)) as [E'|E'].
    - rewrite E' in E. vm_compute in E. done.
    - rewrite !Z.mod_small in E by lia. lia. }
  by apply (H fuel 0%nat).
Qed.

Lemma scan_full_diverges_witness : scan 1000 (table_of (- 2 ^ 31) (2 ^ 32)) 1 1 = None.
Proof.
  apply (scan_full_diverges (table_of (- 2 ^ 31) (2 ^ 32))). intros h [H1 H2] _.
  exact (table_of_lookup (- 2 ^ 31) (2 ^ 32) h (conj H1 H2)).
Defined.
