(* ===== verification/NodePool.v ===== *)
(** * [src/data/data_node_pool.h]: the block pool behind [DataNode]

    [FixedPool] hands out fixed-size blocks.  Each thread keeps a local free
    list; a central free list, guarded by a mutex, is refilled by chunks from
    [operator new].  A block is named by the number of blocks carved before it,
    so block [k] of the chunk allocated when [total_allocated_] was [t] is
    [t + k]; the intrusive [next] links of free blocks are lists of blocks.  A
    [None] is a dereference of an empty free list.

    [NodeAllocator] is the interface the node heap relies on; the pool, seen
    from any thread, is an instance of it. *)

From stdpp Require Import base numbers list gmap.
From Stdlib Require Import ZArith Lia.
From S2P Require Import Prelude.

Abbreviation loc := nat (only parsing).

(** ** The interface *)

(** What a heap of nodes needs of its allocator: [alloc] returns a block that
    is not live and makes it live, [free] takes a live block back. *)
Class NodeAllocator (P : Type) := {
  a_init : P;
  a_alloc : P -> option (loc * P);
  a_free : loc -> P -> option P;
  a_inv : P -> gset loc -> Prop;
  a_init_inv : a_inv a_init ∅;
  a_alloc_inv p live : a_inv p live ->
    exists l p', a_alloc p = Some (l, p') /\ l ∉ live /\ a_inv p' ({[l]} ∪ live);
  a_free_inv p live l : a_inv p live -> l ∈ live ->
    exists p', a_free l p = Some p' /\ a_inv p' (live ∖ {[l]})
}.

(** ** State *)

Record ThreadCache := mkTC { free_list : list loc; count : Z }.

Record FixedPool := mkPool {
  free_list_ : list loc;
  chunks_ : list Z;                         (* size of each chunk, latest last *)
  next_chunk_count_ : Z;
  total_allocated_ : nat;
  free_count_ : Z;
  caches_ : gmap nat ThreadCache            (* thread -> its registered cache *)
}.

Definition kBatchSize : nat := 128.
Definition kMaxLocal : Z := 256.
Definition kReturnCount : nat := 128.

Definition new_FixedPool : FixedPool := mkPool [] [] 256 0 0 ∅.

Definition set_cache (tid : nat) (c : ThreadCache) (p : FixedPool) : FixedPool :=
  mkPool (free_list_ p) (chunks_ p) (next_chunk_count_ p) (total_allocated_ p) (free_count_ p)
         (<[tid := c]> (caches_ p)).
Definition set_central (l : list loc) (n : Z) (p : FixedPool) : FixedPool :=
  mkPool l (chunks_ p) (next_chunk_count_ p) (total_allocated_ p) n (caches_ p).

(** ** Operations *)

Definition GetCache (tid : nat) (p : FixedPool) : ThreadCache * FixedPool :=
  match caches_ p !! tid with
  | Some c => (c, p)
  | None => let c := mkTC [] 0 in (c, set_cache tid c p)
  end.

(** Pushes blocks [base, base + count) one after the other. *)
Fixpoint grow_loop (base count : nat) (l : list loc) : list loc :=
  match count with O => l | S n => grow_loop (S base) n (base :: l) end.

Definition Grow (p : FixedPool) : FixedPool :=
  let count := next_chunk_count_ p in
  mkPool (grow_loop (total_allocated_ p) (Z.to_nat count) (free_list_ p)) (chunks_ p ++ [count])
         (Z.min (next_chunk_count_ p * 2) 65536) (total_allocated_ p + Z.to_nat count)
         (free_count_ p + count) (caches_ p).

(** The transfer loop of [Alloc]: at most [n] blocks go to the local list. *)
Fixpoint transfer (n : nat) (central : list loc) (free_count : Z) (c : ThreadCache)
    : list loc * Z * ThreadCache :=
  match n, central with
  | S n, block :: central =>
      transfer n central (free_count - 1) (mkTC (block :: free_list c) (count c + 1))
  | _, _ => (central, free_count, c)
  end.

(** Popping the local list; an empty one is a null dereference. *)
Definition pop_local (tid : nat) (c : ThreadCache) (p : FixedPool) : option (loc * FixedPool) :=
  match free_list c with
  | [] => None
  | b :: l => Some (b, set_cache tid (mkTC l (count c - 1)) p)
  end.

Definition Alloc (tid : nat) (p : FixedPool) : option (loc * FixedPool) :=
  let '(cache, p) := GetCache tid p in
  match free_list cache with
  | _ :: _ => pop_local tid cache p
  | [] =>
      let p := match free_list_ p with [] => Grow p | _ :: _ => p end in
      let '(central, n, cache) := transfer kBatchSize (free_list_ p) (free_count_ p) cache in
      pop_local tid cache (set_central central n p)
  end.

(** The return loop of [Free]. *)
Fixpoint give_back (n : nat) (c : ThreadCache) (central : list loc) (free_count : Z)
    : option (ThreadCache * list loc * Z) :=
  match n with
  | O => Some (c, central, free_count)
  | S n => match free_list c with
           | [] => None
           | b :: l => give_back n (mkTC l (count c - 1)) (b :: central) (free_count + 1)
           end
  end.

Definition Free (tid : nat) (ptr : loc) (p : FixedPool) : option FixedPool :=
  let '(cache, p) := GetCache tid p in
  let cache := mkTC (ptr :: free_list cache) (count cache + 1) in
  if count cache >? kMaxLocal then
    let? (cache, central, n) := give_back kReturnCount cache (free_list_ p) (free_count_ p) in
    Some (set_cache tid cache (set_central central n p))
  else Some (set_cache tid cache p).

(** [total], [free_blocks]; the third output is the compile-time block size. *)
Definition Stats (p : FixedPool) : nat * Z :=
  (total_allocated_ p, map_fold (fun _ c acc => acc + count c) (free_count_ p) (caches_ p)).

(** ** The invariant *)

Definition local (p : FixedPool) : list loc := mjoin (free_list <$> (map_to_list (caches_ p)).*2).

Record pool_inv (p : FixedPool) (live : gset loc) : Prop := {
  inv_blocks : elements live ++ free_list_ p ++ local p ≡ₚ seq 0 (total_allocated_ p);
  inv_free_count : free_count_ p = Z.of_nat (length (free_list_ p));
  inv_count : map_Forall (fun _ c => count c = Z.of_nat (length (free_list c)) /\ count c <= kMaxLocal) (caches_ p);
  inv_next : 256 <= next_chunk_count_ p <= 65536
}.

(** ** Lemmas on the free lists *)

Definition localm (m : gmap nat ThreadCache) : list loc := mjoin (free_list <$> (map_to_list m).*2).
Definition cache_of (m : gmap nat ThreadCache) (tid : nat) : ThreadCache := default (mkTC [] 0) (m !! tid).

Lemma localm_fresh m tid c : m !! tid = None -> localm (<[tid := c]> m) ≡ₚ free_list c ++ localm m.
Proof. intros H. unfold localm. by rewrite (map_to_list_insert m tid c H), !fmap_cons. Qed.

Lemma localm_set m tid c : localm (<[tid := c]> m) ≡ₚ free_list c ++ localm (delete tid m).
Proof. rewrite <- insert_delete_eq. apply localm_fresh, lookup_delete_eq. Qed.

Lemma localm_split m tid : localm m ≡ₚ free_list (cache_of m tid) ++ localm (delete tid m).
Proof.
  unfold cache_of. destruct (m !! tid) as [c|] eqn:E; simpl.
  - rewrite <- (insert_id m tid c E) at 1. apply localm_set.
  - by rewrite delete_id.
Qed.

Lemma GetCache_spec tid p live : pool_inv p live ->
  (GetCache tid p).1 = cache_of (caches_ p) tid /\ pool_inv (GetCache tid p).2 live /\
  caches_ (GetCache tid p).2 !! tid = Some (cache_of (caches_ p) tid) /\
  delete tid (caches_ (GetCache tid p).2) = delete tid (caches_ p).
Proof.
  intros [H1 H2 H3 H4]. unfold GetCache, cache_of. destruct (caches_ p !! tid) as [c|] eqn:E; simpl.
  - split_and!; [done|by split|done|done].
  - split_and!; [done| |apply lookup_insert_eq|by rewrite delete_insert_eq]. split; simpl; [|done| |done].
    + unfold local. simpl. fold (localm (<[tid := mkTC [] 0]> (caches_ p))).
      rewrite localm_fresh by done. done.
    + apply map_Forall_insert_2; [|done]. done.
Qed.

Lemma grow_loop_spec n : forall base l, grow_loop base n l ≡ₚ seq base n ++ l.
Proof.
  induction n as [|n IH]; intros base l; [done|]. simpl. rewrite IH. by rewrite <- Permutation_middle.
Qed.

Lemma Grow_inv p live : pool_inv p live ->
  pool_inv (Grow p) live /\ caches_ (Grow p) = caches_ p /\ free_list_ (Grow p) <> [].
Proof.
  intros [H1 H2 H3 H4]. pose proof (grow_loop_spec (Z.to_nat (next_chunk_count_ p)) (total_allocated_ p) (free_list_ p)) as Hg.
  split_and!; [|done|].
  - split; simpl.
    + rewrite Hg, seq_app, <- H1, <- !app_assoc. simpl.
      rewrite (Permutation_app_comm (seq (total_allocated_ p) _)). by rewrite !app_assoc.
    + rewrite H2. rewrite Hg, length_app, length_seq. lia.
    + done.
    + lia.
  - simpl. intros E. rewrite E in Hg. apply Permutation_nil_l in Hg. symmetry in Hg.
    apply app_nil in Hg as [Hg _]. destruct (Z.to_nat (next_chunk_count_ p)) eqn:E'; [lia|done].
Qed.

Lemma transfer_spec n : forall central fc c,
  let '(central', fc', c') := transfer n central fc c in
  free_list c' ++ central' ≡ₚ free_list c ++ central /\
  fc' - Z.of_nat (length central') = fc - Z.of_nat (length central) /\
  count c' - Z.of_nat (length (free_list c')) = count c - Z.of_nat (length (free_list c)) /\
  count c' = count c + Z.of_nat (Nat.min n (length central)).
Proof.
  induction n as [|n IH]; intros central fc c; simpl; [split_and!; auto; lia|].
  destruct central as [|b central]; [split_and!; auto; simpl; lia|].
  specialize (IH central (fc - 1) (mkTC (b :: free_list c) (count c + 1))).
  destruct (transfer n central _ _) as [[central' fc'] c']. simpl in IH.
  destruct IH as (H1 & H2 & H3 & H4). split_and!; [|simpl; lia..].
  by rewrite H1, <- Permutation_middle.
Qed.

Lemma give_back_spec n : forall c central fc, (n <= length (free_list c))%nat ->
  exists c' central' fc', give_back n c central fc = Some (c', central', fc') /\
  free_list c' ++ central' ≡ₚ free_list c ++ central /\
  fc' - Z.of_nat (length central') = fc - Z.of_nat (length central) /\
  count c' - Z.of_nat (length (free_list c')) = count c - Z.of_nat (length (free_list c)) /\
  count c' = count c - Z.of_nat n.
Proof.
  induction n as [|n IH]; intros c central fc Hn; simpl.
  - eexists _, _, _. split_and!; auto; lia.
  - destruct (free_list c) as [|b l] eqn:E; [simpl in Hn; lia|]. simpl in Hn.
    destruct (IH (mkTC l (count c - 1)) (b :: central) (fc + 1)) as (c' & central' & fc' & H0 & H1 & H2 & H3 & H4);
      [simpl; lia|]. simpl in *.
    exists c', central', fc'. split_and!; [done| |lia..]. by rewrite H1, <- Permutation_middle.
Qed.

(** Replacing the central list and one cache. *)
Lemma pool_inv_set p live live' tid c central n :
  pool_inv p live ->
  elements live' ++ central ++ free_list c ≡ₚ
    elements live ++ free_list_ p ++ free_list (cache_of (caches_ p) tid) ->
  n = Z.of_nat (length central) -> count c = Z.of_nat (length (free_list c)) -> count c <= kMaxLocal ->
  pool_inv (set_cache tid c (set_central central n p)) live'.
Proof.
  intros [H1 H2 H3 H4] Hp Hn Hc Hm. split; simpl; [|done|by apply map_Forall_insert_2|done].
  rewrite <- H1. unfold local. simpl. fold (localm (<[tid := c]> (caches_ p))). fold (localm (caches_ p)).
  rewrite localm_set, (localm_split (caches_ p) tid), !app_assoc. apply Permutation_app_tail.
  by rewrite <- !app_assoc.
Qed.

Lemma cache_of_count p live tid : pool_inv p live ->
  count (cache_of (caches_ p) tid) = Z.of_nat (length (free_list (cache_of (caches_ p) tid))) /\
  count (cache_of (caches_ p) tid) <= kMaxLocal.
Proof.
  intros [_ _ H _]. unfold cache_of. destruct (caches_ p !! tid) as [c|] eqn:E; simpl; [by apply H in E|done].
Qed.

Lemma elements_add (l : loc) (live : gset loc) : l ∉ live -> elements ({[l]} ∪ live) ≡ₚ l :: elements live.
Proof. intros H. by rewrite elements_union_singleton. Qed.

(** A block of a free list is not live. *)
Lemma free_not_live p live b : pool_inv p live -> b ∈ free_list_ p ++ local p -> b ∉ live.
Proof.
  intros H Hb Hl. pose proof (inv_blocks _ _ H) as Hp.
  pose proof (NoDup_seq 0 (total_allocated_ p)) as Hnd. rewrite <- Hp in Hnd.
  apply list.NoDup_app in Hnd as (_ & Hd & _). apply (Hd b); [by apply elem_of_elements|done].
Qed.

Lemma set_central_id p : set_central (free_list_ p) (free_count_ p) p = p.
Proof. by destruct p. Qed.

(** Popping the head of the local list makes it live. *)
Lemma pop_local_inv p live tid c b l : pool_inv p live -> caches_ p !! tid = Some c -> free_list c = b :: l ->
  exists p', pop_local tid c p = Some (b, p') /\ b ∉ live /\ pool_inv p' ({[b]} ∪ live).
Proof.
  intros Hinv Hc Hl. pose proof (cache_of_count p live tid Hinv) as Hcnt.
  assert (cache_of (caches_ p) tid = c) as Hco by (unfold cache_of; by rewrite Hc).
  assert (b ∉ live) as Hb.
  { eapply free_not_live; [done|]. unfold local. fold (localm (caches_ p)).
    rewrite (localm_split _ tid), Hco, Hl. set_solver. }
  unfold pop_local. rewrite Hl. eexists. split_and!; [done|done|].
  rewrite <- (set_central_id p). rewrite Hco in Hcnt. rewrite Hl in Hcnt. simpl in Hcnt.
  apply (pool_inv_set p live); [done| | |simpl; lia|simpl; lia].
  - rewrite Hco, Hl, elements_add by done. simpl. rewrite <- Permutation_middle, app_assoc.
    by rewrite <- Permutation_middle, app_assoc.
  - apply Hinv.
Qed.

Lemma Alloc_inv tid p live : pool_inv p live ->
  exists l p', Alloc tid p = Some (l, p') /\ l ∉ live /\ pool_inv p' ({[l]} ∪ live).
Proof.
  intros H0. unfold Alloc. remember kBatchSize as K eqn:HK. destruct (GetCache_spec tid p live H0) as (Hc & Hinv & Hlk & _).
  destruct (GetCache tid p) as [c p1]. simpl in *. subst c. set (c := cache_of (caches_ p) tid) in *.
  destruct (free_list c) as [|b l] eqn:E.
  - set (p2 := match free_list_ p1 with [] => Grow p1 | _ => p1 end).
    assert (pool_inv p2 live /\ caches_ p2 = caches_ p1 /\ free_list_ p2 <> []) as (Hinv2 & Hc2 & Hne).
    { subst p2. destruct (free_list_ p1) eqn:E1; [by apply Grow_inv|]. split_and!; [done..|]. by rewrite E1. }
    pose proof (transfer_spec K (free_list_ p2) (free_count_ p2) c) as Ht.
    destruct (transfer _ _ _ _) as [[central n] c']. destruct Ht as (T1 & T2 & T3 & T4).
    rewrite E in *. simpl in *.
    pose proof (cache_of_count p1 live tid Hinv) as [Hcnt _]. unfold cache_of in Hcnt. rewrite Hlk in Hcnt.
    simpl in Hcnt. rewrite E in Hcnt. simpl in Hcnt. pose proof (inv_free_count _ _ Hinv2) as Hfc.
    destruct (free_list c') as [|b l] eqn:E'.
    { simpl in *. destruct (free_list_ p2); [done|]. simpl in *. unfold kBatchSize in HK. lia. }
    set (p3 := set_central central n p2).
    assert (pool_inv (set_cache tid c' p3) live) as Hinv3.
    { apply (pool_inv_set p2 live); [done| |lia| |unfold kMaxLocal, kBatchSize in *; lia].
      - rewrite E'. unfold cache_of. rewrite Hc2, Hlk. simpl. rewrite E, app_nil_r.
        rewrite (Permutation_app_comm central). by rewrite T1.
      - rewrite E'. simpl in *. lia. }
    destruct (pop_local_inv _ live tid c' b l Hinv3) as (p' & Hp & Hb & Hinv'); [apply lookup_insert_eq|done|].
    exists b, p'. split_and!; [|done|done]. rewrite <- Hp. unfold pop_local. rewrite E'. unfold set_cache. simpl.
    by rewrite insert_insert_eq.
  - destruct (pop_local_inv p1 live tid c b l Hinv Hlk E) as (p' & Hp & Hb & Hinv'). exists b, p'. by split_and!.
Qed.

Lemma Free_inv tid l p live : pool_inv p live -> l ∈ live ->
  exists p', Free tid l p = Some p' /\ pool_inv p' (live ∖ {[l]}).
Proof.
  intros H0 Hl. unfold Free. remember kReturnCount as K eqn:HK. destruct (GetCache_spec tid p live H0) as (Hc & Hinv & Hlk & _).
  destruct (GetCache tid p) as [c p1]. simpl in *. subst c. set (c := cache_of (caches_ p) tid) in *.
  assert (cache_of (caches_ p1) tid = c) as Hco by (unfold cache_of; by rewrite Hlk).
  pose proof (cache_of_count p1 live tid Hinv) as [Hcnt Hmax]. rewrite Hco in *.
  pose proof (inv_free_count _ _ Hinv) as Hfc.
  assert (elements live ≡ₚ l :: elements (live ∖ {[l]})) as Hel.
  { rewrite <- elements_add by set_solver. f_equiv. intros x.
    destruct (decide (x = l)); set_solver. }
  set (c1 := mkTC (l :: free_list c) (count c + 1)). simpl.
  destruct (Z.gtb_spec (count c + 1) kMaxLocal) as [Hgt|Hle].
  - destruct (give_back_spec K c1 (free_list_ p1) (free_count_ p1)) as
      (c' & central & n & -> & G1 & G2 & G3 & G4); [simpl; unfold kReturnCount, kMaxLocal in *; lia|].
    eexists. split; [done|]. simpl in *.
    apply (pool_inv_set p1 live); [done| |lia|lia|unfold kReturnCount, kMaxLocal in *; lia].
    rewrite Hco, Hel, (Permutation_app_comm central), G1. simpl.
    rewrite <- !Permutation_middle. by rewrite (Permutation_app_comm (free_list c)).
  - eexists. split; [done|]. rewrite <- (set_central_id p1).
    apply (pool_inv_set p1 live); [done| |done|simpl; lia|simpl; lia].
    rewrite Hco, Hel. simpl. by rewrite app_assoc, <- Permutation_middle, <- app_assoc.
Qed.

Lemma new_pool_inv : pool_inv new_FixedPool ∅.
Proof. split; simpl; [done|done|apply map_Forall_empty|lia]. Qed.

(** The pool, as the thread [tid] uses it, is an allocator. *)
#[export] Instance pool_allocator (tid : nat) : NodeAllocator FixedPool := {
  a_init := new_FixedPool;
  a_alloc := Alloc tid;
  a_free := Free tid;
  a_inv := pool_inv;
  a_init_inv := new_pool_inv;
  a_alloc_inv := Alloc_inv tid;
  a_free_inv p live l := Free_inv tid l p live
}.

(** ** Interleaved threads

    Each [Alloc] and [Free] touches shared state only under [lock_], so the
    threads' operations are interleaved as a sequence. *)

Inductive pop := PAlloc (tid : nat) | PFree (tid : nat) (l : loc).

(** [pool_run live p os live' p']: from pool [p] with [live] the blocks the
    clients hold, [os] leads to [p'] and [live']; clients free only what they
    hold. *)
Inductive pool_run : gset loc -> FixedPool -> list pop -> gset loc -> FixedPool -> Prop :=
  | run_done live p : pool_run live p [] live p
  | run_alloc live p tid l p1 os live' p' :
      Alloc tid p = Some (l, p1) -> pool_run ({[l]} ∪ live) p1 os live' p' ->
      pool_run live p (PAlloc tid :: os) live' p'
  | run_free live p tid l p1 os live' p' :
      l ∈ live -> Free tid l p = Some p1 -> pool_run (live ∖ {[l]}) p1 os live' p' ->
      pool_run live p (PFree tid l :: os) live' p'.

Lemma pool_run_inv live p os live' p' : pool_run live p os live' p' -> pool_inv p live -> pool_inv p' live'.
Proof.
  induction 1 as [|live p tid l p1 os live' p' Ha _ IH|live p tid l p1 os live' p' Hl Hf _ IH]; intros Hinv; [done|..].
  - destruct (Alloc_inv tid p live Hinv) as (l0 & p0 & Ha' & _ & Hinv'). simplify_eq. auto.
  - destruct (Free_inv tid l p live Hinv Hl) as (p0 & Hf' & Hinv'). simplify_eq. auto.
Qed.

Lemma Stats_spec p live : pool_inv p live ->
  Stats p = (total_allocated_ p, Z.of_nat (total_allocated_ p) - Z.of_nat (size live)).
Proof.
  intros [H1 H2 H3 _]. unfold Stats. f_equal.
  assert (forall m : gmap nat ThreadCache,
    map_Forall (fun _ c => count c = Z.of_nat (length (free_list c)) /\ count c <= kMaxLocal) m ->
    map_fold (fun _ c acc => acc + count c) (free_count_ p) m =
    free_count_ p + Z.of_nat (length (localm m))) as Hsum.
  { intros m. induction m as [|tid c m Hm IH] using map_ind.
    - intros _. rewrite map_fold_empty. unfold localm. rewrite map_to_list_empty. simpl. lia.
    - intros [Hc HF]%map_Forall_insert; [|done]. rewrite map_fold_insert_L by (done || lia).
      rewrite IH by done. rewrite (localm_fresh m tid c Hm), length_app. lia. }
  rewrite (Hsum _ H3), H2. apply Permutation_length in H1.
  rewrite !length_app, length_seq in H1. unfold size, set_size. simpl.
  change (local p) with (localm (caches_ p)) in H1. lia.
Qed.

(** C21: However the threads interleave, an [Alloc] always returns a block, one
    that no client holds; a [Free] of a held block succeeds; no block is lost
    or duplicated (held, central and cached blocks are exactly the blocks ever
    carved) and every thread cache stays within [kMaxLocal]. *)
Theorem pool_sound (os : list pop) (live : gset loc) (p : FixedPool) :
  pool_run ∅ new_FixedPool os live p ->
  pool_inv p live /\
  (forall tid, exists l p', Alloc tid p = Some (l, p') /\ l ∉ live) /\
  (forall tid l, l ∈ live -> exists p', Free tid l p = Some p').
Proof.
  intros H. pose proof (pool_run_inv _ _ _ _ _ H new_pool_inv) as Hinv. split_and!; [done|..].
  - intros tid. destruct (Alloc_inv tid p live Hinv) as (l & p' & ? & ? & _). eauto.
  - intros tid l Hl. destruct (Free_inv tid l p live Hinv Hl) as (p' & ? & _). eauto.
Qed.

Lemma pool_sound_witness : exists l live p,
  pool_run ∅ new_FixedPool [PAlloc 0; PAlloc 1; PFree 1 l] live p /\ pool_inv p live.
Proof.
  destruct (Alloc_inv 0 new_FixedPool ∅ new_pool_inv) as (l & p1 & E1 & _ & H1).
  destruct (Alloc_inv 1 p1 _ H1) as (l2 & p2 & E2 & Hl2 & H2).
  assert (l ∈ ({[l2]} ∪ ({[l]} ∪ ∅) : gset loc)) as Hl by (clear; set_solver).
  destruct (Free_inv 1 l p2 _ H2 Hl) as (p3 & E3 & H3).
  assert (pool_run ∅ new_FixedPool [PAlloc 0; PAlloc 1; PFree 1 l] (({[l2]} ∪ ({[l]} ∪ ∅)) ∖ {[l]}) p3) as Hr.
  { eapply run_alloc; [exact E1|]. eapply run_alloc; [exact E2|].
    eapply run_free; [exact Hl|exact E3|apply run_done]. }
  eexists l, _, p3. split; [exact Hr|]. exact (proj1 (pool_sound _ _ _ Hr)).
Defined.

(** [Stats] reports the blocks carved and, as free blocks, exactly those no
    client holds. *)
Theorem pool_stats (os : list pop) (live : gset loc) (p : FixedPool) :
  pool_run ∅ new_FixedPool os live p ->
  Stats p = (total_allocated_ p, Z.of_nat (total_allocated_ p) - Z.of_nat (size live)).
Proof. intros H. apply Stats_spec. exact (pool_run_inv _ _ _ _ _ H new_pool_inv). Qed.

Lemma pool_stats_witness : exists l p, Alloc 0 new_FixedPool = Some (l, p) /\
  Stats p = (256%nat, 255).
Proof.
  destruct (Alloc_inv 0 new_FixedPool ∅ new_pool_inv) as (l & p & E & _ & _).
  exists l, p. split; [exact E|].
  assert (pool_run ∅ new_FixedPool [PAlloc 0] ({[l]} ∪ ∅) p) as Hr.
  { eapply run_alloc; [exact E|apply run_done]. }
  rewrite (pool_stats _ _ _ Hr), union_empty_r_L, size_singleton.
  assert ((fun r => total_allocated_ r.2) <$> Alloc 0 new_FixedPool = Some 256%nat) as Ht by (vm_compute; reflexivity).
  rewrite E in Ht. injection Ht as Ht. rewrite Ht. reflexivity.
Defined.
