(* ===== verification/DataMap.v ===== *)
(** * [src/data/data_map.h]: the hash map of the data model

    [DataMap<K, V>] is [tsl::robin_map] with an xxHash hash.  Both are third
    party; what [DataNode] relies on is this interface: a finite map with an
    iteration order that is not specified. *)

From stdpp Require Import base numbers list gmap.
From S2P Require Import Prelude.

Class DataMap (K : Type) `{Countable K} := {
  dm : Type -> Type;
  dm_map {A} : dm A -> gmap K A;                 (* contents: [find] *)
  dm_list {A} : dm A -> list (K * A);            (* iteration order *)
  dm_new {A} : dm A;
  dm_set {A} : K -> A -> dm A -> dm A;           (* [try_emplace], [operator[]], [it.value() =] *)
  dm_erase {A} : K -> dm A -> dm A;
  dm_clear {A} : dm A -> dm A;
  dm_list_map {A} (m : dm A) : dm_list m ≡ₚ map_to_list (dm_map m);
  dm_new_map {A} : dm_map (dm_new (A := A)) = ∅;
  dm_set_map {A} k (a : A) m : dm_map (dm_set k a m) = <[k := a]> (dm_map m);
  dm_erase_map {A} k (m : dm A) : dm_map (dm_erase k m) = delete k (dm_map m);
  dm_clear_map {A} (m : dm A) : dm_map (dm_clear m) = ∅
}.

#[global] Arguments dm K {_ _ _} A.

(** The interface can be met: a [gmap] with its own order. *)
#[global] Program Instance gmap_DataMap (K : Type) `{Countable K} : DataMap K := {
  dm A := gmap K A;
  dm_map A m := m;
  dm_list A m := map_to_list m;
  dm_new A := ∅;
  dm_set A k a m := <[k := a]> m;
  dm_erase A k m := delete k m;
  dm_clear A m := ∅
}.
Solve All Obligations with done.

Section DataMapFacts.

Context {K : Type} `{DataMap K}.

Lemma dm_list_NoDup {A} (m : dm K A) : NoDup (dm_list m).*1.
Proof. rewrite dm_list_map. apply NoDup_fst_map_to_list. Qed.

Lemma elem_of_dm_list {A} (m : dm K A) k a : (k, a) ∈ dm_list m <-> dm_map m !! k = Some a.
Proof. rewrite dm_list_map. apply elem_of_map_to_list. Qed.

Lemma dm_list_set_fresh {A} k (a : A) m : dm_map m !! k = None -> dm_list (dm_set k a m) ≡ₚ (k, a) :: dm_list m.
Proof. intros E. rewrite !dm_list_map, dm_set_map. by apply map_to_list_insert. Qed.

Lemma dm_list_split {A} k (a : A) m : dm_map m !! k = Some a -> dm_list m ≡ₚ (k, a) :: dm_list (dm_erase k m).
Proof.
  intros E. rewrite !dm_list_map, dm_erase_map. symmetry. by apply map_to_list_delete.
Qed.

Lemma dm_list_set_over {A} k (a : A) m : dm_list (dm_set k a m) ≡ₚ (k, a) :: dm_list (dm_erase k m).
Proof.
  rewrite !dm_list_map, dm_set_map, dm_erase_map, <- insert_delete_eq.
  apply map_to_list_insert, lookup_delete_eq.
Qed.

Lemma dm_list_nil {A} (m : dm K A) : dm_map m = ∅ -> dm_list m = [].
Proof.
  intros E. pose proof (dm_list_map m) as Hp. rewrite E, map_to_list_empty in Hp. by apply Permutation_nil_r.
Qed.

End DataMapFacts.
