(* ===== verification/DataValue.v ===== *)
(** * The values of the data model

    [dval] is the tree a [DataNode] graph stands for, with the constructors of
    [DataType] ([src/data/data_node.h]).  A double is its 64-bit pattern, a
    string its bytes, a map the list of its entries in iteration order.
    Iteration order is not part of the value: [v ≈ w] says that [v] and [w] are
    the same up to the order of map entries. *)

From stdpp Require Import base numbers list gmap.
From Stdlib Require Import ZArith Lia.
From S2P Require Import Prelude.

(** ** Values *)

Inductive dval :=
  | VNull
  | VBool (b : bool)
  | VInt (z : Z)                        (* int64_t *)
  | VFloat (bits : Z)                   (* double, as its 64-bit pattern *)
  | VString (s : bytes)
  | VArray (vs : list dval)
  | VObject (kvs : list (bytes * dval))
  | VIntMap (kvs : list (Z * dval))
  | VBinary (b : bytes).

(** Induction with the hypothesis for every element and entry. *)
Section Induction.

Context (P : dval -> Prop).
Context (HNull : P VNull) (HBool : forall b, P (VBool b)) (HInt : forall z, P (VInt z))
  (HFloat : forall z, P (VFloat z)) (HString : forall s, P (VString s))
  (HArray : forall vs, Forall P vs -> P (VArray vs))
  (HObject : forall kvs, Forall (fun e => P e.2) kvs -> P (VObject kvs))
  (HIntMap : forall kvs, Forall (fun e => P e.2) kvs -> P (VIntMap kvs))
  (HBinary : forall b, P (VBinary b)).

Fixpoint dval_ind' (v : dval) : P v :=
  match v with
  | VNull => HNull | VBool b => HBool b | VInt z => HInt z | VFloat z => HFloat z
  | VString s => HString s | VBinary b => HBinary b
  | VArray vs => HArray vs ((fix go vs := match vs as vs return Forall P vs with
      | [] => Forall_nil_2 _ | v :: vs => Forall_cons_2 _ _ _ (dval_ind' v) (go vs) end) vs)
  | VObject kvs => HObject kvs ((fix go kvs := match kvs as kvs return Forall (fun e => P e.2) kvs with
      | [] => Forall_nil_2 _ | e :: kvs => Forall_cons_2 _ _ _ (dval_ind' e.2) (go kvs) end) kvs)
  | VIntMap kvs => HIntMap kvs ((fix go kvs := match kvs as kvs return Forall (fun e => P e.2) kvs with
      | [] => Forall_nil_2 _ | e :: kvs => Forall_cons_2 _ _ _ (dval_ind' e.2) (go kvs) end) kvs)
  end.

End Induction.

(** Applying a function to the value of every entry. *)
Definition on_snd {K A B} (f : A -> B) (e : K * A) : K * B := (e.1, f e.2).

(** Nesting depth and number of nodes. *)
Fixpoint depth (v : dval) : nat :=
  match v with
  | VArray vs => S (foldr (fun v n => Nat.max (depth v) n) 0%nat vs)
  | VObject kvs => S (foldr (fun e n => Nat.max (depth e.2) n) 0%nat kvs)
  | VIntMap kvs => S (foldr (fun e n => Nat.max (depth e.2) n) 0%nat kvs)
  | _ => 1%nat
  end.

Fixpoint node_count (v : dval) : Z :=
  match v with
  | VArray vs => 1 + foldr (fun v n => node_count v + n) 0 vs
  | VObject kvs => 1 + foldr (fun e n => node_count e.2 + n) 0 kvs
  | VIntMap kvs => 1 + foldr (fun e n => node_count e.2 + n) 0 kvs
  | _ => 1
  end.

(** The invariant of the C++ maps: keys are distinct. *)
Fixpoint vwf (v : dval) : Prop :=
  match v with
  | VArray vs => foldr (fun v P => vwf v /\ P) True vs
  | VObject kvs => NoDup kvs.*1 /\ foldr (fun e P => vwf e.2 /\ P) True kvs
  | VIntMap kvs => NoDup kvs.*1 /\ foldr (fun e P => vwf e.2 /\ P) True kvs
  | _ => True
  end.

(** ** Equality up to the order of map entries *)

Definition canon {K} `{Countable K} {A} (l : list (K * A)) : list (K * A) :=
  map_to_list (list_to_map l : gmap K A).

(** The canonical form of a value lists the entries of its maps in a fixed order. *)
Fixpoint norm (v : dval) : dval :=
  match v with
  | VArray vs => VArray (norm <$> vs)
  | VObject kvs => VObject (canon (on_snd norm <$> kvs))
  | VIntMap kvs => VIntMap (canon (on_snd norm <$> kvs))
  | v => v
  end.

#[export] Instance dval_equiv : Equiv dval := fun v w => norm v = norm w.

#[export] Instance dval_equivalence : Equivalence (≡@{dval}).
Proof.
  split; [done|by intros v w H|]. intros u v w H1 H2. unfold equiv, dval_equiv in *. congruence.
Qed.

(** ** [DataNode::Equals] on values *)

(** IEEE equality of two doubles. *)
Definition is_nan (bits : Z) : bool :=
  (Z.land (Z.shiftr bits 52) 2047 =? 2047) && negb (Z.land bits (2 ^ 52 - 1) =? 0).
Definition is_zero (bits : Z) : bool := Z.land bits (2 ^ 63 - 1) =? 0.
Definition float_eq (x y : Z) : bool :=
  negb (is_nan x) && negb (is_nan y) && ((x =? y) || (is_zero x && is_zero y)).

Definition bytes_eqb (s t : bytes) : bool := bool_decide (s = t).

(** The entry with a given key. *)
Fixpoint find_key {K} `{EqDecision K} {A} (k : K) (l : list (K * A)) : option A :=
  match l with [] => None | (k', a) :: l => if decide (k' = k) then Some a else find_key k l end.

Section VEq.

Context (veq : dval -> dval -> bool).

Fixpoint list_eq (vs ws : list dval) : bool :=
  match vs, ws with
  | [], [] => true
  | v :: vs, w :: ws => veq v w && list_eq vs ws
  | _, _ => false
  end.

Definition entries_eq {K} `{EqDecision K} (kvs kws : list (K * dval)) : bool :=
  (length kvs =? length kws)%nat &&
  forallb (fun e => match find_key e.1 kws with Some w => veq e.2 w | None => false end) kvs.

End VEq.

Fixpoint VEquals (v w : dval) : bool :=
  match v, w with
  | VNull, VNull => true
  | VBool a, VBool b => Bool.eqb a b
  | VInt a, VInt b => a =? b
  | VFloat a, VFloat b => float_eq a b
  | VString a, VString b => bytes_eqb a b
  | VArray vs, VArray ws => list_eq VEquals vs ws
  | VObject kvs, VObject kws => entries_eq VEquals kvs kws
  | VIntMap kvs, VIntMap kws => entries_eq VEquals kvs kws
  | VBinary a, VBinary b => bytes_eqb a b
  | _, _ => false
  end.

(** ** Lemmas on entries *)

Lemma bool_eq_iff (a b : bool) : (a = true <-> b = true) -> a = b.
Proof. destruct a, b; naive_solver. Qed.

Lemma foldr_and {A} (P : A -> Prop) l : foldr (fun x Q => P x /\ Q) True l <-> Forall P l.
Proof. induction l as [|x l IH]; simpl; [by rewrite Forall_nil|]. by rewrite Forall_cons, IH. Qed.

Lemma foldr_max_le {A} (f : A -> nat) xs x : x ∈ xs -> (f x <= foldr (fun x n => Nat.max (f x) n) 0 xs)%nat.
Proof. induction 1; simpl; lia. Qed.

Section Entries.

Context {K : Type} `{Countable K}.

Lemma find_key_map {A} (k : K) (l : list (K * A)) : find_key k l = (list_to_map l : gmap K A) !! k.
Proof.
  induction l as [|[k' a] l IH]; simpl; [by rewrite lookup_empty|].
  case_decide as E; [subst; by rewrite lookup_insert_eq|by rewrite lookup_insert_ne].
Qed.

Lemma find_key_Some {A} (k : K) (a : A) l : NoDup l.*1 -> find_key k l = Some a <-> (k, a) ∈ l.
Proof. intros Hnd. rewrite find_key_map. symmetry. by apply elem_of_list_to_map. Qed.

Lemma find_key_None {A} (k : K) (l : list (K * A)) : find_key k l = None <-> k ∉ l.*1.
Proof. rewrite find_key_map. symmetry. apply not_elem_of_list_to_map. Qed.

Lemma find_key_is_Some {A} (k : K) (l : list (K * A)) : is_Some (find_key k l) <-> k ∈ l.*1.
Proof.
  destruct (decide (k ∈ l.*1)) as [Hk|Hk].
  - split; [done|]. intros _. destruct (find_key k l) eqn:E; [by eexists|]. by apply find_key_None in E.
  - apply find_key_None in Hk as E. rewrite E. split; [by intros [? ?]|done].
Qed.

Lemma find_key_perm {A} (k : K) (l l' : list (K * A)) : NoDup l.*1 -> l ≡ₚ l' -> find_key k l = find_key k l'.
Proof. intros Hnd Hp. rewrite !find_key_map. f_equal. by apply list_to_map_proper. Qed.

Lemma canon_perm {A} (l : list (K * A)) : NoDup l.*1 -> canon l ≡ₚ l.
Proof. intros Hnd. unfold canon. by apply map_to_list_to_map. Qed.

Lemma canon_NoDup {A} (l : list (K * A)) : NoDup (canon l).*1.
Proof. apply NoDup_fst_map_to_list. Qed.

Lemma find_key_canon {A} (k : K) (l : list (K * A)) : find_key k (canon l) = find_key k l.
Proof. rewrite !find_key_map. unfold canon. by rewrite list_to_map_to_list. Qed.

Lemma canon_ext {A} (l l' : list (K * A)) : (forall k, find_key k l = find_key k l') -> canon l = canon l'.
Proof.
  intros E. unfold canon. f_equal. apply map_eq. intros k. specialize (E k). by rewrite !find_key_map in E.
Qed.

Lemma find_key_on_snd {A B} (f : A -> B) k (l : list (K * A)) :
  find_key k (on_snd f <$> l) = f <$> find_key k l.
Proof. induction l as [|[k' a] l IH]; simpl; [done|]. by case_decide. Qed.

Lemma on_snd_keys {A B} (f : A -> B) (l : list (K * A)) : (on_snd f <$> l).*1 = l.*1.
Proof. rewrite <- list_fmap_compose. by apply list_fmap_ext. Qed.

Lemma length_canon {A} (l : list (K * A)) : NoDup l.*1 -> length (canon l) = length l.
Proof. intros Hnd. by rewrite canon_perm. Qed.

(** [entries_eq] compares the two maps key by key. *)
Lemma entries_eq_spec (R : dval -> dval -> bool) (l l' : list (K * dval)) : NoDup l.*1 -> NoDup l'.*1 ->
  entries_eq R l l' = true <->
  forall k, option_Forall2 (fun v w => R v w = true) (find_key k l) (find_key k l').
Proof.
  intros Hl Hl'. unfold entries_eq. rewrite andb_true_iff, Nat.eqb_eq, forallb_forall.
  setoid_rewrite <- list_elem_of_In. split.
  - intros [Hlen Hall] k.
    assert (forall k v, find_key k l = Some v -> exists w, find_key k l' = Some w /\ R v w = true) as H1.
    { intros k' v Hv%find_key_Some; [|done]. specialize (Hall _ Hv). simpl in Hall.
      destruct (find_key k' l') as [w|]; [|done]. by exists w. }
    destruct (find_key k l) as [v|] eqn:E.
    + destruct (H1 k v E) as (w & -> & Hw). by constructor.
    + destruct (find_key k l') as [w|] eqn:E'; [exfalso|constructor].
      apply find_key_None in E. apply find_key_Some in E'; [|done].
      assert (length (k :: l.*1) <= length l'.*1)%nat; [|rewrite !length_cons, !length_fmap in *; lia].
      apply NoDup_subset_length; [by apply NoDup_cons|].
      intros x [->|Hx]%elem_of_cons; [by apply (list_elem_of_fmap_2 fst) in E'|].
      apply list_elem_of_fmap in Hx as ([x' v] & -> & Hv). apply find_key_Some in Hv; [|done].
      destruct (H1 _ _ Hv) as (w' & Hw & _). apply find_key_Some in Hw; [|done].
      by apply (list_elem_of_fmap_2 fst) in Hw.
  - intros Hall. split.
    + assert (forall k, k ∈ l.*1 <-> k ∈ l'.*1) as Hk.
      { intros k. rewrite <- !find_key_is_Some. destruct (Hall k); split; intros [? ?]; eauto; done. }
      rewrite <- (length_fmap fst l), <- (length_fmap fst l').
      apply Nat.le_antisymm; apply NoDup_subset_length; naive_solver.
    + intros [k v] Hv. apply find_key_Some in Hv; [|done]. simpl. specialize (Hall k). rewrite Hv in Hall.
      by inversion Hall as [? w HR Hw|].
Qed.

End Entries.

(** ** Canonical forms *)

Lemma vwf_norm v : vwf v -> vwf (norm v).
Proof.
  induction v using dval_ind'; simpl; try done.
  - rewrite !foldr_and, Forall_fmap. intros Hw. rewrite !Forall_forall in *. naive_solver.
  - rewrite !foldr_and. intros [Hnd Hw]. split; [apply canon_NoDup|].
    rewrite canon_perm by (by rewrite on_snd_keys). rewrite Forall_fmap. rewrite !Forall_forall in *. naive_solver.
  - rewrite !foldr_and. intros [Hnd Hw]. split; [apply canon_NoDup|].
    rewrite canon_perm by (by rewrite on_snd_keys). rewrite Forall_fmap. rewrite !Forall_forall in *. naive_solver.
Qed.

Lemma find_key_Forall {K A} `{Countable K} (P : A -> Prop) (l : list (K * A)) k v :
  Forall (fun e => P e.2) l -> find_key k l = Some v -> P v.
Proof.
  induction 1 as [|[k' a] l Ha Hl IH]; simpl; [done|]. case_decide; [by intros [= <-]|done].
Qed.

Lemma option_Forall2_fmap_iff {A B A' B'} (f : A -> A') (g : B -> B') (R : A -> B -> Prop) (R' : A' -> B' -> Prop) mx my :
  (forall x y, mx = Some x -> my = Some y -> R' (f x) (g y) <-> R x y) ->
  option_Forall2 R' (f <$> mx) (g <$> my) <-> option_Forall2 R mx my.
Proof.
  intros HR. destruct mx as [x|], my as [y|]; simpl; split; intros HF; inversion HF; subst;
    constructor; by apply HR.
Qed.

(** [entries_eq] on canonical entries. *)
Lemma entries_eq_norm {K} `{Countable K} (l l' : list (K * dval)) :
  NoDup l.*1 -> NoDup l'.*1 -> Forall (fun e => vwf e.2) l -> Forall (fun e => vwf e.2) l' ->
  Forall (fun e => forall w, vwf e.2 -> vwf w -> VEquals (norm e.2) (norm w) = VEquals e.2 w) l ->
  entries_eq VEquals (canon (on_snd norm <$> l)) (canon (on_snd norm <$> l')) = entries_eq VEquals l l'.
Proof.
  intros Hl Hl' Hw Hw' IH. apply bool_eq_iff. rewrite (entries_eq_spec _ l l') by done.
  rewrite (entries_eq_spec _ (canon _) (canon _)) by apply canon_NoDup.
  apply forall_proper. intros k. rewrite !find_key_canon, !find_key_on_snd.
  apply option_Forall2_fmap_iff. intros v w Hv Hfw.
  rewrite (find_key_Forall (fun v => forall w, vwf v -> vwf w -> VEquals (norm v) (norm w) = VEquals v w) _ _ _ IH Hv);
    [done|exact (find_key_Forall vwf _ _ _ Hw Hv)|exact (find_key_Forall vwf _ _ _ Hw' Hfw)].
Qed.

Lemma VEquals_norm v : forall w, vwf v -> vwf w -> VEquals (norm v) (norm w) = VEquals v w.
Proof.
  induction v as [| | | | |vs IH|kvs IH|kvs IH|] using dval_ind'; intros w Hv Hw; destruct w as [| | | | |ws|kws|kws|];
    try done; simpl in *.
  - rewrite !foldr_and in *. revert ws Hw. induction IH as [|v vs Hv1 Hvs IH2]; intros ws Hw.
    + by destruct ws.
    + apply Forall_cons in Hv as [Hv0 Hv]. destruct ws as [|w ws]; [done|].
      apply Forall_cons in Hw as [Hw0 Hw]. simpl. by rewrite Hv1, IH2.
  - rewrite !foldr_and in *. destruct Hv, Hw. by apply entries_eq_norm.
  - rewrite !foldr_and in *. destruct Hv, Hw. by apply entries_eq_norm.
Qed.

(** [Equals] does not see the order of map entries. *)
Lemma VEquals_equiv v v' w w' : vwf v -> vwf v' -> vwf w -> vwf w' -> v ≡ v' -> w ≡ w' -> VEquals v w = VEquals v' w'.
Proof.
  intros ? ? ? ? Hv Hw. rewrite <- (VEquals_norm v w), <- (VEquals_norm v' w') by done.
  unfold equiv, dval_equiv in *. congruence.
Qed.

Lemma float_eq_sym x y : float_eq x y = float_eq y x.
Proof.
  unfold float_eq. rewrite (Z.eqb_sym x y), (andb_comm (is_zero x)), (andb_comm (negb (is_nan x))). done.
Qed.

Lemma entries_eq_sym {K} `{Countable K} (l l' : list (K * dval)) :
  NoDup l.*1 -> NoDup l'.*1 -> Forall (fun e => vwf e.2) l -> Forall (fun e => vwf e.2) l' ->
  Forall (fun e => forall w, vwf e.2 -> vwf w -> VEquals e.2 w = VEquals w e.2) l ->
  entries_eq VEquals l l' = entries_eq VEquals l' l.
Proof.
  intros Hl Hl' Hw Hw' IH. apply bool_eq_iff. rewrite !entries_eq_spec by done.
  apply forall_proper. intros k. pose proof (find_key_Forall (fun v => forall w, vwf v -> vwf w -> VEquals v w = VEquals w v) l k) as H1.
  pose proof (find_key_Forall vwf l k) as H2. pose proof (find_key_Forall vwf l' k) as H3.
  destruct (find_key k l) as [v|], (find_key k l') as [w|]; split; intros HF; inversion HF; subst; constructor;
    [rewrite <- (H1 v)|rewrite (H1 v)]; eauto.
Qed.

Lemma VEquals_sym v : forall w, vwf v -> vwf w -> VEquals v w = VEquals w v.
Proof.
  induction v as [|b|z|z|s|vs IH|kvs IH|kvs IH|s] using dval_ind'; intros w Hv Hw; destruct w as [|b'|z'|z'|s'|ws|kws|kws|s'];
    try done; simpl in *.
  - by destruct b, b'.
  - apply Z.eqb_sym.
  - apply float_eq_sym.
  - unfold bytes_eqb. by apply bool_decide_ext.
  - rewrite !foldr_and in *. revert ws Hw. induction IH as [|v vs Hv1 Hvs IH2]; intros ws Hw.
    + by destruct ws.
    + apply Forall_cons in Hv as [Hv0 Hv]. destruct ws as [|w ws]; [done|].
      apply Forall_cons in Hw as [Hw0 Hw]. simpl. by rewrite Hv1, IH2.
  - rewrite !foldr_and in *. destruct Hv, Hw. by apply entries_eq_sym.
  - rewrite !foldr_and in *. destruct Hv, Hw. by apply entries_eq_sym.
  - unfold bytes_eqb. by apply bool_decide_ext.
Qed.

(** Values without NaN: [Equals] is reflexive on them. *)
Fixpoint nan_free (v : dval) : Prop :=
  match v with
  | VFloat z => is_nan z = false
  | VArray vs => foldr (fun v P => nan_free v /\ P) True vs
  | VObject kvs => foldr (fun e P => nan_free e.2 /\ P) True kvs
  | VIntMap kvs => foldr (fun e P => nan_free e.2 /\ P) True kvs
  | _ => True
  end.

Lemma entries_eq_refl {K} `{Countable K} (l : list (K * dval)) : NoDup l.*1 ->
  Forall (fun e => VEquals e.2 e.2 = true) l -> entries_eq VEquals l l = true.
Proof.
  intros Hnd HF. apply entries_eq_spec; [done..|]. intros k. destruct (find_key k l) as [v|] eqn:E; constructor.
  exact (find_key_Forall (fun v => VEquals v v = true) l k v HF E).
Qed.

Lemma VEquals_refl v : vwf v -> nan_free v -> VEquals v v = true.
Proof.
  induction v as [|b|z|z|s|vs IH|kvs IH|kvs IH|s] using dval_ind'; simpl; intros Hw Hn.
  - done.
  - by destruct b.
  - apply Z.eqb_refl.
  - unfold float_eq. by rewrite Hn, Z.eqb_refl.
  - by apply bool_decide_eq_true.
  - rewrite foldr_and in *. induction vs as [|v vs IHvs]; [done|]. rewrite !Forall_cons in *. simpl.
    apply andb_true_iff. naive_solver.
  - rewrite foldr_and in *. apply entries_eq_refl; [tauto|]. rewrite !Forall_forall in *. naive_solver.
  - rewrite foldr_and in *. apply entries_eq_refl; [tauto|]. rewrite !Forall_forall in *. naive_solver.
  - by apply bool_decide_eq_true.
Qed.

(** ** Building values

    Replacing the entry of a key, or adding it at the end; the nodes of a value
    under construction. *)

Fixpoint set_key {K} `{EqDecision K} (k : K) (v : dval) (kvs : list (K * dval)) : list (K * dval) :=
  match kvs with
  | [] => [(k, v)]
  | (k', v') :: kvs => if decide (k' = k) then (k', v) :: kvs else (k', v') :: set_key k v kvs
  end.

Lemma count_array acc v : node_count (VArray (acc ++ [v])) = node_count (VArray acc) + node_count v.
Proof. simpl. induction acc as [|u acc IH]; simpl in *; lia. Qed.

(** The nodes below the entries of a map. *)
Definition below {K} (kvs : list (K * dval)) : Z := foldr (fun e n => node_count e.2 + n) 0 kvs.

Lemma below_set {K} `{EqDecision K} (k : K) v kvs :
  below (set_key k v kvs) = below kvs + node_count v - match find_key k kvs with Some o => node_count o | None => 0 end.
Proof. induction kvs as [|[k' v'] kvs IH]; simpl; [lia|]. case_decide; simpl; [lia|]. rewrite IH. lia. Qed.

Lemma set_key_new {K} `{EqDecision K} (k : K) v kvs : k ∉ kvs.*1 -> set_key k v kvs = kvs ++ [(k, v)] /\ find_key k kvs = None.
Proof.
  induction kvs as [|[k' v'] kvs IH]; [done|]. intros [Hk Hn]%not_elem_of_cons. simpl in *.
  rewrite decide_False by congruence. destruct (IH Hn) as [-> ->]. by rewrite decide_False by congruence.
Qed.
