(* ===== verification/Float.v ===== *)
(** * Conversions between the arithmetic types of the source

    A [double] is its 64-bit pattern and a [float] its 32-bit pattern (IEEE 754,
    which the sources assume when they copy the bits).  Every conversion goes
    through the exact value [(-1)^s * m * 2^e]; rounding is to nearest, ties to
    even.  A conversion to an integer type whose range does not contain the
    truncated value is undefined behaviour: [None]. *)

From stdpp Require Import base numbers.
From Stdlib Require Import ZArith Lia.
From S2P Require Import Prelude.

(** ** A binary format: [mw] fraction bits, [ew] exponent bits *)

Section Format.

Context (mw ew : Z).

Definition inf_bits : Z := Z.shiftl (2 ^ ew - 1) mw.
(** The exponent of the last place of a subnormal. *)
Definition emin : Z := 2 - 2 ^ (ew - 1) - mw.

Definition sign_bit (s : bool) : Z := if s then 2 ^ (mw + ew) else 0.

Inductive fclass := FNan (s : bool) (frac : Z) | FInf (s : bool) | FFin (s : bool) (m e : Z).

Definition decode (bits : Z) : fclass :=
  let s := Z.testbit bits (mw + ew) in
  let e := Z.land (Z.shiftr bits mw) (2 ^ ew - 1) in
  let frac := Z.land bits (2 ^ mw - 1) in
  if e =? 2 ^ ew - 1 then (if frac =? 0 then FInf s else FNan s frac)
  else if e =? 0 then FFin s frac emin
  else FFin s (2 ^ mw + frac) (e - 1 + emin).

(** [m / 2^k], rounded to nearest, ties to even. *)
Definition rne (m k : Z) : Z :=
  let q := Z.shiftr m k in
  let r := m - Z.shiftl q k in
  match Z.compare (2 * r) (2 ^ k) with Lt => q | Gt => q + 1 | Eq => q + q mod 2 end.

(** The pattern nearest to [(-1)^s * m * 2^e].  The significand [r] is added to
    the scaled exponent, so that a carry out of the fraction moves to the next
    binade and the largest binade overflows to infinity. *)
Definition round (s : bool) (m e : Z) : Z :=
  sign_bit s +
  (if m =? 0 then 0 else
   let q := Z.max (Z.log2 m + e - mw) emin in
   let r := if q <=? e then Z.shiftl m (e - q) else rne m (q - e) in
   Z.min ((q - emin) * 2 ^ mw + r) inf_bits).

End Format.

Definition decode64 := decode 52 11.
Definition round64 := round 52 11.
Definition decode32 := decode 23 8.
Definition round32 := round 23 8.

(** ** The conversions *)

(** [static_cast<double>(int64_t)], [static_cast<float>(int64_t)] *)
Definition int_to_f64 (z : Z) : Z := round64 (z <? 0) (Z.abs z) 0.
Definition int_to_f32 (z : Z) : Z := round32 (z <? 0) (Z.abs z) 0.

(** [static_cast<intW_t>(double)]: truncation towards zero. *)
Definition f64_to_int (w bits : Z) : option Z :=
  match decode64 bits with
  | FFin s m e =>
      let t := Z.shiftl m e in
      let z := if s then - t else t in
      if (- 2 ^ (w - 1) <=? z) && (z <? 2 ^ (w - 1)) then Some z else None
  | _ => None
  end.

(** [static_cast<double>(float)] is exact; a signalling NaN becomes quiet. *)
Definition f32_to_f64 (bits : Z) : Z :=
  match decode32 bits with
  | FFin s m e => round64 s m e
  | FInf s => sign_bit 52 11 s + inf_bits 52 11
  | FNan s frac => sign_bit 52 11 s + Z.lor (inf_bits 52 11) (Z.lor (Z.shiftl frac 29) (2 ^ 51))
  end.

(** [static_cast<float>(double)] *)
Definition f64_to_f32 (bits : Z) : Z :=
  match decode64 bits with
  | FFin s m e => round32 s m e
  | FInf s => sign_bit 23 8 s + inf_bits 23 8
  | FNan s frac => sign_bit 23 8 s + Z.lor (inf_bits 23 8) (Z.lor (Z.shiftr frac 29) (2 ^ 22))
  end.

(** [1.0], [0.0]. *)
Definition f64_one : Z := 0x3ff0000000000000.
Definition f32_one : Z := 0x3f800000.

Example int_to_f64_1 : int_to_f64 1 = f64_one. Proof. reflexivity. Qed.
Example int_to_f64_max : int_to_f64 (2 ^ 63 - 1) = 0x43e0000000000000. Proof. reflexivity. Qed.
Example f32_one_up : f32_to_f64 f32_one = f64_one. Proof. reflexivity. Qed.
Example f32_denormal : f32_to_f64 1 = 0x36a0000000000000. Proof. reflexivity. Qed.
Example f64_third : f64_to_f32 0x3fd5555555555555 = 0x3eaaaaab. Proof. reflexivity. Qed.
Example f64_huge : f64_to_f32 0x7fefffffffffffff = 0x7f800000. Proof. reflexivity. Qed.
Example f64_minus : f64_to_int 64 0xc00c000000000000 = Some (-3). Proof. reflexivity. Qed.

(** ** Integers up to [2^53] are exact *)

Lemma land_ones_mod a k : 0 <= k -> Z.land a (2 ^ k - 1) = a mod 2 ^ k.
Proof. intros Hk. rewrite <- Z.land_ones by done. f_equal. rewrite Z.ones_equiv. lia. Qed.

(** Reading back a pattern put together from its fields. *)
Lemma decode64_fields s E r : 0 < E < 2047 -> 2 ^ 52 <= r < 2 ^ 53 ->
  decode64 (sign_bit 52 11 s + ((E - 1) * 2 ^ 52 + r)) = FFin s r (E - 1 + emin 52 11).
Proof.
  intros HE Hr. set (x := (E - 1) * 2 ^ 52 + r).
  assert (x = E * 2 ^ 52 + (r - 2 ^ 52)) as Hx by (unfold x; lia).
  assert (sign_bit 52 11 s = (if s then 2048 else 0) * 2 ^ 52) as Es by (by destruct s).
  assert (Z.testbit (sign_bit 52 11 s + x) 63 = s) as E1.
  { rewrite Z.testbit_eqb by lia. 
    replace ((sign_bit 52 11 s + x) / 2 ^ 63) with (if s then 1 else 0); [by destruct s|].
    apply Z.div_unique with (r := x); [left; lia|]. destruct s; simpl; lia. }
  assert (Z.land (Z.shiftr (sign_bit 52 11 s + x) 52) (2 ^ 11 - 1) = E) as E2.
  { rewrite land_ones_mod, Z.shiftr_div_pow2 by lia.
    replace ((sign_bit 52 11 s + x) / 2 ^ 52) with ((if s then 2048 else 0) + E).
    - destruct s; [|by rewrite Z.mod_small by lia].
      symmetry. apply (Z.mod_unique _ _ 1); [left; lia|lia].
    - apply Z.div_unique with (r := r - 2 ^ 52); [left; lia|]. rewrite Es, Hx. lia. }
  assert (Z.land (sign_bit 52 11 s + x) (2 ^ 52 - 1) = r - 2 ^ 52) as E3.
  { rewrite land_ones_mod by lia. symmetry.
    apply (Z.mod_unique _ _ ((if s then 2048 else 0) + E)); [left; lia|]. rewrite Es, Hx. lia. }
  unfold decode64, decode. cbv zeta. change (52 + 11) with 63. rewrite E1, E2, E3.
  rewrite (proj2 (Z.eqb_neq E _)), (proj2 (Z.eqb_neq E _)) by lia. f_equal. lia.
Qed.

Lemma int_f64_int_small z : Z.abs z < 2 ^ 53 -> f64_to_int 64 (int_to_f64 z) = Some z.
Proof.
  intros Hz. destruct (Z.eq_dec z 0) as [->|Hnz]; [reflexivity|].
  unfold int_to_f64, round64, round. rewrite (proj2 (Z.eqb_neq (Z.abs z) 0)) by lia. cbv zeta.
  pose proof (Z.log2_spec (Z.abs z) ltac:(lia)) as Hlog. pose proof (Z.log2_nonneg (Z.abs z)) as Hl0.
  set (k := Z.log2 (Z.abs z)) in *.
  assert (k <= 52) as Hk by (cut (k < 53); [lia|]; apply (Z.pow_lt_mono_r_iff 2); lia).
  change (emin 52 11) with (-1074). rewrite Z.max_l by lia. rewrite (proj2 (Z.leb_le _ 0)) by lia.
  rewrite Z.shiftl_mul_pow2 by lia. replace (0 - (k + 0 - 52)) with (52 - k) by lia.
  set (r := Z.abs z * 2 ^ (52 - k)).
  assert (2 ^ 52 <= r < 2 ^ 53) as Hr.
  { unfold r. replace (2 ^ 53) with (2 ^ Z.succ k * 2 ^ (52 - k)) by (rewrite <- Z.pow_add_r by lia; f_equal; lia).
    replace (2 ^ 52) with (2 ^ k * 2 ^ (52 - k)) by (rewrite <- Z.pow_add_r by lia; f_equal; lia).
    pose proof (Z.pow_pos_nonneg 2 (52 - k) ltac:(lia) ltac:(lia)). nia. }
  assert (inf_bits 52 11 = 2047 * 2 ^ 52) as Ei by reflexivity.
  rewrite Z.min_l by (rewrite Ei; lia).
  replace (k + 0 - 52 - -1074) with ((k + 1023) - 1) by lia. unfold f64_to_int.
  rewrite decode64_fields by lia. change (emin 52 11) with (-1074).
  assert (Z.shiftl r (k + 1023 - 1 + -1074) = Z.abs z) as ->.
  { replace (k + 1023 - 1 + -1074) with (- (52 - k)) by lia.
    rewrite Z.shiftl_opp_r, Z.shiftr_div_pow2 by lia. unfold r. apply Z.div_mul.
    pose proof (Z.pow_pos_nonneg 2 (52 - k) ltac:(lia) ltac:(lia)). lia. }
  cbv zeta. assert ((if z <? 0 then - Z.abs z else Z.abs z) = z) as -> by (destruct (Z.ltb_spec z 0); lia).
  rewrite (proj2 (Z.leb_le _ _)), (proj2 (Z.ltb_lt _ _)) by lia. done.
Qed.

Lemma int_f64_int z : Z.abs z <= 2 ^ 53 -> f64_to_int 64 (int_to_f64 z) = Some z.
Proof.
  intros Hz. destruct (decide (Z.abs z < 2 ^ 53)) as [Hlt|Hge]; [by apply int_f64_int_small|].
  assert (z = 2 ^ 53 \/ z = - 2 ^ 53) as [-> | ->] by lia; reflexivity.
Qed.

(** A conversion that is defined gives a value of the target type. *)
Lemma f64_to_int_range w bits z : f64_to_int w bits = Some z -> - 2 ^ (w - 1) <= z < 2 ^ (w - 1).
Proof. unfold f64_to_int. intros H. repeat case_scrut; simplify_eq; zbool; lia. Qed.
