(* ===== verification/Text.v ===== *)
(** * Character data: literals, decimal numbers, C formatting of doubles

    What the sources use of the C library to print: [%d]/[%lld] and
    [std::to_string], [%.*g], and [strtod] on the texts [%.*g] produces. *)

From stdpp Require Import base numbers list.
From Stdlib Require Import ZArith Lia.
From Stdlib Require String Ascii.
From S2P Require Import Prelude DataValue Float.
Export String.StringSyntax.

Delimit Scope string_scope with string.
#[global] Bind Scope string_scope with String.string.

(** The bytes of a string literal. *)
Definition str (s : String.string) : bytes :=
  (fun a => Z.of_N (Ascii.N_of_ascii a)) <$> String.list_ascii_of_string s.

(** A single character literal. *)
Definition chr (s : String.string) : byte := default 0 (head (str s)).

(** ** Decimal numbers *)

(** The decimal digits of [n >= 0], most significant first; [fuel] bounds their
    number. *)
Fixpoint digits (fuel : nat) (n : Z) (acc : bytes) : bytes :=
  match fuel with
  | O => acc
  | S fuel => let acc := (48 + n mod 10) :: acc in if n <? 10 then acc else digits fuel (n / 10) acc
  end.

Definition dec_nat (n : Z) : bytes := digits (S (Z.to_nat (Z.log2 n))) n [].

(** [std::to_string], [%d], [%lld]. *)
Definition dec (z : Z) : bytes := if z <? 0 then 45 :: dec_nat (- z) else dec_nat z.

(** Reading digits: the value and the rest of the text. *)
Fixpoint read_digits (acc : Z) (s : bytes) : Z * bytes :=
  match s with
  | c :: s' => if (48 <=? c) && (c <=? 57) then read_digits (acc * 10 + (c - 48)) s' else (acc, s)
  | [] => (acc, [])
  end.

Definition is_digit (c : Z) : bool := (48 <=? c) && (c <=? 57).

Lemma read_digits_app xs : forall acc rest, Forall (fun c => is_digit c = true) xs ->
  read_digits acc (xs ++ rest) = read_digits (fold_left (fun a c => a * 10 + (c - 48)) xs acc) rest.
Proof.
  induction xs as [|c xs IH]; intros acc rest HF; [done|]. apply Forall_cons in HF as [Hc HF]. simpl.
  unfold is_digit in Hc. rewrite Hc. by apply IH.
Qed.

Lemma digits_spec fuel : forall n acc, 0 <= n < 2 ^ Z.of_nat fuel -> fuel <> O ->
  exists ds, digits fuel n acc = ds ++ acc /\ Forall (fun c => is_digit c = true) ds /\ ds <> [] /\
    forall a, fold_left (fun a c => a * 10 + (c - 48)) ds a = a * 10 ^ Z.of_nat (length ds) + n.
Proof.
  induction fuel as [|fuel IH]; intros n acc Hn Hf; [done|]. cbn [digits]. cbv zeta.
  assert (is_digit (48 + n mod 10) = true) as Hd.
  { unfold is_digit. pose proof (Z.mod_pos_bound n 10 ltac:(lia)). apply andb_true_iff. split; lia. }
  destruct (Z.ltb_spec n 10) as [Hlt|Hge].
  - exists [48 + n mod 10]. split_and!; [done|by constructor|done|]. intros a. simpl fold_left.
    rewrite Z.mod_small by lia. change (Z.of_nat (length [48 + n])) with 1. lia.
  - rewrite Nat2Z.inj_succ, Z.pow_succ_r in Hn by lia.
    assert (fuel <> O) as Hf' by (intros ->; simpl in Hn; lia).
    destruct (IH (n / 10) ((48 + n mod 10) :: acc)) as (ds & E & HF & Hne & Hv); [|done|].
    { split; [apply Z.div_pos; lia|]. apply Z.div_lt_upper_bound; lia. }
    exists (ds ++ [48 + n mod 10]). split_and!.
    + rewrite E, <- app_assoc. done.
    + apply Forall_app. split; [done|by constructor].
    + by destruct ds.
    + intros a. rewrite fold_left_app, Hv, length_app. simpl length. rewrite Nat2Z.inj_add, Z.pow_add_r by lia.
      simpl fold_left. change (10 ^ Z.of_nat 1) with 10. pose proof (Z.div_mod n 10 ltac:(lia)). lia.
Qed.

(** Reading back a printed number. *)
Lemma dec_nat_read n rest : 0 <= n -> (forall c r, rest = c :: r -> is_digit c = false) ->
  read_digits 0 (dec_nat n ++ rest) = (n, rest).
Proof.
  intros Hn Hrest. unfold dec_nat.
  destruct (digits_spec (S (Z.to_nat (Z.log2 n))) n []) as (ds & -> & HF & _ & Hv); [|done|].
  { rewrite Nat2Z.inj_succ, Z2Nat.id by apply Z.log2_nonneg. split; [done|].
    destruct (Z.eq_dec n 0) as [->|]; [done|]. apply Z.log2_spec. lia. }
  rewrite app_nil_r, read_digits_app by done. rewrite Hv.
  destruct rest as [|c r]; cbn [read_digits]; [by f_equal; lia|]. specialize (Hrest c r eq_refl). unfold is_digit in Hrest.
  rewrite Hrest. f_equal; lia.
Qed.

(** ** [%.*g] *)

(** The largest [x] with [10^x <= num / den], searched upwards from [x]. *)
Definition ge_pow10 (num den x : Z) : bool :=
  if 0 <=? x then den * 10 ^ x <=? num else den <=? num * 10 ^ (- x).
Fixpoint flog10_up (fuel : nat) (num den x : Z) : Z :=
  match fuel with
  | O => x
  | S fuel => if ge_pow10 num den (x + 1) then flog10_up fuel num den (x + 1) else x
  end.
Definition flog10 (num den : Z) : Z :=
  flog10_up (Z.to_nat (Z.log2 num + Z.log2 den + 2)) num den (Z.min 0 (Z.log2 num - Z.log2 den - 1)).

(** [num / den] to the nearest integer, ties to even. *)
Definition rdiv (num den : Z) : Z :=
  let q := num / den in
  match Z.compare (2 * (num mod den)) den with Lt => q | Gt => q + 1 | Eq => q + q mod 2 end.

Fixpoint strip_zeros_rev (ds : bytes) : bytes :=
  match ds with c :: ds' => if c =? 48 then strip_zeros_rev ds' else ds | [] => [] end.
(** Without trailing zeros. *)
Definition strip_zeros (ds : bytes) : bytes := rev (strip_zeros_rev (rev ds)).

Definition with_point (whole frac : bytes) : bytes :=
  match strip_zeros frac with [] => whole | f => whole ++ [46] ++ f end.

(** The text of [%.*g] for a finite value [(-1)^s * m * 2^e] and [prec >= 1]. *)
Definition fmt_g_fin (prec : Z) (s : bool) (m e : Z) : bytes :=
  (if s then [45] else []) ++
  if m =? 0 then [48] else
  let num := if 0 <=? e then m * 2 ^ e else m in
  let den := if 0 <=? e then 1 else 2 ^ (- e) in
  let x0 := flog10 num den in
  let k := prec - 1 - x0 in
  let d0 := if 0 <=? k then rdiv (num * 10 ^ k) den else rdiv num (den * 10 ^ (- k)) in
  let carry := d0 =? 10 ^ prec in
  let x := if carry then x0 + 1 else x0 in
  let d := dec_nat (if carry then 10 ^ (prec - 1) else d0) in
  if (-4 <=? x) && (x <? prec) then
    if 0 <=? x then with_point (take (Z.to_nat (x + 1)) d) (drop (Z.to_nat (x + 1)) d)
    else with_point [48] (replicate (Z.to_nat (- x - 1)) 48 ++ d)
  else
    with_point (take 1 d) (drop 1 d) ++ [101; if x <? 0 then 45 else 43] ++
    (if Z.abs x <? 10 then [48] else []) ++ dec_nat (Z.abs x).

Definition fmt_g (prec bits : Z) : bytes :=
  match decode64 bits with
  | FFin s m e => fmt_g_fin prec s m e
  | FInf s => (if s then [45] else []) ++ str "inf"
  | FNan s _ => (if s then [45] else []) ++ str "nan"
  end.

(** ** [strtod] on decimal texts *)

(** The double nearest to [(-1)^s * d * 10^k]: for a negative [k] the quotient
    is taken to 64 significant bits or more, with a sticky bit. *)
Definition round_dec (s : bool) (d k : Z) : Z :=
  if 0 <=? k then round64 s (d * 10 ^ k) 0 else
  let den := 10 ^ (- k) in
  let t := Z.log2 den + 64 in
  let q := (d * 2 ^ t) / den in
  let sticky := if (d * 2 ^ t) mod den =? 0 then 0 else 1 in
  round64 s (2 * q + sticky) (- t - 1).

Definition strtod (text : bytes) : Z :=
  let '(s, text) := match text with 45 :: t => (true, t) | 43 :: t => (false, t) | t => (false, t) end in
  let '(w, rest) := read_digits 0 text in
  let '(d, nfrac, rest) :=
    match rest with
    | 46 :: t => let '(d, r) := read_digits w t in (d, Z.of_nat (length t - length r), r)
    | r => (w, 0, r)
    end in
  let ex :=
    match rest with
    | c :: t => if (c =? 101) || (c =? 69)
                then match t with
                     | 45 :: t => - (read_digits 0 t).1
                     | 43 :: t => (read_digits 0 t).1
                     | t => (read_digits 0 t).1
                     end
                else 0
    | [] => 0
    end in
  round_dec s d (ex - nfrac).

Example fmt_tenth : fmt_g 17 0x3fb999999999999a = str "0.10000000000000001". Proof. vm_compute. reflexivity. Qed.
Example fmt_tenth1 : fmt_g 1 0x3fb999999999999a = str "0.1". Proof. vm_compute. reflexivity. Qed.
Example fmt_big : fmt_g 3 (int_to_f64 123456789) = str "1.23e+08". Proof. vm_compute. reflexivity. Qed.
Example fmt_small : fmt_g 3 0x3ddb7cdfd9d7bdbb = str "1e-10". Proof. vm_compute. reflexivity. Qed.
Example strtod_min : strtod (str "4.94e-324") = 1. Proof. vm_compute. reflexivity. Qed.
Example strtod_tenth : strtod (str "0.1") = 0x3fb999999999999a. Proof. vm_compute. reflexivity. Qed.
Example strtod_max : strtod (str "-1.7976931348623157e308") = 0xffefffffffffffff. Proof. vm_compute. reflexivity. Qed.
