(* ===== verification/DataNode.v ===== *)
(** * [src/data/data_node.h], [src/data/data_node.cpp]: reference-counted nodes

    The heap maps the addresses of live nodes to their contents: the mutation
    counter, the reference count and the tagged union.  Nodes are allocated
    from and returned to an allocator ([NodeAllocator], the pool of
    [NodePool.v]) and objects and integer maps use the hash-map interface of
    [DataMap.v].  Operations are the C++ code in the option monad; [None] is
    undefined behaviour (a node that is not live, or a union member that is
    not active) or the end of the fuel of a recursive function.

    The reference counts are atomic in the source; the model runs one
    operation at a time. *)

From stdpp Require Import base numbers list gmap.
From Stdlib Require Import ZArith Lia.
From S2P Require Import Prelude NodePool DataMap DataValue.

Section Nodes.

Context {MO : DataMap bytes} {MI : DataMap Z} {P : Type} {PA : NodeAllocator P}.

(** ** State *)

Inductive payload :=
  | PNull
  | PBool (b : bool)
  | PInt (z : Z)
  | PFloat (bits : Z)
  | PString (s : bytes)
  | PArray (a : list loc)
  | PObject (m : dm bytes loc)
  | PIntMap (m : dm Z loc)
  | PBinary (b : bytes).

(** [version] is a 24-bit field, [refcount] an [atomic<uint32_t>]. *)
Record DataNode := mkNode { version : Z; refcount : Z; pay : payload }.

Record store := mkStore { cells : gmap loc DataNode; pool : P }.

Definition put (l : loc) (c : DataNode) (st : store) : store := mkStore (<[l := c]> (cells st)) (pool st).

Definition with_pay (p : payload) (c : DataNode) : DataNode := mkNode (version c) (refcount c) p.
Definition with_rc (n : Z) (c : DataNode) : DataNode := mkNode (version c) n (pay c).

(** Overwriting the union, and [version++]. *)
Definition set_pay (l : loc) (p : payload) (st : store) : option store :=
  let? c := cells st !! l in Some (put l (with_pay p c) st).
Definition bump (l : loc) (st : store) : option store :=
  let? c := cells st !! l in Some (put l (mkNode (uN 24 (version c + 1)) (refcount c) (pay c)) st).

(** ** Factory methods *)

Definition Make (p : payload) (st : store) : option (loc * store) :=
  let? (l, pl) := a_alloc (pool st) in Some (l, mkStore (<[l := mkNode 0 1 p]> (cells st)) pl).

(** The bytes of a C string: up to the first NUL. *)
Fixpoint cstr (s : bytes) : bytes :=
  match s with [] => [] | b :: s => if b =? 0 then [] else b :: cstr s end.

Definition MakeNull := Make PNull.
Definition MakeBool (v : bool) := Make (PBool v).
Definition MakeInt (v : Z) := Make (PInt v).
Definition MakeFloat (v : Z) := Make (PFloat v).
Definition MakeString (v : bytes) := Make (PString (cstr v)).
Definition MakeStringLen (v : bytes) := Make (PString v).
Definition MakeArray := Make (PArray []).
Definition MakeObject := Make (PObject dm_new).
Definition MakeIntMap := Make (PIntMap dm_new).
Definition MakeBinary (data : bytes) := Make (PBinary data).

(** ** Reference counting *)

Definition Incref (l : loc) (st : store) : option store :=
  let? c := cells st !! l in Some (put l (with_rc (uN 32 (refcount c + 1)) c) st).

Definition children (p : payload) : list loc :=
  match p with
  | PArray a => a
  | PObject m => (dm_list m).*2
  | PIntMap m => (dm_list m).*2
  | _ => []
  end.

(** A loop over a list, in the option monad. *)
Definition foldM {A S} (f : A -> S -> option S) : list A -> S -> option S :=
  fix go l s := match l with [] => Some s | x :: l => let? s := f x s in go l s end.

Fixpoint decref (fuel : nat) (node : loc) (st : store) : option store :=
  match fuel with
  | O => None
  | S fuel =>
      let? c := cells st !! node in
      let st := put node (with_rc (uN 32 (refcount c - 1)) c) st in
      if refcount c >? 1 then Some st else
      let? st := foldM (decref fuel) (children (pay c)) st in
      let? pl := a_free node (pool st) in
      Some (mkStore (delete node (cells st)) pl)
  end.

(** The sum of all reference counts bounds the nesting of [Decref] calls. *)
Definition tot (m : gmap loc DataNode) : Z := map_fold (fun _ c a => refcount c + a) 0 m.
Definition fuel_of (st : store) : nat := S (Z.to_nat (tot (cells st))).

Definition Decref (node : option loc) (st : store) : option store :=
  match node with None => Some st | Some l => decref (fuel_of st) l st end.

(** ** Maps: [Object] and [IntMap] share their code *)

Class MapPayload (K : Type) `{DataMap K} := {
  mp_get : payload -> option (dm K loc);
  mp_put : dm K loc -> payload
}.

#[export] Instance object_payload : MapPayload bytes := {|
  mp_get p := match p with PObject m => Some m | _ => None end; mp_put := PObject |}.
#[export] Instance intmap_payload : MapPayload Z := {|
  mp_get p := match p with PIntMap m => Some m | _ => None end; mp_put := PIntMap |}.

Section MapOps.

Context {K : Type} `{MapPayload K}.

Definition map_find (n : loc) (key : K) (st : store) : option (option loc) :=
  let? c := cells st !! n in
  Some (match mp_get (pay c) with None => None | Some m => dm_map m !! key end).

Definition map_contains (n : loc) (key : K) (st : store) : option bool :=
  let? c := cells st !! n in
  Some (match mp_get (pay c) with None => false | Some m => bool_decide (is_Some (dm_map m !! key)) end).

Definition map_insert (n : loc) (key : K) (val : loc) (st : store) : option store :=
  let? c := cells st !! n in
  match mp_get (pay c) with
  | None => Decref (Some val) st
  | Some m =>
      let? st := bump n st in
      match dm_map m !! key with
      | None => set_pay n (mp_put (dm_set key val m)) st
      | Some old => let? st := Decref (Some old) st in set_pay n (mp_put (dm_set key val m)) st
      end
  end.

Definition map_erase (n : loc) (key : K) (st : store) : option (bool * store) :=
  let? c := cells st !! n in
  match mp_get (pay c) with
  | None => Some (false, st)
  | Some m =>
      match dm_map m !! key with
      | None => Some (false, st)
      | Some old =>
          let? st := bump n st in
          let? st := Decref (Some old) st in
          let? st := set_pay n (mp_put (dm_erase key m)) st in Some (true, st)
      end
  end.

Definition map_size (n : loc) (st : store) : option Z :=
  let? c := cells st !! n in
  Some (match mp_get (pay c) with None => 0 | Some m => Z.of_nat (size (dm_map m)) end).

Definition map_clear (n : loc) (st : store) : option store :=
  let? c := cells st !! n in
  match mp_get (pay c) with
  | None => Some st
  | Some m =>
      let? st := bump n st in
      let? st := foldM (fun e => Decref (Some (snd e))) (dm_list m) st in
      set_pay n (mp_put (dm_clear m)) st
  end.

End MapOps.

Definition ObjFind := map_find (K := bytes).
Definition ObjContains := map_contains (K := bytes).
Definition ObjInsert := map_insert (K := bytes).
Definition ObjErase := map_erase (K := bytes).
Definition ObjSize := map_size (K := bytes).
Definition ObjClear := map_clear (K := bytes).
Definition IntMapFind := map_find (K := Z).
Definition IntMapContains := map_contains (K := Z).
Definition IntMapInsert := map_insert (K := Z).
Definition IntMapErase := map_erase (K := Z).
Definition IntMapSize := map_size (K := Z).
Definition IntMapClear := map_clear (K := Z).

(** ** DeepCopy *)

Definition push_back (n e : loc) (st : store) : option store :=
  let? c := cells st !! n in
  match pay c with PArray a => set_pay n (PArray (a ++ [e])) st | _ => None end.

Fixpoint deep_copy (fuel : nat) (l : loc) (st : store) : option (loc * store) :=
  match fuel with
  | O => None
  | S fuel =>
      let? c := cells st !! l in
      match pay c with
      | PNull => MakeNull st
      | PBool b => MakeBool b st
      | PInt z => MakeInt z st
      | PFloat z => MakeFloat z st
      | PString s => MakeString s st
      | PArray a =>
          let? (n, st) := MakeArray st in
          let? st := foldM (fun elem st =>
                       let? (e, st) := deep_copy fuel elem st in push_back n e st) a st in
          Some (n, st)
      | PObject m =>
          let? (n, st) := MakeObject st in
          let? st := foldM (fun kv st =>
                       let? (e, st) := deep_copy fuel kv.2 st in ObjInsert n kv.1 e st) (dm_list m) st in
          Some (n, st)
      | PIntMap m =>
          let? (n, st) := MakeIntMap st in
          let? st := foldM (fun kv st =>
                       let? (e, st) := deep_copy fuel kv.2 st in IntMapInsert n kv.1 e st) (dm_list m) st in
          Some (n, st)
      | PBinary b => MakeBinary b st
      end
  end.

(** An acyclic heap is no deeper than it is large. *)
Definition DeepCopy (l : loc) (st : store) : option (loc * store) := deep_copy (S (size (cells st))) l st.

(** ** Merge *)

Section Merge.

Context {K : Type} `{MapPayload K}.

Definition merge_entry (n : loc) (overwrite : bool) (kv : K * loc) (st : store) : option store :=
  let? c := cells st !! n in
  let? m := mp_get (pay c) in
  match dm_map m !! kv.1 with
  | Some old =>
      if overwrite then
        let? st := Decref (Some old) st in
        let? (e, st) := DeepCopy kv.2 st in
        set_pay n (mp_put (dm_set kv.1 e m)) st
      else Some st
  | None =>
      let? (e, st) := DeepCopy kv.2 st in
      set_pay n (mp_put (dm_set kv.1 e m)) st
  end.

Definition map_merge (n : loc) (other : option loc) (overwrite : bool) (st : store) : option store :=
  let? c := cells st !! n in
  match mp_get (pay c), other with
  | Some _, Some o =>
      let? oc := cells st !! o in
      match mp_get (pay oc) with
      | None => Some st
      | Some om => foldM (merge_entry n overwrite) (dm_list om) st
      end
  | _, _ => Some st
  end.

End Merge.

Definition ObjMerge := map_merge (K := bytes).
Definition IntMapMerge := map_merge (K := Z).

(** ** Arrays

    [index] is a [size_t]. *)

Definition ArrRemove (n : loc) (index : Z) (st : store) : option (bool * store) :=
  let? c := cells st !! n in
  match pay c with
  | PArray a =>
      if index >=? Z.of_nat (length a) then Some (false, st) else
      let? old := a !! Z.to_nat index in
      let? st := Decref (Some old) st in
      let? st := set_pay n (PArray (delete (Z.to_nat index) a)) st in Some (true, st)
  | _ => Some (false, st)
  end.

Definition ArrSet (n : loc) (index : Z) (val : loc) (st : store) : option store :=
  let? c := cells st !! n in
  match pay c with
  | PArray a =>
      if index >=? Z.of_nat (length a) then Decref (Some val) st else
      let? old := a !! Z.to_nat index in
      let? st := Decref (Some old) st in
      set_pay n (PArray (<[Z.to_nat index := val]> a)) st
  | _ => Decref (Some val) st
  end.

Definition ArrClear (n : loc) (st : store) : option store :=
  let? c := cells st !! n in
  match pay c with
  | PArray a => let? st := foldM (fun child => Decref (Some child)) a st in set_pay n (PArray []) st
  | _ => Some st
  end.

Definition ArrExtend (n : loc) (other : option loc) (st : store) : option store :=
  let? c := cells st !! n in
  match pay c, other with
  | PArray _, Some o =>
      let? oc := cells st !! o in
      match pay oc with
      | PArray b => foldM (fun elem st => let? (e, st) := DeepCopy elem st in push_back n e st) b st
      | _ => Some st
      end
  | _, _ => Some st
  end.

(** ** Equals *)

Fixpoint equals (fuel : nat) (x y : loc) (st : store) : option bool :=
  match fuel with
  | O => None
  | S fuel =>
      let? cx := cells st !! x in
      let? cy := cells st !! y in
      match pay cx, pay cy with
      | PNull, PNull => Some true
      | PBool a, PBool b => Some (Bool.eqb a b)
      | PInt a, PInt b => Some (a =? b)
      | PFloat a, PFloat b => Some (float_eq a b)
      | PString a, PString b => Some (bytes_eqb a b)
      | PArray a, PArray b =>
          if (length a =? length b)%nat then
            (fix go a b := match a, b with
               | u :: a, w :: b => let? r := equals fuel u w st in if r then go a b else Some false
               | _, _ => Some true
               end) a b
          else Some false
      | PObject m, PObject m' =>
          if (length (dm_list m) =? length (dm_list m'))%nat then
            (fix go l := match l with
               | [] => Some true
               | (k, u) :: l => match dm_map m' !! k with
                                | None => Some false
                                | Some w => let? r := equals fuel u w st in if r then go l else Some false
                                end
               end) (dm_list m)
          else Some false
      | PIntMap m, PIntMap m' =>
          if (length (dm_list m) =? length (dm_list m'))%nat then
            (fix go l := match l with
               | [] => Some true
               | (k, u) :: l => match dm_map m' !! k with
                                | None => Some false
                                | Some w => let? r := equals fuel u w st in if r then go l else Some false
                                end
               end) (dm_list m)
          else Some false
      | PBinary a, PBinary b => Some (bytes_eqb a b)
      | _, _ => Some false
      end
  end.

Definition Equals (x : loc) (other : option loc) (st : store) : option bool :=
  match other with None => Some false | Some y => equals (S (size (cells st))) x y st end.

End Nodes.
