(* ===== verification/HeaderMap.v ===== *)
(** * [src/header_map.h]: request headers

    [HeaderMap] is a [std::map] ordered by a case-insensitive comparison of the
    keys: the list of its entries in that order.  [BuildHeaderSlist] turns the
    headers of a request, and the automatic ones that it lacks, into the lines
    given to libcurl. *)

From stdpp Require Import base numbers list sorting.
From Stdlib Require Import ZArith Lia.
From S2P Require Import Prelude DataValue Float Text DataNode.

(** ** Case-insensitive order *)

(** [std::tolower] of the C locale, on an [unsigned char]. *)
Definition tolower (c : byte) : byte := if (65 <=? c) && (c <=? 90) then c + 32 else c.
Definition lower (s : bytes) : bytes := tolower <$> s.

(** [std::lexicographical_compare] with [<] on bytes. *)
Fixpoint lex_lt (a b : bytes) : bool :=
  match a, b with
  | _, [] => false
  | [], _ :: _ => true
  | x :: a, y :: b => if x <? y then true else if y <? x then false else lex_lt a b
  end.

Definition HeaderCaseInsensitive (a b : bytes) : bool := lex_lt (lower a) (lower b).

Abbreviation HeaderMap := (list (bytes * bytes)).

(** [m[key] = value]: an equivalent key keeps its spelling. *)
Fixpoint header_set (key value : bytes) (m : HeaderMap) : HeaderMap :=
  match m with
  | [] => [(key, value)]
  | (k, v) :: m' =>
      if HeaderCaseInsensitive key k then (key, value) :: m
      else if HeaderCaseInsensitive k key then (k, v) :: header_set key value m'
      else (k, value) :: m'
  end.

Definition same_name (a b : bytes) : bool := negb (HeaderCaseInsensitive a b) && negb (HeaderCaseInsensitive b a).

Definition header_erase (key : bytes) (m : HeaderMap) : HeaderMap := filter (fun e => same_name e.1 key = false) m.
Definition header_find (key : bytes) (m : HeaderMap) : option (bytes * bytes) := List.find (fun e => same_name e.1 key) m.

(** ** The lines *)

Definition StripCRLF (s : bytes) : bytes := filter (fun c => c <> 13 /\ c <> 10) s.

(** [curl_slist_append] copies the C string. *)
Definition header_line (e : bytes * bytes) : bytes := cstr (StripCRLF e.1 ++ str ": " ++ StripCRLF e.2).

Definition BuildHeaderSlist (headers : HeaderMap) (defaults : option HeaderMap) : list bytes :=
  (header_line <$> headers) ++
  match defaults with
  | Some ds => header_line <$> filter (fun e => header_find e.1 headers = None) ds
  | None => []
  end.

(** ** The order is a strict total order on the lower-case names *)

Lemma lex_lt_irrefl a : lex_lt a a = false.
Proof. induction a as [|x a IH]; [done|]. simpl. by rewrite Z.ltb_irrefl. Qed.

Lemma lex_lt_trans a : forall b c, lex_lt a b = true -> lex_lt b c = true -> lex_lt a c = true.
Proof.
  induction a as [|x a IH]; intros [|y b] [|z c]; simpl; try done.
  destruct (Z.ltb_spec x y), (Z.ltb_spec y x), (Z.ltb_spec y z), (Z.ltb_spec z y), (Z.ltb_spec x z), (Z.ltb_spec z x);
    try done; try lia. apply IH.
Qed.

Lemma lex_lt_total a : forall b, lex_lt a b = false -> lex_lt b a = false -> a = b.
Proof.
  induction a as [|x a IH]; intros [|y b]; simpl; try done.
  destruct (Z.ltb_spec x y), (Z.ltb_spec y x); try done; try lia. intros H1 H2. f_equal; [lia|by apply IH].
Qed.

Lemma same_name_spec a b : same_name a b = true <-> lower a = lower b.
Proof.
  unfold same_name, HeaderCaseInsensitive. rewrite andb_true_iff, !negb_true_iff. split.
  - intros [H1 H2]. by apply lex_lt_total.
  - intros ->. by rewrite lex_lt_irrefl.
Qed.

Lemma same_name_false a b : same_name a b = false <-> lower a <> lower b.
Proof. rewrite <- not_true_iff_false. by rewrite same_name_spec. Qed.

(** ** Maps *)

Definition before (a b : bytes * bytes) : Prop := HeaderCaseInsensitive a.1 b.1 = true.
Definition header_wf (m : HeaderMap) : Prop := StronglySorted before m.

Lemma before_lower e f : before e f -> lower e.1 <> lower f.1.
Proof. unfold before, HeaderCaseInsensitive. intros H E. by rewrite E, lex_lt_irrefl in H. Qed.

Lemma set_elem key value m e : e ∈ header_set key value m -> e ∈ m \/ e.2 = value /\ (e.1 = key \/ exists v, (e.1, v) ∈ m).
Proof.
  induction m as [|[k v] m IH]; simpl.
  - intros ->%list_elem_of_singleton. right. by split; [|left].
  - destruct (HeaderCaseInsensitive key k) eqn:E1; [|destruct (HeaderCaseInsensitive k key) eqn:E2];
      (intros [->|He]%elem_of_cons; [|try (left; by constructor)]).
    + right. by split; [|left].
    + by left.
    + left. constructor.
    + destruct (IH He) as [?|(? & [?|(v' & ?)])]; [left; by constructor|by right; split; [|left]|].
      right. split; [done|]. right. exists v'. by constructor.
    + right. split; [done|]. right. exists v. constructor.
Qed.

Lemma header_set_wf key value m : header_wf m -> header_wf (header_set key value m).
Proof.
  induction m as [|[k v] m IH]; intros Hm; simpl.
  - repeat constructor.
  - apply StronglySorted_inv in Hm as [Hm HF]. pose proof (proj1 (Forall_forall _ _) HF) as Hin.
    destruct (HeaderCaseInsensitive key k) eqn:E1; [|destruct (HeaderCaseInsensitive k key) eqn:E2].
    + constructor; [by constructor|]. constructor; [done|]. apply Forall_forall. intros e He.
      eapply lex_lt_trans; [exact E1|]. by apply Hin.
    + constructor; [by apply IH|]. apply Forall_forall. intros e [He|(_ & [Ek|(v' & He)])]%set_elem.
      * by apply Hin.
      * unfold before. by rewrite Ek.
      * apply (Hin (e.1, v')). done.
    + constructor; [done|]. apply Forall_forall. intros e He. by apply Hin.
Qed.

Lemma header_erase_wf key m : header_wf m -> header_wf (header_erase key m).
Proof.
  induction 1 as [|e m Hm IH HF]; [constructor|]. unfold header_erase in *. rewrite filter_cons. case_decide; [|done].
  constructor; [done|]. apply Forall_forall. intros x [_ Hx]%list_elem_of_filter. rewrite Forall_forall in HF. by apply HF.
Qed.

Lemma find_cons key e m : header_find key (e :: m) = if same_name e.1 key then Some e else header_find key m.
Proof. done. Qed.

Lemma find_after e m key : Forall (before e) m -> same_name e.1 key = true -> header_find key m = None.
Proof.
  intros HF Hk. unfold header_find. induction HF as [|f m Hf HF IH]; [done|]. cbn [List.find]. apply before_lower in Hf. apply same_name_spec in Hk.
  destruct (same_name f.1 key) eqn:E; [|done]. apply same_name_spec in E. congruence.
Qed.

Lemma header_find_set key value m k : header_wf m ->
  snd <$> header_find k (header_set key value m) =
  if same_name key k then Some value else snd <$> header_find k m.
Proof.
  induction m as [|[k' v] m IH]; intros Hm; simpl header_set.
  - rewrite find_cons. simpl. by destruct (same_name key k).
  - apply StronglySorted_inv in Hm as [Hm HF].
    destruct (HeaderCaseInsensitive key k') eqn:E1; [|destruct (HeaderCaseInsensitive k' key) eqn:E2].
    + rewrite (find_cons _ (key, value)). simpl. by destruct (same_name key k).
    + rewrite !(find_cons _ (k', v)). simpl. destruct (same_name k' k) eqn:Ek; [|by apply IH].
      destruct (same_name key k) eqn:Ek'; [|done]. apply same_name_spec in Ek, Ek'.
      unfold HeaderCaseInsensitive in E2. by rewrite Ek, <- Ek', lex_lt_irrefl in E2.
    + assert (lower k' = lower key) as El by (by apply lex_lt_total).
      rewrite (find_cons _ (k', value)), (find_cons _ (k', v)). simpl.
      assert (same_name k' k = same_name key k) as -> by (unfold same_name, HeaderCaseInsensitive; by rewrite El).
      by destruct (same_name key k).
Qed.

Lemma header_find_erase key m k :
  header_find k (header_erase key m) = if same_name key k then None else header_find k m.
Proof.
  induction m as [|e m IH]; [by destruct (same_name key k)|]. unfold header_erase in *. rewrite filter_cons, find_cons.
  destruct (same_name e.1 key) eqn:E; case_decide as Hd; try congruence; [rewrite IH|rewrite find_cons, IH].
  - apply same_name_spec in E. unfold same_name, HeaderCaseInsensitive. rewrite E.
    by destruct (negb (lex_lt (lower key) (lower k)) && negb (lex_lt (lower k) (lower key))).
  - destruct (same_name e.1 k) eqn:Ek; [|done]. destruct (same_name key k) eqn:Ek'; [|done].
    apply same_name_spec in Ek, Ek'. apply same_name_false in E. congruence.
Qed.
