(* ===== verification/WsConnection.v ===== *)
(** * [src/ws_connection.h], [src/ws_connection.cpp]: WebSocket connections

    The members of a connection, the operations the game thread queues, the
    events that go back, and what the event loop keeps: the table of
    connections, libuv's timers and polls, libcurl's easy handles. *)

From stdpp Require Import base numbers list gmap.
From Stdlib Require Import ZArith Lia.
From S2P Require Import Prelude LockedQueue NodePool HeaderMap.

Module Ws.

Inductive WsState := CREATED | CONNECTING | CONNECTED | CLOSING | CLOSED | RECONNECTING.

#[export] Instance WsState_eq_dec : EqDecision WsState.
Proof. solve_decision. Defined.

(** [static_cast<cell_t>(conn->state)] *)
Definition state_cell (s : WsState) : Z :=
  match s with CREATED => 0 | CONNECTING => 1 | CONNECTED => 2 | CLOSING => 3 | CLOSED => 4 | RECONNECTING => 5 end.

Record WsConnection := mkConn {
  curl_handle : option positive;
  uv_poll : option positive;
  handle_id : Z;
  plugin_context : positive;
  userdata : Z;
  handle_closed : bool;
  state : WsState;
  on_connect : Z;
  on_message : Z;
  on_error : Z;
  on_close : Z;
  on_pong : Z;
  headers_ : HeaderMap;
  built_headers_ : list bytes;              (* null for none *)
  max_message_size : Z;
  auto_pong : bool;
  ping_interval : Z;
  close_timeout : Z;
  ssl_verifypeer : bool;
  ssl_verifyhost : bool;
  parse_messages : Z;
  connect_timeout_ms : Z;
  message_buf_ : bytes;
  is_binary_message_ : bool;
  in_fragmented_message_ : bool;
  close_sent_ : bool;
  close_timer_ : option positive;
  close_event_pushed_ : bool;
  ping_timer_ : option positive;
  max_reconnects : Z;
  reconnect_delay_ms : Z;
  reconnect_backoff : Z;                    (* float, as its 32-bit pattern *)
  reconnect_max_delay_ms : Z;
  reconnect_count : Z;
  reconnect_timer_ : option positive;
  url_ : bytes
}.

Definition eta (c : WsConnection) : WsConnection :=
  mkConn (curl_handle c) (uv_poll c) (handle_id c) (plugin_context c) (userdata c) (handle_closed c) (state c) (on_connect c) (on_message c)
    (on_error c) (on_close c) (on_pong c) (headers_ c) (built_headers_ c) (max_message_size c) (auto_pong c) (ping_interval c) (close_timeout c)
    (ssl_verifypeer c) (ssl_verifyhost c) (parse_messages c) (connect_timeout_ms c) (message_buf_ c) (is_binary_message_ c)
    (in_fragmented_message_ c) (close_sent_ c) (close_timer_ c) (close_event_pushed_ c) (ping_timer_ c) (max_reconnects c)
    (reconnect_delay_ms c) (reconnect_backoff c) (reconnect_max_delay_ms c) (reconnect_count c) (reconnect_timer_ c) (url_ c).

Ltac setter p :=
  let x := fresh "x" in let s := fresh "s" in intros x s;
  let t := eval cbv beta delta [eta] in (eta s) in
  let t := eval pattern (p s) in t in
  lazymatch t with ?F _ => let u := eval cbv beta in (F x) in exact u end.

Definition set_curl : option positive -> WsConnection -> WsConnection := ltac:(setter curl_handle).
Definition set_poll : option positive -> WsConnection -> WsConnection := ltac:(setter uv_poll).
Definition set_handle_id : Z -> WsConnection -> WsConnection := ltac:(setter handle_id).
Definition set_handle_closed : bool -> WsConnection -> WsConnection := ltac:(setter handle_closed).
Definition set_state : WsState -> WsConnection -> WsConnection := ltac:(setter state).
Definition set_on_connect : Z -> WsConnection -> WsConnection := ltac:(setter on_connect).
Definition set_on_message : Z -> WsConnection -> WsConnection := ltac:(setter on_message).
Definition set_on_error : Z -> WsConnection -> WsConnection := ltac:(setter on_error).
Definition set_on_close : Z -> WsConnection -> WsConnection := ltac:(setter on_close).
Definition set_on_pong : Z -> WsConnection -> WsConnection := ltac:(setter on_pong).
Definition set_headers : HeaderMap -> WsConnection -> WsConnection := ltac:(setter headers_).
Definition set_built : list bytes -> WsConnection -> WsConnection := ltac:(setter built_headers_).
Definition set_max_message_size : Z -> WsConnection -> WsConnection := ltac:(setter max_message_size).
Definition set_auto_pong : bool -> WsConnection -> WsConnection := ltac:(setter auto_pong).
Definition set_ping_interval : Z -> WsConnection -> WsConnection := ltac:(setter ping_interval).
Definition set_close_timeout : Z -> WsConnection -> WsConnection := ltac:(setter close_timeout).
Definition set_verifypeer : bool -> WsConnection -> WsConnection := ltac:(setter ssl_verifypeer).
Definition set_verifyhost : bool -> WsConnection -> WsConnection := ltac:(setter ssl_verifyhost).
Definition set_parse_messages : Z -> WsConnection -> WsConnection := ltac:(setter parse_messages).
Definition set_connect_timeout : Z -> WsConnection -> WsConnection := ltac:(setter connect_timeout_ms).
Definition set_message_buf : bytes -> WsConnection -> WsConnection := ltac:(setter message_buf_).
Definition set_is_binary : bool -> WsConnection -> WsConnection := ltac:(setter is_binary_message_).
Definition set_fragmented : bool -> WsConnection -> WsConnection := ltac:(setter in_fragmented_message_).
Definition set_close_sent : bool -> WsConnection -> WsConnection := ltac:(setter close_sent_).
Definition set_close_timer : option positive -> WsConnection -> WsConnection := ltac:(setter close_timer_).
Definition set_close_pushed : bool -> WsConnection -> WsConnection := ltac:(setter close_event_pushed_).
Definition set_ping_timer : option positive -> WsConnection -> WsConnection := ltac:(setter ping_timer_).
Definition set_max_reconnects : Z -> WsConnection -> WsConnection := ltac:(setter max_reconnects).
Definition set_reconnect_delay : Z -> WsConnection -> WsConnection := ltac:(setter reconnect_delay_ms).
Definition set_reconnect_backoff : Z -> WsConnection -> WsConnection := ltac:(setter reconnect_backoff).
Definition set_reconnect_max_delay : Z -> WsConnection -> WsConnection := ltac:(setter reconnect_max_delay_ms).
Definition set_reconnect_count : Z -> WsConnection -> WsConnection := ltac:(setter reconnect_count).
Definition set_reconnect_timer : option positive -> WsConnection -> WsConnection := ltac:(setter reconnect_timer_).
Definition set_url : bytes -> WsConnection -> WsConnection := ltac:(setter url_).

(** The members with their initial values. *)
Definition new_WsConnection (ctx : positive) (userdata : Z) : WsConnection :=
  mkConn None None 0 ctx userdata false CREATED 0 0 0 0 0 [] [] (16 * 1024 * 1024) true 0 5 true true 0 10000 [] false false false None false None
    0 1000 1073741824 30000 0 None [].

Definition SetHeader (key value : bytes) (c : WsConnection) : WsConnection := set_headers (header_set key value (headers_ c)) c.
Definition RemoveHeader (key : bytes) (c : WsConnection) : WsConnection := set_headers (header_erase key (headers_ c)) c.
Definition ClearHeaders (c : WsConnection) : WsConnection := set_headers [] c.

(** ** Operations and events *)

Inductive SendType := SEND_TEXT | SEND_BINARY | SEND_PING | SEND_JSON | SEND_MSGPACK.

(** What is sent: bytes, or nodes that are serialized on the event thread. *)
Inductive WsOp :=
  | CONNECT (id : Z) (url : bytes) (conn_ptr : positive)
  | SEND (type : SendType) (id : Z) (data : bytes) (body_node : option loc)
  | CLOSE (id : Z) (close_code : Z) (close_reason : bytes)
  | SET_OPTION (id : Z) (option_id option_value : Z).

Inductive WsEventType := WS_CONNECTED | WS_MESSAGE | WS_ERROR | WS_CLOSED | WS_PONG.

#[export] Instance WsEventType_eq_dec : EqDecision WsEventType.
Proof. solve_decision. Defined.

(** The members of a [SocketEvent] that WebSockets use. *)
Record WsEvent := mkEvent {
  e_type : WsEventType;
  e_handle_id : Z;
  e_plugin_ctx : positive;
  e_callback : Z;
  e_data : bytes;
  e_error_code : Z;
  e_error_msg : bytes;
  e_userdata : Z;
  e_handle_closed : bool;
  e_is_binary : bool;
  e_parsed_node : option loc;
  e_parse_mode : Z;
  e_error_callback : Z
}.

Definition MakeSocketEvent (t : WsEventType) (id : Z) (ctx : positive) (callback userdata : Z) (closed : bool) : WsEvent :=
  mkEvent t id ctx callback [] 0 [] userdata closed false None 0 0.

Definition MakeErrorEvent (t : WsEventType) (id : Z) (ctx : positive) (callback userdata : Z) (closed : bool) (code : Z) (msg : bytes) : WsEvent :=
  mkEvent t id ctx callback [] code msg userdata closed false None 0 0.

(** ** The event loop

    libuv's active timers and polls with what their [data] points to, and a
    timer's delay and repeat; libcurl's easy handles with their private pointer;
    the frames given to [curl_ws_send]. *)
Inductive TimerKind := T_close | T_ping | T_reconnect.

#[export] Instance TimerKind_eq_dec : EqDecision TimerKind.
Proof. solve_decision. Defined.

Record uv_timer_t := mkTimer { t_kind : TimerKind; t_data : positive; t_timeout : Z; t_repeat : Z }.

(** The flags of [curl_ws_send] and [curl_ws_frame]. *)
Definition CURLWS_TEXT : Z := 1.
Definition CURLWS_BINARY : Z := 2.
Definition CURLWS_CONT : Z := 4.
Definition CURLWS_CLOSE : Z := 8.
Definition CURLWS_PING : Z := 16.
Definition CURLWS_PONG : Z := 64.

Record WsLoop := mkWs {
  ws_op_queue : LockedQueue WsOp;
  ws_events : LockedQueue WsEvent;
  ws_connections_ : gmap Z positive;
  ws_curl_handles_ : gset positive;
  ws_reconnect_timers_ : gset positive;
  timers : gmap positive uv_timer_t;
  polls : gmap positive positive;
  easies : gmap positive positive;
  sent : list (positive * Z * bytes)
}.

Definition new_WsLoop : WsLoop := mkWs new_LockedQueue new_LockedQueue ∅ ∅ ∅ ∅ ∅ ∅ [].

Definition loop_eta (t : WsLoop) : WsLoop :=
  mkWs (ws_op_queue t) (ws_events t) (ws_connections_ t) (ws_curl_handles_ t) (ws_reconnect_timers_ t) (timers t) (polls t) (easies t) (sent t).

Ltac loop_setter p :=
  let x := fresh "x" in let s := fresh "s" in intros x s;
  let t := eval cbv beta delta [loop_eta] in (loop_eta s) in
  let t := eval pattern (p s) in t in
  lazymatch t with ?F _ => let u := eval cbv beta in (F x) in exact u end.

Definition set_ops : LockedQueue WsOp -> WsLoop -> WsLoop := ltac:(loop_setter ws_op_queue).
Definition set_events : LockedQueue WsEvent -> WsLoop -> WsLoop := ltac:(loop_setter ws_events).
Definition set_connections : gmap Z positive -> WsLoop -> WsLoop := ltac:(loop_setter ws_connections_).
Definition set_curl_handles : gset positive -> WsLoop -> WsLoop := ltac:(loop_setter ws_curl_handles_).
Definition set_reconnect_timers : gset positive -> WsLoop -> WsLoop := ltac:(loop_setter ws_reconnect_timers_).
Definition set_timers : gmap positive uv_timer_t -> WsLoop -> WsLoop := ltac:(loop_setter timers).
Definition set_polls : gmap positive positive -> WsLoop -> WsLoop := ltac:(loop_setter polls).
Definition set_easies : gmap positive positive -> WsLoop -> WsLoop := ltac:(loop_setter easies).
Definition set_sent : list (positive * Z * bytes) -> WsLoop -> WsLoop := ltac:(loop_setter sent).

End Ws.
