(* ===== verification/HttpRequest.v ===== *)
(** * [src/http_request.h], [src/http_request.cpp]: one HTTP request

    The members of [HttpRequest] and the methods that touch nothing else; the
    methods that use nodes, the handle table or the event loop are in
    [NativesHttp] and [HttpLoop].  A libcurl easy handle is a positive number,
    a [DataNode*] a location of the node heap.  Also here: the pool of easy
    handles, the delay before a retry and the two receive callbacks of
    [src/event_loop.cpp], which only fill a request. *)

From stdpp Require Import base numbers list gmap.
From Stdlib Require Import ZArith Lia.
From S2P Require Import Prelude NodePool DataMap DataValue Float Text DataNode HeaderMap.

Definition CURLE_OK : Z := 0.
Definition CURLE_ABORTED_BY_CALLBACK : Z := 42.

Inductive BodyFormat := NONE | JSON | MSGPACK.

Record HttpRequest := mkRequest {
  curl : option positive;
  curlcode : Z;
  headers_ : HeaderMap;
  built_headers_ : list bytes;             (* curl_slist, [] is nullptr *)
  auto_headers_ : HeaderMap;
  response_headers : gmap bytes bytes;
  response_body : bytes;
  method : bytes;
  post_body : bytes;
  compress_body : bool;
  compress_min_size : Z;
  plugin_context : positive;
  callback_id : Z;
  handle_id : Z;
  userdata : Z;
  client_index : Z;
  in_event_thread : bool;
  handle_closed : bool;
  completed : bool;
  max_retries : Z;
  retry_count : Z;
  retry_delay_ms : Z;
  retry_backoff : Z;                       (* float, as its 32-bit pattern *)
  retry_max_delay_ms : Z;
  in_retry_wait : bool;
  log_retries : bool;
  body_node : option loc;
  body_format : BodyFormat;
  response_node : option loc;
  parse_mode : Z
}.

(** ** Assigning a member *)

Definition eta (r : HttpRequest) : HttpRequest :=
  mkRequest (curl r) (curlcode r) (headers_ r) (built_headers_ r) (auto_headers_ r) (response_headers r)
    (response_body r) (method r) (post_body r) (compress_body r) (compress_min_size r) (plugin_context r)
    (callback_id r) (handle_id r) (userdata r) (client_index r) (in_event_thread r) (handle_closed r) (completed r)
    (max_retries r) (retry_count r) (retry_delay_ms r) (retry_backoff r) (retry_max_delay_ms r) (in_retry_wait r)
    (log_retries r) (body_node r) (body_format r) (response_node r) (parse_mode r).

(** The function that replaces the member [p]. *)
Ltac setter p :=
  let x := fresh "x" in let r := fresh "r" in intros x r;
  let t := eval cbv beta delta [eta] in (eta r) in
  let t := eval pattern (p r) in t in
  lazymatch t with ?F _ => let u := eval cbv beta in (F x) in exact u end.

Definition set_curl : option positive -> HttpRequest -> HttpRequest := ltac:(setter curl).
Definition set_curlcode : Z -> HttpRequest -> HttpRequest := ltac:(setter curlcode).
Definition set_headers : HeaderMap -> HttpRequest -> HttpRequest := ltac:(setter headers_).
Definition set_built : list bytes -> HttpRequest -> HttpRequest := ltac:(setter built_headers_).
Definition set_auto : HeaderMap -> HttpRequest -> HttpRequest := ltac:(setter auto_headers_).
Definition set_response_headers : gmap bytes bytes -> HttpRequest -> HttpRequest := ltac:(setter response_headers).
Definition set_response_body : bytes -> HttpRequest -> HttpRequest := ltac:(setter response_body).
Definition set_method : bytes -> HttpRequest -> HttpRequest := ltac:(setter method).
Definition set_post_body : bytes -> HttpRequest -> HttpRequest := ltac:(setter post_body).
Definition set_compress_body : bool -> HttpRequest -> HttpRequest := ltac:(setter compress_body).
Definition set_compress_min_size : Z -> HttpRequest -> HttpRequest := ltac:(setter compress_min_size).
Definition set_callback_id : Z -> HttpRequest -> HttpRequest := ltac:(setter callback_id).
Definition set_handle_id : Z -> HttpRequest -> HttpRequest := ltac:(setter handle_id).
Definition set_userdata : Z -> HttpRequest -> HttpRequest := ltac:(setter userdata).
Definition set_client_index : Z -> HttpRequest -> HttpRequest := ltac:(setter client_index).
Definition set_in_event_thread : bool -> HttpRequest -> HttpRequest := ltac:(setter in_event_thread).
Definition set_handle_closed : bool -> HttpRequest -> HttpRequest := ltac:(setter handle_closed).
Definition set_completed : bool -> HttpRequest -> HttpRequest := ltac:(setter completed).
Definition set_max_retries : Z -> HttpRequest -> HttpRequest := ltac:(setter max_retries).
Definition set_retry_count : Z -> HttpRequest -> HttpRequest := ltac:(setter retry_count).
Definition set_retry_delay_ms : Z -> HttpRequest -> HttpRequest := ltac:(setter retry_delay_ms).
Definition set_retry_backoff : Z -> HttpRequest -> HttpRequest := ltac:(setter retry_backoff).
Definition set_retry_max_delay_ms : Z -> HttpRequest -> HttpRequest := ltac:(setter retry_max_delay_ms).
Definition set_in_retry_wait : bool -> HttpRequest -> HttpRequest := ltac:(setter in_retry_wait).
Definition set_log_retries : bool -> HttpRequest -> HttpRequest := ltac:(setter log_retries).
Definition set_body_node : option loc -> HttpRequest -> HttpRequest := ltac:(setter body_node).
Definition set_body_format : BodyFormat -> HttpRequest -> HttpRequest := ltac:(setter body_format).
Definition set_response_node : option loc -> HttpRequest -> HttpRequest := ltac:(setter response_node).
Definition set_parse_mode : Z -> HttpRequest -> HttpRequest := ltac:(setter parse_mode).

(** ** Methods *)

(** The bit pattern of [2.0f]. *)
Definition f32_two : Z := 0x40000000.

Definition new_HttpRequest (c : positive) (plugin : positive) : HttpRequest :=
  mkRequest (Some c) (-1) [] [] [] ∅ [] [] [] false 0 plugin 0 0 0 0 false false false 0 0 1000 f32_two 30000 false
    false None NONE None 0.

Definition SetHeader (key value : bytes) (r : HttpRequest) : HttpRequest := set_headers (header_set key value (headers_ r)) r.
Definition RemoveHeader (key : bytes) (r : HttpRequest) : HttpRequest := set_headers (header_erase key (headers_ r)) r.
Definition ClearHeaders (r : HttpRequest) : HttpRequest := set_headers [] r.

Definition PrepareForSend (r : HttpRequest) : HttpRequest := set_in_event_thread true r.

(** [SetupCurl] once the body is serialized; [compress2] is zlib's (the result
    of [CompressDeflate]). *)
Definition compress_step (compress2 : bytes -> option bytes) (r : HttpRequest) : HttpRequest :=
  match post_body r with
  | [] => r
  | body =>
      if compress_body r && (compress_min_size r <=? Z.of_nat (length body)) then
        match compress2 body with
        | Some z => set_auto (header_set (str "Content-Encoding") (str "deflate") (auto_headers_ r)) (set_post_body z r)
        | None => r
        end
      else r
  end.
Definition finish_setup (compress2 : bytes -> option bytes) (r : HttpRequest) : HttpRequest :=
  let r := compress_step compress2 r in
  let r := match post_body r with [] => r | _ => set_auto (header_set (str "Expect") [] (auto_headers_ r)) r end in
  set_built (BuildHeaderSlist (headers_ r) (Some (auto_headers_ r))) r.

Definition OnCompleted (r : HttpRequest) : HttpRequest := if in_retry_wait r then r else set_post_body [] r.

Definition ShouldRetry (httpcode : Z) (r : HttpRequest) : bool :=
  if (max_retries r =? 0) || ((max_retries r >? 0) && (retry_count r >=? max_retries r)) then false
  else if handle_closed r then false
  else if negb (curlcode r =? CURLE_OK) then true
  else if httpcode =? 429 then true
  else (httpcode >=? 500) && (httpcode <? 600).

(** [PrepareForRetry] but for the release of [response_node]. *)
Definition reset_for_retry (r : HttpRequest) : HttpRequest :=
  set_in_retry_wait true (set_completed false (set_curlcode (-1)
    (set_response_headers ∅ (set_response_body [] (set_retry_count (sN 32 (retry_count r + 1)) r))))).

(** ** The pool of easy handles *)

Definition kMinPool : Z := 16.

Record CurlPool := mkCurlPool { g_curl_pool : list positive; g_curl_outstanding : Z }.

(** [fresh] is the result of [curl_easy_init]. *)
Definition AcquireCurl (fresh : option positive) (p : CurlPool) : option positive * CurlPool :=
  let outstanding := uN 64 (g_curl_outstanding p + 1) in
  match rev (g_curl_pool p) with
  | c :: rest => (Some c, mkCurlPool (rev rest) outstanding)
  | [] => (fresh, mkCurlPool [] outstanding)
  end.

Definition ReleaseCurl (c : positive) (p : CurlPool) : CurlPool :=
  let outstanding := uN 64 (g_curl_outstanding p - 1) in
  let cap := if outstanding >? kMinPool then outstanding else kMinPool in
  mkCurlPool (if Z.of_nat (length (g_curl_pool p)) <? cap then g_curl_pool p ++ [c] else g_curl_pool p) outstanding.

Definition DrainCurlPool (p : CurlPool) : CurlPool := mkCurlPool [] (g_curl_outstanding p).

(** ** The delay before a retry

    [scaled] is [retry_delay_ms * pow(retry_backoff, retry_count - 1)] converted
    to [int]; the delay is then drawn uniformly from [[0, retry_delay]]. *)
Definition retry_delay (scaled max : Z) : Z :=
  let delay := if scaled >? max then max else scaled in
  if delay <? 0 then max else delay.

(** ** Receiving *)

Definition OnReceiveData (contents : bytes) (r : HttpRequest) : HttpRequest :=
  set_response_body (response_body r ++ contents) r.

Definition is_blank (c : byte) : bool := (c =? 32) || (c =? 9).
Definition is_space (c : byte) : bool := (c =? 13) || (c =? 10) || (c =? 32) || (c =? 9).

Fixpoint drop_while (p : byte -> bool) (s : bytes) : bytes :=
  match s with c :: s' => if p c then drop_while p s' else s | [] => [] end.
Definition trim_end (p : byte -> bool) (s : bytes) : bytes := rev (drop_while p (rev s)).

(** The text before and after the first colon. *)
Fixpoint split_colon (s : bytes) : option (bytes * bytes) :=
  match s with
  | [] => None
  | c :: s => if c =? 58 then Some ([], s) else let? (a, b) := split_colon s in Some (c :: a, b)
  end.

Definition OnReceiveHeaders (buffer : bytes) (r : HttpRequest) : HttpRequest :=
  match split_colon buffer with
  | None => r
  | Some (name, rest) =>
      set_response_headers (<[lower name := trim_end is_space (drop_while is_blank rest)]> (response_headers r)) r
  end.

(** [FindResponseHeader] of [src/natives_http.cpp]. *)
Definition FindResponseHeader (name : bytes) (r : HttpRequest) : option bytes := response_headers r !! lower name.

(** ** Headers *)

(** The calls of a plugin that change the headers of a request. *)
Inductive header_call := CSet (key value : bytes) | CRemove (key : bytes) | CClear.

Definition header_step (r : HttpRequest) (c : header_call) : HttpRequest :=
  match c with CSet k v => SetHeader k v r | CRemove k => RemoveHeader k r | CClear => ClearHeaders r end.

(** What a header is set to: the last call decides, names compare without case. *)
Definition wanted (k : bytes) (old : option bytes) (c : header_call) : option bytes :=
  match c with
  | CSet k' v => if decide (lower k' = lower k) then Some v else old
  | CRemove k' => if decide (lower k' = lower k) then None else old
  | CClear => None
  end.

Lemma same_name_decide {A} a b (x y : A) : (if same_name a b then x else y) = if decide (lower a = lower b) then x else y.
Proof.
  destruct (same_name a b) eqn:E; [apply same_name_spec in E; by rewrite decide_True|].
  apply same_name_false in E. by rewrite decide_False.
Qed.

Lemma header_calls_spec cs : forall r, header_wf (headers_ r) ->
  header_wf (headers_ (foldl header_step r cs)) /\
  forall k, snd <$> header_find k (headers_ (foldl header_step r cs)) =
            foldl (wanted k) (snd <$> header_find k (headers_ r)) cs.
Proof.
  induction cs as [|c cs IH]; intros r Hr; [done|]. cbn [foldl].
  assert (header_wf (headers_ (header_step r c)) /\
    forall k, snd <$> header_find k (headers_ (header_step r c)) = wanted k (snd <$> header_find k (headers_ r)) c) as [H1 H2].
  { destruct c as [k v|k|]; cbn [header_step headers_ SetHeader RemoveHeader ClearHeaders set_headers wanted].
    - split; [by apply header_set_wf|]. intros k'. by rewrite header_find_set, same_name_decide.
    - split; [by apply header_erase_wf|]. intros k'. rewrite header_find_erase.
      destruct (same_name k k') eqn:E; [apply same_name_spec in E; by rewrite decide_True|].
      apply same_name_false in E. by rewrite decide_False.
    - split; [constructor|done]. }
  destruct (IH (header_step r c) H1) as [H3 H4]. split; [done|]. intros k. by rewrite H4, H2.
Qed.

Definition clean_line (l : bytes) : Prop := Forall (fun c => c <> 13 /\ c <> 10 /\ c <> 0) l.

Lemma cstr_sub (P : Z -> Prop) s : Forall P s -> Forall (fun c => P c /\ c <> 0) (cstr s).
Proof.
  induction 1 as [|c s Hc HF IH]; [constructor|]. cbn [cstr]. destruct (Z.eqb_spec c 0); [constructor|]. by constructor.
Qed.

Lemma header_line_clean e : clean_line (header_line e).
Proof.
  unfold header_line, clean_line. eapply Forall_impl; [apply (cstr_sub (fun c => c <> 13 /\ c <> 10))|].
  - rewrite !Forall_app. split_and!; [|by repeat constructor|]; apply Forall_forall; intros c Hc;
      unfold StripCRLF in Hc; by apply list_elem_of_filter in Hc as [? _].
  - cbv beta. intros c [[? ?] ?]. done.
Qed.

(** The headers that are sent: the plugin's, and the automatic ones it did not set. *)
Definition sent_headers (r : HttpRequest) : HeaderMap :=
  headers_ r ++ filter (fun e => header_find e.1 (headers_ r) = None) (auto_headers_ r).

Lemma header_wf_names m : header_wf m -> NoDup (lower <$> m.*1).
Proof.
  induction 1 as [|e m Hm IH HF]; [constructor|]. simpl. constructor; [|done].
  intros (k & E & (f & -> & Hf)%list_elem_of_fmap)%list_elem_of_fmap. rewrite Forall_forall in HF.
  by apply (before_lower e f (HF f Hf)).
Qed.

Lemma find_None_names k m : header_find k m = None -> lower k ∉ lower <$> m.*1.
Proof.
  induction m as [|e m IH]; [by intros _ ?%not_elem_of_nil|]. rewrite find_cons.
  destruct (same_name e.1 k) eqn:E; [done|]. intros Hf. simpl. rewrite elem_of_cons. intros [El|Hin]; [|by apply IH].
  apply same_name_false in E. congruence.
Qed.

Lemma sent_headers_names r : header_wf (headers_ r) -> header_wf (auto_headers_ r) -> NoDup (lower <$> (sent_headers r).*1).
Proof.
  intros H1 H2%header_wf_names. unfold sent_headers. rewrite !fmap_app. apply list.NoDup_app. split_and!.
  - by apply header_wf_names.
  - intros n Hn (k & -> & (f & -> & [Hf _]%list_elem_of_filter)%list_elem_of_fmap)%list_elem_of_fmap.
    by apply find_None_names in Hf.
  - eapply sublist_NoDup; [exact H2|]. do 2 apply fmap_sublist. apply sublist_filter.
Qed.

Lemma finish_setup_headers compress2 r : header_wf (auto_headers_ r) ->
  let r' := finish_setup compress2 r in
  headers_ r' = headers_ r /\ header_wf (auto_headers_ r') /\ built_headers_ r' = header_line <$> sent_headers r'.
Proof.
  intros Ha. unfold finish_setup. set (r1 := compress_step compress2 r).
  assert (headers_ r1 = headers_ r /\ header_wf (auto_headers_ r1)) as [E1 H1].
  { unfold r1, compress_step. destruct (post_body r); [done|]. destruct (_ && _); [|done]. destruct (compress2 _); [|done].
    split; [done|]. by apply header_set_wf. }
  set (r2 := match post_body r1 with [] => r1 | _ => _ end).
  assert (headers_ r2 = headers_ r /\ header_wf (auto_headers_ r2)) as [E2 H2].
  { unfold r2. destruct (post_body r1); [done|]. split; [done|]. by apply header_set_wf. }
  cbn. split_and!; [done|done|]. unfold BuildHeaderSlist, sent_headers. by rewrite fmap_app.
Qed.

(** The headers libcurl is given are the ones the plugin asked for.  After any
    calls of [SetHeader], [RemoveHeader] and [ClearHeaders] each name (compared
    without case) has the value of the last call about it; [SetupCurl] sends
    one line per name, a header of the plugin taking precedence over the
    automatic one of the same name; and no line contains a carriage return or
    line feed, whatever the plugin put into names and values. *)
Theorem headers_to_curl (compress2 : bytes -> option bytes) (c ctx : positive) (body : bytes) (compress : bool)
    (cs : list header_call) :
  let r := finish_setup compress2
             (set_compress_body compress (set_post_body body (foldl header_step (new_HttpRequest c ctx) cs))) in
  (forall k, snd <$> header_find k (headers_ r) = foldl (wanted k) None cs) /\
  built_headers_ r = header_line <$> sent_headers r /\
  NoDup (lower <$> (sent_headers r).*1) /\
  Forall clean_line (built_headers_ r).
Proof.
  set (r0 := foldl header_step _ cs). set (r1 := set_compress_body compress _).
  destruct (header_calls_spec cs (new_HttpRequest c ctx)) as [Hwf Hfind]; [constructor|]. fold r0 in Hwf, Hfind.
  assert (auto_headers_ r1 = []) as Ea.
  { change (auto_headers_ r0 = []). unfold r0. clear. assert (auto_headers_ (new_HttpRequest c ctx) = []) as H by done.
    revert H. generalize (new_HttpRequest c ctx). induction cs as [|[] cs IH]; intros r H; simpl; [done|by apply IH..]. }
  destruct (finish_setup_headers compress2 r1) as (E1 & H1 & E2); [rewrite Ea; constructor|].
  cbv zeta. rewrite E1. split_and!; [exact Hfind|exact E2| |].
  - apply sent_headers_names; [by rewrite E1|done].
  - rewrite E2. apply Forall_forall. intros l (e & -> & _)%list_elem_of_fmap. apply header_line_clean.
Qed.

(** ** Retry delays *)

Lemma retry_delay_bounds scaled max : 0 <= max -> 0 <= retry_delay scaled max <= max.
Proof.
  intros H. unfold retry_delay. destruct (Z.gtb_spec scaled max); [destruct (Z.ltb_spec max 0)|destruct (Z.ltb_spec scaled 0)]; lia.
Qed.

(** ** Response headers *)

Lemma split_colon_app name rest : Forall (fun c => c <> 58) name -> split_colon (name ++ 58 :: rest) = Some (name, rest).
Proof.
  induction 1 as [|c name Hc HF IH]; [done|]. simpl. destruct (Z.eqb_spec c 58); [done|]. by rewrite IH.
Qed.

Lemma drop_while_app p s t : Forall (fun c => p c = true) s -> drop_while p (s ++ t) = drop_while p t.
Proof. induction 1 as [|c s Hc HF IH]; [done|]. simpl. by rewrite Hc. Qed.

Lemma drop_while_stop p s : match s with c :: _ => p c = false | [] => True end -> drop_while p s = s.
Proof. destruct s as [|c s]; [done|]. simpl. by intros ->. Qed.

(** A response header is stored under its name in lower case with the white
    space around its value removed, so that a plugin finds it with the name in
    any case; a later line of the same name replaces it. *)
Theorem response_header_found (name value blanks spaces : bytes) (asked : bytes) (r : HttpRequest) :
  Forall (fun c => c <> 58) name -> lower asked = lower name ->
  Forall (fun c => is_blank c = true) blanks -> Forall (fun c => is_space c = true) spaces ->
  match value with c :: _ => is_blank c = false | [] => True end ->
  match rev value with c :: _ => is_space c = false | [] => True end ->
  value <> [] ->
  FindResponseHeader asked (OnReceiveHeaders (name ++ 58 :: blanks ++ value ++ spaces) r) = Some value.
Proof.
  intros Hn Ha Hb Hs Hf Hl Hne. unfold OnReceiveHeaders, FindResponseHeader. rewrite split_colon_app by done. cbn.
  rewrite Ha, lookup_insert_eq. f_equal. rewrite drop_while_app by done.
  rewrite (drop_while_stop is_blank (value ++ spaces)) by (by destruct value).
  unfold trim_end. rewrite rev_app_distr, drop_while_app.
  - rewrite drop_while_stop by done. apply rev_involutive.
  - by apply Forall_rev.
Qed.

Lemma response_header_found_witness : FindResponseHeader (str "content-type")
  (OnReceiveHeaders (str "Content-Type" ++ 58 :: [32] ++ str "text/plain" ++ [13; 10]) (new_HttpRequest 1 1)) = Some (str "text/plain").
Proof.
  apply (response_header_found (str "Content-Type") (str "text/plain") [32] [13; 10] (str "content-type") (new_HttpRequest 1 1));
    try (vm_compute; reflexivity); [vm_compute; repeat constructor; discriminate|repeat constructor|repeat constructor|vm_compute; discriminate].
Defined.
