(* ===== verification/EventLoop.v ===== *)
(** * [src/event_loop.h]: what the event loop keeps for HTTP

    The queues between the game thread and the event thread, and the members
    only the event thread uses.  [curl_multi_] is libcurl's: the easy handles
    that were added and not removed, with the private pointer of each
    ([CURLOPT_PRIVATE], the address of the request).  A retry timer is a libuv
    timer; its [data] is the address of the request. *)

From stdpp Require Import base numbers list gmap.
From Stdlib Require Import ZArith Lia.
From S2P Require Import Prelude LockedQueue.

Record EventLoop := mkLoop {
  pending_queue : LockedQueue positive;
  cancel_queue : LockedQueue positive;
  done_queue : LockedQueue positive;
  active_http_requests_ : gset positive;
  http_curl_handles_ : gset positive;
  curl_multi_ : gmap positive positive;
  retry_timers_ : gmap positive positive;
  stats_active : Z;
  stats_pending : Z;
  stats_completed : Z;
  stats_retries : Z;
  option_queue : LockedQueue (Z * Z)
}.

Definition new_EventLoop : EventLoop :=
  mkLoop new_LockedQueue new_LockedQueue new_LockedQueue ∅ ∅ ∅ ∅ 0 0 0 0 new_LockedQueue.

Definition loop_eta (e : EventLoop) : EventLoop :=
  mkLoop (pending_queue e) (cancel_queue e) (done_queue e) (active_http_requests_ e) (http_curl_handles_ e)
    (curl_multi_ e) (retry_timers_ e) (stats_active e) (stats_pending e) (stats_completed e) (stats_retries e) (option_queue e).

Ltac loop_setter p :=
  let x := fresh "x" in let e := fresh "e" in intros x e;
  let t := eval cbv beta delta [loop_eta] in (loop_eta e) in
  let t := eval pattern (p e) in t in
  lazymatch t with ?F _ => let u := eval cbv beta in (F x) in exact u end.

Definition set_pending : LockedQueue positive -> EventLoop -> EventLoop := ltac:(loop_setter pending_queue).
Definition set_cancel : LockedQueue positive -> EventLoop -> EventLoop := ltac:(loop_setter cancel_queue).
Definition set_done : LockedQueue positive -> EventLoop -> EventLoop := ltac:(loop_setter done_queue).
Definition set_active : gset positive -> EventLoop -> EventLoop := ltac:(loop_setter active_http_requests_).
Definition set_handles : gset positive -> EventLoop -> EventLoop := ltac:(loop_setter http_curl_handles_).
Definition set_multi : gmap positive positive -> EventLoop -> EventLoop := ltac:(loop_setter curl_multi_).
Definition set_timers : gmap positive positive -> EventLoop -> EventLoop := ltac:(loop_setter retry_timers_).
Definition set_stats_active : Z -> EventLoop -> EventLoop := ltac:(loop_setter stats_active).
Definition set_stats_pending : Z -> EventLoop -> EventLoop := ltac:(loop_setter stats_pending).
Definition set_stats_completed : Z -> EventLoop -> EventLoop := ltac:(loop_setter stats_completed).
Definition set_stats_retries : Z -> EventLoop -> EventLoop := ltac:(loop_setter stats_retries).
Definition set_options : LockedQueue (Z * Z) -> EventLoop -> EventLoop := ltac:(loop_setter option_queue).

(** ** Operations of the game thread *)

(** [EnqueueRequest] after [PrepareForSend]. *)
Definition EnqueueRequest (request : positive) (e : EventLoop) : EventLoop :=
  set_pending (Push request (pending_queue e)) (set_stats_pending (sN 32 (stats_pending e + 1)) e).

Definition CancelRequest (request : positive) (e : EventLoop) : EventLoop :=
  set_cancel (Push request (cancel_queue e)) e.

Definition DrainCompleted (e : EventLoop) : option (list positive * EventLoop) :=
  let? (out, q) := DrainAll (done_queue e) in Some (out, set_done q e).

(** An option for all transfers, [CurlGlobalOption], as its key and value. *)
Definition ChangeCurlSetting (key value : Z) (e : EventLoop) : EventLoop := set_options (Push (key, value) (option_queue e)) e.

(** One turn of the loop of [OnAsyncSettings]: what is given to
    [curl_multi_setopt]. *)
Definition OnAsyncSettings_turn (e : EventLoop) : option ((Z * Z) * EventLoop) :=
  let? (opt, q) := Pop (option_queue e) in Some (opt, set_options q e).

(** ** The clients' requests ([src/extension.cpp])

    The index from a game client to the handles of its requests. *)

Definition TrackClientHandle (client handle_id : Z) (m : gmap Z (list Z)) : gmap Z (list Z) :=
  if client <=? 0 then m else <[client := default [] (m !! client) ++ [handle_id]]> m.

Definition UntrackClientHandle (client handle_id : Z) (m : gmap Z (list Z)) : gmap Z (list Z) :=
  if client <=? 0 then m else
  match m !! client with
  | None => m
  | Some vec => match filter (fun h => h <> handle_id) vec with
                | [] => delete client m
                | vec => <[client := vec]> m
                end
  end.
