(* ===== verification/DataRefcount.v ===== *)
(** * Reference counting is sound

    [inv st ext]: every node's reference count is the number of references to
    it, from the nodes of the heap and from the list [ext] of references held
    outside; the allocator's live blocks are the nodes.  Every operation of
    [DataNode.v] keeps it, so no operation touches a dead node, [Decref] ends,
    and an acyclic heap that nobody references is empty. *)

From stdpp Require Import base numbers list gmap.
From Stdlib Require Import ZArith Lia.
From S2P Require Import Prelude NodePool DataMap DataValue DataNode.

Section Refcount.

Context {MO : DataMap bytes} {MI : DataMap Z} {P : Type} {PA : NodeAllocator P}.

Implicit Types (m D : gmap loc DataNode) (st : store (P := P)) (ext : list loc).

(** ** Counting references *)

Definition cnt (l : loc) (xs : list loc) : Z := Z.of_nat (length (filter (fun x => x = l) xs)).
Definition refs (l : loc) m : Z := map_fold (fun _ c a => cnt l (children (pay c)) + a) 0 m.
Definition rc m (l : loc) : Z := from_option refcount 0 (m !! l).

Record minv m ext : Prop := {
  minv_rc : forall l, refs l m + cnt l ext = rc m l;
  minv_pos : forall l c, m !! l = Some c -> 1 <= refcount c < 2 ^ 32
}.

Record inv st ext : Prop := {
  inv_m : minv (cells st) ext;
  inv_pool : a_inv (pool st) (dom (cells st))
}.

Lemma cnt_nonneg l xs : 0 <= cnt l xs.
Proof. unfold cnt. lia. Qed.
Lemma cnt_app l xs ys : cnt l (xs ++ ys) = cnt l xs + cnt l ys.
Proof. unfold cnt. rewrite filter_app, length_app. lia. Qed.
Lemma cnt_cons l x xs : cnt l (x :: xs) = (if decide (x = l) then 1 else 0) + cnt l xs.
Proof. unfold cnt. rewrite filter_cons. case_decide; simpl; lia. Qed.
Lemma cnt_perm l xs ys : xs ≡ₚ ys -> cnt l xs = cnt l ys.
Proof. intros E. unfold cnt. by rewrite E. Qed.
Lemma cnt_elem l xs : l ∈ xs -> 1 <= cnt l xs.
Proof.
  intros (ys & zs & ->)%list_elem_of_split. rewrite cnt_app, cnt_cons, decide_True by done.
  pose proof (cnt_nonneg l ys). pose proof (cnt_nonneg l zs). lia.
Qed.

Lemma refs_insert l k c m : m !! k = None -> refs l (<[k := c]> m) = cnt l (children (pay c)) + refs l m.
Proof. intros Hk. unfold refs. by rewrite map_fold_insert_L by (done || (intros; lia)). Qed.
Lemma refs_delete l k c m : m !! k = Some c -> refs l m = cnt l (children (pay c)) + refs l (delete k m).
Proof. intros Hk. rewrite <- (insert_delete_id m k c Hk) at 1. apply refs_insert, lookup_delete_eq. Qed.
Lemma refs_update l k c c' m : m !! k = Some c ->
  refs l (<[k := c']> m) = refs l m - cnt l (children (pay c)) + cnt l (children (pay c')).
Proof.
  intros Hk. rewrite (refs_delete l k c m Hk), <- insert_delete_eq, refs_insert by apply lookup_delete_eq. lia.
Qed.

Lemma refs_nonneg l m : 0 <= refs l m.
Proof.
  induction m as [|k c m Hk IH] using map_ind; [done|]. rewrite refs_insert by done.
  pose proof (cnt_nonneg l (children (pay c))). lia.
Qed.

Lemma tot_insert k c m : m !! k = None -> tot (<[k := c]> m) = refcount c + tot m.
Proof. intros Hk. unfold tot. by rewrite map_fold_insert_L by (done || (intros; lia)). Qed.
Lemma tot_delete k c m : m !! k = Some c -> tot m = refcount c + tot (delete k m).
Proof. intros Hk. rewrite <- (insert_delete_id m k c Hk) at 1. apply tot_insert, lookup_delete_eq. Qed.
Lemma tot_update k c c' m : m !! k = Some c -> tot (<[k := c']> m) = tot m - refcount c + refcount c'.
Proof. intros Hk. rewrite (tot_delete k c m Hk), <- insert_delete_eq, tot_insert by apply lookup_delete_eq. lia. Qed.

Lemma tot_nonneg m ext : minv m ext -> 0 <= tot m.
Proof.
  intros [_ Hpos]. revert Hpos. induction m as [|k c m Hk IH] using map_ind; intros Hpos; [done|].
  rewrite tot_insert by done. pose proof (Hpos k c). rewrite lookup_insert_eq in H. specialize (H eq_refl).
  cut (0 <= tot m); [lia|]. apply IH. intros l c' Hl. apply (Hpos l).
  rewrite lookup_insert_ne; [done|]. intros ->. congruence.
Qed.

Lemma rc_insert_eq m l c : rc (<[l := c]> m) l = refcount c.
Proof. unfold rc. by rewrite lookup_insert_eq. Qed.
Lemma rc_insert_ne m l k c : k <> l -> rc (<[k := c]> m) l = rc m l.
Proof. intros. unfold rc. by rewrite lookup_insert_ne. Qed.

(** An externally referenced node is live. *)
Lemma minv_live m ext l : minv m ext -> l ∈ ext -> exists c, m !! l = Some c.
Proof.
  intros H Hl%cnt_elem. pose proof (minv_rc _ _ H l) as E. pose proof (refs_nonneg l m).
  unfold rc in E. destruct (m !! l) as [c|]; [by exists c|]. simpl in E. lia.
Qed.

Lemma minv_perm m ext ext' : ext ≡ₚ ext' -> minv m ext -> minv m ext'.
Proof. intros E [H1 H2]. split; [|done]. intros l. by rewrite <- (cnt_perm l _ _ E). Qed.

Lemma inv_perm st ext ext' : ext ≡ₚ ext' -> inv st ext -> inv st ext'.
Proof. intros E [H1 H2]. split; [|done]. by eapply minv_perm. Qed.

(** ** [Decref] *)

(** What a run of [Decref] leaves of the heap: nodes keep their contents. *)
Definition shrunk m m' : Prop :=
  forall k c', m' !! k = Some c' -> exists c, m !! k = Some c /\ version c' = version c /\ pay c' = pay c.

Lemma shrunk_refl m : shrunk m m.
Proof. intros k c H. by exists c. Qed.
Lemma shrunk_trans m1 m2 m3 : shrunk m1 m2 -> shrunk m2 m3 -> shrunk m1 m3.
Proof.
  intros H1 H2 k c3 (c2 & Hc2 & E1 & E2)%H2. destruct (H1 k c2 Hc2) as (c1 & ? & ? & ?).
  exists c1. split_and!; [done|congruence..].
Qed.
Lemma shrunk_disjoint m m' D : shrunk m m' -> m ##ₘ D -> m' ##ₘ D.
Proof.
  intros Hs HD. apply map_disjoint_spec. intros k c' d Hc' Hd. destruct (Hs k c' Hc') as (c & Hc & _).
  by eapply map_disjoint_spec.
Qed.

(** What one call does, on a heap [m] with further nodes [D] that are being
    destroyed by the callers. *)
Definition decref_ok (f : loc -> store (P := P) -> option store) (bound : Z) : Prop :=
  forall m D pl ext l, minv m (l :: ext) -> m ##ₘ D -> a_inv pl (dom (m ∪ D)) -> tot m < bound ->
  exists m' pl', f l (mkStore (m ∪ D) pl) = Some (mkStore (m' ∪ D) pl') /\
    minv m' ext /\ a_inv pl' (dom (m' ∪ D)) /\ tot m' < tot m /\ shrunk m m'.

Lemma foldM_decref f bound xs : decref_ok f bound ->
  forall m D pl ext, minv m (xs ++ ext) -> m ##ₘ D -> a_inv pl (dom (m ∪ D)) -> tot m < bound ->
  exists m' pl', foldM f xs (mkStore (m ∪ D) pl) = Some (mkStore (m' ∪ D) pl') /\
    minv m' ext /\ a_inv pl' (dom (m' ∪ D)) /\ tot m' <= tot m /\ shrunk m m'.
Proof.
  intros Hf. induction xs as [|x xs IH]; intros m D pl ext Hm HD Hpl Hb.
  - exists m, pl. split_and!; [done..|lia|apply shrunk_refl].
  - destruct (Hf m D pl (xs ++ ext) x Hm HD Hpl Hb) as (m1 & pl1 & Hr & Hm1 & Hp1 & Ht1 & Hs1).
    destruct (IH m1 D pl1 ext Hm1) as (m2 & pl2 & Hr2 & Hm2 & Hp2 & Ht2 & Hs2);
      [by eapply shrunk_disjoint|done|lia|].
    exists m2, pl2. simpl. rewrite Hr. split_and!; [done..|lia|by eapply shrunk_trans].
Qed.

(** Dropping one of several references. *)
Lemma minv_drop m ext l c : minv m (l :: ext) -> m !! l = Some c -> 1 < refcount c ->
  minv (<[l := with_rc (uN 32 (refcount c - 1)) c]> m) ext /\ uN 32 (refcount c - 1) = refcount c - 1.
Proof.
  intros [H1 H2] Hc Hrc. pose proof (H2 l c Hc) as Hp.
  assert (uN 32 (refcount c - 1) = refcount c - 1) as Eu by (apply u_id; unfold u_range; lia).
  split; [|done]. rewrite Eu. split.
  - intros k. rewrite (refs_update k l c) by done. simpl. specialize (H1 k). rewrite cnt_cons in H1.
    destruct (decide (l = k)) as [->|Hne].
    + rewrite rc_insert_eq. unfold rc in H1. rewrite Hc in H1. simpl in *. lia.
    + rewrite rc_insert_ne by done. lia.
  - intros k c'. rewrite lookup_insert_Some. intros [[_ <-]|[_ ?]]; [simpl; lia|by eapply H2].
Qed.

(** Taking out a node whose last reference goes. *)
Lemma minv_last m ext l c : minv m (l :: ext) -> m !! l = Some c -> refcount c = 1 ->
  minv (delete l m) (children (pay c) ++ ext).
Proof.
  intros [H1 H2] Hc Hrc. split.
  - intros k. specialize (H1 k). rewrite cnt_cons in H1. rewrite cnt_app.
    rewrite (refs_delete k l c m Hc) in H1. destruct (decide (l = k)) as [->|Hne].
    + unfold rc in *. rewrite Hc in H1. simpl in H1. rewrite lookup_delete_eq. simpl.
      pose proof (refs_nonneg k (delete k m)). pose proof (cnt_nonneg k (children (pay c))).
      pose proof (cnt_nonneg k ext). lia.
    + unfold rc in *. rewrite lookup_delete_ne by done. lia.
  - intros k c'. rewrite lookup_delete_Some. intros [_ ?]. by eapply H2.
Qed.

Lemma decref_spec fuel : decref_ok (decref fuel) (Z.of_nat fuel).
Proof.
  induction fuel as [|fuel IH]; intros m D pl ext l Hm HD Hpl Hb.
  { pose proof (tot_nonneg _ _ Hm). lia. }
  destruct (minv_live m (l :: ext) l Hm) as (c & Hc); [constructor|].
  pose proof (minv_pos _ _ Hm l c Hc) as Hpos.
  assert (D !! l = None) as HDl by (by eapply map_disjoint_Some_l).
  cbn [decref cells]. rewrite (lookup_union_Some_l m D l c Hc). unfold put. cbn [cells pool].
  destruct (Z.gtb_spec (refcount c) 1) as [Hgt|Hle].
  - destruct (minv_drop m ext l c Hm Hc ltac:(lia)) as [Hm' Eu].
    exists (<[l := with_rc (uN 32 (refcount c - 1)) c]> m), pl. rewrite insert_union_l.
    split_and!; [done|done| | |].
    + rewrite dom_union_L, dom_insert_lookup_L by (by eexists). by rewrite dom_union_L in Hpl.
    + rewrite (tot_update l c) by done. simpl. rewrite Eu. lia.
    + intros k c'. rewrite lookup_insert_Some. intros [[<- <-]|[_ ?]]; [by exists c|by exists c'].
  - assert (refcount c = 1) as Hrc by lia. pose proof (minv_last m ext l c Hm Hc Hrc) as Hm0.
    set (c' := with_rc (uN 32 (refcount c - 1)) c).
    assert (<[l := c']> (m ∪ D) = delete l m ∪ <[l := c']> D) as ->.
    { apply map_eq. intros k. destruct (decide (k = l)) as [->|Hne].
      - rewrite lookup_insert_eq, lookup_union_r by apply lookup_delete_eq. by rewrite lookup_insert_eq.
      - rewrite lookup_insert_ne by done. rewrite !lookup_union, lookup_delete_ne, lookup_insert_ne by done. done. }
    destruct (foldM_decref (decref fuel) (Z.of_nat fuel) (children (pay c)) IH
                (delete l m) (<[l := c']> D) pl ext Hm0) as (m1 & pl1 & -> & Hm1 & Hp1 & Ht1 & Hs1).
    + apply map_disjoint_insert_r_2; [apply lookup_delete_eq|by apply map_disjoint_delete_l].
    + rewrite dom_union_L, dom_delete_L, dom_insert_L. rewrite dom_union_L in Hpl.
      assert (l ∈ dom m) by (by apply elem_of_dom_2 in Hc).
      replace (dom m ∖ {[l]} ∪ ({[l]} ∪ dom D)) with (dom m ∪ dom D); [done|].
      apply set_eq. intros x. destruct (decide (x = l)); set_solver.
    + rewrite (tot_delete l c) in Hb by done. lia.
    + assert (m1 !! l = None) as Hm1l.
      { destruct (m1 !! l) as [d|] eqn:E; [|done]. destruct (Hs1 l d E) as (? & E' & _).
        by rewrite lookup_delete_eq in E'. }
      cbn [cells pool].
      destruct (a_free_inv pl1 (dom (m1 ∪ <[l := c']> D)) l Hp1) as (pl2 & -> & Hp2).
      { rewrite dom_union_L, dom_insert_L. set_solver. }
      exists m1, pl2. split_and!; [|done| | |].
      * f_equal. f_equal. apply map_eq. intros k. destruct (decide (k = l)) as [->|Hne].
        -- rewrite lookup_delete_eq, lookup_union, Hm1l, HDl. done.
        -- rewrite lookup_delete_ne, !lookup_union, lookup_insert_ne by done. done.
      * replace (dom (m1 ∪ D)) with (dom (m1 ∪ <[l := c']> D) ∖ {[l]}); [done|].
        rewrite !dom_union_L, dom_insert_L. apply not_elem_of_dom in Hm1l, HDl. set_solver.
      * rewrite (tot_delete l c m) by done. lia.
      * intros k d Hk. destruct (Hs1 k d Hk) as (e & He & ?). apply lookup_delete_Some in He as [_ He].
        by exists e.
Qed.

(** ** Contents do not matter to [Decref] while the node survives *)

Definition swap (n : loc) (p : payload) st : store := mkStore (alter (with_pay p) n (cells st)) (pool st).

Lemma foldM_shrunk (f : loc -> store -> option store) xs :
  (forall x st st', f x st = Some st' -> shrunk (cells st) (cells st')) ->
  forall st st', foldM f xs st = Some st' -> shrunk (cells st) (cells st').
Proof.
  intros Hf. induction xs as [|x xs IH]; intros st st' H; simpl in H; [simplify_eq; apply shrunk_refl|].
  destruct (f x st) as [st1|] eqn:E; [|done]. eapply shrunk_trans; [by eapply Hf|by eapply IH].
Qed.

Lemma decref_shrunk fuel : forall l st st', decref fuel l st = Some st' -> shrunk (cells st) (cells st').
Proof.
  induction fuel as [|fuel IH]; intros l st st' H; [done|]. cbn [decref] in H.
  destruct (cells st !! l) as [c|] eqn:Hc; [|done].
  assert (shrunk (cells st) (cells (put l (with_rc (uN 32 (refcount c - 1)) c) st))) as Hs.
  { intros k c'. simpl. rewrite lookup_insert_Some. intros [[<- <-]|[_ ?]]; [by exists c|by exists c']. }
  destruct (refcount c >? 1); [by simplify_eq|].
  destruct (foldM _ _ _) as [st1|] eqn:E; [|done]. destruct (a_free l (pool st1)); [|done]. simplify_eq/=.
  eapply shrunk_trans; [exact Hs|]. eapply shrunk_trans; [exact (foldM_shrunk _ _ IH _ _ E)|].
  intros k c' [_ ?]%lookup_delete_Some. by exists c'.
Qed.

Lemma shrunk_alive m m' k : shrunk m m' -> is_Some (m' !! k) -> is_Some (m !! k).
Proof. intros H [c' Hc]. destruct (H k c' Hc) as (c & ? & _). by exists c. Qed.

Definition swappable (f : loc -> store (P := P) -> option store) : Prop :=
  (forall x st st', f x st = Some st' -> shrunk (cells st) (cells st')) /\
  forall n p x st st', f x st = Some st' -> is_Some (cells st' !! n) -> f x (swap n p st) = Some (swap n p st').

Lemma foldM_swap f xs n p : swappable f -> forall st st',
  foldM f xs st = Some st' -> is_Some (cells st' !! n) -> foldM f xs (swap n p st) = Some (swap n p st').
Proof.
  intros [Hs Hw]. induction xs as [|x xs IH]; intros st st' H Hn; simpl in *; [by simplify_eq|].
  destruct (f x st) as [st1|] eqn:E; [|done].
  rewrite (Hw n p x st st1 E); [by apply IH|]. eapply shrunk_alive; [|exact Hn]. by eapply foldM_shrunk.
Qed.

Lemma decref_swappable fuel : swappable (decref fuel).
Proof.
  split; [apply decref_shrunk|]. induction fuel as [|fuel IH]; intros n p l st st' H Hn; [done|].
  cbn [decref] in *. destruct (cells st !! l) as [c|] eqn:Hc; [|done].
  destruct (decide (l = n)) as [->|Hne].
  - simpl. rewrite lookup_alter_eq, Hc. simpl. destruct (refcount c >? 1).
    + simplify_eq. unfold swap, put. simpl. f_equal. f_equal. apply map_eq. intros k.
      destruct (decide (k = n)) as [->|]; [by rewrite lookup_alter_eq, !lookup_insert_eq|].
      by rewrite lookup_alter_ne, !lookup_insert_ne, lookup_alter_ne by done.
    + destruct (foldM _ _ _) as [st1|]; [|done]. destruct (a_free n (pool st1)); [|done]. simplify_eq/=.
      rewrite lookup_delete_eq in Hn. by destruct Hn.
  - simpl. rewrite lookup_alter_ne, Hc by done. set (d := with_rc (uN 32 (refcount c - 1)) c) in *.
    assert (put l d (swap n p st) = swap n p (put l d st)) as E.
    { unfold swap, put. simpl. f_equal. by rewrite alter_insert_ne. }
    rewrite E. destruct (refcount c >? 1); [by simplify_eq|].
    destruct (foldM _ _ _) as [st1|] eqn:E1; [|done]. destruct (a_free l (pool st1)) as [pl|] eqn:Ef; [|done].
    simplify_eq/=. rewrite lookup_delete_ne in Hn by done.
    rewrite (foldM_swap (decref fuel) _ n p (conj (decref_shrunk fuel) IH) _ _ E1 Hn). simpl. rewrite Ef.
    unfold swap. simpl. by rewrite delete_alter_ne.
Qed.

(** ** [Decref] on an invariant heap *)

Lemma tot_swap n p m : tot (alter (with_pay p) n m) = tot m.
Proof.
  destruct (m !! n) as [c|] eqn:E; [|by rewrite alter_id by (intros; simplify_eq)].
  rewrite <- (insert_id m n c E) at 1. rewrite alter_insert_eq, (tot_update n c) by done. simpl. lia.
Qed.

Lemma Decref_swappable : swappable (fun l => Decref (Some l)).
Proof.
  split; [intros x st st'; apply decref_shrunk|]. intros n p x st st' H Hn. unfold Decref in *.
  assert (fuel_of (swap n p st) = fuel_of st) as -> by (unfold fuel_of, swap; cbn [cells]; by rewrite tot_swap).
  by apply (decref_swappable (fuel_of st)).
Qed.

Lemma Decref_inv st ext l : inv st (l :: ext) ->
  exists st', Decref (Some l) st = Some st' /\ inv st' ext /\ shrunk (cells st) (cells st').
Proof.
  intros [Hm Hp]. destruct st as [m pl]. simpl in *.
  pose proof (tot_nonneg _ _ Hm) as Ht.
  destruct (decref_spec (fuel_of (mkStore m pl)) m ∅ pl ext l Hm) as (m' & pl' & Hr & Hm' & Hp' & _ & Hs).
  - apply map_disjoint_empty_r.
  - by rewrite map_union_empty.
  - unfold fuel_of. simpl. lia.
  - rewrite !map_union_empty in *. exists (mkStore m' pl'). by split_and!.
Qed.

Lemma Decrefs_inv xs : forall st ext, inv st (xs ++ ext) ->
  exists st', foldM (fun l => Decref (Some l)) xs st = Some st' /\ inv st' ext /\ shrunk (cells st) (cells st').
Proof.
  induction xs as [|x xs IH]; intros st ext H; [exists st; split_and!; [done..|apply shrunk_refl]|].
  destruct (Decref_inv st (xs ++ ext) x H) as (st1 & H1 & H2 & H3).
  destruct (IH st1 ext H2) as (st2 & H4 & H5 & H6). exists st2. cbn [foldM]. rewrite H1.
  split_and!; [done..|by eapply shrunk_trans].
Qed.

(** Exchanging references between a node's contents and the outside. *)
Lemma inv_swap st ext ext' n c p : inv st ext -> cells st !! n = Some c ->
  children p ++ ext' ≡ₚ children (pay c) ++ ext -> inv (swap n p st) ext'.
Proof.
  intros [[H1 H2] H3] Hc Hp.
  assert (cells (swap n p st) = <[n := with_pay p c]> (cells st)) as E.
  { simpl. rewrite <- (insert_id _ _ _ Hc) at 1. by rewrite alter_insert_eq. }
  split; [|by rewrite E, dom_insert_lookup_L by (by eexists)]. rewrite E. split.
  - intros k. rewrite (refs_update k n c) by done. specialize (H1 k).
    pose proof (cnt_perm k _ _ Hp) as Hcnt. rewrite !cnt_app in Hcnt. simpl.
    destruct (decide (n = k)) as [->|Hne].
    + rewrite rc_insert_eq. unfold rc in H1. rewrite Hc in H1. simpl in *. lia.
    + rewrite rc_insert_ne by done. lia.
  - intros k d. rewrite lookup_insert_Some. intros [[_ <-]|[_ ?]]; [simpl; by eapply H2|by eapply H2].
Qed.

(** What the container operations share: the references [olds] leave the
    container [n], one after the other, while it still holds its old contents;
    then the new contents are stored. *)
Lemma drop_then_set st ext0 ext n c p olds :
  inv st ext0 -> cells st !! n = Some c -> n ∈ ext ->
  children p ++ olds ++ ext ≡ₚ children (pay c) ++ ext0 ->
  exists st1 st2, foldM (fun l => Decref (Some l)) olds st = Some st1 /\ set_pay n p st1 = Some st2 /\
    inv st2 ext /\ shrunk (<[n := with_pay p c]> (cells st)) (cells st2).
Proof.
  intros Hinv Hc Hn Hp. pose proof (inv_swap st ext0 (olds ++ ext) n c p Hinv Hc Hp) as Hi.
  destruct (Decrefs_inv olds (swap n p st) ext Hi) as (st2 & Hr & Hi2 & Hs).
  destruct (minv_live _ _ n (inv_m _ _ Hi2) Hn) as (c2 & Hc2).
  pose proof (foldM_swap _ olds n (pay c) Decref_swappable _ _ Hr (ex_intro _ c2 Hc2)) as Hw.
  assert (swap n (pay c) (swap n p st) = st) as E.
  { destruct st as [m pl]. unfold swap. simpl in *. f_equal. rewrite <- (insert_id m n c Hc) at 1.
    rewrite !alter_insert_eq. simpl. rewrite <- (insert_id m n c Hc) at 2. by destruct c. }
  rewrite E in Hw. exists (swap n (pay c) st2), st2. split_and!; [done| |done|].
  - unfold set_pay, swap. simpl. rewrite lookup_alter_eq, Hc2. simpl. unfold put. simpl.
    destruct st2 as [m2 pl2]. simpl in *. f_equal. f_equal.
    rewrite <- (insert_id m2 n c2 Hc2) at 1. rewrite alter_insert_eq, insert_insert_eq.
    destruct (Hs n c2 Hc2) as (d & Hd & Ev & Ep). simpl in Hd. rewrite lookup_alter_eq, Hc in Hd. simplify_eq/=.
    apply insert_id. rewrite Hc2. f_equal. destruct c2. simpl in *. by subst.
  - simpl in Hs. rewrite <- (insert_id (cells st) n c Hc) in Hs at 1. by rewrite alter_insert_eq in Hs.
Qed.

(** ** The operations *)

Lemma Make_inv st ext p : inv st ext -> children p = [] ->
  exists l st', Make p st = Some (l, st') /\ inv st' (l :: ext) /\ cells st !! l = None /\
    cells st' = <[l := mkNode 0 1 p]> (cells st).
Proof.
  intros [[H1 H2] H3] Hp. unfold Make.
  destruct (a_alloc_inv (pool st) _ H3) as (l & pl & -> & Hl & Hpl). apply not_elem_of_dom in Hl.
  eexists l, _. split_and!; [done| |done|done]. split; [|simpl; by rewrite dom_insert_L].
  assert (refs l (cells st) = 0 /\ cnt l ext = 0) as [Hr Hx].
  { specialize (H1 l). unfold rc in H1. rewrite Hl in H1. simpl in H1.
    pose proof (refs_nonneg l (cells st)). pose proof (cnt_nonneg l ext). lia. }
  split; simpl.
  - intros k. rewrite refs_insert by done. simpl. rewrite Hp, cnt_cons. specialize (H1 k).
    destruct (decide (l = k)) as [->|Hne]; [rewrite rc_insert_eq|rewrite rc_insert_ne by done]; unfold cnt in *; simpl in *; lia.
  - intros k c. rewrite lookup_insert_Some. intros [[_ <-]|[_ ?]]; [simpl; lia|by eapply H2].
Qed.

Lemma Incref_inv st ext l c : inv st ext -> cells st !! l = Some c -> refcount c < 2 ^ 32 - 1 ->
  exists st', Incref l st = Some st' /\ inv st' (l :: ext).
Proof.
  intros [[H1 H2] H3] Hc Hrc. unfold Incref. rewrite Hc. eexists. split; [done|].
  pose proof (H2 l c Hc) as Hp. rewrite (u_id 32) by (unfold u_range; lia).
  split; [|simpl; by rewrite dom_insert_lookup_L by (by eexists)]. split; simpl.
  - intros k. rewrite (refs_update k l c) by done. simpl. rewrite cnt_cons. specialize (H1 k).
    destruct (decide (l = k)) as [->|Hne].
    + rewrite rc_insert_eq. unfold rc in H1. rewrite Hc in H1. simpl in *. lia.
    + rewrite rc_insert_ne by done. lia.
  - intros k d. rewrite lookup_insert_Some. intros [[_ <-]|[_ ?]]; [simpl; lia|by eapply H2].
Qed.

(** [version++] changes no reference. *)
Lemma bump_inv st ext n c : inv st ext -> cells st !! n = Some c ->
  exists st' c', bump n st = Some st' /\ inv st' ext /\ cells st' !! n = Some c' /\ pay c' = pay c /\
    cells st' = <[n := c']> (cells st).
Proof.
  intros [[H1 H2] H3] Hc. unfold bump. rewrite Hc. eexists _, _.
  split_and!; [done| |simpl; apply lookup_insert_eq|done|done].
  split; [|simpl; by rewrite dom_insert_lookup_L by (by eexists)]. split; simpl.
  - intros k. rewrite (refs_update k n c) by done. simpl. specialize (H1 k).
    destruct (decide (n = k)) as [->|Hne].
    + rewrite rc_insert_eq. unfold rc in H1. rewrite Hc in H1. simpl in *. lia.
    + rewrite rc_insert_ne by done. lia.
  - intros k d. rewrite lookup_insert_Some. intros [[_ <-]|[_ ?]]; [simpl; by eapply H2|by eapply H2].
Qed.

Lemma foldM_snd {K} (l : list (K * loc)) st :
  foldM (fun e => Decref (Some (snd e))) l st = foldM (fun x => Decref (Some x)) l.*2 st.
Proof.
  revert st. induction l as [|e l IH]; intros st; [done|]. cbn [foldM fmap list_fmap].
  change (list_fmap _ _ snd (e :: l)) with (e.2 :: l.*2). cbn [foldM]. by destruct (Decref _ st).
Qed.

Section MapOpsInv.

Context {K : Type} {EqK : EqDecision K} {CK : Countable K} {DK : DataMap K} {MP : MapPayload K}.
Context (Hget : forall p (q : dm K loc), mp_get p = Some q -> p = mp_put q)
        (Hch : forall q : dm K loc, children (mp_put q) = (dm_list q).*2).

Lemma map_insert_inv st ext n (key : K) val : inv st (val :: ext) -> n ∈ ext ->
  exists st', map_insert n key val st = Some st' /\ inv st' ext.
Proof using Hget Hch.
  intros Hinv Hn. destruct (minv_live _ _ n (inv_m _ _ Hinv)) as (c & Hc); [set_solver|].
  unfold map_insert. rewrite Hc. destruct (mp_get (pay c)) as [m|] eqn:Eg.
  - apply Hget in Eg. destruct (bump_inv st _ n c Hinv Hc) as (st1 & c1 & -> & Hi1 & Hc1 & Ep & _).
    destruct (dm_map m !! key) as [old|] eqn:El.
    + destruct (drop_then_set st1 (val :: ext) ext n c1 (mp_put (dm_set key val m)) [old] Hi1 Hc1 Hn)
        as (st2 & st3 & Hd & Hs & Hi & _).
      { rewrite Ep, Eg, !Hch, dm_list_set_over, (dm_list_split _ _ _ El). simpl.
        rewrite <- !Permutation_middle. apply perm_swap. }
      cbn [foldM] in Hd. destruct (Decref (Some old) st1) as [st2'|]; [|done]. simplify_eq. eauto.
    + destruct (drop_then_set st1 (val :: ext) ext n c1 (mp_put (dm_set key val m)) [] Hi1 Hc1 Hn)
        as (st2 & st3 & Hd & Hs & Hi & _).
      { rewrite Ep, Eg, !Hch, dm_list_set_fresh by done. simpl. by rewrite <- Permutation_middle. }
      simplify_eq/=. eauto.
  - destruct (Decref_inv st ext val Hinv) as (st' & -> & Hi & _). eauto.
Qed.

Lemma map_erase_inv st ext n (key : K) : inv st ext -> n ∈ ext ->
  exists r st', map_erase n key st = Some (r, st') /\ inv st' ext.
Proof using Hget Hch.
  intros Hinv Hn. destruct (minv_live _ _ n (inv_m _ _ Hinv) Hn) as (c & Hc).
  unfold map_erase. rewrite Hc. destruct (mp_get (pay c)) as [m|] eqn:Eg; [|eauto].
  destruct (dm_map m !! key) as [old|] eqn:El; [|eauto]. apply Hget in Eg.
  destruct (bump_inv st _ n c Hinv Hc) as (st1 & c1 & -> & Hi1 & Hc1 & Ep & _).
  destruct (drop_then_set st1 ext ext n c1 (mp_put (dm_erase key m)) [old] Hi1 Hc1 Hn)
    as (st2 & st3 & Hd & Hs & Hi & _).
  { rewrite Ep, Eg, !Hch, (dm_list_split _ _ _ El). simpl. by rewrite <- Permutation_middle. }
  cbn [foldM] in Hd. destruct (Decref (Some old) st1) as [st2'|]; [|done]. simplify_eq. rewrite Hs. eauto.
Qed.

Lemma map_clear_inv st ext n : inv st ext -> n ∈ ext ->
  exists st', map_clear (K := K) n st = Some st' /\ inv st' ext.
Proof using Hget Hch.
  intros Hinv Hn. destruct (minv_live _ _ n (inv_m _ _ Hinv) Hn) as (c & Hc).
  unfold map_clear. rewrite Hc. destruct (mp_get (pay c)) as [m|] eqn:Eg; [|eauto]. apply Hget in Eg.
  destruct (bump_inv st _ n c Hinv Hc) as (st1 & c1 & -> & Hi1 & Hc1 & Ep & _). rewrite foldM_snd.
  destruct (drop_then_set st1 ext ext n c1 (mp_put (dm_clear m)) (dm_list m).*2 Hi1 Hc1 Hn)
    as (st2 & st3 & Hd & Hs & Hi & _).
  { rewrite Ep, Eg, !Hch. by rewrite (dm_list_nil (dm_clear m)) by apply dm_clear_map. }
  rewrite Hd, Hs. eauto.
Qed.

End MapOpsInv.

Lemma push_back_inv st ext n e a c : inv st (e :: ext) -> n ∈ ext -> cells st !! n = Some c -> pay c = PArray a ->
  exists st', push_back n e st = Some st' /\ inv st' ext.
Proof.
  intros Hinv Hn Hc Ep. unfold push_back. rewrite Hc, Ep.
  destruct (drop_then_set st (e :: ext) ext n c (PArray (a ++ [e])) [] Hinv Hc Hn) as (st2 & st3 & Hd & Hs & Hi & _).
  { rewrite Ep. simpl. by rewrite <- app_assoc. }
  simplify_eq/=. eauto.
Qed.

Lemma ArrSet_inv st ext n index val : inv st (val :: ext) -> n ∈ ext -> 0 <= index ->
  exists st', ArrSet n index val st = Some st' /\ inv st' ext.
Proof.
  intros Hinv Hn Hi. destruct (minv_live _ _ n (inv_m _ _ Hinv)) as (c & Hc); [set_solver|].
  destruct (Decref_inv st ext val Hinv) as (std & Hdv & Hid & _).
  unfold ArrSet. rewrite Hc. destruct (pay c) as [| | | | |a| | |] eqn:Ep; eauto.
  destruct (Z.geb_spec index (Z.of_nat (length a))) as [Hge|Hlt]; eauto.
  destruct (lookup_lt_is_Some_2 a (Z.to_nat index)) as [old Hold]; [lia|]. rewrite Hold.
  destruct (drop_then_set st (val :: ext) ext n c (PArray (<[Z.to_nat index := val]> a)) [old] Hinv Hc Hn)
    as (st2 & st3 & Hd & Hs & Hi' & _).
  { rewrite Ep. simpl. rewrite insert_take_drop by lia.
    rewrite <- (take_drop_middle a (Z.to_nat index) old Hold) at 3.
    rewrite <- !app_assoc. simpl. apply Permutation_app_head.
    rewrite <- !Permutation_middle. apply perm_swap. }
  cbn [foldM] in Hd. destruct (Decref (Some old) st) as [st2'|]; [|done]. simplify_eq. eauto.
Qed.

Lemma ArrRemove_inv st ext n index : inv st ext -> n ∈ ext -> 0 <= index ->
  exists r st', ArrRemove n index st = Some (r, st') /\ inv st' ext.
Proof.
  intros Hinv Hn Hi. destruct (minv_live _ _ n (inv_m _ _ Hinv) Hn) as (c & Hc).
  unfold ArrRemove. rewrite Hc. destruct (pay c) as [| | | | |a| | |] eqn:Ep; eauto.
  destruct (Z.geb_spec index (Z.of_nat (length a))) as [Hge|Hlt]; eauto.
  destruct (lookup_lt_is_Some_2 a (Z.to_nat index)) as [old Hold]; [lia|]. rewrite Hold.
  destruct (drop_then_set st ext ext n c (PArray (delete (Z.to_nat index) a)) [old] Hinv Hc Hn)
    as (st2 & st3 & Hd & Hs & Hi' & _).
  { rewrite Ep. simpl. rewrite (delete_Permutation a (Z.to_nat index) old Hold) at 2.
    simpl. by rewrite <- Permutation_middle. }
  cbn [foldM] in Hd. destruct (Decref (Some old) st) as [st2'|]; [|done]. simplify_eq. rewrite Hs. eauto.
Qed.

Lemma ArrClear_inv st ext n : inv st ext -> n ∈ ext ->
  exists st', ArrClear n st = Some st' /\ inv st' ext.
Proof.
  intros Hinv Hn. destruct (minv_live _ _ n (inv_m _ _ Hinv) Hn) as (c & Hc).
  unfold ArrClear. rewrite Hc. destruct (pay c) as [| | | | |a| | |] eqn:Ep; eauto.
  destruct (drop_then_set st ext ext n c (PArray []) a Hinv Hc Hn) as (st2 & st3 & Hd & Hs & Hi' & _).
  { by rewrite Ep. }
  rewrite Hd, Hs. eauto.
Qed.

Lemma obj_get (p : payload) (q : dm bytes loc) : mp_get (K := bytes) p = Some q -> p = mp_put q.
Proof. destruct p; simpl; congruence. Qed.
Lemma int_get (p : payload) (q : dm Z loc) : mp_get (K := Z) p = Some q -> p = mp_put q.
Proof. destruct p; simpl; congruence. Qed.

Lemma obj_put (q : dm bytes loc) : mp_get (K := bytes) (mp_put q) = Some q.
Proof. done. Qed.
Lemma int_put (q : dm Z loc) : mp_get (K := Z) (mp_put q) = Some q.
Proof. done. Qed.
Lemma obj_children (q : dm bytes loc) : children (mp_put q) = (dm_list q).*2.
Proof. done. Qed.
Lemma int_children (q : dm Z loc) : children (mp_put q) = (dm_list q).*2.
Proof. done. Qed.

(** ** Clients

    A client holds references; the list [ext] has one entry for each.  It uses
    only nodes it holds (or, to take a further reference, live nodes), and a
    reference it passes to a container is the container's from then on.  An
    operation a client cannot perform changes nothing. *)

Inductive nop :=
  | NMake (p : payload) | NIncref (l : loc) | NDecref (l : loc)
  | NObjInsert (n : loc) (k : bytes) (v : loc) | NObjErase (n : loc) (k : bytes) | NObjClear (n : loc)
  | NIntMapInsert (n : loc) (k : Z) (v : loc) | NIntMapErase (n : loc) (k : Z) | NIntMapClear (n : loc)
  | NPushBack (n v : loc) | NArrSet (n : loc) (i : Z) (v : loc) | NArrRemove (n : loc) (i : Z) | NArrClear (n : loc).

(** Taking one occurrence out of the held references. *)
Fixpoint take_ref (l : loc) ext : option (list loc) :=
  match ext with
  | [] => None
  | x :: ext => if decide (x = l) then Some ext else let? r := take_ref l ext in Some (x :: r)
  end.

Lemma take_ref_Some l ext ext' : take_ref l ext = Some ext' -> ext ≡ₚ l :: ext'.
Proof.
  revert ext'. induction ext as [|x ext IH]; intros ext' H; simpl in H; [done|].
  case_decide; [by simplify_eq|]. destruct (take_ref l ext) as [e|]; [|done]. simplify_eq.
  rewrite (IH e eq_refl). apply perm_swap.
Qed.

(** Passing the reference [v] to an operation on the held node [n]. *)
Definition give (n v : loc) ext (st : store (P := P)) (f : store -> option store) : option (store * list loc) :=
  match take_ref v ext with
  | Some ext' => if decide (n ∈ ext') then (fun st => (st, ext')) <$> f st else Some (st, ext)
  | None => Some (st, ext)
  end.

(** An operation on the held node [n] that takes no reference. *)
Definition use (n : loc) ext (st : store (P := P)) (f : store -> option store) : option (store * list loc) :=
  if decide (n ∈ ext) then (fun st => (st, ext)) <$> f st else Some (st, ext).

Definition is_array (n : loc) st : bool :=
  match cells st !! n with Some c => match pay c with PArray _ => true | _ => false end | None => false end.

Definition napply (o : nop) st ext : option (store * list loc) :=
  match o with
  | NMake p => if decide (children p = []) then let? (l, s) := Make p st in Some (s, l :: ext) else Some (st, ext)
  | NIncref l => match cells st !! l with
                 | Some c => if refcount c <? 2 ^ 32 - 1 then let? s := Incref l st in Some (s, l :: ext)
                             else Some (st, ext)
                 | None => Some (st, ext)
                 end
  | NDecref l => match take_ref l ext with
                 | Some ext' => let? s := Decref (Some l) st in Some (s, ext')
                 | None => Some (st, ext)
                 end
  | NObjInsert n k v => give n v ext st (ObjInsert n k v)
  | NIntMapInsert n k v => give n v ext st (IntMapInsert n k v)
  | NPushBack n v => if is_array n st then give n v ext st (push_back n v) else Some (st, ext)
  | NArrSet n i v => if 0 <=? i then give n v ext st (ArrSet n i v) else Some (st, ext)
  | NObjErase n k => use n ext st (fun st => snd <$> ObjErase n k st)
  | NIntMapErase n k => use n ext st (fun st => snd <$> IntMapErase n k st)
  | NArrRemove n i => if 0 <=? i then use n ext st (fun st => snd <$> ArrRemove n i st) else Some (st, ext)
  | NObjClear n => use n ext st (ObjClear n)
  | NIntMapClear n => use n ext st (IntMapClear n)
  | NArrClear n => use n ext st (ArrClear n)
  end.

Fixpoint nrun (os : list nop) st ext : option (store * list loc) :=
  match os with [] => Some (st, ext) | o :: os => let? (s, e) := napply o st ext in nrun os s e end.

Lemma give_inv n v ext st f : inv st ext ->
  (forall ext', inv st (v :: ext') -> n ∈ ext' -> exists st', f st = Some st' /\ inv st' ext') ->
  exists st' ext', give n v ext st f = Some (st', ext') /\ inv st' ext'.
Proof.
  intros Hinv Hf. unfold give. destruct (take_ref v ext) as [ext'|] eqn:E; [|eauto].
  apply take_ref_Some in E. case_decide as Hn; [|eauto].
  destruct (Hf ext') as (st' & -> & Hi); [by eapply inv_perm|done|]. simpl. eauto.
Qed.

Lemma use_inv n ext st f : inv st ext ->
  (n ∈ ext -> exists st', f st = Some st' /\ inv st' ext) ->
  exists st' ext', use n ext st f = Some (st', ext') /\ inv st' ext'.
Proof.
  intros Hinv Hf. unfold use. case_decide as Hn; [|eauto]. destruct (Hf Hn) as (st' & -> & Hi). simpl. eauto.
Qed.

Lemma fmap_snd_inv {A} (o : option (A * store (P := P))) ext :
  (exists r st', o = Some (r, st') /\ inv st' ext) -> exists st', snd <$> o = Some st' /\ inv st' ext.
Proof. intros (r & st' & -> & H). simpl. eauto. Qed.

Lemma napply_inv o st ext : inv st ext -> exists st' ext', napply o st ext = Some (st', ext') /\ inv st' ext'.
Proof.
  intros Hinv. destruct o as [p|l|l|n k v|n k|n|n k v|n k|n|n v|n i v|n i|n]; simpl.
  - case_decide as Hp; [|eauto]. destruct (Make_inv st ext p Hinv Hp) as (l & st' & -> & Hi & _). eauto.
  - destruct (cells st !! l) as [c|] eqn:Hc; [|eauto]. destruct (Z.ltb_spec (refcount c) (2 ^ 32 - 1)); [|eauto].
    destruct (Incref_inv st ext l c) as (st' & -> & Hi); [done..|]. eauto.
  - destruct (take_ref l ext) as [ext'|] eqn:E; [|eauto]. apply take_ref_Some in E.
    destruct (Decref_inv st ext' l (inv_perm _ _ _ E Hinv)) as (st' & Hd & Hi & _). simpl in Hd. rewrite Hd. eauto.
  - apply give_inv; [done|]. intros ext' Hi Hn. apply map_insert_inv; [apply obj_get|done|done|done].
  - apply use_inv; [done|]. intros Hn. apply fmap_snd_inv, map_erase_inv; [apply obj_get|done|done|done].
  - apply use_inv; [done|]. intros Hn. apply map_clear_inv; [apply obj_get|done|done|done].
  - apply give_inv; [done|]. intros ext' Hi Hn. apply map_insert_inv; [apply int_get|done|done|done].
  - apply use_inv; [done|]. intros Hn. apply fmap_snd_inv, map_erase_inv; [apply int_get|done|done|done].
  - apply use_inv; [done|]. intros Hn. apply map_clear_inv; [apply int_get|done|done|done].
  - unfold is_array. destruct (cells st !! n) as [c|] eqn:Hc; [|eauto]. destruct (pay c) eqn:Ep; eauto.
    apply give_inv; [done|]. intros ext' Hi Hn. by eapply push_back_inv.
  - destruct (Z.leb_spec 0 i); [|eauto]. apply give_inv; [done|]. intros ext' Hi Hn. by apply ArrSet_inv.
  - destruct (Z.leb_spec 0 i); [|eauto]. apply use_inv; [done|]. intros Hn. by apply fmap_snd_inv, ArrRemove_inv.
  - apply use_inv; [done|]. intros Hn. by apply ArrClear_inv.
Qed.

Definition empty_store : store (P := P) := mkStore ∅ a_init.

Lemma empty_inv : inv empty_store [].
Proof. split; [split; [done|by intros ??]|]. simpl. rewrite dom_empty_L. apply a_init_inv. Qed.

Lemma nrun_inv os : forall st ext, inv st ext -> exists st' ext', nrun os st ext = Some (st', ext') /\ inv st' ext'.
Proof.
  induction os as [|o os IH]; intros st ext H; [simpl; eauto|].
  destruct (napply_inv o st ext H) as (st1 & ext1 & H1 & Hi). simpl. rewrite H1. by apply IH.
Qed.

(** ** Leaks *)

(** [l] is among the children of [d]. *)
Definition points m (d l : loc) : Prop := exists c, m !! d = Some c /\ l ∈ children (pay c).

Definition acyclic m : Prop := exists rank : loc -> nat, forall d l, points m d l -> (rank l < rank d)%nat.

Lemma refs_points l m : 0 < refs l m -> exists d, points m d l.
Proof.
  induction m as [|k c m Hk IH] using map_ind; [done|]. rewrite refs_insert by done. intros Hr.
  destruct (decide (l ∈ children (pay c))) as [Hin|Hout].
  - exists k, c. by rewrite lookup_insert_eq.
  - destruct IH as (d & c' & Hd & Hl).
    { assert (cnt l (children (pay c)) = 0); [|lia]. unfold cnt. 
      destruct (filter (fun x => x = l) (children (pay c))) as [|x xs] eqn:E; [done|].
      assert (x ∈ filter (fun x => x = l) (children (pay c))) as Hx by (rewrite E; constructor).
      apply list_elem_of_filter in Hx as [-> ?]. done. }
    exists d, c'. split; [|done]. rewrite lookup_insert_ne; [done|]. intros ->. congruence.
Qed.

(** The nodes of a finite heap have bounded rank. *)
Lemma rank_bound m (rank : loc -> nat) : exists b, forall l c, m !! l = Some c -> (rank l <= b)%nat.
Proof.
  induction m as [|k c m Hk [b IH]] using map_ind.
  - by exists 0%nat.
  - exists (Nat.max (rank k) b). intros l d. rewrite lookup_insert_Some. intros [[<- _]|[_ Hd]]; [lia|].
    specialize (IH l d Hd). lia.
Qed.

Lemma minv_reachable m ext l : minv m ext -> acyclic m -> is_Some (m !! l) ->
  exists r, r ∈ ext /\ rtc (points m) r l.
Proof.
  intros Hm [rank Hrank] Hl. destruct (rank_bound m rank) as [b Hb].
  remember (b - rank l)%nat as d eqn:Hd. revert l Hl Hd.
  induction (lt_wf d) as [d _ IH]. intros l [c Hc] ->.
  destruct (decide (l ∈ ext)) as [Hin|Hout]; [by exists l|].
  pose proof (minv_rc _ _ Hm l) as E. pose proof (minv_pos _ _ Hm l c Hc) as Hp.
  unfold rc in E. rewrite Hc in E. simpl in E.
  assert (cnt l ext = 0) as Hz.
  { unfold cnt. destruct (filter (fun x => x = l) ext) as [|x xs] eqn:Ef; [done|].
    assert (x ∈ filter (fun x => x = l) ext) as Hx by (rewrite Ef; constructor).
    apply list_elem_of_filter in Hx as [-> ?]. done. }
  destruct (refs_points l m ltac:(lia)) as (p & Hpl). pose proof (Hrank _ _ Hpl) as Hlt.
  pose proof Hpl as (cp & Hcp & _). pose proof (Hb p cp Hcp).
  destruct (IH (b - rank p)%nat ltac:(pose proof (Hb l c Hc); lia) p) as (r & Hr & Hrtc); [by eexists|done|].
  exists r. split; [done|]. eapply rtc_r; [done|]. exact Hpl.
Qed.


(** No leaks without cycles: every node of an acyclic heap is reachable from a
    reference some client holds, so a node nobody can reach has been freed. *)
Theorem no_leak (os : list nop) (st : store) (ext : list loc) :
  nrun os empty_store [] = Some (st, ext) -> acyclic (cells st) ->
  forall l, is_Some (cells st !! l) -> exists r, r ∈ ext /\ rtc (points (cells st)) r l.
Proof.
  intros Hrun Ha l Hl. destruct (nrun_inv os empty_store [] empty_inv) as (st' & ext' & Hrun' & Hi).
  rewrite Hrun in Hrun'. simplify_eq. by apply (minv_reachable _ _ _ (inv_m _ _ Hi)).
Qed.

End Refcount.

(** ** Witnesses: the pool allocator and the [gmap] instance of the hash map *)

#[local] Instance pool0 : NodeAllocator FixedPool := pool_allocator 0.

Definition script0 : list nop :=
  [NMake (PObject dm_new); NMake (PInt 7); NObjInsert 128 [107] 129; NMake (PArray []); NDecref 128].

Lemma no_leak_witness : exists st ext,
  nrun script0 empty_store [] = Some (st, ext) /\
  forall l, is_Some (cells st !! l) -> exists r, r ∈ ext /\ rtc (points (cells st)) r l.
Proof.
  destruct (nrun_inv script0 empty_store [] empty_inv) as (st & ext & Hrun & _).
  exists st, ext. split; [exact Hrun|].
  refine (no_leak script0 st ext Hrun _).
  assert ((fun r => bool_decide (map_Forall (fun _ c => children (pay c) = []) (cells r.1))) <$>
          nrun script0 empty_store [] = Some true) as E by (vm_compute; reflexivity).
  rewrite Hrun in E. injection E as E. apply bool_decide_eq_true in E.
  exists (fun _ => 0%nat). intros d l (c & Hc & Hl). rewrite (E d c Hc) in Hl. destruct (not_elem_of_nil _ Hl).
Defined.
