(* ===== verification/DataCopy.v ===== *)
(** * What nodes represent: [DeepCopy], [Equals] and [Merge] on trees

    [repr m l v]: in heap [m] the node at [l] stands for the value [v].
    [DeepCopy] gives a disjoint graph for the same value (strings cut at their
    first NUL, map entries possibly in another order), [Equals] computes
    [VEquals] of the two values. *)

From stdpp Require Import base numbers list gmap.
From Stdlib Require Import ZArith Lia.
From S2P Require Import Prelude NodePool DataMap DataValue DataNode DataRefcount.

(** Two lists related element by element, by recursion on the second. *)
Definition all2 {A B} (R : A -> B -> Prop) : list A -> list B -> Prop :=
  fix go xs ys {struct ys} :=
    match xs, ys with [], [] => True | x :: xs, y :: ys => R x y /\ go xs ys | _, _ => False end.

Lemma all2_Forall2 {A B} (R : A -> B -> Prop) xs ys : all2 R xs ys <-> Forall2 R xs ys.
Proof.
  revert xs. induction ys as [|y ys IH]; intros [|x xs]; simpl.
  - split; [constructor|done].
  - split; [done|by inversion 1].
  - split; [done|by inversion 1].
  - rewrite IH, Forall2_cons. done.
Qed.

Lemma Forall2_perm {A B} (R : A -> B -> Prop) xs xs' ys : xs ≡ₚ xs' -> Forall2 R xs ys ->
  exists ys', ys ≡ₚ ys' /\ Forall2 R xs' ys'.
Proof.
  intros Hp. revert ys. induction Hp as [|x xs xs' Hp IH|x y xs|xs1 xs2 xs3 H1 IH1 H2 IH2]; intros ys HF.
  - inversion HF. exists []. by split.
  - apply Forall2_cons_inv_l in HF as (y & ys' & ? & HF & ->). destruct (IH ys' HF) as (ys2 & ? & ?).
    exists (y :: ys2). split; [by constructor|by constructor].
  - apply Forall2_cons_inv_l in HF as (u & ys' & ? & HF & ->).
    apply Forall2_cons_inv_l in HF as (w & ys2 & ? & HF & ->).
    exists (w :: u :: ys2). split; [apply perm_swap|by repeat constructor].
  - destruct (IH1 ys HF) as (ys1 & E1 & HF1). destruct (IH2 ys1 HF1) as (ys2 & E2 & HF2).
    exists ys2. split; [by etrans|done].
Qed.

(** The value a deep copy has: [MakeString(c_str())] cuts strings. *)
Fixpoint cut (v : dval) : dval :=
  match v with
  | VString s => VString (cstr s)
  | VArray vs => VArray (cut <$> vs)
  | VObject kvs => VObject (on_snd cut <$> kvs)
  | VIntMap kvs => VIntMap (on_snd cut <$> kvs)
  | v => v
  end.

Section Trees.

Context {MO : DataMap bytes} {MI : DataMap Z} {P : Type} {PA : NodeAllocator P}.

Implicit Types (m : gmap loc DataNode) (st : store (P := P)) (ext : list loc).

(** Entries of a map in the heap against entries of a value. *)
Definition entry_repr {K} (R : loc -> dval -> Prop) (e : K * loc) (kv : K * dval) : Prop :=
  match e, kv with (k, l), (k', v) => k = k' /\ R l v end.

Fixpoint repr m (l : loc) (v : dval) {struct v} : Prop :=
  match m !! l with
  | None => False
  | Some c =>
      match v, pay c with
      | VNull, PNull => True
      | VBool b, PBool b' => b' = b
      | VInt z, PInt z' => z' = z
      | VFloat z, PFloat z' => z' = z
      | VString s, PString s' => s' = s
      | VBinary s, PBinary s' => s' = s
      | VArray vs, PArray a => all2 (repr m) a vs
      | VObject kvs, PObject q => all2 (fun e kv => match e, kv with (k, l), (k', v) => k = k' /\ repr m l v end) (dm_list q) kvs
      | VIntMap kvs, PIntMap q => all2 (fun e kv => match e, kv with (k, l), (k', v) => k = k' /\ repr m l v end) (dm_list q) kvs
      | _, _ => False
      end
  end.

(** The shape of a node that represents a value. *)
Definition repr_pay m (p : payload) (v : dval) : Prop :=
  match v, p with
  | VNull, PNull => True
  | VBool b, PBool b' => b' = b
  | VInt z, PInt z' => z' = z
  | VFloat z, PFloat z' => z' = z
  | VString s, PString s' => s' = s
  | VBinary s, PBinary s' => s' = s
  | VArray vs, PArray a => Forall2 (repr m) a vs
  | VObject kvs, PObject q => Forall2 (entry_repr (repr m)) (dm_list q) kvs
  | VIntMap kvs, PIntMap q => Forall2 (entry_repr (repr m)) (dm_list q) kvs
  | _, _ => False
  end.

Lemma repr_unfold m l v : repr m l v <-> exists c, m !! l = Some c /\ repr_pay m (pay c) v.
Proof.
  destruct v; cbn [repr]; destruct (m !! l) as [c|]; (split; [intros H; exists c; split; [done|]|intros (d & [= <-] & H)])
    || (split; [done|by intros (? & ? & _)]);
    destruct (pay c); cbn [repr_pay] in *; try done; by apply all2_Forall2.
Qed.

Lemma Forall2_entry_impl {K} (R R' : loc -> dval -> Prop) (es : list (K * loc)) kvs :
  Forall (fun kv => forall l, R l kv.2 -> R' l kv.2) kvs ->
  Forall2 (entry_repr R) es kvs -> Forall2 (entry_repr R') es kvs.
Proof.
  intros HF H. revert HF. induction H as [|[k l] [k' v] es kvs [-> Hv] H IH]; intros HF; constructor.
  - apply Forall_cons in HF as [Hh _]. split; [done|]. by apply Hh.
  - apply IH. by apply Forall_cons in HF as [_ ?].
Qed.

Lemma Forall2_repr_impl (R R' : loc -> dval -> Prop) (a : list loc) vs :
  Forall (fun v => forall l, R l v -> R' l v) vs -> Forall2 R a vs -> Forall2 R' a vs.
Proof.
  intros HF H. revert HF. induction H as [|l v a vs Hv H IH]; intros HF; constructor;
    apply Forall_cons in HF as [Hh HF]; auto.
Qed.

(** What is represented in a heap is represented in any heap that agrees on the
    nodes that remain, if the references of remaining nodes remain. *)
Lemma repr_transfer m m' (Q : loc -> Prop) :
  (forall l c, Q l -> m !! l = Some c -> exists c', m' !! l = Some c' /\ pay c' = pay c) ->
  (forall l c k, Q l -> m !! l = Some c -> k ∈ children (pay c) -> Q k) ->
  forall v l, Q l -> repr m l v -> repr m' l v.
Proof.
  intros Hm HQ. induction v as [| | | | |vs IH|kvs IH|kvs IH|] using dval_ind'; intros l Hl; rewrite !repr_unfold;
    intros (c & Hc & Hp); destruct (Hm l c Hl Hc) as (c' & Hc' & E); exists c'; (split; [done|]); rewrite E;
    pose proof (HQ l c) as Hk; destruct (pay c); try done; cbn [repr_pay children] in *.
  - assert (Forall Q a) as HQa by (apply Forall_forall; eauto). clear Hk E. revert IH HQa.
    induction Hp as [|x v a vs Hv Hp IHp]; intros IH HQa; constructor;
      apply Forall_cons in IH as [IHv IH]; apply Forall_cons in HQa as [HQx HQa]; auto.
  - assert (Forall Q (dm_list m0).*2) as HQa by (apply Forall_forall; eauto). clear Hk E.
    revert Hp IH HQa. generalize (dm_list m0). intros es Hes.
    induction Hes as [|[k x] [k' v] es kvs [-> Hv] Hes IHp]; intros IH HQa; constructor;
      apply Forall_cons in IH as [IHv IH]; apply Forall_cons in HQa as [HQx HQa]; [split; auto|auto].
  - assert (Forall Q (dm_list m0).*2) as HQa by (apply Forall_forall; eauto). clear Hk E.
    revert Hp IH HQa. generalize (dm_list m0). intros es Hes.
    induction Hes as [|[k x] [k' v] es kvs [-> Hv] Hes IHp]; intros IH HQa; constructor;
      apply Forall_cons in IH as [IHv IH]; apply Forall_cons in HQa as [HQx HQa]; [split; auto|auto].
Qed.

Lemma repr_mono m m' l v : m ⊆ m' -> repr m l v -> repr m' l v.
Proof.
  intros Hs. apply (repr_transfer m m' (fun _ => True)); [|done|done].
  intros k c _ Hc. exists c. split; [|done]. by eapply lookup_weaken.
Qed.

(** Keys of a represented map are distinct, in the heap and in the value. *)
Lemma entry_keys {K} (R : loc -> dval -> Prop) (es : list (K * loc)) kvs :
  Forall2 (entry_repr R) es kvs -> es.*1 = kvs.*1.
Proof. induction 1 as [|[k l] [k' v] es kvs [-> _] _ IH]; [done|]. simpl. by f_equal. Qed.

Lemma repr_vwf m : forall v l, repr m l v -> vwf v.
Proof.
  induction v as [| | | | |vs IH|kvs IH|kvs IH|] using dval_ind'; intros l; try done; rewrite repr_unfold;
    intros (c & _ & Hp); destruct (pay c); try done; cbn [repr_pay vwf] in *; rewrite foldr_and.
  - apply Forall_forall. intros v Hv. rewrite Forall_forall in IH.
    apply list_elem_of_lookup_1 in Hv as (i & Hi). destruct (Forall2_lookup_r _ _ _ _ _ Hp Hi) as (x & _ & Hx).
    eapply IH; [by eapply list_elem_of_lookup_2|exact Hx].
  - split; [rewrite <- (entry_keys _ _ _ Hp); apply dm_list_NoDup|].
    apply Forall_forall. intros [k v] Hv. rewrite Forall_forall in IH.
    apply list_elem_of_lookup_1 in Hv as (i & Hi). destruct (Forall2_lookup_r _ _ _ _ _ Hp Hi) as ([k' x] & _ & _ & Hx).
    eapply (IH (k, v)); [by eapply list_elem_of_lookup_2|exact Hx].
  - split; [rewrite <- (entry_keys _ _ _ Hp); apply dm_list_NoDup|].
    apply Forall_forall. intros [k v] Hv. rewrite Forall_forall in IH.
    apply list_elem_of_lookup_1 in Hv as (i & Hi). destruct (Forall2_lookup_r _ _ _ _ _ Hp Hi) as ([k' x] & _ & _ & Hx).
    eapply (IH (k, v)); [by eapply list_elem_of_lookup_2|exact Hx].
Qed.

(** A node stands for one value. *)
Lemma repr_inj m : forall v w l, repr m l v -> repr m l w -> v = w.
Proof.
  induction v as [| | | | |vs IH|kvs IH|kvs IH|] using dval_ind'; intros w l; rewrite !repr_unfold;
    intros (c & Hc & Hv) (c' & Hc' & Hw); assert (c' = c) as -> by congruence; clear Hc'; destruct (pay c), w; cbn [repr_pay] in *; try done; try congruence.
  - f_equal. clear Hc. revert vs0 Hw IH. induction Hv as [|x v a vs Hv _ IHa]; intros ws Hw IH.
    + by inversion Hw.
    + apply Forall2_cons_inv_l in Hw as (w & ws' & Hw1 & Hw & ->). apply Forall_cons in IH as [IHv IH].
      f_equal; [by eapply IHv|by apply IHa].
  - f_equal. clear Hc. revert Hv kvs0 Hw IH. generalize (dm_list m0). intros es Hv.
    induction Hv as [|[k x] [k' v] a vs [-> Hv] _ IHa]; intros ws Hw IH.
    + by inversion Hw.
    + apply Forall2_cons_inv_l in Hw as ([k2 w] & ws' & [-> Hw1] & Hw & ->). apply Forall_cons in IH as [IHv IH].
      f_equal; [f_equal; by eapply IHv|by apply IHa].
  - f_equal. clear Hc. revert Hv kvs0 Hw IH. generalize (dm_list m0). intros es Hv.
    induction Hv as [|[k x] [k' v] a vs [-> Hv] _ IHa]; intros ws Hw IH.
    + by inversion Hw.
    + apply Forall2_cons_inv_l in Hw as ([k2 w] & ws' & [-> Hw1] & Hw & ->). apply Forall_cons in IH as [IHv IH].
      f_equal; [f_equal; by eapply IHv|by apply IHa].
Qed.

(** ** Depth *)

Lemma foldr_max_attained {A} (f : A -> nat) xs : let n := foldr (fun x n => Nat.max (f x) n) 0%nat xs in
  n = 0%nat \/ exists x, x ∈ xs /\ f x = n.
Proof.
  induction xs as [|x xs [IH|(y & Hy & IH)]]; simpl in *; [by left|..].
  - rewrite IH, Nat.max_0_r. right. exists x. split; [constructor|done].
  - right. destruct (Nat.max_spec (f x) (foldr (fun x n => Nat.max (f x) n) 0%nat xs)) as [[_ ->]|[_ ->]].
    + exists y. split; [by constructor|done].
    + exists x. split; [constructor|done].
Qed.

(** A descending path as long as the value is deep. *)
Definition deep_path m (v : dval) : Prop := exists ls : list loc, length ls = depth v /\ NoDup ls /\
  forall x, x ∈ ls -> is_Some (m !! x) /\ exists u, repr m x u /\ (depth u <= depth v)%nat.

Lemma deep_path_one m l v : repr m l v -> depth v = 1%nat -> deep_path m v.
Proof.
  intros Hr Hd. exists [l]. split_and!; [by rewrite Hd|apply NoDup_singleton|].
  intros x ->%list_elem_of_singleton. pose proof Hr as (c & Hc & _)%repr_unfold. split; [by exists c|]. by exists v.
Qed.

Lemma deep_path_cons m l v u : repr m l v -> deep_path m u -> depth v = S (depth u) -> deep_path m v.
Proof.
  intros Hr (ls & Hl & Hnd & Hx) Hd. exists (l :: ls). split_and!.
  - simpl. lia.
  - apply NoDup_cons. split; [|done]. intros Hin. destruct (Hx l Hin) as (_ & w & Hw & Hle).
    rewrite (repr_inj m v w l Hr Hw) in Hd. lia.
  - intros x [->|Hin]%elem_of_cons.
    + pose proof Hr as (c & Hc & _)%repr_unfold. split; [by exists c|]. by exists v.
    + destruct (Hx x Hin) as (? & w & ? & ?). split; [done|]. exists w. split; [done|lia].
Qed.

Lemma Forall2_in_r {A B} (R : A -> B -> Prop) xs ys y : Forall2 R xs ys -> y ∈ ys -> exists x, x ∈ xs /\ R x y.
Proof.
  intros HF (i & Hi)%list_elem_of_lookup_1. destruct (Forall2_lookup_r _ _ _ _ _ HF Hi) as (x & Hx & ?).
  exists x. split; [by eapply list_elem_of_lookup_2|done].
Qed.

Lemma repr_deep_path m : forall v l, repr m l v -> deep_path m v.
Proof.
  induction v as [| | | | |vs IH|kvs IH|kvs IH|] using dval_ind'; intros l Hr;
    try (by eapply deep_path_one); pose proof Hr as (c & _ & Hp)%repr_unfold; destruct (pay c); try done;
    cbn [repr_pay] in Hp; rewrite Forall_forall in IH.
  - destruct (foldr_max_attained depth vs) as [E|(v & Hv & E)]; cbv zeta in E.
    + eapply deep_path_one; [done|]. simpl. by rewrite E.
    + destruct (Forall2_in_r _ _ _ _ Hp Hv) as (x & _ & Hx).
      eapply (deep_path_cons _ _ _ v); [done|by eapply IH|]. simpl. by rewrite E.
  - destruct (foldr_max_attained (fun e => depth e.2) kvs) as [E|([k v] & Hv & E)]; cbv zeta in E.
    + eapply deep_path_one; [done|]. simpl. by rewrite E.
    + destruct (Forall2_in_r _ _ _ _ Hp Hv) as ([k' x] & _ & _ & Hx).
      eapply (deep_path_cons _ _ _ v); [done|by eapply (IH (k, v))|]. simpl in *. by rewrite E.
  - destruct (foldr_max_attained (fun e => depth e.2) kvs) as [E|([k v] & Hv & E)]; cbv zeta in E.
    + eapply deep_path_one; [done|]. simpl. by rewrite E.
    + destruct (Forall2_in_r _ _ _ _ Hp Hv) as ([k' x] & _ & _ & Hx).
      eapply (deep_path_cons _ _ _ v); [done|by eapply (IH (k, v))|]. simpl in *. by rewrite E.
Qed.

Lemma repr_depth_size m l v : repr m l v -> (depth v <= size m)%nat.
Proof.
  intros (ls & Hl & Hnd & Hx)%repr_deep_path. rewrite <- Hl, <- (size_dom (D := gset loc)).
  apply NoDup_subset_length; [done|]. intros x Hin. apply elem_of_elements, elem_of_dom. by apply Hx.
Qed.

(** ** [Equals] *)

Lemma entry_find {K} `{DataMap K} m (q : dm K loc) kvs k l :
  Forall2 (entry_repr (repr m)) (dm_list q) kvs -> dm_map q !! k = Some l ->
  exists v, find_key k kvs = Some v /\ repr m l v.
Proof.
  intros HF Hk%elem_of_dm_list. apply list_elem_of_lookup_1 in Hk as (i & Hi).
  destruct (Forall2_lookup_l _ _ _ _ _ HF Hi) as ([k' v] & Hv & [-> Hr]). exists v. split; [|done].
  apply find_key_Some; [rewrite <- (entry_keys _ _ _ HF); apply dm_list_NoDup|by eapply list_elem_of_lookup_2].
Qed.

Lemma entry_find_None {K} `{DataMap K} m (q : dm K loc) kvs k :
  Forall2 (entry_repr (repr m)) (dm_list q) kvs -> dm_map q !! k = None -> find_key k kvs = None.
Proof.
  intros HF Hk. apply find_key_None. rewrite <- (entry_keys _ _ _ HF), dm_list_map.
  intros ([k' x] & -> & Hx)%list_elem_of_fmap. apply elem_of_map_to_list in Hx. simpl in *. congruence.
Qed.

(** The comparison loops against the loops on values. *)
Lemma equals_list_loop st fuel : forall a b vs ws,
  Forall2 (repr (cells st)) a vs -> Forall2 (repr (cells st)) b ws -> length a = length b ->
  Forall (fun v => forall w x y, repr (cells st) x v -> repr (cells st) y w -> equals fuel x y st = Some (VEquals v w)) vs ->
  (fix go a b := match a, b with
     | u :: a, w :: b => let? r := equals fuel u w st in if r then go a b else Some false
     | _, _ => Some true end) a b = Some (list_eq VEquals vs ws).
Proof.
  induction a as [|x a IH]; intros b vs ws Ha Hb Hl HF.
  - destruct b; [|done]. inversion Ha. by inversion Hb.
  - destruct b as [|y b]; [done|]. apply Forall2_cons_inv_l in Ha as (v & vs' & Hv & Ha & ->).
    apply Forall2_cons_inv_l in Hb as (w & ws' & Hw & Hb & ->). apply Forall_cons in HF as [HFv HF].
    rewrite (HFv w x y Hv Hw). simpl. destruct (VEquals v w); [|done]. apply IH; [done..| |done]. by injection Hl.
Qed.

Lemma equals_entry_loop {K} `{DataMap K} st fuel (q' : dm K loc) kws :
  Forall2 (entry_repr (repr (cells st))) (dm_list q') kws ->
  forall es kvs, Forall2 (entry_repr (repr (cells st))) es kvs ->
  Forall (fun e => forall w x y, repr (cells st) x e.2 -> repr (cells st) y w -> equals fuel x y st = Some (VEquals e.2 w)) kvs ->
  (fix go l := match l with
     | [] => Some true
     | (k, u) :: l => match dm_map q' !! k with
                      | None => Some false
                      | Some w => let? r := equals fuel u w st in if r then go l else Some false
                      end
     end) es =
  Some (forallb (fun e => match find_key e.1 kws with Some w => VEquals e.2 w | None => false end) kvs).
Proof.
  intros Hq es kvs HF. induction HF as [|[k x] [k' v] es kvs [-> Hv] HF IH]; intros HE; [done|].
  apply Forall_cons in HE as [HEv HE]. simpl. destruct (dm_map q' !! k') as [y|] eqn:Ek.
  - destruct (entry_find _ _ _ _ _ Hq Ek) as (w & -> & Hw). rewrite (HEv w x y Hv Hw). simpl in *.
    destruct (VEquals v w); [by apply IH|done].
  - by rewrite (entry_find_None _ _ _ _ Hq Ek).
Qed.

Lemma list_eq_length (R : dval -> dval -> bool) vs ws : length vs <> length ws -> list_eq R vs ws = false.
Proof.
  revert ws. induction vs as [|v vs IH]; intros [|w ws] H; simpl in *; try done.
  rewrite IH by congruence. apply andb_false_r.
Qed.

(** One level of [Equals] for each container, given the level below. *)
Definition equals_below st (fuel : nat) (v : dval) : Prop :=
  forall w x y, repr (cells st) x v -> repr (cells st) y w -> equals fuel x y st = Some (VEquals v w).

Lemma equals_maps {K} `{DataMap K} st fuel (q1 q2 : dm K loc) kvs kws :
  Forall2 (entry_repr (repr (cells st))) (dm_list q1) kvs ->
  Forall2 (entry_repr (repr (cells st))) (dm_list q2) kws ->
  Forall (fun e => equals_below st fuel e.2) kvs ->
  (if (length (dm_list q1) =? length (dm_list q2))%nat then
     (fix go l := match l with
        | [] => Some true
        | (k, u) :: l => match dm_map q2 !! k with
                         | None => Some false
                         | Some w => let? r := equals fuel u w st in if r then go l else Some false
                         end
        end) (dm_list q1)
   else Some false) = Some (entries_eq VEquals kvs kws).
Proof.
  intros H1 H2 HE. unfold entries_eq. rewrite <- (Forall2_length _ _ _ H1), <- (Forall2_length _ _ _ H2).
  destruct (length (dm_list q1) =? length (dm_list q2))%nat; [|done].
  by rewrite (equals_entry_loop st fuel q2 kws H2 _ _ H1 HE).
Qed.

Lemma equals_spec st : forall fuel v w x y, repr (cells st) x v -> repr (cells st) y w -> (depth v <= fuel)%nat ->
  equals fuel x y st = Some (VEquals v w).
Proof.
  induction fuel as [|fuel IH]; intros v w x y Hx Hy Hd; [destruct v; simpl in Hd; lia|].
  pose proof Hx as (cx & Hcx & Hpx)%repr_unfold. pose proof Hy as (cy & Hcy & Hpy)%repr_unfold.
  cbn [equals]. rewrite Hcx, Hcy.
  assert (forall v, (depth v <= fuel)%nat -> equals_below st fuel v) as Hb.
  { intros v' Hle w' x' y' ? ?. by apply IH. }
  destruct v as [|b|z|z|s|vs|kvs|kvs|s]; destruct (pay cx) as [|b1|z1|z1|s1|a1|q1|q1|s1] eqn:Ex; try done;
  destruct w as [|b'|z'|z'|s'|ws|kws|kws|s']; destruct (pay cy) as [|b2|z2|z2|s2|a2|q2|q2|s2] eqn:Ey; try done;
    cbn [repr_pay] in *; subst; try done; cbn [VEquals]; cbn [depth] in Hd; apply le_S_n in Hd.
  - destruct (Nat.eqb_spec (length a1) (length a2)) as [E|E].
    + apply equals_list_loop; [done..|]. apply Forall_forall. intros v Hv. apply Hb.
      pose proof (foldr_max_le depth vs v Hv). lia.
    + rewrite list_eq_length; [done|]. by rewrite <- (Forall2_length _ _ _ Hpx), <- (Forall2_length _ _ _ Hpy).
  - apply equals_maps; [done..|]. apply Forall_forall. intros e He. apply Hb.
    pose proof (foldr_max_le (fun e => depth e.2) kvs e He). simpl in *. lia.
  - apply equals_maps; [done..|]. apply Forall_forall. intros e He. apply Hb.
    pose proof (foldr_max_le (fun e => depth e.2) kvs e He). simpl in *. lia.
Qed.

(** ** [DeepCopy] *)

(** Reordering the entries and exchanging their values for equivalent ones
    gives an equivalent map. *)
Lemma entries_equiv {K} `{Countable K} (ws ws' kvs : list (K * dval)) :
  ws ≡ₚ ws' -> NoDup ws.*1 -> Forall2 (fun e e' => e.1 = e'.1 /\ e.2 ≡ e'.2) ws kvs ->
  canon (on_snd norm <$> ws') = canon (on_snd norm <$> kvs).
Proof.
  intros Hp Hnd HF. apply canon_ext. intros k. rewrite !find_key_on_snd, <- (find_key_perm k ws ws' Hnd Hp).
  clear Hp Hnd ws'. induction HF as [|[k1 v] [k2 w] ws kvs [Hk Hv] _ IH]; [done|]. simpl in *. subst k2.
  case_decide; [|done]. simpl. f_equal. exact Hv.
Qed.

(** What copying one node achieves: the copy's nodes are new. *)
Definition copies st ext l' st' v : Prop :=
  inv st' (l' :: ext) /\ cells st ⊆ cells st' /\
  exists v', repr (cells st' ∖ cells st) l' v' /\ v' ≡ cut v /\ vwf v'.

Definition copy_ok (f : loc -> store (P := P) -> option (loc * store)) (v : dval) : Prop :=
  forall st ext l, inv st ext -> repr (cells st) l v ->
  exists l' st', f l st = Some (l', st') /\ copies st ext l' st' v.

Lemma difference_insert_new m k c : m !! k = None -> <[k := c]> m ∖ m = {[k := c]}.
Proof.
  intros Hk. apply map_eq. intros i. rewrite lookup_difference.
  destruct (decide (i = k)) as [->|Hne].
  - by rewrite Hk, lookup_insert_eq, lookup_singleton_eq.
  - rewrite lookup_insert_ne, lookup_singleton_ne by done. by destruct (m !! i) eqn:E.
Qed.

Lemma Make_copies st ext p v : inv st ext -> children p = [] -> (forall m, repr_pay m p v) -> vwf v ->
  forall w, v ≡ cut w -> exists l' st', Make p st = Some (l', st') /\ copies st ext l' st' w.
Proof.
  intros Hinv Hp Hr Hwf w Hw. destruct (Make_inv st ext p Hinv Hp) as (l & st' & Hm & Hi & Hl & Hc).
  exists l, st'. split; [done|]. split_and!; [done|rewrite Hc; by apply insert_subseteq|].
  exists v. split_and!; [|done|done]. rewrite Hc, difference_insert_new by done.
  apply repr_unfold. eexists. rewrite lookup_singleton_eq. split; [done|]. apply Hr.
Qed.

(** The loops that fill a fresh container [n]: the nodes other than [n] that
    are not in the initial heap [m0] carry the copies made so far. *)
Section Loops.

Context (m0 : gmap loc DataNode) (n : loc) (Hn0 : m0 !! n = None).
Context (f : loc -> store (P := P) -> option (loc * store (P := P))).

Definition fresh_part st : gmap loc DataNode := delete n (cells st) ∖ m0.

Lemma fresh_part_mono st st' : delete n (cells st) ⊆ delete n (cells st') -> fresh_part st ⊆ fresh_part st'.
Proof.
  intros Hs. apply map_subseteq_spec. intros k c. unfold fresh_part. rewrite !lookup_difference_Some.
  intros [Hk ?]. split; [|done]. by eapply lookup_weaken.
Qed.

(** Copying one child keeps the container and what has been copied. *)
Lemma copy_child st ext c l v : inv st (n :: ext) -> cells st !! n = Some c -> m0 ⊆ cells st ->
  repr m0 l v -> copy_ok f v ->
  exists e st1, f l st = Some (e, st1) /\ inv st1 (e :: n :: ext) /\ cells st1 !! n = Some c /\
    m0 ⊆ cells st1 /\ delete n (cells st) ⊆ delete n (cells st1) /\
    exists w, repr (fresh_part st1) e w /\ w ≡ cut v /\ vwf w.
Proof.
  intros Hinv Hc Hm0 Hl Hf. destruct (Hf st (n :: ext) l Hinv) as (e & st1 & Hfe & Hi & Hs & w & Hw & Ew & Hwf).
  { by eapply repr_mono. }
  exists e, st1. split_and!; [done|done|by eapply lookup_weaken|by etrans|by apply delete_mono|].
  exists w. split_and!; [|done|done]. eapply repr_mono; [|exact Hw].
  apply map_subseteq_spec. intros k d [Hk Hkn]%lookup_difference_Some. unfold fresh_part.
  apply lookup_difference_Some. split.
  - rewrite lookup_delete_ne; [done|]. intros ->. congruence.
  - destruct (m0 !! k) as [d0|] eqn:E; [|done]. eapply lookup_weaken in E; [|exact Hm0]. congruence.
Qed.

(** Storing into the container leaves the rest alone. *)
Lemma fresh_part_put st c pl : fresh_part (mkStore (<[n := c]> (cells st)) pl) = fresh_part st.
Proof. unfold fresh_part. simpl. by rewrite delete_insert_eq. Qed.

Lemma array_loop ext : forall a vs st done wd c,
  inv st (n :: ext) -> cells st !! n = Some c -> pay c = PArray done -> m0 ⊆ cells st ->
  Forall2 (repr m0) a vs -> Forall (copy_ok f) vs ->
  Forall2 (repr (fresh_part st)) done wd ->
  exists st' c' done' wd', foldM (fun elem st => let? (e, st) := f elem st in push_back n e st) a st = Some st' /\
    inv st' (n :: ext) /\ cells st' !! n = Some c' /\ pay c' = PArray (done ++ done') /\ m0 ⊆ cells st' /\
    Forall2 (repr (fresh_part st')) (done ++ done') (wd ++ wd') /\
    Forall2 (fun w v => w ≡ cut v /\ vwf w) wd' vs.
Proof using Hn0.
  induction a as [|x a IH]; intros vs st done wd c Hinv Hc Hp Hm0 Ha Hok Hd.
  - inversion Ha; subst. exists st, c, [], []. rewrite !app_nil_r. split_and!; [done..|constructor].
  - apply Forall2_cons_inv_l in Ha as (v & vs' & Hx & Ha & ->). apply Forall_cons in Hok as [Hv Hok].
    destruct (copy_child st ext c x v Hinv Hc Hm0 Hx Hv) as (e & st1 & He & Hi1 & Hc1 & Hm1 & Hs1 & w & Hw & Ew & Hwf).
    destruct (push_back_inv st1 (n :: ext) n e done c Hi1) as (st2 & Hpb & Hi2); [constructor|done|done|].
    assert (st2 = mkStore (<[n := with_pay (PArray (done ++ [e])) c]> (cells st1)) (pool st1)) as ->.
    { unfold push_back in Hpb. rewrite Hc1, Hp in Hpb. unfold set_pay in Hpb. rewrite Hc1 in Hpb.
      by injection Hpb as <-. }
    destruct (IH vs' (mkStore (<[n := with_pay (PArray (done ++ [e])) c]> (cells st1)) (pool st1))
                (done ++ [e]) (wd ++ [w]) (with_pay (PArray (done ++ [e])) c))
      as (st' & c' & done' & wd' & Hr & Hi' & Hc' & Hp' & Hm' & HF & HE); try done.
    + apply lookup_insert_eq.
    + simpl. by apply insert_subseteq_r.
    + rewrite fresh_part_put. apply Forall2_app; [|by repeat constructor].
      eapply Forall2_impl; [exact Hd|]. intros ? ?. apply repr_mono, fresh_part_mono. done.
    + exists st', c', (e :: done'), (w :: wd'). rewrite <- app_assoc in Hp'.
      rewrite <- (app_assoc done), <- (app_assoc wd) in HF.
      split_and!; [|exact Hi'|exact Hc'|exact Hp'|exact Hm'|exact HF|by constructor].
      cbn [foldM]. rewrite He, Hpb. exact Hr.
Qed.

(** The same for a map; the entries are stored in the order they are copied,
    [es], which need not be the order in which the new map iterates. *)
Section MapLoop.

Context {K : Type} {EqK : EqDecision K} {CK : Countable K} {DK : DataMap K} {MP : MapPayload K}.
Context (Hput : forall q : dm K loc, mp_get (mp_put q) = Some q)
        (Hget : forall p (q : dm K loc), mp_get p = Some q -> p = mp_put q)
        (Hch : forall q : dm K loc, children (mp_put q) = (dm_list q).*2).

Lemma map_insert_new st c (q : dm K loc) k e : cells st !! n = Some c -> pay c = mp_put q -> dm_map q !! k = None ->
  map_insert n k e st =
  Some (mkStore (<[n := mkNode (uN 24 (version c + 1)) (refcount c) (mp_put (dm_set k e q))]> (cells st)) (pool st)).
Proof using Hput.
  intros Hc Hp Hk. unfold map_insert, bump, set_pay, put. rewrite Hc, Hp, Hput, Hk. simpl.
  rewrite lookup_insert_eq. simpl. by rewrite insert_insert_eq.
Qed.

Lemma map_loop ext : forall es kvs st (q : dm K loc) des wd c,
  inv st (n :: ext) -> cells st !! n = Some c -> pay c = mp_put q -> m0 ⊆ cells st ->
  Forall2 (entry_repr (repr m0)) es kvs -> Forall (fun e => copy_ok f e.2) kvs ->
  dm_list q ≡ₚ des -> NoDup (des ++ es).*1 -> Forall2 (entry_repr (repr (fresh_part st))) des wd ->
  exists st' c' q' des' wd',
    foldM (fun kv st => let? (e, st) := f kv.2 st in map_insert n kv.1 e st) es st = Some st' /\
    inv st' (n :: ext) /\ cells st' !! n = Some c' /\ pay c' = mp_put q' /\ m0 ⊆ cells st' /\
    dm_list q' ≡ₚ des ++ des' /\ Forall2 (entry_repr (repr (fresh_part st'))) (des ++ des') (wd ++ wd') /\
    Forall2 (fun w kv => w.1 = kv.1 /\ w.2 ≡ cut kv.2 /\ vwf w.2) wd' kvs.
Proof using Hn0 Hput Hget Hch.
  induction es as [|[k x] es IH]; intros kvs st q des wd c Hinv Hc Hp Hm0 Ha Hok Hq Hnd Hd.
  - inversion Ha; subst. exists st, c, q, [], []. rewrite !app_nil_r. split_and!; [done..|constructor].
  - apply Forall2_cons_inv_l in Ha as ([k' v] & kvs' & [<- Hx] & Ha & ->). apply Forall_cons in Hok as [Hv Hok].
    destruct (copy_child st ext c x v Hinv Hc Hm0 Hx Hv) as (e & st1 & He & Hi1 & Hc1 & Hm1 & Hs1 & w & Hw & Ew & Hwf).
    assert (dm_map q !! k = None) as Hk.
    { destruct (dm_map q !! k) as [y|] eqn:E; [|done]. apply elem_of_dm_list in E. rewrite Hq in E.
      rewrite fmap_app in Hnd. apply list.NoDup_app in Hnd as (_ & Hnd & _). exfalso. apply (Hnd k); [|constructor].
      by apply (list_elem_of_fmap_2 fst) in E. }
    destruct (map_insert_inv Hget Hch st1 (n :: ext) n k e Hi1) as (st2 & Hpb & Hi2); [constructor|].
    rewrite (map_insert_new st1 c q k e Hc1 Hp Hk) in Hpb. set (c2 := mkNode _ _ _) in Hpb.
    injection Hpb as <-.
    destruct (IH kvs' (mkStore (<[n := c2]> (cells st1)) (pool st1)) (dm_set k e q)
                (des ++ [(k, e)]) (wd ++ [(k, w)]) c2)
      as (st' & c' & q' & des' & wd' & Hr & Hi' & Hc' & Hp' & Hm' & Hq' & HF & HE); try done.
    + apply lookup_insert_eq.
    + simpl. by apply insert_subseteq_r.
    + rewrite dm_list_set_fresh by done. rewrite Hq. by rewrite Permutation_app_comm.
    + rewrite !fmap_app, <- app_assoc. by rewrite fmap_app in Hnd.
    + rewrite fresh_part_put. apply Forall2_app; [|by repeat constructor].
      eapply Forall2_impl; [exact Hd|]. intros [k1 x1] [k2 v2] [Ek Hx1]. split; [exact Ek|].
      exact (repr_mono _ _ _ _ (fresh_part_mono st st1 Hs1) Hx1).
    + exists st', c', q', ((k, e) :: des'), ((k, w) :: wd'). rewrite <- (app_assoc des) in Hq'.
      rewrite <- (app_assoc des), <- (app_assoc wd) in HF.
      split_and!; [|exact Hi'|exact Hc'|exact Hp'|exact Hm'|exact Hq'|exact HF|by constructor].
      cbn [foldM]. simpl. rewrite He, (map_insert_new st1 c q k e Hc1 Hp Hk). exact Hr.
Qed.

End MapLoop.

End Loops.

Lemma fresh_part_sub m0 n st : fresh_part m0 n st ⊆ cells st ∖ m0.
Proof.
  apply map_subseteq_spec. intros k c. unfold fresh_part. rewrite !lookup_difference_Some, lookup_delete_Some. naive_solver.
Qed.

(** The container itself is new. *)
Lemma repr_new m0 n st c v : m0 !! n = None -> cells st !! n = Some c -> repr_pay (cells st ∖ m0) (pay c) v ->
  repr (cells st ∖ m0) n v.
Proof. intros Hn Hc Hp. apply repr_unfold. exists c. split; [|done]. by apply lookup_difference_Some. Qed.

Lemma copy_array fuel vs st ext a : inv st ext -> Forall2 (repr (cells st)) a vs ->
  Forall (copy_ok (deep_copy fuel)) vs ->
  exists n st1 st', MakeArray st = Some (n, st1) /\
    foldM (fun elem st => let? (e, st) := deep_copy fuel elem st in push_back n e st) a st1 = Some st' /\
    copies st ext n st' (VArray vs).
Proof.
  intros Hinv Ha Hok. destruct (Make_inv st ext (PArray []) Hinv eq_refl) as (n & st1 & Hm & Hi1 & Hn & Hc1).
  destruct (array_loop (cells st) n Hn (deep_copy fuel) ext a vs st1 [] [] (mkNode 0 1 (PArray [])))
    as (st' & c' & done' & wd' & Hr & Hi' & Hc' & Hp' & Hm' & HF & HE); try done.
  - by rewrite Hc1, lookup_insert_eq.
  - rewrite Hc1. by apply insert_subseteq.
  - exists n, st1, st'. split_and!; [done..|]. split_and!; [done..|]. exists (VArray wd'). split_and!.
    + apply (repr_new (cells st) n st' c'); [done..|]. rewrite Hp'. simpl.
      eapply Forall2_impl; [exact HF|]. intros ? ?. apply repr_mono, fresh_part_sub.
    + unfold equiv, dval_equiv. simpl. f_equal. clear -HE.
      induction HE as [|w v wd vs [Ew _] _ IH]; [done|]. simpl. f_equal; [exact Ew|exact IH].
    + simpl. apply foldr_and. clear -HE. induction HE as [|w v wd vs [_ Hw] _ IH]; by constructor.
Qed.

Section CopyMap.

Context {K : Type} {EqK : EqDecision K} {CK : Countable K} {DK : DataMap K} {MP : MapPayload K}.
Context (Hput : forall q : dm K loc, mp_get (mp_put q) = Some q)
        (Hget : forall p (q : dm K loc), mp_get p = Some q -> p = mp_put q)
        (Hch : forall q : dm K loc, children (mp_put q) = (dm_list q).*2).
Context (V : list (K * dval) -> dval)
        (Vpay : forall m q ws, Forall2 (entry_repr (repr m)) (dm_list q) ws -> repr_pay m (mp_put q) (V ws))
        (Vequiv : forall ws kvs, canon (on_snd norm <$> ws) = canon (on_snd norm <$> (on_snd cut <$> kvs)) -> V ws ≡ cut (V kvs))
        (Vwf : forall ws, NoDup ws.*1 -> Forall (fun e => vwf e.2) ws -> vwf (V ws)).

Lemma copy_map fuel kvs st ext (q : dm K loc) : inv st ext ->
  Forall2 (entry_repr (repr (cells st))) (dm_list q) kvs ->
  Forall (fun e => copy_ok (deep_copy fuel) e.2) kvs ->
  exists n st1 st', Make (mp_put dm_new) st = Some (n, st1) /\
    foldM (fun kv st => let? (e, st) := deep_copy fuel kv.2 st in map_insert n kv.1 e st) (dm_list q) st1 = Some st' /\
    copies st ext n st' (V kvs).
Proof using Hput Hget Hch Vpay Vequiv Vwf.
  intros Hinv Ha Hok.
  assert (dm_list (dm_new (K := K) (A := loc)) = []) as Hnil by (apply dm_list_nil, dm_new_map).
  destruct (Make_inv st ext (mp_put dm_new) Hinv) as (n & st1 & Hm & Hi1 & Hn & Hc1); [by rewrite Hch, Hnil|].
  destruct (map_loop (cells st) n Hn (deep_copy fuel) Hput Hget Hch ext (dm_list q) kvs st1 dm_new [] []
              (mkNode 0 1 (mp_put dm_new)))
    as (st' & c' & q' & des' & wd' & Hr & Hi' & Hc' & Hp' & Hm' & Hq' & HF & HE); try done.
  - by rewrite Hc1, lookup_insert_eq.
  - rewrite Hc1. by apply insert_subseteq.
  - by rewrite Hnil.
  - apply dm_list_NoDup.
  - exists n, st1, st'. split_and!; [done..|]. split_and!; [done..|]. simpl in *.
    destruct (Forall2_perm _ _ _ _ (symmetry Hq') HF) as (ws & Hws & HFw).
    assert (NoDup wd'.*1) as Hnd by (rewrite <- (entry_keys _ _ _ HF), <- Hq'; apply dm_list_NoDup).
    exists (V ws). split_and!.
    + apply (repr_new (cells st) n st' c'); [done..|]. rewrite Hp'. apply Vpay.
      eapply Forall2_impl; [exact HFw|]. intros [? ?] [? ?] [? Hx]. split; [done|].
      exact (repr_mono _ _ _ _ (fresh_part_sub _ _ _) Hx).
    + apply Vequiv, (entries_equiv wd' ws); [done..|]. clear -HE.
      induction HE as [|w e wd kvs (Ek & Ew & _) _ IH]; constructor; done.
    + apply Vwf; [by rewrite <- Hws|]. rewrite <- Hws. clear -HE.
      induction HE as [|w e wd kvs (_ & _ & Hw) _ IH]; by constructor.
Qed.

End CopyMap.

Lemma deep_copy_spec fuel : forall v, (depth v <= fuel)%nat -> copy_ok (deep_copy fuel) v.
Proof.
  induction fuel as [|fuel IH]; intros v Hd st ext l Hinv Hr; [destruct v; simpl in Hd; lia|].
  apply repr_unfold in Hr as (c & Hc & Hp). cbn [deep_copy]. rewrite Hc.
  assert (forall p, children p = [] -> (forall m, repr_pay m p (cut v)) -> vwf (cut v) ->
    exists l' st', Make p st = Some (l', st') /\ copies st ext l' st' v) as Hleaf.
  { intros p H1 H2 H3. by apply (Make_copies st ext p (cut v)). }
  destruct v as [|b|z|z|s|vs|kvs|kvs|s]; destruct (pay c); try done; cbn [repr_pay] in Hp; cbn [depth] in Hd; subst;
    try (by apply Hleaf).
  - destruct (copy_array fuel vs st ext a Hinv Hp) as (n & st1 & st' & -> & -> & Hcp); [|eauto].
    apply Forall_forall. intros v Hv. apply IH. pose proof (foldr_max_le depth vs v Hv). lia.
  - destruct (copy_map obj_put obj_get obj_children VObject) with
      (fuel := fuel) (kvs := kvs) (st := st) (ext := ext) (q := m) as (n & st1 & st' & Hm & Hf & Hcp); try done.
    + intros ws kws E. unfold equiv, dval_equiv. simpl. by rewrite E.
    + intros ws Hnd HF. simpl. by rewrite foldr_and.
    + apply Forall_forall. intros e He. apply IH. pose proof (foldr_max_le (fun e => depth e.2) kvs e He). simpl in *. lia.
    + unfold MakeObject. simpl in Hm. rewrite Hm. unfold ObjInsert. rewrite Hf. eauto.
  - destruct (copy_map int_put int_get int_children VIntMap) with
      (fuel := fuel) (kvs := kvs) (st := st) (ext := ext) (q := m) as (n & st1 & st' & Hm & Hf & Hcp); try done.
    + intros ws kws E. unfold equiv, dval_equiv. simpl. by rewrite E.
    + intros ws Hnd HF. simpl. by rewrite foldr_and.
    + apply Forall_forall. intros e He. apply IH. pose proof (foldr_max_le (fun e => depth e.2) kvs e He). simpl in *. lia.
    + unfold MakeIntMap. simpl in Hm. rewrite Hm. unfold IntMapInsert. rewrite Hf. eauto.
Qed.

(** Values whose strings hold no NUL: a copy is an exact copy. *)
Fixpoint nul_free (v : dval) : Prop :=
  match v with
  | VString s => Forall (fun b => b <> 0) s
  | VArray vs => foldr (fun v Q => nul_free v /\ Q) True vs
  | VObject kvs => foldr (fun e Q => nul_free e.2 /\ Q) True kvs
  | VIntMap kvs => foldr (fun e Q => nul_free e.2 /\ Q) True kvs
  | _ => True
  end.

Lemma cstr_id s : Forall (fun b => b <> 0) s -> cstr s = s.
Proof.
  induction 1 as [|b s Hb _ IH]; [done|]. simpl. rewrite (proj2 (Z.eqb_neq b 0) Hb). by rewrite IH.
Qed.

Lemma on_snd_id {K} (f : dval -> dval) (l : list (K * dval)) :
  Forall (fun e => f e.2 = e.2) l -> on_snd f <$> l = l.
Proof. induction 1 as [|[k v] l Hv _ IH]; [done|]. simpl. f_equal; [|done]. unfold on_snd. simpl in *. by rewrite Hv. Qed.

Lemma cut_id v : nul_free v -> cut v = v.
Proof.
  induction v as [| | | |s|vs IH|kvs IH|kvs IH|] using dval_ind'; simpl; try done.
  - intros H. by rewrite cstr_id.
  - rewrite foldr_and. intros H. f_equal. induction vs as [|v vs IHvs]; [done|]. rewrite Forall_cons in *.
    simpl. f_equal; naive_solver.
  - rewrite foldr_and. intros H. f_equal. apply on_snd_id. rewrite !Forall_forall in *. naive_solver.
  - rewrite foldr_and. intros H. f_equal. apply on_snd_id. rewrite !Forall_forall in *. naive_solver.
Qed.

Lemma DeepCopy_copies st ext l v : inv st ext -> repr (cells st) l v ->
  exists l' st', DeepCopy l st = Some (l', st') /\ copies st ext l' st' v.
Proof.
  intros Hinv Hr. apply deep_copy_spec; [|done..]. pose proof (repr_depth_size _ _ _ Hr). lia.
Qed.

Lemma Equals_spec st x y v w : repr (cells st) x v -> repr (cells st) y w -> Equals x (Some y) st = Some (VEquals v w).
Proof. intros Hx Hy. apply equals_spec; [done..|]. pose proof (repr_depth_size _ _ _ Hx). lia. Qed.

(** C22: [DeepCopy] of a node that stands for a value returns, for any shape and
    sharing of the graph below it, a fresh graph (none of its nodes existed
    before) for the same value, with its strings cut at the first NUL; the
    caller holds the only reference to it and the original is untouched. *)
Theorem DeepCopy_correct (st : store (P := P)) (ext : list loc) (l : loc) (v : dval) :
  inv st ext -> repr (cells st) l v ->
  exists l' st' v', DeepCopy l st = Some (l', st') /\ inv st' (l' :: ext) /\ cells st ⊆ cells st' /\
    repr (cells st' ∖ cells st) l' v' /\ v' ≡ cut v.
Proof.
  intros Hinv Hr. destruct (DeepCopy_copies st ext l v Hinv Hr) as (l' & st' & Hd & Hi & Hs & v' & Hv & He & _).
  exists l', st', v'. by split_and!.
Qed.


(** A copy equals its original, for [Equals], when the value has no NaN and no
    NUL byte inside a string. *)
Theorem copy_equals (st : store (P := P)) (ext : list loc) (l : loc) (v : dval) :
  inv st ext -> repr (cells st) l v -> nul_free v -> nan_free v ->
  exists l' st', DeepCopy l st = Some (l', st') /\ Equals l (Some l') st' = Some true.
Proof.
  intros Hinv Hr Hnul Hnan.
  destruct (DeepCopy_copies st ext l v Hinv Hr) as (l' & st' & Hd & Hi & Hs & v' & Hv & He & Hw).
  exists l', st'. split; [done|]. rewrite (Equals_spec st' l l' v v').
  - f_equal. pose proof (repr_vwf _ _ _ Hr). rewrite cut_id in He by done.
    rewrite (VEquals_equiv v v v' v) by done. by apply VEquals_refl.
  - by eapply repr_mono.
  - eapply repr_mono; [|exact Hv]. apply map_subseteq_spec. by intros k c [? _]%lookup_difference_Some.
Qed.

End Trees.

(** ** Witnesses and two behaviours of the code, on the pool allocator *)

#[local] Instance pool0 : NodeAllocator FixedPool := pool_allocator 0.

(** An array of a shared string, and an object. *)
Definition script1 : list nop :=
  [NMake (PString [65]); NMake (PArray []); NIncref 128; NPushBack 129 128; NPushBack 129 128;
   NMake (PObject dm_new); NMake (PInt 3); NObjInsert 130 [107] 131; NPushBack 129 130].

Definition tree1 : dval := VArray [VString [65]; VString [65]; VObject [([107], VInt 3)]].

Lemma script1_repr : exists st ext, nrun script1 empty_store [] = Some (st, ext) /\ inv st ext /\
  repr (cells st) 129 tree1.
Proof.
  destruct (nrun_inv script1 empty_store [] empty_inv) as (st & ext & Hrun & Hi).
  exists st, ext. split; [exact Hrun|]. split; [exact Hi|].
  assert (match nrun script1 empty_store [] with Some (st, _) => repr (cells st) 129 tree1 | None => False end) as Hr
    by (vm_compute; tauto).
  rewrite Hrun in Hr. exact Hr.
Qed.

Lemma DeepCopy_correct_witness : exists st ext, nrun script1 empty_store [] = Some (st, ext) /\
  exists l' st' v', DeepCopy 129 st = Some (l', st') /\ inv st' (l' :: ext) /\ cells st ⊆ cells st' /\
    repr (cells st' ∖ cells st) l' v' /\ v' ≡ cut tree1.
Proof.
  destruct script1_repr as (st & ext & Hrun & Hi & Hr). exists st, ext. split; [exact Hrun|].
  exact (DeepCopy_correct st ext 129 tree1 Hi Hr).
Defined.


Lemma copy_equals_witness : exists st ext, nrun script1 empty_store [] = Some (st, ext) /\
  exists l' st', DeepCopy 129 st = Some (l', st') /\ Equals 129 (Some l') st' = Some true.
Proof.
  destruct script1_repr as (st & ext & Hrun & Hi & Hr). exists st, ext. split; [exact Hrun|].
  apply (copy_equals st ext 129 tree1 Hi Hr); simpl; [|tauto].
  repeat split; repeat constructor; discriminate.
Defined.

(** The string ["A\0B"]. *)
Definition nul_string : list nop := [NMake (PString [65; 0; 66])].

(** A string with a NUL inside does not survive [DeepCopy]: the copy of
    ["A\0B"] is ["A"], and [Equals] tells them apart. *)
Theorem DeepCopy_cuts_strings : exists st ext l' st',
  nrun nul_string empty_store [] = Some (st, ext) /\ repr (cells st) 128 (VString [65; 0; 66]) /\
  DeepCopy 128 st = Some (l', st') /\ repr (cells st') l' (VString [65]) /\
  Equals 128 (Some l') st' = Some false.
Proof.
  destruct (nrun_inv nul_string empty_store [] empty_inv) as (st & ext & Hrun & Hi).
  assert (match nrun nul_string empty_store [] with
          | Some (st, _) => repr (cells st) 128 (VString [65; 0; 66]) /\ match DeepCopy 128 st with
              | Some (l', st') => repr (cells st') l' (VString [65]) /\ Equals 128 (Some l') st' = Some false
              | None => False end
          | None => False end) as H by (vm_compute; tauto).
  rewrite Hrun in H. destruct H as [Hr H]. destruct (DeepCopy 128 st) as [[l' st']|] eqn:E; [|destruct H].
  exists st, ext, l', st'. split; [exact Hrun|]. split; [exact Hr|]. split; [exact E|exact H].
Qed.

(** Merging into [a] an object whose value under some key contains [a] itself
    reads a freed node: with [a = {"k": 3}] and [b = {"k": a}], the overwriting
    [a.Merge(b)] frees [a["k"]] and then copies [a], whose slot still holds
    the freed block.  The pool hands that block out again for the copy, so the
    merged value is [{"k": {}}] where the entry of [b] was [{"k": 3}]. *)
Theorem ObjMerge_self_reference : exists st ext st',
  nrun [NMake (PObject dm_new); NMake (PInt 3); NObjInsert 128 [107] 129; NMake (PObject dm_new);
        NIncref 128; NObjInsert 130 [107] 128] empty_store [] = Some (st, ext) /\
  inv st ext /\ ext = [130%nat; 128%nat] /\
  repr (cells st) 130 (VObject [([107], VObject [([107], VInt 3)])]) /\
  ObjMerge 128 (Some 130%nat) true st = Some st' /\
  repr (cells st') 128 (VObject [([107], VObject [([107], VObject [])])]).
Proof.
  set (os := [NMake (PObject dm_new); NMake (PInt 3); NObjInsert 128 [107] 129; NMake (PObject dm_new);
              NIncref 128; NObjInsert 130 [107] 128]).
  destruct (nrun_inv os empty_store [] empty_inv) as (st & ext & Hrun & Hi).
  assert (match nrun os empty_store [] with
          | Some (st, ext) => ext = [130%nat; 128%nat] /\
              repr (cells st) 130 (VObject [([107], VObject [([107], VInt 3)])]) /\
              match ObjMerge 128 (Some 130%nat) true st with
              | Some st' => repr (cells st') 128 (VObject [([107], VObject [([107], VObject [])])])
              | None => False end
          | None => False end) as H by (vm_compute; tauto).
  rewrite Hrun in H. destruct H as (E & Hr & Hm).
  destruct (ObjMerge 128 (Some 130%nat) true st) as [st'|] eqn:Em; [|destruct Hm]. exists st, ext, st'.
  split; [exact Hrun|]. split; [exact Hi|]. split; [exact E|]. split; [exact Hr|]. split; [exact Em|exact Hm].
Qed.
