(* ===== verification/MsgPack.v ===== *)
(** * [src/msgpack/msgpack_parse.cpp], [src/msgpack/msgpack_serialize.cpp]

    The parser reads a byte buffer through a [Reader] whose [pos] is a [size_t]
    of [W] bits.  Its functions are translated as state transformers over
    [pos] and the number of [DataNode]s that are allocated and not yet freed;
    [None] is a read outside the buffer.  A node is the value it stands for
    ([DataValue.v]); [Make*] adds one node and [Decref] removes the nodes of a
    tree, which nobody else references while it is being parsed.

    The serializer returns the bytes it appends to its output. *)

From stdpp Require Import base numbers list gmap.
From Stdlib Require Import ZArith Lia.
From S2P Require Import Prelude DataValue Float.

(** ** The serializer *)

Definition write_u8 (v : Z) : bytes := [uN 8 v].
Definition write_u16 (v : Z) : bytes := [uN 8 (Z.shiftr v 8); uN 8 v].
Definition write_u32 (v : Z) : bytes :=
  [uN 8 (Z.shiftr v 24); uN 8 (Z.shiftr v 16); uN 8 (Z.shiftr v 8); uN 8 v].
Definition write_u64 (v : Z) : bytes := write_u32 (uN 32 (Z.shiftr v 32)) ++ write_u32 (uN 32 v).
Definition write_f64 (bits : Z) : bytes := write_u64 bits.

Definition len (s : bytes) : Z := Z.of_nat (length s).

Lemma len_nonneg (s : bytes) : 0 <= len s.
Proof. unfold len. lia. Qed.

Lemma len_app (s t : bytes) : len (s ++ t) = len s + len t.
Proof. unfold len. rewrite length_app. lia. Qed.

Definition write_msgpack_str (s : bytes) : bytes :=
  (if len s <=? 31 then write_u8 (Z.lor 0xa0 (uN 8 (len s)))
   else if len s <=? 0xff then write_u8 0xd9 ++ write_u8 (uN 8 (len s))
   else if len s <=? 0xffff then write_u8 0xda ++ write_u16 (uN 16 (len s))
   else write_u8 0xdb ++ write_u32 (uN 32 (len s))) ++ s.

Definition write_msgpack_int (v : Z) : bytes :=
  if v >=? 0 then
    if v <=? 0x7f then write_u8 v
    else if v <=? 0xff then write_u8 0xcc ++ write_u8 v
    else if v <=? 0xffff then write_u8 0xcd ++ write_u16 (uN 16 v)
    else if v <=? 0xffffffff then write_u8 0xce ++ write_u32 (uN 32 v)
    else write_u8 0xcf ++ write_u64 (uN 64 v)
  else
    if v >=? -32 then write_u8 (sN 8 v)
    else if v >=? -128 then write_u8 0xd0 ++ write_u8 (sN 8 v)
    else if v >=? -32768 then write_u8 0xd1 ++ write_u16 (uN 16 (sN 16 v))
    else if v >=? -2147483648 then write_u8 0xd2 ++ write_u32 (uN 32 (sN 32 v))
    else write_u8 0xd3 ++ write_u64 (uN 64 v).

Definition write_msgpack_map_header (count : Z) : bytes :=
  if count <=? 15 then write_u8 (Z.lor 0x80 (uN 8 count))
  else if count <=? 0xffff then write_u8 0xde ++ write_u16 (uN 16 count)
  else write_u8 0xdf ++ write_u32 (uN 32 count).

Definition write_array_header (count : Z) : bytes :=
  if count <=? 15 then write_u8 (Z.lor 0x90 (uN 8 count))
  else if count <=? 0xffff then write_u8 0xdc ++ write_u16 (uN 16 count)
  else write_u8 0xdd ++ write_u32 (uN 32 count).

Definition write_msgpack_bin (b : bytes) : bytes :=
  (if len b <=? 0xff then write_u8 0xc4 ++ write_u8 (uN 8 (len b))
   else if len b <=? 0xffff then write_u8 0xc5 ++ write_u16 (uN 16 (len b))
   else write_u8 0xc6 ++ write_u32 (uN 32 (len b))) ++ b.

Fixpoint serialize_node (v : dval) : bytes :=
  match v with
  | VNull => write_u8 0xc0
  | VBool b => write_u8 (if b then 0xc3 else 0xc2)
  | VInt z => write_msgpack_int z
  | VFloat bits => write_u8 0xcb ++ write_f64 bits
  | VString s => write_msgpack_str s
  | VArray vs => write_array_header (Z.of_nat (length vs)) ++
                 foldr (fun v out => serialize_node v ++ out) [] vs
  | VObject kvs => write_msgpack_map_header (Z.of_nat (length kvs)) ++
                   foldr (fun e out => write_msgpack_str e.1 ++ serialize_node e.2 ++ out) [] kvs
  | VIntMap kvs => write_msgpack_map_header (Z.of_nat (length kvs)) ++
                   foldr (fun e out => write_msgpack_int e.1 ++ serialize_node e.2 ++ out) [] kvs
  | VBinary b => write_msgpack_bin b
  end.

Definition MsgPackSerialize (v : dval) : bytes := serialize_node v.

(** ** The parser *)

Record rstate := mkR { pos : Z; live : Z }.

Definition kMaxDepth : Z := 256.

(** [MsgPackSetMaxElements], [MsgPackGetMaxElements]: the global limit. *)
Definition default_max_elements : Z := 1000000.
Definition MsgPackSetMaxElements (limit : Z) : Z := if limit >? 0 then limit else default_max_elements.
Definition MsgPackGetMaxElements (limit : Z) : Z := limit.

Section Parser.

Context (W : Z) (data : bytes) (g_max_container_elements : Z).

Definition M (A : Type) : Type := rstate -> option (A * rstate).

Definition ret {A} (a : A) : M A := fun s => Some (a, s).
Definition bind {A B} (m : M A) (k : A -> M B) : M B := fun s => let? (a, s) := m s in k a s.

#[local] Notation "x <- m ;; k" := (bind m (fun x => k)) (at level 100, m at next level, right associativity).

(** [data[i]] *)
Definition at_ (i : Z) : M Z := fun s =>
  if i <? 0 then None else let? b := data !! Z.to_nat i in Some (b, s).

Definition get_pos : M Z := fun s => Some (pos s, s).
Definition advance (n : Z) : M unit := fun s => Some (tt, mkR (uN W (pos s + n)) (live s)).

Definition has (n : Z) : M bool := fun s => Some (uN W (pos s + n) <=? len data, s).

Definition read_u8 : M Z := p <- get_pos;; b <- at_ p;; _ <- advance 1;; ret b.

Definition read_u16 : M Z :=
  p <- get_pos;; b0 <- at_ p;; b1 <- at_ (uN W (p + 1));;
  _ <- advance 2;; ret (uN 16 (Z.lor (Z.shiftl b0 8) b1)).

Definition read_u32 : M Z :=
  p <- get_pos;; b0 <- at_ p;; b1 <- at_ (uN W (p + 1));; b2 <- at_ (uN W (p + 2));; b3 <- at_ (uN W (p + 3));;
  _ <- advance 4;;
  ret (uN 32 (Z.lor (Z.lor (Z.lor (Z.shiftl b0 24) (Z.shiftl b1 16)) (Z.shiftl b2 8)) b3)).

Definition read_u64 : M Z :=
  hi <- read_u32;; lo <- read_u32;; ret (uN 64 (Z.lor (Z.shiftl hi 32) lo)).

Definition read_f32 : M Z := read_u32.
Definition read_f64 : M Z := read_u64.

(** [read_bytes(n)], and the copy of these [n] bytes its callers make. *)
Definition read_bytes (n : Z) : M bytes := fun s =>
  if pos s + n <=? len data
  then Some (take (Z.to_nat n) (drop (Z.to_nat (pos s)) data), mkR (uN W (pos s + n)) (live s))
  else None.

(** Nodes: [None] is [nullptr]. *)
Definition make (v : dval) : M (option dval) := fun s => Some (Some v, mkR (pos s) (live s + 1)).
Definition decref (v : option dval) : M unit := fun s =>
  Some (tt, mkR (pos s) (live s - match v with Some v => node_count v | None => 0 end)).
Definition null : M (option dval) := ret None.

(** [if (!r.has(n)) return nullptr;] *)
Definition need (n : Z) (k : M (option dval)) : M (option dval) :=
  b <- has n;; if b then k else null.

(** [ObjInsert] and [IntMapInsert] on a fresh node: an existing entry is
    released and its value replaced, a new key goes in. *)
Definition map_put {K} `{EqDecision K} (k : K) (v : dval) (kvs : list (K * dval)) : M (list (K * dval)) :=
  match find_key k kvs with
  | Some old => _ <- decref (Some old);; ret (set_key k v kvs)
  | None => ret (set_key k v kvs)
  end.

Section Level.

(** [read_node(r, depth + 1)] *)
Context (read_child : M (option dval)).

(** The element loop of [read_array]; [acc] is what the array holds. *)
Fixpoint array_loop (n : nat) (acc : list dval) : M (option dval) :=
  match n with
  | O => ret (Some (VArray acc))
  | S n => elem <- read_child;;
           match elem with
           | None => _ <- decref (Some (VArray acc));; null
           | Some v => array_loop n (acc ++ [v])
           end
  end.

Definition read_array (count : Z) : M (option dval) :=
  if count >? g_max_container_elements then null else
  _ <- make (VArray []);; array_loop (Z.to_nat count) [].

Fixpoint intmap_loop (n : nat) (acc : list (Z * dval)) : M (option dval) :=
  match n with
  | O => ret (Some (VIntMap acc))
  | S n => key_node <- read_child;;
           match key_node with
           | Some (VInt key) =>
               _ <- decref key_node;; val <- read_child;;
               match val with
               | None => _ <- decref (Some (VIntMap acc));; null
               | Some v => acc <- map_put key v acc;; intmap_loop n acc
               end
           | _ => _ <- decref key_node;; _ <- decref (Some (VIntMap acc));; null
           end
  end.

Fixpoint object_loop (n : nat) (acc : list (bytes * dval)) : M (option dval) :=
  match n with
  | O => ret (Some (VObject acc))
  | S n => key_node <- read_child;;
           match key_node with
           | Some (VString key) =>
               _ <- decref key_node;; val <- read_child;;
               match val with
               | None => _ <- decref (Some (VObject acc));; null
               | Some v => acc <- map_put key v acc;; object_loop n acc
               end
           | _ => _ <- decref key_node;; _ <- decref (Some (VObject acc));; null
           end
  end.

Definition read_map (count : Z) : M (option dval) :=
  if count =? 0 then make (VObject []) else
  if count >? g_max_container_elements then null else
  need 1 (
    p <- get_pos;; peek <- at_ p;;
    let int_keys := (peek <=? 0x7f) || (peek >=? 0xe0) || ((peek >=? 0xcc) && (peek <=? 0xd3)) in
    let str_keys := (Z.land peek 0xe0 =? 0xa0) || ((peek >=? 0xd9) && (peek <=? 0xdb)) in
    if negb int_keys && negb str_keys then null else
    if int_keys then _ <- make (VIntMap []);; intmap_loop (Z.to_nat count) []
    else _ <- make (VObject []);; object_loop (Z.to_nat count) []).

(** A length field, then that many bytes. *)
Definition read_str (read_len : M Z) : M (option dval) :=
  n <- read_len;; need n (s <- read_bytes n;; make (VString s)).
Definition read_bin (read_len : M Z) : M (option dval) :=
  n <- read_len;; need n (s <- read_bytes n;; make (VBinary s)).

(** The part of [read_node] after the tag byte [b] has been read. *)
Definition read_tagged (b : Z) : M (option dval) :=
  if b <=? 0x7f then make (VInt b)
  else if b >=? 0xe0 then make (VInt (sN 8 b))
  else if Z.land b 0xf0 =? 0x80 then read_map (Z.land b 0x0f)
  else if Z.land b 0xf0 =? 0x90 then read_array (Z.land b 0x0f)
  else if Z.land b 0xe0 =? 0xa0 then
    need (Z.land b 0x1f) (s <- read_bytes (Z.land b 0x1f);; make (VString s))
  else match b with
  | 0xc0 => make VNull
  | 0xc2 => make (VBool false)
  | 0xc3 => make (VBool true)
  | 0xc4 => need 1 (read_bin read_u8)
  | 0xc5 => need 2 (read_bin read_u16)
  | 0xc6 => need 4 (read_bin read_u32)
  | 0xca => need 4 (f <- read_f32;; make (VFloat (f32_to_f64 f)))
  | 0xcb => need 8 (f <- read_f64;; make (VFloat f))
  | 0xcc => need 1 (n <- read_u8;; make (VInt n))
  | 0xcd => need 2 (n <- read_u16;; make (VInt n))
  | 0xce => need 4 (n <- read_u32;; make (VInt n))
  | 0xcf => need 8 (n <- read_u64;; make (VInt (sN 64 n)))
  | 0xd0 => need 1 (n <- read_u8;; make (VInt (sN 8 n)))
  | 0xd1 => need 2 (n <- read_u16;; make (VInt (sN 16 n)))
  | 0xd2 => need 4 (n <- read_u32;; make (VInt (sN 32 n)))
  | 0xd3 => need 8 (n <- read_u64;; make (VInt (sN 64 n)))
  | 0xd9 => need 1 (read_str read_u8)
  | 0xda => need 2 (read_str read_u16)
  | 0xdb => need 4 (read_str read_u32)
  | 0xdc => need 2 (n <- read_u16;; read_array n)
  | 0xdd => need 4 (n <- read_u32;; read_array n)
  | 0xde => need 2 (n <- read_u16;; read_map n)
  | 0xdf => need 4 (n <- read_u32;; read_map n)
  | _ => null                      (* 0xc1, ext 0xc7-0xc9, fixext 0xd4-0xd8 *)
  end.

End Level.

(** [read_node(r, depth)], with [levels] the levels left: [kMaxDepth + 1 - depth].
    The recursion ends where the source's depth test fails. *)
Fixpoint read_node (levels : nat) : M (option dval) :=
  match levels with
  | O => null                                         (* depth > kMaxDepth *)
  | S levels => need 1 (b <- read_u8;; read_tagged (read_node levels) b)
  end.

Definition MsgPackParse : option (option dval * Z) :=
  if len data =? 0 then Some (None, 0) else
  match read_node (S (Z.to_nat kMaxDepth)) (mkR 0 0) with
  | None => None
  | Some (result, s) =>
      match result with
      | Some v => if negb (pos s =? len data) then Some (None, live s - node_count v)
                  else Some (Some v, live s)
      | None => Some (None, live s)
      end
  end.

(** ** Memory safety and accounting *)

Section Safety.

Context (HW : 0 < W) (Hfit : len data + 2 ^ 32 <= 2 ^ W) (Hbytes : Forall is_byte data).

(** [okp n m Q]: with [n] bytes left, [m] reads inside the buffer and returns
    [a] with the number of live nodes changed by [d], where [Q a d]. *)
Definition okp {A} (n : Z) (m : M A) (Q : A -> Z -> Prop) : Prop :=
  forall s, 0 <= pos s -> pos s + n <= len data ->
  exists a s', m s = Some (a, s') /\ pos s <= pos s' <= len data /\ Q a (live s' - live s).

Lemma okp_bind {A B} n (m : M A) (k : A -> M B) Q R :
  okp n m Q -> (forall a d, Q a d -> okp 0 (k a) (fun b d' => R b (d + d'))) -> okp n (bind m k) R.
Proof.
  intros Hm Hk s H0 Hn. destruct (Hm s H0 Hn) as (a & s1 & E & Hp & HQ).
  destruct (Hk a _ HQ s1 ltac:(lia) ltac:(lia)) as (b & s2 & E2 & Hp2 & HR). exists b, s2.
  unfold bind. rewrite E. split_and!; [done|lia|lia|]. by replace (live s2 - live s) with (live s1 - live s + (live s2 - live s1)) by lia.
Qed.

Lemma okp_ret {A} n (a : A) (Q : A -> Z -> Prop) : 0 <= n -> Q a 0 -> okp n (ret a) Q.
Proof. intros Hn HQ s H0 Hs. exists a, s. split_and!; [done|lia|lia|]. by rewrite Z.sub_diag. Qed.

Lemma okp_weaken {A} n n' (m : M A) (Q R : A -> Z -> Prop) :
  okp n m Q -> n <= n' -> (forall a d, Q a d -> R a d) -> okp n' m R.
Proof.
  intros Hm Hn HQ s H0 Hs. destruct (Hm s H0 ltac:(lia)) as (a & s' & E & Hp & Hq). exists a, s'. auto.
Qed.

Lemma byte_at i b : data !! i = Some b -> is_byte b.
Proof. intros H. rewrite Forall_forall in Hbytes. apply Hbytes. by eapply list_elem_of_lookup_2. Qed.

Lemma at_ok i s : 0 <= i < len data -> exists b, at_ i s = Some (b, s) /\ is_byte b.
Proof.
  intros Hi. unfold at_. rewrite (proj2 (Z.ltb_ge i 0)) by lia.
  destruct (lookup_lt_is_Some_2 data (Z.to_nat i)) as [b Hb]; [unfold len in Hi; lia|].
  exists b. rewrite Hb. split; [done|]. by eapply byte_at.
Qed.

Lemma uW x : 0 <= x < len data + 2 ^ 32 -> uN W x = x.
Proof. intros Hx. apply u_id. unfold u_range. lia. Qed.

(** The fixed-width reads. *)
Ltac read_step :=
  match goal with
  | |- context [at_ ?i ?s] =>
      let b := fresh "b" in let E := fresh "E" in let Hb := fresh "Hb" in
      destruct (at_ok i s) as (b & E & Hb); [lia|rewrite E]
  end.

Lemma read_u8_ok : okp 1 read_u8 (fun b d => is_byte b /\ d = 0).
Proof.
  intros s H0 Hs. unfold read_u8, bind, get_pos, advance, ret. read_step.
  eexists _, _. split; [done|]. simpl. rewrite uW by lia. split; [lia|]. split; [done|lia].
Qed.

Lemma read_u16_ok : okp 2 read_u16 (fun v d => u_range 16 v /\ d = 0).
Proof.
  intros s H0 Hs. unfold read_u16, bind, get_pos, advance, ret. rewrite (uW (pos s + 1)) by lia.
  do 2 read_step. eexists _, _. split; [done|]. simpl. rewrite uW by lia.
  split; [lia|]. split; [apply u_bounds; lia|lia].
Qed.

Lemma read_u32_ok : okp 4 read_u32 (fun v d => u_range 32 v /\ d = 0).
Proof.
  intros s H0 Hs. unfold read_u32, bind, get_pos, advance, ret.
  rewrite (uW (pos s + 1)), (uW (pos s + 2)), (uW (pos s + 3)) by lia.
  do 4 read_step. eexists _, _. split; [done|]. simpl. rewrite uW by lia.
  split; [lia|]. split; [apply u_bounds; lia|lia].
Qed.

Lemma read_u64_ok : okp 8 read_u64 (fun v d => u_range 64 v /\ d = 0).
Proof.
  intros s H0 Hs. unfold read_u64. unfold bind at 1.
  destruct (read_u32_ok s H0 ltac:(lia)) as (hi & s1 & E1 & Hp1 & _ & D1).
  assert (pos s1 = pos s + 4) as Hpos.
  { revert E1. unfold read_u32, bind, get_pos, advance, ret.
    rewrite (uW (pos s + 1)), (uW (pos s + 2)), (uW (pos s + 3)) by lia.
    do 4 read_step. intros [= _ <-]. simpl. apply uW. lia. }
  destruct (read_u32_ok s1 ltac:(lia) ltac:(lia)) as (lo & s2 & E2 & Hp2 & _ & D2).
  rewrite E1. unfold bind. rewrite E2. unfold ret. eexists _, _. split; [done|].
  split; [lia|]. split; [apply u_bounds; lia|lia].
Qed.

Lemma read_bytes_ok n : 0 <= n < 2 ^ 32 -> okp n (read_bytes n) (fun _ d => d = 0).
Proof.
  intros Hn s H0 Hs. unfold read_bytes. rewrite (proj2 (Z.leb_le _ _) Hs).
  eexists _, _. split; [done|]. simpl. rewrite uW by lia. lia.
Qed.

(** What every node-returning function promises: on [nullptr] every node it
    made has been released, otherwise exactly the nodes of the result remain. *)
Definition count_of (v : option dval) : Z := match v with Some v => node_count v | None => 0 end.
Definition node_ok (n : Z) (held : Z) (m : M (option dval)) : Prop := okp n m (fun r d => held + d = count_of r).

Lemma made n v : 0 <= n -> okp n (make v) (fun r d => r = Some v /\ d = 1).
Proof. intros Hn s H0 Hs. eexists _, _. split; [reflexivity|]. simpl. split_and!; [lia|lia|done|lia]. Qed.

Lemma make_ok n held v : 0 <= n -> held + 1 = node_count v -> node_ok n held (make v).
Proof.
  intros Hn Hv s H0 Hs. eexists _, _. split; [reflexivity|]. simpl. split_and!; lia.
Qed.

Lemma null_ok n : 0 <= n -> node_ok n 0 null.
Proof. intros Hn. by apply okp_ret. Qed.

Lemma decref_ok n v : 0 <= n -> okp n (decref v) (fun _ d => d = - count_of v).
Proof.
  intros Hn s H0 Hs. eexists _, _. split; [reflexivity|]. simpl. split_and!; [lia|lia|].
  destruct v; simpl; lia.
Qed.

Lemma need_ok n k : 0 <= n < 2 ^ 32 -> node_ok n 0 k -> node_ok 0 0 (need n k).
Proof.
  intros Hn Hk s H0 Hs. unfold need, bind, has. rewrite uW by lia.
  destruct (Z.leb_spec (pos s + n) (len data)) as [Hle|Hgt]; [by apply Hk|by apply (null_ok 0)].
Qed.

(** Releasing the partial container and returning [nullptr]. *)
Lemma fail_ok n held v : 0 <= n -> held = node_count v -> node_ok n held (bind (decref (Some v)) (fun _ => null)).
Proof.
  intros Hn Hv. eapply okp_bind; [by apply decref_ok|]. intros _ d ->. apply okp_ret; [done|]. simpl. lia.
Qed.

Lemma node_ok_bind {A} n held (m : M A) (k : A -> M (option dval)) Q :
  okp n m Q -> (forall a d, Q a d -> node_ok 0 (held + d) (k a)) -> node_ok n held (bind m k).
Proof.
  intros Hm Hk. eapply okp_bind; [exact Hm|]. intros a d HQ. eapply okp_weaken; [by apply Hk|lia|].
  intros r d' Hd. simpl in Hd. lia.
Qed.

Lemma node_ok_0 n m : 0 <= n -> node_ok 0 0 m -> node_ok n 0 m.
Proof. intros Hn Hm. eapply okp_weaken; [exact Hm|lia|done]. Qed.

Lemma map_put_ok {K} `{EqDecision K} (k : K) v acc :
  okp 0 (map_put k v acc) (fun acc' d => below acc' = below acc + node_count v + d).
Proof.
  unfold map_put. pose proof (below_set k v acc) as Hb. destruct (find_key k acc) as [o|].
  - eapply okp_bind; [by apply decref_ok|]. intros _ d ->. apply okp_ret; [lia|]. simpl. lia.
  - apply okp_ret; [lia|]. lia.
Qed.

Section LevelOk.

Context (read_child : M (option dval)) (Hchild : node_ok 0 0 read_child).

Lemma array_loop_ok n : forall acc, node_ok 0 (node_count (VArray acc)) (array_loop read_child n acc).
Proof using Hchild HW Hfit Hbytes.
  induction n as [|n IH]; intros acc; cbn [array_loop]; [apply okp_ret; [lia|simpl; lia]|].
  eapply node_ok_bind; [exact Hchild|]. intros [v|] d Hd; simpl in Hd.
  - replace (node_count (VArray acc) + d) with (node_count (VArray (acc ++ [v]))); [apply IH|].
    rewrite count_array. lia.
  - apply fail_ok; lia.
Qed.

Lemma read_array_ok count : node_ok 0 0 (read_array read_child count).
Proof using Hchild HW Hfit Hbytes.
  unfold read_array. destruct (count >? g_max_container_elements); [by apply null_ok|].
  eapply node_ok_bind; [by apply (made 0)|]. intros _ d [_ ->]. apply (array_loop_ok _ []).
Qed.

Lemma intmap_loop_ok n : forall acc, node_ok 0 (node_count (VIntMap acc)) (intmap_loop read_child n acc).
Proof using Hchild HW Hfit Hbytes.
  induction n as [|n IH]; intros acc; cbn [intmap_loop]; [apply okp_ret; [lia|simpl; lia]|].
  eapply node_ok_bind; [exact Hchild|]. intros key d Hd. cbn beta in Hd.
  assert (node_ok 0 (node_count (VIntMap acc) + d)
            (bind (decref key) (fun _ => bind (decref (Some (VIntMap acc))) (fun _ => null)))) as Hbad.
  { eapply node_ok_bind; [by apply (decref_ok 0)|]. intros _ d' ->. apply fail_ok; lia. }
  destruct key as [[| |key| | | | | |]|]; try exact Hbad. clear Hbad. simpl in Hd.
  eapply node_ok_bind; [by apply (decref_ok 0)|]. intros _ d' ->.
  eapply node_ok_bind; [exact Hchild|]. intros [v|] d' Hv; cbn [count_of node_count] in *; [|apply fail_ok; simpl; lia].
  eapply node_ok_bind; [apply map_put_ok|]. intros acc' d'' Hacc.
  replace (1 + _ + d + _ + d' + d'') with (node_count (VIntMap acc')); [apply IH|].
  simpl. unfold below in Hacc. lia.
Qed.

Lemma object_loop_ok n : forall acc, node_ok 0 (node_count (VObject acc)) (object_loop read_child n acc).
Proof using Hchild HW Hfit Hbytes.
  induction n as [|n IH]; intros acc; cbn [object_loop]; [apply okp_ret; [lia|simpl; lia]|].
  eapply node_ok_bind; [exact Hchild|]. intros key d Hd. cbn beta in Hd.
  assert (node_ok 0 (node_count (VObject acc) + d)
            (bind (decref key) (fun _ => bind (decref (Some (VObject acc))) (fun _ => null)))) as Hbad.
  { eapply node_ok_bind; [by apply (decref_ok 0)|]. intros _ d' ->. apply fail_ok; lia. }
  destruct key as [[| | | |key| | | |]|]; try exact Hbad. clear Hbad. simpl in Hd.
  eapply node_ok_bind; [by apply (decref_ok 0)|]. intros _ d' ->.
  eapply node_ok_bind; [exact Hchild|]. intros [v|] d' Hv; cbn [count_of node_count] in *; [|apply fail_ok; simpl; lia].
  eapply node_ok_bind; [apply map_put_ok|]. intros acc' d'' Hacc.
  replace (1 + _ + d + _ + d' + d'') with (node_count (VObject acc')); [apply IH|].
  simpl. unfold below in Hacc. lia.
Qed.

Lemma read_map_ok count : node_ok 0 0 (read_map read_child count).
Proof using Hchild HW Hfit Hbytes.
  unfold read_map. destruct (count =? 0); [by apply make_ok|].
  destruct (count >? g_max_container_elements); [by apply null_ok|].
  apply need_ok; [lia|]. intros s H0 Hs. unfold bind at 1, get_pos. unfold bind at 1.
  destruct (at_ok (pos s) s) as (b & -> & _); [lia|].
  revert s H0 Hs. match goal with |- context [if ?c then null else _] => destruct c end.
  - intros s H0 Hs. by apply (null_ok 1).
  - match goal with |- context [if ?c then _ else _] => destruct c end; intros s H0 Hs.
    + refine (node_ok_bind 1 0 _ _ _ (made 1 _ _) _ s H0 Hs); [lia|]. intros _ d [_ ->]. apply (intmap_loop_ok _ []).
    + refine (node_ok_bind 1 0 _ _ _ (made 1 _ _) _ s H0 Hs); [lia|]. intros _ d [_ ->]. apply (object_loop_ok _ []).
Qed.

(** A scalar: a read, then a node. *)
Lemma scalar_ok n (m : M Z) (Q : Z -> Z -> Prop) (f : Z -> dval) : 0 <= n < 2 ^ 32 -> okp n m Q ->
  (forall a d, Q a d -> d = 0) -> (forall z, node_count (f z) = 1) -> node_ok 0 0 (need n (bind m (fun z => make (f z)))).
Proof using HW Hfit.
  intros Hn Hm HQ Hf. apply need_ok; [done|]. eapply node_ok_bind; [exact Hm|]. intros z d Hd.
  rewrite (HQ z d Hd). apply make_ok; [lia|]. by rewrite Hf.
Qed.

(** A block of bytes behind its length. *)
Lemma block_ok n (f : bytes -> dval) : 0 <= n < 2 ^ 32 -> (forall s, node_count (f s) = 1) ->
  node_ok 0 0 (need n (bind (read_bytes n) (fun s => make (f s)))).
Proof using HW Hfit.
  intros Hn Hf. apply need_ok; [done|]. eapply node_ok_bind; [by apply read_bytes_ok|]. intros s d ->.
  apply make_ok; [lia|]. by rewrite Hf.
Qed.

Lemma prefixed_ok n (m : M Z) (Q : Z -> Z -> Prop) (k : Z -> M (option dval)) : 0 <= n < 2 ^ 32 -> okp n m Q ->
  (forall a d, Q a d -> d = 0 /\ node_ok 0 0 (k a)) -> node_ok 0 0 (need n (bind m k)).
Proof using HW Hfit.
  intros Hn Hm HQ. apply need_ok; [done|]. eapply node_ok_bind; [exact Hm|]. intros z d Hd.
  destruct (HQ z d Hd) as [-> Hk]. exact Hk.
Qed.

Lemma read_tagged_ok b : is_byte b -> node_ok 0 0 (read_tagged read_child b).
Proof using Hchild HW Hfit Hbytes.
  intros Hb. unfold read_tagged.
  destruct (b <=? 0x7f); [by apply make_ok|]. destruct (b >=? 0xe0); [by apply make_ok|].
  destruct (Z.land b 0xf0 =? 0x80); [apply read_map_ok|]. destruct (Z.land b 0xf0 =? 0x90); [apply read_array_ok|].
  destruct (Z.land b 0xe0 =? 0xa0).
  { apply block_ok; [|done]. change 0x1f with (Z.ones 5). rewrite Z.land_ones by lia.
    pose proof (Z.mod_pos_bound b (2 ^ 5)). lia. }
  assert (forall n m Q f, 0 <= n < 2 ^ 32 -> okp n m (fun v d => Q v /\ d = 0) -> (forall v, Q v -> 0 <= v < 2 ^ 32) ->
    (forall s : bytes, node_count (f s) = 1) ->
    node_ok 0 0 (need n (bind m (fun z => need z (bind (read_bytes z) (fun s => make (f s))))))) as Hblock.
  { intros n m Q f Hn Hm HQ Hf. eapply prefixed_ok; [done|exact Hm|]. intros a d [Ha ->]. split; [done|].
    apply block_ok; [by apply HQ|done]. }
  pose proof read_u8_ok. pose proof read_u16_ok. pose proof read_u32_ok. pose proof read_u64_ok.
  destruct b as [|b|b]; try (by apply null_ok).
  repeat (destruct b as [b|b|]; try (by apply null_ok)).
  all: try (by apply make_ok).
  all: try (eapply scalar_ok; [lia|eassumption|by intros ? ? [_ ?]|done]).
  all: try (eapply Hblock; [lia|eassumption|unfold is_byte, u_range; lia|done]).
  all: try (eapply prefixed_ok; [lia|eassumption|intros ? ? [_ ->]; split; [done|first [apply read_array_ok|apply read_map_ok]]]).
Qed.

End LevelOk.

Lemma read_node_ok levels : node_ok 0 0 (read_node levels).
Proof using HW Hfit Hbytes.
  induction levels as [|levels IH]; [by apply null_ok|]. cbn [read_node]. apply need_ok; [lia|].
  eapply node_ok_bind; [apply read_u8_ok|]. intros b d [Hb ->]. by apply read_tagged_ok.
Qed.

End Safety.

End Parser.

Lemma MsgPackParse_total (W : Z) (data : bytes) (limit : Z) :
  0 < W -> len data + 2 ^ 32 <= 2 ^ W -> Forall is_byte data ->
  exists r, MsgPackParse W data limit = Some (r, count_of r).
Proof.
  intros HW Hfit Hb. unfold MsgPackParse. destruct (len data =? 0); [by exists None|].
  destruct (read_node_ok W data limit HW Hfit Hb (S (Z.to_nat kMaxDepth)) (mkR 0 0)) as (r & s & -> & _ & Hr);
    [simpl; lia|pose proof (len_nonneg data); simpl; lia|]. simpl in Hr.
  destruct r as [v|]; [|exists None; do 2 f_equal; simpl in *; lia].
  destruct (negb (pos s =? len data)); [exists None|exists (Some v)]; do 2 f_equal; simpl in *; lia.
Qed.

(** C16: Parsing is memory safe and leak free on every input: with a [size_t] that
    holds the buffer size plus 2^32 (any 64-bit build), the parser returns,
    never reads outside the buffer, and leaves exactly the nodes of the value
    it returns; on malformed input, none. *)
Theorem MsgPackParse_safe (W : Z) (data : bytes) (limit : Z) :
  0 < W -> len data + 2 ^ 32 <= 2 ^ W -> Forall is_byte data ->
  exists r, MsgPackParse W data limit = Some (r, count_of r).
Proof. apply MsgPackParse_total. Qed.

Lemma MsgPackParse_safe_witness : exists r, MsgPackParse 64 [0x93; 1; 0xdb; 0xff] 1000000 = Some (r, count_of r).
Proof.
  apply (MsgPackParse_safe 64); [lia|unfold len; simpl; lia|repeat constructor; lia].
Defined.

(** With a 32-bit [size_t] the length check of [Reader::has] wraps around: the
    five bytes [db ff ff ff ff] announce a string of 2^32 - 1 bytes, [pos + n]
    overflows to 4, and the parser copies from outside the buffer. *)
Theorem MsgPackParse_32bit_overread : MsgPackParse 32 [0xdb; 0xff; 0xff; 0xff; 0xff] 1000000 = None.
Proof. vm_compute. reflexivity. Qed.

(** ** Round trip *)

Lemma byte_of_shift v k : 0 <= k -> uN 8 (Z.shiftr v k) = v / 2 ^ k mod 256.
Proof. intros Hk. unfold uN. by rewrite Z.shiftr_div_pow2. Qed.


Lemma testbit_high b k n : 0 <= b < 2 ^ k -> 0 <= k <= n -> Z.testbit b n = false.
Proof.
  intros Hb Hn. destruct (Z.eq_dec b 0) as [->|Hne]; [apply Z.bits_0|].
  apply Z.bits_above_log2; [lia|]. apply Z.log2_lt_pow2; [lia|].
  eapply Z.lt_le_trans; [apply Hb|]. apply Z.pow_le_mono_r; lia.
Qed.

Lemma lor_add a b k : 0 <= k -> 0 <= b < 2 ^ k -> Z.lor (Z.shiftl a k) b = a * 2 ^ k + b.
Proof.
  intros Hk Hb. rewrite <- Z.shiftl_mul_pow2 by done. rewrite Z.add_nocarry_lxor.
  - symmetry. apply Z.bits_inj'. intros n Hn. rewrite Z.lxor_spec, Z.lor_spec.
    destruct (Z.ltb_spec n k) as [Hlt|Hge]; [by rewrite Z.shiftl_spec_low|].
    by rewrite (testbit_high b k n), orb_false_r, xorb_false_r by lia.
  - apply Z.bits_inj'. intros n Hn. rewrite Z.land_spec, Z.bits_0.
    destruct (Z.ltb_spec n k) as [Hlt|Hge]; [by rewrite Z.shiftl_spec_low|].
    by rewrite (testbit_high b k n), andb_false_r by lia.
Qed.

Lemma split16 v : u_range 16 v -> uN 16 (Z.lor (Z.shiftl (uN 8 (Z.shiftr v 8)) 8) (uN 8 v)) = v.
Proof.
  unfold u_range. intros Hv. rewrite lor_add by (lia || (unfold uN; apply Z.mod_pos_bound; lia)).
  rewrite byte_of_shift by lia. unfold uN. change (2 ^ 8) with 256. change (2 ^ 16) with 65536 in *.
  Z.div_mod_to_equations. lia.
Qed.

Lemma join32 b3 b2 b1 b0 : 0 <= b2 < 256 -> 0 <= b1 < 256 -> 0 <= b0 < 256 ->
  Z.lor (Z.lor (Z.lor (Z.shiftl b3 24) (Z.shiftl b2 16)) (Z.shiftl b1 8)) b0 =
  b3 * 2 ^ 24 + b2 * 2 ^ 16 + b1 * 2 ^ 8 + b0.
Proof.
  intros H2 H1 H0.
  rewrite (Z.shiftl_mul_pow2 b2), (Z.shiftl_mul_pow2 b1) by lia.
  rewrite (lor_add b3 (b2 * 2 ^ 16) 24) by lia.
  replace (b3 * 2 ^ 24 + b2 * 2 ^ 16) with (Z.shiftl (b3 * 2 ^ 8 + b2) 16) by (rewrite Z.shiftl_mul_pow2; lia).
  rewrite (lor_add _ (b1 * 2 ^ 8) 16) by lia.
  replace ((b3 * 2 ^ 8 + b2) * 2 ^ 16 + b1 * 2 ^ 8) with (Z.shiftl (b3 * 2 ^ 16 + b2 * 2 ^ 8 + b1) 8)
    by (rewrite Z.shiftl_mul_pow2; lia).
  rewrite (lor_add _ b0 8) by lia. rewrite Z.shiftl_mul_pow2; lia.
Qed.

Lemma split32 v : u_range 32 v ->
  uN 32 (Z.lor (Z.lor (Z.lor (Z.shiftl (uN 8 (Z.shiftr v 24)) 24) (Z.shiftl (uN 8 (Z.shiftr v 16)) 16))
                      (Z.shiftl (uN 8 (Z.shiftr v 8)) 8)) (uN 8 v)) = v.
Proof.
  unfold u_range. intros Hv. rewrite join32 by (unfold uN; apply Z.mod_pos_bound; lia).
  rewrite !byte_of_shift by lia. unfold uN.
  change (2 ^ 24) with 16777216. change (2 ^ 16) with 65536. change (2 ^ 8) with 256. change (2 ^ 32) with 4294967296 in *.
  Z.div_mod_to_equations. lia.
Qed.

Lemma split64 v : u_range 64 v -> uN 64 (Z.lor (Z.shiftl (uN 32 (Z.shiftr v 32)) 32) (uN 32 v)) = v.
Proof.
  unfold u_range. intros Hv. rewrite lor_add by (lia || (unfold uN; apply Z.mod_pos_bound; lia)).
  unfold uN. rewrite Z.shiftr_div_pow2 by lia. change (2 ^ 32) with 4294967296 in *.
  change (2 ^ 64) with 18446744073709551616 in *. Z.div_mod_to_equations. lia.
Qed.

(** The values that survive: what the format and the limits can express.  An
    empty integer map is excluded: it is written as an empty map, which reads
    back as an empty object. *)
Fixpoint fits (limit : Z) (v : dval) : Prop :=
  match v with
  | VInt z => s_range 64 z
  | VFloat bits => u_range 64 bits
  | VString s => len s < 2 ^ 32
  | VBinary s => len s < 2 ^ 32
  | VArray vs => Z.of_nat (length vs) < 2 ^ 32 /\ Z.of_nat (length vs) <= limit /\
                 foldr (fun v Q => fits limit v /\ Q) True vs
  | VObject kvs => Z.of_nat (length kvs) < 2 ^ 32 /\ Z.of_nat (length kvs) <= limit /\ NoDup kvs.*1 /\
                   foldr (fun e Q => (len e.1 < 2 ^ 32 /\ fits limit e.2) /\ Q) True kvs
  | VIntMap kvs => kvs <> [] /\ Z.of_nat (length kvs) < 2 ^ 32 /\ Z.of_nat (length kvs) <= limit /\ NoDup kvs.*1 /\
                   foldr (fun e Q => (s_range 64 e.1 /\ fits limit e.2) /\ Q) True kvs
  | _ => True
  end.

(** Tags that carry a small count: the tests of [read_node] on them. *)
Definition tag_tests (b hi lo cls : Z) : bool :=
  negb (b <=? 0x7f) && negb (b >=? 0xe0) &&
  Bool.eqb (Z.land b 0xf0 =? 0x80) (cls =? 1) && Bool.eqb (Z.land b 0xf0 =? 0x90) (cls =? 2) &&
  Bool.eqb (Z.land b 0xe0 =? 0xa0) (cls =? 3) && (Z.land b hi =? lo).

Lemma fixmap_tests n : 0 <= n < 16 -> tag_tests (uN 8 (Z.lor 0x80 (uN 8 n))) 0x0f n 1 = true.
Proof.
  intros Hn. assert (forallb (fun n => tag_tests (uN 8 (Z.lor 0x80 (uN 8 n))) 0x0f n 1) (seqZ 0 16) = true) as H by done.
  rewrite forallb_forall in H. apply H, list_elem_of_In, elem_of_seqZ. lia.
Qed.
Lemma fixarray_tests n : 0 <= n < 16 -> tag_tests (uN 8 (Z.lor 0x90 (uN 8 n))) 0x0f n 2 = true.
Proof.
  intros Hn. assert (forallb (fun n => tag_tests (uN 8 (Z.lor 0x90 (uN 8 n))) 0x0f n 2) (seqZ 0 16) = true) as H by done.
  rewrite forallb_forall in H. apply H, list_elem_of_In, elem_of_seqZ. lia.
Qed.
Lemma fixstr_tests n : 0 <= n < 32 -> tag_tests (uN 8 (Z.lor 0xa0 (uN 8 n))) 0x1f n 3 = true.
Proof.
  intros Hn. assert (forallb (fun n => tag_tests (uN 8 (Z.lor 0xa0 (uN 8 n))) 0x1f n 3) (seqZ 0 32) = true) as H by done.
  rewrite forallb_forall in H. apply H, list_elem_of_In, elem_of_seqZ. lia.
Qed.

Section RoundTrip.

Context (W : Z) (data : bytes) (limit : Z) (HW : 0 < W) (Hfit : len data + 2 ^ 32 <= 2 ^ W).

#[local] Notation "x <- m ;; k" := (bind m (fun x => k)) (at level 100, m at next level, right associativity).

(** [consumes m bs a d]: wherever the buffer continues with [bs], [m] reads
    exactly [bs], returns [a] and changes the number of live nodes by [d]. *)
Definition consumes {A} (m : M A) (bs : bytes) (a : A) (d : Z) : Prop :=
  forall pre post lv, data = pre ++ bs ++ post ->
  m (mkR (len pre) lv) = Some (a, mkR (len pre + len bs) (lv + d)).

Lemma c_ret {A} (a : A) : consumes (ret a) [] a 0.
Proof. intros pre post lv _. unfold ret, len. simpl. by rewrite !Z.add_0_r. Qed.

Lemma c_bind {A B} (m : M A) (k : A -> M B) bs1 bs2 a b d1 d2 :
  consumes m bs1 a d1 -> consumes (k a) bs2 b d2 -> consumes (bind m k) (bs1 ++ bs2) b (d1 + d2).
Proof.
  intros Hm Hk pre post lv E. unfold bind. rewrite (Hm pre (bs2 ++ post) lv) by (by rewrite E, <- app_assoc).
  specialize (Hk (pre ++ bs1) post (lv + d1)). rewrite len_app in Hk.
  rewrite Hk by (by rewrite E, <- !app_assoc). rewrite len_app. do 3 f_equal; lia.
Qed.

(** A step that reads nothing. *)
Lemma c_bind0 {A B} (m : M A) (k : A -> M B) bs a b d1 d2 d :
  consumes m [] a d1 -> consumes (k a) bs b d2 -> d = d1 + d2 -> consumes (bind m k) bs b d.
Proof. intros Hm Hk ->. by apply (c_bind m k [] bs a b). Qed.

(** A last step that reads nothing. *)
Lemma c_bind_r {A B} (m : M A) (k : A -> M B) bs a b d1 d2 :
  consumes m bs a d1 -> consumes (k a) [] b d2 -> consumes (bind m k) bs b (d1 + d2).
Proof. intros Hm Hk. rewrite <- (app_nil_r bs). by apply (c_bind m k bs [] a b). Qed.

Lemma c_make v : consumes (make v) [] (Some v) 1.
Proof. intros pre post lv _. unfold make, len. simpl. by rewrite Z.add_0_r. Qed.

Lemma c_decref v : consumes (decref (Some v)) [] tt (- node_count v).
Proof. intros pre post lv _. unfold decref, len. simpl. by rewrite Z.add_0_r. Qed.

Lemma at_app pre bs post i b s : data = pre ++ bs ++ post -> 0 <= i -> bs !! Z.to_nat i = Some b ->
  at_ data (len pre + i) s = Some (b, s).
Proof.
  intros E H0 Hi. unfold at_. rewrite (proj2 (Z.ltb_ge _ _)) by (unfold len; lia).
  replace (Z.to_nat (len pre + i)) with (length pre + Z.to_nat i)%nat by (unfold len; lia).
  rewrite E, lookup_app_r by lia. replace (length pre + Z.to_nat i - length pre)%nat with (Z.to_nat i) by lia.
  rewrite lookup_app_l by (by apply lookup_lt_Some in Hi). by rewrite Hi.
Qed.

Lemma uW_in pre bs post n : data = pre ++ bs ++ post -> 0 <= n < 2 ^ 32 -> uN W (len pre + n) = len pre + n.
Proof.
  intros E Hn. apply u_id. unfold u_range. rewrite E, !len_app in Hfit.
  pose proof (len_nonneg pre). pose proof (len_nonneg bs). pose proof (len_nonneg post). lia.
Qed.

Lemma c_u8 b : consumes (read_u8 W data) [b] b 0.
Proof.
  intros pre post lv E. unfold read_u8, bind, get_pos. simpl pos.
  pose proof (at_app pre [b] post 0 b (mkR (len pre) lv) E ltac:(lia) eq_refl) as Ha. rewrite Z.add_0_r in Ha. rewrite Ha.
  unfold advance, ret. simpl. rewrite (uW_in pre [b] post 1 E) by lia. by rewrite Z.add_0_r.
Qed.

Lemma c_u16 v : u_range 16 v -> consumes (read_u16 W data) (write_u16 v) v 0.
Proof.
  intros Hv pre post lv E. unfold read_u16, bind, get_pos. simpl pos.
  rewrite (uW_in pre _ post 1 E) by lia.
  pose proof (at_app pre (write_u16 v) post 0 _ (mkR (len pre) lv) E ltac:(lia) eq_refl) as H0. rewrite Z.add_0_r in H0. rewrite H0.
  rewrite (at_app pre (write_u16 v) post 1 _ (mkR (len pre) lv) E ltac:(lia) eq_refl).
  unfold advance, ret. simpl pos. simpl live. rewrite (uW_in pre _ post 2 E) by lia.
  rewrite split16 by done. by rewrite Z.add_0_r.
Qed.

Lemma c_u32 v : u_range 32 v -> consumes (read_u32 W data) (write_u32 v) v 0.
Proof.
  intros Hv pre post lv E. unfold read_u32, bind, get_pos. simpl pos.
  rewrite (uW_in pre _ post 1 E), (uW_in pre _ post 2 E), (uW_in pre _ post 3 E) by lia.
  pose proof (at_app pre (write_u32 v) post 0 _ (mkR (len pre) lv) E ltac:(lia) eq_refl) as H0. rewrite Z.add_0_r in H0. rewrite H0.
  rewrite (at_app pre (write_u32 v) post 1 _ (mkR (len pre) lv) E ltac:(lia) eq_refl).
  rewrite (at_app pre (write_u32 v) post 2 _ (mkR (len pre) lv) E ltac:(lia) eq_refl).
  rewrite (at_app pre (write_u32 v) post 3 _ (mkR (len pre) lv) E ltac:(lia) eq_refl).
  unfold advance, ret. simpl pos. simpl live. rewrite (uW_in pre _ post 4 E) by lia.
  rewrite split32 by done. by rewrite Z.add_0_r.
Qed.

Lemma c_u64 v : u_range 64 v -> consumes (read_u64 W data) (write_u64 v) v 0.
Proof.
  intros Hv. unfold read_u64, write_u64. eapply (c_bind _ _ _ _ _ _ 0 0); [apply c_u32; apply u_bounds; lia|].
  rewrite <- (app_nil_r (write_u32 (uN 32 v))).
  eapply (c_bind _ _ _ _ _ _ 0 0); [apply c_u32; apply u_bounds; lia|]. rewrite split64 by done. apply c_ret.
Qed.

Lemma c_bytes s : len s < 2 ^ 32 -> consumes (read_bytes W data (len s)) s s 0.
Proof.
  intros Hs pre post lv E. unfold read_bytes. simpl pos. simpl live.
  pose proof (len_nonneg post). pose proof (len_nonneg s).
  rewrite (proj2 (Z.leb_le _ _)) by (rewrite E, !len_app; lia).
  rewrite (uW_in pre s post (len s) E) by lia. rewrite Z.add_0_r. do 2 f_equal.
  rewrite E. unfold len. rewrite !Nat2Z.id, drop_app_length, take_app_length. done.
Qed.

Lemma c_need n (k : M (option dval)) bs r d : 0 <= n < 2 ^ 32 -> n <= len bs -> consumes k bs r d ->
  consumes (need W data n k) bs r d.
Proof.
  intros Hn Hle Hk pre post lv E. unfold need, bind, has. cbn [pos]. rewrite (uW_in pre bs post n E) by lia.
  rewrite (proj2 (Z.leb_le _ _)); [exact (Hk pre post lv E)|]. rewrite E, !len_app. pose proof (len_nonneg post). lia.
Qed.

(** Looking at the next byte without consuming it. *)
Lemma c_peek (k : Z -> M (option dval)) b bs r d : consumes (k b) (b :: bs) r d ->
  consumes (p <- get_pos;; peek <- at_ data p;; k peek) (b :: bs) r d.
Proof.
  intros Hk pre post lv E. unfold bind, get_pos. cbn [pos].
  pose proof (at_app pre (b :: bs) post 0 b (mkR (len pre) lv) E ltac:(lia) eq_refl) as H0.
  rewrite Z.add_0_r in H0. rewrite H0. exact (Hk pre post lv E).
Qed.

Lemma c_node levels b bs r d :
  consumes (read_tagged W data limit (read_node W data limit levels) b) bs r d ->
  consumes (read_node W data limit (S levels)) (b :: bs) r d.
Proof.
  intros Hk. cbn [read_node]. apply c_need; [lia|unfold len; simpl; lia|].
  apply (c_bind _ _ [b] bs b r 0 d); [apply c_u8|exact Hk].
Qed.

Section Level.

Context (rc : M (option dval)).

#[local] Notation tagged := (read_tagged W data limit rc).

(** A scalar behind its tag. *)
Lemma c_scalar n (m : M Z) bs z v : consumes m bs z 0 -> 0 <= n < 2 ^ 32 -> n <= len bs -> forall f, f z = v ->
  consumes (need W data n (x <- m;; make (f x))) bs (Some v) 1.
Proof.
  intros Hm Hn Hl f <-. apply c_need; [done|done|]. apply (c_bind_r m _ bs z _ 0 1 Hm), c_make.
Qed.

Lemma c_block (s : bytes) (f : bytes -> dval) : len s < 2 ^ 32 ->
  consumes (need W data (len s) (x <- read_bytes W data (len s);; make (f x))) s (Some (f s)) 1.
Proof.
  intros Hs. apply c_need; [pose proof (len_nonneg s); lia|lia|]. 
  apply (c_bind_r _ _ s s _ 0 1); [by apply c_bytes|apply c_make].
Qed.

Lemma c_prefixed n (m : M Z) bs rest z (k : Z -> M (option dval)) r d : consumes m bs z 0 ->
  0 <= n < 2 ^ 32 -> n <= len bs -> consumes (k z) rest r d ->
  consumes (need W data n (x <- m;; k x)) (bs ++ rest) r d.
Proof.
  intros Hm Hn Hl Hk. apply c_need; [done|rewrite len_app; pose proof (len_nonneg rest); lia|].
  apply (c_bind m k bs rest z r 0 d Hm Hk).
Qed.

Lemma small_u8 z : 0 <= z < 256 -> uN 8 z = z.
Proof. intros. by apply u_id. Qed.

Lemma c_w8 z : 0 <= z < 256 -> consumes (read_u8 W data) (write_u8 z) z 0.
Proof. intros Hz. unfold write_u8. rewrite small_u8 by done. apply c_u8. Qed.

(** The branch of a tag with a small count. *)
Lemma tagged_small b hi lo cls : tag_tests b hi lo cls = true -> 1 <= cls <= 3 ->
  Z.land b hi = lo /\
  tagged b = if cls =? 1 then read_map W data limit rc (Z.land b 0x0f)
             else if cls =? 2 then read_array limit rc (Z.land b 0x0f)
             else need W data (Z.land b 0x1f) (s <- read_bytes W data (Z.land b 0x1f);; make (VString s)).
Proof.
  unfold tag_tests. rewrite !andb_true_iff, !negb_true_iff, Z.eqb_eq.
  intros (((((A & B) & C%Bool.eqb_prop) & D%Bool.eqb_prop) & E%Bool.eqb_prop) & F) Hcls. split; [exact F|].
  unfold read_tagged. rewrite A, B, C, D, E.
  destruct (Z.eqb_spec cls 1); [done|]. destruct (Z.eqb_spec cls 2); [done|].
  by rewrite (proj2 (Z.eqb_eq cls 3)) by lia.
Qed.

(** Strings: the first byte and the rest of the encoding. *)
Lemma c_str s : len s < 2 ^ 32 -> exists b bs, write_msgpack_str s = b :: bs /\
  (0xa0 <= b < 0xc0 \/ 0xd9 <= b <= 0xdb) /\ consumes (tagged b) bs (Some (VString s)) 1.
Proof.
  intros Hs. pose proof (len_nonneg s) as H0. unfold write_msgpack_str.
  destruct (Z.leb_spec (len s) 31).
  - eexists _, _. split; [reflexivity|]. pose proof (fixstr_tests (len s) ltac:(lia)) as Ht.
    assert (Z.lor 160 (uN 8 (len s)) = 160 + len s) as El.
    { rewrite small_u8 by lia. change 160 with (Z.shiftl 5 5). rewrite lor_add by lia. done. }
    split; [left; rewrite El, small_u8; lia|].
    destruct (tagged_small _ _ _ _ Ht ltac:(lia)) as [Hlo ->]. simpl. rewrite Hlo. by apply c_block.
  - destruct (Z.leb_spec (len s) 255); [|destruct (Z.leb_spec (len s) 65535)].
    + exists 0xd9, (write_u8 (uN 8 (len s)) ++ s). rewrite small_u8 by lia. split; [done|]. split; [lia|].
      by apply (c_prefixed 1 _ (write_u8 (len s)) s (len s)); [apply c_w8; lia|lia|done|apply c_block].
    + exists 0xda, (write_u16 (uN 16 (len s)) ++ s). rewrite (u_id 16) by (unfold u_range; lia). split; [done|]. split; [lia|].
      by apply (c_prefixed 2 _ (write_u16 (len s)) s (len s)); [apply c_u16; unfold u_range; lia|lia|done|apply c_block].
    + exists 0xdb, (write_u32 (uN 32 (len s)) ++ s). rewrite (u_id 32) by (unfold u_range; lia). split; [done|]. split; [lia|].
      by apply (c_prefixed 4 _ (write_u32 (len s)) s (len s)); [apply c_u32; unfold u_range; lia|lia|done|apply c_block].
Qed.

Lemma c_bin s : len s < 2 ^ 32 -> exists b bs, write_msgpack_bin s = b :: bs /\
  consumes (tagged b) bs (Some (VBinary s)) 1.
Proof.
  intros Hs. pose proof (len_nonneg s) as H0. unfold write_msgpack_bin.
  destruct (Z.leb_spec (len s) 255); [|destruct (Z.leb_spec (len s) 65535)].
  - exists 0xc4, (write_u8 (uN 8 (len s)) ++ s). rewrite small_u8 by lia. split; [done|].
    by apply (c_prefixed 1 _ (write_u8 (len s)) s (len s)); [apply c_w8; lia|lia|done|apply c_block].
  - exists 0xc5, (write_u16 (uN 16 (len s)) ++ s). rewrite (u_id 16) by (unfold u_range; lia). split; [done|].
    by apply (c_prefixed 2 _ (write_u16 (len s)) s (len s)); [apply c_u16; unfold u_range; lia|lia|done|apply c_block].
  - exists 0xc6, (write_u32 (uN 32 (len s)) ++ s). rewrite (u_id 32) by (unfold u_range; lia). split; [done|].
    by apply (c_prefixed 4 _ (write_u32 (len s)) s (len s)); [apply c_u32; unfold u_range; lia|lia|done|apply c_block].
Qed.

(** The condition under which the first byte announces an integer key. *)
Definition int_tag (b : Z) : bool := (b <=? 0x7f) || (b >=? 0xe0) || ((b >=? 0xcc) && (b <=? 0xd3)).

Lemma sN_uN_id w z : 0 < w -> s_range w z -> sN w (uN w z) = z.
Proof. intros Hw Hz. rewrite s_u by done. by apply s_id. Qed.

Lemma c_int z : s_range 64 z -> exists b bs, write_msgpack_int z = b :: bs /\ int_tag b = true /\
  consumes (tagged b) bs (Some (VInt z)) 1.
Proof.
  unfold s_range. intros Hz. change (2 ^ (64 - 1)) with 9223372036854775808 in Hz. unfold write_msgpack_int.
  destruct (Z.geb_spec z 0).
  - destruct (Z.leb_spec z 127); [|destruct (Z.leb_spec z 255); [|destruct (Z.leb_spec z 65535);
      [|destruct (Z.leb_spec z 4294967295)]]].
    + exists z, []. unfold write_u8. rewrite small_u8 by lia. unfold int_tag, read_tagged.
      rewrite (proj2 (Z.leb_le z 127)) by lia. split; [done|]. split; [done|]. apply c_make.
    + exists 0xcc, (write_u8 z). split; [done|]. split; [done|]. apply (c_scalar 1 _ _ z); [apply c_w8; lia|lia|done|done].
    + exists 0xcd, (write_u16 (uN 16 z)). split; [done|]. split; [done|]. rewrite (u_id 16) by (unfold u_range; lia).
      by apply (c_scalar 2 _ (write_u16 z) z); [apply c_u16; unfold u_range; lia|lia|done|].
    + exists 0xce, (write_u32 (uN 32 z)). split; [done|]. split; [done|]. rewrite (u_id 32) by (unfold u_range; lia).
      by apply (c_scalar 4 _ (write_u32 z) z); [apply c_u32; unfold u_range; lia|lia|done|].
    + exists 0xcf, (write_u64 (uN 64 z)). split; [done|]. split; [done|]. rewrite (u_id 64) by (unfold u_range; lia).
      apply (c_scalar 8 _ (write_u64 z) z) with (f := fun x => VInt (sN 64 x)); [apply c_u64; unfold u_range; lia|lia|done|].
      f_equal. apply s_id; [lia|]. unfold s_range. lia.
  - destruct (Z.geb_spec z (-32)); [|destruct (Z.geb_spec z (-128)); [|destruct (Z.geb_spec z (-32768));
      [|destruct (Z.geb_spec z (-2147483648))]]].
    + exists (z + 256), []. unfold write_u8. rewrite (u_s 8), (u_of_s 8) by (lia || (unfold s_range; lia)).
      rewrite (proj2 (Z.ltb_lt z 0)) by lia. split; [done|]. unfold int_tag, read_tagged.
      rewrite (proj2 (Z.leb_gt (z + 256) 127)) by lia. rewrite (proj2 (Z.geb_le (z + 256) 224)) by lia.
      split; [done|]. rewrite (s_of_u 8) by (lia || (unfold u_range; lia)).
      rewrite (proj2 (Z.ltb_ge (z + 256) (2 ^ (8 - 1)))) by lia.
      replace (z + 256 - 2 ^ 8) with z by lia. apply c_make.
    + exists 0xd0, [uN 8 z]. unfold write_u8. rewrite (u_s 8) by lia. split; [done|]. split; [done|].
      apply (c_scalar 1 _ _ (uN 8 z)) with (f := fun x => VInt (sN 8 x)); [apply c_u8|lia|done|].
      f_equal. apply sN_uN_id; [lia|]. unfold s_range. lia.
    + exists 0xd1, (write_u16 (uN 16 z)). rewrite (u_s 16) by lia. split; [done|]. split; [done|].
      apply (c_scalar 2 _ _ (uN 16 z)) with (f := fun x => VInt (sN 16 x)); [apply c_u16, u_bounds; lia|lia|done|].
      f_equal. apply sN_uN_id; [lia|]. unfold s_range. lia.
    + exists 0xd2, (write_u32 (uN 32 z)). rewrite (u_s 32) by lia. split; [done|]. split; [done|].
      apply (c_scalar 4 _ _ (uN 32 z)) with (f := fun x => VInt (sN 32 x)); [apply c_u32, u_bounds; lia|lia|done|].
      f_equal. apply sN_uN_id; [lia|]. unfold s_range. lia.
    + exists 0xd3, (write_u64 (uN 64 z)). split; [done|]. split; [done|].
      apply (c_scalar 8 _ _ (uN 64 z)) with (f := fun x => VInt (sN 64 x)); [apply c_u64, u_bounds; lia|lia|done|].
      f_equal. apply sN_uN_id; [lia|]. unfold s_range. lia.
Qed.

(** Container headers: a reader for the count, then the container. *)
Lemma c_array_header n rest r d : 0 <= n < 2 ^ 32 -> consumes (read_array limit rc n) rest r d ->
  exists b bs, write_array_header n ++ rest = b :: bs /\ consumes (tagged b) bs r d.
Proof.
  intros Hn Hr. unfold write_array_header.
  destruct (Z.leb_spec n 15); [|destruct (Z.leb_spec n 65535)].
  - eexists _, _. split; [reflexivity|]. destruct (tagged_small _ _ _ _ (fixarray_tests n ltac:(lia)) ltac:(lia)) as [Hlo ->]. simpl. by rewrite Hlo.
  - exists 0xdc, (write_u16 (uN 16 n) ++ rest). split; [done|]. rewrite (u_id 16) by (unfold u_range; lia).
    by apply (c_prefixed 2 _ (write_u16 n) rest n); [apply c_u16; unfold u_range; lia|lia|done|].
  - exists 0xdd, (write_u32 (uN 32 n) ++ rest). split; [done|]. rewrite (u_id 32) by (unfold u_range; lia).
    by apply (c_prefixed 4 _ (write_u32 n) rest n); [apply c_u32; unfold u_range; lia|lia|done|].
Qed.

Lemma c_map_header n rest r d : 0 <= n < 2 ^ 32 -> consumes (read_map W data limit rc n) rest r d ->
  exists b bs, write_msgpack_map_header n ++ rest = b :: bs /\ consumes (tagged b) bs r d.
Proof.
  intros Hn Hr. unfold write_msgpack_map_header.
  destruct (Z.leb_spec n 15); [|destruct (Z.leb_spec n 65535)].
  - eexists _, _. split; [reflexivity|]. destruct (tagged_small _ _ _ _ (fixmap_tests n ltac:(lia)) ltac:(lia)) as [Hlo ->]. simpl. by rewrite Hlo.
  - exists 0xde, (write_u16 (uN 16 n) ++ rest). split; [done|]. rewrite (u_id 16) by (unfold u_range; lia).
    by apply (c_prefixed 2 _ (write_u16 n) rest n); [apply c_u16; unfold u_range; lia|lia|done|].
  - exists 0xdf, (write_u32 (uN 32 n) ++ rest). split; [done|]. rewrite (u_id 32) by (unfold u_range; lia).
    by apply (c_prefixed 4 _ (write_u32 n) rest n); [apply c_u32; unfold u_range; lia|lia|done|].
Qed.

(** The loops over elements and entries. *)
Definition reads (v : dval) : Prop := consumes rc (serialize_node v) (Some v) (node_count v).

Lemma c_array_loop vs : forall acc, Forall reads vs ->
  consumes (array_loop rc (length vs) acc) (foldr (fun v out => serialize_node v ++ out) [] vs)
    (Some (VArray (acc ++ vs))) (foldr (fun v n => node_count v + n) 0 vs).
Proof.
  induction vs as [|v vs IH]; intros acc Hr; cbn [array_loop length foldr].
  - rewrite app_nil_r. apply c_ret.
  - apply Forall_cons in Hr as [Hv Hr]. apply (c_bind _ _ _ _ (Some v) _ (node_count v) _ Hv).
    specialize (IH (acc ++ [v]) Hr). by rewrite <- app_assoc in IH.
Qed.


Lemma c_map_put {K} `{EqDecision K} (k : K) v kvs : k ∉ kvs.*1 -> consumes (map_put k v kvs) [] (kvs ++ [(k, v)]) 0.
Proof. intros Hk. unfold map_put. destruct (set_key_new k v kvs Hk) as [-> ->]. apply c_ret. Qed.

Lemma c_object_loop kvs : forall acc, NoDup (acc ++ kvs).*1 ->
  Forall (fun e => consumes rc (write_msgpack_str e.1) (Some (VString e.1)) 1 /\ reads e.2) kvs ->
  consumes (object_loop rc (length kvs) acc)
    (foldr (fun e out => write_msgpack_str e.1 ++ serialize_node e.2 ++ out) [] kvs)
    (Some (VObject (acc ++ kvs))) (foldr (fun e n => node_count e.2 + n) 0 kvs).
Proof.
  induction kvs as [|[k v] kvs IH]; intros acc Hnd Hr; cbn [object_loop length foldr].
  - rewrite app_nil_r. apply c_ret.
  - apply Forall_cons in Hr as [[Hk Hv] Hr]. cbn [fst snd] in *.
    replace (node_count v + _) with (1 + (-1 + (node_count v + (0 + foldr (fun e n => node_count e.2 + n) 0 kvs)))) by lia.
    apply (c_bind _ _ _ _ (Some (VString k)) _ 1 _ Hk).
    apply (c_bind _ _ [] _ tt _ (-1)); [apply (c_decref (VString k))|].
    apply (c_bind _ _ _ _ (Some v) _ (node_count v) _ Hv).
    apply (c_bind _ _ [] _ (acc ++ [(k, v)]) _ 0).
    + apply c_map_put. rewrite fmap_app in Hnd. apply list.NoDup_app in Hnd as (_ & Hnd & _).
      intros Hin. apply (Hnd k Hin). constructor.
    + specialize (IH (acc ++ [(k, v)])). rewrite <- app_assoc in IH. by apply IH.
Qed.

Lemma c_intmap_loop kvs : forall acc, NoDup (acc ++ kvs).*1 ->
  Forall (fun e => consumes rc (write_msgpack_int e.1) (Some (VInt e.1)) 1 /\ reads e.2) kvs ->
  consumes (intmap_loop rc (length kvs) acc)
    (foldr (fun e out => write_msgpack_int e.1 ++ serialize_node e.2 ++ out) [] kvs)
    (Some (VIntMap (acc ++ kvs))) (foldr (fun e n => node_count e.2 + n) 0 kvs).
Proof.
  induction kvs as [|[k v] kvs IH]; intros acc Hnd Hr; cbn [intmap_loop length foldr].
  - rewrite app_nil_r. apply c_ret.
  - apply Forall_cons in Hr as [[Hk Hv] Hr]. cbn [fst snd] in *.
    replace (node_count v + _) with (1 + (-1 + (node_count v + (0 + foldr (fun e n => node_count e.2 + n) 0 kvs)))) by lia.
    apply (c_bind _ _ _ _ (Some (VInt k)) _ 1 _ Hk).
    apply (c_bind _ _ [] _ tt _ (-1)); [apply (c_decref (VInt k))|].
    apply (c_bind _ _ _ _ (Some v) _ (node_count v) _ Hv).
    apply (c_bind _ _ [] _ (acc ++ [(k, v)]) _ 0).
    + apply c_map_put. rewrite fmap_app in Hnd. apply list.NoDup_app in Hnd as (_ & Hnd & _).
      intros Hin. apply (Hnd k Hin). constructor.
    + specialize (IH (acc ++ [(k, v)])). rewrite <- app_assoc in IH. by apply IH.
Qed.

(** The key test of [read_map] on the first byte of a string. *)
Lemma str_tag_tests b : 0xa0 <= b < 0xc0 \/ 0xd9 <= b <= 0xdb ->
  int_tag b = false /\ ((Z.land b 0xe0 =? 0xa0) || ((b >=? 0xd9) && (b <=? 0xdb))) = true.
Proof.
  intros Hb. assert (forallb (fun b => negb (int_tag b) && ((Z.land b 0xe0 =? 0xa0) || ((b >=? 0xd9) && (b <=? 0xdb))))
    (seqZ 0xa0 32 ++ seqZ 0xd9 3) = true) as H by (vm_compute; reflexivity).
  rewrite forallb_forall in H. specialize (H b). rewrite andb_true_iff, negb_true_iff in H. apply H.
  apply list_elem_of_In, elem_of_app. rewrite !elem_of_seqZ. lia.
Qed.

Lemma c_read_map n b bs r d : 0 < n -> n <= limit ->
  consumes (if int_tag b then (_ <- make (VIntMap []);; intmap_loop rc (Z.to_nat n) [])
            else (_ <- make (VObject []);; object_loop rc (Z.to_nat n) [])) (b :: bs) r d ->
  (int_tag b = false -> ((Z.land b 0xe0 =? 0xa0) || ((b >=? 0xd9) && (b <=? 0xdb))) = true) ->
  consumes (read_map W data limit rc n) (b :: bs) r d.
Proof.
  intros Hn Hl Hr Ht. unfold read_map. rewrite (proj2 (Z.eqb_neq n 0)) by lia.
  rewrite Z.gtb_ltb, (proj2 (Z.ltb_ge _ _)) by lia. apply c_need; [lia|unfold len; simpl; lia|].
  apply c_peek. fold (int_tag b). destruct (int_tag b); [done|]. by rewrite Ht.
Qed.

End Level.

Lemma consumes_node levels v b bs d : serialize_node v = b :: bs ->
  consumes (read_tagged W data limit (read_node W data limit levels) b) bs (Some v) d -> d = node_count v ->
  reads (read_node W data limit (S levels)) v.
Proof. intros E Hk ->. unfold reads. rewrite E. by apply c_node. Qed.

Lemma read_node_reads levels : forall v, (depth v <= levels)%nat -> fits limit v -> reads (read_node W data limit levels) v.
Proof.
  induction levels as [|levels IH]; intros v Hd Hf; [destruct v; simpl in Hd; lia|].
  destruct v as [|b|z|bits|s|vs|kvs|kvs|s]; cbn [fits depth] in *.
  - eapply (consumes_node levels _ 0xc0 [] 1); [done|apply c_make|done].
  - destruct b; [eapply (consumes_node levels _ 0xc3 [] 1)|eapply (consumes_node levels _ 0xc2 [] 1)]; try done; apply c_make.
  - destruct (c_int (read_node W data limit levels) z Hf) as (b & bs & E & _ & Hc). by eapply consumes_node.
  - eapply (consumes_node levels _ 0xcb (write_u64 bits) 1); [done| |done].
    by apply (c_scalar 8 _ _ bits) with (f := VFloat); [apply c_u64|lia|done|].
  - destruct (c_str (read_node W data limit levels) s Hf) as (b & bs & E & _ & Hc). by eapply consumes_node.
  - destruct Hf as (H1 & H2 & H3). rewrite foldr_and in H3.
    destruct (c_array_header (read_node W data limit levels) (Z.of_nat (length vs))
      (foldr (fun v out => serialize_node v ++ out) [] vs) (Some (VArray vs)) (node_count (VArray vs))) as (b & bs & E & Hc);
      [lia| |by eapply consumes_node].
    unfold read_array. rewrite Z.gtb_ltb, (proj2 (Z.ltb_ge _ _)) by lia.
    apply (c_bind _ _ [] _ (Some (VArray [])) _ 1); [apply c_make|]. rewrite Nat2Z.id. apply (c_array_loop _ vs []).
    rewrite Forall_forall in *. intros v Hv. apply IH; [|by apply H3]. pose proof (foldr_max_le depth vs v Hv). lia.
  - destruct Hf as (H1 & H2 & Hnd & H3). rewrite (foldr_and (fun e => len e.1 < 2 ^ 32 /\ fits limit e.2)) in H3.
    destruct (c_map_header (read_node W data limit levels) (Z.of_nat (length kvs))
      (foldr (fun e out => write_msgpack_str e.1 ++ serialize_node e.2 ++ out) [] kvs)
      (Some (VObject kvs)) (node_count (VObject kvs))) as (b & bs & E & Hc); [lia| |by eapply consumes_node].
    destruct kvs as [|[k v] kvs]; [apply c_make|].
    assert (Forall (fun e => consumes (read_node W data limit levels) (write_msgpack_str e.1) (Some (VString e.1)) 1 /\
      reads (read_node W data limit levels) e.2) ((k, v) :: kvs)) as Hr.
    { rewrite Forall_forall in *. intros e He. destruct (H3 e He) as [Hk Hv].
      pose proof (foldr_max_le (fun e => depth e.2) ((k, v) :: kvs) e He) as Hde.
      assert (0 < depth e.2)%nat by (destruct e.2; simpl; lia). split.
      - apply (IH (VString e.1)); [simpl in *; lia|exact Hk].
      - apply IH; [simpl in *; lia|exact Hv]. }
    destruct (c_str (read_node W data limit levels) k (proj1 (Forall_inv H3))) as (b & bs & E & Hb & _).
    destruct (str_tag_tests b Hb) as [Hi Hs].
    pose proof (c_object_loop _ ((k, v) :: kvs) [] Hnd Hr) as Hloop. revert Hloop. cbn [foldr fst snd].
    rewrite E. rewrite <- !app_comm_cons. intros Hloop.
    apply c_read_map; [simpl; lia|done| |done]. rewrite Hi.
    apply (c_bind _ _ [] _ (Some (VObject [])) _ 1); [apply c_make|]. by rewrite Nat2Z.id.
  - destruct Hf as (Hne & H1 & H2 & Hnd & H3). rewrite (foldr_and (fun e => s_range 64 e.1 /\ fits limit e.2)) in H3.
    destruct (c_map_header (read_node W data limit levels) (Z.of_nat (length kvs))
      (foldr (fun e out => write_msgpack_int e.1 ++ serialize_node e.2 ++ out) [] kvs)
      (Some (VIntMap kvs)) (node_count (VIntMap kvs))) as (b & bs & E & Hc); [lia| |by eapply consumes_node].
    destruct kvs as [|[k v] kvs]; [done|].
    assert (Forall (fun e => consumes (read_node W data limit levels) (write_msgpack_int e.1) (Some (VInt e.1)) 1 /\
      reads (read_node W data limit levels) e.2) ((k, v) :: kvs)) as Hr.
    { rewrite Forall_forall in *. intros e He. destruct (H3 e He) as [Hk Hv].
      pose proof (foldr_max_le (fun e => depth e.2) ((k, v) :: kvs) e He) as Hde.
      assert (0 < depth e.2)%nat by (destruct e.2; simpl; lia). split.
      - apply (IH (VInt e.1)); [simpl in *; lia|exact Hk].
      - apply IH; [simpl in *; lia|exact Hv]. }
    destruct (c_int (read_node W data limit levels) k (proj1 (Forall_inv H3))) as (b & bs & E & Hi & _).
    pose proof (c_intmap_loop _ ((k, v) :: kvs) [] Hnd Hr) as Hloop. revert Hloop. cbn [foldr fst snd].
    rewrite E. rewrite <- !app_comm_cons. intros Hloop.
    apply c_read_map; [simpl; lia|done| |by rewrite Hi]. rewrite Hi.
    apply (c_bind _ _ [] _ (Some (VIntMap [])) _ 1); [apply c_make|]. by rewrite Nat2Z.id.
  - destruct (c_bin (read_node W data limit levels) s Hf) as (b & bs & E & Hc). by eapply consumes_node.
Qed.

End RoundTrip.


Definition sample : dval :=
  VObject [([110], VArray [VInt (-5); VInt 70000; VNull; VBool true]); ([109], VIntMap [(9, VString [65; 0; 66])]);
           ([102], VFloat 4611686018427387904)].


(** The one value kind that does not survive: an empty integer map reads back
    as an empty object. *)
Theorem MsgPack_empty_intmap : MsgPackParse 64 (MsgPackSerialize (VIntMap [])) 1000000 = Some (Some (VObject []), 1).
Proof. vm_compute. reflexivity. Qed.
