(* ===== verification/HttpState.v ===== *)
(** * The life of a request: the invariant of the HTTP subsystem

    A request is at one place at a time: idle in the hands of the plugin,
    queued for the event thread, in libcurl's multi handle, waiting for a retry
    timer, completed (in the queue of completed requests, or taken from it by the
    game frame under way), or in its callback.  [http_ok] relates the places to the members
    of the requests, the handle table, the queues and sets of the event loop,
    the pool of easy handles and the index of client handles.  The lemmas say
    that moving a request from place to place, as one step of the code does,
    keeps it. *)

From stdpp Require Import base numbers list gmap.
From Stdlib Require Import ZArith Lia.
From S2P Require Import Prelude LockedQueue HandleManager NodePool DataMap DataValue Float Text DataNode HeaderMap HttpRequest EventLoop MsgPack.

Inductive place := Idle | Pend | Multi | Wait | Finished | Run.

#[global] Instance place_eq_dec : EqDecision place.
Proof. solve_decision. Defined.

(** Between [EnqueueRequest] and the callback. *)
Definition in_flight (q : place) : bool := match q with Idle | Run => false | _ => true end.

(** What the game thread is doing: the requests of the frame under way whose
    callback has not started, and the one whose callback is running. *)
Class Frame := mkFrame { drained : list positive; running : option positive }.

Definition no_frame : Frame := mkFrame [] None.

Section State.

Context {FR : Frame}.

#[local] Notation requests := (gmap positive HttpRequest).

(** The requests at a place, as the code stores them. *)
Definition members (e : EventLoop) (q : place) : list positive :=
  match q with
  | Idle => []
  | Pend => queue_ (pending_queue e)
  | Multi => (map_to_list (curl_multi_ e)).*2
  | Wait => (map_to_list (retry_timers_ e)).*2
  | Finished => drained ++ queue_ (done_queue e)
  | Run => option_list running
  end.

(** The response body is a buffer of bytes that fits the address space. *)
Definition body_ok (r : HttpRequest) : Prop := Forall is_byte (response_body r) /\ len (response_body r) + 2 ^ 32 <= 2 ^ 64.

Record req_ok (cancel : list positive) (handles : gmap Z Handle) (p : positive) (r : HttpRequest) (q : place) : Prop := {
  R_self : exists x, handles !! handle_id r = Some x /\ pointer x = p /\ type x = HANDLE_HTTP_REQUEST /\ closed x = handle_closed r;
  R_thread : in_event_thread r = in_flight q;
  R_wait : in_retry_wait r = bool_decide (q = Wait);
  R_completed : q = Wait -> completed r = false;
  R_closed : handle_closed r = true -> q <> Idle /\ (q = Multi \/ q = Wait -> p ∈ cancel);
  R_body : body_ok r;
  R_curl : is_Some (curl r);
  R_node : q <> Finished -> q <> Run -> response_node r = None
}.

Record http_ok (pl : gmap positive place) (reqs : requests) (handles : gmap Z Handle) (e : EventLoop) (c : CurlPool)
    (cl : gmap Z (list Z)) : Prop := {
  K_dom : forall p, is_Some (pl !! p) -> is_Some (reqs !! p);
  K_req : forall p r, reqs !! p = Some r -> exists q, pl !! p = Some q /\ req_ok (queue_ (cancel_queue e)) handles p r q;
  K_nodup : forall q, NoDup (members e q);
  K_members : forall q p, q <> Idle -> p ∈ members e q <-> pl !! p = Some q;
  K_active : forall p, p ∈ active_http_requests_ e <-> pl !! p = Some Multi \/ pl !! p = Some Wait;
  K_handles : http_curl_handles_ e = dom (curl_multi_ e);
  K_multi : forall c p, curl_multi_ e !! c = Some p -> exists r, reqs !! p = Some r /\ curl r = Some c;
  K_flags : flag_ok (pending_queue e) /\ flag_ok (cancel_queue e) /\ flag_ok (done_queue e);
  K_stats : stats_pending e = sN 32 (Z.of_nat (length (members e Pend))) /\
            stats_active e = sN 32 (Z.of_nat (length (members e Multi)));
  K_distinct : forall p p' r r', reqs !! p = Some r -> reqs !! p' = Some r' -> curl r = curl r' -> p = p';
  K_pool : NoDup (g_curl_pool c) /\ forall p r x, reqs !! p = Some r -> curl r = Some x -> x ∉ g_curl_pool c;
  K_owner : forall p r, reqs !! p = Some r -> handle_closed r = false -> 0 < client_index r ->
    handle_id r ∈ default [] (cl !! client_index r);
  K_tracked : forall i h, h ∈ default [] (cl !! i) -> 0 < i /\
    exists p r, reqs !! p = Some r /\ handle_id r = h /\ client_index r = i /\ handle_closed r = false
}.

(** ** Places *)

Section Facts.

Context {pl : gmap positive place} {reqs : requests} {handles : gmap Z Handle} {e : EventLoop} {c : CurlPool} {cl : gmap Z (list Z)}.
Context (H : http_ok pl reqs handles e c cl).

Lemma at_place p q : q <> Idle -> p ∈ members e q -> exists r, reqs !! p = Some r /\ pl !! p = Some q /\
  req_ok (queue_ (cancel_queue e)) handles p r q.
Proof using H.
  intros Hq Hp. apply (K_members _ _ _ _ _ _ H q p Hq) in Hp. destruct (K_dom _ _ _ _ _ _ H p) as [r Hr]; [by eexists|].
  exists r. split; [done|]. split; [done|]. destruct (K_req _ _ _ _ _ _ H p r Hr) as (q' & Hq' & Hok). congruence.
Qed.

(** A request whose members say it is not in flight is idle or in its callback. *)
Lemma idle_place p r : reqs !! p = Some r -> in_event_thread r = false -> running <> Some p ->
  pl !! p = Some Idle /\ req_ok (queue_ (cancel_queue e)) handles p r Idle.
Proof using H.
  intros Hr Ht Hrun. destruct (K_req _ _ _ _ _ _ H p r Hr) as (q & Hq & Hok). pose proof (R_thread _ _ _ _ _ Hok) as E.
  rewrite Ht in E. destruct q; try done. exfalso. apply Hrun. apply (K_members _ _ _ _ _ _ H Run p) in Hq; [|done].
  cbn in Hq. destruct running; [|by apply not_elem_of_nil in Hq]. apply list_elem_of_singleton in Hq. by subst.
Qed.

Lemma flying_place p r : reqs !! p = Some r -> in_event_thread r = true ->
  exists q, pl !! p = Some q /\ in_flight q = true /\ p ∈ members e q.
Proof using H.
  intros Hr Ht. destruct (K_req _ _ _ _ _ _ H p r Hr) as (q & Hq & Hok). pose proof (R_thread _ _ _ _ _ Hok) as E.
  rewrite Ht in E. exists q. split_and!; [done|done|]. apply (K_members _ _ _ _ _ _ H); [by destruct q|done].
Qed.

Lemma handle_inj p p' r r' : reqs !! p = Some r -> reqs !! p' = Some r' -> handle_id r = handle_id r' -> p = p'.
Proof using H.
  intros Hr Hr' E. destruct (K_req _ _ _ _ _ _ H p r Hr) as (q & _ & Hok). destruct (K_req _ _ _ _ _ _ H p' r' Hr') as (q' & _ & Hok').
  destruct (R_self _ _ _ _ _ Hok) as (x & Hx & <- & _). destruct (R_self _ _ _ _ _ Hok') as (x' & Hx' & <- & _). congruence.
Qed.

End Facts.

(** ** Other parts change *)

Lemma http_handles' pl reqs handles handles' e c cl : http_ok pl reqs handles e c cl ->
  (forall h x, handles !! h = Some x -> type x = HANDLE_HTTP_REQUEST ->
     exists x', handles' !! h = Some x' /\ pointer x' = pointer x /\ type x' = type x /\ closed x' = closed x) ->
  http_ok pl reqs handles' e c cl.
Proof.
  intros [] Hh. split; try done. intros p r Hr. destruct (K_req0 p r Hr) as (q & Hq & [(x & Hx & ? & ? & ?)]).
  exists q. split; [done|]. destruct (Hh _ x Hx ltac:(done)) as (x' & Hx' & Ep & Et & Ec). split; try done. exists x'. by rewrite Ep, Et, Ec.
Qed.

Lemma http_handles pl reqs handles handles' e c cl : http_ok pl reqs handles e c cl ->
  (forall h x, handles !! h = Some x -> type x = HANDLE_HTTP_REQUEST -> handles' !! h = Some x) -> http_ok pl reqs handles' e c cl.
Proof. intros H Hh. eapply http_handles'; [exact H|]. intros h x Hx Ht. exists x. split; [by apply Hh|done]. Qed.

(** The index of client handles counts as a function. *)
Lemma http_clients pl reqs handles e c cl cl' : http_ok pl reqs handles e c cl ->
  (forall i, default [] (cl' !! i) = default [] (cl !! i)) -> http_ok pl reqs handles e c cl'.
Proof.
  intros [] Hi. split; try done.
  - intros p r. rewrite Hi. apply K_owner0.
  - intros i h. rewrite Hi. apply K_tracked0.
Qed.

(** ** A member changes, the request stays where it is *)

(** The members the invariant is about agree. *)
Definition same_core (r r' : HttpRequest) : Prop :=
  curl r' = curl r /\ handle_id r' = handle_id r /\ client_index r' = client_index r /\ in_event_thread r' = in_event_thread r /\
  handle_closed r' = handle_closed r /\ in_retry_wait r' = in_retry_wait r /\ completed r' = completed r /\ (body_ok r -> body_ok r') /\
  (response_node r = None -> response_node r' = None).

Lemma same_core_refl r : same_core r r.
Proof. unfold same_core. tauto. Qed.

Lemma req_ok_core cancel handles p r r' q : same_core r r' -> req_ok cancel handles p r q -> req_ok cancel handles p r' q.
Proof. intros (E1 & E2 & E3 & E4 & E5 & E6 & E7 & E8 & E9) []. split; rewrite ?E1, ?E2, ?E4, ?E5, ?E6, ?E7; auto. Qed.

Lemma http_update pl reqs handles e c cl p r r' : http_ok pl reqs handles e c cl -> reqs !! p = Some r -> same_core r r' ->
  http_ok pl (<[p := r']> reqs) handles e c cl.
Proof.
  intros H Hr Hc. pose proof Hc as (E1 & E2 & E3 & _ & E5 & _).
  assert (forall p' r1, <[p := r']> reqs !! p' = Some r1 -> exists r0, reqs !! p' = Some r0 /\ same_core r0 r1) as Hback.
  { intros p' r1. rewrite lookup_insert_Some. intros [[<- <-]|[_ Hr1]]; [by exists r|]. exists r1. split; [done|]. apply same_core_refl. }
  assert (forall p' r0, reqs !! p' = Some r0 -> exists r1, <[p := r']> reqs !! p' = Some r1 /\ same_core r0 r1) as Hfwd.
  { intros p' r0 H0. destruct (decide (p' = p)) as [->|Hne].
    - exists r'. rewrite lookup_insert_eq. split; [done|]. by replace r0 with r by congruence.
    - exists r0. rewrite lookup_insert_ne by done. split; [done|]. apply same_core_refl. }
  destruct H. split; try done.
  - intros p' Hp'. destruct (K_dom0 p' Hp') as [r0 H0]. destruct (Hfwd p' r0 H0) as (r1 & H1 & _). by exists r1.
  - intros p' r1 H1. destruct (Hback p' r1 H1) as (r0 & H0 & Hc0). destruct (K_req0 p' r0 H0) as (q & Hq & Hok).
    exists q. split; [done|]. by eapply req_ok_core.
  - intros x p' Hx. destruct (K_multi0 x p' Hx) as (r0 & H0 & Ec). destruct (Hfwd p' r0 H0) as (r1 & H1 & Hc1).
    exists r1. split; [done|]. destruct Hc1 as [-> _]. done.
  - intros p1 p2 r1 r2 H1 H2 E. destruct (Hback p1 r1 H1) as (s1 & Hs1 & (F1 & _)). destruct (Hback p2 r2 H2) as (s2 & Hs2 & (F2 & _)).
    eapply K_distinct0; [exact Hs1|exact Hs2|congruence].
  - destruct K_pool0 as [Hnd Hp]. split; [done|]. intros p1 r1 x H1 Ex. destruct (Hback p1 r1 H1) as (s1 & Hs1 & (F1 & _)).
    eapply Hp; [exact Hs1|congruence].
  - intros p1 r1 H1. destruct (Hback p1 r1 H1) as (s1 & Hs1 & (_ & F2 & F3 & _ & F5 & _)). rewrite F2, F3, F5. by apply (K_owner0 p1).
  - intros i h Hh. destruct (K_tracked0 i h Hh) as (Hi & p1 & s1 & Hs1 & E). split; [done|].
    destruct (Hfwd p1 s1 Hs1) as (r1 & H1 & (_ & F2 & F3 & _ & F5 & _)). exists p1, r1. rewrite F2, F3, F5. done.
Qed.

End State.

(** ** A request moves *)

(** What an event loop keeps in step with the places of the requests. *)
Definition loop_ok {FR : Frame} (e : EventLoop) : Prop :=
  http_curl_handles_ e = dom (curl_multi_ e) /\
  (flag_ok (pending_queue e) /\ flag_ok (cancel_queue e) /\ flag_ok (done_queue e)) /\
  (stats_pending e = sN 32 (Z.of_nat (length (members e Pend))) /\ stats_active e = sN 32 (Z.of_nat (length (members e Multi)))).

Lemma http_loop {FR : Frame} pl reqs handles e c cl : http_ok pl reqs handles e c cl -> loop_ok e.
Proof. intros []. done. Qed.

(** [p] leaves [q0] for [q1]. *)
Definition moved (FR FR' : Frame) (p : positive) (q0 q1 : place) (e e' : EventLoop) : Prop :=
  (forall q, q <> Idle -> (if decide (q = q0) then [p] else []) ++ members (FR := FR') e' q ≡ₚ
                          (if decide (q = q1) then [p] else []) ++ members (FR := FR) e q) /\
  (forall x, x <> p -> x ∈ queue_ (cancel_queue e) -> x ∈ queue_ (cancel_queue e')) /\
  (forall x, x ∈ active_http_requests_ e' <-> (x = p /\ (q1 = Multi \/ q1 = Wait)) \/ (x <> p /\ x ∈ active_http_requests_ e)).

Lemma req_ok_cancel cancel cancel' handles p r q : (p ∈ cancel -> p ∈ cancel') -> req_ok cancel handles p r q -> req_ok cancel' handles p r q.
Proof. intros Hs []. split; try done. intros Hc. destruct (R_closed0 Hc) as [? Hq]. split; [done|]. auto. Qed.

Lemma moved_members (FR FR' : Frame) p q0 q1 e e' (pl : gmap positive place) : moved FR FR' p q0 q1 e e' -> pl !! p = Some q0 ->
  (forall q, NoDup (members (FR := FR) e q)) -> (forall q x, q <> Idle -> x ∈ members (FR := FR) e q <-> pl !! x = Some q) ->
  (forall q, NoDup (members (FR := FR') e' q)) /\
  (forall q x, q <> Idle -> x ∈ members (FR := FR') e' q <-> <[p := q1]> pl !! x = Some q).
Proof.
  intros (Hm & _) Hp Hnd Hmem.
  assert (forall q, q <> Idle -> NoDup (members (FR := FR) e q ++ (if decide (q = q1) then if decide (q = q0) then [] else [p] else []))) as Hnd1.
  { intros q Hq. case_decide as E1; [|by rewrite app_nil_r]. case_decide as E0; [by rewrite app_nil_r|].
    apply list.NoDup_app. split_and!; [done| |repeat constructor; apply not_elem_of_nil].
    intros x Hx ->%list_elem_of_singleton. apply Hmem in Hx; [|done]. congruence. }
  assert (forall q, q <> Idle -> NoDup (members (FR := FR') e' q) /\ forall x, x ∈ members (FR := FR') e' q <-> <[p := q1]> pl !! x = Some q) as Hall.
  { intros q Hq. specialize (Hm q Hq). specialize (Hnd1 q Hq). pose proof (Hmem q p Hq) as Hpq.
    destruct (decide (q = q0)) as [E0|E0], (decide (q = q1)) as [E1|E1]; simpl in Hm.
    - apply Permutation_cons_inv in Hm. rewrite app_nil_r in Hnd1. split; [by rewrite Hm|]. intros x. rewrite Hm, Hmem by done.
      destruct (decide (x = p)) as [->|Hx]; [|by rewrite lookup_insert_ne]. rewrite lookup_insert_eq. subst. naive_solver.
    - rewrite app_nil_r in Hnd1. rewrite <- Hm in Hnd1. apply NoDup_cons in Hnd1 as [Hnp Hnd1]. split; [done|]. intros x.
      destruct (decide (x = p)) as [->|Hx]; [rewrite lookup_insert_eq; naive_solver|]. rewrite lookup_insert_ne, <- Hmem, <- Hm, elem_of_cons by done.
      naive_solver.
    - rewrite Permutation_app_comm in Hnd1. simpl in Hnd1. rewrite <- Hm in Hnd1. split; [done|]. intros x.
      rewrite Hm, elem_of_cons, Hmem by done. destruct (decide (x = p)) as [->|Hx]; [rewrite lookup_insert_eq|rewrite lookup_insert_ne by done]; naive_solver.
    - rewrite app_nil_r in Hnd1. rewrite <- Hm in Hnd1. split; [done|]. intros x. rewrite Hm, Hmem by done.
      destruct (decide (x = p)) as [->|Hx]; [rewrite lookup_insert_eq|rewrite lookup_insert_ne by done]; naive_solver. }
  split; [|intros q x Hq; by apply Hall]. intros q. destruct (decide (q = Idle)) as [->|Hq]; [constructor|by apply Hall].
Qed.

Section Move.

Context (FR FR' : Frame) (pl : gmap positive place) (reqs : gmap positive HttpRequest) (handles : gmap Z Handle) (e e' : EventLoop)
        (c : CurlPool) (cl : gmap Z (list Z)).

Lemma http_move p r r' q0 q1 : http_ok (FR := FR) pl reqs handles e c cl -> reqs !! p = Some r -> pl !! p = Some q0 ->
  moved FR FR' p q0 q1 e e' -> loop_ok (FR := FR') e' -> req_ok (queue_ (cancel_queue e')) handles p r' q1 ->
  (forall x y, curl_multi_ e' !! x = Some y -> curl_multi_ e !! x = Some y \/ (y = p /\ curl r' = Some x)) ->
  curl r' = curl r -> handle_id r' = handle_id r -> client_index r' = client_index r -> handle_closed r' = handle_closed r ->
  http_ok (FR := FR') (<[p := q1]> pl) (<[p := r']> reqs) handles e' c cl.
Proof.
  intros H Hr Hp Hm (L1 & L2 & L3) Hok Hmulti E1 E2 E3 E4.
  destruct (moved_members FR FR' p q0 q1 e e' pl Hm Hp (K_nodup _ _ _ _ _ _ H) (K_members _ _ _ _ _ _ H)) as [Hnd Hmem].
  destruct Hm as (_ & Hcancel & Hactive).
  assert (forall p' r1, <[p := r']> reqs !! p' = Some r1 -> exists r0, reqs !! p' = Some r0 /\
    curl r1 = curl r0 /\ handle_id r1 = handle_id r0 /\ client_index r1 = client_index r0 /\ handle_closed r1 = handle_closed r0) as Hback.
  { intros p' r1. rewrite lookup_insert_Some. intros [[<- <-]|[_ Hr1]]; [by exists r|]. by exists r1. }
  destruct H. split; try done.
  - intros x. destruct (decide (x = p)) as [->|Hx]; [rewrite !lookup_insert_eq; by eexists|]. rewrite !lookup_insert_ne by done. apply K_dom0.
  - intros x r1. rewrite lookup_insert_Some. intros [[<- <-]|[Hx Hr1]]; [exists q1; by rewrite lookup_insert_eq|].
    destruct (K_req0 x r1 Hr1) as (q & Hq & Hq'). exists q. rewrite lookup_insert_ne by done. split; [done|]. eapply req_ok_cancel; [|exact Hq']. by apply Hcancel.
  - intros x. rewrite Hactive. destruct (decide (x = p)) as [->|Hx]; [rewrite lookup_insert_eq|rewrite lookup_insert_ne, <- K_active0 by done]; naive_solver.
  - intros x y Hxy. destruct (Hmulti x y Hxy) as [Ho|[-> Hc]]; [|exists r'; by rewrite lookup_insert_eq].
    destruct (K_multi0 x y Ho) as (r0 & Hr0 & Hc0). destruct (decide (y = p)) as [->|Hy]; [exists r'|exists r0; by rewrite lookup_insert_ne].
    rewrite lookup_insert_eq. split; [done|]. congruence.
  - intros p1 p2 r1 r2 H1 H2 E. destruct (Hback p1 r1 H1) as (s1 & Hs1 & F1 & _). destruct (Hback p2 r2 H2) as (s2 & Hs2 & F2 & _).
    eapply K_distinct0; [exact Hs1|exact Hs2|congruence].
  - destruct K_pool0 as [Hnd0 Hfree]. split; [done|]. intros p1 r1 x H1 Ex. destruct (Hback p1 r1 H1) as (s1 & Hs1 & F1 & _).
    eapply Hfree; [exact Hs1|congruence].
  - intros p1 r1 H1. destruct (Hback p1 r1 H1) as (s1 & Hs1 & _ & F2 & F3 & F4). rewrite F2, F3, F4. by apply (K_owner0 p1).
  - intros i h Hh. destruct (K_tracked0 i h Hh) as (Hi & p1 & s1 & Hs1 & F2 & F3 & F4). split; [done|].
    destruct (decide (p1 = p)) as [->|Hne]; [exists p, r'; rewrite lookup_insert_eq|exists p1, s1; by rewrite lookup_insert_ne].
    replace s1 with r in * by congruence. split_and!; congruence.
Qed.

End Move.

(** ** The index of client handles *)

Lemma elem_untrack client k cl i h : h ∈ default [] (UntrackClientHandle client k cl !! i) <->
  h ∈ default [] (cl !! i) /\ ~ (0 < client /\ i = client /\ h = k).
Proof.
  unfold UntrackClientHandle. destruct (Z.leb_spec client 0); [naive_solver lia|].
  destruct (cl !! client) as [vec|] eqn:E; cbn [default]; [|destruct (decide (i = client)) as [->|]; [rewrite E; cbn; split; [by intros ?%not_elem_of_nil|intros [?%not_elem_of_nil _]; done]|naive_solver]].
  assert (forall vec', (filter (fun h => h <> k) vec) = vec' ->
    (h ∈ (if decide (i = client) then vec' else default [] (cl !! i)) <-> h ∈ default [] (cl !! i) /\ ~ (0 < client /\ i = client /\ h = k))) as Hf.
  { intros vec' <-. case_decide as Ei; [subst i|naive_solver]. rewrite E, list_elem_of_filter. cbn. naive_solver. }
  destruct (filter _ vec) as [|a l] eqn:Ef.
  - rewrite <- (Hf [] eq_refl). destruct (decide (i = client)) as [->|]; [by rewrite lookup_delete_eq|by rewrite lookup_delete_ne].
  - rewrite <- (Hf (a :: l) eq_refl). destruct (decide (i = client)) as [->|]; [by rewrite lookup_insert_eq|by rewrite lookup_insert_ne].
Qed.

Lemma elem_track client k cl i h : h ∈ default [] (TrackClientHandle client k cl !! i) <->
  h ∈ default [] (cl !! i) \/ (0 < client /\ i = client /\ h = k).
Proof.
  unfold TrackClientHandle. destruct (Z.leb_spec client 0); [naive_solver lia|].
  destruct (decide (i = client)) as [->|Hi]; [rewrite lookup_insert_eq|rewrite lookup_insert_ne by done; naive_solver].
  cbn. rewrite elem_of_app, list_elem_of_singleton. naive_solver.
Qed.

Section Changes.

Context {FR : Frame} (pl : gmap positive place) (reqs : gmap positive HttpRequest) (handles handles' : gmap Z Handle) (e : EventLoop)
        (c : CurlPool) (cl : gmap Z (list Z)).
Context (H : http_ok pl reqs handles e c cl).

(** A handle other than the ones of [r] stays as it was. *)
Definition others_kept (r : HttpRequest) : Prop := forall h, h <> handle_id r -> handles' !! h = handles !! h.

Lemma req_ok_others p r p' r' cancel q : reqs !! p = Some r -> reqs !! p' = Some r' -> p' <> p -> others_kept r ->
  req_ok cancel handles p' r' q -> req_ok cancel handles' p' r' q.
Proof using H.
  intros Hr Hr' Hne Ho []. split; try done. destruct R_self0 as (x & Hx & ?). exists x. rewrite Ho; [done|].
  intros E. apply Hne. by eapply (handle_inj H).
Qed.

(** [Close] while the request is in flight. *)
Lemma http_close p r x : reqs !! p = Some r -> in_event_thread r = true -> others_kept r ->
  handles' !! handle_id r = Some x -> pointer x = p -> type x = HANDLE_HTTP_REQUEST -> closed x = true ->
  http_ok pl (<[p := set_handle_closed true r]> reqs) handles' (CancelRequest p e) c
    (UntrackClientHandle (client_index r) (handle_id r) cl).
Proof using H.
  intros Hr Ht Ho Hx Ep Ety Ecl. destruct (flying_place H p r Hr Ht) as (q0 & Hq0 & Hfly & _).
  assert (forall p1 r1, <[p := set_handle_closed true r]> reqs !! p1 = Some r1 -> exists r0, reqs !! p1 = Some r0 /\
    curl r1 = curl r0 /\ handle_id r1 = handle_id r0 /\ client_index r1 = client_index r0 /\ (handle_closed r1 = false -> r1 = r0 /\ p1 <> p)) as Hback.
  { intros p1 r1. rewrite lookup_insert_Some. intros [[<- <-]|[Hne Hr1]]; [by exists r|]. exists r1. split_and!; try done. }
  pose proof H as H0. destruct H0. split; try done.
  - intros p1 Hp1. destruct (K_dom0 p1 Hp1) as [r1 H1]. destruct (decide (p1 = p)) as [->|]; [rewrite lookup_insert_eq; by eexists|].
    rewrite lookup_insert_ne by done. by eexists.
  - intros p1 r1. rewrite lookup_insert_Some. intros [[<- <-]|[Hne Hr1]].
    + exists q0. split; [done|]. destruct (K_req0 p r Hr) as (q & Hq & []). assert (q = q0) as -> by congruence. split; try done.
      * exists x. by rewrite Ecl.
      * intros _. split; [by destruct q0|]. intros _. cbn. apply elem_of_app. right. constructor.
    + destruct (K_req0 p1 r1 Hr1) as (q & Hq & Hok). exists q. split; [done|].
      eapply req_ok_cancel; [|by eapply (req_ok_others p r)]. cbn. set_solver.
  - intros y z Hy. destruct (K_multi0 y z Hy) as (r0 & Hr0 & Hc0). destruct (decide (z = p)) as [->|]; [|exists r0; by rewrite lookup_insert_ne].
    exists (set_handle_closed true r). rewrite lookup_insert_eq. split; [done|]. cbn. congruence.
  - destruct K_flags0 as (F1 & F2 & F3). split_and!; [done|apply flag_Push|done].
  - intros p1 p2 r1 r2 H1 H2 E. destruct (Hback p1 r1 H1) as (s1 & Hs1 & F1 & _). destruct (Hback p2 r2 H2) as (s2 & Hs2 & F2 & _).
    eapply K_distinct0; [exact Hs1|exact Hs2|congruence].
  - destruct K_pool0 as [Hnd Hp]. split; [done|]. intros p1 r1 y H1 Ey. destruct (Hback p1 r1 H1) as (s1 & Hs1 & F1 & _).
    eapply Hp; [exact Hs1|congruence].
  - intros p1 r1 H1 Hc1 Hci. destruct (Hback p1 r1 H1) as (s1 & Hs1 & _ & _ & _ & F). destruct (F Hc1) as [<- Hne].
    apply elem_untrack. split; [by apply (K_owner0 p1)|]. intros (_ & _ & Eh). apply Hne. by eapply (handle_inj H).
  - intros i h [Hh Hnot]%elem_untrack. destruct (K_tracked0 i h Hh) as (Hi & p1 & s1 & Hs1 & F2 & F3 & F4). split; [done|].
    exists p1, s1. split; [|done]. rewrite lookup_insert_ne; [done|]. intros <-. replace s1 with r in * by congruence. subst. auto.
Qed.

(** The plugin's request changes its client. *)
Lemma http_owner p r client : reqs !! p = Some r -> handle_closed r = false ->
  http_ok pl (<[p := set_client_index client r]> reqs) handles e c
    (TrackClientHandle client (handle_id r) (UntrackClientHandle (client_index r) (handle_id r) cl)).
Proof using H.
  intros Hr Hcl0.
  assert (forall p1 r1, <[p := set_client_index client r]> reqs !! p1 = Some r1 -> exists r0, reqs !! p1 = Some r0 /\
    curl r1 = curl r0 /\ handle_id r1 = handle_id r0 /\ handle_closed r1 = handle_closed r0 /\ (p1 <> p -> r1 = r0) /\ (p1 = p -> client_index r1 = client)) as Hback.
  { intros p1 r1. rewrite lookup_insert_Some. intros [[<- <-]|[Hne Hr1]]; [by exists r|]. exists r1. split_and!; try done. }
  pose proof H as H0. destruct H0. split; try done.
  - intros p1 Hp1. destruct (K_dom0 p1 Hp1) as [r1 H1]. destruct (decide (p1 = p)) as [->|]; [rewrite lookup_insert_eq; by eexists|].
    rewrite lookup_insert_ne by done. by eexists.
  - intros p1 r1. rewrite lookup_insert_Some. intros [[<- <-]|[Hne Hr1]]; [|by apply K_req0].
    destruct (K_req0 p r Hr) as (q & Hq & []). exists q. split; [done|]. by split.
  - intros y z Hy. destruct (K_multi0 y z Hy) as (r0 & Hr0 & Hc0). destruct (decide (z = p)) as [->|]; [|exists r0; by rewrite lookup_insert_ne].
    exists (set_client_index client r). rewrite lookup_insert_eq. split; [done|]. cbn. congruence.
  - intros p1 p2 r1 r2 H1 H2 E. destruct (Hback p1 r1 H1) as (s1 & Hs1 & F1 & _). destruct (Hback p2 r2 H2) as (s2 & Hs2 & F2 & _).
    eapply K_distinct0; [exact Hs1|exact Hs2|congruence].
  - destruct K_pool0 as [Hnd Hp]. split; [done|]. intros p1 r1 y H1 Ey. destruct (Hback p1 r1 H1) as (s1 & Hs1 & F1 & _).
    eapply Hp; [exact Hs1|congruence].
  - intros p1 r1 H1 Hc1 Hci. destruct (Hback p1 r1 H1) as (s1 & Hs1 & _ & F2 & F3 & F4 & F5). apply elem_track.
    destruct (decide (p1 = p)) as [->|Hne].
    + right. rewrite F5, F2 in * by done. split_and!; [done|done|]. f_equal. congruence.
    + left. rewrite F4 in * by done. apply elem_untrack. split; [by apply (K_owner0 p1)|]. intros (_ & _ & Eh). apply Hne. by eapply (handle_inj H).
  - intros i h [[Hh Hnot]%elem_untrack|(Hpos & -> & ->)]%elem_track.
    + destruct (K_tracked0 i h Hh) as (Hi & p1 & s1 & Hs1 & F2 & F3 & F4). split; [done|].
      exists p1, s1. split; [|done]. rewrite lookup_insert_ne; [done|]. intros <-. replace s1 with r in * by congruence. subst. auto.
    + split; [done|]. exists p, (set_client_index client r). by rewrite lookup_insert_eq.
Qed.

(** A new request. *)
Lemma http_create p r x y : reqs !! p = None -> (forall h z, handles !! h = Some z -> handles' !! h = Some z) ->
  handles' !! handle_id r = Some x -> pointer x = p -> type x = HANDLE_HTTP_REQUEST -> closed x = false ->
  handle_closed r = false -> in_event_thread r = false -> in_retry_wait r = false -> client_index r = 0 -> response_body r = [] ->
  response_node r = None -> curl r = Some y -> y ∉ g_curl_pool c -> (forall p1 r1, reqs !! p1 = Some r1 -> curl r1 <> Some y) ->
  http_ok (<[p := Idle]> pl) (<[p := r]> reqs) handles' e c cl.
Proof using H.
  intros Hp Hext Hx Ep Ety Ecl Hc Ht Hw Hci Hb Hn Hy Hpool Hfresh.
  assert (pl !! p = None) as Hpl.
  { destruct (pl !! p) eqn:E; [|done]. destruct (K_dom _ _ _ _ _ _ H p) as [? ?]; [by eexists|congruence]. }
  pose proof H as H0. destruct H0. split; try done.
  - intros p1. destruct (decide (p1 = p)) as [->|]; [rewrite !lookup_insert_eq; by eexists|]. rewrite !lookup_insert_ne by done. apply K_dom0.
  - intros p1 r1. rewrite lookup_insert_Some. intros [[<- <-]|[Hne Hr1]].
    + exists Idle. rewrite lookup_insert_eq. split; [done|]. split; try done.
      * exists x. by rewrite Ecl, Hc.
      * by rewrite Hc.
      * unfold body_ok. rewrite Hb. split; [by apply Forall_nil|unfold len; cbn [length]; lia].
    + destruct (K_req0 p1 r1 Hr1) as (q & Hq & []). exists q. rewrite lookup_insert_ne by done. split; [done|]. split; try done.
      destruct R_self0 as (z & Hz & ?). exists z. split; [by apply Hext|done].
  - intros q p1 Hq. rewrite K_members0 by done. destruct (decide (p1 = p)) as [->|]; [rewrite lookup_insert_eq, Hpl; naive_solver|by rewrite lookup_insert_ne].
  - intros p1. rewrite K_active0. destruct (decide (p1 = p)) as [->|]; [rewrite lookup_insert_eq, Hpl; naive_solver|by rewrite lookup_insert_ne].
  - intros u v Hu. destruct (K_multi0 u v Hu) as (r0 & Hr0 & Hc0). exists r0. split; [|done]. rewrite lookup_insert_ne; [done|]. intros <-. congruence.
  - intros p1 p2 r1 r2. rewrite !lookup_insert_Some. intros [[<- <-]|[? H1]] [[<- <-]|[? H2]] E; [done| | |by eapply K_distinct0].
    + exfalso. eapply Hfresh; [exact H2|congruence].
    + exfalso. eapply Hfresh; [exact H1|congruence].
  - destruct K_pool0 as [Hnd Hfree]. split; [done|]. intros p1 r1 u. rewrite lookup_insert_Some. intros [[<- <-]|[? H1]] Eu; [congruence|by eapply Hfree].
  - intros p1 r1. rewrite lookup_insert_Some. intros [[<- <-]|[? H1]]; [lia|by apply (K_owner0 p1)].
  - intros i h Hh. destruct (K_tracked0 i h Hh) as (Hi & p1 & s1 & Hs1 & F). split; [done|]. exists p1, s1. split; [|done].
    rewrite lookup_insert_ne; [done|]. intros <-. congruence.
Qed.

End Changes.

(** The pool keeps distinct handles; a released one was not in it. *)
Lemma ReleaseCurl_pool x c : g_curl_pool (ReleaseCurl x c) = g_curl_pool c ++ [x] \/ g_curl_pool (ReleaseCurl x c) = g_curl_pool c.
Proof. unfold ReleaseCurl. cbn. destruct (_ <? _); auto. Qed.

(** The request is deleted. *)
Lemma http_free (FR FR' : Frame) pl reqs handles handles' e c cl p r x q0 : http_ok (FR := FR) pl reqs handles e c cl ->
  reqs !! p = Some r -> pl !! p = Some q0 -> curl r = Some x -> q0 = Idle \/ q0 = Run ->
  (forall q, (if decide (q = q0 /\ q <> Idle) then [p] else []) ++ members (FR := FR') e q ≡ₚ members (FR := FR) e q) ->
  (forall h, h <> handle_id r -> handles' !! h = handles !! h) ->
  http_ok (FR := FR') (delete p pl) (delete p reqs) handles' e (ReleaseCurl x c)
    (UntrackClientHandle (client_index r) (handle_id r) cl).
Proof.
  intros H Hr Hq0 Hx Hq Hm Ho. pose proof H as H0. destruct H0.
  assert (forall q p1, q <> Idle -> p1 ∈ members (FR := FR') e q <-> delete p pl !! p1 = Some q) as Hmem.
  { intros q p1 Hne. specialize (Hm q). specialize (K_nodup0 q). specialize (K_members0 q p1 Hne).
    rewrite <- Hm in K_members0, K_nodup0. case_decide as E; simpl in *.
    - apply NoDup_cons in K_nodup0 as [Hnp _]. rewrite elem_of_cons in K_members0. destruct (decide (p1 = p)) as [->|].
      + rewrite lookup_delete_eq. naive_solver.
      + rewrite lookup_delete_ne by done. naive_solver.
    - rewrite K_members0. destruct (decide (p1 = p)) as [->|]; [rewrite lookup_delete_eq; naive_solver|by rewrite lookup_delete_ne]. }
  split; try done.
  - intros p1 [q [Hne Hp1]%lookup_delete_Some]. rewrite lookup_delete_ne by done. apply K_dom0. by eexists.
  - intros p1 r1 [Hne Hr1]%lookup_delete_Some. destruct (K_req0 p1 r1 Hr1) as (q & Hq1 & Hok). exists q. rewrite lookup_delete_ne by done.
    split; [done|]. eapply (req_ok_others _ _ _ _ _ _ _ H p r); try done.
  - intros q. specialize (Hm q). specialize (K_nodup0 q). rewrite <- Hm in K_nodup0. case_decide; [by apply NoDup_cons in K_nodup0 as [_ ?]|done].
  - intros p1. rewrite K_active0. destruct (decide (p1 = p)) as [->|]; [rewrite lookup_delete_eq, Hq0|by rewrite lookup_delete_ne].
    destruct Hq as [-> | ->]; naive_solver.
  - intros y z Hy. destruct (K_multi0 y z Hy) as (r0 & Hr0 & Hc0). exists r0. split; [|done]. rewrite lookup_delete_ne; [done|]. intros <-.
    assert (pl !! p = Some Multi) as E. { apply K_members0; [done|]. cbn. apply list_elem_of_fmap. exists (y, p). by rewrite elem_of_map_to_list. }
    destruct Hq as [-> | ->]; congruence.
  - intros p1 p2 r1 r2 [_ H1]%lookup_delete_Some [_ H2]%lookup_delete_Some. by apply K_distinct0.
  - destruct K_pool0 as [Hnd Hfree]. split.
    + destruct (ReleaseCurl_pool x c) as [-> | ->]; [|done]. apply list.NoDup_app. split_and!; [done| |repeat constructor; apply not_elem_of_nil].
      intros y Hy ->%list_elem_of_singleton. by eapply Hfree.
    + intros p1 r1 y [Hne H1]%lookup_delete_Some Ey. destruct (ReleaseCurl_pool x c) as [-> | ->]; [|by eapply Hfree].
      rewrite elem_of_app, list_elem_of_singleton. intros [Hin| ->]; [by eapply Hfree|]. apply Hne. eapply K_distinct0; [exact Hr|exact H1|congruence].
  - intros p1 r1 [Hne H1]%lookup_delete_Some Hc1 Hci. apply elem_untrack. split; [by apply (K_owner0 p1)|].
    intros (_ & _ & Eh). apply Hne. by eapply (handle_inj H).
  - intros i h [Hh Hnot]%elem_untrack. destruct (K_tracked0 i h Hh) as (Hi & p1 & s1 & Hs1 & F2 & F3 & F4). split; [done|].
    exists p1, s1. split; [|done]. rewrite lookup_delete_ne; [done|]. intros <-. replace s1 with r in * by congruence. subst. auto.
Qed.

(** No requests. *)
Lemma http_ok_empty handles n : http_ok (FR := no_frame) ∅ ∅ handles new_EventLoop (mkCurlPool [] n) ∅.
Proof.
  assert (forall q, members (FR := no_frame) new_EventLoop q = []) as Hm by (by intros []).
  split; try done.
  - intros p [q Hq]. by rewrite lookup_empty in Hq.
  - intros q. rewrite Hm. constructor.
  - intros q p _. rewrite Hm, lookup_empty. split; [by intros ?%not_elem_of_nil|done].
  - intros p. rewrite lookup_empty. cbn. set_solver.
  - split; [constructor|]. intros p r x Hr. by rewrite lookup_empty in Hr.
  - intros i h Hh. rewrite lookup_empty in Hh. by apply not_elem_of_nil in Hh.
Qed.

(** A change of members the invariant does not mention. *)
Ltac core := unfold same_core, body_ok; cbn; tauto.
