(* ===== verification/JsonText.v ===== *)
(** * [src/data/data_node.cpp]: the JSON serializer

    The serializer appends to a [std::string]; the model returns what is
    appended.  It walks the heap of [DataNode.v]; [None] is the use of a node
    that is not live.  The recursion is bounded by the depth limit of the
    source, so it ends on cyclic data too. *)

From stdpp Require Import base numbers list gmap.
From Stdlib Require Import ZArith Lia.
From S2P Require Import Prelude NodePool DataMap DataValue Float Text DataNode DataRefcount.

(** ** Strings *)

(** [%04x] of a character below 32. *)
Definition hex_digit (d : Z) : byte := if d <? 10 then 48 + d else 87 + d.
Definition fmt_04x (c : Z) : bytes :=
  [hex_digit (c / 4096 mod 16); hex_digit (c / 256 mod 16); hex_digit (c / 16 mod 16); hex_digit (c mod 16)].

Definition escape (c : byte) : bytes :=
  match c with
  | 34 => [92; 34]
  | 92 => [92; 92]
  | 8 => [92; 98]
  | 12 => [92; 102]
  | 10 => [92; 110]
  | 13 => [92; 114]
  | 9 => [92; 116]
  | c => if c <? 32 then [92; 117] ++ fmt_04x c else [c]
  end.

Definition serialize_string (s : bytes) : bytes := [34] ++ (s ≫= escape) ++ [34].

(** ** Leaves *)

Definition f64_finite (bits : Z) : bool := match decode64 bits with FFin _ _ _ => true | _ => false end.
Definition signbit (bits : Z) : bool := Z.testbit bits 63.

(** The precision loop: the text at the first precision that reads back as
    [val], at 17 digits otherwise. *)
Fixpoint shortest (n : nat) (prec val : Z) : bytes :=
  let buf := fmt_g prec val in
  match n with
  | O => buf
  | S n => let rt := strtod buf in
           if float_eq rt val && Bool.eqb (signbit rt) (signbit val) then buf else shortest n (prec + 1) val
  end.

(** The text before the exponent and from it on. *)
Fixpoint split_exp (buf : bytes) : bytes * bytes :=
  match buf with
  | [] => ([], [])
  | c :: buf' => if (c =? 101) || (c =? 69) then ([], buf)
                 else let '(m, e) := split_exp buf' in (c :: m, e)
  end.

Definition drop_plus (ep : bytes) : bytes :=
  match ep with c :: 43 :: t => c :: t | _ => ep end.

Definition serialize_float (val : Z) : bytes :=
  if negb (f64_finite val) then str "null" else
  let '(mant, ep) := split_exp (shortest 16 1 val) in
  let has_dot := existsb (fun c => c =? 46) mant in
  let has_exp := match ep with [] => false | _ => true end in
  mant ++ drop_plus ep ++ (if negb has_dot && negb has_exp then str ".0" else []).

Section Serializer.

Context {MO : DataMap bytes} {MI : DataMap Z} {P : Type} {PA : NodeAllocator P}.

Definition serialize_leaf (p : payload) : bytes :=
  match p with
  | PNull => str "null"
  | PBool b => if b then str "true" else str "false"
  | PInt z => dec z
  | PFloat val => serialize_float val
  | PString s => serialize_string s
  | PIntMap _ | PBinary _ => str "null"
  | PArray _ | PObject _ => []
  end.

Definition kMaxSerializeDepth : nat := 128.

(** The elements of a container, with the text between two of them. *)
Definition sep_concat {A} (sep : bytes) (f : A -> option bytes) : list A -> option bytes :=
  fix go xs := match xs with
               | [] => Some []
               | [x] => f x
               | x :: xs => let? s := f x in let? t := go xs in Some (s ++ sep ++ t)
               end.

(** [levels] is [kMaxSerializeDepth + 1 - depth]: none are left when
    [depth > kMaxSerializeDepth]. *)
Fixpoint serialize_value (levels : nat) (node : loc) (st : store (P := P)) : option bytes :=
  match levels with
  | O => Some (str "null")
  | S levels =>
      let? c := cells st !! node in
      match pay c with
      | PArray a =>
          let? body := sep_concat [44] (fun x => serialize_value levels x st) a in
          Some ([91] ++ body ++ [93])
      | PObject m =>
          let? body := sep_concat [44] (fun e : bytes * loc =>
                         let? v := serialize_value levels e.2 st in
                         Some (serialize_string e.1 ++ [58] ++ v)) (dm_list m) in
          Some ([123] ++ body ++ [125])
      | p => Some (serialize_leaf p)
      end
  end.

Definition spaces (n : nat) : bytes := replicate n 32.

Fixpoint serialize_value_pretty (levels : nat) (node : loc) (depth : nat) (st : store (P := P)) : option bytes :=
  match levels with
  | O => Some (str "null")
  | S levels =>
      let? c := cells st !! node in
      match pay c with
      | PArray [] => Some (str "[]")
      | PArray a =>
          let? body := sep_concat [44; 10] (fun x =>
                         let? v := serialize_value_pretty levels x (S depth) st in
                         Some (spaces (S depth * 4) ++ v)) a in
          Some ([91; 10] ++ body ++ [10] ++ spaces (depth * 4) ++ [93])
      | PObject m =>
          match dm_list m with
          | [] => Some (str "{}")
          | es =>
              let? body := sep_concat [44; 10] (fun e : bytes * loc =>
                             let? v := serialize_value_pretty levels e.2 (S depth) st in
                             Some (spaces (S depth * 4) ++ serialize_string e.1 ++ str ": " ++ v)) es in
              Some ([123; 10] ++ body ++ [10] ++ spaces (depth * 4) ++ [125])
          end
      | p => Some (serialize_leaf p)
      end
  end.

Definition DataSerializeJson (node : loc) (pretty : bool) (st : store (P := P)) : option bytes :=
  if pretty then serialize_value_pretty (S kMaxSerializeDepth) node 0 st
  else serialize_value (S kMaxSerializeDepth) node st.

(** ** The serializer always ends and touches live nodes only *)

Lemma sep_concat_total {A} sep (f : A -> option bytes) xs :
  (forall x, x ∈ xs -> is_Some (f x)) -> is_Some (sep_concat sep f xs).
Proof.
  induction xs as [|x xs IH]; intros H; [by eexists|]. destruct (H x ltac:(constructor)) as [s Hs].
  destruct xs as [|y ys]; [simpl; rewrite Hs; by eexists|].
  destruct IH as [t Ht]; [intros z Hz; apply H; by constructor|].
  change (is_Some (let? s := f x in let? t := sep_concat sep f (y :: ys) in Some (s ++ sep ++ t))).
  rewrite Hs, Ht. by eexists.
Qed.

(** Every child of a live node is live. *)
Lemma inv_child_live (st : store (P := P)) ext l c x :
  inv st ext -> cells st !! l = Some c -> x ∈ children (pay c) -> is_Some (cells st !! x).
Proof.
  intros [[H1 H2] _] Hc Hx. specialize (H1 x). pose proof (cnt_elem x _ Hx) as Hp.
  rewrite (refs_delete x l c) in H1 by done. pose proof (refs_nonneg x (delete l (cells st))).
  pose proof (cnt_nonneg x ext). unfold rc in H1. destruct (cells st !! x) as [d|]; [by exists d|]. simpl in H1. lia.
Qed.

Lemma serialize_value_total st ext levels : inv st ext ->
  forall l, is_Some (cells st !! l) -> is_Some (serialize_value levels l st).
Proof.
  intros Hinv. induction levels as [|levels IH]; intros l [c Hc]; [by eexists|]. cbn [serialize_value]. rewrite Hc.
  pose proof (fun x => inv_child_live st ext l c x Hinv Hc) as Hch.
  destruct (pay c) as [| | | | |a|m|m|]; try (by eexists).
  - destruct (sep_concat_total [44] (fun x => serialize_value levels x st) a) as [s ->]; [|by eexists].
    intros x Hx. apply IH, Hch, Hx.
  - match goal with |- is_Some (match ?e with _ => _ end) => assert (is_Some e) as [s ->] end; [|by eexists].
    apply sep_concat_total. intros [k x] Hx. simpl.
    destruct (IH x) as [v ->]; [|by eexists]. apply Hch. simpl. apply list_elem_of_fmap. by exists (k, x).
Qed.

Lemma serialize_value_pretty_total st ext levels : inv st ext ->
  forall l depth, is_Some (cells st !! l) -> is_Some (serialize_value_pretty levels l depth st).
Proof.
  intros Hinv. induction levels as [|levels IH]; intros l depth [c Hc]; [by eexists|].
  cbn [serialize_value_pretty]. rewrite Hc.
  pose proof (fun x => inv_child_live st ext l c x Hinv Hc) as Hch.
  destruct (pay c) as [| | | | |[|a0 a]|m|m|]; try (by eexists).
  - match goal with |- is_Some (match ?e with _ => _ end) => assert (is_Some e) as [s ->] end; [|by eexists].
    apply sep_concat_total. intros x Hx. destruct (IH x (S depth)) as [v ->]; [|by eexists]. apply Hch, Hx.
  - simpl in Hch. destruct (dm_list m) as [|e es]; [by eexists|].
    match goal with |- is_Some (match ?e with _ => _ end) => assert (is_Some e) as [s ->] end; [|by eexists].
    apply sep_concat_total. intros [k x] Hx. simpl.
    destruct (IH x (S depth)) as [v ->]; [|by eexists]. apply Hch. apply list_elem_of_fmap. by exists (k, x).
Qed.

Lemma DataSerializeJson_total st ext l pretty : inv st ext -> is_Some (cells st !! l) ->
  is_Some (DataSerializeJson l pretty st).
Proof.
  intros Hinv Hl. unfold DataSerializeJson.
  destruct pretty; [by eapply serialize_value_pretty_total|by eapply serialize_value_total].
Qed.

End Serializer.

(** ** Strings read back *)

(** The JSON string grammar of RFC 8259, for the escapes of code points below
    128: the characters up to the closing quote. *)
Definition hex_value (c : byte) : option Z :=
  if (48 <=? c) && (c <=? 57) then Some (c - 48)
  else if (97 <=? c) && (c <=? 102) then Some (c - 87)
  else if (65 <=? c) && (c <=? 70) then Some (c - 55)
  else None.

Definition simple_escape (c : byte) : option byte :=
  match c with
  | 34 => Some 34 | 92 => Some 92 | 47 => Some 47 | 98 => Some 8 | 102 => Some 12
  | 110 => Some 10 | 114 => Some 13 | 116 => Some 9 | _ => None
  end.

Fixpoint string_body (text : bytes) : option (bytes * bytes) :=
  match text with
  | 34 :: rest => Some ([], rest)
  | 92 :: 117 :: h3 :: h2 :: h1 :: h0 :: rest =>
      let? d3 := hex_value h3 in let? d2 := hex_value h2 in
      let? d1 := hex_value h1 in let? d0 := hex_value h0 in
      let cp := ((d3 * 16 + d2) * 16 + d1) * 16 + d0 in
      if cp <? 128 then let? (s, rest) := string_body rest in Some (cp :: s, rest) else None
  | 92 :: c :: rest => let? x := simple_escape c in let? (s, rest) := string_body rest in Some (x :: s, rest)
  | c :: rest => if c <? 32 then None else let? (s, rest) := string_body rest in Some (c :: s, rest)
  | [] => None
  end.

Definition json_string (text : bytes) : option (bytes * bytes) :=
  match text with 34 :: rest => string_body rest | _ => None end.

Lemma string_body_escape c rest s r : is_byte c -> string_body rest = Some (s, r) ->
  string_body (escape c ++ rest) = Some (c :: s, r).
Proof.
  intros Hc Hr. unfold is_byte in Hc. 
  assert (c = 34 \/ c = 92 \/ (0 <= c < 32) \/ (32 <= c /\ c <> 34 /\ c <> 92)) as [->|[->|[Hlow|(Hge & H1 & H2)]]] by lia.
  - simpl. by rewrite Hr.
  - simpl. by rewrite Hr.
  - assert (c ∈ (Z.of_nat <$> seq 0 32)) as Hin.
    { apply list_elem_of_fmap. exists (Z.to_nat c). rewrite elem_of_seq. lia. }
    revert c Hin Hc Hlow. 
    assert (Forall (fun c => string_body (escape c ++ rest) = Some (c :: s, r)) (Z.of_nat <$> seq 0 32)) as HF.
    { simpl. repeat constructor; simpl; by rewrite Hr. }
    intros c Hin _ _. rewrite Forall_forall in HF. by apply HF.
  - assert (escape c = [c]) as ->.
    { unfold escape. destruct c as [|p|p]; [lia| |lia]. 
      repeat (destruct p as [p|p|]; try lia; try done). }
    simpl app. cbn [string_body]. destruct c as [|p|p]; [lia| |lia].
    assert ((Z.pos p <? 32) = false) as E by lia. rewrite Hr, E.
    repeat (destruct p as [p|p|]; try lia; try done).
Qed.

Lemma string_body_escapes s rest : Forall is_byte s ->
  string_body ((s ≫= escape) ++ 34 :: rest) = Some (s, rest).
Proof.
  induction s as [|c s IH]; intros HF; [done|]. apply Forall_cons in HF as [Hc HF].
  rewrite bind_cons, <- app_assoc. apply string_body_escape; [done|]. by apply IH.
Qed.

(** A serialized string is a JSON string of RFC 8259 for exactly the bytes of
    the string: quotes, backslashes and control characters (NUL included) are
    escaped so that reading the text back gives the string and stops at its
    closing quote, whatever follows. *)
Theorem serialize_string_roundtrip (s rest : bytes) :
  Forall is_byte s -> json_string (serialize_string s ++ rest) = Some (s, rest).
Proof.
  intros HF. unfold serialize_string. rewrite <- !app_assoc. simpl. by apply string_body_escapes.
Qed.

Lemma serialize_string_roundtrip_witness :
  Forall is_byte [0; 34; 92; 10; 200] /\
  json_string (serialize_string [0; 34; 92; 10; 200] ++ [44]) = Some ([0; 34; 92; 10; 200], [44]).
Proof.
  assert (Forall is_byte [0; 34; 92; 10; 200]) as H by (repeat constructor; unfold is_byte; lia).
  split; [exact H|exact (serialize_string_roundtrip _ _ H)].
Defined.


#[local] Instance pool0 : NodeAllocator FixedPool := pool_allocator 0.

(** An array that contains itself. *)
Definition cyclic_script : list nop := [NMake (PArray []); NIncref 128; NPushBack 128 128].


Example float_texts :
  serialize_float (int_to_f64 100) = str "1e02" /\ serialize_float 0x3fb999999999999a = str "0.1" /\
  serialize_float 0x7ff0000000000000 = str "null".
Proof. vm_compute. repeat split. Qed.
