(* ===== verification/JsonParse.v ===== *)
(** * [src/data/data_node.cpp]: building nodes from a parsed JSON document

    The text is parsed by simdjson (on-demand), which is third-party code: what
    it answers about a value is the parameter of this model.  An [od_value] is
    the sequence of answers of the on-demand API for one value, errors included
    ([None] where the source tests [error()]).  [od_to_node] and
    [od_to_node_doc] are the code of the repository: they build the nodes and,
    on an error, release what they have built. *)

From stdpp Require Import base numbers list gmap.
From Stdlib Require Import ZArith Lia.
From S2P Require Import Prelude NodePool DataMap DataValue DataNode DataRefcount.

(** The answers to [type()] and then to the accessor the source calls. *)
Inductive od_value :=
  | OdTypeError
  | OdNull (is_null : option bool)
  | OdBool (get_bool : option bool)
  | OdNumber (get_int64 get_uint64 get_double : option Z)
  | OdString (get_string : option bytes)
  | OdArray (get_array : option (list (option od_value)))
  | OdObject (get_object : option (list (option (option bytes * od_value)))).

Section Parse.

Context {MO : DataMap bytes} {MI : DataMap Z} {P : Type} {PA : NodeAllocator P}.

#[local] Notation heap := (store (P := P)).
Implicit Types (st : heap) (ext : list loc).

(** Nodes: [None] is [nullptr]. *)
Definition result : Type := option (option loc * heap).

Definition some_node (r : option (loc * heap)) : result := let? (n, s) := r in Some (Some n, s).
Definition fail st : result := Some (None, st).
(** [DataNode::Decref(node); return nullptr;] *)
Definition drop_fail (node : loc) st : result := let? s := Decref (Some node) st in fail s.

(** [node->Obj().emplace(key, val)]: does nothing when the key is present. *)
Definition emplace (node : loc) (key : bytes) (val : loc) st : option heap :=
  let? c := cells st !! node in
  match pay c with
  | PObject m => match dm_map m !! key with
                 | Some _ => Some st
                 | None => set_pay node (PObject (dm_set key val m)) st
                 end
  | _ => None
  end.

Definition array_loop (child : od_value -> heap -> result) (node : loc) : list (option od_value) -> heap -> result :=
  fix go cs st := match cs with
    | [] => Some (Some node, st)
    | None :: _ => drop_fail node st
    | Some v :: cs =>
        let? (r, s) := child v st in
        match r with
        | None => drop_fail node s
        | Some child_node => let? s := push_back node child_node s in go cs s
        end
    end.

Definition object_loop (child : od_value -> heap -> result) (node : loc)
    : list (option (option bytes * od_value)) -> heap -> result :=
  fix go fs st := match fs with
    | [] => Some (Some node, st)
    | None :: _ => drop_fail node st
    | Some (None, _) :: _ => drop_fail node st
    | Some (Some key, v) :: fs =>
        let? (r, s) := child v st in
        match r with
        | None => drop_fail node s
        | Some val_node => let? s := emplace node key val_node s in go fs s
        end
    end.

(** The [switch] on the type.  [od_to_node] and [od_to_node_doc] have the same
    one, except that only the latter looks at the answer of [is_null]. *)
Definition od_switch (null_ok : bool -> bool) (child : od_value -> heap -> result) (val : od_value) st : result :=
  match val with
  | OdTypeError => fail st
  | OdNull r => match r with Some b => if null_ok b then some_node (MakeNull st) else fail st | None => fail st end
  | OdBool r => match r with Some b => some_node (MakeBool b st) | None => fail st end
  | OdNumber i u d =>
      match i with
      | Some i => some_node (MakeInt i st)
      | None => match u with
                | Some u => some_node (MakeInt (sN 64 u) st)
                | None => match d with Some d => some_node (MakeFloat d st) | None => fail st end
                end
      end
  | OdString r => match r with Some s => some_node (MakeStringLen s st) | None => fail st end
  | OdArray r =>
      let? (node, s) := MakeArray st in
      match r with None => drop_fail node s | Some cs => array_loop child node cs s end
  | OdObject r =>
      let? (node, s) := MakeObject st in
      match r with None => drop_fail node s | Some fs => object_loop child node fs s end
  end.

Definition kMaxParseDepth : Z := 1024.

Fixpoint od_to_node (val : od_value) (depth : Z) st {struct val} : result :=
  if depth >? kMaxParseDepth then fail st
  else od_switch (fun _ => true) (fun v => od_to_node v (depth + 1)) val st.

Definition od_to_node_doc (doc : od_value) st : result :=
  od_switch (fun b => b) (fun v => od_to_node v 1) doc st.

(** [iterate] is simdjson's parser, [None] when it reports an error. *)
Definition DataParseJson (iterate : bytes -> option od_value) (data : bytes) st : result :=
  match data with
  | [] => fail st
  | _ => match iterate data with None => fail st | Some doc => od_to_node_doc doc st end
  end.

(** ** What parsing does to the heap

    No object of the value has two fields with the same key. *)
Fixpoint od_distinct (v : od_value) : Prop :=
  match v with
  | OdArray (Some cs) => foldr (fun c a => match c with Some v => od_distinct v | None => True end /\ a) True cs
  | OdObject (Some fs) =>
      NoDup (omap (fun f => match f with Some (Some k, _) => Some k | _ => None end) fs) /\
      foldr (fun f a => match f with Some (_, v) => od_distinct v | None => True end /\ a) True fs
  | _ => True
  end.

(** A call adds one reference for its result, plus references [L] that nobody
    holds: the values of repeated keys.  A result leaves the older nodes as
    they were. *)
Definition builds (f : heap -> result) (clean : Prop) : Prop := forall st ext, inv st ext ->
  exists r s L, f st = Some (r, s) /\ inv s (option_list r ++ L ++ ext) /\
    (is_Some r -> cells st ⊆ cells s) /\ (clean -> L = []).

Lemma some_node_builds p clean : children p = [] -> builds (fun st => some_node (Make p st)) clean.
Proof.
  intros Hp st ext Hinv. destruct (Make_inv st ext p Hinv Hp) as (l & s & -> & Hi & Hl & Ec).
  exists (Some l), s, []. split_and!; [done|done| |done]. intros _. rewrite Ec. by apply insert_subseteq.
Qed.

Lemma fail_builds clean : builds fail clean.
Proof. intros st ext Hinv. exists None, st, []. split_and!; [done|done|by intros [? ?]|done]. Qed.

Lemma drop_fail_inv node st ext : inv st (node :: ext) -> exists s, drop_fail node st = Some (None, s) /\ inv s ext.
Proof. intros Hi. destruct (Decref_inv st ext node Hi) as (s & Hd & Hs & _). exists s. unfold drop_fail. by rewrite Hd. Qed.

(** The loops: [node] is the container being filled. *)
Definition fills (f : heap -> result) (node : loc) (m0 : gmap loc DataNode) (ok : payload -> Prop) (clean : Prop) : Prop :=
  forall st ext c, inv st (node :: ext) -> cells st !! node = Some c -> ok (pay c) -> m0 !! node = None -> m0 ⊆ cells st ->
  exists r s L, f st = Some (r, s) /\ inv s (option_list r ++ L ++ ext) /\
    (is_Some r -> m0 ⊆ cells s) /\ (clean -> L = []).

(** A container whose node is released leaves nothing of itself. *)
Lemma fills_drop node m0 ok clean : fills (drop_fail node) node m0 ok clean.
Proof.
  intros st ext c Hi _ _ _ _. destruct (drop_fail_inv node st ext Hi) as (s & -> & Hs).
  exists None, s, []. split_and!; [done|done|by intros [? ?]|done].
Qed.

Lemma subseteq_set_pay (m0 : gmap loc DataNode) st s n p : set_pay n p st = Some s ->
  m0 !! n = None -> m0 ⊆ cells st -> m0 ⊆ cells s.
Proof.
  unfold set_pay. intros H Hn Hs. destruct (cells st !! n) as [c|]; [|done]. injection H as <-. simpl.
  by apply insert_subseteq_r.
Qed.

(** The child's references [L] stay outside while the loop goes on. *)
Lemma fills_step (child : heap -> result) (use : loc -> heap -> option heap) (go : heap -> result)
    node m0 (ok ok' : payload -> Prop) (clean1 clean2 clean3 : Prop) :
  builds child clean1 ->
  (forall st ext c x, inv st (x :: node :: ext) -> cells st !! node = Some c -> ok (pay c) ->
     exists s L c', use x st = Some s /\ inv s (node :: L ++ ext) /\ cells s !! node = Some c' /\ ok' (pay c') /\
       (m0 !! node = None -> m0 ⊆ cells st -> m0 ⊆ cells s) /\ (clean2 -> L = [])) ->
  fills go node m0 ok' clean3 ->
  fills (fun st => let? (r, s) := child st in
                   match r with None => drop_fail node s | Some x => let? s := use x s in go s end)
    node m0 ok (clean1 /\ clean2 /\ clean3).
Proof.
  intros Hch Huse Hgo st ext c Hi Hc Hok Hm0 Hsub.
  destruct (Hch st (node :: ext) Hi) as (r & s & L & -> & Hi1 & Hmono & Hcl1). destruct r as [x|].
  - simpl in Hi1. specialize (Hmono (mk_is_Some _ _ eq_refl)).
    assert (cells s !! node = Some c) as Hc1 by (by eapply lookup_weaken).
    destruct (Huse s (L ++ ext) c x) as (s2 & L2 & c2 & -> & Hi2 & Hc2 & Hok2 & Hmono2 & Hcl2);
      [eapply inv_perm; [|exact Hi1]; apply perm_skip; symmetry; apply Permutation_middle|done|done|].
    destruct (Hgo s2 (L2 ++ L ++ ext) c2) as (r & s3 & L3 & -> & Hi3 & Hmono3 & Hcl3);
      [done|done|done|done|apply Hmono2; [done|by etrans]|].
    exists r, s3, (L3 ++ L2 ++ L). split_and!; [done|by rewrite <- !app_assoc|done|].
    intros (H1 & H2 & H3). by rewrite Hcl1, Hcl2, Hcl3.
  - simpl in Hi1. destruct (drop_fail_inv node s (L ++ ext)) as (s2 & -> & Hi2).
    { eapply inv_perm; [|exact Hi1]. symmetry. apply Permutation_middle. }
    exists None, s2, L. split_and!; [done|done|by intros [? ?]|]. intros (H1 & _). by apply Hcl1.
Qed.

Lemma fills_done node m0 ok clean : fills (fun st => Some (Some node, st)) node m0 ok clean.
Proof.
  intros st ext c Hi _ _ _ Hs. exists (Some node), st, []. by split_and!.
Qed.

(** ** The loops and the recursion *)

Definition opt_all {A} (Q : A -> Prop) (o : option A) : Prop := match o with Some a => Q a | None => True end.

Lemma od_ind' (Q : od_value -> Prop) :
  (forall v, match v with OdArray (Some _) | OdObject (Some _) => False | _ => True end -> Q v) ->
  (forall cs, Forall (opt_all Q) cs -> Q (OdArray (Some cs))) ->
  (forall fs, Forall (opt_all (fun f => Q f.2)) fs -> Q (OdObject (Some fs))) ->
  forall v, Q v.
Proof.
  intros Hleaf Harr Hobj. fix IH 1. intros v.
  destruct v as [|r|r|i u d|r|[cs|]|[fs|]]; try (by apply Hleaf).
  - apply Harr. induction cs as [|c cs IHcs]; constructor; [|exact IHcs]. destruct c as [w|]; [exact (IH w)|exact I].
  - apply Hobj. induction fs as [|f fs IHfs]; constructor; [|exact IHfs].
    destruct f as [[k w]|]; [exact (IH w)|exact I].
Qed.

Definition ok_array (p : payload) : Prop := exists a, p = PArray a.

Lemma push_back_use node m0 clean st ext c x : inv st (x :: node :: ext) -> cells st !! node = Some c -> ok_array (pay c) ->
  exists s L c', push_back node x st = Some s /\ inv s (node :: L ++ ext) /\ cells s !! node = Some c' /\ ok_array (pay c') /\
    (m0 !! node = None -> m0 ⊆ cells st -> m0 ⊆ cells s) /\ (clean -> L = []).
Proof.
  intros Hi Hc (a & Ha). unfold push_back. rewrite Hc, Ha.
  destruct (drop_then_set st (x :: node :: ext) (node :: ext) node c (PArray (a ++ [x])) []) as (s1 & s & Hf & Hs & Hi2 & Hsh);
    [done|done|constructor|rewrite Ha; simpl; by rewrite <- app_assoc|].
  injection Hf as <-. destruct (minv_live _ _ node (inv_m _ _ Hi2)) as (c2 & Hc2); [constructor|].
  exists s, [], c2. rewrite Hs. split_and!; [done|done|done| |intros; by eapply subseteq_set_pay|done].
  destruct (Hsh node c2 Hc2) as (d & Hd & _ & Ep). rewrite lookup_insert_eq in Hd. injection Hd as <-.
  exists (a ++ [x]). by rewrite Ep.
Qed.

Lemma array_loop_fills (child : od_value -> heap -> result) (clean : od_value -> Prop) node m0 cs :
  Forall (opt_all (fun v => builds (child v) (clean v))) cs ->
  fills (array_loop child node cs) node m0 ok_array (foldr (fun c a => opt_all clean c /\ a) True cs).
Proof.
  induction cs as [|[v|] cs IH]; intros HF.
  - apply fills_done.
  - apply Forall_cons in HF as [Hv HF]. simpl.
    intros st ext c Hi Hc Hok Hm0 Hs.
    destruct (fills_step (child v) (push_back node) (array_loop child node cs) node m0 ok_array ok_array
                (clean v) True (foldr (fun c a => opt_all clean c /\ a) True cs)) with st ext c
      as (r & s & L & Hr & Hi' & Hm & Hcl); [exact Hv| |by apply IH|done..|].
    + intros st' ext' c' x. apply push_back_use.
    + exists r, s, L. split_and!; [exact Hr|done|done|]. intros [H1 H2]. apply Hcl. by split_and!.
  - apply fills_drop.
Qed.

(** The keys the object may have. *)
Definition ok_object (ks : list bytes) (p : payload) : Prop :=
  exists m, p = PObject m /\ forall k, is_Some (dm_map m !! k) -> k ∈ ks.

Lemma emplace_use key ks node m0 st ext c x : inv st (x :: node :: ext) -> cells st !! node = Some c -> ok_object ks (pay c) ->
  exists s L c', emplace node key x st = Some s /\ inv s (node :: L ++ ext) /\ cells s !! node = Some c' /\
    ok_object (key :: ks) (pay c') /\ (m0 !! node = None -> m0 ⊆ cells st -> m0 ⊆ cells s) /\ (key ∉ ks -> L = []).
Proof.
  intros Hi Hc (m & Hm & Hks). unfold emplace. rewrite Hc, Hm. destruct (dm_map m !! key) as [old|] eqn:E.
  - exists st, [x], c. split_and!; [done|eapply inv_perm; [apply perm_swap|exact Hi]|done| |done|].
    + exists m. split; [done|]. intros k Hk. apply elem_of_cons. right. by apply Hks.
    + intros Hn. destruct Hn. apply Hks. by exists old.
  - destruct (drop_then_set st (x :: node :: ext) (node :: ext) node c (PObject (dm_set key x m)) []) as (s1 & s & Hf & Hs & Hi2 & Hsh);
      [done|done|constructor|rewrite Hm; simpl; rewrite dm_list_set_fresh by done; simpl; apply Permutation_middle|].
    injection Hf as <-. destruct (minv_live _ _ node (inv_m _ _ Hi2)) as (c2 & Hc2); [constructor|].
    exists s, [], c2. rewrite Hs. split_and!; [done|done|done| |intros; by eapply subseteq_set_pay|done].
    destruct (Hsh node c2 Hc2) as (d & Hd & _ & Ep). rewrite lookup_insert_eq in Hd. injection Hd as <-.
    exists (dm_set key x m). split; [by rewrite Ep|]. intros k. rewrite dm_set_map, elem_of_cons.
    destruct (decide (k = key)) as [->|Hne]; [by left|]. rewrite lookup_insert_ne by done. right. by apply Hks.
Qed.

Definition field_key (f : option (option bytes * od_value)) : option bytes :=
  match f with Some (Some k, _) => Some k | _ => None end.

Lemma object_loop_fills (child : od_value -> heap -> result) (clean : od_value -> Prop) node m0 fs : forall ks,
  Forall (opt_all (fun f => builds (child f.2) (clean f.2))) fs ->
  fills (object_loop child node fs) node m0 (ok_object ks)
    (NoDup (omap field_key fs) /\ (forall k, k ∈ omap field_key fs -> k ∉ ks) /\
     foldr (fun f a => opt_all (fun f => clean f.2) f /\ a) True fs).
Proof.
  induction fs as [|[[[key|] v]|] fs IH]; intros ks HF.
  - apply fills_done.
  - apply Forall_cons in HF as [Hv HF]. simpl. intros st ext c Hi Hc Hok Hm0 Hs.
    destruct (fills_step (child v) (emplace node key) (object_loop child node fs) node m0 (ok_object ks) (ok_object (key :: ks))
                (clean v) (key ∉ ks) _ Hv (emplace_use key ks node m0) (IH (key :: ks) HF) st ext c)
      as (r & s & L & Hr & Hi' & Hm & Hcl); [done..|].
    exists r, s, L. split_and!; [exact Hr|done|done|]. intros (Hnd & Hdis & H1 & H2).
    change (omap field_key (Some (Some key, v) :: fs)) with (key :: omap field_key fs) in *.
    apply NoDup_cons in Hnd as [Hk Hnd]. apply Hcl. split_and!; [exact H1|apply Hdis; constructor|done| |done].
    intros k Hk'. rewrite elem_of_cons. intros [->|Hin]; [done|]. revert Hin. apply Hdis. by constructor.
  - apply fills_drop.
  - apply fills_drop.
Qed.

Lemma fills_new p (ok : payload -> Prop) (go : loc -> heap -> result) clean : children p = [] -> ok p ->
  (forall node m0, fills (go node) node m0 ok clean) ->
  builds (fun st => let? (node, s) := Make p st in go node s) clean.
Proof.
  intros Hp Hok Hgo st ext Hinv. destruct (Make_inv st ext p Hinv Hp) as (l & s & -> & Hi & Hl & Ec).
  destruct (Hgo l (cells st) s ext (mkNode 0 1 p)) as (r & s' & L & Hr & Hi' & Hm & Hcl);
    [done|rewrite Ec; apply lookup_insert_eq|done|done|rewrite Ec; by apply insert_subseteq|].
  by exists r, s', L.
Qed.

Lemma new_children : children (PObject dm_new) = [].
Proof. simpl. by rewrite (dm_list_nil dm_new) by apply dm_new_map. Qed.

Lemma od_switch_builds null_ok (child : od_value -> heap -> result) v :
  (forall cs, v = OdArray (Some cs) -> Forall (opt_all (fun v => builds (child v) (od_distinct v))) cs) ->
  (forall fs, v = OdObject (Some fs) -> Forall (opt_all (fun f => builds (child f.2) (od_distinct f.2))) fs) ->
  builds (od_switch null_ok child v) (od_distinct v).
Proof.
  intros Harr Hobj st ext Hinv.
  destruct v as [|[b|]|[b|]|i u d|[s|]|[cs|]|[fs|]]; cbn [od_switch od_distinct]; try (by apply fail_builds).
  - destruct (null_ok b); [by apply (some_node_builds PNull)|by apply fail_builds].
  - by apply (some_node_builds (PBool b)).
  - destruct i as [i|]; [by apply (some_node_builds (PInt i))|]. destruct u as [u|]; [by apply (some_node_builds (PInt _))|].
    destruct d as [d|]; [by apply (some_node_builds (PFloat d))|by apply fail_builds].
  - by apply (some_node_builds (PString s)).
  - apply (fills_new (PArray []) ok_array (fun node => array_loop child node cs)); [done|by eexists| |done]. intros node m0.
    exact (array_loop_fills child od_distinct node m0 cs (Harr cs eq_refl)).
  - by apply (fills_new (PArray []) (fun _ => True) drop_fail); [done|done| |]; [intros node m0; apply fills_drop|].
  - assert (ok_object [] (PObject dm_new)) as Hok.
    { exists dm_new. split; [done|]. intros k. rewrite dm_new_map, lookup_empty. by intros [? ?]. }
    destruct (fills_new (PObject dm_new) (ok_object []) (fun node => object_loop child node fs) _ new_children Hok
                (fun node m0 => object_loop_fills child od_distinct node m0 fs [] (Hobj fs eq_refl)) st ext Hinv)
      as (r & s & L & Hr & Hi & Hm & Hcl).
    exists r, s, L. split_and!; [exact Hr|done|done|]. intros [H1 H2]. apply Hcl.
    split_and!; [exact H1|intros k _; apply not_elem_of_nil|]. revert H2. clear. induction fs as [|[[k v]|] fs IH]; [done|..]; simpl; tauto.
  - apply (fills_new (PObject dm_new) (fun _ => True) drop_fail); [apply new_children|done|intros node m0; apply fills_drop|done].
Qed.

Lemma od_to_node_builds v : forall depth, builds (od_to_node v depth) (od_distinct v).
Proof.
  induction v as [v Hv|cs IH|fs IH] using od_ind'; intros depth st ext Hinv.
  - destruct v as [| | | | |[cs|]|[fs|]]; try done; cbn [od_to_node]; destruct (depth >? kMaxParseDepth);
      try (by apply fail_builds); by apply od_switch_builds.
  - cbn [od_to_node]. destruct (depth >? kMaxParseDepth); [by apply fail_builds|].
    apply od_switch_builds; [|done|done]. intros cs' [= <-]. eapply Forall_impl; [exact IH|].
    intros [w|] Hw; [exact (Hw (depth + 1))|exact I].
  - cbn [od_to_node]. destruct (depth >? kMaxParseDepth); [by apply fail_builds|].
    apply od_switch_builds; [done| |done]. intros fs' [= <-]. eapply Forall_impl; [exact IH|].
    intros [w|] Hw; [exact (Hw (depth + 1))|exact I].
Qed.

Lemma od_to_node_doc_builds v : builds (od_to_node_doc v) (od_distinct v).
Proof.
  apply od_switch_builds; [intros cs _|intros fs _]; apply Forall_forall; intros [w|] _; try exact I; apply od_to_node_builds.
Qed.

Lemma DataParseJson_builds iterate data :
  builds (DataParseJson iterate data) (forall doc, iterate data = Some doc -> od_distinct doc).
Proof.
  unfold DataParseJson. intros st ext Hinv. destruct data as [|b data]; [by apply fail_builds|].
  destruct (iterate (b :: data)) as [doc|]; [|by apply fail_builds].
  destruct (od_to_node_doc_builds doc st ext Hinv) as (r & s & L & Hr & Hi & Hm & Hcl).
  exists r, s, L. split_and!; [done|done|done|]. intros H. by apply Hcl, H.
Qed.


End Parse.

(** ** Witnesses *)

#[local] Instance pool0 : NodeAllocator FixedPool := pool_allocator 0.

(** The answers for the text [{"a":[1,null]}], and for [{"a":1,"a":2}]. *)
Definition doc_a : od_value :=
  OdObject (Some [Some (Some [97], OdArray (Some [Some (OdNumber (Some 1) (Some 1) (Some 0)); Some (OdNull (Some true))]))]).
Definition doc_dup : od_value :=
  OdObject (Some [Some (Some [97], OdNumber (Some 1) (Some 1) None); Some (Some [97], OdNumber (Some 2) (Some 2) None)]).

Lemma doc_a_distinct : od_distinct doc_a.
Proof. split; [apply NoDup_singleton|]. repeat split. Qed.


(** The live nodes after parsing [doc] and dropping the result. *)
Definition left_over (doc : od_value) : option nat :=
  let? (r, s) := DataParseJson (fun _ => Some doc) [123] (empty_store (P := FixedPool)) in
  let? s := Decref r s in Some (size (cells s)).

(** The value of a repeated key is leaked: [emplace] keeps the first value
    and the node made for the second is referenced by nobody.  After parsing
    [{"a":1,"a":2}] and dropping the result one node is still allocated; with
    distinct keys none is. *)
Theorem DataParseJson_leaks_duplicates : left_over doc_dup = Some 1%nat /\ left_over doc_a = Some 0%nat.
Proof. vm_compute. split; reflexivity. Qed.
