(* ===== verification/DataBuild.v ===== *)
(** * The nodes a parser allocates for a value

    [MsgPackParse] and [HjsonParse] are modelled on values, with a count of the
    nodes that are alive.  [build] allocates the nodes of such a value the way
    the parsers do: a container is made first and filled child by child with
    [push_back], [ObjInsert] and [IntMapInsert].  It never fails and adds one
    reference, and it leaves the older nodes as they are.  [node_value] reads
    the value of a node back, for [MsgPackSerialize]. *)

From stdpp Require Import base numbers list gmap.
From Stdlib Require Import ZArith Lia.
From S2P Require Import Prelude NodePool DataMap DataValue Float Text DataNode DataRefcount DataCopy JsonText JsonParse MsgPack.

Section Build.

Context {MO : DataMap bytes} {MI : DataMap Z} {P : Type} {PA : NodeAllocator P}.

#[local] Notation heap := (store (P := P)).
#[local] Notation result := (result (P := P)).
Implicit Types (st : heap) (ext : list loc).

(** Filling a container: [child] makes one value, [use] puts it in. *)
Definition fill {A} (child : A -> heap -> result) (use : A -> loc -> heap -> option heap) (node : loc) : list A -> heap -> result :=
  fix go vs st := match vs with
    | [] => Some (Some node, st)
    | v :: vs => let? (r, s) := child v st in
                 match r with None => drop_fail node s | Some x => let? s := use v x s in go vs s end
    end.

Fixpoint build (v : dval) st : result :=
  match v with
  | VNull => some_node (MakeNull st)
  | VBool b => some_node (MakeBool b st)
  | VInt z => some_node (MakeInt z st)
  | VFloat f => some_node (MakeFloat f st)
  | VString s => some_node (MakeStringLen s st)
  | VBinary b => some_node (MakeBinary b st)
  | VArray vs => let? (node, st) := MakeArray st in fill build (fun _ x => push_back node x) node vs st
  | VObject kvs => let? (node, st) := MakeObject st in fill (fun e => build e.2) (fun e x => ObjInsert node e.1 x) node kvs st
  | VIntMap kvs => let? (node, st) := MakeIntMap st in fill (fun e => build e.2) (fun e x => IntMapInsert node e.1 x) node kvs st
  end.

Lemma fill_array_fills {A} (child : A -> heap -> result) node m0 vs :
  Forall (fun v => builds (child v) True) vs ->
  fills (fill child (fun _ x => push_back node x) node vs) node m0 ok_array True.
Proof.
  induction vs as [|v vs IH]; intros HF; [apply fills_done|]. apply Forall_cons in HF as [Hv HF].
  intros st ext c Hi Hc Hok Hm0 Hs.
  destruct (fills_step (child v) (push_back node) (fill child (fun _ x => push_back node x) node vs) node m0 ok_array ok_array
              True True True Hv (push_back_use node m0 True) (IH HF) st ext c) as (r & s & L & Hr & Hi' & Hm & Hcl); [done..|].
  exists r, s, L. split_and!; [exact Hr|done|done|]. intros _. by apply Hcl.
Qed.

Section Maps.

Context {K : Type} {EqK : EqDecision K} {CK : Countable K} {DK : DataMap K} {MP : MapPayload K}.
Context (Hput : forall q : dm K loc, mp_get (mp_put q) = Some q)
        (Hget : forall p (q : dm K loc), mp_get p = Some q -> p = mp_put q)
        (Hch : forall q : dm K loc, children (mp_put q) = (dm_list q).*2).

(** A map whose keys are among [ks]. *)
Definition ok_map (ks : list K) (p : payload) : Prop :=
  exists q : dm K loc, p = mp_put q /\ forall k, is_Some (dm_map q !! k) -> k ∈ ks.

Lemma insert_use key ks node m0 st ext c x : key ∉ ks ->
  inv st (x :: node :: ext) -> cells st !! node = Some c -> ok_map ks (pay c) ->
  exists s L c', map_insert node key x st = Some s /\ inv s (node :: L ++ ext) /\ cells s !! node = Some c' /\
    ok_map (key :: ks) (pay c') /\ (m0 !! node = None -> m0 ⊆ cells st -> m0 ⊆ cells s) /\ (True -> L = []).
Proof using Hput Hget Hch.
  intros Hk Hi Hc (q & Hq & Hks).
  assert (dm_map q !! key = None) as Hn.
  { destruct (dm_map q !! key) eqn:E; [|done]. destruct Hk. apply Hks. by eexists. }
  destruct (map_insert_inv Hget Hch st (node :: ext) node key x Hi) as (s & Hs & Hi2); [constructor|].
  pose proof (map_insert_new node Hput st c q key x Hc Hq Hn) as E. rewrite Hs in E. injection E as Es.
  exists s, [], (mkNode (uN 24 (version c + 1)) (refcount c) (mp_put (dm_set key x q))).
  split_and!; [done|done|by rewrite Es; apply lookup_insert_eq| | |done].
  - exists (dm_set key x q). split; [done|]. intros k. rewrite dm_set_map, elem_of_cons.
    destruct (decide (k = key)) as [->|Hne]; [by left|]. rewrite lookup_insert_ne by done. right. by apply Hks.
  - intros Hm0 Hsub. rewrite Es. by apply insert_subseteq_r.
Qed.

Lemma fill_map_fills {A} (child : K * A -> heap -> result) node m0 kvs : forall ks,
  NoDup kvs.*1 -> (forall k, k ∈ kvs.*1 -> k ∉ ks) -> Forall (fun e => builds (child e) True) kvs ->
  fills (fill child (fun e x => map_insert node e.1 x) node kvs) node m0 (ok_map ks) True.
Proof using Hput Hget Hch.
  induction kvs as [|[k v] kvs IH]; intros ks Hnd Hdis HF; [apply fills_done|].
  apply Forall_cons in HF as [Hv HF]. simpl in Hnd. apply NoDup_cons in Hnd as [Hk Hnd].
  assert (fills (fill child (fun e x => map_insert node e.1 x) node kvs) node m0 (ok_map (k :: ks)) True) as Hgo.
  { apply IH; [done| |done]. intros k' Hk'. rewrite elem_of_cons. intros [->|Hin]; [done|].
    revert Hin. apply Hdis. by constructor. }
  intros st ext c Hi Hc Hok Hm0 Hs.
  destruct (fills_step (child (k, v)) (map_insert node k) (fill child (fun e x => map_insert node e.1 x) node kvs)
              node m0 (ok_map ks) (ok_map (k :: ks)) True True True Hv
              (fun st ext c x => insert_use k ks node m0 st ext c x (Hdis k (list_elem_of_here _ _))) Hgo st ext c)
    as (r & s & L & Hr & Hi' & Hm & Hcl); [done..|].
  exists r, s, L. split_and!; [exact Hr|done|done|]. intros _. by apply Hcl.
Qed.

Lemma new_map_ok : ok_map [] (mp_put (dm_new (K := K) (A := loc))) /\ children (mp_put (dm_new (K := K))) = [].
Proof using Hch.
  split; [|rewrite Hch; by rewrite (dm_list_nil dm_new) by apply dm_new_map].
  exists dm_new. split; [done|]. intros k. rewrite dm_new_map, lookup_empty. by intros [? ?].
Qed.

End Maps.

Lemma build_builds v : vwf v -> builds (build v) True.
Proof.
  induction v as [| | | | |vs IH|kvs IH|kvs IH|] using dval_ind'; intros Hv; cbn [build];
    try (by apply some_node_builds).
  - apply (fills_new (PArray []) ok_array); [done|by eexists|]. intros node m0. apply fill_array_fills.
    cbn [vwf] in Hv. apply foldr_and in Hv. apply Forall_forall. intros v Hin. rewrite Forall_forall in IH, Hv. auto.
  - destruct Hv as [Hnd Hv]. destruct (new_map_ok obj_children) as [Hok Hc].
    apply (fills_new (PObject dm_new) (ok_map (K := bytes) [])); [exact Hc|exact Hok|]. intros node m0.
    apply (fill_map_fills obj_put obj_get obj_children); [done|intros k _; apply not_elem_of_nil|].
    apply foldr_and in Hv. apply Forall_forall. intros v Hin. rewrite Forall_forall in IH, Hv. auto.
  - destruct Hv as [Hnd Hv]. destruct (new_map_ok int_children) as [Hok Hc].
    apply (fills_new (PIntMap dm_new) (ok_map (K := Z) [])); [exact Hc|exact Hok|]. intros node m0.
    apply (fill_map_fills int_put int_get int_children); [done|intros k _; apply not_elem_of_nil|].
    apply foldr_and in Hv. apply Forall_forall. intros v Hin. rewrite Forall_forall in IH, Hv. auto.
Qed.

Lemma build_inv v st ext : vwf v -> inv st ext -> exists r s, build v st = Some (r, s) /\ inv s (option_list r ++ ext).
Proof. intros Hv Hi. destruct (build_builds v Hv st ext Hi) as (r & s & L & Hr & Hs & _ & HL). exists r, s. by rewrite HL in Hs. Qed.

(** ** The parser of MessagePack on nodes *)

(** [MsgPackParse] as its callers use it, with 64-bit sizes. *)
Definition ParseMsgPack (limit : Z) (data : bytes) st : result :=
  let? (r, _) := MsgPackParse 64 data limit in
  match r with None => Some (None, st) | Some v => build v st end.

(** ** The value of a node *)

(** The value a node stands for; [None] when the data is cyclic or a node is
    dead. *)
Fixpoint reify (fuel : nat) (l : loc) st : option dval :=
  match fuel with
  | O => None
  | S fuel =>
      let? c := cells st !! l in
      match pay c with
      | PNull => Some VNull
      | PBool b => Some (VBool b)
      | PInt z => Some (VInt z)
      | PFloat f => Some (VFloat f)
      | PString s => Some (VString s)
      | PBinary b => Some (VBinary b)
      | PArray a => VArray <$> mapM (fun x => reify fuel x st) a
      | PObject q => VObject <$> mapM (fun e => pair e.1 <$> reify fuel e.2 st) (dm_list q)
      | PIntMap q => VIntMap <$> mapM (fun e => pair e.1 <$> reify fuel e.2 st) (dm_list q)
      end
  end.

Definition node_value (l : loc) st : option dval := reify (size (cells st)) l st.

(** [MsgPackSerialize(node)]. *)
Definition SerializeMsgPack (l : loc) st : option bytes := MsgPackSerialize <$> node_value l st.

Lemma Forall2_mem_r {A B} (R Q : A -> B -> Prop) l k : Forall2 R l k -> (forall x y, y ∈ k -> R x y -> Q x y) -> Forall2 Q l k.
Proof.
  induction 1 as [|x y l k Hxy H IH]; intros HQ; [constructor|]. constructor; [apply HQ; [constructor|done]|].
  apply IH. intros x' y' Hy. apply HQ. by constructor.
Qed.

Lemma reify_entries {K} fuel st (es : list (K * loc)) kvs :
  Forall2 (entry_repr (repr (cells st))) es kvs -> Forall (fun e => forall l, repr (cells st) l e.2 -> reify fuel l st = Some e.2) kvs ->
  mapM (fun e => pair e.1 <$> reify fuel e.2 st) es = Some kvs.
Proof.
  intros H HF. apply mapM_Some. revert HF. induction H as [|[k l] [k' v] es kvs [Hk Hr] H IH]; intros HF; [constructor|].
  apply Forall_cons in HF as [Hv HF]. constructor; [|by apply IH]. cbn in *. subst k'. by rewrite (Hv l Hr).
Qed.

Lemma reify_spec fuel : forall v l st, (depth v <= fuel)%nat -> repr (cells st) l v -> reify fuel l st = Some v.
Proof.
  induction fuel as [|fuel IH]; intros v l st Hd Hr.
  - exfalso. destruct v; simpl in Hd; lia.
  - apply repr_unfold in Hr as (c & Hc & Hp). cbn [reify]. rewrite Hc.
    destruct v as [|b|z|z|s|vs|kvs|kvs|s]; destruct (pay c); try done; cbn [repr_pay] in Hp; cbn [depth] in Hd; subst; try done;
      apply le_S_n in Hd.
    + assert (mapM (fun x => reify fuel x st) a = Some vs) as ->; [|done]. apply mapM_Some.
      apply (Forall2_mem_r (repr (cells st))); [done|]. intros x v Hv Hr. apply IH; [|done]. pose proof (foldr_max_le depth vs v Hv). lia.
    + rewrite (reify_entries fuel st _ kvs Hp); [done|]. apply Forall_forall. intros e He l' Hr. apply IH; [|done].
      pose proof (foldr_max_le (fun e => depth e.2) kvs e He). simpl in *. lia.
    + rewrite (reify_entries fuel st _ kvs Hp); [done|]. apply Forall_forall. intros e He l' Hr. apply IH; [|done].
      pose proof (foldr_max_le (fun e => depth e.2) kvs e He). simpl in *. lia.
Qed.

Lemma node_value_repr st l v : repr (cells st) l v -> node_value l st = Some v.
Proof. intros Hr. apply reify_spec; [by apply (repr_depth_size _ _ _ Hr)|done]. Qed.

End Build.
