(* ===== verification/ParsedNodes.v ===== *)
(** * What the parsers return has distinct keys

    [MsgPackParse] and [HjsonParse] build maps with [set_key], so that the
    value they return satisfies [vwf] whatever the input is; its nodes can then
    be allocated with [build]. *)

From stdpp Require Import base numbers list gmap.
From Stdlib Require Import ZArith Lia.
From S2P Require Import Prelude NodePool DataMap DataValue Float Text DataNode DataRefcount DataCopy JsonText JsonParse MsgPack DataBuild.

(** ** Lists of entries *)

Lemma set_key_keys {K} `{EqDecision K} (k : K) v (kvs : list (K * dval)) x : x ∈ (set_key k v kvs).*1 -> x = k \/ x ∈ kvs.*1.
Proof.
  induction kvs as [|[k' v'] kvs IH]; simpl.
  - intros ->%list_elem_of_singleton. by left.
  - case_decide; simpl; [by right|]. rewrite !elem_of_cons. intros [->|Hx]; [auto|]. destruct (IH Hx); auto.
Qed.

Lemma set_key_wf {K} `{EqDecision K} (k : K) v (kvs : list (K * dval)) : NoDup kvs.*1 -> Forall (fun e => vwf e.2) kvs -> vwf v ->
  NoDup (set_key k v kvs).*1 /\ Forall (fun e => vwf e.2) (set_key k v kvs).
Proof.
  induction kvs as [|[k' v'] kvs IH]; simpl; intros Hnd HF Hv.
  - split; [repeat constructor; apply not_elem_of_nil|by repeat constructor].
  - apply NoDup_cons in Hnd as [Hk Hnd]. apply Forall_cons in HF as [Hv' HF]. destruct (IH Hnd HF Hv) as [H1 H2].
    case_decide as E; simpl; (split; [|by constructor]); constructor; try done.
    intros [->|Hin]%set_key_keys; done.
Qed.

(** A parser's result: null or a value with distinct keys. *)
Definition okv (r : option dval) : Prop := match r with Some v => vwf v | None => True end.
Definition entries_ok {K} (acc : list (K * dval)) : Prop := NoDup acc.*1 /\ Forall (fun e => vwf e.2) acc.

(** ** MessagePack *)

Section MsgPack.

Context (W : Z) (data : bytes) (limit : Z).

Definition yields {A} (m : MsgPack.M A) (Q : A -> Prop) : Prop := forall s a s', m s = Some (a, s') -> Q a.

Lemma y_ret {A} (a : A) (Q : A -> Prop) : Q a -> yields (ret a) Q.
Proof. intros H s b s' [= <- <-]. done. Qed.

Lemma y_bind {A B} (m : MsgPack.M A) (k : A -> MsgPack.M B) (R : A -> Prop) Q : yields m R -> (forall a, R a -> yields (k a) Q) -> yields (bind m k) Q.
Proof. intros Hm Hk s b s'. unfold bind. destruct (m s) as [[a s1]|] eqn:E; [|done]. apply (Hk a). by eapply Hm. Qed.

Lemma y_any {A} (m : MsgPack.M A) : yields m (fun _ => True).
Proof. done. Qed.

Lemma y_then {A B} (m : MsgPack.M A) (k : A -> MsgPack.M B) Q : (forall a, yields (k a) Q) -> yields (bind m k) Q.
Proof. intros Hk. eapply y_bind; [apply y_any|]. auto. Qed.

Lemma y_make v : vwf v -> yields (make v) okv.
Proof. by intros Hv s a s' [= <- <-]. Qed.

Lemma y_null : yields null okv.
Proof. by apply y_ret. Qed.

Lemma y_need n k : yields k okv -> yields (need W data n k) okv.
Proof. intros Hk. apply y_then. intros []; [done|apply y_null]. Qed.

Section Level.

Context (read_child : MsgPack.M (option dval)) (Hchild : yields read_child okv).

Lemma y_array n : forall acc, Forall vwf acc -> yields (array_loop read_child n acc) okv.
Proof using Hchild.
  induction n as [|n IH]; intros acc Hacc.
  - apply y_ret. cbn. by apply foldr_and.
  - eapply y_bind; [exact Hchild|]. intros [v|] Hv; [|by repeat (apply y_then; intros ?); apply y_null].
    apply IH. by apply Forall_app_2; [|constructor].
Qed.

Lemma y_put {K} `{EqDecision K} (k : K) v acc : entries_ok acc -> vwf v -> yields (map_put k v acc) entries_ok.
Proof. intros [H1 H2] Hv. unfold map_put. destruct (find_key k acc); [apply y_then; intros ?|]; apply y_ret; by apply set_key_wf. Qed.

Lemma y_intmap n : forall acc, entries_ok acc -> yields (intmap_loop read_child n acc) okv.
Proof using Hchild.
  induction n as [|n IH]; intros acc Hacc.
  - apply y_ret. destruct Hacc. split; [done|]. by apply foldr_and.
  - apply y_then. intros [[| |key| | | | | |]|]; try (solve [repeat (apply y_then; intros ?); apply y_null]).
    apply y_then. intros _. eapply y_bind; [exact Hchild|]. intros [v|] Hv; [|by repeat (apply y_then; intros ?); apply y_null].
    eapply y_bind; [by apply y_put|]. apply IH.
Qed.

Lemma y_object n : forall acc, entries_ok acc -> yields (object_loop read_child n acc) okv.
Proof using Hchild.
  induction n as [|n IH]; intros acc Hacc.
  - apply y_ret. destruct Hacc. split; [done|]. by apply foldr_and.
  - apply y_then. intros [[| | | |key| | | |]|]; try (solve [repeat (apply y_then; intros ?); apply y_null]).
    apply y_then. intros _. eapply y_bind; [exact Hchild|]. intros [v|] Hv; [|by repeat (apply y_then; intros ?); apply y_null].
    eapply y_bind; [by apply y_put|]. apply IH.
Qed.

Lemma entries_nil {K} : entries_ok (K := K) [].
Proof. split; constructor. Qed.

Lemma y_read_array count : yields (read_array limit read_child count) okv.
Proof using Hchild. unfold read_array. destruct (_ >? _); [apply y_null|]. apply y_then. intros _. by apply y_array. Qed.

Lemma y_read_map count : yields (read_map W data limit read_child count) okv.
Proof using Hchild.
  unfold read_map. destruct (_ =? _); [by apply y_make; split; [constructor|]|]. destruct (_ >? _); [apply y_null|].
  apply y_need. apply y_then. intros p. apply y_then. intros b. destruct (_ && _); [apply y_null|].
  destruct (_ || _ || _); apply y_then; intros _; [apply y_intmap|apply y_object]; apply entries_nil.
Qed.

Lemma y_tagged b : yields (read_tagged W data limit read_child b) okv.
Proof using Hchild.
  unfold read_tagged, read_str, read_bin.
  repeat match goal with
  | |- yields (if ?c then _ else _) _ => destruct c
  | |- yields (make _) _ => by apply y_make
  | |- yields null _ => apply y_null
  | |- yields (read_map _ _ _ _ _) _ => apply y_read_map
  | |- yields (read_array _ _ _) _ => apply y_read_array
  | |- yields (need _ _ _ _) _ => apply y_need
  | |- yields (bind _ _) _ => apply y_then; intros ?
  | |- yields (match ?b with _ => _ end) _ => destruct b
  end.
Qed.

End Level.

Lemma y_node levels : yields (read_node W data limit levels) okv.
Proof. induction levels as [|levels IH]; [apply y_null|]. apply y_need, y_then. intros b. by apply y_tagged. Qed.

Lemma MsgPackParse_vwf r n : MsgPackParse W data limit = Some (r, n) -> okv r.
Proof.
  unfold MsgPackParse. destruct (_ =? _); [by intros [= <- _]|].
  destruct (read_node _ _ _ _ _) as [[a s]|] eqn:E; [|done]. apply y_node in E. destruct a as [v|]; [|by intros [= <- _]].
  destruct (negb _); by intros [= <- _].
Qed.

End MsgPack.

(** Parsing MessagePack to nodes never fails and adds exactly the reference it returns. *)
Lemma ParseMsgPack_inv {MO : DataMap bytes} {MI : DataMap Z} {P : Type} {PA : NodeAllocator P} (limit : Z) (data : bytes) (st : store (P := P)) ext :
  len data + 2 ^ 32 <= 2 ^ 64 -> Forall is_byte data -> inv st ext ->
  exists r s, ParseMsgPack limit data st = Some (r, s) /\ inv s (option_list r ++ ext).
Proof.
  intros Hlen Hb Hi. unfold ParseMsgPack.
  destruct (MsgPackParse_total 64 data limit) as (r & Hr); [lia|done..|]. rewrite Hr. apply MsgPackParse_vwf in Hr.
  destruct r as [v|]; [by apply build_inv|]. by exists None, st.
Qed.
