(* ===== verification/HjsonScan.v ===== *)
(** * [src/hjson/hjson_parse.cpp]: character classes and scanners

    The character table, the scalar scanners, and the AVX2 scanners as programs
    over 32-byte vectors.  A scanner gets a pointer into the padded copy of the
    input, here the bytes from that pointer to the end of the allocation, and
    the number of bytes it may look at; [None] is a load outside the
    allocation. *)

From stdpp Require Import base numbers list.
From Stdlib Require Import ZArith Lia.
From S2P Require Import Prelude.

Definition kMaxDepth : nat := 256.
Definition kPadding : nat := 64.

(** ** The character table *)

Definition CC_WS : Z := 1.
Definition CC_NL : Z := 2.
Definition CC_STRUCT : Z := 4.
Definition CC_QUOTE : Z := 8.
Definition CC_BSLASH : Z := 16.
Definition CC_HASH : Z := 32.
Definition CC_SLASH : Z := 64.
Definition CC_SQUOTE : Z := 128.

Definition init_char_table : list Z :=
  let set (c v : Z) (t : list Z) := <[Z.to_nat c := v]> t in
  set 47 CC_SLASH (set 35 CC_HASH (set 92 CC_BSLASH (set 39 (Z.lor CC_QUOTE CC_SQUOTE) (set 34 CC_QUOTE
  (set 58 CC_STRUCT (set 44 CC_STRUCT (set 93 CC_STRUCT (set 91 CC_STRUCT (set 125 CC_STRUCT (set 123 CC_STRUCT
  (set 10 (Z.lor CC_WS CC_NL) (set 13 (Z.lor CC_WS CC_NL) (set 9 CC_WS (set 32 CC_WS (replicate 256 0))))))))))))))).

(** [cc(c)]: the index is the character as [unsigned char]. *)
Definition cc (c : byte) : Z := default 0 (init_char_table !! Z.to_nat (uN 8 c)).
Definition is_cc (c : byte) (flag : Z) : bool := negb (Z.land (cc c) flag =? 0).

(** The table in closed form. *)
Definition one_of (cs : list Z) (c : byte) : bool := existsb (Z.eqb c) cs.

Lemma cc_table (c : byte) : is_byte c ->
  is_cc c CC_WS = one_of [32; 9; 13; 10] c /\ is_cc c CC_NL = one_of [13; 10] c /\
  is_cc c CC_STRUCT = one_of [123; 125; 91; 93; 44; 58] c /\ is_cc c CC_QUOTE = one_of [34; 39] c /\
  is_cc c CC_HASH = one_of [35] c /\ is_cc c CC_SLASH = one_of [47] c /\ is_cc c CC_SQUOTE = one_of [39] c.
Proof.
  intros Hc. unfold is_byte in Hc.
  assert (forallb (fun n => let c := Z.of_nat n in
    Bool.eqb (is_cc c CC_WS) (one_of [32; 9; 13; 10] c) && Bool.eqb (is_cc c CC_NL) (one_of [13; 10] c) &&
    Bool.eqb (is_cc c CC_STRUCT) (one_of [123; 125; 91; 93; 44; 58] c) && Bool.eqb (is_cc c CC_QUOTE) (one_of [34; 39] c) &&
    Bool.eqb (is_cc c CC_HASH) (one_of [35] c) && Bool.eqb (is_cc c CC_SLASH) (one_of [47] c) &&
    Bool.eqb (is_cc c CC_SQUOTE) (one_of [39] c)) (seq 0 256) = true) as H by (vm_compute; reflexivity).
  rewrite forallb_forall in H. specialize (H (Z.to_nat c)). rewrite Z2Nat.id in H by lia. cbv zeta in H.
  rewrite !andb_true_iff, !Bool.eqb_true_iff in H. assert (In (Z.to_nat c) (seq 0 256)) as Hin by (apply in_seq; lia).
  specialize (H Hin). tauto.
Qed.

(** ** Scalar scanners *)

(** The loop they share: the index of the first of the [len] bytes at [buf]
    that is a [stop], [len] if there is none. *)
Fixpoint scan (stop : byte -> bool) (buf : bytes) (len : nat) : option nat :=
  match len, buf with
  | O, _ => Some O
  | S _, [] => None
  | S len, c :: buf => if stop c then Some O else let? i := scan stop buf len in Some (S i)
  end.

Definition skip_ws_scalar (buf : bytes) (len : nat) : option nat := scan (fun c => negb (is_cc c CC_WS)) buf len.
Definition find_quote_or_special_scalar (buf : bytes) (len : nat) (quote : byte) : option nat :=
  scan (fun c => (c =? quote) || (c =? 92) || (c =? 10) || (c =? 13)) buf len.
Definition find_newline_scalar (buf : bytes) (len : nat) : option nat := scan (fun c => (c =? 10) || (c =? 13)) buf len.
Definition find_char_scalar (buf : bytes) (len : nat) (target : byte) : option nat := scan (fun c => c =? target) buf len.

(** ** AVX2 *)

Definition mm256_cmpeq_epi8 (v : bytes) (c : byte) : bytes := (fun x => if x =? c then 255 else 0) <$> v.
Definition mm256_or (v w : bytes) : bytes := zip_with Z.lor v w.
Fixpoint mm256_movemask_epi8 (v : bytes) : Z :=
  match v with [] => 0 | x :: v => Z.b2z (Z.testbit x 7) + 2 * mm256_movemask_epi8 v end.
Definition mm256_loadu (buf : bytes) (i : nat) : option bytes :=
  if (i + 32 <=? length buf)%nat then Some (take 32 (drop i buf)) else None.

(** [hjson_ctz]: [__builtin_ctz] of a 32-bit value. *)
Fixpoint ctz_from (n : nat) (x : Z) : nat :=
  match n with O => O | S n => if Z.odd x then O else S (ctz_from n (x / 2)) end.
Definition hjson_ctz (x : Z) : nat := ctz_from 32 x.

(** The loop of the four functions: [mask v] has a bit for every byte of [v]
    the scan stops at.  [fuel] bounds the iterations. *)
Fixpoint avx2_loop (mask : bytes -> Z) (fuel : nat) (i : nat) (buf : bytes) (len : nat) : option nat :=
  match fuel with
  | O => None
  | S fuel =>
      if (i <? len)%nat then
        let? v := mm256_loadu buf i in
        let m := mask v in
        if negb (m =? 0) then
          let pos := (i + hjson_ctz m)%nat in
          Some (if (pos <? len)%nat then pos else len)
        else avx2_loop mask fuel (i + 32) buf len
      else Some len
  end.

Definition avx2 (mask : bytes -> Z) (buf : bytes) (len : nat) : option nat := avx2_loop mask (S len) 0 buf len.

(** [~mask] of the 32-bit mask; [mask != 0xFFFFFFFF] is [~mask != 0]. *)
Definition not32 (x : Z) : Z := Z.lxor x 0xFFFFFFFF.

Definition skip_ws_avx2 : bytes -> nat -> option nat := avx2 (fun v =>
  not32 (mm256_movemask_epi8 (mm256_or (mm256_or (mm256_cmpeq_epi8 v 32) (mm256_cmpeq_epi8 v 9))
                                       (mm256_or (mm256_cmpeq_epi8 v 13) (mm256_cmpeq_epi8 v 10))))).
Definition find_quote_or_special_avx2 (buf : bytes) (len : nat) (quote : byte) : option nat := avx2 (fun v =>
  mm256_movemask_epi8 (mm256_or (mm256_or (mm256_cmpeq_epi8 v quote) (mm256_cmpeq_epi8 v 92))
                                (mm256_or (mm256_cmpeq_epi8 v 10) (mm256_cmpeq_epi8 v 13)))) buf len.
Definition find_newline_avx2 : bytes -> nat -> option nat := avx2 (fun v =>
  mm256_movemask_epi8 (mm256_or (mm256_cmpeq_epi8 v 10) (mm256_cmpeq_epi8 v 13))).
Definition find_char_avx2 (buf : bytes) (len : nat) (target : byte) : option nat := avx2 (fun v =>
  mm256_movemask_epi8 (mm256_cmpeq_epi8 v target)) buf len.

(** ** The scanners agree *)

(** The mask with the bits [bs]. *)
Fixpoint mask_of (bs : list bool) : Z := match bs with [] => 0 | b :: bs => Z.b2z b + 2 * mask_of bs end.

Lemma mask_of_bounds bs : 0 <= mask_of bs < 2 ^ Z.of_nat (length bs).
Proof.
  induction bs as [|b bs IH]; [cbn; lia|]. cbn [mask_of length]. rewrite Nat2Z.inj_succ, Z.pow_succ_r by lia.
  destruct b; cbn [Z.b2z]; lia.
Qed.

Lemma mask_of_zero bs : mask_of bs = 0 <-> Forall (fun b => b = false) bs.
Proof.
  induction bs as [|b bs IH]; [by split|]. rewrite Forall_cons, <- IH. cbn [mask_of].
  pose proof (mask_of_bounds bs). destruct b; cbn [Z.b2z].
  - split; [lia|by intros [? _]].
  - split; [intros; split; [done|lia]|intros [_ ?]; lia].
Qed.

Lemma mask_of_odd b bs : Z.odd (mask_of (b :: bs)) = b.
Proof. cbn [mask_of]. rewrite Z.odd_add_mul_2. by destruct b. Qed.

Lemma mask_of_half b bs : mask_of (b :: bs) / 2 = mask_of bs.
Proof. cbn [mask_of]. rewrite (Z.mul_comm 2), Z.div_add by lia. by destruct b. Qed.

(** The first stop of a vector is the number of trailing zeros of its mask. *)
Lemma ctz_scan stop (v rest : bytes) len n : length v = n -> mask_of (stop <$> v) <> 0 -> (n <= len)%nat ->
  scan stop (v ++ rest) len = Some (ctz_from n (mask_of (stop <$> v))).
Proof.
  revert len n. induction v as [|c v IH]; intros len n Hn Hm Hlen; [done|]. subst n. cbn [length] in Hlen.
  destruct len as [|len]; [lia|]. cbn [fmap list_fmap length ctz_from app scan] in *.
  rewrite mask_of_odd, mask_of_half. destruct (stop c) eqn:E; [done|].
  rewrite (IH len (length v)); [done|done| |lia]. cbn [mask_of Z.b2z] in Hm. change (list_fmap _ _ stop v) with (stop <$> v) in *. lia.
Qed.

(** A vector without a stop is skipped. *)
Lemma scan_skip stop (v rest : bytes) len : Forall (fun c => stop c = false) v -> (length v <= len)%nat ->
  scan stop (v ++ rest) len = let? i := scan stop rest (len - length v) in Some (length v + i)%nat.
Proof.
  revert len. induction v as [|c v IH]; intros len HF Hlen.
  { simpl. rewrite Nat.sub_0_r. by destruct (scan stop rest len). }
  apply Forall_cons in HF as [Hc HF]. simpl in Hlen. destruct len as [|len]; [lia|].
  simpl. rewrite Hc, IH by (done || lia). by destruct (scan stop rest (len - length v)).
Qed.

(** Looking at fewer bytes cuts the answer. *)
Lemma scan_min stop buf : forall len len' i, (len <= len')%nat -> scan stop buf len' = Some i ->
  scan stop buf len = Some (Nat.min i len).
Proof.
  induction buf as [|c buf IH]; intros len len' i Hle H.
  - destruct len' as [|len']; [|done]. injection H as <-. by destruct len as [|len]; [|lia].
  - destruct len' as [|len']; [injection H as <-; by destruct len as [|len]; [|lia]|]. destruct len as [|len]; [by rewrite Nat.min_0_r|].
    cbn [scan] in *. destruct (stop c); [by injection H as <-|].
    destruct (scan stop buf len') as [j|] eqn:E; [|done]. injection H as <-. by rewrite (IH len len' j) by (done || lia).
Qed.

Lemma take_drop_32 (buf : bytes) i : (i + 32 <= length buf)%nat ->
  exists v, mm256_loadu buf i = Some v /\ length v = 32%nat /\ drop i buf = v ++ drop (i + 32) buf.
Proof.
  intros H. unfold mm256_loadu. rewrite (proj2 (Nat.leb_le _ _) H). exists (take 32 (drop i buf)).
  split_and!; [done|rewrite length_take, length_drop; lia|]. rewrite <- (take_drop 32 (drop i buf)) at 1. by rewrite drop_drop.
Qed.

Lemma avx2_loop_scan mask stop buf len : (forall v, length v = 32%nat -> Forall is_byte v -> mask v = mask_of (stop <$> v)) ->
  Forall is_byte buf -> (len + 32 <= length buf)%nat ->
  forall fuel i, (len + 31 < i + 32 * fuel)%nat -> (i <= len + 31)%nat ->
  avx2_loop mask fuel i buf len = let? n := scan stop (drop i buf) (len - i) in Some (Nat.min len (i + n)).
Proof.
  intros Hmask Hb Hpad fuel. induction fuel as [|fuel IH]; intros i Hf Hi; cbn [avx2_loop].
  { lia. }
  destruct (Nat.ltb_spec i len) as [Hlt|Hge].
  2:{ replace (len - i)%nat with 0%nat by lia. destruct (drop i buf); cbn [scan]; f_equal; lia. }
  destruct (take_drop_32 buf i ltac:(lia)) as (v & -> & Hv & Hd). cbv beta match zeta.
  rewrite Hmask; [|done|]; [|apply (Forall_drop _ i) in Hb; rewrite Hd in Hb; by apply Forall_app in Hb as [? _]].
  destruct (Z.eqb_spec (mask_of (stop <$> v)) 0) as [E|E]; cbn [negb].
  - apply mask_of_zero, Forall_fmap in E. unfold compose in E.
    destruct (Nat.le_gt_cases 32 (len - i)) as [Hl|Hl].
    + rewrite IH by lia. rewrite Hd, scan_skip by (done || lia). rewrite Hv.
      replace (len - i - 32)%nat with (len - (i + 32))%nat by lia.
      destruct (scan stop (drop (i + 32) buf) (len - (i + 32))) as [n|]; [|done]. do 2 f_equal. lia.
    + rewrite IH by lia. replace (len - (i + 32))%nat with 0%nat by lia.
      assert (scan stop (drop i buf) 32 = Some 32%nat) as Hs.
      { rewrite Hd, scan_skip by (done || lia). rewrite Hv. simpl. by destruct (drop (i + 32) buf). }
      rewrite (scan_min stop _ (len - i) 32 32 ltac:(lia) Hs).
      destruct (drop (i + 32) buf); cbn [scan]; f_equal; lia.
  - assert (scan stop (drop i buf) (Nat.max 32 (len - i)) = Some (hjson_ctz (mask_of (stop <$> v)))) as Hs
      by (rewrite Hd; apply ctz_scan; [done|done|lia]).
    rewrite (scan_min stop _ (len - i) (Nat.max 32 (len - i)) _ ltac:(lia) Hs). f_equal.
    destruct (Nat.ltb_spec (i + hjson_ctz (mask_of (stop <$> v))) len); lia.
Qed.

Lemma scan_bound stop buf : forall len i, scan stop buf len = Some i -> (i <= len)%nat.
Proof.
  induction buf as [|c buf IH]; intros [|len] i H; cbn [scan] in H; try (injection H as <-; lia); [done|].
  destruct (stop c); [injection H as <-; lia|]. destruct (scan stop buf len) as [j|] eqn:E; [|done]. injection H as <-.
  apply IH in E. lia.
Qed.

Lemma avx2_scan mask stop buf len : (forall v, length v = 32%nat -> Forall is_byte v -> mask v = mask_of (stop <$> v)) ->
  Forall is_byte buf -> (len + 32 <= length buf)%nat -> avx2 mask buf len = scan stop buf len.
Proof.
  intros Hmask Hb Hpad. unfold avx2. rewrite (avx2_loop_scan mask stop buf len Hmask Hb Hpad) by lia.
  rewrite drop_0, Nat.sub_0_r. destruct (scan stop buf len) as [n|] eqn:E; [|done]. apply scan_bound in E. f_equal. lia.
Qed.

(** *** Masks *)

(** A vector of comparison results and the predicate it decides. *)
Definition decides (w v : bytes) (p : byte -> bool) : Prop := w = (fun x => if p x then 255 else 0) <$> v.

Lemma decides_cmpeq v c : decides (mm256_cmpeq_epi8 v c) v (fun x => x =? c).
Proof. done. Qed.

Lemma decides_or w w' v p q : decides w v p -> decides w' v q -> decides (mm256_or w w') v (fun x => p x || q x).
Proof.
  unfold decides, mm256_or. intros -> ->. induction v as [|x v IH]; [done|].
  simpl. f_equal; [|exact IH]. by destruct (p x), (q x).
Qed.

Lemma movemask_decides w v p : decides w v p -> mm256_movemask_epi8 w = mask_of (p <$> v).
Proof.
  unfold decides. intros ->. induction v as [|x v IH]; [done|]. simpl. change (list_fmap _ _ ?f v) with (f <$> v) in *.
  rewrite IH. by destruct (p x).
Qed.

Lemma mask_of_not bs : mask_of (negb <$> bs) = 2 ^ Z.of_nat (length bs) - 1 - mask_of bs.
Proof.
  induction bs as [|b bs IH]; [done|]. cbn [fmap list_fmap mask_of length]. change (list_fmap _ _ negb bs) with (negb <$> bs) in *.
  rewrite IH, Nat2Z.inj_succ, Z.pow_succ_r by lia. destruct b; cbn [Z.b2z negb]; lia.
Qed.

Lemma not32_sub x : 0 <= x < 2 ^ 32 -> not32 x = 2 ^ 32 - 1 - x.
Proof.
  intros Hx. unfold not32. change 0xFFFFFFFF with (Z.ones 32). change (2 ^ 32 - 1) with (Z.ones 32).
  assert (Z.ldiff x (Z.ones 32) = 0) as H0.
  { apply Z.bits_inj'. intros n Hn. rewrite Z.ldiff_spec, Z.bits_0. destruct (Z.lt_ge_cases n 32) as [Hlt|Hge].
    - rewrite Z.ones_spec_low by lia. apply andb_false_r.
    - rewrite (Z.bits_above_log2 x n); [done|lia|]. destruct (Z.eq_dec x 0) as [->|]; [simpl; lia|].
      apply Z.lt_le_trans with 32; [|done]. apply Z.log2_lt_pow2; lia. }
  rewrite (Z.sub_nocarry_ldiff (Z.ones 32) x H0). apply Z.bits_inj'. intros n Hn.
  apply (f_equal (fun y => Z.testbit y n)) in H0. rewrite Z.ldiff_spec, Z.bits_0 in H0.
  rewrite Z.lxor_spec, Z.ldiff_spec. by destruct (Z.testbit x n), (Z.testbit (Z.ones 32) n).
Qed.

Lemma not32_mask p (v : bytes) : length v = 32%nat -> not32 (mask_of (p <$> v)) = mask_of ((fun x => negb (p x)) <$> v).
Proof.
  intros Hv. pose proof (mask_of_bounds (p <$> v)) as Hb. rewrite length_fmap, Hv in Hb.
  rewrite not32_sub by exact Hb. rewrite (list_fmap_compose p negb), mask_of_not, length_fmap, Hv. done.
Qed.

(** *** The four functions *)

Lemma skip_ws_agree buf len : Forall is_byte buf -> (len + 32 <= length buf)%nat ->
  skip_ws_avx2 buf len = skip_ws_scalar buf len.
Proof.
  apply avx2_scan. intros v Hv Hb.
  rewrite (movemask_decides _ v (fun x => ((x =? 32) || (x =? 9)) || ((x =? 13) || (x =? 10))))
    by (repeat apply decides_or; apply decides_cmpeq).
  rewrite not32_mask by done. f_equal. apply list_fmap_ext. intros i x Hx.
  rewrite Forall_forall in Hb. apply list_elem_of_lookup_2, Hb, cc_table in Hx as (-> & _).
  unfold one_of. cbn [existsb]. by destruct (x =? 32), (x =? 9), (x =? 13), (x =? 10).
Qed.

Lemma find_quote_agree buf len quote : Forall is_byte buf -> (len + 32 <= length buf)%nat ->
  find_quote_or_special_avx2 buf len quote = find_quote_or_special_scalar buf len quote.
Proof.
  apply avx2_scan. intros v Hv Hb.
  rewrite (movemask_decides _ v (fun x => ((x =? quote) || (x =? 92)) || ((x =? 10) || (x =? 13))))
    by (repeat apply decides_or; apply decides_cmpeq).
  f_equal. apply list_fmap_ext. intros i x Hx. by destruct (x =? quote), (x =? 92), (x =? 10), (x =? 13).
Qed.

Lemma find_newline_agree buf len : Forall is_byte buf -> (len + 32 <= length buf)%nat ->
  find_newline_avx2 buf len = find_newline_scalar buf len.
Proof.
  apply avx2_scan. intros v Hv Hb. by rewrite (movemask_decides _ v (fun x => (x =? 10) || (x =? 13)))
    by (apply decides_or; apply decides_cmpeq).
Qed.

Lemma find_char_agree buf len target : Forall is_byte buf -> (len + 32 <= length buf)%nat ->
  find_char_avx2 buf len target = find_char_scalar buf len target.
Proof. apply avx2_scan. intros v Hv Hb. by rewrite (movemask_decides _ v (fun x => x =? target)) by apply decides_cmpeq. Qed.

(** ** The scanner in use

    [g_scan]: the table of the four functions, filled by [init_scanner] with one
    of the two families. *)
Record Scanner := mkScanner {
  scan_skip_ws : bytes -> nat -> option nat;
  scan_find_quote_special : bytes -> nat -> byte -> option nat;
  scan_find_newline : bytes -> nat -> option nat;
  scan_find_char : bytes -> nat -> byte -> option nat
}.

Definition scalar_scanner : Scanner :=
  mkScanner skip_ws_scalar find_quote_or_special_scalar find_newline_scalar find_char_scalar.
Definition avx2_scanner : Scanner :=
  mkScanner skip_ws_avx2 find_quote_or_special_avx2 find_newline_avx2 find_char_avx2.

(** [no_simd]: [HJSON_NO_SIMD] is set; [has_avx2]: the answer of [detect_avx2]. *)
Definition init_scanner (no_simd has_avx2 : bool) : Scanner :=
  if negb no_simd && has_avx2 then avx2_scanner else scalar_scanner.

(** What the parser relies on: on a buffer of bytes with 32 bytes of padding the
    four functions return the first stop. *)
Class ScannerOk (g : Scanner) : Prop := {
  ok_skip_ws buf len : Forall is_byte buf -> (len + 32 <= length buf)%nat ->
    scan_skip_ws g buf len = skip_ws_scalar buf len;
  ok_find_quote buf len q : Forall is_byte buf -> (len + 32 <= length buf)%nat ->
    scan_find_quote_special g buf len q = find_quote_or_special_scalar buf len q;
  ok_find_newline buf len : Forall is_byte buf -> (len + 32 <= length buf)%nat ->
    scan_find_newline g buf len = find_newline_scalar buf len;
  ok_find_char buf len c : Forall is_byte buf -> (len + 32 <= length buf)%nat ->
    scan_find_char g buf len c = find_char_scalar buf len c
}.

#[export] Instance scalar_ok : ScannerOk scalar_scanner.
Proof. by split. Qed.

#[export] Instance avx2_ok : ScannerOk avx2_scanner.
Proof. split; [exact skip_ws_agree|exact find_quote_agree|exact find_newline_agree|exact find_char_agree]. Qed.

#[export] Instance init_scanner_ok no_simd has_avx2 : ScannerOk (init_scanner no_simd has_avx2).
Proof. unfold init_scanner. destruct (negb no_simd && has_avx2); apply _. Qed.
