(* ===== verification/Hjson.v ===== *)
(** * [src/hjson/hjson_parse.cpp]: the Hjson parser

    The parser reads the padded copy of its input through a [Reader].  Its
    functions are translated as state transformers over the position and the
    number of nodes that are allocated and not yet freed.  A result tells apart
    a return, an access outside the padded buffer ([HUB]), the exception
    [std::length_error] of the [std::string] constructor ([HThrow]), and loops
    that use up the [fuel] that bounds them ([HFuel]).  A node is the value it
    stands for, as in the MessagePack parser: nobody else references a tree
    while it is parsed.

    Characters are bytes; where the source compares a [char] by order it is
    signed, [sN 8 c].  The counters [indent], [skip] and [firstSpace] are [int]:
    inputs are shorter than 2 GB. *)

From stdpp Require Import base numbers list.
From Stdlib Require Import ZArith Lia.
From S2P Require Import Prelude DataValue Float Text MsgPack HjsonScan.

Record reader := mkReader { rpos : nat; rlive : Z }.

Inductive hres (A : Type) := HRet (a : A) (r : reader) | HUB | HThrow | HFuel.
#[global] Arguments HRet {A} a r.
#[global] Arguments HUB {A}.
#[global] Arguments HThrow {A}.
#[global] Arguments HFuel {A}.

Definition HM (A : Type) : Type := reader -> hres A.

Definition hret {A} (a : A) : HM A := fun r => HRet a r.
Definition hbind {A B} (m : HM A) (k : A -> HM B) : HM B := fun r =>
  match m r with HRet a r => k a r | HUB => HUB | HThrow => HThrow | HFuel => HFuel end.

Declare Scope hjson_scope.
Delimit Scope hjson_scope with hjson.
Notation "x <- m ;; k" := (hbind m (fun x => k)) (at level 100, m at next level, right associativity) : hjson_scope.
Notation "m ;;; k" := (hbind m (fun _ => k)) (at level 100, right associativity) : hjson_scope.
#[local] Open Scope hjson_scope.

(** ** [utf8_encode] *)

Definition utf8_encode (cp : Z) : bytes :=
  if cp <? 0x80 then [cp]
  else if cp <? 0x800 then [Z.lor 0xC0 (Z.shiftr cp 6); Z.lor 0x80 (Z.land cp 0x3F)]
  else if cp <? 0x10000 then
    [Z.lor 0xE0 (Z.shiftr cp 12); Z.lor 0x80 (Z.land (Z.shiftr cp 6) 0x3F); Z.lor 0x80 (Z.land cp 0x3F)]
  else if cp <? 0x110000 then
    [Z.lor 0xF0 (Z.shiftr cp 18); Z.lor 0x80 (Z.land (Z.shiftr cp 12) 0x3F);
     Z.lor 0x80 (Z.land (Z.shiftr cp 6) 0x3F); Z.lor 0x80 (Z.land cp 0x3F)]
  else [].

Definition hex_of (h : byte) : option Z :=
  if (48 <=? h) && (h <=? 57) then Some (h - 48)
  else if (97 <=? h) && (h <=? 102) then Some (h - 97 + 10)
  else if (65 <=? h) && (h <=? 70) then Some (h - 65 + 10)
  else None.

(** ** Numbers *)

Fixpoint digit_run (t : bytes) : nat := match t with c :: t => if is_digit c then S (digit_run t) else O | [] => O end.

Definition starts_digit (t : bytes) : bool := match t with c :: _ => is_digit c | [] => false end.

(** Where the C library stops reading a decimal number.  (The other forms it
    knows, hexadecimal numbers, infinities and NaNs, cannot be met here: the
    text has been checked to be a decimal number up to its end.) *)
Definition strtoll_end (t : bytes) : nat :=
  match t with 45 :: t => S (digit_run t) | t => digit_run t end.
Definition exp_end (t : bytes) : nat :=
  match t with
  | c :: t => if (c =? 101) || (c =? 69) then
                let sign := match t with s :: _ => if (s =? 43) || (s =? 45) then 1%nat else 0%nat | [] => 0%nat end in
                match digit_run (drop sign t) with O => O | n => (1 + sign + n)%nat end
              else O
  | [] => O
  end.
Definition strtod_end (t : bytes) : nat :=
  let w := strtoll_end t in
  let f := match drop w t with 46 :: r => S (digit_run r) | _ => O end in
  (w + f + exp_end (drop (w + f) t))%nat.

Definition strtoll (t : bytes) : Z :=
  match t with 45 :: t => - (read_digits 0 t).1 | t => (read_digits 0 t).1 end.

(** The grammar check of [try_parse_number]: whether the [len] bytes are a
    number, and a floating-point one. *)
Definition strip_minus (text : bytes) : bytes := match text with 45 :: p => p | p => p end.
Definition unsigned_shape (p : bytes) : option bool :=
  if negb (starts_digit p) then None else
  if match p with 48 :: d :: _ => is_digit d | _ => false end then None else
  let p := drop (digit_run p) p in
  let? (is_float, p) :=
    match p with
    | 46 :: p => if starts_digit p then Some (true, drop (digit_run p) p) else None
    | p => Some (false, p)
    end in
  let? (is_float, p) :=
    match p with
    | c :: p' => if (c =? 101) || (c =? 69) then
                   let p := match p' with s :: q => if (s =? 43) || (s =? 45) then q else p' | [] => p' end in
                   if starts_digit p then Some (true, drop (digit_run p) p) else None
                 else Some (is_float, p)
    | [] => Some (is_float, p)
    end in
  match p with [] => Some is_float | _ => None end.
Definition number_shape (text : bytes) : option bool := unsigned_shape (strip_minus text).

(** [tail] is the text from [start] on, [text] its first [len] bytes. *)
Definition try_parse_number (tail text : bytes) : option dval :=
  let? is_float := number_shape text in
  let len := length text in
  let dv := strtod tail in
  let float_ok := (strtod_end tail =? len)%nat && match decode64 dv with FFin _ _ _ => true | _ => false end in
  if is_float then if float_ok then Some (VFloat dv) else None
  else
    let iv := strtoll tail in
    let erange := negb ((- 2 ^ 63 <=? iv) && (iv <? 2 ^ 63)) in
    if (strtoll_end tail =? len)%nat && negb erange then Some (VInt iv)
    else if float_ok then Some (VFloat dv) else None.

Section Parser.

(** [g_scan], the padded copy [data] of the input and its length [len]. *)
Context (g_scan : Scanner) (data : bytes) (len : nat).

Definition out_of_fuel {A} : HM A := fun _ => HFuel.

(** ** [Reader] *)

Definition get_pos : HM nat := fun r => HRet (rpos r) r.
Definition set_pos (p : nat) : HM unit := fun r => HRet tt (mkReader p (rlive r)).
Definition advance (n : nat) : HM unit := fun r => HRet tt (mkReader (rpos r + n) (rlive r)).

(** [data[i]] *)
Definition at_ (i : nat) : HM byte := fun r => match data !! i with Some c => HRet c r | None => HUB end.
Definition cur : HM byte := p <- get_pos;; at_ p.

Definition peek : HM byte := p <- get_pos;; if (p <? len)%nat then at_ p else hret 0.
Definition next : HM byte := p <- get_pos;; if (p <? len)%nat then c <- at_ p;; advance 1;;; hret c else hret 0.
Definition peek_at (off : nat) : HM byte :=
  p <- get_pos;; if (p + off <? len)%nat then at_ (p + off) else hret 0.

(** A scanner called on [data + pos] with [len - pos] bytes; past the end the
    subtraction wraps around and the call would run off the buffer. *)
Definition call (f : bytes -> nat -> option nat) : HM nat := fun r =>
  if (len <? rpos r)%nat then HUB else
  match f (drop (rpos r) data) (len - rpos r)%nat with Some n => HRet n r | None => HUB end.

(** The body of a [/* */] comment. *)
Fixpoint block_comment (fuel : nat) : HM unit :=
  match fuel with
  | O => out_of_fuel
  | S fuel =>
      p <- get_pos;;
      if (p + 1 <? len)%nat then
        star <- call (fun b n => scan_find_char g_scan b n 42);; advance star;;;
        p <- get_pos;;
        closed <- (if (p + 1 <? len)%nat
                   then a <- at_ p;; b <- at_ (p + 1);; hret ((a =? 42) && (b =? 47)) else hret false);;
        if closed then advance 2
        else (if (p <? len)%nat then advance 1 else hret tt);;; block_comment fuel
      else hret tt
  end.

(** The rest of a line comment. *)
Definition line_comment : HM unit :=
  nl <- call (scan_find_newline g_scan);; advance nl;;;
  p <- get_pos;; if (p <? len)%nat then advance 1 else hret tt.

Fixpoint skip_ws_loop (fuel : nat) : HM unit :=
  match fuel with
  | O => out_of_fuel
  | S fuel =>
      p <- get_pos;;
      if (p <? len)%nat then
        adv <- call (scan_skip_ws g_scan);; advance adv;;;
        p <- get_pos;;
        if (len <=? p)%nat then hret tt else
        c <- at_ p;;
        if c =? 35 then advance 1;;; line_comment;;; skip_ws_loop fuel
        else if (c =? 47) && (p + 1 <? len)%nat then
          d <- at_ (p + 1);;
          if d =? 47 then advance 2;;; line_comment;;; skip_ws_loop fuel
          else if d =? 42 then advance 2;;; block_comment (S len);;; skip_ws_loop fuel
          else hret tt
        else hret tt
      else hret tt
  end.

Definition skip_ws : HM unit := skip_ws_loop (S len).

Definition skip_separator : HM unit :=
  skip_ws;;;
  p <- get_pos;;
  if (p <? len)%nat then
    c <- at_ p;; if c =? 44 then advance 1;;; skip_ws else hret tt
  else hret tt.

(** ** Nodes: [None] is [nullptr] *)

Definition make (v : dval) : HM (option dval) := fun r => HRet (Some v) (mkReader (rpos r) (rlive r + 1)).
Definition decref (v : dval) : HM unit := fun r => HRet tt (mkReader (rpos r) (rlive r - node_count v)).
Definition null : HM (option dval) := hret None.

(** The [n] bytes at [data + start], as far as the buffer goes. *)
Definition slice (start : nat) (n : Z) : bytes := take (Z.to_nat (Z.min n (Z.of_nat (length data)))) (drop start data).

(** [DataNode::MakeString(data + start, n)]: [n] may have wrapped around. *)
Definition make_string (start : nat) (n : Z) : HM (option dval) :=
  if n >? 2 ^ 63 - 1 then fun _ => HThrow
  else if Z.of_nat start + n >? Z.of_nat (length data) then fun _ => HUB
  else make (VString (slice start n)).

(** ** Strings: [None] is [false] *)

Definition parse_u_escape : HM (option Z) :=
  p <- get_pos;;
  if (len <? p + 4)%nat then hret None else
  a <- at_ p;; b <- at_ (p + 1);; c <- at_ (p + 2);; d <- at_ (p + 3);;
  match hex_of a, hex_of b, hex_of c, hex_of d with
  | Some a, Some b, Some c, Some d => advance 4;;; hret (Some (((a * 16 + b) * 16 + c) * 16 + d))
  | _, _, _, _ => hret None
  end.

(** The column of the opening quotes: how many characters before [i] on its line. *)
Fixpoint indent_before (i : nat) : HM nat :=
  match i with
  | O => hret O
  | S i => ch <- at_ i;;
           if (ch =? 10) || (ch =? 0) then hret O else n <- indent_before i;; hret (S n)
  end.

(** [r.data[r.pos] > 0 && r.data[r.pos] <= ' ' && r.data[r.pos] != '\n'] *)
Definition blank (c : byte) : bool := (0 <? sN 8 c) && (sN 8 c <=? 32) && negb (c =? 10).

Fixpoint skip_indent (skip : nat) : HM unit :=
  match skip with
  | O => hret tt
  | S skip =>
      p <- get_pos;;
      if (p <? len)%nat then c <- at_ p;; if blank c then advance 1;;; skip_indent skip else hret tt
      else hret tt
  end.

Fixpoint skip_blanks (fuel : nat) : HM unit :=
  match fuel with
  | O => out_of_fuel
  | S fuel =>
      p <- get_pos;;
      if (p <? len)%nat then c <- at_ p;; if blank c then advance 1;;; skip_blanks fuel else hret tt
      else hret tt
  end.

(** The main loop of [read_multiline_string]. *)
Fixpoint multiline_loop (indent fuel : nat) (out : bytes) (triple : nat) (lastLf : bool) : HM (option bytes) :=
  match fuel with
  | O => out_of_fuel
  | S fuel =>
      p <- get_pos;;
      if (p <? len)%nat then
        c <- at_ p;;
        if c =? 39 then
          advance 1;;;
          if (S triple =? 3)%nat then
            hret (Some (if lastLf && match last out with Some 10 => true | _ => false end then removelast out else out))
          else multiline_loop indent fuel out (S triple) lastLf
        else
          let out := out ++ replicate triple 39 in
          let lastLf := match triple with O => lastLf | S _ => false end in
          if c =? 10 then advance 1;;; skip_indent indent;;; multiline_loop indent fuel (out ++ [10]) 0 true
          else if c =? 13 then advance 1;;; multiline_loop indent fuel out 0 lastLf
          else advance 1;;; multiline_loop indent fuel (out ++ [c]) 0 false
      else hret None
  end.

Definition read_multiline_string : HM (option bytes) :=
  p <- get_pos;;
  indent <- indent_before (p - 3);;
  skip_blanks (S len);;;
  p <- get_pos;;
  (if (p <? len)%nat then c <- at_ p;; if c =? 10 then advance 1;;; skip_indent indent else hret tt else hret tt);;;
  multiline_loop indent (S len) [] 0 false.

Definition unescape (esc : byte) : option byte :=
  match esc with
  | 34 => Some 34 | 39 => Some 39 | 92 => Some 92 | 47 => Some 47 | 98 => Some 8 | 102 => Some 12
  | 110 => Some 10 | 114 => Some 13 | 116 => Some 9 | _ => None
  end.

(** The loop of [read_quoted_string]. *)
Fixpoint quoted_loop (quote : byte) (fuel : nat) (out : bytes) : HM (option bytes) :=
  match fuel with
  | O => out_of_fuel
  | S fuel =>
      p <- get_pos;;
      if (p <? len)%nat then
        run <- call (fun b n => scan_find_quote_special g_scan b n quote);;
        let out := out ++ take run (drop p data) in
        advance run;;;
        p <- get_pos;;
        if (len <=? p)%nat then hret None else
        c <- next;;
        if c =? quote then hret (Some out)
        else if (c =? 10) || (c =? 13) then hret None
        else if negb (c =? 92) then quoted_loop quote fuel (out ++ [c])
        else
          p <- get_pos;;
          if (len <=? p)%nat then hret None else
          esc <- next;;
          if esc =? 117 then
            cp <- parse_u_escape;;
            match cp with Some cp => quoted_loop quote fuel (out ++ utf8_encode cp) | None => hret None end
          else match unescape esc with Some x => quoted_loop quote fuel (out ++ [x]) | None => hret None end
      else hret None
  end.

Definition read_quoted_string (allowML : bool) : HM (option bytes) :=
  quote <- peek;;
  if negb (is_cc quote CC_QUOTE) then hret None else
  next;;;
  if is_cc quote CC_SQUOTE then
    a <- peek;; b <- peek_at 1;;
    if allowML && (a =? 39) && (b =? 39) then advance 2;;; read_multiline_string
    else if a =? 39 then next;;; hret (Some [])
    else quoted_loop quote (S len) []
  else quoted_loop quote (S len) [].

(** ** Keys *)

(** [firstSpace] is [int]: -1, or the low 32 bits of a position. *)
Fixpoint key_loop (keyStart fuel keyEnd : nat) (firstSpace : Z) : HM (option bytes) :=
  match fuel with
  | O => out_of_fuel
  | S fuel =>
      p <- get_pos;;
      if (p <? len)%nat then
        c <- at_ p;;
        if c =? 58 then
          if (keyEnd <=? keyStart)%nat then hret None
          else if (0 <=? firstSpace) && negb (firstSpace =? Z.of_nat keyEnd) then hret None
          else hret (Some (take (keyEnd - keyStart) (drop keyStart data)))
        else if sN 8 c <=? 32 then
          if c =? 0 then hret None
          else advance 1;;; key_loop keyStart fuel keyEnd (if firstSpace <? 0 then sN 32 (Z.of_nat p) else firstSpace)
        else if is_cc c CC_STRUCT then hret None
        else advance 1;;; key_loop keyStart fuel (S p) firstSpace
      else hret None
  end.

Definition read_unquoted_key : HM (option bytes) := p <- get_pos;; key_loop p (S len) p (-1).

Definition read_key : HM (option bytes) :=
  c <- peek;;
  if is_cc c CC_QUOTE then
    b <- peek_at 1;; d <- peek_at 2;;
    if is_cc c CC_SQUOTE && (b =? 39) && (d =? 39) then hret None
    else read_quoted_string false
  else read_unquoted_key.

(** ** Unquoted values *)

(** [n] is a [size_t] difference that may have wrapped around. *)
Definition try_parse_keyword_or_number (start : nat) (n : Z) : HM (option dval) :=
  if n =? 0 then null else
  let text := slice start n in
  if (n =? 4) && bytes_eqb text (str "true") then make (VBool true)
  else if (n =? 5) && bytes_eqb text (str "false") then make (VBool false)
  else if (n =? 4) && bytes_eqb text (str "null") then make VNull
  else
    c <- at_ start;;
    if (c =? 45) || is_digit c then
      if Z.of_nat start + n >? Z.of_nat (length data) then fun _ => HUB
      else match try_parse_number (drop start data) text with Some v => make v | None => null end
    else null.

Definition is_comment_start (p : nat) : HM bool :=
  c <- at_ p;;
  if is_cc c CC_HASH then hret true
  else if is_cc c CC_SLASH && (p + 1 <? len)%nat then d <- at_ (p + 1);; hret ((d =? 47) || (d =? 42))
  else hret false.

Definition size_diff (a b : nat) : Z := uN 64 (Z.of_nat a - Z.of_nat b).

Fixpoint value_loop (valStart fuel valEnd : nat) : HM (option dval) :=
  match fuel with
  | O => out_of_fuel
  | S fuel =>
      let finish :=
        let valLen := size_diff valEnd valStart in
        if valLen =? 0 then null else
        kw <- try_parse_keyword_or_number valStart valLen;;
        match kw with Some v => hret (Some v) | None => make_string valStart valLen end in
      p <- get_pos;;
      if (len <=? p)%nat then finish else
      c <- at_ p;;
      if is_cc c CC_NL then finish else
      com <- is_comment_start p;;
      let isBreak := (c =? 44) || (c =? 125) || (c =? 93) || com in
      kw <- (if isBreak then try_parse_keyword_or_number valStart (size_diff valEnd valStart) else null);;
      match kw with
      | Some v => hret (Some v)
      | None => advance 1;;; value_loop valStart fuel (if c >? 32 then S p else valEnd)
      end
  end.

Definition read_unquoted_value : HM (option dval) :=
  first <- peek;;
  if is_cc first CC_STRUCT then null else
  p <- get_pos;;
  value_loop (if (sN 8 first <=? 32) && (0 <? sN 8 first) then S p else p) (S len) p.

(** ** Containers *)

(** [ObjInsert]: the old value of the key is released. *)
Definition obj_insert (k : bytes) (v : dval) (kvs : list (bytes * dval)) : HM (list (bytes * dval)) :=
  match find_key k kvs with
  | Some old => decref old;;; hret (set_key k v kvs)
  | None => hret (set_key k v kvs)
  end.

Section Level.

(** [read_value(r, depth + 1)] *)
Context (read_child : HM (option dval)).

(** [DataNode::Decref(obj); return nullptr;] *)
Definition drop_null (v : dval) : HM (option dval) := decref v;;; null.

Fixpoint object_loop (braced : bool) (fuel : nat) (acc : list (bytes * dval)) : HM (option dval) :=
  match fuel with
  | O => out_of_fuel
  | S fuel =>
      p <- get_pos;;
      more <- (if (p <? len)%nat then if braced then c <- at_ p;; hret (negb (c =? 125)) else hret true else hret false);;
      if more : bool then
        key <- read_key;;
        match key with
        | None => drop_null (VObject acc)
        | Some key =>
            skip_ws;;;
            c <- peek;;
            if negb (c =? 58) then drop_null (VObject acc) else
            advance 1;;; skip_ws;;;
            val <- read_child;;
            match val with
            | None => drop_null (VObject acc)
            | Some val => acc <- obj_insert key val acc;; skip_separator;;; object_loop braced fuel acc
            end
        end
      else if braced then
        closed <- (if (len <=? p)%nat then hret false else c <- at_ p;; hret (c =? 125));;
        if closed : bool then advance 1;;; hret (Some (VObject acc)) else drop_null (VObject acc)
      else hret (Some (VObject acc))
  end.

Definition read_object (braced : bool) : HM (option dval) :=
  make (VObject []);;; skip_ws;;; object_loop braced (S len) [].

Fixpoint array_loop (fuel : nat) (acc : list dval) : HM (option dval) :=
  match fuel with
  | O => out_of_fuel
  | S fuel =>
      p <- get_pos;;
      more <- (if (p <? len)%nat then c <- at_ p;; hret (negb (c =? 93)) else hret false);;
      if more : bool then
        val <- read_child;;
        match val with
        | None => drop_null (VArray acc)
        | Some val => skip_separator;;; array_loop fuel (acc ++ [val])
        end
      else
        closed <- (if (len <=? p)%nat then hret false else c <- at_ p;; hret (c =? 93));;
        if closed : bool then advance 1;;; hret (Some (VArray acc)) else drop_null (VArray acc)
  end.

Definition read_array : HM (option dval) := make (VArray []);;; skip_ws;;; array_loop (S len) [].

(** [read_value] after the depth test. *)
Definition read_value_body : HM (option dval) :=
  skip_ws;;;
  p <- get_pos;;
  if (len <=? p)%nat then null else
  c <- at_ p;;
  if c =? 123 then advance 1;;; read_object true
  else if c =? 91 then advance 1;;; read_array
  else if is_cc c CC_QUOTE then
    s <- read_quoted_string true;; match s with Some s => make (VString s) | None => null end
  else read_unquoted_value.

End Level.

(** [read_value(r, depth)] with [levels = kMaxDepth + 1 - depth]. *)
Fixpoint read_value (levels : nat) : HM (option dval) :=
  match levels with O => null | S levels => read_value_body (read_value levels) end.

(** [r.skip_ws(); if (r.pos < r.len) { Decref(result); return nullptr; } return result;] *)
Definition whole_input (result : option dval) : HM (option dval) :=
  match result with
  | None => null
  | Some v => skip_ws;;; p <- get_pos;; if (p <? len)%nat then drop_null v else hret (Some v)
  end.

Definition parse_root : HM (option dval) :=
  let top := read_value (S kMaxDepth) in
  skip_ws;;;
  p <- get_pos;;
  if (len <=? p)%nat then null else
  c <- at_ p;;
  if c =? 91 then v <- top;; whole_input v
  else if negb (c =? 123) then
    obj <- read_object (read_value kMaxDepth) false;;
    obj <- whole_input obj;;
    match obj with
    | Some v => hret (Some v)
    | None => set_pos 0;;; skip_ws;;; v <- top;; whole_input v
    end
  else v <- top;; whole_input v.

End Parser.

(** The input copied into a buffer with zero padding. *)
Definition padded (input : bytes) : bytes := input ++ replicate kPadding 0.

(** [HjsonParse], with the number of nodes it leaves allocated. *)
Definition HjsonParse (g_scan : Scanner) (input : bytes) : hres (option dval) :=
  match input with
  | [] => HRet None (mkReader 0 0)
  | _ => parse_root g_scan (padded input) (length input) (mkReader 0 0)
  end.

(** ** Examples *)

Definition value_of {A} (r : hres A) : option A := match r with HRet a _ => Some a | _ => None end.

Example hjson_1 : value_of (HjsonParse avx2_scanner (str "{a: 1, 'b': [true, x y # c
 2.5], /* k */ c: '''  q''' }")) =
  Some (Some (VObject [(str "a", VInt 1); (str "b", VArray [VBool true; VString (str "x y # c"); VFloat (int_to_f64 5 - 2 ^ 52)]);
                       (str "c", VString (str "q"))])).
Proof. vm_compute. reflexivity. Qed.

Example hjson_2 : value_of (HjsonParse scalar_scanner (str "k: v
n: -12")) = Some (Some (VObject [(str "k", VString (str "v")); (str "n", VInt (-12))])).
Proof. vm_compute. reflexivity. Qed.

(** A control character alone. *)
Example hjson_control : HjsonParse scalar_scanner [1] = HThrow.
Proof. vm_compute. reflexivity. Qed.
