(* ===== verification/HjsonSafe.v ===== *)
(** * The Hjson parser: the two scanners, memory safety, termination

    The parser behaves the same with either family of scanners.  On every input
    it returns without reading outside the padded buffer and without leaking a
    node; only an unquoted value made of control characters makes it throw. *)

From stdpp Require Import base numbers list.
From Stdlib Require Import ZArith Lia.
From S2P Require Import Prelude DataValue Float Text MsgPack HjsonScan Hjson.

#[local] Open Scope hjson_scope.

(** ** Equal computations *)

Definition heq {A} (m m' : HM A) : Prop := forall r, m r = m' r.
#[local] Infix "≈" := heq (at level 70).

#[export] Instance heq_equivalence {A} : Equivalence (heq (A := A)).
Proof. split; [by intros m r|by intros m m' H r|]. intros m1 m2 m3 H1 H2 r. by rewrite H1. Qed.

#[export] Instance hbind_proper {A B} : Proper (heq ==> pointwise_relation A heq ==> heq) (hbind (A := A) (B := B)).
Proof. intros m m' Hm k k' Hk r. unfold hbind. rewrite Hm. destruct (m' r) as [a r'| | |]; try done. apply Hk. Qed.

Section Agree.

Context (g : Scanner) {Hg : ScannerOk g} (input : bytes) (Hbytes : Forall is_byte input).

#[local] Notation data := (padded input).
#[local] Notation len := (length input).

Lemma padded_bytes : Forall is_byte data.
Proof using Hbytes. unfold padded. apply Forall_app. split; [done|]. apply Forall_replicate. unfold is_byte. lia. Qed.

Lemma length_padded : length data = (len + 64)%nat.
Proof. unfold padded. by rewrite length_app, length_replicate. Qed.

Lemma call_agree (f f' : bytes -> nat -> option nat) :
  (forall buf n, Forall is_byte buf -> (n + 32 <= length buf)%nat -> f buf n = f' buf n) ->
  call data len f ≈ call data len f'.
Proof using Hbytes.
  intros H r. unfold call. destruct (Nat.ltb_spec len (rpos r)); [done|].
  rewrite H; [done|apply Forall_drop, padded_bytes|]. rewrite length_drop, length_padded. lia.
Qed.

(** Two programs of the same shape. *)
Ltac agree_step := lazymatch goal with
  | |- ?m ≈ ?m => reflexivity
  | |- hbind _ _ ≈ hbind _ _ => apply hbind_proper; [|intros ?; cbv beta]
  | |- call _ _ _ ≈ call _ _ _ => apply call_agree; intros;
      first [by apply ok_skip_ws|by apply ok_find_quote|by apply ok_find_newline|by apply ok_find_char]
  | |- (match ?e with _ => _ end) ≈ _ => destruct e
  | _ => match goal with H : _ |- _ => simple apply H end
  end.
Ltac agree := repeat agree_step.

#[local] Notation s := scalar_scanner.

Lemma block_comment_agree fuel : block_comment g data len fuel ≈ block_comment s data len fuel.
Proof using Hg Hbytes. induction fuel as [|fuel IH]; cbn [block_comment]; agree. Qed.

Lemma line_comment_agree : line_comment g data len ≈ line_comment s data len.
Proof using Hg Hbytes. unfold line_comment. agree. Qed.

Lemma skip_ws_loop_agree fuel : skip_ws_loop g data len fuel ≈ skip_ws_loop s data len fuel.
Proof using Hg Hbytes.
  pose proof line_comment_agree. pose proof block_comment_agree.
  induction fuel as [|fuel IH]; cbn [skip_ws_loop]; agree.
Qed.

Lemma parser_skip_ws_agree : skip_ws g data len ≈ skip_ws s data len.
Proof using Hg Hbytes. apply skip_ws_loop_agree. Qed.

Lemma skip_separator_agree : skip_separator g data len ≈ skip_separator s data len.
Proof using Hg Hbytes. pose proof parser_skip_ws_agree. unfold skip_separator. agree. Qed.

Lemma quoted_loop_agree quote fuel : forall out, quoted_loop g data len quote fuel out ≈ quoted_loop s data len quote fuel out.
Proof using Hg Hbytes. induction fuel as [|fuel IH]; intros out; cbn [quoted_loop]; agree. Qed.

Lemma read_quoted_string_agree ml : read_quoted_string g data len ml ≈ read_quoted_string s data len ml.
Proof using Hg Hbytes. pose proof quoted_loop_agree. unfold read_quoted_string. agree. Qed.

Lemma read_key_agree : read_key g data len ≈ read_key s data len.
Proof using Hg Hbytes. pose proof read_quoted_string_agree. unfold read_key. agree. Qed.

Section Level.

Context (c c' : HM (option dval)) (Hc : c ≈ c').

Lemma object_loop_agree braced fuel : forall acc, object_loop g data len c braced fuel acc ≈ object_loop s data len c' braced fuel acc.
Proof using Hg Hbytes Hc.
  pose proof read_key_agree. pose proof parser_skip_ws_agree. pose proof skip_separator_agree.
  induction fuel as [|fuel IH]; intros acc; cbn [object_loop]; agree.
Qed.

Lemma read_object_agree braced : read_object g data len c braced ≈ read_object s data len c' braced.
Proof using Hg Hbytes Hc. pose proof parser_skip_ws_agree. pose proof object_loop_agree. unfold read_object. agree. Qed.

Lemma array_loop_agree fuel : forall acc, array_loop g data len c fuel acc ≈ array_loop s data len c' fuel acc.
Proof using Hg Hbytes Hc.
  pose proof skip_separator_agree. induction fuel as [|fuel IH]; intros acc; cbn [array_loop]; agree.
Qed.

Lemma read_array_agree : read_array g data len c ≈ read_array s data len c'.
Proof using Hg Hbytes Hc. pose proof parser_skip_ws_agree. pose proof array_loop_agree. unfold read_array. agree. Qed.

Lemma read_value_body_agree : read_value_body g data len c ≈ read_value_body s data len c'.
Proof using Hg Hbytes Hc.
  pose proof parser_skip_ws_agree. pose proof read_object_agree. pose proof read_array_agree. pose proof read_quoted_string_agree.
  unfold read_value_body. agree.
Qed.

End Level.

Lemma read_value_agree levels : read_value g data len levels ≈ read_value s data len levels.
Proof using Hg Hbytes. induction levels as [|levels IH]; cbn [read_value]; [done|]. by apply read_value_body_agree. Qed.

Lemma whole_input_agree v : whole_input g data len v ≈ whole_input s data len v.
Proof using Hg Hbytes. pose proof parser_skip_ws_agree. unfold whole_input. agree. Qed.

Lemma parse_root_agree : parse_root g data len ≈ parse_root s data len.
Proof using Hg Hbytes.
  pose proof parser_skip_ws_agree. pose proof whole_input_agree. pose proof read_value_agree.
  pose proof (read_object_agree _ _ (read_value_agree kMaxDepth)).
  unfold parse_root. cbv zeta. agree.
Qed.

End Agree.

(** C19: The vectorised scanners do not change what is parsed: with the AVX2
    functions, whose loads run up to 31 bytes past the end of the input into
    the padding, the parser gives the result it gives with the byte-by-byte
    ones, on every input. *)
Theorem HjsonParse_simd_equiv (no_simd has_avx2 : bool) (input : bytes) : Forall is_byte input ->
  HjsonParse (init_scanner no_simd has_avx2) input = HjsonParse scalar_scanner input.
Proof. intros Hb. unfold HjsonParse. destruct input as [|b input]; [done|]. by apply parse_root_agree; [apply _|]. Qed.

Lemma HjsonParse_simd_equiv_witness :
  HjsonParse (init_scanner false true) (str "[1, 'two']") = HjsonParse scalar_scanner (str "[1, 'two']").
Proof.
  apply (HjsonParse_simd_equiv false true (str "[1, 'two']")).
  apply (bool_decide_eq_true_1 (Forall (fun b => 0 <= b < 256) (str "[1, 'two']"))). vm_compute. reflexivity.
Defined.

(** ** Memory safety, termination and accounting *)

(** The bytes that cannot make the parser throw: no control characters but the
    white space (and NUL). *)
Definition plain_byte (c : byte) : Prop := c = 0 \/ c = 9 \/ c = 10 \/ c = 13 \/ 32 <= c.

Section Safe.

Context (input : bytes) (Hbytes : Forall is_byte input) (Hsize : Z.of_nat (length input) < 2 ^ 62).

#[local] Notation g := scalar_scanner.
#[local] Notation data := (padded input).
#[local] Notation len := (length input).

(** [m] returns with [Q], or throws and the input has a control character. *)
Definition wp {A} (m : HM A) (Q : A -> reader -> Prop) (r : reader) : Prop :=
  match m r with HRet a r => Q a r | HThrow => ~ Forall plain_byte input | HUB | HFuel => False end.

Lemma hwp_bind {A B} (m : HM A) (k : A -> HM B) Q r : wp m (fun a r => wp (k a) Q r) r -> wp (hbind m k) Q r.
Proof. unfold wp, hbind. by destruct (m r). Qed.

Lemma hwp_mono {A} (m : HM A) (Q R : A -> reader -> Prop) r : wp m Q r -> (forall a r, Q a r -> R a r) -> wp m R r.
Proof. unfold wp. destruct (m r); auto. Qed.

Lemma data_byte i c : data !! i = Some c -> is_byte c.
Proof using Hbytes. intros H. pose proof (padded_bytes input Hbytes) as HF. rewrite Forall_lookup in HF. by eapply HF. Qed.

Lemma wp_at i (Q : byte -> reader -> Prop) r : (i < len + 64)%nat -> (forall c, data !! i = Some c -> Q c r) -> wp (at_ data i) Q r.
Proof.
  intros Hi HQ. unfold wp, at_. destruct (data !! i) as [c|] eqn:E; [by apply HQ|].
  apply lookup_ge_None in E. rewrite length_padded in E. lia.
Qed.

(** A scan finds some number of the bytes that are left. *)
Lemma scan_total stop buf n : (n <= length buf)%nat -> exists i, scan stop buf n = Some i /\ (i <= n)%nat /\
  forall c, (i < n)%nat -> buf !! i = Some c -> stop c = true.
Proof.
  revert n. induction buf as [|c buf IH]; intros [|n] Hn; cbn [scan length] in *; try (by exists 0%nat; split_and!; [|lia|lia]); [lia|].
  destruct (stop c) eqn:E; [exists 0%nat; split_and!; [done|lia|by intros ? _ [= <-]]|].
  destruct (IH n) as (i & -> & Hi & Hs); [lia|]. exists (S i). split_and!; [done|lia|]. intros d Hd. apply Hs. lia.
Qed.

Lemma wp_scan_stop (f : bytes -> nat -> option nat) stop p l (Q : nat -> reader -> Prop) :
  (forall b n, f b n = scan stop b n) -> (p <= len)%nat ->
  (forall n, (p + n <= len)%nat -> (forall c, (p + n < len)%nat -> data !! (p + n)%nat = Some c -> stop c = true) ->
     Q n (mkReader p l)) ->
  wp (call data len f) Q (mkReader p l).
Proof.
  intros Hf Hp HQ. unfold wp, call. cbn [rpos]. destruct (Nat.ltb_spec len p); [lia|]. rewrite Hf.
  destruct (scan_total stop (drop p data) (len - p)) as (i & -> & Hi & Hs); [rewrite length_drop, length_padded; lia|].
  apply HQ; [lia|]. intros c Hlt Hc. apply Hs; [lia|]. by rewrite lookup_drop.
Qed.

Lemma wp_scan (f : bytes -> nat -> option nat) stop p l (Q : nat -> reader -> Prop) :
  (forall b n, f b n = scan stop b n) -> (p <= len)%nat -> (forall n, (p + n <= len)%nat -> Q n (mkReader p l)) ->
  wp (call data len f) Q (mkReader p l).
Proof. intros Hf Hp HQ. eapply wp_scan_stop; [done|done|]. intros n Hn _. by apply HQ. Qed.

(** Case analysis on the tests of the source. *)
Ltac test e := lazymatch e with
  | (?a <? ?b)%nat => destruct (Nat.ltb_spec a b)
  | (?a <=? ?b)%nat => destruct (Nat.leb_spec a b)
  | (?a =? ?b)%nat => destruct (Nat.eqb_spec a b)
  | ?a && ?b => let E := fresh "E" in destruct a eqn:E; cbn [andb]; [try test b|]
  | _ => destruct e eqn:?
  end.

Ltac hstep := cbv beta iota; lazymatch goal with
  | |- wp (hbind _ _) _ _ => apply hwp_bind
  | |- wp get_pos _ _ => unfold wp at 1; cbn [get_pos rpos rlive]
  | |- wp (hret _) _ _ => unfold wp at 1; cbn [hret]
  | |- wp null _ _ => unfold wp at 1; cbn [null hret]
  | |- wp (advance _) _ _ => unfold wp at 1; cbn [advance rpos rlive]
  | |- wp (set_pos _) _ _ => unfold wp at 1; cbn [set_pos rpos rlive]
  | |- wp (make _) _ _ => unfold wp at 1; cbn [make rpos rlive]
  | |- wp (decref _) _ _ => unfold wp at 1; cbn [decref rpos rlive]
  | |- wp (at_ _ _) _ _ => apply wp_at; [lia|intros ? ?]
  | |- wp (call _ _ _) _ _ => eapply wp_scan; [intros; reflexivity|lia|intros ? ?]
  | |- wp (match ?e with _ => _ end) _ _ => test e
  | |- (forall _, _) => intros
  | |- let _ := _ in _ => cbv zeta
  end.
Ltac hsteps := repeat hstep.

(** *** White space *)

Lemma block_comment_wp fuel p l (Q : unit -> reader -> Prop) : (p <= len)%nat -> (len < p + fuel)%nat ->
  (forall p', (p <= p' <= len)%nat -> Q tt (mkReader p' l)) -> wp (block_comment g data len fuel) Q (mkReader p l).
Proof.
  revert p. induction fuel as [|fuel IH]; intros p Hp Hf HQ; [lia|]. cbn [block_comment].
  hsteps; first [apply HQ; lia|apply IH; [lia|lia|]; intros; apply HQ; lia].
Qed.

Lemma line_comment_wp p l (Q : unit -> reader -> Prop) : (p <= len)%nat ->
  (forall p', (p <= p' <= len)%nat -> Q tt (mkReader p' l)) -> wp (line_comment g data len) Q (mkReader p l).
Proof. intros Hp HQ. unfold line_comment. hsteps; apply HQ; lia. Qed.

(** White space is skipped up to a byte that is none. *)
Definition no_ws_at (p : nat) : Prop := forall c, (p < len)%nat -> data !! p = Some c -> is_cc c CC_WS = false.

Lemma skip_ws_loop_wp fuel p l (Q : unit -> reader -> Prop) : (p <= len)%nat -> (len < p + fuel)%nat ->
  (forall p', (p <= p' <= len)%nat -> no_ws_at p' -> Q tt (mkReader p' l)) -> wp (skip_ws_loop g data len fuel) Q (mkReader p l).
Proof.
  revert p. induction fuel as [|fuel IH]; intros p Hp Hf HQ; [lia|]. cbn [skip_ws_loop]. do 2 hstep.
  test (p <? len)%nat; [|hstep; apply HQ; [lia|intros c ?; lia]].
  hstep. eapply wp_scan_stop; [intros; reflexivity|lia|]. intros n Hn Hstop.
  assert (no_ws_at (p + n)) as Hws by (intros c Hlt Hc; by apply negb_true_iff, (Hstop c Hlt Hc)).
  hsteps; first [apply HQ; [lia|done]
    |apply line_comment_wp; [lia|]; intros; apply IH; [lia|lia|]; intros; apply HQ; [lia|done]
    |apply block_comment_wp; [lia|lia|]; intros; apply IH; [lia|lia|]; intros; apply HQ; [lia|done]].
Qed.

Lemma skip_ws_stops p l (Q : unit -> reader -> Prop) : (p <= len)%nat ->
  (forall p', (p <= p' <= len)%nat -> no_ws_at p' -> Q tt (mkReader p' l)) -> wp (skip_ws g data len) Q (mkReader p l).
Proof. intros Hp HQ. apply skip_ws_loop_wp; [done|lia|done]. Qed.

Lemma skip_ws_wp p l (Q : unit -> reader -> Prop) : (p <= len)%nat ->
  (forall p', (p <= p' <= len)%nat -> Q tt (mkReader p' l)) -> wp (skip_ws g data len) Q (mkReader p l).
Proof. intros Hp HQ. apply skip_ws_stops; [done|]. intros p' Hp' _. by apply HQ. Qed.

Lemma skip_separator_wp p l (Q : unit -> reader -> Prop) : (p <= len)%nat ->
  (forall p', (p <= p' <= len)%nat -> Q tt (mkReader p' l)) -> wp (skip_separator g data len) Q (mkReader p l).
Proof.
  intros Hp HQ. unfold skip_separator. hstep. apply skip_ws_wp; [done|]. intros. hsteps; try (apply HQ; lia).
  apply skip_ws_wp; [lia|]. intros. apply HQ. lia.
Qed.

(** What is peeked at is a byte of the input, or 0. *)
Lemma peek_at_wp off p l (Q : byte -> reader -> Prop) : (p <= len)%nat ->
  (forall c, is_byte c -> (c <> 0 -> (p + off < len)%nat /\ data !! (p + off)%nat = Some c) -> Q c (mkReader p l)) ->
  wp (peek_at data len off) Q (mkReader p l).
Proof using Hbytes.
  intros Hp HQ. unfold peek_at. hsteps; apply HQ; try done; try (unfold is_byte; lia). by eapply data_byte.
Qed.

Lemma peek_wp p l (Q : byte -> reader -> Prop) : (p <= len)%nat ->
  (forall c, is_byte c -> (c <> 0 -> (p < len)%nat /\ data !! p = Some c) -> Q c (mkReader p l)) ->
  wp (peek data len) Q (mkReader p l).
Proof using Hbytes.
  intros Hp HQ. unfold peek. hsteps; apply HQ; try done; try (unfold is_byte; lia). by eapply data_byte.
Qed.

(** [next] inside the input. *)
Lemma next_wp p l (Q : byte -> reader -> Prop) : (p < len)%nat -> (forall c, Q c (mkReader (p + 1) l)) ->
  wp (next data len) Q (mkReader p l).
Proof. intros Hp HQ. unfold next. hsteps; [apply HQ|lia]. Qed.

(** *** Strings *)

(** The position only grows and the nodes stay. *)
Definition moves {A} (m : HM A) : Prop := forall p l, (p <= len)%nat ->
  wp m (fun _ r => (p <= rpos r <= len)%nat /\ rlive r = l) (mkReader p l).

Lemma moves_wp {A} (m : HM A) p l (Q : A -> reader -> Prop) : moves m -> (p <= len)%nat ->
  (forall a p', (p <= p' <= len)%nat -> Q a (mkReader p' l)) -> wp m Q (mkReader p l).
Proof.
  intros Hm Hp HQ. eapply hwp_mono; [by apply Hm|]. intros a [p' l'] [H1 H2]. cbn [rpos rlive] in *. subst l'. by apply HQ.
Qed.

Ltac moved := cbn [rpos rlive]; split; [lia|done].

Lemma parse_u_escape_moves : moves (parse_u_escape data len).
Proof.
  intros p l Hp. unfold parse_u_escape. hsteps; moved.
Qed.

Lemma indent_before_wp i p l (Q : nat -> reader -> Prop) : (i <= len)%nat -> (forall n, Q n (mkReader p l)) ->
  wp (indent_before data i) Q (mkReader p l).
Proof.
  revert Q. induction i as [|i IH]; intros Q Hi HQ; cbn [indent_before]; hsteps; try apply HQ. apply IH; [lia|]. intros. hsteps. apply HQ.
Qed.

Lemma skip_indent_moves skip : moves (skip_indent data len skip).
Proof.
  induction skip as [|skip IH]; intros p l Hp; cbn [skip_indent]; hsteps; try moved.
  apply moves_wp; [done|lia|]. intros. moved.
Qed.

Lemma skip_blanks_wp fuel p l (Q : unit -> reader -> Prop) : (p <= len)%nat -> (len < p + fuel)%nat ->
  (forall p', (p <= p' <= len)%nat -> Q tt (mkReader p' l)) -> wp (skip_blanks data len fuel) Q (mkReader p l).
Proof.
  revert p. induction fuel as [|fuel IH]; intros p Hp Hf HQ; [lia|]. cbn [skip_blanks].
  hsteps; first [apply HQ; lia|apply IH; [lia|lia|]; intros; apply HQ; lia].
Qed.

Lemma multiline_loop_wp indent fuel : forall out triple lastLf p l (Q : option bytes -> reader -> Prop),
  (p <= len)%nat -> (len < p + fuel)%nat -> (forall a p', (p <= p' <= len)%nat -> Q a (mkReader p' l)) ->
  wp (multiline_loop data len indent fuel out triple lastLf) Q (mkReader p l).
Proof.
  induction fuel as [|fuel IH]; intros out triple lastLf p l Q Hp Hf HQ; [lia|]. cbn [multiline_loop]. cbv zeta.
  hsteps; first [apply HQ; lia|apply IH; [lia|lia|]; intros; apply HQ; lia
    |apply moves_wp; [apply skip_indent_moves|lia|]; intros; apply IH; [lia|lia|]; intros; apply HQ; lia].
Qed.

Lemma read_multiline_string_moves : moves (read_multiline_string data len).
Proof.
  intros p l Hp. unfold read_multiline_string. hsteps. apply indent_before_wp; [lia|]. intros indent. hstep.
  apply skip_blanks_wp; [lia|lia|]. intros p1 Hp1. hsteps.
  all: try (apply moves_wp; [apply skip_indent_moves|lia|]; intros).
  all: apply multiline_loop_wp; [lia|lia|]; intros; moved.
Qed.

Lemma quoted_loop_wp quote fuel : forall out p l (Q : option bytes -> reader -> Prop),
  (p <= len)%nat -> (len < p + fuel)%nat -> (forall a p', (p <= p' <= len)%nat -> Q a (mkReader p' l)) ->
  wp (quoted_loop g data len quote fuel out) Q (mkReader p l).
Proof.
  induction fuel as [|fuel IH]; intros out p l Q Hp Hf HQ; [lia|]. cbn [quoted_loop]. cbv zeta.
  hsteps; try (apply HQ; lia). apply next_wp; [lia|]. intros c. hsteps; try (apply HQ; lia).
  - apply IH; [lia|lia|]. intros. apply HQ. lia.
  - apply next_wp; [lia|]. intros esc. hsteps; try (apply HQ; lia).
    + apply moves_wp; [apply parse_u_escape_moves|lia|]. intros [cp|] p' Hp'; [|hsteps; apply HQ; lia].
      apply IH; [lia|lia|]. intros. apply HQ. lia.
    + apply IH; [lia|lia|]. intros. apply HQ. lia.
Qed.

Lemma quoted_loop_moves quote : moves (quoted_loop g data len quote (S len) []).
Proof. intros p l Hp. apply quoted_loop_wp; [done|lia|]. intros. moved. Qed.

(** A string is read from its quote on, so something is consumed. *)
Lemma read_quoted_string_wp ml p l (Q : option bytes -> reader -> Prop) : (p <= len)%nat ->
  (forall a p', (p <= p' <= len)%nat -> (is_Some a -> p < p')%nat -> Q a (mkReader p' l)) ->
  wp (read_quoted_string g data len ml) Q (mkReader p l).
Proof.
  intros Hp HQ. unfold read_quoted_string. hstep. apply peek_wp; [done|]. intros c Hc Hc0.
  assert (is_cc c CC_QUOTE = true -> (p < len)%nat) as Hlt.
  { destruct (Z.eq_dec c 0) as [->|Hne]; [done|]. intros _. by apply Hc0. }
  hsteps; try (apply HQ; [lia|by intros [? ?]]); zbool; specialize (Hlt ltac:(done)); apply next_wp; try done; intros _; hsteps.
  - apply peek_wp; [lia|]. intros a _ Ha. hsteps. apply peek_at_wp; [lia|]. intros b _ Hb.
    hsteps; zbool; subst; try (apply moves_wp; [apply quoted_loop_moves|lia|]; intros; apply HQ; [lia|intros; lia]).
    + apply moves_wp; [apply read_multiline_string_moves|destruct Hb; lia|]. intros. apply HQ; [lia|intros; lia].
    + apply next_wp; [destruct Ha; lia|]. intros _. hsteps. apply HQ; [destruct Ha; lia|intros; lia].
    + apply next_wp; [destruct Ha; lia|]. intros _. hsteps. apply HQ; [destruct Ha; lia|intros; lia].
  - apply moves_wp; [apply quoted_loop_moves|lia|]. intros. apply HQ; [lia|intros; lia].
Qed.

(** *** Keys *)

Lemma key_loop_wp keyStart fuel : forall keyEnd firstSpace p l (Q : option bytes -> reader -> Prop),
  (p <= len)%nat -> (len < p + fuel)%nat -> (forall a p', (p <= p' <= len)%nat -> Q a (mkReader p' l)) ->
  wp (key_loop data len keyStart fuel keyEnd firstSpace) Q (mkReader p l).
Proof.
  induction fuel as [|fuel IH]; intros keyEnd firstSpace p l Q Hp Hf HQ; [lia|]. cbn [key_loop].
  hsteps; first [apply HQ; lia|apply IH; [lia|lia|]; intros; apply HQ; lia].
Qed.

Lemma read_key_moves : moves (read_key g data len).
Proof using Hbytes.
  intros p l Hp. unfold read_key. hstep. apply peek_wp; [done|]. intros c _ _. hsteps.
  - apply peek_at_wp; [lia|]. intros b _ _. hsteps. apply peek_at_wp; [lia|]. intros d _ _.
    hsteps; try moved; apply read_quoted_string_wp; [lia| |lia|]; intros; moved.
  - unfold read_unquoted_key. hsteps. apply key_loop_wp; [lia|lia|]. intros. moved.
Qed.

(** *** Unquoted values *)

Definition number_start (c : byte) : bool := (c =? 45) || is_digit c.

Lemma try_parse_number_leaf tail text v : try_parse_number tail text = Some v -> node_count v = 1.
Proof.
  unfold try_parse_number. destruct (number_shape text) as [[|]|]; [| |done]; cbv zeta;
    repeat (case_scrut; try done); by intros [= <-].
Qed.

(** [n] is a length inside the buffer, or it has wrapped around and [start] is
    not at a number. *)
Lemma try_parse_wp start n p l (Q : option dval -> reader -> Prop) : (start < len + 64)%nat ->
  (0 <= n /\ Z.of_nat start + n <= Z.of_nat len \/
   5 < n /\ forall c, data !! start = Some c -> number_start c = false) ->
  Q None (mkReader p l) -> (forall v, 0 < n -> Z.of_nat start + n <= Z.of_nat len -> node_count v = 1 -> Q (Some v) (mkReader p (l + 1))) ->
  wp (try_parse_keyword_or_number data start n) Q (mkReader p l).
Proof.
  intros Hs Hn HN HS. unfold try_parse_keyword_or_number. cbv zeta.
  destruct (Z.eqb_spec n 0) as [->|Hn0]; [by hsteps|].
  do 3 (lazymatch goal with |- wp (if ?b then _ else _) _ _ => let E := fresh "E" in destruct b eqn:E;
        [apply andb_prop in E as [E _]; apply Z.eqb_eq in E; hstep; apply HS; [lia|lia|done]|] end).
  hstep. apply wp_at; [done|]. intros c Hc. fold (number_start c). destruct (number_start c) eqn:Ec; [|by hsteps].
  destruct Hn as [Hn|[_ Hn]]; [|by rewrite (Hn c Hc) in Ec].
  rewrite length_padded. destruct (Z.of_nat start + n >? Z.of_nat (len + 64)) eqn:E4; [apply Z.gtb_lt in E4; lia|].
  destruct (try_parse_number _ _) as [v|] eqn:Ev; hsteps; [|done]. apply HS; [lia|lia|by eapply try_parse_number_leaf].
Qed.

Lemma is_comment_start_wp p l (Q : bool -> reader -> Prop) : (p < len)%nat ->
  (forall b, (b = true -> forall c, data !! p = Some c -> c = 35 \/ c = 47) -> Q b (mkReader p l)) ->
  wp (is_comment_start data len p) Q (mkReader p l).
Proof using Hbytes.
  intros Hp HQ. unfold is_comment_start. hstep. apply wp_at; [lia|]. intros c Hc.
  destruct (cc_table c (data_byte p c Hc)) as (_ & _ & _ & _ & -> & -> & _). unfold one_of. cbn [existsb]. rewrite !orb_false_r.
  hsteps; apply HQ; try done; intros _ c' Hc'; replace c' with c by congruence; zbool; lia.
Qed.

(** [first] was a control character: the value starts after it, and nothing but
    blanks has been seen since. *)
Definition blank_value (p0 p : nat) : Prop :=
  (p0 < len)%nat /\ (exists c, data !! p0 = Some c /\ 0 < c <= 32 /\ is_cc c CC_WS = false) /\
  forall c, (S p0 < p)%nat -> data !! S p0 = Some c -> c <= 32.

Lemma blank_value_not_plain p0 p : blank_value p0 p -> ~ Forall plain_byte input.
Proof using Hbytes.
  intros (Hp0 & (c & Hc & Hc32 & Hws) & _) HF. destruct (cc_table c (data_byte p0 c Hc)) as (Ews & _). rewrite Ews in Hws.
  unfold padded in Hc. rewrite lookup_app_l in Hc by done. rewrite Forall_lookup in HF. specialize (HF p0 c Hc).
  unfold one_of in Hws. cbn [existsb] in Hws. zbool. unfold plain_byte in HF. lia.
Qed.

Lemma not_number_start c : is_byte c -> c <= 44 \/ c = 47 \/ c = 93 \/ c = 125 -> number_start c = false.
Proof. unfold number_start, is_digit, is_byte. intros. apply orb_false_iff. split; [lia|]. apply andb_false_iff. lia. Qed.

Lemma size_diff_fits a b : (b <= a <= len)%nat -> size_diff a b = Z.of_nat a - Z.of_nat b.
Proof using Hsize. intros H. unfold size_diff. apply u_id. unfold u_range. lia. Qed.

Lemma size_diff_wraps p : size_diff p (S p) = 2 ^ 64 - 1.
Proof. unfold size_diff, uN. replace (Z.of_nat p - Z.of_nat (S p)) with (-1) by lia. done. Qed.

(** The number of nodes of a result. *)
Lemma count_leaf v : node_count v = 1 -> count_of (Some v) = 1.
Proof. done. Qed.

Definition value_post (p0 p : nat) (l : Z) (Q : option dval -> reader -> Prop) : Prop :=
  forall v p', (p <= p' <= len)%nat -> (is_Some v -> p0 < p')%nat -> Q v (mkReader p' (l + count_of v)).

(** The end of the value at [p], which is the end of the input or a newline. *)
Lemma value_finish_wp p0 valStart valEnd p l (Q : option dval -> reader -> Prop) : (p0 <= valStart)%nat -> (p <= len)%nat ->
  ((valStart <= valEnd <= p)%nat \/ valStart = S p0 /\ valEnd = p0 /\ blank_value p0 p /\ (p0 < p)%nat /\
     forall c, data !! S p0 = Some c -> number_start c = false) ->
  value_post p0 p l Q ->
  wp (let valLen := size_diff valEnd valStart in
      if valLen =? 0 then null else
      kw <- try_parse_keyword_or_number data valStart valLen;;
      match kw with Some v => hret (Some v) | None => make_string data valStart valLen end) Q (mkReader p l).
Proof using Hsize Hbytes.
  intros Hp0 Hp Hcase HQ. cbv zeta. destruct Hcase as [Hle|(-> & -> & Hb & Hlt & Hns)].
  - rewrite size_diff_fits by lia. destruct (Z.eqb_spec (Z.of_nat valEnd - Z.of_nat valStart) 0) as [E|E].
    { hsteps. replace l with (l + count_of None) by (simpl; lia). apply HQ; [lia|by intros [? ?]]. }
    hstep. apply try_parse_wp; [lia|left; lia| |].
    + cbv beta iota. unfold make_string. destruct (_ >? _) eqn:E1; [apply Z.gtb_lt in E1; lia|].
      destruct (Z.of_nat valStart + _ >? _) eqn:E2; [apply Z.gtb_lt in E2; rewrite length_padded in E2; lia|].
      hstep. apply (HQ (Some (VString _))); [lia|intros; lia].
    + intros v _ _ Hv. hsteps. rewrite <- (count_leaf v Hv). apply HQ; [lia|intros; lia].
  - rewrite size_diff_wraps. pose proof (proj1 Hb). change (2 ^ 64 - 1 =? 0) with false. cbv iota. hstep.
    apply try_parse_wp; [lia|right; split; [lia|done]| |lia].
    cbv beta iota. unfold make_string. cbn. by apply (blank_value_not_plain p0 p).
Qed.

Lemma blank_start p0 p : blank_value p0 p -> (p0 < p)%nat -> (forall c, data !! p = Some c -> number_start c = false) ->
  forall c, data !! S p0 = Some c -> number_start c = false.
Proof using Hbytes.
  intros (_ & _ & Hb) Hlt Hp c Hc. destruct (decide (S p0 = p)) as [<-|Hne]; [by apply Hp|].
  apply not_number_start; [by eapply data_byte|]. left. assert (c <= 32); [|lia]. apply Hb; [lia|done].
Qed.

Lemma blank_next p0 p c : blank_value p0 p -> (p0 <= p)%nat -> data !! p = Some c -> c <= 32 -> blank_value p0 (S p).
Proof.
  intros (H1 & H2 & Hb) Hle Hc Hc32. split_and!; [done|done|]. intros d Hlt Hd.
  destruct (decide (S p0 = p)) as [<-|Hne]; [by replace d with c by congruence|]. apply Hb; [lia|done].
Qed.

(** The control character itself is no break. *)
Lemma blank_first p0 p c : blank_value p0 p -> data !! p0 = Some c -> 0 < c <= 32 /\ is_cc c CC_NL = false.
Proof using Hbytes.
  intros (_ & (d & Hd & Hd32 & Hws) & _) Hc. replace c with d by congruence. split; [done|].
  destruct (cc_table d (data_byte p0 d Hd)) as (Ews & Enl & _). rewrite Ews in Hws. rewrite Enl.
  unfold one_of in *. cbn [existsb] in *. zbool. apply orb_false_iff. split; [lia|]. apply orb_false_iff. split; [lia|done].
Qed.

Lemma data_len : data !! len = Some 0.
Proof. unfold padded. rewrite lookup_app_r by lia. by rewrite Nat.sub_diag. Qed.

Lemma value_loop_wp p0 valStart fuel : forall valEnd p l (Q : option dval -> reader -> Prop),
  (p0 <= valStart)%nat -> (p0 <= p <= len)%nat -> (len < p + fuel)%nat ->
  ((valStart <= valEnd <= p)%nat \/ valStart = S p0 /\ valEnd = p0 /\ blank_value p0 p) ->
  value_post p0 p l Q -> wp (value_loop data len valStart fuel valEnd) Q (mkReader p l).
Proof using Hsize Hbytes.
  induction fuel as [|fuel IH]; intros valEnd p l Q Hs Hp Hf Hcase HQ; [lia|]. cbn [value_loop]. do 2 hstep.
  destruct (Nat.leb_spec len p) as [Hge|Hlt].
  { apply (value_finish_wp p0); [lia|lia| |done]. destruct Hcase as [?|(-> & -> & Hb)]; [by left|right].
    assert (p0 < p)%nat by (destruct Hb; lia). split_and!; [done..|]. apply (blank_start p0 p); [done..|].
    intros c Hc. replace p with len in Hc by lia. rewrite data_len in Hc. by injection Hc as <-. }
  hstep. apply wp_at; [lia|]. intros c Hc. pose proof (data_byte p c Hc) as Hcb.
  destruct (is_cc c CC_NL) eqn:Enl.
  { apply (value_finish_wp p0); [lia|lia| |done]. destruct Hcase as [?|(-> & -> & Hb)]; [by left|right].
    assert (p0 <> p) by (intros <-; destruct (blank_first p0 p0 c Hb Hc) as [_ ?]; congruence).
    split_and!; [done|done|done|lia|]. apply (blank_start p0 p); [done|lia|].
    intros d Hd. replace d with c by congruence. destruct (cc_table c Hcb) as (_ & E & _). rewrite E in Enl.
    unfold one_of in Enl. cbn [existsb] in Enl. apply not_number_start; [done|]. apply orb_true_iff in Enl as [?|Enl]; [lia|].
    apply orb_true_iff in Enl as [?|?]; [lia|done]. }
  hstep. apply is_comment_start_wp; [lia|]. intros com Hcom. cbv beta. cbv zeta. hstep.
  assert (wp (advance 1;;; value_loop data len valStart fuel (if c >? 32 then S p else valEnd)) Q (mkReader p l)) as Hnext.
  { do 2 hstep. rewrite Nat.add_1_r. apply IH; [lia|lia|lia| |intros v p' Hp' Hv; apply HQ; [lia|done]].
    destruct (c >? 32) eqn:E; [apply Z.gtb_lt in E|rewrite Z.gtb_ltb in E; zbool].
    - left. destruct Hcase as [?|(-> & -> & Hb)]; [lia|]. assert (p0 <> p); [|lia].
      intros <-. destruct (blank_first p0 p0 c Hb Hc). lia.
    - destruct Hcase as [?|(-> & -> & Hb)]; [left; lia|right]. split_and!; [done..|]. by apply (blank_next p0 p c); [|lia|done|]. }
  destruct ((c =? 44) || (c =? 125) || (c =? 93) || com) eqn:Eb; [|hstep; exact Hnext].
  apply try_parse_wp; [lia| |exact Hnext|].
  - destruct Hcase as [?|(-> & -> & Hb)]; [left; rewrite size_diff_fits by lia; lia|right].
    rewrite size_diff_wraps. split; [lia|].
    assert (c = 44 \/ c = 125 \/ c = 93 \/ c = 35 \/ c = 47) as Hc'.
    { apply orb_true_iff in Eb as [Eb| -> ]; [|destruct (Hcom eq_refl c Hc); lia].
      apply orb_true_iff in Eb as [Eb|?]; [|lia]. apply orb_true_iff in Eb as [?|?]; lia. }
    apply (blank_start p0 p); [done| |].
    + assert (p0 <> p); [|lia]. intros <-. destruct (blank_first p0 p0 c Hb Hc). lia.
    + intros d Hd. replace d with c by congruence. apply not_number_start; [done|lia].
  - intros v Hn Hle Hv. hstep. rewrite <- (count_leaf v Hv). apply HQ; [lia|]. intros _.
    destruct Hcase as [?|(-> & -> & Hb)]; [rewrite size_diff_fits in Hn by lia; lia|]. rewrite size_diff_wraps in Hle. lia.
Qed.

Lemma read_unquoted_value_wp p l (Q : option dval -> reader -> Prop) : (p < len)%nat -> no_ws_at p -> value_post p p l Q ->
  wp (read_unquoted_value data len) Q (mkReader p l).
Proof using Hsize Hbytes.
  intros Hp Hws HQ. unfold read_unquoted_value. hstep. apply peek_wp; [lia|]. intros c Hc Hd. cbv beta.
  destruct (is_cc c CC_STRUCT); [hsteps; replace l with (l + count_of None) by (simpl; lia); apply HQ; [lia|by intros [? ?]]|].
  hstep. hstep. cbv beta. destruct (_ && _) eqn:E.
  - apply (value_loop_wp p); [lia|lia|lia| |done]. right. split_and!; [done..|]. zbool.
    rewrite s_of_u in * by (unfold is_byte, u_range in *; lia). unfold is_byte in Hc.
    assert (0 < c <= 32) as Hc32 by (destruct (c <? 2 ^ (8 - 1)) eqn:?; zbool; lia).
    destruct (Hd ltac:(lia)) as [_ Hd']. split_and!; [done|exists c; split_and!; [done|lia|lia|by apply (Hws c)]|intros; lia].
  - apply (value_loop_wp p); [lia|lia|lia|left; lia|done].
Qed.

(** *** Containers *)

(** [m] leaves exactly the nodes of its result, and a result consumes input. *)
Definition yields (m : HM (option dval)) : Prop := forall p l (Q : option dval -> reader -> Prop),
  (p <= len)%nat -> value_post p p l Q -> wp m Q (mkReader p l).

(** The same without the progress. *)
Definition any_post (p : nat) (l : Z) (Q : option dval -> reader -> Prop) : Prop :=
  forall v p', (p <= p' <= len)%nat -> Q v (mkReader p' (l + count_of v)).

Lemma any_value p0 p l Q : any_post p l Q -> value_post p0 p l Q.
Proof. intros H v p' Hp' _. by apply H. Qed.
Lemma value_any p0 p l Q : (p0 < p)%nat -> value_post p0 p l Q -> any_post p l Q.
Proof. intros Hp H v p' Hp'. apply H; [done|lia]. Qed.
Lemma any_weaken p p' l Q : (p <= p')%nat -> any_post p l Q -> any_post p' l Q.
Proof. intros Hp H v p'' Hp'. apply H. lia. Qed.

Lemma null_wp p0 p l (Q : option dval -> reader -> Prop) : (p <= len)%nat -> value_post p0 p l Q -> wp null Q (mkReader p l).
Proof. intros Hp HQ. hstep. replace l with (l + count_of None) by (simpl; lia). apply HQ; [lia|by intros [? ?]]. Qed.

(** A container that is given up. *)
Lemma drop_null_wp v p l (Q : option dval -> reader -> Prop) : (p <= len)%nat -> any_post p l Q ->
  wp (drop_null v) Q (mkReader p (l + node_count v)).
Proof.
  intros Hp HQ. unfold drop_null. do 2 hstep. replace (l + node_count v - node_count v) with l by lia.
  apply (null_wp 0); [done|by apply any_value].
Qed.

Lemma obj_insert_wp k v kvs p l (Q : list (bytes * dval) -> reader -> Prop) :
  Q (set_key k v kvs) (mkReader p (l + node_count (VObject (set_key k v kvs)))) ->
  wp (obj_insert k v kvs) Q (mkReader p (l + node_count (VObject kvs) + node_count v)).
Proof.
  intros HQ. pose proof (below_set k v kvs) as Hb. unfold below in Hb. unfold obj_insert.
  destruct (find_key k kvs) as [o|]; hsteps;
    (match goal with |- Q _ (mkReader _ ?x) => replace x with (l + node_count (VObject (set_key k v kvs))); [done|simpl in *; lia] end).
Qed.

Section LevelSafe.

Context (read_child : HM (option dval)) (Hchild : yields read_child).

(** The closing bracket. *)
Lemma closing_wp (b : byte) v p l (Q : option dval -> reader -> Prop) : (p <= len)%nat -> any_post p l Q ->
  wp (closed <- (if (len <=? p)%nat then hret false else c <- at_ data p;; hret (c =? b));;
      if closed : bool then advance 1;;; hret (Some v) else drop_null v) Q (mkReader p (l + node_count v)).
Proof.
  intros Hp HQ. hsteps; try (apply drop_null_wp; [lia|done]). apply (HQ (Some v)). lia.
Qed.

Lemma object_loop_wp braced fuel : forall acc p l (Q : option dval -> reader -> Prop), (p <= len)%nat -> (len < p + fuel)%nat ->
  any_post p l Q -> wp (object_loop g data len read_child braced fuel acc) Q (mkReader p (l + node_count (VObject acc))).
Proof using Hbytes Hsize Hchild.
  induction fuel as [|fuel IH]; intros acc p l Q Hp Hf HQ; [lia|]. cbn [object_loop]. do 3 hstep.
  apply (hwp_mono _ (fun _ r => r = mkReader p (l + node_count (VObject acc)))); [by hsteps|]. intros more r ->. cbv beta.
  assert (forall p', (p <= p' <= len)%nat -> wp (drop_null (VObject acc)) Q (mkReader p' (l + node_count (VObject acc)))) as Hdrop.
  { intros p' Hp'. apply drop_null_wp; [lia|]. eapply any_weaken; [|done]. lia. }
  destruct more.
  - hstep. apply moves_wp; [apply read_key_moves|lia|]. intros [key|] p1 Hp1; cbv iota; [|auto].
    hstep. apply skip_ws_wp; [lia|]. intros p2 Hp2. hstep. apply peek_wp; [lia|]. intros c _ Hc.
    destruct (c =? 58) eqn:Ec; cbn [negb]; [|apply Hdrop; lia]. zbool. subst c. destruct Hc as [Hc _]; [done|].
    do 3 hstep. apply skip_ws_wp; [lia|]. intros p3 Hp3. hstep. apply Hchild; [lia|].
    intros [v|] p4 Hp4 Hv; cbv iota; [|rewrite Z.add_0_r; apply Hdrop; lia].
    hstep. apply obj_insert_wp. hstep. apply skip_separator_wp; [lia|]. intros p5 Hp5.
    apply IH; [lia|lia|]. eapply any_weaken; [|done]. lia.
  - destruct braced; [by apply closing_wp|]. hstep. apply (HQ (Some (VObject acc))). lia.
Qed.

Lemma read_object_wp braced p l (Q : option dval -> reader -> Prop) : (p <= len)%nat -> any_post p l Q ->
  wp (read_object g data len read_child braced) Q (mkReader p l).
Proof using Hbytes Hsize Hchild.
  intros Hp HQ. unfold read_object. do 3 hstep. apply skip_ws_wp; [lia|]. intros p1 Hp1.
  apply (object_loop_wp braced (S len) []); [lia|lia|]. eapply any_weaken; [|done]. lia.
Qed.

Lemma array_loop_wp fuel : forall acc p l (Q : option dval -> reader -> Prop), (p <= len)%nat -> (len < p + fuel)%nat ->
  any_post p l Q -> wp (array_loop g data len read_child fuel acc) Q (mkReader p (l + node_count (VArray acc))).
Proof using Hbytes Hsize Hchild.
  induction fuel as [|fuel IH]; intros acc p l Q Hp Hf HQ; [lia|]. cbn [array_loop]. do 3 hstep.
  apply (hwp_mono _ (fun _ r => r = mkReader p (l + node_count (VArray acc)))); [by hsteps|]. intros more r ->. cbv beta.
  destruct more; [|by apply closing_wp].
  hstep. apply Hchild; [lia|]. intros [v|] p1 Hp1 Hv; cbv iota.
  - hstep. apply skip_separator_wp; [lia|]. intros p2 Hp2. cbn [count_of]. rewrite <- Z.add_assoc, <- count_array.
    specialize (Hv (mk_is_Some _ _ eq_refl)). apply IH; [lia|lia|]. eapply any_weaken; [|done]. lia.
  - rewrite Z.add_0_r. apply drop_null_wp; [lia|]. eapply any_weaken; [|done]. lia.
Qed.

Lemma read_array_wp p l (Q : option dval -> reader -> Prop) : (p <= len)%nat -> any_post p l Q ->
  wp (read_array g data len read_child) Q (mkReader p l).
Proof using Hbytes Hsize Hchild.
  intros Hp HQ. unfold read_array. do 3 hstep. apply skip_ws_wp; [lia|]. intros p1 Hp1.
  apply (array_loop_wp (S len) []); [lia|lia|]. eapply any_weaken; [|done]. lia.
Qed.

Lemma read_value_body_yields : yields (read_value_body g data len read_child).
Proof using Hbytes Hsize Hchild.
  intros p l Q Hp HQ. unfold read_value_body. hstep. apply skip_ws_stops; [done|]. intros p1 Hp1 Hws. do 2 hstep.
  assert (value_post p1 p1 l Q) as HQ1 by (intros v p' Hp' Hv; apply HQ; [lia|intros H%Hv; lia]).
  destruct (Nat.leb_spec len p1); [apply (null_wp p1); [lia|done]|].
  assert (any_post (p1 + 1) l Q) as HQ2 by (intros v p' Hp'; apply HQ1; lia).
  hstep. apply wp_at; [lia|]. intros c Hc. cbv beta.
  destruct (c =? 123); [do 2 hstep; cbv beta; apply read_object_wp; [lia|done]|].
  destruct (c =? 91); [do 2 hstep; cbv beta; apply read_array_wp; [lia|done]|].
  destruct (is_cc c CC_QUOTE); [|by apply read_unquoted_value_wp].
  hstep. apply read_quoted_string_wp; [lia|]. intros [s|] p2 Hp2 Hlt; cbv iota.
  - hstep. apply (HQ1 (Some (VString s))); [lia|]. intros _. apply Hlt. by eexists.
  - apply (null_wp p1); [lia|]. intros v p' Hp' Hv. apply HQ1; [lia|done].
Qed.

End LevelSafe.

Lemma read_value_yields levels : yields (read_value g data len levels).
Proof using Hbytes Hsize.
  induction levels as [|levels IH]; cbn [read_value]; [intros p l Q Hp HQ; by apply (null_wp p)|].
  by apply read_value_body_yields.
Qed.

Lemma whole_input_wp v p l (Q : option dval -> reader -> Prop) : (p <= len)%nat -> any_post p l Q ->
  wp (whole_input g data len v) Q (mkReader p (l + count_of v)).
Proof.
  intros Hp HQ. destruct v as [v|]; cbn [whole_input count_of].
  - hstep. apply skip_ws_wp; [done|]. intros p1 Hp1. do 2 hstep. destruct (p1 <? len)%nat.
    + apply drop_null_wp; [lia|]. eapply any_weaken; [|done]. lia.
    + hstep. apply (HQ (Some v)). lia.
  - rewrite Z.add_0_r. apply (null_wp 0); [done|by apply any_value].
Qed.

Lemma top_wp p l (Q : option dval -> reader -> Prop) : (p <= len)%nat -> any_post 0 l Q ->
  wp (v <- read_value g data len (S kMaxDepth);; whole_input g data len v) Q (mkReader p l).
Proof using Hbytes Hsize.
  intros Hp HQ. hstep. apply read_value_yields; [done|]. intros v p' Hp' _. apply whole_input_wp; [lia|].
  eapply any_weaken; [|done]. lia.
Qed.

Lemma parse_root_wp (Q : option dval -> reader -> Prop) : any_post 0 0 Q -> wp (parse_root g data len) Q (mkReader 0 0).
Proof using Hbytes Hsize.
  intros HQ. unfold parse_root. cbv zeta. hstep. apply skip_ws_wp; [lia|]. intros p Hp. do 2 hstep.
  destruct (Nat.leb_spec len p); [apply (null_wp 0); [lia|]; apply any_value; eapply any_weaken; [|done]; lia|].
  hstep. apply wp_at; [lia|]. intros c Hc. cbv beta. destruct (c =? 91); [apply top_wp; [lia|done]|].
  destruct (c =? 123); cbn [negb]; [apply top_wp; [lia|done]|].
  hstep. apply read_object_wp; [apply read_value_yields|lia|]. intros v p1 Hp1. hstep. apply whole_input_wp; [lia|].
  intros [w|] p2 Hp2; cbv iota; [hstep; apply (HQ (Some w)); lia|].
  do 3 hstep. apply skip_ws_wp; [lia|]. intros p3 Hp3. apply top_wp; [lia|]. by rewrite Z.add_0_r.
Qed.

End Safe.

(** What the parser's outcome can be, for its callers. *)
Lemma HjsonParse_total (no_simd has_avx2 : bool) (input : bytes) :
  Forall is_byte input -> Z.of_nat (length input) < 2 ^ 62 ->
  (exists v r, HjsonParse (init_scanner no_simd has_avx2) input = HRet v r /\ rlive r = count_of v) \/
  (HjsonParse (init_scanner no_simd has_avx2) input = HThrow /\ ~ Forall plain_byte input).
Proof.
  intros Hb Hs. unfold HjsonParse. destruct input as [|b input]; [left; by eexists _, _|].
  rewrite (parse_root_agree (init_scanner no_simd has_avx2) (b :: input) Hb).
  pose proof (parse_root_wp (b :: input) Hb Hs (fun v r => rlive r = count_of v)) as H. unfold wp in H.
  destruct (parse_root _ _ _ _) as [v r| | |].
  - left. exists v, r. split; [done|]. apply H. by intros w p' _.
  - by destruct H.
  - right. split; [done|]. apply H. by intros w p' _.
  - by destruct H.
Qed.



(** A single control character is enough to make the parser throw: the value
    starts one byte after its end, its length wraps around to [2^64 - 1], and
    the [std::string] of that length is refused. *)
Theorem HjsonParse_throws : HjsonParse avx2_scanner [1] = HThrow /\ HjsonParse scalar_scanner (str "a: " ++ [1]) = HThrow.
Proof. vm_compute. split; reflexivity. Qed.
