(* ===== verification/HjsonJson.v ===== *)
(** * JSON text is read back by the Hjson parser

    Hjson extends JSON: what [DataSerializeJson] prints for a value without
    doubles, [HjsonParse] reads as the same value.  This joins the serializer of
    [data_node.cpp], working on the heap of nodes, with the parser of
    [hjson_parse.cpp]. *)

From stdpp Require Import base numbers list gmap.
From Stdlib Require Import ZArith Lia.
From S2P Require Import Prelude NodePool DataMap DataValue Float Text DataNode DataRefcount DataCopy MsgPack JsonText HjsonScan Hjson HjsonSafe.

(** ** The text of a value *)

Fixpoint join (sep : bytes) (ts : list bytes) : bytes :=
  match ts with [] => [] | [t] => t | t :: ts => t ++ sep ++ join sep ts end.

Fixpoint print (v : dval) : bytes :=
  match v with
  | VNull => str "null"
  | VBool b => if b then str "true" else str "false"
  | VInt z => dec z
  | VFloat bits => serialize_float bits
  | VString s => serialize_string s
  | VArray vs => [91] ++ join [44] (print <$> vs) ++ [93]
  | VObject kvs => [123] ++ join [44] ((fun e => serialize_string e.1 ++ [58] ++ print e.2) <$> kvs) ++ [125]
  | VIntMap _ | VBinary _ => str "null"
  end.

(** Values JSON has, without doubles: integers of 64 bits, strings and distinct
    keys of bytes. *)
Fixpoint json_value (v : dval) : Prop :=
  match v with
  | VNull | VBool _ => True
  | VInt z => s_range 64 z
  | VString s => Forall is_byte s
  | VArray vs => foldr (fun v P => json_value v /\ P) True vs
  | VObject kvs => NoDup kvs.*1 /\ foldr (fun e P => (Forall is_byte e.1 /\ json_value e.2) /\ P) True kvs
  | VFloat _ | VIntMap _ | VBinary _ => False
  end.

Lemma foldr_and_Forall {A} (P : A -> Prop) xs : foldr (fun x Q => P x /\ Q) True xs <-> Forall P xs.
Proof. induction xs as [|x xs IH]; simpl; [by split|]. by rewrite Forall_cons, IH. Qed.

Section Print.

Context {MO : DataMap bytes} {MI : DataMap Z} {P : Type} {PA : NodeAllocator P}.

Lemma sep_concat_join {A B} sep (f : A -> option bytes) (t : B -> bytes) xs ys :
  Forall2 (fun x y => f x = Some (t y)) xs ys -> sep_concat sep f xs = Some (join sep (t <$> ys)).
Proof.
  induction 1 as [|x y xs ys Hx Hxs IH]; [done|]. destruct Hxs as [|x' y' xs ys Hx' Hxs]; [done|].
  change (sep_concat sep f (x :: x' :: xs)) with (let? s := f x in let? u := sep_concat sep f (x' :: xs) in Some (s ++ sep ++ u)).
  by rewrite Hx, IH.
Qed.

(** The serializer prints the value a node stands for. *)
Lemma serialize_value_print (st : store (P := P)) v : forall levels n, repr (cells st) n v -> (depth v <= levels)%nat ->
  serialize_value levels n st = Some (print v).
Proof.
  induction v as [|b|z|z|s|vs IH|kvs IH|kvs IH|s] using dval_ind'; intros levels n (c & Hc & Hr)%repr_unfold Hd;
    (destruct levels as [|levels]; [simpl in Hd; lia|]); cbn [serialize_value]; rewrite Hc;
    destruct (pay c) as [| | | | |a|q|q|]; simpl in Hr; try done; try (by subst).
  - assert (Forall2 (fun x y => serialize_value levels x st = Some (print y)) a vs) as HF.
    { simpl in Hd. apply le_S_n in Hd. clear Hc. induction Hr as [|x y a vs Hx Hr IHr]; [constructor|].
      apply Forall_cons in IH as [Hy IH]. simpl in Hd. constructor; [apply Hy; [done|lia]|apply IHr; [done|lia]]. }
    by rewrite (sep_concat_join [44] _ print a vs HF).
  - assert (Forall2 (fun (x : bytes * loc) y => (let? v := serialize_value levels x.2 st in Some (serialize_string x.1 ++ [58] ++ v)) =
        Some (serialize_string y.1 ++ [58] ++ print y.2)) (dm_list q) kvs) as HF.
    { simpl in Hd. apply le_S_n in Hd. clear Hc. induction Hr as [|x y a vs Hx Hr IHr]; [constructor|].
      apply Forall_cons in IH as [Hy IH]. simpl in Hd. destruct x as [k x], y as [k' y]. destruct Hx as [-> Hx].
      constructor; [simpl in *; rewrite (Hy levels x); [done|done|lia]|apply IHr; [done|lia]]. }
    by rewrite (sep_concat_join [44] _ _ (dm_list q) kvs HF).
Qed.

End Print.

(** ** Numbers *)

Lemma digits_head fuel : forall n acc, 0 < n < 2 ^ Z.of_nat fuel -> fuel <> O ->
  exists d ds, digits fuel n acc = d :: ds /\ d <> 48.
Proof.
  induction fuel as [|fuel IH]; intros n acc Hn Hf; [done|]. cbn [digits]. cbv zeta. destruct (Z.ltb_spec n 10) as [Hlt|Hge].
  - exists (48 + n mod 10), acc. split; [done|]. rewrite Z.mod_small; lia.
  - rewrite Nat2Z.inj_succ, Z.pow_succ_r in Hn by lia. apply IH; [|intros ->; simpl in Hn; lia].
    split; [apply Z.div_str_pos; lia|]. apply Z.div_lt_upper_bound; lia.
Qed.

(** A printed natural number: digits, the first of several not zero. *)
Lemma dec_nat_shape n : 0 <= n -> exists d ds, dec_nat n = d :: ds /\ is_digit d = true /\
  Forall (fun c => is_digit c = true) ds /\ (d = 48 -> ds = []).
Proof.
  intros Hn. assert (0 <= n < 2 ^ Z.of_nat (S (Z.to_nat (Z.log2 n)))) as Hb.
  { rewrite Nat2Z.inj_succ, Z2Nat.id by apply Z.log2_nonneg. split; [done|].
    destruct (Z.eq_dec n 0) as [->|]; [done|]. apply Z.log2_spec. lia. }
  unfold dec_nat. destruct (digits_spec _ n [] Hb) as (xs & E & HF & Hne & _); [done|]. rewrite app_nil_r in E.
  destruct xs as [|d ds]; [done|]. apply Forall_cons in HF as [Hd HF]. exists d, ds. split_and!; [done|done|done|].
  destruct (Z.eq_dec n 0) as [->|Hn0]; [by vm_compute in E; injection E as <- <-|].
  destruct (digits_head _ n [] ltac:(split; [lia|apply Hb])) as (d' & ds' & E' & Hd'); [done|]. rewrite E in E'.
  injection E' as <- <-. done.
Qed.

Lemma digit_run_app ds rest : Forall (fun c => is_digit c = true) ds -> starts_digit rest = false ->
  digit_run (ds ++ rest) = length ds.
Proof.
  intros HF Hr. induction HF as [|d ds Hd HF IH]; cbn [app digit_run length].
  - destruct rest as [|c rest]; [done|]. simpl in *. by rewrite Hr.
  - by rewrite Hd, IH.
Qed.

Lemma read_digits_rest s : forall acc rest, Forall (fun c => is_digit c = true) s -> starts_digit rest = false ->
  (read_digits acc (s ++ rest)).2 = rest.
Proof.
  intros acc rest HF Hr. rewrite read_digits_app by done. destruct rest as [|c rest]; [done|]. simpl in Hr. cbn [read_digits].
  unfold is_digit in Hr. by rewrite Hr.
Qed.

Lemma digit_not_minus d t : is_digit d = true ->
  strip_minus (d :: t) = d :: t /\ strtoll (d :: t) = (read_digits 0 (d :: t)).1 /\ strtoll_end (d :: t) = digit_run (d :: t).
Proof.
  unfold is_digit. intros Hd. zbool. destruct d as [|p|p]; try done. repeat (destruct p as [p|p|]; try done).
Qed.

Lemma number_shape_digits d ds : is_digit d = true -> Forall (fun c => is_digit c = true) ds -> (d = 48 -> ds = []) ->
  number_shape (d :: ds) = Some false /\ number_shape (45 :: d :: ds) = Some false.
Proof.
  intros Hd HF H0. assert (digit_run (d :: ds) = length (d :: ds)) as Hrun.
  { pose proof (digit_run_app (d :: ds) [] ltac:(by constructor) eq_refl) as H. by rewrite app_nil_r in H. }
  assert (unsigned_shape (d :: ds) = Some false) as H45.
  { unfold unsigned_shape. cbn [starts_digit]. rewrite Hd. cbn [negb].
    replace (match d :: ds with 48 :: d0 :: _ => is_digit d0 | _ => false end) with false.
    2:{ destruct (Z.eq_dec d 48) as [->|Hne]; [by rewrite (H0 eq_refl)|]. symmetry.
        destruct d as [|p|p]; try done. repeat (destruct p as [p|p|]; try done). }
    by rewrite Hrun, drop_all. }
  split; [|done]. unfold number_shape. by rewrite (proj1 (digit_not_minus d ds Hd)).
Qed.

(** An integer in front of a byte that is no digit is read as itself. *)
Lemma try_parse_dec z c rest : s_range 64 z -> is_digit c = false -> try_parse_number (dec z ++ c :: rest) (dec z) = Some (VInt z).
Proof.
  intros Hz Hc. destruct (dec_nat_shape (Z.abs z) ltac:(lia)) as (d & ds & E & Hd & HF & H0).
  destruct (number_shape_digits d ds Hd HF H0) as [N1 N2].
  assert (forall r, starts_digit (c :: r) = false) as Hc' by done.
  pose proof (digit_run_app (d :: ds) (c :: rest) ltac:(by constructor) (Hc' rest)) as Hrun.
  pose proof (dec_nat_read (Z.abs z) (c :: rest) ltac:(lia)) as Hread. rewrite E in Hread.
  specialize (Hread ltac:(by intros ? ? [= <- <-])).
  assert (negb ((- 2 ^ 63 <=? z) && (z <? 2 ^ 63)) = false) as Hr.
  { apply negb_false_iff, andb_true_iff. unfold s_range in Hz. change (2 ^ (64 - 1)) with (2 ^ 63) in Hz. lia. }
  unfold try_parse_number, dec. destruct (Z.ltb_spec z 0).
  - assert (dec_nat (- z) = d :: ds) as -> by (rewrite <- E; f_equal; lia). rewrite N2. cbv zeta. cbn [app].
    assert (strtoll (45 :: d :: ds ++ c :: rest) = z) as -> by (unfold strtoll; cbn [app] in Hread; rewrite Hread; simpl; lia).
    assert (strtoll_end (45 :: d :: ds ++ c :: rest) = length (45 :: d :: ds)) as -> by (unfold strtoll_end; cbn [app] in Hrun; by rewrite Hrun).
    by rewrite Nat.eqb_refl, Hr.
  - assert (dec_nat z = d :: ds) as -> by (rewrite <- E; f_equal; lia). rewrite N1. cbv zeta. cbn [app].
    destruct (digit_not_minus d (ds ++ c :: rest) Hd) as (_ & -> & ->). cbn [app] in Hread, Hrun. rewrite Hread, Hrun. cbn [fst].
    replace (Z.abs z) with z by lia.
    by rewrite Nat.eqb_refl, Hr.
Qed.

(** ** Reading it back *)

#[local] Notation commas := (join [44%Z]).

(** The comma after an element, when others follow. *)
Definition comma (ts : list bytes) : bytes := match ts with [] => [] | _ => [44] end.

Lemma join_cons t (ts : list bytes) b : commas (t :: ts) ++ [b] =
  t ++ comma ts ++ commas ts ++ [b].
Proof. destruct ts as [|u ts]; [done|]. cbn [join]. by rewrite <- !app_assoc. Qed.

Lemma join_length t (ts : list bytes) : length (commas (t :: ts)) =
  (length t + length (comma ts) + length (commas ts))%nat.
Proof. destruct ts as [|u ts]; cbn [join]; rewrite ?length_app; simpl; lia. Qed.

(** ** The characters of a text *)

(** A byte that starts a token: no white space, no comment. *)
Definition token (c : byte) : bool := negb (one_of [32; 9; 13; 10; 35; 47] c).

(** A byte inside an unquoted JSON value, and one after it. *)
Definition inner (c : byte) : bool := (32 <? c) && negb (one_of [44; 125; 93; 35; 47; 58; 91; 123; 34; 39] c).
Definition closer (c : byte) : bool := one_of [44; 125; 93] c.

Lemma one_of_false cs c : one_of cs c = false <-> Forall (fun x => c <> x) cs.
Proof.
  unfold one_of. induction cs as [|x cs IH]; [by split|]. cbn [existsb]. rewrite orb_false_iff, IH, Forall_cons, Z.eqb_neq. done.
Qed.

Lemma inner_cc c : is_byte c -> inner c = true ->
  is_cc c CC_NL = false /\ is_cc c CC_HASH = false /\ is_cc c CC_SLASH = false /\ is_cc c CC_STRUCT = false /\
  is_cc c CC_QUOTE = false /\ (c =? 44) || (c =? 125) || (c =? 93) = false /\ (c >? 32) = true.
Proof.
  intros Hc Hi. unfold inner in Hi. apply andb_prop in Hi as [H32 Hi]. apply negb_true_iff, one_of_false in Hi.
  apply Z.ltb_lt in H32. rewrite !Forall_cons in Hi. destruct Hi as (? & ? & ? & ? & ? & ? & ? & ? & ? & ? & _).
  destruct (cc_table c Hc) as (_ & -> & -> & -> & -> & -> & _). rewrite !one_of_false, !orb_false_iff, !Z.eqb_neq, !Forall_cons.
  split_and!; try done; try lia.
Qed.

Lemma closer_cc c : is_byte c -> closer c = true ->
  is_cc c CC_NL = false /\ is_cc c CC_HASH = false /\ is_cc c CC_SLASH = false /\ (c =? 44) || (c =? 125) || (c =? 93) = true.
Proof.
  intros Hc Hi. destruct (cc_table c Hc) as (_ & -> & _ & _ & -> & -> & _). rewrite !one_of_false, !Forall_cons.
  unfold closer, one_of in Hi. cbn [existsb] in Hi. rewrite orb_false_r, orb_assoc in Hi. split_and!; try done.
  all: rewrite !orb_true_iff, !Z.eqb_eq in Hi; lia.
Qed.

Definition is_leaf (v : dval) : bool := match v with VArray _ | VObject _ | VString _ => false | _ => true end.

(** The first byte of a value: not white space, no comment, no separator. *)
Definition starts (c : byte) : bool := token c && negb (one_of [93; 125; 44; 58] c).

(** The characters of an integer. *)
Lemma number_char c : number_start c = true ->
  starts c = true /\ inner c = true /\ is_cc c CC_QUOTE = false /\ c <> 123 /\ c <> 91 /\ is_byte c.
Proof.
  intros Hc. assert (45 <= c <= 57 /\ c <> 46 /\ c <> 47) as [Hr Hne].
  { unfold number_start, is_digit in Hc. apply orb_true_iff in Hc as [?|?]; zbool; lia. }
  assert (c ∈ Z.of_nat <$> seq 45 13) as Hin.
  { apply list_elem_of_fmap. exists (Z.to_nat c). rewrite elem_of_seq. lia. }
  assert (Forall (fun c => c <> 46 /\ c <> 47 -> starts c = true /\ inner c = true /\ is_cc c CC_QUOTE = false /\ c <> 123 /\ c <> 91 /\ is_byte c)
    (Z.of_nat <$> seq 45 13)) as HF.
  { simpl. repeat constructor; try done; unfold is_byte; try lia; intros [? ?]; lia. }
  rewrite Forall_forall in HF. by apply HF.
Qed.

Lemma dec_chars z : exists c t, dec z = c :: t /\ Forall (fun c => number_start c = true) (c :: t).
Proof.
  assert (forall n, 0 <= n -> exists c t, dec_nat n = c :: t /\ Forall (fun c => number_start c = true) (c :: t)) as H.
  { intros n Hn. destruct (dec_nat_shape n Hn) as (d & ds & -> & Hd & HF & _). exists d, ds. split; [done|].
    unfold number_start. constructor; [by rewrite Hd, orb_true_r|]. eapply Forall_impl; [exact HF|]. intros x Hx. by rewrite Hx, orb_true_r. }
  unfold dec. destruct (Z.ltb_spec z 0).
  - destruct (H (- z) ltac:(lia)) as (c & t & -> & HF). exists 45, (c :: t). split; [done|by constructor].
  - destruct (H z ltac:(lia)) as (c & t & -> & HF). by exists c, t.
Qed.

Lemma print_starts v : json_value v -> exists c t, print v = c :: t /\ starts c = true /\
  (is_leaf v = true -> is_cc c CC_QUOTE = false /\ c <> 123 /\ c <> 91).
Proof.
  destruct v as [|[|]|z|z|s|vs|kvs|kvs|s]; intros Hv; try done; try (by eexists _, _).
  all: try (eexists _, _; split; [reflexivity|]; vm_compute; by split_and!).
  destruct (dec_chars z) as (c & t & E & HF). exists c, t. split; [done|].
  destruct (number_char c (Forall_inv HF)) as (? & _ & ? & ? & ? & _). by split_and!.
Qed.

(** Keywords and integers. *)
Lemma leaf_inner v : json_value v -> is_leaf v = true -> Forall (fun c => inner c = true) (print v) /\ Forall is_byte (print v) /\ print v <> [].
Proof.
  destruct v as [|[|]|z|z|s|vs|kvs|kvs|s]; intros Hv Hl; try done; try (vm_compute; split_and!; repeat constructor; done).
  simpl. destruct (dec_chars z) as (c & t & -> & HF). split_and!; [| |done]; eapply Forall_impl; try exact HF; intros x Hx;
    by destruct (number_char x Hx) as (_ & ? & _ & _ & _ & ?).
Qed.

Lemma keyword_not_number w t : Forall (fun c => number_start c = true) t -> t <> [] ->
  match w with c :: _ => number_start c = false | [] => False end -> bytes_eqb t w = false.
Proof.
  intros HF Hne Hw. apply bool_decide_eq_false. intros ->. destruct w as [|c w]; [done|]. apply Forall_inv in HF. congruence.
Qed.

#[local] Open Scope hjson_scope.

Section Read.

Context (input : bytes) (Hbytes : Forall is_byte input) (Hsize : Z.of_nat (length input) < 2 ^ 62).

#[local] Notation g := scalar_scanner.
#[local] Notation data := (padded input).
#[local] Notation len := (length input).

(** The text at position [p] is [t], inside the input, followed by [rest]. *)
Definition text_at (p : nat) (t rest : bytes) : Prop := drop p data = t ++ rest /\ (p + length t <= len)%nat.

Lemma text_at_lookup p c t rest : text_at p (c :: t) rest -> data !! p = Some c /\ (p < len)%nat.
Proof.
  intros [Hd Hl]. simpl in Hl. split; [|lia]. rewrite <- (Nat.add_0_r p), <- lookup_drop, Hd. done.
Qed.

Lemma text_at_app p t u rest : text_at p (t ++ u) rest -> text_at p t (u ++ rest) /\ text_at (p + length t) u rest.
Proof.
  intros [Hd Hl]. rewrite length_app in Hl. rewrite <- app_assoc in Hd. split; split; [done|lia| |lia].
  rewrite <- drop_drop, Hd. by rewrite drop_app_length.
Qed.

Lemma text_at_cons p c t rest : text_at p (c :: t) rest -> text_at p [c] (t ++ rest) /\ text_at (p + 1) t rest.
Proof. apply (text_at_app p [c] t rest). Qed.

Lemma hbind_eq {A B} (m : HM A) (k : A -> HM B) r a r' : m r = HRet a r' -> hbind m k r = k a r'.
Proof. intros H. unfold hbind. by rewrite H. Qed.

Lemma call_eq f p l n : (p <= len)%nat -> f (drop p data) (len - p)%nat = Some n ->
  call data len f (mkReader p l) = HRet n (mkReader p l).
Proof. intros Hp Hf. unfold call. cbn [rpos]. by rewrite (proj2 (Nat.ltb_ge len p)), Hf by lia. Qed.

Lemma at_eq i c r : data !! i = Some c -> at_ data i r = HRet c r.
Proof. intros H. unfold at_. by rewrite H. Qed.

(** One step of a computation whose next action is known. *)
Ltac hdo := cbv beta iota; lazymatch goal with
  | |- hbind get_pos _ _ = _ => rewrite (hbind_eq get_pos _ _ _ _ eq_refl); cbn [rpos rlive]
  | |- hbind (advance _) _ _ = _ => rewrite (hbind_eq (advance _) _ _ _ _ eq_refl); cbn [rpos rlive]
  | |- hbind (hret _) _ _ = _ => rewrite (hbind_eq (hret _) _ _ _ _ eq_refl)
  | |- hbind (make _) _ _ = _ => rewrite (hbind_eq (make _) _ _ _ _ eq_refl); cbn [rpos rlive]
  | |- hbind (at_ _ _) _ _ = _ => erewrite hbind_eq; [|apply at_eq; eassumption]
  | |- (if (?a <? ?b)%nat then _ else _) _ = _ =>
      first [rewrite (proj2 (Nat.ltb_lt a b)) by lia|rewrite (proj2 (Nat.ltb_ge a b)) by lia]
  | |- (if (?a <=? ?b)%nat then _ else _) _ = _ =>
      first [rewrite (proj2 (Nat.leb_le a b)) by lia|rewrite (proj2 (Nat.leb_gt a b)) by lia]
  end.

Lemma skip_ws_token p l c : is_byte c -> data !! p = Some c -> (p < len)%nat -> token c = true ->
  skip_ws g data len (mkReader p l) = HRet tt (mkReader p l).
Proof.
  intros Hc Hp Hlt Ht. unfold skip_ws. cbn [skip_ws_loop]. do 2 hdo.
  unfold token, one_of in Ht. cbn [existsb] in Ht. zbool.
  rewrite (hbind_eq _ _ _ 0%nat (mkReader p l)).
  - do 2 hdo. rewrite Nat.add_0_r. hdo. hdo. rewrite (proj2 (Z.eqb_neq c 35)) by lia. by rewrite (proj2 (Z.eqb_neq c 47)) by lia.
  - apply call_eq; [lia|]. cbn [scan_skip_ws scalar_scanner]. unfold skip_ws_scalar.
    replace (len - p)%nat with (S (len - p - 1)) by lia. rewrite (drop_S _ c p Hp). cbn [scan].
    destruct (cc_table c Hc) as (-> & _). unfold one_of. cbn [existsb]. replace (negb _) with true; [done|].
    symmetry. apply negb_true_iff. repeat (apply orb_false_iff; split); try done; lia.
Qed.

Lemma skip_ws_end p l : (len <= p)%nat -> skip_ws g data len (mkReader p l) = HRet tt (mkReader p l).
Proof. intros Hp. unfold skip_ws. cbn [skip_ws_loop]. by do 2 hdo. Qed.

(** *** Strings *)

Definition special (c : byte) : bool := (c =? 34) || (c =? 92) || (c =? 10) || (c =? 13).

(** The three shapes of an escape, and that the reader undoes each. *)
Definition escape_undone (c : byte) : bool :=
  match escape c with
  | [] => false
  | [x] => (x =? c) && negb (special c)
  | q :: x :: e => (q =? 92) &&
      match e with
      | [] => negb (x =? 117) && bool_decide (unescape x = Some c)
      | [a; b; d; e] =>
          (x =? 117) &&
          match hex_of a, hex_of b, hex_of d, hex_of e with
          | Some a, Some b, Some d, Some e => bool_decide (utf8_encode (((a * 16 + b) * 16 + d) * 16 + e) = [c])
          | _, _, _, _ => false
          end
      | _ => false
      end
  end.

Lemma escapes_undone c : is_byte c -> escape_undone c = true.
Proof.
  intros Hc. assert (forallb (fun n => escape_undone (Z.of_nat n)) (seq 0 256) = true) as H by (vm_compute; reflexivity).
  rewrite forallb_forall in H. specialize (H (Z.to_nat c)). unfold is_byte in Hc. rewrite Z2Nat.id in H by lia.
  apply H, in_seq. lia.
Qed.

(** The ordinary characters at the front of a string. *)
Lemma split_plain (s : bytes) : Forall is_byte s -> exists s1 s2, s = s1 ++ s2 /\ s1 ≫= escape = s1 /\
  Forall (fun c => special c = false) s1 /\ match s2 with [] => True | c :: _ => exists e, escape c = 92 :: e /\ e <> [] end.
Proof.
  induction 1 as [|c s Hc Hs (s1 & s2 & -> & E & HF & Hs2)]; [by exists [], []|].
  pose proof (escapes_undone c Hc) as Hu. unfold escape_undone in Hu.
  destruct (escape c) as [|x e] eqn:Ee; [done|]. destruct e as [|y e].
  - zbool. subst x. exists (c :: s1), s2. split_and!; [done| |by constructor|done]. by rewrite bind_cons, Ee, E.
  - exists [], (c :: s1 ++ s2). split_and!; [done|done|constructor|]. exists (y :: e). split; [|done]. rewrite Ee.
    zbool. by subst x.
Qed.

Lemma scan_front stop (s1 : bytes) x r n : Forall (fun c => stop c = false) s1 -> stop x = true -> (length s1 < n)%nat ->
  scan stop (s1 ++ x :: r) n = Some (length s1).
Proof.
  intros HF Hx. revert n. induction HF as [|c s1 Hc HF IH]; intros [|n] Hn; simpl in *; try lia; [by rewrite Hx|].
  by rewrite Hc, IH by lia.
Qed.

(** One round of the loop: a run of ordinary characters and the byte after it. *)
Lemma quoted_round fuel out p l s1 x t rest : text_at p (s1 ++ x :: t) rest ->
  Forall (fun c => special c = false) s1 -> special x = true ->
  quoted_loop g data len 34 (S fuel) out (mkReader p l) =
  (if x =? 34 then hret (Some (out ++ s1))
   else if (x =? 10) || (x =? 13) then hret None
   else if negb (x =? 92) then quoted_loop g data len 34 fuel ((out ++ s1) ++ [x])
   else
     p <- get_pos;;
     if (len <=? p)%nat then hret None else
     esc <- next data len;;
     if esc =? 117 then
       cp <- parse_u_escape data len;;
       match cp with Some cp => quoted_loop g data len 34 fuel ((out ++ s1) ++ utf8_encode cp) | None => hret None end
     else match unescape esc with Some x => quoted_loop g data len 34 fuel ((out ++ s1) ++ [x]) | None => hret None end)
  (mkReader (p + length s1 + 1) l).
Proof.
  intros Ht HF Hx. destruct (text_at_app _ _ _ _ Ht) as [[Hd1 _] Ht2]. destruct (text_at_lookup _ _ _ _ Ht2) as [Hp2 Hlt2].
  cbn [quoted_loop]. hdo. rewrite (proj2 (Nat.ltb_lt p len)) by lia.
  rewrite (hbind_eq _ _ _ (length s1) (mkReader p l)).
  2:{ apply call_eq; [lia|]. rewrite Hd1. simpl app. cbn [scan_find_quote_special scalar_scanner].
      unfold find_quote_or_special_scalar. apply scan_front; [exact HF|exact Hx|lia]. }
  cbv beta zeta. rewrite Hd1, take_app_length. do 2 hdo. rewrite (proj2 (Nat.leb_gt len (p + length s1))) by lia.
  rewrite (hbind_eq _ _ _ x (mkReader (p + length s1 + 1) l)); [done|].
  unfold next. do 3 hdo. done.
Qed.

Lemma next_eq p l c : data !! p = Some c -> (p < len)%nat -> next data len (mkReader p l) = HRet c (mkReader (p + 1) l).
Proof. intros Hc Hp. unfold next. by do 4 hdo. Qed.

Lemma parse_u_escape_eq p l a b c d a' b' c' d' rest : text_at p [a; b; c; d] rest ->
  hex_of a = Some a' -> hex_of b = Some b' -> hex_of c = Some c' -> hex_of d = Some d' ->
  parse_u_escape data len (mkReader p l) = HRet (Some (((a' * 16 + b') * 16 + c') * 16 + d')) (mkReader (p + 4) l).
Proof.
  intros Ht Ha Hb Hc Hd. assert (forall i x, [a; b; c; d] !! i = Some x -> data !! (p + i)%nat = Some x) as Hl.
  { intros i x Hx. destruct Ht as [E _]. rewrite <- lookup_drop, E. by apply lookup_app_l_Some. }
  pose proof (Hl 0%nat a eq_refl) as H0. pose proof (Hl 1%nat b eq_refl) as H1. pose proof (Hl 2%nat c eq_refl) as H2.
  pose proof (Hl 3%nat d eq_refl) as H3. rewrite Nat.add_0_r in H0. destruct Ht as [_ Hlen]. simpl in Hlen.
  unfold parse_u_escape. do 6 hdo. cbv beta. rewrite Ha, Hb, Hc, Hd. by hdo.
Qed.

Lemma quoted_loop_reads s : forall fuel out p l rest, Forall is_byte s -> text_at p ((s ≫= escape) ++ [34]) rest ->
  (length s < fuel)%nat ->
  quoted_loop g data len 34 fuel out (mkReader p l) = HRet (Some (out ++ s)) (mkReader (p + length ((s ≫= escape) ++ [34])) l).
Proof.
  induction s as [s IH] using (induction_ltof1 _ (@length Z)); intros fuel out p l rest Hs Ht Hf. unfold ltof in IH.
  destruct fuel as [|fuel]; [lia|].
  destruct (split_plain s Hs) as (s1 & s2 & -> & E1 & HF & Hs2). rewrite bind_app, E1, <- app_assoc in *.
  destruct s2 as [|c s2].
  - simpl in Ht. rewrite (quoted_round fuel out p l s1 34 [] rest Ht HF eq_refl). cbn [Z.eqb Pos.eqb hret].
    unfold hret. do 2 f_equal; [by rewrite app_nil_r|]. rewrite length_app. simpl. lia.
  - destruct Hs2 as (e & Ee & Hne). apply Forall_app in Hs as [Hs1 Hs2]. apply Forall_cons in Hs2 as [Hc Hs2].
    rewrite bind_cons, Ee, <- app_assoc in *. simpl in Ht. rewrite length_app in Hf. simpl in Hf.
    rewrite (quoted_round fuel out p l s1 92 _ rest Ht HF eq_refl). cbn [Z.eqb Pos.eqb orb negb].
    apply text_at_app in Ht as [_ Ht]. apply text_at_cons in Ht as [_ Ht].
    pose proof (escapes_undone c Hc) as Hu. unfold escape_undone in Hu. rewrite Ee in Hu.
    destruct e as [|x e]; [done|]. simpl in Ht. destruct (text_at_lookup _ _ _ _ Ht) as [Hx Hxlt]. do 2 hdo.
    rewrite (hbind_eq _ _ _ _ _ (next_eq _ l x Hx Hxlt)). apply text_at_cons in Ht as [_ Ht].
    apply andb_prop in Hu as [_ Hu]. destruct e as [|a [|b [|d [|e [|]]]]]; try done.
    + apply andb_prop in Hu as [Hx' Hu]. apply negb_true_iff in Hx'. rewrite Hx'.
      apply bool_decide_eq_true in Hu. rewrite Hu. simpl in Ht.
      rewrite (IH s2 ltac:(rewrite length_app; simpl; lia) fuel _ _ l rest Hs2 Ht) by lia.
      do 2 f_equal; [by rewrite <- !app_assoc|]. rewrite !length_app. simpl. lia.
    + apply andb_prop in Hu as [Hx' Hu]. rewrite Hx'.
      destruct (hex_of a) as [a'|] eqn:Ea; [|done]. destruct (hex_of b) as [b'|] eqn:Eb; [|done].
      destruct (hex_of d) as [d'|] eqn:Ed; [|done]. destruct (hex_of e) as [e'|] eqn:Ee'; [|done].
      apply bool_decide_eq_true in Hu. apply (text_at_app _ [a; b; d; e]) in Ht as [Ht1 Ht2].
      rewrite (hbind_eq _ _ _ _ _ (parse_u_escape_eq _ l a b d e a' b' d' e' _ Ht1 Ea Eb Ed Ee')). rewrite Hu. simpl in Ht2.
      rewrite (IH s2 ltac:(rewrite length_app; simpl; lia) fuel _ _ l rest Hs2 Ht2) by lia.
      do 2 f_equal; [by rewrite <- !app_assoc|]. rewrite !length_app. simpl. lia.
Qed.

(** A serialized string is read as a value and as a key. *)
Lemma read_string ml s p l rest : Forall is_byte s -> text_at p (serialize_string s) rest ->
  read_quoted_string g data len ml (mkReader p l) = HRet (Some s) (mkReader (p + length (serialize_string s)) l).
Proof.
  intros Hs Ht. unfold serialize_string in *. destruct (text_at_lookup _ _ _ _ Ht) as [Hp Hlt].
  unfold read_quoted_string. rewrite (hbind_eq _ _ _ 34 (mkReader p l)).
  2:{ unfold peek. do 2 hdo. by apply at_eq. }
  change (negb (is_cc 34 CC_QUOTE)) with false. change (is_cc 34 CC_SQUOTE) with false. cbv iota.
  rewrite (hbind_eq _ _ _ _ _ (next_eq p l 34 Hp Hlt)). simpl in Ht. apply text_at_cons in Ht as [_ Ht].
  rewrite (quoted_loop_reads s (S len) [] _ l rest Hs Ht); [do 2 f_equal; rewrite !length_app; simpl; lia|].
  destruct Ht as [_ Hl]. rewrite length_app in Hl. assert (length s <= length (s ≫= escape))%nat; [|lia]. clear.
  induction s as [|c s IH]; [done|]. rewrite bind_cons, length_app. simpl.
  assert (1 <= length (escape c))%nat; [|lia]. unfold escape. repeat case_match; simpl; lia.
Qed.

(** *** Unquoted values *)

Lemma is_comment_start_eq p l c : data !! p = Some c -> is_cc c CC_HASH = false -> is_cc c CC_SLASH = false ->
  is_comment_start data len p (mkReader p l) = HRet false (mkReader p l).
Proof. intros Hp H1 H2. unfold is_comment_start. hdo. by rewrite H1, H2. Qed.

Lemma value_step vs fuel ve p l c : data !! p = Some c -> (p < len)%nat -> is_byte c -> inner c = true ->
  value_loop data len vs (S fuel) ve (mkReader p l) = value_loop data len vs fuel (S p) (mkReader (p + 1) l).
Proof.
  intros Hp Hlt Hc Hi. destruct (inner_cc c Hc Hi) as (H1 & H2 & H3 & _ & _ & H4 & H5). cbn [value_loop]. cbv zeta. do 3 hdo.
  rewrite H1, (hbind_eq _ _ _ _ _ (is_comment_start_eq p l c Hp H2 H3)), H4. cbn [orb]. cbv iota.
  rewrite (hbind_eq null _ _ _ _ eq_refl). hdo. by rewrite H5.
Qed.

Lemma value_steps vs t : forall fuel ve p l rest, text_at p t rest -> Forall is_byte t -> Forall (fun c => inner c = true) t ->
  (length t <= fuel)%nat -> t <> [] ->
  value_loop data len vs fuel ve (mkReader p l) =
  value_loop data len vs (fuel - length t) (p + length t) (mkReader (p + length t) l).
Proof.
  induction t as [|c t IH]; intros fuel ve p l rest Ht Hb HF Hf Hne; [done|]. apply Forall_cons in Hb as [Hc Hb].
  apply Forall_cons in HF as [Hi HF]. destruct (text_at_lookup _ _ _ _ Ht) as [Hp Hlt]. simpl in Hf. destruct fuel as [|fuel]; [lia|].
  rewrite (value_step vs fuel ve p l c Hp Hlt Hc Hi). apply text_at_cons in Ht as [_ Ht]. destruct t as [|d t].
  - simpl. rewrite Nat.sub_0_r. by rewrite Nat.add_1_r.
  - rewrite (IH fuel (S p) (p + 1)%nat l rest Ht Hb HF) by (done || lia).
    replace (p + 1 + length (d :: t))%nat with (p + length (c :: d :: t))%nat by (simpl; lia). done.
Qed.

Lemma slice_text p t rest : text_at p t rest -> slice data p (Z.of_nat (length t)) = t.
Proof.
  intros [Hd Hl]. unfold slice. rewrite Hd, length_padded. rewrite Z.min_l by lia. rewrite Nat2Z.id. apply take_app_length.
Qed.

(** An unquoted value up to its closer. *)
Lemma read_unquoted p l t c rest v : text_at p (t ++ [c]) rest -> t <> [] -> Forall is_byte (t ++ [c]) ->
  Forall (fun c => inner c = true) t -> closer c = true ->
  try_parse_keyword_or_number data p (Z.of_nat (length t)) (mkReader (p + length t) l) =
    HRet (Some v) (mkReader (p + length t) (l + 1)) ->
  read_unquoted_value data len (mkReader p l) = HRet (Some v) (mkReader (p + length t) (l + 1)).
Proof using Hsize.
  intros Ht Hne [Hb [Hc _]%Forall_cons]%Forall_app HF Hcl Htry. apply text_at_app in Ht as [Ht1 Ht2].
  destruct (text_at_lookup _ _ _ _ Ht2) as [Hpc Hltc].
  destruct t as [|x t]; [done|]. destruct (text_at_lookup _ _ _ _ Ht1) as [Hp Hlt].
  pose proof (Forall_inv HF) as Hx. simpl in Hx. pose proof (Forall_inv Hb) as Hxb.
  destruct (inner_cc x Hxb Hx) as (_ & _ & _ & Hstr & _ & _ & H32).
  unfold read_unquoted_value. rewrite (hbind_eq _ _ _ x (mkReader p l)).
  2:{ unfold peek. do 2 hdo. by apply at_eq. }
  rewrite Hstr. hdo.
  replace ((sN 8 x <=? 32) && (0 <? sN 8 x)) with false.
  2:{ apply Z.gtb_lt in H32. rewrite s_of_u by (unfold u_range, is_byte in *; lia). unfold is_byte in Hxb. symmetry.
      apply andb_false_iff. destruct (Z.ltb_spec x (2 ^ (8 - 1))); simpl in *; [left|right]; lia. }
  rewrite (value_steps p (x :: t) (S len) p p l _ Ht1 Hb HF); [| |done].
  2:{ destruct Ht1 as [_ ?]. lia. }
  destruct (closer_cc c Hc Hcl) as (H1 & H2 & H3 & H4).
  assert (exists k, (S len - length (x :: t))%nat = S k) as [k ->] by (exists (len - length (x :: t))%nat; destruct Ht1; lia).
  cbn [value_loop]. cbv zeta. do 3 hdo. rewrite H1, (hbind_eq _ _ _ _ _ (is_comment_start_eq _ l c Hpc H2 H3)), H4. cbn [orb].
  cbv iota. rewrite (size_diff_fits input Hsize) by lia.
  replace (Z.of_nat (p + length (x :: t)) - Z.of_nat p) with (Z.of_nat (length (x :: t))) by lia.
  by rewrite (hbind_eq _ _ _ _ _ Htry).
Qed.

(** *** Values *)

(** What follows an unquoted value: a closer inside the input. *)
Definition follows (v : dval) (p : nat) (rest : bytes) : Prop :=
  is_leaf v = true -> exists c r, rest = c :: r /\ closer c = true /\ (p + length (print v) < len)%nat.

(** [m] reads the text of [v] as [v]. *)
Definition reads (m : HM (option dval)) (v : dval) : Prop := forall p l rest, text_at p (print v) rest -> follows v p rest ->
  m (mkReader p l) = HRet (Some v) (mkReader (p + length (print v)) (l + node_count v)).

Lemma try_parse_leaf v p q l c rest : json_value v -> is_leaf v = true -> text_at p (print v) (c :: rest) -> closer c = true ->
  try_parse_keyword_or_number data p (Z.of_nat (length (print v))) (mkReader q l) = HRet (Some v) (mkReader q (l + 1)).
Proof.
  intros Hv Hl Ht Hc. unfold try_parse_keyword_or_number. rewrite (slice_text p _ _ Ht). cbv zeta.
  destruct v as [|[|]|z|z|s|vs|kvs|kvs|s]; try done; cbn [print] in *.
  destruct (dec_chars z) as (d & t & E & HF).
  rewrite !(keyword_not_number _ (dec z)) by (rewrite ?E; done). rewrite !andb_false_r.
  replace (Z.of_nat (length (dec z)) =? 0) with false by (symmetry; apply Z.eqb_neq; rewrite E; simpl; lia). cbv iota.
  rewrite E in Ht. destruct (text_at_lookup _ _ _ _ Ht) as [Hp Hlt]. hdo.
  apply Forall_inv in HF. unfold number_start in HF. rewrite HF. rewrite <- E in Ht. destruct Ht as [Hd Hlen].
  destruct (_ >? _) eqn:Eg; [apply Z.gtb_lt in Eg; rewrite length_padded in Eg; lia|].
  rewrite Hd, try_parse_dec; [done|exact Hv|]. unfold closer, one_of in Hc. cbn [existsb] in Hc. unfold is_digit.
  rewrite !orb_true_iff, !Z.eqb_eq in Hc. apply andb_false_iff. rewrite Z.leb_gt, Z.leb_gt. lia.
Qed.

Lemma leaf_reads v : json_value v -> is_leaf v = true -> reads (read_unquoted_value data len) v.
Proof using Hsize Hbytes.
  intros Hv Hl p l rest Ht Hf. destruct (Hf Hl) as (c & r & -> & Hc & Hlt). destruct (leaf_inner v Hv Hl) as (HF & Hb & Hne).
  assert (text_at p (print v ++ [c]) r) as Ht'.
  { destruct Ht as [Hd _]. split; [by rewrite <- app_assoc|rewrite length_app; simpl; lia]. }
  replace (l + node_count v) with (l + 1) by (by destruct v).
  eapply read_unquoted; [exact Ht'|done| |done|exact Hc|by eapply try_parse_leaf].
  apply Forall_app. split; [done|]. constructor; [|done]. apply text_at_app in Ht' as [_ Ht'].
  apply (data_byte input Hbytes (p + length (print v))). by destruct (text_at_lookup _ _ _ _ Ht').
Qed.

(** *** Containers *)

Lemma starts_token p l c t rest : text_at p (c :: t) rest -> starts c = true ->
  skip_ws g data len (mkReader p l) = HRet tt (mkReader p l).
Proof using Hbytes.
  intros Ht Hc. destruct (text_at_lookup _ _ _ _ Ht) as [Hp Hlt]. apply andb_prop in Hc as [Hc _].
  apply (skip_ws_token p l c); [by eapply data_byte|done..].
Qed.

(** A separator: a comma in front of the next element, or none in front of the bracket. *)
Lemma separator_comma p l c t rest : text_at p (44 :: c :: t) rest -> starts c = true ->
  skip_separator g data len (mkReader p l) = HRet tt (mkReader (p + 1) l).
Proof using Hbytes.
  intros Ht Hc. destruct (text_at_lookup _ _ _ _ Ht) as [Hp Hlt]. unfold skip_separator.
  rewrite (hbind_eq _ _ _ tt (mkReader p l)) by (apply (skip_ws_token p l 44); done).
  do 3 hdo. cbn [Z.eqb Pos.eqb]. hdo. apply text_at_cons in Ht as [_ Ht]. by eapply starts_token.
Qed.

Lemma separator_close p l c t rest : text_at p (c :: t) rest -> c = 93 \/ c = 125 ->
  skip_separator g data len (mkReader p l) = HRet tt (mkReader p l).
Proof.
  intros Ht Hc. destruct (text_at_lookup _ _ _ _ Ht) as [Hp Hlt]. unfold skip_separator.
  assert (is_byte c /\ token c = true) as [Hb Htk] by (unfold is_byte; destruct Hc; subst; split; [lia|done|lia|done]).
  rewrite (hbind_eq _ _ _ tt (mkReader p l)) by (by apply (skip_ws_token p l c)).
  do 3 hdo. by destruct Hc; subst.
Qed.

(** The text of the elements up to the bracket [b]: after each one a comma or the bracket. *)
Lemma separator_next p l (t : bytes) (ts : list bytes) b rest :
  text_at p (comma ts ++ commas ts ++ [b]) rest -> b = 93 \/ b = 125 ->
  Forall (fun t => exists c u, t = c :: u /\ starts c = true) ts ->
  exists p', skip_separator g data len (mkReader p l) = HRet tt (mkReader p' l) /\
    text_at p' (commas ts ++ [b]) rest /\
    p' = (p + length (comma ts))%nat.
Proof using Hbytes.
  intros Ht Hb HF. destruct ts as [|u ts].
  - exists p. rewrite (separator_close p l b [] rest Ht Hb). split_and!; [done|done|simpl; lia].
  - destruct (Forall_inv HF) as (c & u' & -> & Hc). exists (p + 1)%nat. split_and!; [| |done].
    + assert (exists w, commas ((c :: u') :: ts) ++ [b] = c :: w) as [w E] by (destruct ts; simpl; by eexists).
      rewrite E in Ht. by apply (separator_comma p l c w rest).
    + by apply text_at_cons in Ht as [_ Ht].
Qed.

(** What follows an element. *)
Lemma follows_elem v p (ts : list bytes) b rest : b = 93 \/ b = 125 ->
  text_at p (print v ++ comma ts ++ commas ts ++ [b]) rest ->
  exists rest', text_at p (print v) rest' /\ follows v p rest'.
Proof.
  intros Hb Ht. apply text_at_app in Ht as [Ht1 Ht2]. eexists. split; [exact Ht1|]. intros _.
  destruct ts as [|u ts]; destruct (text_at_lookup _ _ _ _ Ht2) as [_ Hlt]; eexists _, _; (split_and!; [reflexivity| |done]); [|done].
  by destruct Hb; subst.
Qed.

Section Containers.

Context (read_child : HM (option dval)).

Lemma array_loop_reads vs : Forall (reads read_child) vs -> Forall json_value vs ->
  forall fuel acc p l rest, text_at p (commas (print <$> vs) ++ [93]) rest -> (length vs < fuel)%nat ->
  array_loop g data len read_child fuel acc (mkReader p l) =
  HRet (Some (VArray (acc ++ vs))) (mkReader (p + length (commas (print <$> vs)) + 1) (l + foldr (fun v n => node_count v + n) 0 vs)).
Proof using Hbytes.
  induction vs as [|v vs IH]; intros Hr Hj fuel acc p l rest Ht Hf; (destruct fuel as [|fuel]; [simpl in Hf; lia|]).
  - destruct (text_at_lookup _ _ _ _ Ht) as [Hp Hlt]. cbn [array_loop]. hdo. rewrite (proj2 (Nat.ltb_lt p len) Hlt).
    rewrite (hbind_eq _ _ _ false (mkReader p l)) by (by hdo). cbv iota. rewrite (proj2 (Nat.leb_gt len p) Hlt).
    rewrite (hbind_eq _ _ _ true (mkReader p l)) by (by hdo). hdo. unfold hret. rewrite app_nil_r. simpl. do 2 f_equal; lia.
  - apply Forall_cons in Hr as [Hv Hr]. apply Forall_cons in Hj as [Hjv Hj]. rewrite fmap_cons, join_cons in Ht.
    destruct (print_starts v Hjv) as (c & t & E & Hst & _).
    assert (data !! p = Some c /\ (p < len)%nat) as [Hp Hlt] by (rewrite E in Ht; by apply text_at_lookup in Ht).
    cbn [array_loop]. hdo. rewrite (proj2 (Nat.ltb_lt p len) Hlt).
    rewrite (hbind_eq _ _ _ true (mkReader p l)).
    2:{ hdo. unfold hret. do 2 f_equal. apply negb_true_iff, Z.eqb_neq. intros ->. done. }
    cbv iota. destruct (follows_elem v p (print <$> vs) 93 rest (or_introl eq_refl) Ht) as (rest' & Ht1 & Hfo).
    rewrite (hbind_eq _ _ _ _ _ (Hv p l rest' Ht1 Hfo)). cbv iota. apply text_at_app in Ht as [_ Ht].
    assert (Forall (fun t => exists c u, t = c :: u /\ starts c = true) (print <$> vs)) as Hts.
    { apply Forall_fmap. eapply Forall_impl; [exact Hj|]. intros w Hw. destruct (print_starts w Hw) as (x & u & ? & ? & _). by exists x, u. }
    destruct (separator_next _ (l + node_count v) [] (print <$> vs) 93 rest Ht (or_introl eq_refl) Hts) as (p' & Hsep & Ht' & Ep).
    rewrite (hbind_eq _ _ _ _ _ Hsep). simpl in Hf. rewrite (IH Hr Hj fuel _ p' _ rest Ht') by lia.
    rewrite fmap_cons, join_length, <- app_assoc. cbn [foldr app]. do 2 f_equal; lia.
Qed.

Lemma read_array_reads vs : Forall (reads read_child) vs -> Forall json_value vs ->
  forall p l rest, text_at p (commas (print <$> vs) ++ [93]) rest ->
  read_array g data len read_child (mkReader p l) =
  HRet (Some (VArray vs)) (mkReader (p + length (commas (print <$> vs)) + 1) (l + node_count (VArray vs))).
Proof using Hbytes.
  intros Hr Hj p l rest Ht. unfold read_array. hdo.
  rewrite (hbind_eq _ _ _ tt (mkReader p (l + 1))).
  - rewrite (array_loop_reads vs Hr Hj (S len) [] p (l + 1) rest Ht); [simpl; do 2 f_equal; lia|].
    destruct Ht as [_ Hl]. rewrite length_app in Hl. assert (length vs <= length (commas (print <$> vs)))%nat; [|simpl in Hl; lia].
    clear -Hj Hsize Hbytes. induction Hj as [|v vs Hv Hj IH]; [done|]. rewrite fmap_cons, join_length.
    destruct (print_starts v Hv) as (c & t & -> & _). simpl. lia.
  - destruct vs as [|v vs].
    + destruct (text_at_lookup _ _ _ _ Ht) as [Hp Hlt]. by apply (skip_ws_token p _ 93).
    + rewrite fmap_cons, join_cons in Ht. apply Forall_cons in Hj as [Hv _]. destruct (print_starts v Hv) as (c & t & E & Hst & _).
      rewrite E in Ht. by apply (starts_token p _ c _ rest Ht).
Qed.

(** An entry of an object. *)
Definition entry (e : bytes * dval) : bytes := serialize_string e.1 ++ [58] ++ print e.2.
Definition entry_ok (e : bytes * dval) : Prop := Forall is_byte e.1 /\ json_value e.2.

Lemma entry_starts e : exists t, entry e = 34 :: t.
Proof. unfold entry, serialize_string. simpl. by eexists. Qed.

Lemma entries_start es : Forall (fun t => exists c u, t = c :: u /\ starts c = true) (entry <$> es).
Proof. apply Forall_fmap, Forall_forall. intros e _. destruct (entry_starts e) as [t E]. by exists 34, t. Qed.

Lemma peek_at_some off p l : exists c, peek_at data len off (mkReader p l) = HRet c (mkReader p l).
Proof.
  unfold peek_at. rewrite (hbind_eq get_pos _ _ _ _ eq_refl). cbn [rpos]. destruct (Nat.ltb_spec (p + off) len); [|by exists 0].
  destruct (data !! (p + off)%nat) as [c|] eqn:E; [exists c; by apply at_eq|]. apply lookup_ge_None in E. rewrite length_padded in E. lia.
Qed.

Lemma peek_eq p l c : data !! p = Some c -> (p < len)%nat -> peek data len (mkReader p l) = HRet c (mkReader p l).
Proof. intros Hp Hlt. unfold peek. do 2 hdo. by apply at_eq. Qed.

Lemma read_key_reads k p l rest : Forall is_byte k -> text_at p (serialize_string k) rest ->
  read_key g data len (mkReader p l) = HRet (Some k) (mkReader (p + length (serialize_string k)) l).
Proof.
  intros Hk Ht. destruct (text_at_lookup _ _ _ _ Ht) as [Hp Hlt]. unfold read_key.
  rewrite (hbind_eq _ _ _ _ _ (peek_eq p l 34 Hp Hlt)). change (is_cc 34 CC_QUOTE) with true. cbv iota.
  destruct (peek_at_some 1 p l) as [a Ha]. rewrite (hbind_eq _ _ _ _ _ Ha).
  destruct (peek_at_some 2 p l) as [b Hb]. rewrite (hbind_eq _ _ _ _ _ Hb).
  change (is_cc 34 CC_SQUOTE) with false. cbn [andb]. by apply (read_string false k p l rest).
Qed.

Lemma object_loop_reads es : Forall (fun e => reads read_child e.2) es -> Forall entry_ok es ->
  forall fuel acc p l rest, NoDup (acc.*1 ++ es.*1) -> text_at p (commas (entry <$> es) ++ [125]) rest -> (length es < fuel)%nat ->
  object_loop g data len read_child true fuel acc (mkReader p l) =
  HRet (Some (VObject (acc ++ es))) (mkReader (p + length (commas (entry <$> es)) + 1) (l + below es)).
Proof using Hbytes.
  induction es as [|[k v] es IH]; intros Hr Hj fuel acc p l rest Hnd Ht Hf; (destruct fuel as [|fuel]; [simpl in Hf; lia|]).
  - destruct (text_at_lookup _ _ _ _ Ht) as [Hp Hlt]. cbn [object_loop]. hdo. rewrite (proj2 (Nat.ltb_lt p len) Hlt).
    rewrite (hbind_eq _ _ _ false (mkReader p l)) by (by hdo). cbv iota. rewrite (proj2 (Nat.leb_gt len p) Hlt).
    rewrite (hbind_eq _ _ _ true (mkReader p l)) by (by hdo). hdo. unfold hret, below. rewrite app_nil_r. simpl. do 2 f_equal; lia.
  - apply Forall_cons in Hr as [Hv Hr]. apply Forall_cons in Hj as [[Hk Hjv] Hj]. simpl in Hk, Hjv, Hv. rewrite fmap_cons, join_cons in Ht.
    unfold entry at 1 in Ht. cbn [fst snd] in Ht. rewrite <- !app_assoc in Ht. destruct (text_at_lookup p 34 _ rest Ht) as [Hp Hlt].
    cbn [object_loop]. hdo. rewrite (proj2 (Nat.ltb_lt p len) Hlt).
    rewrite (hbind_eq _ _ _ true (mkReader p l)) by (by hdo). cbv iota. apply text_at_app in Ht as [Ht1 Ht].
    rewrite (hbind_eq _ _ _ _ _ (read_key_reads k p l _ Hk Ht1)). cbv iota.
    set (p1 := (p + length (serialize_string k))%nat) in *. simpl in Ht. destruct (text_at_lookup _ _ _ _ Ht) as [Hp1 Hlt1].
    rewrite (hbind_eq _ _ _ tt (mkReader p1 l)) by (by apply (skip_ws_token p1 l 58)).
    rewrite (hbind_eq _ _ _ _ _ (peek_eq p1 l 58 Hp1 Hlt1)). cbn [Z.eqb Pos.eqb negb]. hdo. apply text_at_cons in Ht as [_ Ht].
    destruct (print_starts v Hjv) as (c & t & E & Hst & _).
    rewrite (hbind_eq _ _ _ tt (mkReader (p1 + 1) l)) by (rewrite E in Ht; by apply (starts_token (p1 + 1) l c _ rest Ht)).
    destruct (follows_elem v (p1 + 1) (entry <$> es) 125 rest (or_intror eq_refl) Ht) as (rest' & Ht2 & Hfo).
    rewrite (hbind_eq _ _ _ _ _ (Hv (p1 + 1)%nat l rest' Ht2 Hfo)). cbv iota.
    assert (k ∉ acc.*1) as Hnew.
    { apply list.NoDup_app in Hnd as (_ & Hdis & _). intros Hin. apply (Hdis k Hin). constructor. }
    destruct (set_key_new k v acc Hnew) as [Eset Efind].
    rewrite (hbind_eq _ _ _ (acc ++ [(k, v)]) (mkReader (p1 + 1 + length (print v)) (l + node_count v)))
      by (unfold obj_insert; by rewrite Efind, Eset).
    apply text_at_app in Ht as [_ Ht].
    destruct (separator_next _ (l + node_count v) [] (entry <$> es) 125 rest Ht (or_intror eq_refl) (entries_start es)) as (p' & Hsep & Ht' & Ep).
    rewrite (hbind_eq _ _ _ _ _ Hsep). simpl in Hf.
    rewrite (IH Hr Hj fuel _ p' _ rest) by (rewrite ?fmap_app, <- ?app_assoc; done || lia).
    rewrite fmap_cons, join_length, <- app_assoc. unfold entry at 2. unfold below. cbn [foldr app fst snd].
    rewrite length_app. change (length (58 :: print v)) with (S (length (print v))). do 2 f_equal; subst p1; lia.
Qed.

Lemma read_object_reads es : Forall (fun e => reads read_child e.2) es -> Forall entry_ok es -> NoDup es.*1 ->
  forall p l rest, text_at p (commas (entry <$> es) ++ [125]) rest ->
  read_object g data len read_child true (mkReader p l) =
  HRet (Some (VObject es)) (mkReader (p + length (commas (entry <$> es)) + 1) (l + node_count (VObject es))).
Proof using Hbytes.
  intros Hr Hj Hnd p l rest Ht. unfold read_object. hdo.
  rewrite (hbind_eq _ _ _ tt (mkReader p (l + 1))).
  - rewrite (object_loop_reads es Hr Hj (S len) [] p (l + 1) rest Hnd Ht); [unfold below; simpl; do 2 f_equal; lia|].
    destruct Ht as [_ Hl]. rewrite length_app in Hl. assert (length es <= length (commas (entry <$> es)))%nat; [|simpl in Hl; lia].
    clear. induction es as [|e es IH]; [done|]. rewrite fmap_cons, join_length.
    assert (1 <= length (entry e))%nat by (unfold entry, serialize_string; simpl; lia). simpl. lia.
  - destruct es as [|e es].
    + destruct (text_at_lookup _ _ _ _ Ht) as [Hp Hlt]. by apply (skip_ws_token p _ 125).
    + rewrite fmap_cons, join_cons in Ht. destruct (entry_starts e) as [t E]. rewrite E in Ht. by apply (starts_token p _ 34 _ rest Ht).
Qed.

End Containers.

(** [read_value] at the first byte of a value. *)
Lemma read_value_at levels p l c t rest : text_at p (c :: t) rest -> starts c = true ->
  read_value g data len (S levels) (mkReader p l) =
  (if c =? 123 then advance 1;;; read_object g data len (read_value g data len levels) true
   else if c =? 91 then advance 1;;; read_array g data len (read_value g data len levels)
   else if is_cc c CC_QUOTE then
     s <- read_quoted_string g data len true;; match s with Some s => make (VString s) | None => null end
   else read_unquoted_value data len) (mkReader p l).
Proof using Hbytes.
  intros Ht Hst. destruct (text_at_lookup _ _ _ _ Ht) as [Hp Hlt]. cbn [read_value]. unfold read_value_body.
  rewrite (hbind_eq _ _ _ _ _ (starts_token p l c t rest Ht Hst)). do 3 hdo. done.
Qed.

(** Every JSON value is read back from its text. *)
Lemma value_reads v : forall levels, json_value v -> (depth v <= levels)%nat -> reads (read_value g data len levels) v.
Proof using Hbytes Hsize.
  assert (forall v levels, json_value v -> is_leaf v = true -> reads (read_value g data len (S levels)) v) as Hleaf.
  { intros w levels Hj Hl p l rest Ht Hfo. destruct (print_starts w Hj) as (c & t & E & Hst & Hw). destruct (Hw Hl) as (Hq & H1 & H2).
    pose proof Ht as Ht'. rewrite E in Ht'. rewrite (read_value_at levels p l c t rest Ht' Hst).
    rewrite (proj2 (Z.eqb_neq c 123) H1), (proj2 (Z.eqb_neq c 91) H2), Hq. by apply (leaf_reads w Hj Hl p l rest). }
  induction v as [| | | |s|vs IH|kvs IH|kvs IH|] using dval_ind'; intros levels Hj Hd;
    (destruct levels as [|levels]; [simpl in Hd; lia|]); try (by apply Hleaf); intros p l rest Ht _.
  - rewrite (read_value_at levels p l 34 _ rest Ht eq_refl). cbn [Z.eqb Pos.eqb]. change (is_cc 34 CC_QUOTE) with true. cbv iota.
    by rewrite (hbind_eq _ _ _ _ _ (read_string true s p l rest Hj Ht)).
  - rewrite (read_value_at levels p l 91 _ rest Ht eq_refl). cbn [Z.eqb Pos.eqb]. hdo. apply text_at_cons in Ht as [_ Ht].
    simpl in Hj. apply foldr_and_Forall in Hj. simpl in Hd. apply le_S_n in Hd.
    rewrite (read_array_reads _ vs) with (rest := rest); [|clear Ht|done|done].
    + cbn [print app]. rewrite length_cons, length_app. cbn [length]. do 2 f_equal; lia.
    + induction IH as [|v vs Hv IH IHl]; constructor; apply Forall_cons in Hj as [Hjv Hj]; simpl in Hd; [apply Hv; [done|lia]|apply IHl; [done|lia]].
  - rewrite (read_value_at levels p l 123 _ rest Ht eq_refl). cbn [Z.eqb Pos.eqb]. hdo. apply text_at_cons in Ht as [_ Ht].
    simpl in Hj. destruct Hj as [Hnd Hj]. apply foldr_and_Forall in Hj. simpl in Hd. apply le_S_n in Hd.
    rewrite (read_object_reads _ kvs) with (rest := rest); [|clear Ht|exact Hj|done|done].
    + change (print (VObject kvs)) with ([123] ++ commas (entry <$> kvs) ++ [125]). rewrite !length_app. cbn [length]. do 2 f_equal; lia.
    + clear Hnd. induction IH as [|v vs Hv IH IHl]; constructor; apply Forall_cons in Hj as [[_ Hjv] Hj]; simpl in Hd; [apply Hv; [done|lia]|apply IHl; [done|lia]].
Qed.

End Read.

Lemma print_bytes v : json_value v -> Forall is_byte (print v).
Proof.
  assert (forall s, Forall is_byte s -> Forall is_byte (serialize_string s)) as Hstr.
  { intros s Hs. unfold serialize_string. repeat (apply Forall_app; split); try (repeat constructor; unfold is_byte; lia).
    induction Hs as [|c s Hc Hs IH]; [constructor|]. rewrite bind_cons. apply Forall_app. split; [|done].
    pose proof Hc as Hc'. unfold is_byte in Hc'. assert (c ∈ Z.of_nat <$> seq 0 256) as Hin.
    { apply list_elem_of_fmap. exists (Z.to_nat c). rewrite elem_of_seq. lia. }
    assert (Forall (fun c => Forall (fun x => bool_decide (0 <= x < 256) = true) (escape c)) (Z.of_nat <$> seq 0 256)) as HF.
    { apply (bool_decide_eq_true_1 _). vm_compute. reflexivity. }
    rewrite Forall_forall in HF. eapply Forall_impl; [exact (HF c Hin)|]. intros x Hx. by apply bool_decide_eq_true in Hx. }
  assert (forall ts, Forall (Forall is_byte) ts -> Forall is_byte (commas ts)) as Hjoin.
  { intros ts. induction 1 as [|t ts Ht Hts IH]; [constructor|]. destruct ts as [|u ts]; [done|].
    change (Forall is_byte (t ++ [44] ++ commas (u :: ts))). repeat (apply Forall_app; split); try done. repeat constructor; unfold is_byte; lia. }
  induction v as [|[|]|z|z|s|vs IH|kvs IH|kvs IH|s] using dval_ind'; intros Hj; try done.
  1-3: cbn [print str]; repeat constructor; unfold is_byte; lia.
  - simpl. destruct (dec_chars z) as (c & t & -> & HF). eapply Forall_impl; [exact HF|]. intros x Hx. by apply number_char.
  - by apply Hstr.
  - simpl in *. apply foldr_and_Forall in Hj. constructor; [unfold is_byte; lia|]. apply Forall_app. split; [|repeat constructor; unfold is_byte; lia].
    apply Hjoin, Forall_fmap. rewrite Forall_forall in *. intros v Hv. apply IH; auto.
  - simpl in *. destruct Hj as [_ Hj]. apply foldr_and_Forall in Hj. constructor; [unfold is_byte; lia|]. apply Forall_app. split; [|repeat constructor; unfold is_byte; lia].
    apply Hjoin, Forall_fmap. rewrite Forall_forall in *. intros e He. destruct (Hj e He) as [Hk Hv].
    change (Forall is_byte (serialize_string e.1 ++ [58] ++ print e.2)).
    apply Forall_app. split; [by apply Hstr|]. constructor; [unfold is_byte; lia|]. apply IH; auto.
Qed.

(** The root of a document. *)
Lemma parse_root_reads v : match v with VArray _ | VObject _ => True | _ => False end -> json_value v -> (depth v <= S kMaxDepth)%nat ->
  Z.of_nat (length (print v)) < 2 ^ 62 ->
  parse_root scalar_scanner (padded (print v)) (length (print v)) (mkReader 0 0) = HRet (Some v) (mkReader (length (print v)) (node_count v)).
Proof.
  intros Hc Hj Hd Hs. pose proof (print_bytes v Hj) as Hb.
  assert (text_at (print v) 0 (print v) (replicate kPadding 0)) as Ht by (split; [done|lia]).
  assert (follows (print v) v 0 (replicate kPadding 0)) as Hf by (by destruct v; intros H).
  pose proof (value_reads (print v) Hb Hs v (S kMaxDepth) Hj Hd 0%nat 0 _ Ht Hf) as Hr.
  destruct (print_starts v Hj) as (c & t & E & Hst & _).
  assert (c = 91 \/ c = 123) as Hc'. { destruct v; try done; simpl in E; injection E as <-; auto. }
  pose proof Ht as Ht'. rewrite E in Ht' at 2. destruct (text_at_lookup _ _ _ _ _ Ht') as [Hp Hlt].
  unfold parse_root. cbv zeta. rewrite (hbind_eq _ _ _ tt (mkReader 0 0)) by (by eapply starts_token).
  rewrite (hbind_eq get_pos _ _ _ _ eq_refl). cbn [rpos]. rewrite (proj2 (Nat.leb_gt _ _) Hlt).
  rewrite (hbind_eq _ _ _ c (mkReader 0 0)) by (by apply at_eq).
  set (top := read_value scalar_scanner (padded (print v)) (length (print v)) (S kMaxDepth)) in *.
  assert ((u <- top;; whole_input scalar_scanner (padded (print v)) (length (print v)) u) (mkReader 0 0) =
          HRet (Some v) (mkReader (length (print v)) (node_count v))) as Htop.
  { rewrite Nat.add_0_l, Z.add_0_l in Hr. rewrite (hbind_eq _ _ _ _ _ Hr). cbn [whole_input]. rewrite (hbind_eq _ _ _ _ _ (skip_ws_end _ _ _ (Nat.le_refl _))).
    rewrite (hbind_eq get_pos _ _ _ _ eq_refl). cbn [rpos]. by rewrite Nat.ltb_irrefl. }
  destruct Hc'; subst c; exact Htop.
Qed.


#[local] Instance pool0 : NodeAllocator FixedPool := pool_allocator 0.

