(* ===== verification/HjsonNodes.v ===== *)
(** * The nodes [HjsonParse] returns

    The value the Hjson parser returns has distinct keys ([ObjInsert] replaces),
    so its nodes can be allocated with [build]; [ParseHjson] is the parser on the
    heap. *)

From stdpp Require Import base numbers list gmap.
From Stdlib Require Import ZArith Lia.
From S2P Require Import Prelude NodePool DataMap DataValue Float Text DataNode DataRefcount DataCopy JsonText JsonParse MsgPack DataBuild ParsedNodes HjsonScan Hjson HjsonSafe.

#[local] Open Scope hjson_scope.

(** ** What a computation returns *)

Definition gives {A} (m : HM A) (Q : A -> Prop) : Prop := forall r a r', m r = HRet a r' -> Q a.

Lemma g_ret {A} (a : A) (Q : A -> Prop) : Q a -> gives (hret a) Q.
Proof. intros H r b r' [= <- <-]. done. Qed.

Lemma g_bind {A B} (m : HM A) (k : A -> HM B) (R : A -> Prop) Q : gives m R -> (forall a, R a -> gives (k a) Q) -> gives (hbind m k) Q.
Proof. intros Hm Hk r b r'. unfold hbind. destruct (m r) as [a r1| | |] eqn:E; try done. apply (Hk a). by eapply Hm. Qed.

Lemma g_then {A B} (m : HM A) (k : A -> HM B) Q : (forall a, gives (k a) Q) -> gives (hbind m k) Q.
Proof. intros Hk. eapply (g_bind m k (fun _ => True)); [done|]. auto. Qed.

Lemma g_make v : vwf v -> gives (make v) okv.
Proof. by intros Hv r a r' [= <- <-]. Qed.

Lemma g_null : gives null okv.
Proof. by apply g_ret. Qed.

Lemma g_drop v : gives (drop_null v) okv.
Proof. apply g_then. intros _. apply g_null. Qed.

Section Parser.

Context (g : Scanner) (data : bytes) (len : nat).

Lemma number_vwf tail text v : try_parse_number tail text = Some v -> vwf v.
Proof.
  unfold try_parse_number. destruct (number_shape text) as [[|]|]; [| |done]; cbv zeta;
    repeat (lazymatch goal with |- (if ?c then _ else _) = _ -> _ => destruct c end; try done); by intros [= <-].
Qed.

Lemma g_string start n : gives (make_string data start n) okv.
Proof. unfold make_string. destruct (_ >? _); [done|]. destruct (_ >? _); [done|]. by apply g_make. Qed.

Lemma g_keyword start n : gives (try_parse_keyword_or_number data start n) okv.
Proof.
  unfold try_parse_keyword_or_number. destruct (n =? 0); [apply g_null|]. do 3 (destruct (_ && _); [by apply g_make|]).
  apply g_then. intros c. destruct (_ || _); [|apply g_null]. destruct (_ >? _); [done|].
  destruct (try_parse_number _ _) as [v|] eqn:E; [|apply g_null]. apply g_make. by eapply number_vwf.
Qed.

Lemma g_value_loop start fuel : forall ve, gives (value_loop data len start fuel ve) okv.
Proof.
  induction fuel as [|fuel IH]; intros ve; [done|]. cbn [value_loop].
  set (fin := if size_diff ve start =? 0 then null else _). assert (gives fin okv) as Hfin.
  { unfold fin. destruct (_ =? 0); [apply g_null|]. eapply g_bind; [apply g_keyword|]. intros [v|] Hv; [by apply g_ret|apply g_string]. }
  clearbody fin. apply g_then. intros p. destruct (_ <=? _)%nat; [exact Hfin|]. apply g_then. intros c. destruct (is_cc c CC_NL); [exact Hfin|].
  apply g_then. intros com. cbv zeta. eapply (g_bind _ _ okv); [destruct (_ || _ || _ || _); [apply g_keyword|apply g_null]|].
  intros [v|] Hv; [by apply g_ret|]. apply g_then. intros _. apply IH.
Qed.

Lemma g_unquoted : gives (read_unquoted_value data len) okv.
Proof. unfold read_unquoted_value. apply g_then. intros c. destruct (is_cc _ _); [apply g_null|]. apply g_then. intros p. apply g_value_loop. Qed.

Lemma g_insert k v kvs : entries_ok kvs -> vwf v -> gives (obj_insert k v kvs) entries_ok.
Proof. intros [H1 H2] Hv. unfold obj_insert. destruct (find_key k kvs); [apply g_then; intros _|]; apply g_ret; by apply set_key_wf. Qed.

Section Level.

Context (read_child : HM (option dval)) (Hchild : gives read_child okv).

Lemma g_object_loop braced fuel : forall acc, entries_ok acc -> gives (object_loop g data len read_child braced fuel acc) okv.
Proof using Hchild.
  induction fuel as [|fuel IH]; intros acc Hacc; [done|]. cbn [object_loop].
  assert (gives (hret (Some (VObject acc))) okv) as Hok by (apply g_ret; destruct Hacc; split; [done|by apply foldr_and]).
  apply g_then. intros p. apply g_then. intros [].
  - apply g_then. intros [key|]; [|apply g_drop]. apply g_then. intros _. apply g_then. intros c. destruct (negb _); [apply g_drop|].
    do 2 (apply g_then; intros _). eapply g_bind; [exact Hchild|]. intros [v|] Hv; [|apply g_drop].
    eapply g_bind; [by apply g_insert|]. intros acc' Hacc'. apply g_then. intros _. by apply IH.
  - destruct braced; [|exact Hok]. apply g_then. intros []; [apply g_then; intros _; exact Hok|apply g_drop].
Qed.

Lemma g_array_loop fuel : forall acc, Forall vwf acc -> gives (array_loop g data len read_child fuel acc) okv.
Proof using Hchild.
  induction fuel as [|fuel IH]; intros acc Hacc; [done|]. cbn [array_loop].
  apply g_then. intros p. apply g_then. intros [].
  - eapply g_bind; [exact Hchild|]. intros [v|] Hv; [|apply g_drop]. apply g_then. intros _. apply IH. by apply Forall_app_2; [|constructor].
  - apply g_then. intros []; [apply g_then; intros _; apply g_ret; cbn; by apply foldr_and|apply g_drop].
Qed.

Lemma g_object braced : gives (read_object g data len read_child braced) okv.
Proof using Hchild. do 2 (apply g_then; intros _). apply g_object_loop, entries_nil. Qed.

Lemma g_body : gives (read_value_body g data len read_child) okv.
Proof using Hchild.
  unfold read_value_body. apply g_then. intros _. apply g_then. intros p. destruct (_ <=? _)%nat; [apply g_null|]. apply g_then. intros c.
  destruct (c =? 123); [apply g_then; intros _; apply g_object|]. destruct (c =? 91).
  { apply g_then. intros _. do 2 (apply g_then; intros _). by apply g_array_loop. }
  destruct (is_cc _ _); [|apply g_unquoted]. apply g_then. intros [s|]; [by apply g_make|apply g_null].
Qed.

End Level.

Lemma g_value levels : gives (read_value g data len levels) okv.
Proof. induction levels as [|levels IH]; [apply g_null|]. by apply g_body. Qed.

Lemma g_whole v : okv v -> gives (whole_input g data len v) okv.
Proof. intros Hv. destruct v as [v|]; [|apply g_null]. do 2 (apply g_then; intros ?). destruct (_ <? _)%nat; [apply g_drop|by apply g_ret]. Qed.

Lemma g_root : gives (parse_root g data len) okv.
Proof.
  unfold parse_root. cbv zeta. apply g_then. intros _. apply g_then. intros p. destruct (_ <=? _)%nat; [apply g_null|]. apply g_then. intros c.
  assert (gives (v <- read_value g data len (S kMaxDepth);; whole_input g data len v) okv) as Htop by (eapply g_bind; [apply g_value|apply g_whole]).
  destruct (c =? 91); [exact Htop|]. destruct (negb _); [|exact Htop].
  eapply g_bind; [apply g_object, g_value|]. intros obj Ho. eapply g_bind; [by apply g_whole|]. intros [v|] Hv; [by apply g_ret|].
  do 2 (apply g_then; intros _). exact Htop.
Qed.

End Parser.

Lemma HjsonParse_vwf g input v r : HjsonParse g input = HRet v r -> okv v.
Proof. unfold HjsonParse. destruct input; [by intros [= <- _]|]. apply g_root. Qed.

(** ** On the heap *)

Section Heap.

Context {MO : DataMap bytes} {MI : DataMap Z} {P : Type} {PA : NodeAllocator P}.

(** [None]: the parser throws, or reads out of bounds. *)
Definition ParseHjson (g : Scanner) (input : bytes) (st : store (P := P)) : option (option loc * store) :=
  match HjsonParse g input with
  | HRet (Some v) _ => build v st
  | HRet None _ => Some (None, st)
  | _ => None
  end.

Lemma ParseHjson_inv no_simd has_avx2 input (st : store (P := P)) ext : Forall is_byte input -> Forall plain_byte input ->
  Z.of_nat (length input) < 2 ^ 62 -> inv st ext ->
  exists r s, ParseHjson (init_scanner no_simd has_avx2) input st = Some (r, s) /\ inv s (option_list r ++ ext).
Proof.
  intros Hb Hp Hl Hi. unfold ParseHjson. destruct (HjsonParse_total no_simd has_avx2 input Hb Hl) as [(v & r & E & _)|[_ Hn]]; [|done].
  rewrite E. apply HjsonParse_vwf in E. destruct v as [v|]; [by apply build_inv|]. by exists None, st.
Qed.

End Heap.
