(* ===== verification/DataMerge.v ===== *)
(** * Acyclic data, and merging into a container

    An acyclic heap represents a value at every node, so the recursive
    operations are defined on it.  [ObjMerge], [IntMapMerge] (as long as they
    overwrite nothing) and [ArrExtend] add deep copies to a container that the
    copied data does not contain. *)

From stdpp Require Import base numbers list gmap.
From Stdlib Require Import ZArith Lia.
From S2P Require Import Prelude NodePool DataMap DataValue DataNode DataRefcount DataCopy JsonText.

Lemma Forall2_exists {A B} (R : A -> B -> Prop) xs :
  (forall x, x ∈ xs -> exists y, R x y) -> exists ys, Forall2 R xs ys.
Proof.
  induction xs as [|x xs IH]; intros H; [by exists []|].
  destruct (H x) as [y Hy]; [constructor|]. destruct IH as [ys Hys]; [intros z Hz; apply H; by constructor|].
  exists (y :: ys). by constructor.
Qed.

Section Acyclic.

Context {MO : DataMap bytes} {MI : DataMap Z} {P : Type} {PA : NodeAllocator P}.

Implicit Types (m : gmap loc DataNode) (st : store (P := P)) (ext : list loc).

(** Every child of a node is a node. *)
Definition closed_heap m : Prop := forall d l, points m d l -> is_Some (m !! l).

Lemma inv_closed st ext : inv st ext -> closed_heap (cells st).
Proof. intros Hi d l (c & Hc & Hl). by eapply inv_child_live. Qed.

Lemma acyclic_repr m : closed_heap m -> acyclic m -> forall l, is_Some (m !! l) -> exists v, repr m l v.
Proof.
  intros Hcl [rank Hrank] l. remember (rank l) as r eqn:Er. revert l Er.
  induction (lt_wf r) as [r _ IH]. intros l -> [c Hc].
  assert (forall x, x ∈ children (pay c) -> exists v, repr m x v) as Hch.
  { intros x Hx. assert (points m l x) as Hp by (by exists c). apply (IH (rank x)); [by apply Hrank|done|by eapply Hcl]. }
  assert (forall K (es : list (K * loc)), (forall x, x ∈ es.*2 -> exists v, repr m x v) ->
            exists kvs, Forall2 (entry_repr (repr m)) es kvs) as Hes.
  { intros K es Hx. apply Forall2_exists. intros [k x] Hk. destruct (Hx x) as [v Hv]; [|by exists (k, v)].
    apply list_elem_of_fmap. by exists (k, x). }
  destruct (pay c) as [|b|z|z|s|a|q|q|s] eqn:Ep.
  - exists VNull. apply repr_unfold. exists c. by rewrite Ep.
  - exists (VBool b). apply repr_unfold. exists c. by rewrite Ep.
  - exists (VInt z). apply repr_unfold. exists c. by rewrite Ep.
  - exists (VFloat z). apply repr_unfold. exists c. by rewrite Ep.
  - exists (VString s). apply repr_unfold. exists c. by rewrite Ep.
  - destruct (Forall2_exists (repr m) a Hch) as [vs Hvs]. exists (VArray vs). apply repr_unfold. exists c. by rewrite Ep.
  - destruct (Hes _ (dm_list q) Hch) as [kvs Hk]. exists (VObject kvs). apply repr_unfold. exists c. by rewrite Ep.
  - destruct (Hes _ (dm_list q) Hch) as [kvs Hk]. exists (VIntMap kvs). apply repr_unfold. exists c. by rewrite Ep.
  - exists (VBinary s). apply repr_unfold. exists c. by rewrite Ep.
Qed.

(** A value below [x] does not depend on a node that cannot be reached from [x]. *)
Lemma repr_outside m n x v : closed_heap m -> ~ rtc (points m) x n -> repr m x v -> repr (delete n m) x v.
Proof.
  intros Hcl Hn. apply (repr_transfer m (delete n m) (fun y => rtc (points m) x y)); [| |constructor].
  - intros l c Hl Hc. exists c. split; [|done]. rewrite lookup_delete_ne; [done|]. by intros ->.
  - intros l c k Hl Hc Hk. eapply rtc_r; [exact Hl|]. by exists c.
Qed.

(** ** Adding copies to the container [n] *)

Definition rest n st : gmap loc DataNode := delete n (cells st).

Lemma copy_outside n st ext c x v : inv st ext -> cells st !! n = Some c -> repr (rest n st) x v ->
  exists e st1, DeepCopy x st = Some (e, st1) /\ inv st1 (e :: ext) /\ cells st1 !! n = Some c /\
    rest n st ⊆ rest n st1 /\ exists w, repr (rest n st1) e w /\ w ≡ cut v.
Proof.
  intros Hinv Hc Hr. destruct (DeepCopy_copies st ext x v Hinv) as (e & st1 & Hd & Hi & Hs & w & Hw & Ew & _).
  { eapply repr_mono; [apply delete_subseteq|exact Hr]. }
  exists e, st1. split_and!; [done|done|by eapply lookup_weaken|by apply delete_mono|].
  exists w. split; [|done]. eapply repr_mono; [|exact Hw]. apply map_subseteq_spec. intros k d Hk.
  apply lookup_difference_Some in Hk as [Hk Hn]. unfold rest. rewrite lookup_delete_ne; [done|]. intros <-. congruence.
Qed.

(** Storing new contents with one more child. *)
Lemma add_child n st ext c p e : inv st (e :: ext) -> n ∈ ext -> cells st !! n = Some c ->
  children p ≡ₚ e :: children (pay c) ->
  exists st', set_pay n p st = Some st' /\ inv st' ext /\ cells st' !! n = Some (with_pay p c) /\ rest n st' = rest n st.
Proof.
  intros Hinv Hn Hc Hp.
  destruct (drop_then_set st (e :: ext) ext n c p [] Hinv Hc Hn) as (st1 & st2 & Hf & Hs & Hi & _).
  { rewrite Hp. simpl. by rewrite Permutation_middle. }
  injection Hf as <-. exists st2. unfold set_pay in Hs. rewrite Hc in Hs. injection Hs as <-.
  split_and!; [unfold set_pay; by rewrite Hc|done|apply lookup_insert_eq|].
  unfold rest. simpl. by rewrite delete_insert_eq.
Qed.

Section MergeInv.

Context {K : Type} {EqK : EqDecision K} {CK : Countable K} {DK : DataMap K} {MP : MapPayload K}.
Context (Hget : forall p (q : dm K loc), mp_get p = Some q -> p = mp_put q)
        (Hput : forall q : dm K loc, mp_get (mp_put q) = Some q)
        (Hch : forall q : dm K loc, children (mp_put q) = (dm_list q).*2).

(** The merge loop when nothing is overwritten: entries whose key is present
    are skipped, the others are added as copies. *)
Lemma merge_loop n ext overwrite : n ∈ ext -> forall es kvs st (q : dm K loc) c,
  inv st ext -> cells st !! n = Some c -> pay c = mp_put q ->
  Forall2 (entry_repr (repr (rest n st))) es kvs -> NoDup es.*1 ->
  (overwrite = true -> forall k, k ∈ es.*1 -> dm_map q !! k = None) ->
  exists st' (q' : dm K loc) c', foldM (merge_entry n overwrite) es st = Some st' /\ inv st' ext /\
    cells st' !! n = Some c' /\ pay c' = mp_put q' /\ rest n st ⊆ rest n st' /\
    (forall k x, dm_map q !! k = Some x -> dm_map q' !! k = Some x) /\
    (forall k, is_Some (dm_map q' !! k) <-> is_Some (dm_map q !! k) \/ k ∈ es.*1) /\
    (forall k v, (k, v) ∈ kvs -> dm_map q !! k = None ->
       exists e w, dm_map q' !! k = Some e /\ repr (rest n st') e w /\ w ≡ cut v).
Proof using Hget Hput Hch.
  intros Hn. induction es as [|[k x] es IH]; intros kvs st q c Hinv Hc Hq HF Hnd Hov.
  { apply Forall2_nil_inv_l in HF as ->. exists st, q, c. split_and!; [done..| |].
    - intros k. split; [by left|]. intros [?|Hk]; [done|]. by apply not_elem_of_nil in Hk.
    - intros k v Hk. by apply not_elem_of_nil in Hk. }
  apply Forall2_cons_inv_l in HF as ([k' v] & kvs' & [<- Hx] & HF & ->).
  change ((k, x) :: es).*1 with (k :: es.*1) in *. apply NoDup_cons in Hnd as [Hk Hnd].
  assert (mp_get (pay c) = Some q) as Hgq by (by rewrite Hq).
  cbn [foldM]. unfold merge_entry at 1. rewrite Hc, Hgq. cbn [fst snd].
  destruct (dm_map q !! k) as [old|] eqn:Eold.
  - destruct overwrite; [by rewrite Hov in Eold by (done || constructor)|].
    destruct (IH kvs' st q c) as (st' & q' & c' & Hf & Hi & Hc' & Hq' & Hs & Hkeep & Hdom & Hnew); [done..|].
    exists st', q', c'. split_and!; [done..| |].
    + intros j. rewrite Hdom, elem_of_cons. split; [tauto|]. intros [?|[->|?]]; [by left|left; by exists old|by right].
    + intros j u [[= -> ->]|Hj]%elem_of_cons Hnone; [congruence|]. by apply Hnew.
  - destruct (copy_outside n st ext c x v Hinv Hc Hx) as (e & st1 & -> & Hi1 & Hc1 & Hs1 & w & Hw & Ew).
    destruct (add_child n st1 ext c (mp_put (dm_set k e q)) e Hi1 Hn Hc1) as (st2 & -> & Hi2 & Hc2 & Er).
    { rewrite Hq, !Hch, dm_list_set_fresh by done. done. }
    destruct (IH kvs' st2 (dm_set k e q) (with_pay (mp_put (dm_set k e q)) c))
      as (st' & q' & c' & Hf & Hi & Hc' & Hq' & Hs & Hkeep & Hdom & Hnew); [done|done|done| |done| |].
    { eapply Forall2_impl; [exact HF|]. intros [j y] [j' u] [-> Hy]. split; [done|]. rewrite Er. by eapply repr_mono. }
    { intros Ho j Hj. rewrite dm_set_map, lookup_insert_ne by (by intros ->). apply Hov; [done|by constructor]. }
    rewrite Er in Hs. exists st', q', c'. split_and!; [done..|by etrans| | |].
    + intros j y Hy. apply Hkeep. rewrite dm_set_map, lookup_insert_ne by (intros ->; congruence). done.
    + intros j. rewrite Hdom, dm_set_map, elem_of_cons. destruct (decide (j = k)) as [->|Hne].
      * rewrite lookup_insert_eq. split; [intros _; right; by left|intros _; left; by exists e].
      * rewrite lookup_insert_ne by done. naive_solver.
    + intros j u [[= -> ->]|Hj]%elem_of_cons Hnone.
      * exists e, w. split_and!; [apply Hkeep; by rewrite dm_set_map, lookup_insert_eq|by eapply repr_mono|done].
      * apply Hnew; [done|]. rewrite dm_set_map, lookup_insert_ne; [done|]. intros ->. destruct Hk.
        apply (Forall2_in_r _ _ _ _ HF) in Hj as ([j' y] & Hin & [-> _]). apply list_elem_of_fmap. by exists (j, y).
Qed.

End MergeInv.

Lemma extend_loop n ext : n ∈ ext -> forall xs vs st a c,
  inv st ext -> cells st !! n = Some c -> pay c = PArray a -> Forall2 (repr (rest n st)) xs vs ->
  exists st' es c', foldM (fun elem st => let? (e, st) := DeepCopy elem st in push_back n e st) xs st = Some st' /\
    inv st' ext /\ cells st' !! n = Some c' /\ pay c' = PArray (a ++ es) /\ rest n st ⊆ rest n st' /\
    Forall2 (fun e v => exists w, repr (rest n st') e w /\ w ≡ cut v) es vs.
Proof.
  intros Hn. induction xs as [|x xs IH]; intros vs st a c Hinv Hc Ha HF.
  { apply Forall2_nil_inv_l in HF as ->. exists st, [], c. rewrite app_nil_r. by split_and!. }
  apply Forall2_cons_inv_l in HF as (v & vs' & Hx & HF & ->). cbn [foldM].
  destruct (copy_outside n st ext c x v Hinv Hc Hx) as (e & st1 & -> & Hi1 & Hc1 & Hs1 & w & Hw & Ew).
  unfold push_back at 1. rewrite Hc1, Ha.
  destruct (add_child n st1 ext c (PArray (a ++ [e])) e Hi1 Hn Hc1) as (st2 & -> & Hi2 & Hc2 & Er).
  { rewrite Ha. simpl. by rewrite <- Permutation_cons_append. }
  destruct (IH vs' st2 (a ++ [e]) (with_pay (PArray (a ++ [e])) c)) as (st' & es & c' & Hf & Hi & Hc' & Ha' & Hs & HF'); [done..| |].
  { rewrite Er. eapply Forall2_impl; [exact HF|]. intros y u Hy. by eapply repr_mono. }
  rewrite Er in Hs. exists st', (e :: es), c'. rewrite <- app_assoc in Ha'.
  split_and!; [done..|by etrans|]. constructor; [|done]. exists w. split; [by eapply repr_mono|done].
Qed.

(** The children of [o] are values that do not involve [n]. *)
Lemma children_outside st ext n o oc : inv st ext -> acyclic (cells st) -> cells st !! o = Some oc ->
  ~ rtc (points (cells st)) o n -> forall x, x ∈ children (pay oc) -> exists v, repr (rest n st) x v.
Proof.
  intros Hinv Ha Ho Hn x Hx. pose proof (inv_closed st ext Hinv) as Hcl. assert (points (cells st) o x) as Hp by (by exists oc).
  destruct (acyclic_repr (cells st) Hcl Ha x) as [v Hv]; [by eapply Hcl|].
  exists v. apply repr_outside; [done| |done]. intros Hr. apply Hn. by eapply rtc_l.
Qed.

Section MergeSpec.

Context {K : Type} {EqK : EqDecision K} {CK : Countable K} {DK : DataMap K} {MP : MapPayload K}.
Context (Hget : forall p (q : dm K loc), mp_get p = Some q -> p = mp_put q)
        (Hput : forall q : dm K loc, mp_get (mp_put q) = Some q)
        (Hch : forall q : dm K loc, children (mp_put q) = (dm_list q).*2).

Lemma map_merge_spec st ext n o c oc (q om : dm K loc) overwrite :
  inv st ext -> n ∈ ext -> cells st !! n = Some c -> pay c = mp_put q -> cells st !! o = Some oc -> pay oc = mp_put om ->
  acyclic (cells st) -> ~ rtc (points (cells st)) o n ->
  (overwrite = true -> forall k, is_Some (dm_map om !! k) -> dm_map q !! k = None) ->
  exists st' (q' : dm K loc) c', map_merge (K := K) n (Some o) overwrite st = Some st' /\ inv st' ext /\
    cells st' !! n = Some c' /\ pay c' = mp_put q' /\ rest n st ⊆ rest n st' /\
    (forall k x, dm_map q !! k = Some x -> dm_map q' !! k = Some x) /\
    (forall k, is_Some (dm_map q' !! k) <-> is_Some (dm_map q !! k) \/ is_Some (dm_map om !! k)) /\
    (forall k x v, dm_map om !! k = Some x -> repr (rest n st) x v -> dm_map q !! k = None ->
       exists e w, dm_map q' !! k = Some e /\ repr (rest n st') e w /\ w ≡ cut v).
Proof using Hget Hput Hch.
  intros Hinv Hn Hc Hq Ho Hom Ha Hr Hov.
  assert (forall k, k ∈ (dm_list om).*1 <-> is_Some (dm_map om !! k)) as Hkeys.
  { intros k. rewrite list_elem_of_fmap. split.
    - intros ([k' x] & -> & Hx%elem_of_dm_list). by exists x.
    - intros [x Hx%elem_of_dm_list]. by exists (k, x). }
  assert (exists kvs, Forall2 (entry_repr (repr (rest n st))) (dm_list om) kvs) as [kvs HF].
  { apply Forall2_exists. intros [k x] Hx. destruct (children_outside st ext n o oc Hinv Ha Ho Hr x) as [v Hv]; [|by exists (k, v)].
    rewrite Hom, Hch. apply list_elem_of_fmap. by exists (k, x). }
  destruct (merge_loop Hget Hput Hch n ext overwrite Hn (dm_list om) kvs st q c)
    as (st' & q' & c' & Hf & Hi & Hc' & Hq' & Hs & Hkeep & Hdom & Hnew); [done..|apply dm_list_NoDup| |].
  { intros E k Hk%Hkeys. by apply Hov. }
  exists st', q', c'. split_and!; [|done..| |].
  - unfold map_merge. rewrite Hc, Hq, Hput, Ho, Hom, Hput. exact Hf.
  - intros k. rewrite Hdom, Hkeys. done.
  - intros k x v Hk Hv Hnone. apply elem_of_dm_list in Hk. apply list_elem_of_lookup_1 in Hk as (i & Hi').
    destruct (Forall2_lookup_l _ _ _ _ _ HF Hi') as ([k' v'] & Hv' & [<- Hr']).
    rewrite (repr_inj _ _ _ _ Hv Hr'). apply Hnew; [by eapply list_elem_of_lookup_2|done].
Qed.

(** The reference counts stay right whatever the two nodes are. *)
Lemma map_merge_inv st ext n o overwrite : inv st ext -> n ∈ ext -> o ∈ ext -> acyclic (cells st) ->
  ~ rtc (points (cells st)) o n ->
  (overwrite = true -> forall c oc q om, cells st !! n = Some c -> cells st !! o = Some oc ->
     mp_get (K := K) (pay c) = Some q -> mp_get (K := K) (pay oc) = Some om ->
     forall k, is_Some (dm_map om !! k) -> dm_map q !! k = None) ->
  exists st', map_merge (K := K) n (Some o) overwrite st = Some st' /\ inv st' ext.
Proof using Hget Hput Hch.
  intros Hinv Hn Ho Ha Hr Hov. destruct (minv_live _ _ n (inv_m _ _ Hinv) Hn) as (c & Hc).
  destruct (minv_live _ _ o (inv_m _ _ Hinv) Ho) as (oc & Hoc).
  destruct (mp_get (K := K) (pay c)) as [q|] eqn:Eq.
  2:{ exists st. unfold map_merge. by rewrite Hc, Eq. }
  destruct (mp_get (K := K) (pay oc)) as [om|] eqn:Eom.
  2:{ exists st. unfold map_merge. by rewrite Hc, Eq, Hoc, Eom. }
  destruct (map_merge_spec st ext n o c oc q om overwrite) as (st' & _ & _ & Hm & Hi & _);
    [done|done|done|by apply Hget|done|by apply Hget|done|done| |by exists st'].
  intros E k Hk. by eapply (Hov E c oc q om).
Qed.

End MergeSpec.

Lemma ArrExtend_inv st ext n o : inv st ext -> n ∈ ext -> o ∈ ext -> acyclic (cells st) ->
  ~ rtc (points (cells st)) o n -> exists st', ArrExtend n (Some o) st = Some st' /\ inv st' ext.
Proof.
  intros Hinv Hn Ho Ha Hr. destruct (minv_live _ _ n (inv_m _ _ Hinv) Hn) as (c & Hc).
  destruct (minv_live _ _ o (inv_m _ _ Hinv) Ho) as (oc & Hoc).
  unfold ArrExtend. rewrite Hc, Hoc. destruct (pay c) as [| | | | |a| | |] eqn:Ep; try (by eexists).
  destruct (pay oc) as [| | | | |b| | |] eqn:Eb; try (by eexists).
  assert (exists vs, Forall2 (repr (rest n st)) b vs) as [vs HF].
  { apply Forall2_exists. intros x Hx. apply (children_outside st ext n o oc Hinv Ha Hoc Hr). by rewrite Eb. }
  destruct (extend_loop n ext Hn b vs st a c) as (st' & es & c' & Hf & Hi & _); [done..|]. by exists st'.
Qed.

(** [ObjMerge] adds to an object deep copies of the members it does not have.
    For acyclic data in which the source does not contain the target, and when
    nothing is overwritten, the merge succeeds, keeps every reference count
    right, every member of the target stays the node it was, the keys become
    the union of the keys, and each new member stands for the same value as the
    source's (its strings cut at a NUL). *)
Theorem ObjMerge_adds (st : store (P := P)) (ext : list loc) (n o : loc) (c oc : DataNode) (q om : dm bytes loc) (overwrite : bool) :
  inv st ext -> n ∈ ext -> cells st !! n = Some c -> pay c = PObject q -> cells st !! o = Some oc -> pay oc = PObject om ->
  acyclic (cells st) -> ~ rtc (points (cells st)) o n ->
  (overwrite = true -> forall k, is_Some (dm_map om !! k) -> dm_map q !! k = None) ->
  exists st' (q' : dm bytes loc) c', ObjMerge n (Some o) overwrite st = Some st' /\ inv st' ext /\
    cells st' !! n = Some c' /\ pay c' = PObject q' /\
    (forall k x, dm_map q !! k = Some x -> dm_map q' !! k = Some x) /\
    (forall k, is_Some (dm_map q' !! k) <-> is_Some (dm_map q !! k) \/ is_Some (dm_map om !! k)) /\
    (forall k x v, dm_map om !! k = Some x -> repr (cells st) x v -> dm_map q !! k = None ->
       exists e w, dm_map q' !! k = Some e /\ repr (cells st') e w /\ w ≡ cut v).
Proof.
  intros Hinv Hn Hc Hq Ho Hom Ha Hr Hov.
  destruct (map_merge_spec obj_get obj_put obj_children st ext n o c oc q om overwrite)
    as (st' & q' & c' & Hm & Hi & Hc' & Hq' & Hs & Hkeep & Hdom & Hnew); [done..|].
  exists st', q', c'. split_and!; [exact Hm|done..|]. intros k x v Hk Hv Hnone.
  destruct (Hnew k x v Hk) as (e & w & He & Hw & Ew); [|done|].
  - apply repr_outside; [by eapply inv_closed| |done]. intros Hx. apply Hr. eapply rtc_l; [|exact Hx].
    exists oc. split; [done|]. rewrite Hom. simpl. apply list_elem_of_fmap. exists (k, x). by rewrite elem_of_dm_list.
  - exists e, w. split_and!; [done| |done]. eapply repr_mono; [apply delete_subseteq|exact Hw].
Qed.

End Acyclic.

(** ** Witness *)

#[local] Instance pool0 : NodeAllocator FixedPool := pool_allocator 0.

(** An empty object (128) and an object (129) with one member (130). *)
Definition merge_heap : list nop :=
  [NMake (PObject dm_new); NMake (PObject dm_new); NMake (PInt 5); NObjInsert 129 [107] 130].

Lemma ObjMerge_adds_witness : exists (st st' : store (P := FixedPool)) c' q',
  ObjMerge 128%nat (Some 129%nat) false st = Some st' /\ cells st' !! 128%nat = Some c' /\ pay c' = PObject q' /\
  is_Some (dm_map q' !! [107]).
Proof.
  destruct (nrun_inv merge_heap empty_store [] empty_inv) as (st & ext & Hrun & Hi).
  assert ((fun r => (bool_decide (128%nat ∈ r.2), cells r.1 !! 128%nat, cells r.1 !! 129%nat,
                     bool_decide (map_Forall (fun k c => children (pay c) = if decide (k = 129%nat) then [130%nat] else []) (cells r.1))))
            <$> nrun merge_heap empty_store [] =
    Some (true, Some (mkNode 0 1 (PObject dm_new)), Some (mkNode 1 1 (PObject (dm_set [107] 130%nat dm_new))), true))
    as E by (vm_compute; reflexivity).
  rewrite Hrun in E. injection E as E1 E2 E3 E4. pose proof (proj1 (bool_decide_eq_true _) E4) as E5.
  assert (forall d l, points (cells st) d l -> d = 129%nat /\ l = 130%nat) as Hpt.
  { intros d l (c & Hc & Hl). rewrite (E5 d c Hc) in Hl. destruct (decide (d = 129%nat)) as [->|]; [|destruct (not_elem_of_nil _ Hl)].
    apply list_elem_of_singleton in Hl. split; [reflexivity|exact Hl]. }
  destruct (ObjMerge_adds st ext 128%nat 129%nat (mkNode 0 1 (PObject dm_new))
              (mkNode 1 1 (PObject (dm_set [107] 130%nat dm_new))) dm_new (dm_set [107] 130%nat dm_new) false Hi
              (proj1 (bool_decide_eq_true _) E1) E2 eq_refl E3 eq_refl) as (st' & q' & c' & Hm & _ & Hc & Hp & _ & Hdom & _).
  - exists (fun l => if decide (l = 129%nat) then 1%nat else 0%nat). intros d l [-> ->]%Hpt. simpl. lia.
  - intros Hr. inversion Hr as [|? y ? Hy Hr2]; subst. destruct (Hpt _ _ Hy) as [_ ->].
    inversion Hr2 as [|? z ? Hz _]; subst. destruct (Hpt _ _ Hz) as [? _]. lia.
  - discriminate.
  - exists st, st', c', q'. split; [exact Hm|]. split; [exact Hc|]. split; [exact Hp|].
    apply Hdom. right. exists 130%nat. reflexivity.
Defined.
