(* ===== verification/DataHandle.v ===== *)
(** * [src/data/data_handle.h], [src/data/data_handle.cpp], [src/data/data_iterator.cpp]

    A [DataHandle] is a wrapper around one pointer to a node, [node], on which
    it holds a reference.  Its methods are functions of that pointer
    ([option loc], [None] for [nullptr]) and of the heap; a method that changes
    the heap returns the new one.  [None] is undefined behaviour, as in
    [DataNode.v].  A [DataIterator] keeps a reference to its container, the
    container's version and a position in its iteration order. *)

From stdpp Require Import base numbers list gmap.
From Stdlib Require Import ZArith Lia.
From S2P Require Import Prelude NodePool DataMap DataValue Float Text DataNode DataRefcount JsonText.

Inductive Async2DataType :=
  | JSON_TYPE_NONE | JSON_TYPE_NULL | JSON_TYPE_BOOL | JSON_TYPE_NUMBER | JSON_TYPE_STRING
  | JSON_TYPE_ARRAY | JSON_TYPE_OBJECT | JSON_TYPE_BINARY | JSON_TYPE_INTOBJECT.

(** The value of the enumerator. *)
Definition type_code (t : Async2DataType) : Z :=
  match t with
  | JSON_TYPE_NONE => 0 | JSON_TYPE_NULL => 1 | JSON_TYPE_BOOL => 2 | JSON_TYPE_NUMBER => 3 | JSON_TYPE_STRING => 4
  | JSON_TYPE_ARRAY => 5 | JSON_TYPE_OBJECT => 6 | JSON_TYPE_BINARY => 7 | JSON_TYPE_INTOBJECT => 8
  end.

Section Handles.

Context {MO : DataMap bytes} {MI : DataMap Z} {P : Type} {PA : NodeAllocator P}.

#[local] Notation heap := (store (P := P)).

Implicit Types (st : heap) (node : option loc).

(** [n->type] and the union member, for a pointer that is not null. *)
Definition deref (n : loc) st : option payload := let? c := cells st !! n in Some (pay c).

Definition is_object (p : payload) : bool := match p with PObject _ => true | _ => false end.
Definition is_intmap (p : payload) : bool := match p with PIntMap _ => true | _ => false end.
Definition is_arr (p : payload) : bool := match p with PArray _ => true | _ => false end.

Definition NodeToType node st : option Async2DataType :=
  match node with
  | None => Some JSON_TYPE_NONE
  | Some n =>
      let? p := deref n st in
      Some (match p with
            | PNull => JSON_TYPE_NULL
            | PBool _ => JSON_TYPE_BOOL
            | PInt _ | PFloat _ => JSON_TYPE_NUMBER
            | PString _ => JSON_TYPE_STRING
            | PArray _ => JSON_TYPE_ARRAY
            | PObject _ => JSON_TYPE_OBJECT
            | PIntMap _ => JSON_TYPE_INTOBJECT
            | PBinary _ => JSON_TYPE_BINARY
            end)
  end.

(** ** Scalar coercion

    The bodies shared by [AsInt] and [GetInt], [ArrayGetInt], [IntMapGetInt],
    and so on: what a node gives as an integer, a double, a boolean, a C
    string. *)

Definition b2z (b : bool) : Z := if b then 1 else 0.

Definition as_int (p : payload) : option Z :=
  match p with
  | PInt z => Some z
  | PFloat f => f64_to_int 64 f
  | PBool b => Some (b2z b)
  | _ => Some 0
  end.

Definition as_float (p : payload) : option Z :=
  match p with
  | PFloat f => Some f
  | PInt z => Some (int_to_f64 z)
  | PBool b => Some (if b then f64_one else 0)
  | _ => Some 0
  end.

Definition as_bool (p : payload) : option bool :=
  match p with
  | PBool b => Some b
  | PInt z => Some (negb (z =? 0))
  | PFloat f => Some (negb (is_zero f))
  | _ => Some false
  end.

(** [Str().c_str()], as the C string it is. *)
Definition as_string (p : payload) : option bytes :=
  match p with PString s => Some (cstr s) | _ => Some [] end.

(** Apply a coercion to a pointer, with the default for [nullptr]. *)
Definition coerce {A} (d : A) (f : payload -> option A) (v : option loc) st : option A :=
  match v with None => Some d | Some n => let? p := deref n st in f p end.

(** ** Construction and destruction *)

Definition new_DataHandle (owned : loc) : option loc := Some owned.
Definition delete_DataHandle node st : option heap := Decref node st.

Definition CreateObject st : option (option loc * heap) := let? (n, s) := MakeObject st in Some (new_DataHandle n, s).
Definition CreateArray st : option (option loc * heap) := let? (n, s) := MakeArray st in Some (new_DataHandle n, s).
Definition CreateIntMap st : option (option loc * heap) := let? (n, s) := MakeIntMap st in Some (new_DataHandle n, s).

(** ** Queries *)

Definition GetType node st : option Async2DataType := NodeToType node st.

Definition ObjectSize node st : option Z :=
  match node with None => Some 0 | Some n => ObjSize n st end.

Definition ArrayLength node st : option Z :=
  match node with
  | None => Some 0
  | Some n => let? p := deref n st in
              Some (match p with PArray a => Z.of_nat (length a) | _ => 0 end)
  end.

Definition HasKey node (key : bytes) st : option bool :=
  match node with None => Some false | Some n => ObjContains n key st end.

Definition GetMemberNode node (key : bytes) st : option (option loc) :=
  match node with None => Some None | Some n => ObjFind n key st end.

(** [index] is a [size_t]. *)
Definition ArrayGetMemberNode node (index : Z) st : option (option loc) :=
  match node with
  | None => Some None
  | Some n => let? p := deref n st in
              match p with
              | PArray a => if index >=? Z.of_nat (length a) then Some None
                            else let? x := a !! Z.to_nat index in Some (Some x)
              | _ => Some None
              end
  end.

Definition IntMapGetMemberNode node (key : Z) st : option (option loc) :=
  match node with None => Some None | Some n => IntMapFind n key st end.

Definition MemberType node (key : bytes) st : option Async2DataType :=
  let? v := GetMemberNode node key st in NodeToType v st.
Definition ArrayMemberType node (index : Z) st : option Async2DataType :=
  let? v := ArrayGetMemberNode node index st in NodeToType v st.
Definition IntMapMemberType node (key : Z) st : option Async2DataType :=
  let? v := IntMapGetMemberNode node key st in NodeToType v st.

Definition AsInt node st : option Z := coerce 0 as_int node st.
Definition AsFloat node st : option Z := coerce 0 as_float node st.
Definition AsBool node st : option bool := coerce false as_bool node st.
Definition AsString node st : option bytes := coerce [] as_string node st.

Definition GetString node key st : option bytes := let? v := GetMemberNode node key st in coerce [] as_string v st.
Definition GetInt node key st : option Z := let? v := GetMemberNode node key st in coerce 0 as_int v st.
Definition GetFloat node key st : option Z := let? v := GetMemberNode node key st in coerce 0 as_float v st.
Definition GetBool node key st : option bool := let? v := GetMemberNode node key st in coerce false as_bool v st.

(** A member that is a container of the wanted kind, [nullptr] otherwise. *)
Definition filter_node (ok : payload -> bool) (v : option loc) st : option (option loc) :=
  match v with None => Some None | Some n => let? p := deref n st in Some (if ok p then Some n else None) end.

Definition GetObjectNode node key st : option (option loc) :=
  let? v := GetMemberNode node key st in filter_node is_object v st.
Definition GetArrayNode node key st : option (option loc) :=
  let? v := GetMemberNode node key st in filter_node is_arr v st.

Definition ArrayGetString node index st : option bytes :=
  let? v := ArrayGetMemberNode node index st in coerce [] as_string v st.
Definition ArrayGetInt node index st : option Z := let? v := ArrayGetMemberNode node index st in coerce 0 as_int v st.
Definition ArrayGetFloat node index st : option Z := let? v := ArrayGetMemberNode node index st in coerce 0 as_float v st.
Definition ArrayGetBool node index st : option bool :=
  let? v := ArrayGetMemberNode node index st in coerce false as_bool v st.
Definition ArrayGetNode node index st : option (option loc) := ArrayGetMemberNode node index st.

Definition IntMapGetString node key st : option bytes :=
  let? v := IntMapGetMemberNode node key st in coerce [] as_string v st.
Definition IntMapGetInt node key st : option Z := let? v := IntMapGetMemberNode node key st in coerce 0 as_int v st.
Definition IntMapGetFloat node key st : option Z := let? v := IntMapGetMemberNode node key st in coerce 0 as_float v st.
Definition IntMapGetBool node key st : option bool :=
  let? v := IntMapGetMemberNode node key st in coerce false as_bool v st.
Definition IntMapGetObjectNode node key st : option (option loc) :=
  let? v := IntMapGetMemberNode node key st in filter_node is_object v st.
Definition IntMapGetArrayNode node key st : option (option loc) :=
  let? v := IntMapGetMemberNode node key st in filter_node is_arr v st.

(** ** Setters *)

(** A new leaf handed to an insertion. *)
Definition with_new (make : heap -> option (loc * heap)) (k : loc -> heap -> option heap) st : option heap :=
  let? (v, s) := make st in k v s.

(** Object setters: [if (!node || node->type != DataType::Object) return;] *)
Definition obj_set node (key : bytes) (make : heap -> option (loc * heap)) st : option heap :=
  match node with
  | None => Some st
  | Some n => let? p := deref n st in
              if is_object p then with_new make (ObjInsert n key) st else Some st
  end.

Definition SetString node key (val : bytes) st := obj_set node key (MakeString val) st.
Definition SetInt node key (val : Z) st := obj_set node key (MakeInt val) st.
Definition SetFloat node key (val : Z) st := obj_set node key (MakeFloat val) st.
Definition SetBool node key (val : bool) st := obj_set node key (MakeBool val) st.
Definition SetNull node key st := obj_set node key MakeNull st.

Definition intmap_set node (key : Z) (make : heap -> option (loc * heap)) st : option heap :=
  match node with
  | None => Some st
  | Some n => let? p := deref n st in
              if is_intmap p then with_new make (IntMapInsert n key) st else Some st
  end.

Definition IntMapSetString node key (val : bytes) st := intmap_set node key (MakeString val) st.
Definition IntMapSetInt node key (val : Z) st := intmap_set node key (MakeInt val) st.
Definition IntMapSetFloat node key (val : Z) st := intmap_set node key (MakeFloat val) st.
Definition IntMapSetBool node key (val : bool) st := intmap_set node key (MakeBool val) st.
Definition IntMapSetNull node key st := intmap_set node key MakeNull st.

(** Array setters have no type test of their own: [ArrSet] has it. *)
Definition arr_set node (index : Z) (make : heap -> option (loc * heap)) st : option heap :=
  match node with None => Some st | Some n => with_new make (ArrSet n index) st end.

Definition ArraySetString node index (val : bytes) st := arr_set node index (MakeString val) st.
Definition ArraySetInt node index (val : Z) st := arr_set node index (MakeInt val) st.
Definition ArraySetFloat node index (val : Z) st := arr_set node index (MakeFloat val) st.
Definition ArraySetBool node index (val : bool) st := arr_set node index (MakeBool val) st.
Definition ArraySetNull node index st := arr_set node index MakeNull st.

Definition arr_append node (make : heap -> option (loc * heap)) st : option heap :=
  match node with
  | None => Some st
  | Some n => let? p := deref n st in
              if is_arr p then with_new make (push_back n) st else Some st
  end.

Definition ArrayAppendString node (val : bytes) st := arr_append node (MakeString val) st.
Definition ArrayAppendInt node (val : Z) st := arr_append node (MakeInt val) st.
Definition ArrayAppendFloat node (val : Z) st := arr_append node (MakeFloat val) st.
Definition ArrayAppendBool node (val : bool) st := arr_append node (MakeBool val) st.
Definition ArrayAppendNull node st := arr_append node MakeNull st.

(** ** Other mutation *)

Definition RemoveKey node key st : option (bool * heap) :=
  match node with None => Some (false, st) | Some n => ObjErase n key st end.
Definition ObjectClear node st : option heap :=
  match node with None => Some st | Some n => ObjClear n st end.
Definition ObjectMerge node (other : option loc) (overwrite : bool) st : option heap :=
  match node, other with Some n, Some _ => ObjMerge n other overwrite st | _, _ => Some st end.

Definition IntMapRemoveKey node key st : option (bool * heap) :=
  match node with None => Some (false, st) | Some n => IntMapErase n key st end.
Definition IntMapClear node st : option heap :=
  match node with None => Some st | Some n => DataNode.IntMapClear n st end.
Definition IntMapMerge node (other : option loc) (overwrite : bool) st : option heap :=
  match node, other with Some n, Some _ => DataNode.IntMapMerge n other overwrite st | _, _ => Some st end.
Definition IntMapSize node st : option Z :=
  match node with None => Some 0 | Some n => DataNode.IntMapSize n st end.
Definition IntMapHasKey node key st : option bool :=
  match node with None => Some false | Some n => IntMapContains n key st end.

Definition ArrayRemove node (index : Z) st : option (bool * heap) :=
  match node with None => Some (false, st) | Some n => ArrRemove n index st end.
Definition ArrayClear node st : option heap :=
  match node with None => Some st | Some n => ArrClear n st end.
Definition ArrayExtend node (other : option loc) st : option heap :=
  match node, other with Some n, Some _ => ArrExtend n other st | _, _ => Some st end.

(** ** Serialization *)

(** The bytes written to the buffer, the terminating NUL included; the source
    returns one less than their number, or 0 when nothing is written.
    [maxlen] is a [size_t]. *)
Definition Serialize node (maxlen : Z) (pretty : bool) st : option bytes :=
  match node with
  | None => Some []
  | Some n =>
      if maxlen =? 0 then Some [] else
      let? s := DataSerializeJson n pretty st in
      let copy_len := if Z.of_nat (length s) <? maxlen - 1 then Z.of_nat (length s) else maxlen - 1 in
      Some (take (Z.to_nat copy_len) s ++ [0])
  end.

Definition SerializeToString node (pretty : bool) st : option bytes :=
  match node with None => Some [] | Some n => DataSerializeJson n pretty st end.

Definition CopyNodeForSend node st : option (loc * heap) :=
  match node with None => None | Some n => DeepCopy n st end.

(** ** What the setters do *)

(** [st'] is [st] with the contents of the container [n] replaced by [p']; other
    nodes keep their contents as long as they live. *)
Definition updated (n : loc) (p' : payload) st st' : Prop :=
  deref n st' = Some p' /\
  forall x p q, x <> n -> deref x st = Some p -> deref x st' = Some q -> q = p.

Lemma updated_shrunk n c p' st m st' : cells st !! n = Some c -> is_Some (cells st' !! n) ->
  (forall x d, x <> n -> m !! x = Some d -> exists d0, cells st !! x = Some d0 /\ pay d = pay d0) ->
  (exists d, m !! n = Some d /\ pay d = p') -> shrunk m (cells st') -> updated n p' st st'.
Proof.
  intros Hc [c' Hc'] Hm (d & Hd & Hp) Hs. unfold updated, deref. rewrite Hc'. split.
  - destruct (Hs n c' Hc') as (e & He & _ & Ep). f_equal. congruence.
  - intros x p q Hx Hp0 Hq. destruct (cells st' !! x) as [e|] eqn:E; [|done]. injection Hq as <-.
    destruct (Hs x e E) as (e1 & He1 & _ & ->). destruct (Hm x e1 Hx He1) as (e0 & Ee & ->). rewrite Ee in Hp0. congruence.
Qed.

(** What the map operations share: [version++], then the references [olds]
    leave the container one after the other, then the new contents are stored. *)
Lemma bump_drop_set st ext0 ext n c p olds : inv st ext0 -> cells st !! n = Some c -> n ∈ ext ->
  children p ++ olds ++ ext ≡ₚ children (pay c) ++ ext0 ->
  exists st1 st2 st3, bump n st = Some st1 /\ foldM (fun l => Decref (Some l)) olds st1 = Some st2 /\
    set_pay n p st2 = Some st3 /\ inv st3 ext /\ updated n p st st3 /\
    (exists c', cells st3 !! n = Some c' /\ version c' = uN 24 (version c + 1)).
Proof.
  intros Hinv Hc Hn Hp. destruct (bump_inv st _ n c Hinv Hc) as (st1 & c1 & Hb & Hi1 & Hc1 & Ep & Ecells).
  assert (version c1 = uN 24 (version c + 1)) as Hv.
  { unfold bump in Hb. rewrite Hc in Hb. injection Hb as <-. cbn [cells put] in Hc1.
    rewrite lookup_insert_eq in Hc1. by simplify_eq. }
  destruct (drop_then_set st1 ext0 ext n c1 p olds Hi1 Hc1 Hn) as (st2 & st3 & H1 & H2 & H3 & H4); [by rewrite Ep|].
  exists st1, st2, st3. destruct (minv_live _ _ n (inv_m _ _ H3) Hn) as (c3 & Hc3). split_and!; [done..| |].
  - eapply updated_shrunk; [exact Hc|by exists c3| | |exact H4].
    + intros x d Hx. rewrite lookup_insert_ne by done. rewrite Ecells, lookup_insert_ne by done. eauto.
    + rewrite lookup_insert_eq. eauto.
  - destruct (H4 n c3 Hc3) as (d & Hd & Ev & _). rewrite lookup_insert_eq in Hd. simplify_eq/=.
    exists c3. split; [done|]. congruence.
Qed.

Section MapSet.

Context {K : Type} {EqK : EqDecision K} {CK : Countable K} {DK : DataMap K} {MP : MapPayload K}.
Context (Hget : forall p (q : dm K loc), mp_get p = Some q -> p = mp_put q)
        (Hch : forall q : dm K loc, children (mp_put q) = (dm_list q).*2).

Lemma map_insert_updates st ext n key val c (q : dm K loc) :
  inv st (val :: ext) -> n ∈ ext -> cells st !! n = Some c -> mp_get (pay c) = Some q ->
  exists st', map_insert n key val st = Some st' /\ inv st' ext /\ updated n (mp_put (dm_set key val q)) st st' /\
    (exists c', cells st' !! n = Some c' /\ version c' = uN 24 (version c + 1)).
Proof using Hget Hch.
  intros Hinv Hn Hc Eg. unfold map_insert. rewrite Hc, Eg. apply Hget in Eg.
  destruct (dm_map q !! key) as [old|] eqn:El.
  - destruct (bump_drop_set st (val :: ext) ext n c (mp_put (dm_set key val q)) [old] Hinv Hc Hn)
      as (st1 & st2 & st3 & -> & H1 & H2 & H3 & H4 & H5).
    { rewrite Eg, !Hch, dm_list_set_over, (dm_list_split _ _ _ El). simpl.
      rewrite <- !Permutation_middle. apply perm_swap. }
    cbn [foldM] in H1. destruct (Decref (Some old) st1) as [st2'|]; [|done]. simplify_eq. rewrite H2. eauto.
  - destruct (bump_drop_set st (val :: ext) ext n c (mp_put (dm_set key val q)) [] Hinv Hc Hn)
      as (st1 & st2 & st3 & -> & H1 & H2 & H3 & H4 & H5).
    { rewrite Eg, !Hch, dm_list_set_fresh by done. simpl. by rewrite <- Permutation_middle. }
    simplify_eq/=. rewrite H2. eauto.
Qed.

Lemma map_erase_updates st ext n key c (q : dm K loc) old :
  inv st ext -> n ∈ ext -> cells st !! n = Some c -> mp_get (pay c) = Some q -> dm_map q !! key = Some old ->
  exists st', map_erase n key st = Some (true, st') /\ inv st' ext /\ updated n (mp_put (dm_erase key q)) st st' /\
    (exists c', cells st' !! n = Some c' /\ version c' = uN 24 (version c + 1)).
Proof using Hget Hch.
  intros Hinv Hn Hc Eg El. unfold map_erase. rewrite Hc, Eg, El. apply Hget in Eg.
  destruct (bump_drop_set st ext ext n c (mp_put (dm_erase key q)) [old] Hinv Hc Hn)
    as (st1 & st2 & st3 & -> & H1 & H2 & H3 & H4 & H5).
  { rewrite Eg, !Hch, (dm_list_split _ _ _ El). simpl. by rewrite <- Permutation_middle. }
  cbn [foldM] in H1. destruct (Decref (Some old) st1) as [st2'|]; [|done]. simplify_eq. rewrite H2. eauto.
Qed.

Lemma map_clear_updates st ext n c (q : dm K loc) :
  inv st ext -> n ∈ ext -> cells st !! n = Some c -> mp_get (pay c) = Some q ->
  exists st', map_clear (K := K) n st = Some st' /\ inv st' ext /\ updated n (mp_put (dm_clear q)) st st' /\
    (exists c', cells st' !! n = Some c' /\ version c' = uN 24 (version c + 1)).
Proof using Hget Hch.
  intros Hinv Hn Hc Eg. unfold map_clear. rewrite Hc, Eg. apply Hget in Eg. 
  destruct (bump_drop_set st ext ext n c (mp_put (dm_clear q)) (dm_list q).*2 Hinv Hc Hn)
    as (st1 & st2 & st3 & -> & H1 & H2 & H3 & H4 & H5).
  { rewrite Eg, !Hch. by rewrite (dm_list_nil (dm_clear q)) by apply dm_clear_map. }
  rewrite foldM_snd, H1, H2. eauto.
Qed.

(** Inserting a new leaf. *)
Lemma map_set_leaf st ext n key p c (q : dm K loc) :
  inv st ext -> n ∈ ext -> cells st !! n = Some c -> mp_get (pay c) = Some q -> children p = [] ->
  exists st' v, with_new (Make p) (map_insert n key) st = Some st' /\ inv st' ext /\
    deref v st' = Some p /\ updated n (mp_put (dm_set key v q)) st st'.
Proof using Hget Hch.
  intros Hinv Hn Hc Hq Hp. destruct (Make_inv st ext p Hinv Hp) as (v & st1 & Hm & Hi1 & Hv & Ec).
  assert (v <> n) as Hvn by congruence.
  assert (cells st1 !! n = Some c) as Hc1 by (rewrite Ec, lookup_insert_ne; done).
  destruct (map_insert_updates st1 ext n key v c q Hi1 Hn Hc1 Hq) as (st2 & Hi & Hi2 & [Hu1 Hu2] & _).
  exists st2, v. unfold with_new. rewrite Hm, Hi. split_and!; [done|done| |split; [done|]].
  - pose proof Hu1 as Hu. unfold deref in Hu. destruct (cells st2 !! n) as [c2|] eqn:Ec2; [|done].
    destruct (inv_child_live st2 ext n c2 v Hi2 Ec2) as [d Hd].
    { injection Hu as ->. rewrite Hch, dm_list_set_over. simpl. constructor. }
    assert (deref v st2 = Some (pay d)) as E by (unfold deref; by rewrite Hd).
    rewrite E. f_equal. apply (Hu2 v p (pay d) Hvn); [|done]. unfold deref. by rewrite Ec, lookup_insert_eq.
  - intros x p0 q0 Hx Hp0. apply Hu2; [done|]. unfold deref in *. rewrite Ec, lookup_insert_ne; [done|].
    intros ->. by rewrite Hv in Hp0.
Qed.

End MapSet.

(** ** The scalar setters and getters *)

Inductive scalar := SNull | SBool (b : bool) | SInt (z : Z) | SFloat (f : Z) | SString (s : bytes).

Definition scalar_payload (v : scalar) : payload :=
  match v with
  | SNull => PNull | SBool b => PBool b | SInt z => PInt z | SFloat f => PFloat f | SString s => PString (cstr s)
  end.

Definition SetScalar node (key : bytes) (v : scalar) : heap -> option heap :=
  match v with
  | SNull => SetNull node key | SBool b => SetBool node key b | SInt z => SetInt node key z
  | SFloat f => SetFloat node key f | SString s => SetString node key s
  end.

Definition IntMapSetScalar node (key : Z) (v : scalar) : heap -> option heap :=
  match v with
  | SNull => IntMapSetNull node key | SBool b => IntMapSetBool node key b | SInt z => IntMapSetInt node key z
  | SFloat f => IntMapSetFloat node key f | SString s => IntMapSetString node key s
  end.

Lemma SetScalar_eq n key v st c m : cells st !! n = Some c -> pay c = PObject m ->
  SetScalar (Some n) key v st = with_new (Make (scalar_payload v)) (ObjInsert n key) st.
Proof. intros Hc Hp. destruct v; simpl; unfold deref; by rewrite Hc, Hp. Qed.

Lemma IntMapSetScalar_eq n key v st c m : cells st !! n = Some c -> pay c = PIntMap m ->
  IntMapSetScalar (Some n) key v st = with_new (Make (scalar_payload v)) (IntMapInsert n key) st.
Proof. intros Hc Hp. destruct v; simpl; unfold deref; by rewrite Hc, Hp. Qed.

Lemma ObjFind_deref (n : loc) (m : dm bytes loc) (key : bytes) st : deref n st = Some (PObject m) -> ObjFind n key st = Some (dm_map m !! key).
Proof. unfold deref, ObjFind, map_find. destruct (cells st !! n); [|done]. intros [= ->]. done. Qed.
Lemma IntMapFind_deref (n : loc) (m : dm Z loc) (key : Z) st : deref n st = Some (PIntMap m) -> IntMapFind n key st = Some (dm_map m !! key).
Proof. unfold deref, IntMapFind, map_find. destruct (cells st !! n); [|done]. intros [= ->]. done. Qed.

(** Setting a scalar member of an object and reading it back.  The setter
    succeeds, keeps every reference count right, and afterwards the member has
    the value, every getter gives its coercion, every other key finds the same
    node as before, and nodes other than the object keep their contents. *)
Theorem Object_set_get (st : heap) (ext : list loc) (n : loc) (c : DataNode) (m : dm bytes loc) (key : bytes) (v : scalar) :
  inv st ext -> n ∈ ext -> cells st !! n = Some c -> pay c = PObject m ->
  exists st', SetScalar (Some n) key v st = Some st' /\ inv st' ext /\
    GetInt (Some n) key st' = as_int (scalar_payload v) /\ GetFloat (Some n) key st' = as_float (scalar_payload v) /\
    GetBool (Some n) key st' = as_bool (scalar_payload v) /\ GetString (Some n) key st' = as_string (scalar_payload v) /\
    (forall k, k <> key -> GetMemberNode (Some n) k st' = GetMemberNode (Some n) k st) /\
    (forall x p q, x <> n -> deref x st = Some p -> deref x st' = Some q -> q = p).
Proof.
  intros Hinv Hn Hc Hp.
  destruct (map_set_leaf obj_get obj_children st ext n key (scalar_payload v) c m) as (st' & l & Hs & Hi & Hl & Hu1 & Hu2);
    [done|done|done|by rewrite Hp|by destruct v|].
  exists st'. rewrite (SetScalar_eq _ _ _ _ _ _ Hc Hp). split; [exact Hs|]. split; [done|].
  pose proof (ObjFind_deref n _ key st' Hu1) as Hf. rewrite dm_set_map, lookup_insert_eq in Hf.
  unfold GetInt, GetFloat, GetBool, GetString, GetMemberNode, coerce. rewrite Hf, Hl. split_and!; try done.
  intros k Hk. rewrite (ObjFind_deref n _ k st' Hu1), dm_set_map, lookup_insert_ne by done.
  symmetry. apply ObjFind_deref. unfold deref. by rewrite Hc, Hp.
Qed.

(** The same for a scalar member of an integer map. *)
Theorem IntMap_set_get (st : heap) (ext : list loc) (n : loc) (c : DataNode) (m : dm Z loc) (key : Z) (v : scalar) :
  inv st ext -> n ∈ ext -> cells st !! n = Some c -> pay c = PIntMap m ->
  exists st', IntMapSetScalar (Some n) key v st = Some st' /\ inv st' ext /\
    IntMapGetInt (Some n) key st' = as_int (scalar_payload v) /\ IntMapGetFloat (Some n) key st' = as_float (scalar_payload v) /\
    IntMapGetBool (Some n) key st' = as_bool (scalar_payload v) /\ IntMapGetString (Some n) key st' = as_string (scalar_payload v) /\
    (forall k, k <> key -> IntMapGetMemberNode (Some n) k st' = IntMapGetMemberNode (Some n) k st) /\
    (forall x p q, x <> n -> deref x st = Some p -> deref x st' = Some q -> q = p).
Proof.
  intros Hinv Hn Hc Hp.
  destruct (map_set_leaf int_get int_children st ext n key (scalar_payload v) c m) as (st' & l & Hs & Hi & Hl & Hu1 & Hu2);
    [done|done|done|by rewrite Hp|by destruct v|].
  exists st'. rewrite (IntMapSetScalar_eq _ _ _ _ _ _ Hc Hp). split; [exact Hs|]. split; [done|].
  pose proof (IntMapFind_deref n _ key st' Hu1) as Hf. rewrite dm_set_map, lookup_insert_eq in Hf.
  unfold IntMapGetInt, IntMapGetFloat, IntMapGetBool, IntMapGetString, IntMapGetMemberNode, coerce.
  rewrite Hf, Hl. split_and!; try done.
  intros k Hk. rewrite (IntMapFind_deref n _ k st' Hu1), dm_set_map, lookup_insert_ne by done.
  symmetry. apply IntMapFind_deref. unfold deref. by rewrite Hc, Hp.
Qed.

(** ** Arrays *)

Lemma drop_then_set_updates st ext0 ext n c p olds :
  inv st ext0 -> cells st !! n = Some c -> n ∈ ext ->
  children p ++ olds ++ ext ≡ₚ children (pay c) ++ ext0 ->
  exists st1 st2, foldM (fun l => Decref (Some l)) olds st = Some st1 /\ set_pay n p st1 = Some st2 /\
    inv st2 ext /\ updated n p st st2.
Proof.
  intros Hinv Hc Hn Hp. destruct (drop_then_set st ext0 ext n c p olds Hinv Hc Hn Hp) as (st1 & st2 & H1 & H2 & H3 & H4).
  exists st1, st2. destruct (minv_live _ _ n (inv_m _ _ H3) Hn) as (c2 & Hc2). split_and!; [done..|].
  eapply updated_shrunk; [exact Hc|by exists c2| | |exact H4].
  - intros x d Hx. rewrite lookup_insert_ne by done. eauto.
  - rewrite lookup_insert_eq. eauto.
Qed.

Definition ArraySetScalar node (index : Z) (v : scalar) : heap -> option heap :=
  match v with
  | SNull => ArraySetNull node index | SBool b => ArraySetBool node index b | SInt z => ArraySetInt node index z
  | SFloat f => ArraySetFloat node index f | SString s => ArraySetString node index s
  end.

Definition ArrayAppendScalar node (v : scalar) : heap -> option heap :=
  match v with
  | SNull => ArrayAppendNull node | SBool b => ArrayAppendBool node b | SInt z => ArrayAppendInt node z
  | SFloat f => ArrayAppendFloat node f | SString s => ArrayAppendString node s
  end.

Lemma ArraySetScalar_eq n index v st :
  ArraySetScalar (Some n) index v st = with_new (Make (scalar_payload v)) (ArrSet n index) st.
Proof. by destruct v. Qed.

Lemma ArrayAppendScalar_eq n v st c a : cells st !! n = Some c -> pay c = PArray a ->
  ArrayAppendScalar (Some n) v st = with_new (Make (scalar_payload v)) (push_back n) st.
Proof. intros Hc Hp. destruct v; simpl; unfold deref; by rewrite Hc, Hp. Qed.

(** Storing the new node [v] in the array, given that it is a child of the result. *)
Lemma new_child_payload st st1 st' ext n v p p' : cells st !! v = None -> cells st1 = <[v := mkNode 0 1 p]> (cells st) ->
  v <> n -> inv st' ext -> updated n p' st1 st' -> v ∈ children p' -> deref v st' = Some p /\ updated n p' st st'.
Proof.
  intros Hv Ec Hvn Hi [Hu1 Hu2] Hin. split; [|split; [done|]].
  - pose proof Hu1 as Hu. unfold deref in Hu. destruct (cells st' !! n) as [c2|] eqn:Ec2; [|done]. injection Hu as Hu.
    destruct (inv_child_live st' ext n c2 v Hi Ec2) as [d Hd]; [by rewrite Hu|].
    assert (deref v st' = Some (pay d)) as E by (unfold deref; by rewrite Hd).
    rewrite E. f_equal. apply (Hu2 v p (pay d) Hvn); [|done]. unfold deref. by rewrite Ec, lookup_insert_eq.
  - intros x p0 q0 Hx Hp0. apply Hu2; [done|]. unfold deref in *. rewrite Ec, lookup_insert_ne; [done|].
    intros ->. by rewrite Hv in Hp0.
Qed.

(** The array contents [ArraySetScalar] and [ArrayAppendScalar] leave. *)
Lemma ArraySet_updates st ext n c a index v :
  inv st ext -> n ∈ ext -> cells st !! n = Some c -> pay c = PArray a -> 0 <= index ->
  exists st' x, ArraySetScalar (Some n) index v st = Some st' /\ inv st' ext /\
    updated n (PArray (<[Z.to_nat index := x]> a)) st st' /\
    (index < Z.of_nat (length a) -> deref x st' = Some (scalar_payload v)).
Proof.
  intros Hinv Hn Hc Hp Hix. rewrite ArraySetScalar_eq.
  destruct (Make_inv st ext (scalar_payload v) Hinv) as (x & st1 & Hm & Hi1 & Hv & Ec); [by destruct v|].
  assert (x <> n) as Hxn by congruence.
  assert (cells st1 !! n = Some c) as Hc1 by (rewrite Ec, lookup_insert_ne; done).
  unfold with_new. rewrite Hm. unfold ArrSet. rewrite Hc1, Hp.
  destruct (Z.geb_spec index (Z.of_nat (length a))) as [Hge|Hlt].
  - destruct (Decref_inv st1 ext x Hi1) as (st2 & Hd & Hi2 & Hs). rewrite Hd. exists st2, x.
    destruct (minv_live _ _ n (inv_m _ _ Hi2) Hn) as (c2 & Hc2).
    split_and!; [done|done| |lia]. rewrite list_insert_ge by lia.
    split; unfold deref.
    + rewrite Hc2. destruct (Hs n c2 Hc2) as (e & He & _ & ->). f_equal. congruence.
    + intros y p q Hy Hp0 Hq. destruct (cells st2 !! y) as [d|] eqn:E; [|done]. injection Hq as <-.
      destruct (Hs y d E) as (e & He & _ & ->). rewrite Ec, lookup_insert_ne in He by (intros ->; by rewrite Hv in Hp0).
      rewrite He in Hp0. congruence.
  - destruct (lookup_lt_is_Some_2 a (Z.to_nat index)) as [old Hold]; [lia|]. rewrite Hold.
    destruct (drop_then_set_updates st1 (x :: ext) ext n c (PArray (<[Z.to_nat index := x]> a)) [old] Hi1 Hc1 Hn)
      as (st2 & st3 & Hd & Hs & Hi & Hu).
    { rewrite Hp. simpl. rewrite insert_take_drop by lia.
      rewrite <- (take_drop_middle a (Z.to_nat index) old Hold) at 3.
      rewrite <- !app_assoc. simpl. apply Permutation_app_head. rewrite <- !Permutation_middle. apply perm_swap. }
    cbn [foldM] in Hd. destruct (Decref (Some old) st1) as [st2'|]; [|done]. simplify_eq. rewrite Hs. exists st3, x.
    destruct (new_child_payload st st1 st3 ext n x (scalar_payload v) _ Hv Ec Hxn Hi Hu) as [Hx Hu'].
    { simpl. apply list_elem_of_insert. lia. }
    split_and!; done.
Qed.

Lemma ArrayAppend_updates st ext n c a v :
  inv st ext -> n ∈ ext -> cells st !! n = Some c -> pay c = PArray a ->
  exists st' x, ArrayAppendScalar (Some n) v st = Some st' /\ inv st' ext /\
    updated n (PArray (a ++ [x])) st st' /\ deref x st' = Some (scalar_payload v).
Proof.
  intros Hinv Hn Hc Hp. rewrite (ArrayAppendScalar_eq _ _ _ _ _ Hc Hp).
  destruct (Make_inv st ext (scalar_payload v) Hinv) as (x & st1 & Hm & Hi1 & Hv & Ec); [by destruct v|].
  assert (x <> n) as Hxn by congruence.
  assert (cells st1 !! n = Some c) as Hc1 by (rewrite Ec, lookup_insert_ne; done).
  unfold with_new. rewrite Hm. unfold push_back. rewrite Hc1, Hp.
  destruct (drop_then_set_updates st1 (x :: ext) ext n c (PArray (a ++ [x])) [] Hi1 Hc1 Hn) as (st2 & st3 & Hd & Hs & Hi & Hu).
  { rewrite Hp. simpl. by rewrite <- app_assoc. }
  simplify_eq/=. exists st3, x.
  destruct (new_child_payload st st2 st3 ext n x (scalar_payload v) _ Hv Ec Hxn Hi Hu) as [Hx Hu'].
  { simpl. set_solver. }
  by split_and!.
Qed.

(** Setting and appending array elements.  At an index inside the array the
    element is replaced: it reads back as the scalar, every other index finds
    the node it found before and the length is the same.  At an index beyond
    the end nothing changes.  Appending adds one element, which reads back as
    the scalar, and keeps the others.  Reference counts stay right. *)
Theorem Array_set_append_get (st : heap) (ext : list loc) (n : loc) (c : DataNode) (a : list loc) (index : Z) (v : scalar) :
  inv st ext -> n ∈ ext -> cells st !! n = Some c -> pay c = PArray a -> 0 <= index ->
  (exists st', ArraySetScalar (Some n) index v st = Some st' /\ inv st' ext /\
     ArrayLength (Some n) st' = Some (Z.of_nat (length a)) /\
     (index < Z.of_nat (length a) -> exists x, ArrayGetMemberNode (Some n) index st' = Some (Some x) /\
                                            deref x st' = Some (scalar_payload v)) /\
     (forall j, 0 <= j -> j <> index \/ Z.of_nat (length a) <= index ->
        ArrayGetMemberNode (Some n) j st' = ArrayGetMemberNode (Some n) j st)) /\
  (exists st' x, ArrayAppendScalar (Some n) v st = Some st' /\ inv st' ext /\
     ArrayLength (Some n) st' = Some (Z.of_nat (length a) + 1) /\
     ArrayGetMemberNode (Some n) (Z.of_nat (length a)) st' = Some (Some x) /\ deref x st' = Some (scalar_payload v) /\
     (forall j, 0 <= j < Z.of_nat (length a) -> ArrayGetMemberNode (Some n) j st' = ArrayGetMemberNode (Some n) j st)).
Proof.
  intros Hinv Hn Hc Hp Hix. assert (deref n st = Some (PArray a)) as Hd by (unfold deref; by rewrite Hc, Hp). split.
  - destruct (ArraySet_updates st ext n c a index v) as (st' & x & Hs & Hi & [Hu _] & Hx); [done..|].
    exists st'. split_and!; [done|done|unfold ArrayLength; by rewrite Hu, length_insert|..].
    + intros Hlt. exists x. split; [|by apply Hx]. unfold ArrayGetMemberNode. rewrite Hu, length_insert.
      destruct (Z.geb_spec index (Z.of_nat (length a))); [lia|]. by rewrite list_lookup_insert_eq by lia.
    + intros j Hj Hne. unfold ArrayGetMemberNode. rewrite Hu, Hd, length_insert.
      destruct (Z.geb_spec j (Z.of_nat (length a))); [done|]. by rewrite list_lookup_insert_ne by lia.
  - destruct (ArrayAppend_updates st ext n c a v) as (st' & x & Hs & Hi & [Hu _] & Hx); [done..|].
    exists st', x. split_and!; [done|done| | |done|].
    + unfold ArrayLength. rewrite Hu, length_app. simpl. f_equal. lia.
    + unfold ArrayGetMemberNode. rewrite Hu, length_app. simpl.
      destruct (Z.geb_spec (Z.of_nat (length a)) (Z.of_nat (length a + 1))); [lia|]. by rewrite Nat2Z.id, list_lookup_middle by done.
    + intros j Hj. unfold ArrayGetMemberNode. rewrite Hu, Hd, length_app. simpl.
      destruct (Z.geb_spec j (Z.of_nat (length a + 1))); [lia|]. destruct (Z.geb_spec j (Z.of_nat (length a))); [lia|].
      by rewrite lookup_app_l by lia.
Qed.

(** Reading an integer member as a double and storing that double. *)
Definition copy_as_float (n : loc) (from to : bytes) st : option heap :=
  let? f := GetFloat (Some n) from st in SetFloat (Some n) to f st.

(** Integers of at most 53 bits survive the coercion to [double] and back: an
    integer member read with [GetFloat], stored with [SetFloat] under another
    key and read from there with [GetInt] is the integer. *)
Theorem int_float_coercion (st : heap) (ext : list loc) (n : loc) (c : DataNode) (m : dm bytes loc) (from to : bytes) (z : Z) (x : loc) :
  inv st ext -> n ∈ ext -> cells st !! n = Some c -> pay c = PObject m ->
  dm_map m !! from = Some x -> deref x st = Some (PInt z) -> Z.abs z <= 2 ^ 53 ->
  exists st', copy_as_float n from to st = Some st' /\ GetInt (Some n) to st' = Some z.
Proof.
  intros Hinv Hn Hc Hp Hx Hz Habs. unfold copy_as_float, GetFloat, GetMemberNode.
  assert (deref n st = Some (PObject m)) as Hd by (unfold deref; by rewrite Hc, Hp).
  rewrite (ObjFind_deref n m from st Hd), Hx. unfold coerce. rewrite Hz. simpl as_float.
  destruct (map_set_leaf obj_get obj_children st ext n to (PFloat (int_to_f64 z)) c m) as (st' & l & Hs & Hi & Hl & Hu1 & _);
    [done|done|done|by rewrite Hp|done|].
  exists st'. pose proof (SetScalar_eq n to (SFloat (int_to_f64 z)) st c m Hc Hp) as E. cbn [SetScalar] in E. rewrite E.
  split; [exact Hs|]. unfold GetInt, GetMemberNode. rewrite (ObjFind_deref n _ to st' Hu1), dm_set_map, lookup_insert_eq.
  unfold coerce. rewrite Hl. simpl as_int. by apply int_f64_int.
Qed.

End Handles.

(** ** Witnesses *)

#[local] Instance pool0 : NodeAllocator FixedPool := pool_allocator 0.

(** A heap with an object (128), an integer map (129) and an array (130). *)
Definition containers : list nop := [NMake (PObject dm_new); NMake (PIntMap dm_new); NMake (PArray [])].

Lemma containers_run : exists st ext, nrun containers empty_store [] = Some (st, ext) /\ inv st ext /\
  ext = [130; 129; 128]%nat /\ cells st !! 128%nat = Some (mkNode 0 1 (PObject dm_new)) /\
  cells st !! 129%nat = Some (mkNode 0 1 (PIntMap dm_new)) /\ cells st !! 130%nat = Some (mkNode 0 1 (PArray [])).
Proof.
  destruct (nrun_inv containers empty_store [] empty_inv) as (st & ext & Hrun & Hi). exists st, ext.
  assert ((fun r => (r.2, cells r.1 !! 128%nat, cells r.1 !! 129%nat, cells r.1 !! 130%nat)) <$> nrun containers empty_store [] =
    Some ([130; 129; 128]%nat, Some (mkNode 0 1 (PObject dm_new)), Some (mkNode 0 1 (PIntMap dm_new)), Some (mkNode 0 1 (PArray []))))
    as E by (vm_compute; reflexivity).
  rewrite Hrun in E. injection E as E1 E2 E3 E4. repeat (split; [assumption|]). assumption.
Defined.

Lemma Object_set_get_witness : exists (st st' : store (P := FixedPool)),
  SetScalar (Some 128%nat) [107] (SInt 7) st = Some st' /\ GetInt (Some 128%nat) [107] st' = Some 7.
Proof.
  destruct containers_run as (st & ext & _ & Hi & Hext & H1 & _).
  destruct (Object_set_get st ext 128%nat (mkNode 0 1 (PObject dm_new)) dm_new [107] (SInt 7) Hi) as (st' & Hs & _ & Hg & _);
    [rewrite Hext; set_solver|exact H1|reflexivity|].
  exists st, st'. split; [exact Hs|exact Hg].
Defined.

Lemma IntMap_set_get_witness : exists (st st' : store (P := FixedPool)),
  IntMapSetScalar (Some 129%nat) (-5) (SString [97; 0; 98]) st = Some st' /\
  IntMapGetString (Some 129%nat) (-5) st' = Some [97].
Proof.
  destruct containers_run as (st & ext & _ & Hi & Hext & _ & H1 & _).
  destruct (IntMap_set_get st ext 129%nat (mkNode 0 1 (PIntMap dm_new)) dm_new (-5) (SString [97; 0; 98]) Hi) as (st' & Hs & _ & _ & _ & _ & Hg & _);
    [rewrite Hext; set_solver|exact H1|reflexivity|].
  exists st, st'. split; [exact Hs|exact Hg].
Defined.

Lemma Array_set_append_get_witness : exists (st st' : store (P := FixedPool)) x,
  ArrayAppendScalar (Some 130%nat) (SBool true) st = Some st' /\
  ArrayGetMemberNode (Some 130%nat) 0 st' = Some (Some x) /\ deref x st' = Some (PBool true).
Proof.
  destruct containers_run as (st & ext & _ & Hi & Hext & _ & _ & H1).
  destruct (Array_set_append_get st ext 130%nat (mkNode 0 1 (PArray [])) [] 0 (SBool true) Hi) as (_ & st' & x & Hs & _ & _ & Hg & Hx & _);
    [rewrite Hext; set_solver|exact H1|reflexivity|lia|].
  exists st, st', x. split; [exact Hs|]. split; [exact Hg|exact Hx].
Defined.

(** An object (128) whose member [k] is the integer 5 (129). *)
Definition object_k5 : list nop := [NMake (PObject dm_new); NMake (PInt 5); NObjInsert 128 [107] 129].

Lemma int_float_coercion_witness : exists (st st' : store (P := FixedPool)),
  copy_as_float 128%nat [107] [106] st = Some st' /\ GetInt (Some 128%nat) [106] st' = Some 5.
Proof.
  destruct (nrun_inv object_k5 empty_store [] empty_inv) as (st & ext & Hrun & Hi).
  assert ((fun r => (bool_decide (128%nat ∈ r.2), cells r.1 !! 128%nat, deref 129%nat r.1)) <$> nrun object_k5 empty_store [] =
    Some (true, Some (mkNode 1 1 (PObject (dm_set [107] 129%nat dm_new))), Some (PInt 5))) as E by (vm_compute; reflexivity).
  rewrite Hrun in E. injection E as E1 E2 E3.
  destruct (int_float_coercion st ext 128%nat (mkNode 1 1 (PObject (dm_set [107] 129%nat dm_new))) (dm_set [107] 129%nat dm_new) [107] [106] 5 129%nat Hi) as (st' & Hs & Hg);
    [exact (proj1 (bool_decide_eq_true _) E1)|exact E2|reflexivity|reflexivity|exact E3|lia|].
  exists st, st'. split; [exact Hs|exact Hg].
Defined.
