(* ===== verification/DataIterator.v ===== *)
(** * [src/data/data_iterator.h], [src/data/data_iterator.cpp]: iterators

    An iterator holds a reference to its container, the container's version
    when it was created, and a [tsl::robin_map] iterator, which is a position in
    the iteration order the map had when the iterator was made.  Using it on a
    map that no longer has that order (a key was inserted or erased) is
    undefined behaviour; the version test is there to prevent that. *)

From stdpp Require Import base numbers list gmap.
From Stdlib Require Import ZArith Lia.
From S2P Require Import Prelude NodePool DataMap DataValue Float Text DataNode DataRefcount JsonText DataHandle.

Inductive IteratorType := ItObject | ItIntMap.

#[export] Instance IteratorType_eq_dec : EqDecision IteratorType.
Proof. solve_decision. Defined.

(** [obj_iter_] is the pair of [obj_order] and [iter_pos], [intmap_iter_] that of
    [intmap_order] and [iter_pos]; which one is active depends on [type_]. *)
Record DataIterator := mkIter {
  type_ : IteratorType;
  node_ : loc;
  version_ : Z;
  obj_order : list bytes;
  intmap_order : list Z;
  iter_pos : nat;
  obj_key_ : option bytes;
  intmap_key_ : Z;
  value_ : option loc
}.

Section Iterators.

Context {MO : DataMap bytes} {MI : DataMap Z} {P : Type} {PA : NodeAllocator P}.

#[local] Notation heap := (store (P := P)).
Implicit Types (st : heap).

Definition CreateObject (node : option loc) st : option (option DataIterator * heap) :=
  match node with
  | None => Some (None, st)
  | Some n =>
      let? c := cells st !! n in
      match pay c with
      | PObject m =>
          let? s := Incref n st in
          Some (Some (mkIter ItObject n (version c) (dm_list m).*1 [] 0 None 0 None), s)
      | _ => Some (None, st)
      end
  end.

Definition CreateIntMap (node : option loc) st : option (option DataIterator * heap) :=
  match node with
  | None => Some (None, st)
  | Some n =>
      let? c := cells st !! n in
      match pay c with
      | PIntMap m =>
          let? s := Incref n st in
          Some (Some (mkIter ItIntMap n (version c) [] (dm_list m).*1 0 None 0 None), s)
      | _ => Some (None, st)
      end
  end.

Definition delete_DataIterator (it : DataIterator) st : option heap := Decref (Some (node_ it)) st.

(** What the map iterator points at, [Some None] for [end()]. *)
Definition map_at {K} `{EqDecision K} (entries : list (K * loc)) (order : list K) (pos : nat) : option (option (K * loc)) :=
  if decide (entries.*1 = order) then Some (entries !! pos) else None.

Definition Next (it : DataIterator) st : option (bool * DataIterator) :=
  let? c := cells st !! node_ it in
  if negb (version c =? version_ it) then Some (false, it) else
  match type_ it, pay c with
  | ItObject, PObject m =>
      let? e := map_at (dm_list m) (obj_order it) (iter_pos it) in
      Some (match e with
            | None => (false, it)
            | Some (k, v) => (true, mkIter (type_ it) (node_ it) (version_ it) (obj_order it) (intmap_order it)
                                       (S (iter_pos it)) (Some k) (intmap_key_ it) (Some v))
            end)
  | ItIntMap, PIntMap m =>
      let? e := map_at (dm_list m) (intmap_order it) (iter_pos it) in
      Some (match e with
            | None => (false, it)
            | Some (k, v) => (true, mkIter (type_ it) (node_ it) (version_ it) (obj_order it) (intmap_order it)
                                       (S (iter_pos it)) (obj_key_ it) k (Some v))
            end)
  | _, _ => None
  end.

(** The key as the C string it is passed on as. *)
Definition ObjectKey (it : DataIterator) : bytes := match obj_key_ it with Some k => cstr k | None => [] end.
Definition IntMapKey (it : DataIterator) : Z := intmap_key_ it.
Definition Value (it : DataIterator) : option loc := value_ it.
Definition Type_ (it : DataIterator) : IteratorType := type_ it.

(** ** Iterating to the end *)

(** [while (it.Next()) ...]: the keys and values seen. *)
Fixpoint walk (fuel : nat) (it : DataIterator) st : option (list (bytes * Z * option loc)) :=
  match fuel with
  | O => None
  | S fuel =>
      let? (more, it) := Next it st in
      if more then
        let? es := walk fuel it st in
        Some ((default [] (obj_key_ it), intmap_key_ it, value_ it) :: es)
      else Some []
  end.

Lemma walk_object st n c m (it : DataIterator) : cells st !! n = Some c -> pay c = PObject m ->
  type_ it = ItObject -> node_ it = n -> version_ it = version c -> obj_order it = (dm_list m).*1 ->
  forall fuel, (length (dm_list m) - iter_pos it < fuel)%nat ->
  walk fuel it st = Some ((fun e => (e.1, intmap_key_ it, Some e.2)) <$> drop (iter_pos it) (dm_list m)).
Proof.
  intros Hc Hp Ht Hn Hv Ho fuel. revert it Ht Hn Hv Ho.
  induction fuel as [|fuel IH]; intros it Ht Hn Hv Ho Hf; [lia|].
  cbn [walk]. unfold Next. rewrite Hn, Hc, Hv, Z.eqb_refl, Ht, Hp. simpl.
  unfold map_at. rewrite Ho, decide_True by done.
  destruct (dm_list m !! iter_pos it) as [[k v]|] eqn:E.
  - rewrite IH; try done; simpl.
    + rewrite (drop_S _ (k, v) _ E). done.
    + apply lookup_lt_Some in E. lia.
  - apply lookup_ge_None in E. by rewrite drop_ge by done.
Qed.

Lemma walk_intmap st n c m (it : DataIterator) : cells st !! n = Some c -> pay c = PIntMap m ->
  type_ it = ItIntMap -> node_ it = n -> version_ it = version c -> intmap_order it = (dm_list m).*1 ->
  forall fuel, (length (dm_list m) - iter_pos it < fuel)%nat ->
  walk fuel it st = Some ((fun e => (default [] (obj_key_ it), e.1, Some e.2)) <$> drop (iter_pos it) (dm_list m)).
Proof.
  intros Hc Hp Ht Hn Hv Ho fuel. revert it Ht Hn Hv Ho.
  induction fuel as [|fuel IH]; intros it Ht Hn Hv Ho Hf; [lia|].
  cbn [walk]. unfold Next. rewrite Hn, Hc, Hv, Z.eqb_refl, Ht, Hp. simpl.
  unfold map_at. rewrite Ho, decide_True by done.
  destruct (dm_list m !! iter_pos it) as [[k v]|] eqn:E.
  - rewrite IH; try done; simpl.
    + rewrite (drop_S _ (k, v) _ E). done.
    + apply lookup_lt_Some in E. lia.
  - apply lookup_ge_None in E. by rewrite drop_ge by done.
Qed.

(** ** Invalidation *)

(** The operations that change the keys of a map add one to its version, so an
    iterator made before them stops. *)
Definition bumped (n : loc) st st' : Prop :=
  exists c c', cells st !! n = Some c /\ cells st' !! n = Some c' /\ version c' = uN 24 (version c + 1).

Lemma bumped_stops n st st' it : bumped n st st' -> node_ it = n ->
  (exists c, cells st !! n = Some c /\ version_ it = version c /\ 0 <= version c < 2 ^ 24) ->
  Next it st' = Some (false, it).
Proof.
  intros (c & c' & Hc & Hc' & Hv) Hn (d & Hd & Hvi & Hr). assert (d = c) as -> by congruence.
  unfold Next. rewrite Hn, Hc', Hv, Hvi.
  assert (uN 24 (version c + 1) <> version c) as Hne.
  { unfold uN. destruct (Z.eq_dec (version c) (2 ^ 24 - 1)) as [->|].
    - vm_compute. congruence.
    - rewrite Z.mod_small; lia. }
  by rewrite (proj2 (Z.eqb_neq _ _) Hne).
Qed.

(** C27: An iterator made over an object or an integer map whose container is left
    alone visits every entry of the map exactly once, in the map's iteration
    order, with its key and value, and then [Next] returns false. *)
Theorem iterator_visits_all st (n : loc) (c : DataNode) : cells st !! n = Some c ->
  (forall m, pay c = PObject m -> exists it st', CreateObject (Some n) st = Some (Some it, st') /\
     walk (S (length (dm_list m))) it st' = Some ((fun e => (e.1, 0, Some e.2)) <$> dm_list m)) /\
  (forall m, pay c = PIntMap m -> exists it st', CreateIntMap (Some n) st = Some (Some it, st') /\
     walk (S (length (dm_list m))) it st' = Some ((fun e => ([], e.1, Some e.2)) <$> dm_list m)).
Proof.
  intros Hc. split; intros m Hp.
  - unfold CreateObject. rewrite Hc, Hp. unfold Incref. rewrite Hc. eexists _, _. split; [done|].
    rewrite (walk_object _ n (with_rc (uN 32 (refcount c + 1)) c) m); [done|apply lookup_insert_eq|done..|simpl; lia].
  - unfold CreateIntMap. rewrite Hc, Hp. unfold Incref. rewrite Hc. eexists _, _. split; [done|].
    rewrite (walk_intmap _ n (with_rc (uN 32 (refcount c + 1)) c) m); [done|apply lookup_insert_eq|done..|simpl; lia].
Qed.

(** An iterator over an object stops after the object is changed through
    [ObjInsert], [ObjErase] of a present key or [ObjClear]: [Next] returns false
    (without using its map iterator, which the change has invalidated) and
    leaves the iterator as it is. *)
Theorem iterator_stops_after_change st (ext : list loc) (n : loc) (c : DataNode) (m : dm bytes loc) (it : DataIterator) :
  inv st ext -> n ∈ ext -> cells st !! n = Some c -> pay c = PObject m ->
  node_ it = n -> version_ it = version c -> 0 <= version c < 2 ^ 24 ->
  (forall key val ext', ext ≡ₚ val :: ext' -> n ∈ ext' ->
     exists st', ObjInsert n key val st = Some st' /\ Next it st' = Some (false, it)) /\
  (forall key, is_Some (dm_map m !! key) ->
     exists st', ObjErase n key st = Some (true, st') /\ Next it st' = Some (false, it)) /\
  (exists st', ObjClear n st = Some st' /\ Next it st' = Some (false, it)).
Proof.
  intros Hinv Hn Hc Hp Hit Hv Hr. assert (mp_get (K := bytes) (pay c) = Some m) as Hq by (by rewrite Hp).
  assert (forall st', (exists c', cells st' !! n = Some c' /\ version c' = uN 24 (version c + 1)) ->
    Next it st' = Some (false, it)) as Hstop.
  { intros st' (c' & Hc' & Hv'). eapply bumped_stops; [exists c, c'; by split_and!|done|by exists c]. }
  split_and!.
  - intros key val ext' Hperm Hn'.
    destruct (map_insert_updates obj_get obj_children st ext' n key val c m) as (st' & Hi & _ & _ & Hb);
      [by eapply inv_perm|done..|]. exists st'. split; [exact Hi|by apply Hstop].
  - intros key [old Hold]. destruct (map_erase_updates obj_get obj_children st ext n key c m old) as (st' & Hi & _ & _ & Hb);
      [done..|]. exists st'. split; [exact Hi|by apply Hstop].
  - destruct (map_clear_updates obj_get obj_children st ext n c m) as (st' & Hi & _ & _ & Hb);
      [done..|]. exists st'. split; [exact Hi|by apply Hstop].
Qed.

End Iterators.

(** ** Witnesses *)

#[local] Instance pool0 : NodeAllocator FixedPool := pool_allocator 0.

Lemma object_k5_run : exists st ext, nrun object_k5 empty_store [] = Some (st, ext) /\ inv st ext /\
  128%nat ∈ ext /\ cells st !! 128%nat = Some (mkNode 1 1 (PObject (dm_set [107] 129%nat dm_new))).
Proof.
  destruct (nrun_inv object_k5 empty_store [] empty_inv) as (st & ext & Hrun & Hi).
  assert ((fun r => (bool_decide (128%nat ∈ r.2), cells r.1 !! 128%nat)) <$> nrun object_k5 empty_store [] =
    Some (true, Some (mkNode 1 1 (PObject (dm_set [107] 129%nat dm_new))))) as E by (vm_compute; reflexivity).
  rewrite Hrun in E. injection E as E1 E2. exists st, ext. repeat (split; [assumption|]).
  split; [exact (proj1 (bool_decide_eq_true _) E1)|exact E2].
Defined.

Lemma iterator_visits_all_witness : exists (st st' : store (P := FixedPool)) it,
  CreateObject (Some 128%nat) st = Some (Some it, st') /\ walk 2 it st' = Some [([107], 0, Some 129%nat)].
Proof.
  destruct object_k5_run as (st & ext & _ & _ & _ & H).
  destruct (iterator_visits_all st 128%nat _ H) as [Ho _].
  destruct (Ho (dm_set [107] 129%nat dm_new) eq_refl) as (it & st' & Hc & Hw).
  exists st, st', it. split; [exact Hc|]. assert (dm_list (dm_set [107] 129%nat dm_new) = [([107], 129%nat)]) as E by reflexivity.
  rewrite E in Hw. exact Hw.
Defined.

Lemma iterator_stops_after_change_witness : exists (st st' : store (P := FixedPool)) it,
  ObjErase 128%nat [107] st = Some (true, st') /\ Next it st' = Some (false, it).
Proof.
  destruct object_k5_run as (st & ext & _ & Hi & Hn & H).
  destruct (iterator_stops_after_change st ext 128%nat _ (dm_set [107] 129%nat dm_new)
              (mkIter ItObject 128%nat 1 [[107]] [] 0 None 0 None) Hi Hn H eq_refl eq_refl eq_refl) as (_ & He & _);
    [split; [discriminate|reflexivity]|].
  destruct (He [107]) as (st' & Hs & Hx); [exists 129%nat; reflexivity|].
  exists st, st', (mkIter ItObject 128%nat 1 [[107]] [] 0 None 0 None). split; [exact Hs|exact Hx].
Defined.
