(* ===== verification/Natives.v ===== *)
(** * The native boundary: plugins, handles and heap objects

    A native is called by a SourcePawn plugin with an array of cells.  The
    [world] is what natives share: the handle table, the C++ objects behind the
    handles, the heap of nodes, the plugin's memory, the pending script error
    and the path error of [natives_json.cpp].  A native is a function of the
    calling context and the parameters in the state monad [N].  Its outcome
    distinguishes undefined behaviour ([UB]) from a call whose arguments are not
    what the script compiler guarantees ([BadArg]: a parameter that is missing,
    or an address the virtual machine refuses where the native ignores the
    refusal). *)

From stdpp Require Import base numbers list gmap.
From Stdlib Require Import ZArith Lia.
From S2P Require Import Clock DnsResolver TcpSocket UdpSocket WsConnection LinkedList LockedQueue HeaderMap HttpRequest EventLoop MsgPack Prelude HandleManager HttpState NodePool DataMap DataValue Float Text DataNode DataRefcount JsonText JsonParse DataHandle DataIterator.

(** ** Plugin memory

    The address translation and string functions of the SourcePawn virtual
    machine ([IPluginContext]).  [LocalToString] gives the C string at a local
    address, [read_cells] the cells at one ([LocalToPhysAddr] and a read),
    [read_raw] the bytes a native reads through the pointer; [None] is an error
    code.  [StringToLocal] copies a string into a buffer of
    the given size.  The memory of a plugin is smaller than 2 GB. *)
Class PluginContext (M : Type) := {
  LocalToString : M -> Z -> option bytes;
  read_cells : M -> Z -> nat -> option (list Z);
  read_raw : M -> Z -> nat -> option bytes;
  write_cells : Z -> list Z -> M -> option M;
  write_bytes : Z -> bytes -> M -> option M;
  StringToLocal : Z -> Z -> bytes -> M -> M;
  read_cells_range m addr n cs : read_cells m addr n = Some cs -> Forall (s_range 32) cs;
  read_raw_bytes m addr n b : read_raw m addr n = Some b -> Forall is_byte b /\ length b = n;
  read_write_cells m addr cs m' : Forall (s_range 32) cs ->
    write_cells addr cs m = Some m' -> read_cells m' addr (length cs) = Some cs;
  LocalToString_text m addr s : LocalToString m addr = Some s -> Forall (fun c => 0 < c < 256) s /\ Z.of_nat (length s) < 2 ^ 31;
  raw_string m addr s : Forall (fun c => 0 < c < 256) s -> Z.of_nat (length s) < 2 ^ 31 ->
    read_raw m addr (S (length s)) = Some (s ++ [0]) -> LocalToString m addr = Some s;
  raw_app m addr n k x : read_raw m addr (n + k) = Some x <->
    exists y z, x = y ++ z /\ read_raw m addr n = Some y /\ read_raw m (addr + Z.of_nat n) k = Some z;
  raw_write m addr b m' : write_bytes addr b m = Some m' -> Forall is_byte b -> read_raw m' addr (length b) = Some b;
  raw_write_other m addr b m' addr' n : write_bytes addr b m = Some m' ->
    addr' + Z.of_nat n <= addr \/ addr + Z.of_nat (length b) <= addr' -> read_raw m' addr' n = read_raw m addr' n;
  raw_writable m addr n x b : read_raw m addr n = Some x -> length b = n -> is_Some (write_bytes addr b m);
  write_string m addr b m' addr' : write_bytes addr b m = Some m' -> is_Some (LocalToString m addr') -> is_Some (LocalToString m' addr')
}.

Section Natives.

Context {MO : DataMap bytes} {MI : DataMap Z} {P : Type} {PA : NodeAllocator P} {M : Type} {PC : PluginContext M}.

#[local] Notation heap := (store (P := P)).

(** ** The world *)

(** The objects handles point to. *)
Inductive object :=
  | ODataHandle (node : option loc)
  | OIterator (it : DataIterator)
  | OHttpRequest (r : HttpRequest)
  | OLinkedList (l : LinkedList)
  | OTcpSocket (s : Tcp.TcpSocket)
  | OUdpSocket (s : Udp.UdpSocket)
  | OWsConnection (c : Ws.WsConnection).

Definition otype (o : object) : HandleType :=
  match o with
  | ODataHandle _ => HANDLE_JSON_VALUE
  | OIterator _ => HANDLE_ITERATOR
  | OHttpRequest _ => HANDLE_HTTP_REQUEST
  | OTcpSocket _ => HANDLE_TCP_SOCKET
  | OUdpSocket _ => HANDLE_UDP_SOCKET
  | OWsConnection _ => HANDLE_WS_SOCKET
  | OLinkedList _ => HANDLE_LINKED_LIST
  end.

(** The references to nodes an object holds. *)
Definition obj_refs (o : object) : list loc :=
  match o with
  | ODataHandle n => option_list n
  | OIterator it => [node_ it]
  | OHttpRequest r => option_list (body_node r) ++ option_list (response_node r)
  | OTcpSocket _ | OUdpSocket _ | OWsConnection _ | OLinkedList _ => []
  end.

(** What the destructor of an object does apart from dropping its references:
    a request returns its easy handle to the pool, a list deletes its nodes.  A
    connection that still has an easy handle would destroy it while it is in the
    multi handle of the event thread. *)
Definition release (o : object) (c : CurlPool) : option CurlPool :=
  match o with
  | OHttpRequest r => Some (match curl r with Some e => ReleaseCurl e c | None => c end)
  | OLinkedList l => let? _ := LinkedList.Clear l in Some c
  | OWsConnection conn => match Ws.curl_handle conn with None => Some c | Some _ => None end
  | _ => Some c
  end.

(** An object in a usable state. *)
Definition obj_ok (o : object) : Prop :=
  match o with
  | ODataHandle n => is_Some n
  | OLinkedList l => exists kvs, rep l kvs
  | _ => True
  end.

Record world := mkWorld {
  hm : HandleManager;
  objects : gmap positive object;
  nodes : heap;
  memory : M;
  script_error : option bytes;
  g_path_failed : bool;
  g_path_error : bytes;
  curls : CurlPool;
  g_event_loop : EventLoop;
  g_client_handles : gmap Z (list Z);
  g_plugin_contexts : gset positive;
  g_log_level : Z;
  g_max_container_elements : Z;
  g_clock : Clock;
  g_tcp : Tcp.TcpLoop;
  g_udp : Udp.UdpLoop;
  g_ws : Ws.WsLoop;
  g_dns : Dns.DnsLoop
}.

Definition world_eta (w : world) : world :=
  mkWorld (hm w) (objects w) (nodes w) (memory w) (script_error w) (g_path_failed w) (g_path_error w) (curls w)
    (g_event_loop w) (g_client_handles w) (g_plugin_contexts w) (g_log_level w) (g_max_container_elements w) (g_clock w) (g_tcp w) (g_udp w) (g_ws w) (g_dns w).

Ltac world_setter p :=
  let x := fresh "x" in let w := fresh "w" in intros x w;
  let t := eval cbv beta delta [world_eta] in (world_eta w) in
  let t := eval pattern (p w) in t in
  lazymatch t with ?F _ => let u := eval cbv beta in (F x) in exact u end.

Definition set_hm : HandleManager -> world -> world := ltac:(world_setter hm).
Definition set_objects : gmap positive object -> world -> world := ltac:(world_setter objects).
Definition set_nodes : heap -> world -> world := ltac:(world_setter nodes).
Definition set_memory : M -> world -> world := ltac:(world_setter memory).
Definition set_script_error : option bytes -> world -> world := ltac:(world_setter script_error).
Definition set_error (x : bytes) (w : world) : world := set_script_error (Some x) w.
Definition set_failed : bool -> world -> world := ltac:(world_setter g_path_failed).
Definition set_path_error : bytes -> world -> world := ltac:(world_setter g_path_error).
Definition set_path (f : bool) (e : bytes) (w : world) : world := set_failed f (set_path_error e w).
Definition set_curls : CurlPool -> world -> world := ltac:(world_setter curls).
Definition set_loop : EventLoop -> world -> world := ltac:(world_setter g_event_loop).
Definition set_clients : gmap Z (list Z) -> world -> world := ltac:(world_setter g_client_handles).
Definition set_plugins : gset positive -> world -> world := ltac:(world_setter g_plugin_contexts).
Definition set_log_level : Z -> world -> world := ltac:(world_setter g_log_level).
Definition set_max_elements : Z -> world -> world := ltac:(world_setter g_max_container_elements).
Definition set_clock : Clock -> world -> world := ltac:(world_setter g_clock).
Definition set_tcp : Tcp.TcpLoop -> world -> world := ltac:(world_setter g_tcp).
Definition set_udp : Udp.UdpLoop -> world -> world := ltac:(world_setter g_udp).
Definition set_ws : Ws.WsLoop -> world -> world := ltac:(world_setter g_ws).
Definition set_dns : Dns.DnsLoop -> world -> world := ltac:(world_setter g_dns).

(** ** The monad *)

Inductive outcome (A : Type) := Done (a : A) (w : world) | BadArg | UB.
#[global] Arguments Done {A} a w.
#[global] Arguments BadArg {A}.
#[global] Arguments UB {A}.

Definition N (A : Type) : Type := world -> outcome A.

Definition nret {A} (a : A) : N A := fun w => Done a w.
Definition nbind {A B} (m : N A) (k : A -> N B) : N B := fun w =>
  match m w with Done a w => k a w | BadArg => BadArg | UB => UB end.

#[local] Notation "x <- m ;; k" := (nbind m (fun x => k)) (at level 100, m at next level, right associativity).
#[local] Notation "m ;;; k" := (nbind m (fun _ => k)) (at level 100, right associativity).

(** Reading the heap, changing it, changing it with a result. *)
Definition rd {A} (f : heap -> option A) : N A := fun w =>
  match f (nodes w) with Some a => Done a w | None => UB end.
Definition wr (f : heap -> option heap) : N unit := fun w =>
  match f (nodes w) with Some s => Done tt (set_nodes s w) | None => UB end.
Definition wr' {A} (f : heap -> option (A * heap)) : N A := fun w =>
  match f (nodes w) with Some (a, s) => Done a (set_nodes s w) | None => UB end.

(** A pointer that is dereferenced. *)
Definition nonnull {A} (p : option A) : N A := fun w => match p with Some a => Done a w | None => UB end.

(** ** Parameters and plugin memory *)

(** A native reads the parameters of its call, 32-bit cells; [params[0]] is
    their number. *)
Definition param (params : list Z) (i : nat) : option Z := sN 32 <$> params !! i.
Definition arg (params : list Z) (i : nat) : N Z := fun w =>
  match param params i with Some v => Done v w | None => BadArg end.

(** [LocalToString], its error ignored. *)
Definition local_string (addr : Z) : N bytes := fun w =>
  match LocalToString (memory w) addr with Some s => Done s w | None => BadArg end.
(** [LocalToPhysAddr], its error ignored, and a write through the pointer. *)
(** The bytes at an address, read through the pointer. *)
Definition local_raw (addr : Z) (n : nat) : N bytes := fun w =>
  match read_raw (memory w) addr n with Some b => Done b w | None => BadArg end.
Definition local_write (addr : Z) (cs : list Z) : N unit := fun w =>
  match write_cells addr cs (memory w) with Some m => Done tt (set_memory m w) | None => BadArg end.
Definition local_write_bytes (addr : Z) (b : bytes) : N unit := fun w =>
  match write_bytes addr b (memory w) with Some m => Done tt (set_memory m w) | None => BadArg end.
Definition string_to_local (addr maxlen : Z) (s : bytes) : N unit := fun w =>
  Done tt (set_memory (StringToLocal addr maxlen s (memory w)) w).

Definition ReadInt64 (cs : list Z) : Z :=
  match cs with [lo; hi] => sN 64 (uN 32 lo + 2 ^ 32 * uN 32 hi) | _ => 0 end.
Definition WriteInt64 (v : Z) : list Z := [sN 32 v; sN 32 (Z.shiftr v 32)].

(** Read an [int64] through an address parameter. *)
Definition ReadInt64Param (addr : Z) : N Z := fun w =>
  match read_cells (memory w) addr 2 with Some cs => Done (ReadInt64 cs) w | None => BadArg end.

(** The native returns 0 after [ThrowNativeError]; execution goes on. *)
Definition ThrowNativeError (msg : bytes) : N Z := fun w => Done 0 (set_error msg w).

(** ** Handles and objects *)

(** [g_handle_manager.GetDataHandle(h)] and the object behind the pointer. *)
Definition GetDataHandle (h : Z) : N (option (option loc)) := fun w =>
  match HandleManager.GetDataHandle h (hm w) with
  | None => Done None w
  | Some p => match objects w !! p with Some (ODataHandle n) => Done (Some n) w | _ => UB end
  end.

(** [GetDataIterator]: the address and the iterator. *)
Definition GetDataIterator (h : Z) : N (option (positive * DataIterator)) := fun w =>
  match HandleManager.GetDataIterator h (hm w) with
  | None => Done None w
  | Some p => match objects w !! p with Some (OIterator it) => Done (Some (p, it)) w | _ => UB end
  end.

Definition GetHttpRequest (h : Z) : N (option (positive * HttpRequest)) := fun w =>
  match HandleManager.GetHttpRequest h (hm w) with
  | None => Done None w
  | Some p => match objects w !! p with Some (OHttpRequest r) => Done (Some (p, r)) w | _ => UB end
  end.

Definition GetLinkedList (h : Z) : N (option (positive * LinkedList)) := fun w =>
  match HandleManager.GetLinkedList h (hm w) with
  | None => Done None w
  | Some p => match objects w !! p with Some (OLinkedList l) => Done (Some (p, l)) w | _ => UB end
  end.

(** Dereferencing a request the code has a pointer to. *)
Definition load_request (p : positive) : N HttpRequest := fun w =>
  match objects w !! p with Some (OHttpRequest r) => Done r w | _ => UB end.

(** Writing the members of an object. *)
Definition store_object (p : positive) (o : object) : N unit := fun w => Done tt (set_objects (<[p := o]> (objects w)) w).

Definition store_request (p : positive) (r : HttpRequest) : N unit := store_object p (OHttpRequest r).
Definition upd_loop (f : EventLoop -> EventLoop) : N unit := fun w => Done tt (set_loop (f (g_event_loop w)) w).
Definition upd_clients (f : gmap Z (list Z) -> gmap Z (list Z)) : N unit := fun w =>
  Done tt (set_clients (f (g_client_handles w)) w).
Definition MarkHandleClosed (h : Z) : N unit := fun w => Done tt (set_hm (HandleManager.MarkHandleClosed h (hm w)) w).

(** [new]. *)
Definition new_object (o : object) : N positive := fun w =>
  let p := fresh_addr (objects w) in Done p (set_objects (<[p := o]> (objects w)) w).

(** [delete]: the destructor drops the references, the memory is returned. *)
Definition delete_object (p : positive) : N unit := fun w =>
  match objects w !! p with
  | None => UB
  | Some o =>
      match release o (curls w), foldM (fun l => Decref (Some l)) (obj_refs o) (nodes w) with
      | Some c, Some s => Done tt (set_objects (delete p (objects w)) (set_nodes s (set_curls c w)))
      | _, _ => UB
      end
  end.

Definition CreateHandle (p : positive) (t : HandleType) (owner : positive) : N Z := fun w =>
  match HandleManager.CreateHandle p t (Some owner) (hm w) with
  | Some (h, m) => Done h (set_hm m w)
  | None => UB
  end.

Definition FreeHandle (h : Z) : N unit := fun w =>
  match used_handles_ (hm w) !! h with
  | None => Done tt w
  | Some x =>
      (if decide (type x = HANDLE_NONE) then nret tt else delete_object (pointer x))
        (set_hm (HandleManager.FreeHandle h (hm w)) w)
  end.

(** The sequence every creating native ends with: wrap [o] in a handle of the
    calling plugin, or delete it when there is none left. *)
Definition make_handle (pContext : positive) (o : object) : N Z :=
  p <- new_object o;;
  handle <- CreateHandle p (otype o) pContext;;
  if handle =? 0 then delete_object p;;; nret 0 else nret handle.

(** ** The invariant

    [L] are references nobody holds: leaked nodes.  The HTTP part is
    [HttpState.http_ok]. *)

Context {FR : Frame}.

Definition as_request (o : object) : option HttpRequest := match o with OHttpRequest r => Some r | _ => None end.
Definition requests (os : gmap positive object) : gmap positive HttpRequest := omap as_request os.

Definition world_refs (os : gmap positive object) : list loc := concat (obj_refs <$> (map_to_list os).*2).

Record Inv (L : list loc) (w : world) : Prop := {
  I_table : wf (hm w);
  I_object : forall h x, used_handles_ (hm w) !! h = Some x ->
    exists o, objects w !! pointer x = Some o /\ otype o = type x;
  I_unique : forall h h' x x', used_handles_ (hm w) !! h = Some x -> used_handles_ (hm w) !! h' = Some x' ->
    pointer x = pointer x' -> h = h';
  I_handle : forall p, is_Some (objects w !! p) -> exists h x, used_handles_ (hm w) !! h = Some x /\ pointer x = p;
  I_ok : forall p o, objects w !! p = Some o -> obj_ok o;
  I_heap : inv (nodes w) (world_refs (objects w) ++ L);
  I_http : exists pl, http_ok pl (requests (objects w)) (used_handles_ (hm w)) (g_event_loop w) (curls w) (g_client_handles w)
}.

(** There is room for one more handle, one more reference to any node and one
    more element in any list. *)
Record room (w : world) : Prop := {
  room_handles : Z.of_nat (size (used_handles_ (hm w))) < 2 ^ 32 - 1;
  room_refs : forall l c, cells (nodes w) !! l = Some c -> refcount c < 2 ^ 32 - 1;
  room_lists : forall p l, objects w !! p = Some (OLinkedList l) -> Z.of_nat (size (nodes_ l)) < 2 ^ 32 - 1
}.

Definition held (n : loc) (w : world) : Prop := n ∈ world_refs (objects w).
Definition live (n : loc) (w : world) : Prop := is_Some (cells (nodes w) !! n).

(** ** Partial-correctness triples: no undefined behaviour, and [R] if the call completes *)

Definition wp {A} (m : N A) (R : A -> world -> Prop) (w : world) : Prop :=
  match m w with Done a w => R a w | BadArg => True | UB => False end.

Lemma wp_ret {A} (a : A) (R : A -> world -> Prop) w : R a w -> wp (nret a) R w.
Proof. done. Qed.

Lemma wp_bind {A B} (m : N A) (k : A -> N B) R w : wp m (fun a => wp (k a) R) w -> wp (nbind m k) R w.
Proof. unfold wp, nbind. destruct (m w); done. Qed.

Lemma wp_mono {A} (m : N A) (R R' : A -> world -> Prop) w :
  wp m R w -> (forall a w, R a w -> R' a w) -> wp m R' w.
Proof. unfold wp. destruct (m w); auto. Qed.

Lemma wp_arg params i (R : Z -> world -> Prop) w :
  (forall v, param params i = Some v -> R v w) -> wp (arg params i) R w.
Proof. unfold wp, arg. destruct (param params i); auto. Qed.

Lemma param_range params i v : param params i = Some v -> s_range 32 v.
Proof. unfold param. destruct (params !! i); [|done]. intros [= <-]. by apply s_bounds. Qed.

Lemma wp_local_string addr (R : bytes -> world -> Prop) w : (forall s, R s w) -> wp (local_string addr) R w.
Proof. unfold wp, local_string. destruct (LocalToString (memory w) addr); auto. Qed.

Lemma wp_local_text addr (R : bytes -> world -> Prop) w :
  (forall s, LocalToString (memory w) addr = Some s -> Forall (fun c => 0 < c < 256) s -> Z.of_nat (length s) < 2 ^ 31 -> R s w) ->
  wp (local_string addr) R w.
Proof. intros HR. unfold wp, local_string. destruct (LocalToString (memory w) addr) as [s|] eqn:E; [|done]. by destruct (LocalToString_text _ _ _ E); auto. Qed.

Lemma wp_ReadInt64Param addr (R : Z -> world -> Prop) w : (forall s, R s w) -> wp (ReadInt64Param addr) R w.
Proof. unfold wp, ReadInt64Param. destruct (read_cells (memory w) addr 2); auto. Qed.

Lemma wp_rd {A} (f : heap -> option A) (R : A -> world -> Prop) w :
  (exists a, f (nodes w) = Some a /\ R a w) -> wp (rd f) R w.
Proof. unfold wp, rd. intros (a & -> & H). done. Qed.

Lemma wp_wr (f : heap -> option heap) (R : unit -> world -> Prop) w :
  (exists s, f (nodes w) = Some s /\ R tt (set_nodes s w)) -> wp (wr f) R w.
Proof. unfold wp, wr. intros (a & -> & H). done. Qed.

Lemma wp_wr' {A} (f : heap -> option (A * heap)) (R : A -> world -> Prop) w :
  (exists a s, f (nodes w) = Some (a, s) /\ R a (set_nodes s w)) -> wp (wr' f) R w.
Proof. unfold wp, wr'. intros (a & s & -> & H). done. Qed.

(** Worlds that differ in the plugin's memory and the error variables only. *)
Definition same (w w' : world) : Prop :=
  hm w' = hm w /\ objects w' = objects w /\ nodes w' = nodes w /\ g_event_loop w' = g_event_loop w /\ curls w' = curls w /\
  g_client_handles w' = g_client_handles w.

Lemma same_refl w : same w w.
Proof. done. Qed.

Lemma Inv_same L w w' : same w w' -> Inv L w -> Inv L w'.
Proof. intros (E1 & E2 & E3 & E4 & E5 & E6) []. split; rewrite ?E1, ?E2, ?E3, ?E4, ?E5, ?E6; done. Qed.

Lemma room_same w w' : same w w' -> room w -> room w'.
Proof. intros (E1 & E2 & E3 & _) [H1 H2 H3]. split; rewrite ?E1, ?E2, ?E3; done. Qed.

(** ** References of the objects *)

Lemma world_refs_fresh os p o : os !! p = None -> world_refs (<[p := o]> os) ≡ₚ obj_refs o ++ world_refs os.
Proof. intros Hp. unfold world_refs. by rewrite map_to_list_insert by done. Qed.

Lemma world_refs_lookup os p o : os !! p = Some o -> world_refs os ≡ₚ obj_refs o ++ world_refs (delete p os).
Proof.
  intros Hp. rewrite <- (world_refs_fresh (delete p os) p o) by apply lookup_delete_eq. by rewrite insert_delete_id.
Qed.

Lemma world_refs_update os p o o' : os !! p = Some o -> obj_refs o' = obj_refs o -> world_refs (<[p := o']> os) ≡ₚ world_refs os.
Proof.
  intros Hp E. rewrite (world_refs_lookup os p o Hp), <- insert_delete_eq, world_refs_fresh by apply lookup_delete_eq.
  by rewrite E.
Qed.

Lemma held_object w p o n : objects w !! p = Some o -> n ∈ obj_refs o -> held n w.
Proof. intros Hp Hn. unfold held. rewrite (world_refs_lookup _ _ _ Hp). set_solver. Qed.

Lemma held_live L w n : Inv L w -> held n w -> live n w.
Proof.
  intros Hi Hn. destruct (minv_live _ _ n (inv_m _ _ (I_heap _ _ Hi))) as (c & Hc); [|by exists c].
  unfold held in Hn. set_solver.
Qed.

(** ** The heap changes, the objects do not *)

Lemma Inv_nodes L L' w s : Inv L w -> inv s (world_refs (objects w) ++ L') -> Inv L' (set_nodes s w).
Proof. intros [] Hs. by split. Qed.

Lemma Inv_perm L L' w : L ≡ₚ L' -> Inv L w -> Inv L' w.
Proof.
  intros E Hi. assert (Inv L' (set_nodes (nodes w) w)) as H; [|by destruct w].
  apply (Inv_nodes L); [done|]. eapply inv_perm; [|exact (I_heap _ _ Hi)]. by rewrite E.
Qed.

(** ** The requests among the objects *)

Lemma requests_lookup os p : requests os !! p = (os !! p) ≫= as_request.
Proof. apply lookup_omap. Qed.

Lemma requests_Some os p r : requests os !! p = Some r <-> os !! p = Some (OHttpRequest r).
Proof. rewrite requests_lookup. destruct (os !! p) as [[]|]; cbn; naive_solver. Qed.

Lemma requests_insert os p r : requests (<[p := OHttpRequest r]> os) = <[p := r]> (requests os).
Proof. unfold requests. by apply omap_insert_Some. Qed.

Lemma requests_insert_other os p o : as_request o = None -> requests (<[p := o]> os) = delete p (requests os).
Proof. unfold requests. by apply omap_insert_None. Qed.

Lemma requests_delete os p : requests (delete p os) = delete p (requests os).
Proof. apply omap_delete. Qed.

Lemma requests_no os p o : os !! p = Some o -> as_request o = None -> delete p (requests os) = requests os.
Proof. intros Ho Ha. apply delete_id. by rewrite requests_lookup, Ho. Qed.

(** ** Replacing an object *)

(** The object that replaces another: of the same kind, and for a request the
    members that tell where it is are the same. *)
Definition replaces (o o' : object) : Prop :=
  match o, o' with
  | OHttpRequest r, OHttpRequest r' => same_core r r'
  | _, _ => as_request o = None /\ as_request o' = None /\ otype o' = otype o
  end.

Lemma replaces_type o o' : replaces o o' -> otype o' = otype o.
Proof. by destruct o, o'; intros (? & ? & ?). Qed.

Lemma replaces_http os p o o' pl handles e c cl : os !! p = Some o -> replaces o o' -> http_ok pl (requests os) handles e c cl ->
  http_ok pl (requests (<[p := o']> os)) handles e c cl.
Proof.
  intros Ho Hr H. destruct (as_request o) as [r|] eqn:E.
  - destruct o; try done. destruct o'; try (by destruct Hr as (? & _)). rewrite requests_insert. eapply http_update; [done| |exact Hr].
    by apply requests_Some.
  - assert (as_request o' = None) as E' by (destruct o, o'; naive_solver). rewrite requests_insert_other by done. by rewrite (requests_no _ _ o).
Qed.

Lemma Inv_replace L L' w p o o' : Inv L w -> objects w !! p = Some o -> replaces o o' -> obj_ok o' ->
  obj_refs o' ++ L' ≡ₚ obj_refs o ++ L -> Inv L' (set_objects (<[p := o']> (objects w)) w).
Proof.
  intros [H1 H2 H3 H4 H5 H6 [pl H7]] Ho Hrep Hok Er. pose proof (replaces_type _ _ Hrep) as Et.
  split; cbn [hm objects nodes set_objects g_event_loop curls g_client_handles]; try done.
  - intros h x Hx. destruct (H2 h x Hx) as (o1 & Ho1 & E1). destruct (decide (pointer x = p)) as [Ep|Ep].
    + exists o'. rewrite Ep in *. rewrite lookup_insert_eq. split; [done|]. congruence.
    + exists o1. by rewrite lookup_insert_ne.
  - intros q [o1 Ho1]. apply H4. destruct (decide (q = p)) as [->|Hq]; [by eexists|].
    rewrite lookup_insert_ne in Ho1 by done. by eexists.
  - intros q o1 [[<- <-]|[_ Hq]]%lookup_insert_Some; [done|by eapply H5].
  - eapply inv_perm; [|exact H6].
    rewrite (world_refs_lookup _ _ _ Ho), <- insert_delete_eq, world_refs_fresh by apply lookup_delete_eq.
    rewrite <- !app_assoc. rewrite (Permutation_app_comm (world_refs (delete p (objects w)))).
    rewrite (Permutation_app_comm (world_refs (delete p (objects w)))), !app_assoc. by rewrite Er.
  - exists pl. by eapply replaces_http.
Qed.

(** ** Typed getters *)

Lemma Inv_get L w t h p : Inv L w -> get_typed t h (hm w) = Some p ->
  exists o, objects w !! p = Some o /\ otype o = t /\
    exists x, used_handles_ (hm w) !! h = Some x /\ pointer x = p /\ type x = t.
Proof.
  intros Hi H. unfold get_typed in H. destruct (used_handles_ (hm w) !! h) as [x|] eqn:Ex; [|done].
  case_decide as Ht; [done|]. destruct (closed x); [done|]. injection H as <-.
  destruct (I_object _ _ Hi h x Ex) as (o & Ho & Eo). exists o. split_and!; [done|congruence|by exists x].
Qed.

(** The handle can be freed as it is: it is none of a request and none of a
    connection that has an easy handle. *)
Definition may_free (h : Z) (w : world) : Prop :=
  forall x, used_handles_ (hm w) !! h = Some x ->
    type x <> HANDLE_HTTP_REQUEST /\ forall c, objects w !! pointer x = Some (OWsConnection c) -> Ws.curl_handle c = None.

Lemma may_free_get L w t h p : Inv L w -> get_typed t h (hm w) = Some p -> t <> HANDLE_HTTP_REQUEST -> t <> HANDLE_WS_SOCKET -> may_free h w.
Proof.
  intros Hi Hg Ht Hw x Hx. destruct (Inv_get L w t h p Hi Hg) as (o & Ho & Eo & y & Hy & Ep & Ey). assert (y = x) as -> by congruence.
  split; [congruence|]. intros c Hc. rewrite Ep, Ho in Hc. injection Hc as ->. by destruct Hw.
Qed.

Lemma may_free_change h w w' : used_handles_ (hm w') = used_handles_ (hm w) ->
  (forall p c, objects w' !! p = Some (OWsConnection c) -> objects w !! p = Some (OWsConnection c)) -> may_free h w -> may_free h w'.
Proof. intros E Ho H x. rewrite E. intros Hx. destruct (H x Hx) as [H1 H2]. split; [done|]. intros c Hc. by apply H2, Ho. Qed.

(** The node of a [Json] handle. *)
Definition node_of (h : Z) (w : world) : option loc :=
  match HandleManager.GetDataHandle h (hm w) with
  | Some p => match objects w !! p with Some (ODataHandle n) => n | _ => None end
  | None => None
  end.

Lemma may_free_node L h w n : Inv L w -> node_of h w = Some n -> may_free h w.
Proof.
  intros Hi Hn. unfold node_of, HandleManager.GetDataHandle in Hn. destruct (get_typed _ _ _) eqn:E; [|done]. by eapply may_free_get.
Qed.

Lemma wp_GetDataHandle L h (R : option (option loc) -> world -> Prop) w : Inv L w ->
  R None w -> (forall n, node_of h w = Some n -> held n w -> R (Some (Some n)) w) ->
  wp (GetDataHandle h) R w.
Proof.
  intros Hi HN HS. unfold wp, GetDataHandle, node_of, HandleManager.GetDataHandle in *.
  destruct (get_typed _ _ _) as [p|] eqn:E; [|done].
  destruct (Inv_get L w _ h p Hi E) as (o & Ho & Ht & _). rewrite Ho in *.
  destruct o as [[n|]| | | | | |]; try done; [|by destruct (I_ok _ _ Hi _ _ Ho)].
  apply HS; [done|]. eapply held_object; [exact Ho|]. simpl. constructor.
Qed.

Lemma wp_GetDataIterator L h (R : option (positive * DataIterator) -> world -> Prop) w : Inv L w ->
  R None w -> (forall p it, objects w !! p = Some (OIterator it) -> may_free h w -> R (Some (p, it)) w) ->
  wp (GetDataIterator h) R w.
Proof.
  intros Hi HN HS. unfold wp, GetDataIterator, HandleManager.GetDataIterator.
  destruct (get_typed _ _ _) as [p|] eqn:E; [|done].
  destruct (Inv_get L w _ h p Hi E) as (o & Ho & Ht & _). rewrite Ho. destruct o; try done. apply HS; [done|]. by eapply may_free_get.
Qed.

Lemma wp_GetHttpRequest L h (R : option (positive * HttpRequest) -> world -> Prop) w : Inv L w ->
  R None w -> (forall p r x, objects w !! p = Some (OHttpRequest r) -> used_handles_ (hm w) !! h = Some x ->
    pointer x = p -> closed x = false -> R (Some (p, r)) w) ->
  wp (GetHttpRequest h) R w.
Proof.
  intros Hi HN HS. unfold wp, GetHttpRequest, HandleManager.GetHttpRequest.
  destruct (get_typed _ _ _) as [p|] eqn:E; [|done].
  destruct (Inv_get L w _ h p Hi E) as (o & Ho & Ht & x & Hx & Hp & _). rewrite Ho. destruct o; try done.
  apply (HS p r x); [done..|]. unfold get_typed in E. rewrite Hx in E. case_decide; [done|]. by destruct (closed x).
Qed.

Lemma wp_GetLinkedList L h (R : option (positive * LinkedList) -> world -> Prop) w : Inv L w ->
  R None w -> (forall p l, objects w !! p = Some (OLinkedList l) -> may_free h w -> R (Some (p, l)) w) ->
  wp (GetLinkedList h) R w.
Proof.
  intros Hi HN HS. unfold wp, GetLinkedList, HandleManager.GetLinkedList.
  destruct (get_typed _ _ _) as [p|] eqn:E; [|done].
  destruct (Inv_get L w _ h p Hi E) as (o & Ho & Ht & _). rewrite Ho. destruct o; try done. apply HS; [done|]. by eapply may_free_get.
Qed.

(** ** Creating and freeing handles *)

(** The references of the new object were in flight. *)
Lemma wp_make_handle L ctx o w : Inv (obj_refs o ++ L) w -> obj_ok o -> as_request o = None ->
  Z.of_nat (size (used_handles_ (hm w))) < 2 ^ 32 - 1 ->
  wp (make_handle ctx o) (fun h w' => Inv L w' /\ nodes w' = nodes w /\
    exists x, used_handles_ (hm w') = <[h := x]> (used_handles_ (hm w)) /\ used_handles_ (hm w) !! h = None /\
      type x = otype o /\ closed x = false /\ objects w' !! pointer x = Some o) w.
Proof.
  intros [H1 H2 H3 H4 H5 H6 [pl H7]] Ho Hnr Hroom. unfold wp, make_handle, nbind, new_object. set (p := fresh_addr (objects w)).
  pose proof (fresh_addr_None (objects w)) as Hp. fold p in Hp.
  unfold CreateHandle. cbn [hm set_objects].
  destruct (CreateHandle_spec p (otype o) (Some ctx) (hm w) (wf_next _ H1) Hroom) as (k & Hfree & _ & Hc).
  destruct (wf_Create p (otype o) (Some ctx) (hm w) H1 Hroom) as (h' & st' & Hc' & Hwf).
  rewrite Hc in Hc'. injection Hc' as <- Est. rewrite Hc. pose proof (hid_range (base_of (next_handle_ (hm w))) k) as [_ Hne].
  set (h := hid _ k) in *. rewrite (proj2 (Z.eqb_neq _ _) Hne). unfold nret.
  split; [split|split; [done|]]; cbn [hm objects nodes set_hm set_objects used_handles_ g_event_loop curls g_client_handles].
  - by rewrite Est.
  - intros h1 x1. rewrite lookup_insert_Some. intros [[<- <-]|[_ Hx1]]; [exists o; by rewrite lookup_insert_eq|].
    destruct (H2 h1 x1 Hx1) as (o1 & Ho1 & Et). exists o1. split; [|done]. rewrite lookup_insert_ne; [done|].
    intros Ep. rewrite <- Ep in Ho1. congruence.
  - assert (forall h1 x1, used_handles_ (hm w) !! h1 = Some x1 -> pointer x1 <> p) as Hnp.
    { intros h1 x1 Hx1 Ep. destruct (H2 h1 x1 Hx1) as (o1 & Ho1 & _). rewrite Ep in Ho1. congruence. }
    intros h1 h2 x1 x2. rewrite !lookup_insert_Some. intros [[<- <-]|[_ Hx1]] [[<- <-]|[_ Hx2]] Ep; [done| | |by eapply H3].
    + by destruct (Hnp h2 x2 Hx2).
    + by destruct (Hnp h1 x1 Hx1).
  - intros q [o1 Ho1]. destruct (decide (q = p)) as [->|Hqp].
    + exists h, (mkHandle (otype o) p (Some ctx) false). by rewrite lookup_insert_eq.
    + rewrite lookup_insert_ne in Ho1 by done. destruct (H4 q) as (h1 & x1 & Hx1 & Ep); [by exists o1|].
      exists h1, x1. split; [|done]. rewrite lookup_insert_ne; [done|]. intros <-. congruence.
  - intros q o1 [[<- <-]|[_ Hq]]%lookup_insert_Some; [done|by eapply H5].
  - eapply inv_perm; [|exact H6]. rewrite world_refs_fresh by done. rewrite <- !app_assoc.
    rewrite (Permutation_app_comm (world_refs (objects w))), <- app_assoc. apply Permutation_app_head, Permutation_app_comm.
  - exists pl. rewrite requests_insert_other by done. rewrite delete_id by (by rewrite requests_lookup, Hp).
    eapply http_handles; [exact H7|]. intros h1 x1 Hx1 _. rewrite lookup_insert_ne; [done|]. intros <-. congruence.
  - eexists. split; [done|]. split; [done|]. split_and!; [done|done|]. apply lookup_insert_eq.
Qed.

Lemma obj_refs_not_other L w h x : Inv L w -> used_handles_ (hm w) !! h = Some x -> type x <> HANDLE_NONE.
Proof. intros Hi Hx. destruct (I_object _ _ Hi h x Hx) as (o & _ & <-). by destruct o. Qed.

Lemma release_ok o c : obj_ok o -> (forall conn, o = OWsConnection conn -> Ws.curl_handle conn = None) -> exists c', release o c = Some c'.
Proof.
  destruct o as [| | |l| | |conn]; cbn; eauto; [|intros _ Hn; rewrite (Hn conn eq_refl); by exists c]. intros (kvs & al & _ & Hr). destruct (Clear_spec _ _ Hr) as (l' & -> & _). by exists c.
Qed.

Lemma wp_FreeHandle L h w : Inv L w -> may_free h w ->
  wp (FreeHandle h) (fun _ w' => Inv L w' /\ used_handles_ (hm w') = delete h (used_handles_ (hm w)) /\
    shrunk (cells (nodes w)) (cells (nodes w'))) w.
Proof.
  intros Hi Hno. unfold wp, FreeHandle. destruct (used_handles_ (hm w) !! h) as [x|] eqn:Ex.
  2:{ split_and!; [done|by rewrite delete_id|apply shrunk_refl]. }
  rewrite decide_False by (by eapply obj_refs_not_other). unfold delete_object. cbn [objects set_hm nodes curls].
  destruct (I_object _ _ Hi h x Ex) as (o & Ho & Et). rewrite Ho.
  assert (as_request o = None) as Hnr by (destruct o; try done; destruct (Hno x Ex) as [[] _]; by rewrite <- Et).
  destruct (release_ok o (curls w) (I_ok _ _ Hi _ _ Ho)) as [cs Hcs]; [intros c ->; by apply (Hno x Ex)|]. rewrite Hcs.
  assert (cs = curls w) as ->. { destruct o as [| | |l| | |c]; try done; cbn in Hcs; try congruence; [destruct (LinkedList.Clear l)|destruct (Ws.curl_handle c)]; congruence. }
  destruct Hi as [H1 H2 H3 H4 H5 H6 [pl H7]].
  destruct (Decrefs_inv (obj_refs o) (nodes w) (world_refs (delete (pointer x) (objects w)) ++ L)) as (s & -> & Hs & Hsh).
  { eapply inv_perm; [|exact H6]. rewrite (world_refs_lookup _ _ _ Ho). by rewrite app_assoc. }
  assert (used_handles_ (HandleManager.FreeHandle h (hm w)) = delete h (used_handles_ (hm w))) as Eu.
  { unfold HandleManager.FreeHandle. by rewrite Ex. }
  split; [|done]. split; cbn [hm objects nodes set_hm set_objects set_nodes set_curls g_event_loop curls g_client_handles].
  - by apply wf_Free.
  - rewrite Eu. intros h1 x1 [Hne Hx1]%lookup_delete_Some. destruct (H2 h1 x1 Hx1) as (o1 & Ho1 & E1).
    exists o1. split; [|done]. rewrite lookup_delete_ne; [done|]. intros Ep. destruct Hne. by eapply H3.
  - rewrite Eu. intros h1 h2 x1 x2 [_ Hx1]%lookup_delete_Some [_ Hx2]%lookup_delete_Some. by apply H3.
  - intros q [o1 [Hq Ho1]%lookup_delete_Some]. destruct (H4 q) as (h1 & x1 & Hx1 & Ep); [by exists o1|].
    exists h1, x1. split; [|done]. rewrite Eu, lookup_delete_ne; [done|]. intros <-. congruence.
  - intros q o1 [_ Hq]%lookup_delete_Some. by eapply H5.
  - done.
  - exists pl. rewrite requests_delete, (requests_no _ _ o) by done. eapply http_handles; [exact H7|].
    intros h1 x1 Hx1 Ht1. rewrite Eu, lookup_delete_ne; [done|]. intros <-. by destruct (Hno x1 Hx1) as [? _].
Qed.

End Natives.
