(* ===== verification/NativesJson.v ===== *)
(** * [src/natives_json.cpp]: the JSON natives

    Every native of the file except [async2_JsonMemorySize] and
    [async2_JsonPoolStats], which report sizes of C++ containers and of the node
    pool.  A handle's [DataHandle] is its node pointer; [size_t] has 64 bits. *)

From stdpp Require Import base numbers list gmap.
From Stdlib Require Import ZArith Lia.
From S2P Require Import LinkedList LockedQueue HeaderMap HttpRequest EventLoop Prelude HandleManager NodePool DataMap DataValue Float Text DataNode DataRefcount JsonText JsonParse DataHandle DataIterator Natives.

Section JsonNatives.

Context {MO : DataMap bytes} {MI : DataMap Z} {P : Type} {PA : NodeAllocator P} {M : Type} {PC : PluginContext M}.

(** simdjson, and the file system: the size [ftell] reports for a path and the
    bytes [fread] delivers, [None] when the file cannot be opened. *)
Context (iterate : bytes -> option od_value) (read_file : bytes -> option (Z * bytes)).

#[local] Notation N := (N (P := P) (M := M)).
#[local] Notation world := (world (P := P) (M := M)).
#[local] Notation "x <- m ;; k" := (nbind m (fun x => k)) (at level 100, m at next level, right associativity).
#[local] Notation "m ;;; k" := (nbind m (fun _ => k)) (at level 100, right associativity).

(** A native, as a function of the calling plugin and the parameters. *)
Definition native : Type := positive -> list Z -> N Z.

Definition cell (z : Z) : Z := sN 32 z.
Definition to_size (z : Z) : Z := uN 64 z.
Definition sp_ftoc (bits : Z) : Z := sN 32 bits.
Definition sp_ctof (c : Z) : Z := uN 32 c.
(** [static_cast<double>(sp_ctof(c))] *)
Definition ctod (c : Z) : Z := f32_to_f64 (sp_ctof c).
Definition is_true (c : Z) : bool := negb (c =? 0).

(** [snprintf] into a buffer of [size] bytes. *)
Definition snprintf (size : nat) (text : bytes) : bytes := take (size - 1) text.

Definition DataTypeName (p : payload (MO := MO) (MI := MI)) : bytes :=
  match p with
  | PNull => str "null" | PBool _ => str "bool" | PInt _ => str "int" | PFloat _ => str "float"
  | PString _ => str "string" | PArray _ => str "array" | PObject _ => str "object"
  | PIntMap _ => str "intobject" | PBinary _ => str "binary"
  end.

(** ** Paths *)

Definition kMaxPathKeyLen : nat := 256.

(** The length-capped copy in [key_buf]. *)
Definition key_buf (key : bytes) : bytes := take kMaxPathKeyLen key.

(** [LocalToString] and [LocalToPhysAddr] with their errors tested. *)
Definition try_string (addr : Z) : N (option bytes) := fun w => Done (LocalToString (memory w) addr) w.
Definition try_cell (addr : Z) : N (option Z) := fun w =>
  Done (match read_cells (memory w) addr 1 with Some [c] => Some c | _ => None end) w.

(** [BuildPathString]: the path up to the step that fails. *)
Fixpoint BuildPathString (params : list Z) (idx steps : nat) (node : loc) (path : bytes) : N bytes :=
  match steps with
  | O => nret path
  | S steps =>
      p <- rd (deref node);;
      match p with
      | PObject m =>
          a <- arg params idx;; key <- try_string a;;
          match key with
          | None => nret path
          | Some key =>
              let path := (match path with [] => [] | _ => path ++ str "." end) ++ key_buf key in
              child <- rd (ObjFind node (key_buf key));;
              match child with
              | None => nret path
              | Some child => BuildPathString params (S idx) steps child path
              end
          end
      | PIntMap m =>
          a <- arg params idx;; key <- try_cell a;;
          match key with
          | None => nret path
          | Some key =>
              let path := (match path with [] => [] | _ => path ++ str "." end) ++ dec key in
              child <- rd (IntMapFind node key);;
              match child with
              | None => nret path
              | Some child => BuildPathString params (S idx) steps child path
              end
          end
      | PArray arr =>
          a <- arg params idx;; index <- try_cell a;;
          match index with
          | None => nret path
          | Some index =>
              let path := path ++ str "[" ++ dec index ++ str "]" in
              if (index <? 0) || (to_size index >=? Z.of_nat (length arr)) then nret path else
              child <- nonnull (arr !! Z.to_nat index);;
              BuildPathString params (S idx) steps child path
          end
      | _ => nret path
      end
  end.

(** An em dash in UTF-8. *)
Definition dash : bytes := [32; 226; 128; 148; 32].

Definition set_path_error (e : bytes) : N unit := fun w => Done tt (set_path true e w).

Definition SetPathError (params : list Z) (root : loc) (start step : nat) (reason : bytes) : N unit :=
  path <- BuildPathString params start step root [];;
  set_path_error ((match path with [] => str "<root>" | _ => path end) ++ dash ++ reason).

(** The loop of [ResolveJsonPath]: [i] steps are done, [n] remain. *)
Fixpoint resolve_loop (params : list Z) (root : loc) (start i n : nat) (node : loc) : N (option loc) :=
  match n with
  | O => nret (Some node)
  | S n =>
      p <- rd (deref node);;
      match p with
      | PObject m =>
          a <- arg params (start + i);; key <- try_string a;;
          match key with
          | None => SetPathError params root start i (str "expected string key for object");;; nret None
          | Some key =>
              child <- rd (ObjFind node (key_buf key));;
              match child with
              | None => SetPathError params root start (i + 1) (str "key not found");;; nret None
              | Some child => resolve_loop params root start (S i) n child
              end
          end
      | PIntMap m =>
          a <- arg params (start + i);; key <- try_cell a;;
          match key with
          | None => SetPathError params root start i (str "expected integer key for intmap");;; nret None
          | Some key =>
              child <- rd (IntMapFind node key);;
              match child with
              | None => SetPathError params root start (i + 1) (str "key not found");;; nret None
              | Some child => resolve_loop params root start (S i) n child
              end
          end
      | PArray arr =>
          a <- arg params (start + i);; index <- try_cell a;;
          match index with
          | None => SetPathError params root start i (str "expected integer index for array");;; nret None
          | Some index =>
              if (index <? 0) || (to_size index >=? Z.of_nat (length arr)) then
                SetPathError params root start (i + 1)
                  (snprintf 64 (str "index " ++ dec index ++ str " out of bounds (length " ++
                                dec (Z.of_nat (length arr)) ++ str ")"));;; nret None
              else child <- nonnull (arr !! Z.to_nat index);; resolve_loop params root start (S i) n child
          end
      | p =>
          SetPathError params root start i (snprintf 64 (str "cannot index into " ++ DataTypeName p));;; nret None
      end
  end.

Definition clear_path : N unit := fun w => Done tt (set_path false [] w).

Definition ResolveJsonPath (params : list Z) (node : option loc) (start : nat) (count : Z) : N (option loc) :=
  clear_path;;;
  match node with
  | None => set_path_error (str "<root>" ++ dash ++ str "null node");;; nret None
  | Some root => resolve_loop params root start 0 (Z.to_nat count) root
  end.

(** ** Shared pieces *)

Definition GET_JSON_HANDLE (params : list Z) (k : option loc -> N Z) : N Z :=
  h <- arg params 1;; json <- GetDataHandle h;;
  match json with
  | None => ThrowNativeError (str "Invalid or closed Json handle")
  | Some node => k node
  end.

Definition strict_error (nativeName where_ : bytes) (p : payload) (expected : bytes) : bytes :=
  nativeName ++ str "(" ++ where_ ++ str "): value is " ++ DataTypeName p ++ str ", expected " ++ expected.

Definition StrictAsInt (v : option loc) (nativeName where_ : bytes) : N Z :=
  match v with
  | None => nret 0
  | Some n =>
      p <- rd (deref n);;
      match p with
      | PNull => nret 0
      | PInt z => nret z
      | PFloat f => rd (fun _ => f64_to_int 64 f)
      | PBool b => nret (b2z b)
      | _ => ThrowNativeError (strict_error nativeName where_ p (str "numeric"))
      end
  end.

Definition StrictAsFloat (v : option loc) (nativeName where_ : bytes) : N Z :=
  match v with
  | None => nret 0
  | Some n =>
      p <- rd (deref n);;
      match p with
      | PNull => nret 0
      | PFloat f => nret f
      | PInt z => nret (int_to_f64 z)
      | PBool b => nret (if b then f64_one else 0)
      | _ => ThrowNativeError (strict_error nativeName where_ p (str "numeric"))
      end
  end.

Definition StrictAsBool (v : option loc) (nativeName where_ : bytes) : N bool :=
  match v with
  | None => nret false
  | Some n =>
      p <- rd (deref n);;
      match p with
      | PNull => nret false
      | PBool b => nret b
      | PInt z => nret (negb (z =? 0))
      | PFloat f => nret (negb (is_zero f))
      | _ => ThrowNativeError (strict_error nativeName where_ p (str "numeric"));;; nret false
      end
  end.

Definition StrictAsString (v : option loc) (nativeName where_ : bytes) : N bytes :=
  match v with
  | None => nret []
  | Some n =>
      p <- rd (deref n);;
      match p with
      | PNull => nret []
      | PString s => nret (cstr s)
      | _ => ThrowNativeError (strict_error nativeName where_ p (str "String"));;; nret []
      end
  end.

Definition WrapChildNode (pContext : positive) (val : option loc) : N Z :=
  match val with
  | None => nret 0
  | Some n => wr (Incref n);;; make_handle pContext (ODataHandle (Some n))
  end.

(** [json->node ? json->node->ObjFind(key) : nullptr] and the quoted key. *)
Definition member (json : option loc) (key : bytes) : N (option loc) :=
  match json with Some n => rd (ObjFind n key) | None => nret None end.
Definition key_loc (key : bytes) : bytes := snprintf 260 ([34] ++ key ++ [34]).
Definition index_loc (index : Z) : bytes := snprintf 64 (str "[" ++ dec index ++ str "]").
(** [json->node ? json->node->IntMapFind(key) : nullptr] and the printed key. *)
Definition int_member (json : option loc) (key : Z) : N (option loc) :=
  match json with Some n => rd (IntMapFind n key) | None => nret None end.
Definition int_loc (key : Z) : bytes := snprintf 40 (dec key).

Definition ArrayElem (json : option loc) (index : Z) : N (option loc) :=
  match json with
  | None => nret None
  | Some n =>
      p <- rd (deref n);;
      match p with
      | PArray a => if (index <? 0) || (to_size index >=? Z.of_nat (length a)) then nret None
                    else x <- nonnull (a !! Z.to_nat index);; nret (Some x)
      | _ => nret None
      end
  end.

(** A new tree, or [nullptr], wrapped in a handle. *)
Definition wrap_new (pContext : positive) (n : option loc) : N Z :=
  match n with None => nret 0 | Some n => make_handle pContext (ODataHandle (Some n)) end.

(** ** Creating and closing *)

Definition Native_JsonParse : native := fun pContext params =>
  h <- arg params 1;; request <- GetHttpRequest h;;
  match request with
  | Some (p, request) =>
      if in_event_thread request then nret 0 else
      node <- match response_node request with
              | Some n => store_object p (OHttpRequest (set_response_node None request));;; nret (Some n)
              | None => match response_body request with
                        | [] => nret None
                        | body => wr' (DataParseJson iterate body)
                        end
              end;;
      wrap_new pContext node
  | _ => nret 0
  end.

Definition Native_JsonParseString : native := fun pContext params =>
  a <- arg params 1;; str <- local_string a;;
  node <- wr' (DataParseJson iterate str);; wrap_new pContext node.

Definition Native_JsonParseFile : native := fun pContext params =>
  a <- arg params 1;; path <- local_string a;;
  match read_file path with
  | None => nret 0
  | Some (size, buf) =>
      if (size <=? 0) || (size >? 64 * 1024 * 1024) then nret 0 else
      if negb (Z.of_nat (length buf) =? size) then nret 0 else
      node <- wr' (DataParseJson iterate buf);; wrap_new pContext node
  end.

Definition Native_JsonCreateObject : native := fun pContext params =>
  json <- wr' DataHandle.CreateObject;; make_handle pContext (ODataHandle json).

Definition Native_JsonCreateArray : native := fun pContext params =>
  json <- wr' DataHandle.CreateArray;; make_handle pContext (ODataHandle json).

Definition Native_IntMapCreate : native := fun pContext params =>
  json <- wr' DataHandle.CreateIntMap;; make_handle pContext (ODataHandle json).

Definition Native_JsonClose : native := fun pContext params =>
  h <- arg params 1;; json <- GetDataHandle h;;
  match json with None => nret 0 | Some _ => FreeHandle h;;; nret 0 end.

(** ** Queries *)

Definition Native_JsonGetType : native := fun pContext params =>
  GET_JSON_HANDLE params (fun json =>
  t <- rd (GetType json);; nret (type_code t)).

Definition Native_JsonObjectSize : native := fun pContext params =>
  GET_JSON_HANDLE params (fun json =>
  n <- rd (ObjectSize json);; nret (cell n)).

Definition Native_JsonArrayLength : native := fun pContext params =>
  GET_JSON_HANDLE params (fun json =>
  n <- rd (ArrayLength json);; nret (cell n)).

Definition Native_JsonHasKey : native := fun pContext params =>
  GET_JSON_HANDLE params (fun json =>
  a <- arg params 2;; key <- local_string a;; b <- rd (HasKey json key);; nret (b2z b)).

Definition Native_JsonGetString : native := fun pContext params =>
  GET_JSON_HANDLE params (fun json =>
  a <- arg params 2;; key <- local_string a;; v <- member json key;;
  val <- StrictAsString v (str "JsonGetString") (key_loc key);;
  buf <- arg params 3;; maxlen <- arg params 4;; string_to_local buf maxlen val;;; nret 0).

Definition Native_JsonGetInt : native := fun pContext params =>
  GET_JSON_HANDLE params (fun json =>
  a <- arg params 2;; key <- local_string a;; v <- member json key;;
  z <- StrictAsInt v (str "JsonGetInt") (key_loc key);; nret (cell z)).

Definition Native_JsonGetFloat : native := fun pContext params =>
  GET_JSON_HANDLE params (fun json =>
  a <- arg params 2;; key <- local_string a;; v <- member json key;;
  f <- StrictAsFloat v (str "JsonGetFloat") (key_loc key);; nret (sp_ftoc (f64_to_f32 f))).

Definition Native_JsonGetBool : native := fun pContext params =>
  GET_JSON_HANDLE params (fun json =>
  a <- arg params 2;; key <- local_string a;; v <- member json key;;
  b <- StrictAsBool v (str "JsonGetBool") (key_loc key);; nret (b2z b)).

Definition Native_JsonGetInt64 : native := fun pContext params =>
  GET_JSON_HANDLE params (fun json =>
  a <- arg params 2;; key <- local_string a;; v <- member json key;;
  z <- StrictAsInt v (str "JsonGetInt64") (key_loc key);;
  out <- arg params 3;; local_write out (WriteInt64 z);;; nret 0).

Definition Native_JsonGetObject : native := fun pContext params =>
  GET_JSON_HANDLE params (fun json =>
  a <- arg params 2;; key <- local_string a;; val <- rd (GetObjectNode json key);;
  WrapChildNode pContext val).

Definition Native_JsonGetArray : native := fun pContext params =>
  GET_JSON_HANDLE params (fun json =>
  a <- arg params 2;; key <- local_string a;; val <- rd (GetArrayNode json key);;
  WrapChildNode pContext val).

Definition Native_JsonGet : native := fun pContext params =>
  GET_JSON_HANDLE params (fun json =>
  a <- arg params 2;; key <- local_string a;; val <- rd (GetMemberNode json key);;
  WrapChildNode pContext val).

Definition Native_JsonArrayGet : native := fun pContext params =>
  GET_JSON_HANDLE params (fun json =>
  i <- arg params 2;; val <- rd (ArrayGetMemberNode json (to_size i));; WrapChildNode pContext val).

Definition Native_JsonGetMemberType : native := fun pContext params =>
  GET_JSON_HANDLE params (fun json =>
  a <- arg params 2;; key <- local_string a;; t <- rd (MemberType json key);; nret (type_code t)).

Definition Native_JsonArrayGetType : native := fun pContext params =>
  GET_JSON_HANDLE params (fun json =>
  i <- arg params 2;; t <- rd (ArrayMemberType json (to_size i));; nret (type_code t)).

(** ** Scalar handles *)

Definition Native_JsonAsInt : native := fun pContext params =>
  GET_JSON_HANDLE params (fun json =>
  z <- StrictAsInt json (str "JsonAsInt") (str "<handle>");; nret (cell z)).

Definition Native_JsonAsInt64 : native := fun pContext params =>
  GET_JSON_HANDLE params (fun json =>
  z <- StrictAsInt json (str "JsonAsInt64") (str "<handle>");;
  out <- arg params 2;; local_write out (WriteInt64 z);;; nret 0).

Definition Native_JsonAsFloat : native := fun pContext params =>
  GET_JSON_HANDLE params (fun json =>
  f <- StrictAsFloat json (str "JsonAsFloat") (str "<handle>");; nret (sp_ftoc (f64_to_f32 f))).

Definition Native_JsonAsBool : native := fun pContext params =>
  GET_JSON_HANDLE params (fun json =>
  b <- StrictAsBool json (str "JsonAsBool") (str "<handle>");; nret (b2z b)).

Definition Native_JsonAsString : native := fun pContext params =>
  GET_JSON_HANDLE params (fun json =>
  val <- StrictAsString json (str "JsonAsString") (str "<handle>");;
  buf <- arg params 2;; maxlen <- arg params 3;; string_to_local buf maxlen val;;; nret 0).

(** ** Array elements *)

Definition Native_JsonArrayGetInt64 : native := fun pContext params =>
  GET_JSON_HANDLE params (fun json =>
  index <- arg params 2;; v <- ArrayElem json index;;
  z <- StrictAsInt v (str "JsonArrayGetInt64") (index_loc index);;
  out <- arg params 3;; local_write out (WriteInt64 z);;; nret 0).

Definition Native_JsonArrayGetString : native := fun pContext params =>
  GET_JSON_HANDLE params (fun json =>
  index <- arg params 2;; v <- ArrayElem json index;;
  val <- StrictAsString v (str "JsonArrayGetString") (index_loc index);;
  buf <- arg params 3;; maxlen <- arg params 4;; string_to_local buf maxlen val;;; nret 0).

Definition Native_JsonArrayGetInt : native := fun pContext params =>
  GET_JSON_HANDLE params (fun json =>
  index <- arg params 2;; v <- ArrayElem json index;;
  z <- StrictAsInt v (str "JsonArrayGetInt") (index_loc index);; nret (cell z)).

Definition Native_JsonArrayGetFloat : native := fun pContext params =>
  GET_JSON_HANDLE params (fun json =>
  index <- arg params 2;; v <- ArrayElem json index;;
  f <- StrictAsFloat v (str "JsonArrayGetFloat") (index_loc index);; nret (sp_ftoc (f64_to_f32 f))).

Definition Native_JsonArrayGetBool : native := fun pContext params =>
  GET_JSON_HANDLE params (fun json =>
  index <- arg params 2;; v <- ArrayElem json index;;
  b <- StrictAsBool v (str "JsonArrayGetBool") (index_loc index);; nret (b2z b)).

Definition Native_JsonArrayGetObject : native := fun pContext params =>
  GET_JSON_HANDLE params (fun json =>
  i <- arg params 2;; val <- rd (ArrayGetNode json (to_size i));; WrapChildNode pContext val).

(** ** Iterators *)

Definition Native_ObjectIterCreate : native := fun pContext params =>
  h <- arg params 1;; json <- GetDataHandle h;;
  match json with
  | Some (Some n) =>
      p <- rd (deref n);;
      if negb (is_object p) then nret 0 else
      iter <- wr' (DataIterator.CreateObject (Some n));;
      match iter with None => nret 0 | Some it => make_handle pContext (OIterator it) end
  | _ => nret 0
  end.

Definition Native_IntMapIterCreate : native := fun pContext params =>
  h <- arg params 1;; json <- GetDataHandle h;;
  match json with
  | Some (Some n) =>
      p <- rd (deref n);;
      if negb (is_intmap p) then nret 0 else
      iter <- wr' (DataIterator.CreateIntMap (Some n));;
      match iter with None => nret 0 | Some it => make_handle pContext (OIterator it) end
  | _ => nret 0
  end.

Definition Native_IterNext : native := fun pContext params =>
  h <- arg params 1;; iter <- GetDataIterator h;;
  match iter with
  | None => nret 0
  | Some (p, it) =>
      if decide (Type_ it <> ItObject) then nret 0 else
      r <- rd (Next it);;
      let '(more, it) := r in
      store_object p (OIterator it);;;
      if negb more then nret 0 else
      buf <- arg params 2;; maxlen <- arg params 3;; string_to_local buf maxlen (ObjectKey it);;; nret 1
  end.

Definition Native_IntMapIterNext : native := fun pContext params =>
  h <- arg params 1;; iter <- GetDataIterator h;;
  match iter with
  | None => nret 0
  | Some (p, it) =>
      if decide (Type_ it <> ItIntMap) then nret 0 else
      r <- rd (Next it);;
      let '(more, it) := r in
      store_object p (OIterator it);;;
      if negb more then nret 0 else
      out <- arg params 2;; local_write out [cell (IntMapKey it)];;; nret 1
  end.

Definition Native_IntMapIterNext64 : native := fun pContext params =>
  h <- arg params 1;; iter <- GetDataIterator h;;
  match iter with
  | None => nret 0
  | Some (p, it) =>
      if decide (Type_ it <> ItIntMap) then nret 0 else
      r <- rd (Next it);;
      let '(more, it) := r in
      store_object p (OIterator it);;;
      if negb more then nret 0 else
      out <- arg params 2;; local_write out (WriteInt64 (IntMapKey it));;; nret 1
  end.

Definition Native_IterClose : native := fun pContext params =>
  h <- arg params 1;; iter <- GetDataIterator h;;
  match iter with None => nret 0 | Some _ => FreeHandle h;;; nret 0 end.

(** [if (!iter || !iter->Value()) return ...]: the current value. *)
Definition iter_value (params : list Z) : N (option loc) :=
  h <- arg params 1;; iter <- GetDataIterator h;;
  nret (match iter with None => None | Some (_, it) => Value it end).

(** [static_cast<cell_t>] of a double, the coercion of [IterGetInt] and
    [JsonPathGetInt]. *)
Definition coerce_cell (p : payload) : option Z :=
  match p with
  | PInt z => Some (cell z)
  | PFloat f => f64_to_int 32 f
  | PBool b => Some (b2z b)
  | _ => Some 0
  end.

(** The coercion to [float] of [IterGetFloat] and [JsonPathGetFloat]. *)
Definition coerce_float (p : payload) : Z :=
  match p with
  | PFloat f => f64_to_f32 f
  | PInt z => int_to_f32 z
  | PBool b => if b then f32_one else 0
  | _ => 0
  end.

Definition Native_IterGetType : native := fun pContext params =>
  v <- iter_value params;;
  match v with
  | None => nret 0
  | Some v =>
      t <- rd (NodeToType (Some v));; nret (type_code t)
  end.

Definition Native_IterGetInt : native := fun pContext params =>
  v <- iter_value params;;
  match v with
  | None => nret 0
  | Some v =>
      p <- rd (deref v);; rd (fun _ => coerce_cell p)
  end.

Definition Native_IterGetInt64 : native := fun pContext params =>
  v <- iter_value params;;
  match v with
  | None => nret 0
  | Some v =>
      z <- rd (AsInt (Some v));; out <- arg params 2;; local_write out (WriteInt64 z);;; nret 0
  end.

Definition Native_IterGetFloat : native := fun pContext params =>
  v <- iter_value params;;
  match v with
  | None => nret 0
  | Some v =>
      p <- rd (deref v);; nret (sp_ftoc (coerce_float p))
  end.

Definition Native_IterGetBool : native := fun pContext params =>
  v <- iter_value params;;
  match v with
  | None => nret 0
  | Some v =>
      b <- rd (AsBool (Some v));; nret (b2z b)
  end.

Definition Native_IterGetString : native := fun pContext params =>
  v <- iter_value params;; s <- rd (AsString v);;
  buf <- arg params 2;; maxlen <- arg params 3;; string_to_local buf maxlen s;;; nret 0.

Definition Native_IterGetObject : native := fun pContext params =>
  v <- iter_value params;;
  match v with
  | None => nret 0
  | Some v =>
      p <- rd (deref v);;
      if negb (is_object p) && negb (is_arr p) && negb (is_intmap p) then nret 0 else WrapChildNode pContext (Some v)
  end.

(** ** Object setters and mutation *)

Definition Native_JsonSetString : native := fun pContext params =>
  GET_JSON_HANDLE params (fun json =>
  a <- arg params 2;; key <- local_string a;;
  b <- arg params 3;; value <- local_string b;; wr (SetString json key value);;; nret 0).

Definition Native_JsonSetInt : native := fun pContext params =>
  GET_JSON_HANDLE params (fun json =>
  a <- arg params 2;; key <- local_string a;;
  v <- arg params 3;; wr (SetInt json key v);;; nret 0).

Definition Native_JsonSetInt64 : native := fun pContext params =>
  GET_JSON_HANDLE params (fun json =>
  a <- arg params 2;; key <- local_string a;;
  b <- arg params 3;; v <- ReadInt64Param b;; wr (SetInt json key v);;; nret 0).

Definition Native_JsonSetFloat : native := fun pContext params =>
  GET_JSON_HANDLE params (fun json =>
  a <- arg params 2;; key <- local_string a;;
  v <- arg params 3;; wr (SetFloat json key (ctod v));;; nret 0).

Definition Native_JsonSetBool : native := fun pContext params =>
  GET_JSON_HANDLE params (fun json =>
  a <- arg params 2;; key <- local_string a;;
  v <- arg params 3;; wr (SetBool json key (is_true v));;; nret 0).

Definition Native_JsonSetNull : native := fun pContext params =>
  GET_JSON_HANDLE params (fun json =>
  a <- arg params 2;; key <- local_string a;;
  wr (SetNull json key);;; nret 0).

Definition Native_JsonSetObject : native := fun pContext params =>
  GET_JSON_HANDLE params (fun json =>
  a <- arg params 2;; key <- local_string a;;
  h <- arg params 3;; child <- GetDataHandle h;;
  match child with
  | None => nret 0
  | Some child =>
      if decide (json = child) then ThrowNativeError (str "Cannot SetObject with self as child") else
      c <- nonnull child;; wr (Incref c);;;
      n <- nonnull json;; wr (ObjInsert n key c);;;
      FreeHandle h;;; nret 0
  end).

Definition Native_JsonRemoveKey : native := fun pContext params =>
  GET_JSON_HANDLE params (fun json =>
  a <- arg params 2;; key <- local_string a;;
  b <- wr' (RemoveKey json key);; nret (b2z b)).

Definition Native_JsonObjectClear : native := fun pContext params =>
  GET_JSON_HANDLE params (fun json =>
  wr (ObjectClear json);;; nret 0).

Definition Native_JsonObjectMerge : native := fun pContext params =>
  GET_JSON_HANDLE params (fun json =>
  h <- arg params 2;; other <- GetDataHandle h;;
  match other with
  | None => nret 0
  | Some other =>
      if decide (json = other) then nret 0 else
      overwrite <- arg params 3;; wr (ObjectMerge json other (is_true overwrite));;; nret 0
  end).

(** ** Array mutation *)

Definition Native_JsonArrayRemove : native := fun pContext params =>
  GET_JSON_HANDLE params (fun json =>
  i <- arg params 2;; b <- wr' (ArrayRemove json (to_size i));; nret (b2z b)).

Definition Native_JsonArraySetString : native := fun pContext params =>
  GET_JSON_HANDLE params (fun json =>
  i <- arg params 2;; b <- arg params 3;; value <- local_string b;; wr (ArraySetString json (to_size i) value);;; nret 0).

Definition Native_JsonArraySetInt : native := fun pContext params =>
  GET_JSON_HANDLE params (fun json =>
  i <- arg params 2;; v <- arg params 3;; wr (ArraySetInt json (to_size i) v);;; nret 0).

Definition Native_JsonArraySetInt64 : native := fun pContext params =>
  GET_JSON_HANDLE params (fun json =>
  i <- arg params 2;; b <- arg params 3;; v <- ReadInt64Param b;; wr (ArraySetInt json (to_size i) v);;; nret 0).

Definition Native_JsonArraySetFloat : native := fun pContext params =>
  GET_JSON_HANDLE params (fun json =>
  i <- arg params 2;; v <- arg params 3;; wr (ArraySetFloat json (to_size i) (ctod v));;; nret 0).

Definition Native_JsonArraySetBool : native := fun pContext params =>
  GET_JSON_HANDLE params (fun json =>
  i <- arg params 2;; v <- arg params 3;; wr (ArraySetBool json (to_size i) (is_true v));;; nret 0).

Definition Native_JsonArraySetNull : native := fun pContext params =>
  GET_JSON_HANDLE params (fun json =>
  i <- arg params 2;; wr (ArraySetNull json (to_size i));;; nret 0).

Definition Native_JsonArraySetObject : native := fun pContext params =>
  GET_JSON_HANDLE params (fun json =>
  i <- arg params 2;; 
  h <- arg params 3;; child <- GetDataHandle h;;
  match child with
  | None => nret 0
  | Some child =>
      if decide (json = child) then ThrowNativeError (str "Cannot ArraySetObject with self as child") else
      c <- nonnull child;; wr (Incref c);;;
      n <- nonnull json;; wr (ArrSet n (to_size i) c);;;
      FreeHandle h;;; nret 0
  end).

Definition Native_JsonArrayClear : native := fun pContext params =>
  GET_JSON_HANDLE params (fun json =>
  wr (ArrayClear json);;; nret 0).

Definition Native_JsonArrayExtend : native := fun pContext params =>
  GET_JSON_HANDLE params (fun json =>
  h <- arg params 2;; other <- GetDataHandle h;;
  match other with
  | None => nret 0
  | Some other =>
      if decide (json = other) then nret 0 else
      wr (ArrayExtend json other);;; nret 0
  end).

Definition Native_JsonArrayAppendString : native := fun pContext params =>
  GET_JSON_HANDLE params (fun json =>
  b <- arg params 2;; value <- local_string b;; wr (ArrayAppendString json value);;; nret 0).

Definition Native_JsonArrayAppendInt : native := fun pContext params =>
  GET_JSON_HANDLE params (fun json =>
  v <- arg params 2;; wr (ArrayAppendInt json v);;; nret 0).

Definition Native_JsonArrayAppendInt64 : native := fun pContext params =>
  GET_JSON_HANDLE params (fun json =>
  b <- arg params 2;; v <- ReadInt64Param b;; wr (ArrayAppendInt json v);;; nret 0).

Definition Native_JsonArrayAppendFloat : native := fun pContext params =>
  GET_JSON_HANDLE params (fun json =>
  v <- arg params 2;; wr (ArrayAppendFloat json (ctod v));;; nret 0).

Definition Native_JsonArrayAppendBool : native := fun pContext params =>
  GET_JSON_HANDLE params (fun json =>
  v <- arg params 2;; wr (ArrayAppendBool json (is_true v));;; nret 0).

Definition Native_JsonArrayAppendNull : native := fun pContext params =>
  GET_JSON_HANDLE params (fun json =>
  wr (ArrayAppendNull json);;; nret 0).

(** [json->node->Arr().push_back(child->node)], with no test of the node type. *)
Definition Native_JsonArrayAppendObject : native := fun pContext params =>
  GET_JSON_HANDLE params (fun json =>
  h <- arg params 2;; child <- GetDataHandle h;;
  match child with
  | None => nret 0
  | Some child =>
      if decide (json = child) then ThrowNativeError (str "Cannot ArrayAppendObject with self as child") else
      c <- nonnull child;; wr (Incref c);;;
      n <- nonnull json;; wr (push_back n c);;;
      FreeHandle h;;; nret 0
  end).

(** ** Whole values *)

Definition Native_JsonEquals : native := fun pContext params =>
  GET_JSON_HANDLE params (fun json =>
  h <- arg params 2;; other <- GetDataHandle h;;
  match other with
  | None => nret 0
  | Some other => n <- nonnull json;; b <- rd (Equals n other);; nret (b2z b)
  end).

Definition Native_JsonRef : native := fun pContext params =>
  GET_JSON_HANDLE params (fun json =>
  WrapChildNode pContext json).

Definition Native_JsonCopy : native := fun pContext params =>
  GET_JSON_HANDLE params (fun json =>
  n <- nonnull json;; copy <- wr' (DeepCopy n);; make_handle pContext (ODataHandle (Some copy))).

Definition Native_JsonSerialize : native := fun pContext params =>
  GET_JSON_HANDLE params (fun json =>
  buffer <- arg params 2;; local_string buffer;;; maxlen <- arg params 3;;
  argc <- arg params 0;;
  pretty <- (if argc >=? 4 then p <- arg params 4;; nret (is_true p) else nret false);;
  text <- rd (Serialize json (to_size maxlen) pretty);;
  match text with
  | [] => nret 0
  | _ => local_write_bytes buffer text;;; nret (cell (Z.of_nat (length text) - 1))
  end).

(** ** Path getters *)

Definition Native_JsonPathGetInt : native := fun pContext params =>
  GET_JSON_HANDLE params (fun json =>
  argc <- arg params 0;; target <- ResolveJsonPath params json 2 (argc - 1);;
  match target with
  | None => nret 0
  | Some t => p <- rd (deref t);; rd (fun _ => coerce_cell p)
  end).

Definition Native_JsonPathGetInt64 : native := fun pContext params =>
  GET_JSON_HANDLE params (fun json =>
  argc <- arg params 0;; target <- ResolveJsonPath params json 3 (argc - 2);;
  val <- rd (AsInt target);;
  out <- arg params 2;; local_write out (WriteInt64 val);;; nret 0).

Definition Native_JsonPathGetFloat : native := fun pContext params =>
  GET_JSON_HANDLE params (fun json =>
  argc <- arg params 0;; target <- ResolveJsonPath params json 2 (argc - 1);;
  match target with
  | None => nret (sp_ftoc 0)
  | Some t => p <- rd (deref t);; nret (sp_ftoc (coerce_float p))
  end).

Definition Native_JsonPathGetBool : native := fun pContext params =>
  GET_JSON_HANDLE params (fun json =>
  argc <- arg params 0;; target <- ResolveJsonPath params json 2 (argc - 1);;
  b <- rd (AsBool target);; nret (b2z b)).

Definition Native_JsonPathGetString : native := fun pContext params =>
  GET_JSON_HANDLE params (fun json =>
  argc <- arg params 0;; target <- ResolveJsonPath params json 4 (argc - 3);;
  s <- rd (AsString target);;
  buf <- arg params 2;; maxlen <- arg params 3;; string_to_local buf maxlen s;;; nret 0).

Definition Native_JsonPathGet : native := fun pContext params =>
  GET_JSON_HANDLE params (fun json =>
  argc <- arg params 0;; target <- ResolveJsonPath params json 2 (argc - 1);;
  WrapChildNode pContext target).

Definition Native_JsonPathGetType : native := fun pContext params =>
  GET_JSON_HANDLE params (fun json =>
  argc <- arg params 0;; target <- ResolveJsonPath params json 2 (argc - 1);;
  t <- rd (NodeToType target);; nret (type_code t)).

Definition Native_JsonPathFailed : native := fun pContext params =>
  fun w => Done (b2z (g_path_failed w)) w.

Definition Native_JsonPathError : native := fun pContext params =>
  buf <- arg params 1;; maxlen <- arg params 2;;
  (fun w => string_to_local buf maxlen (cstr (g_path_error w)) w);;; nret 0.

(** ** Integer maps *)

Definition Native_IntMapGetString : native := fun pContext params =>
  GET_JSON_HANDLE params (fun json =>
  key <- arg params 2;; v <- int_member json key;;
  val <- StrictAsString v (str "IntObjectGetString") (int_loc key);;
  buf <- arg params 3;; maxlen <- arg params 4;; string_to_local buf maxlen val;;; nret 0).

Definition Native_IntMapGetInt : native := fun pContext params =>
  GET_JSON_HANDLE params (fun json =>
  key <- arg params 2;; v <- int_member json key;;
  z <- StrictAsInt v (str "IntObjectGetInt") (int_loc key);; nret (cell z)).

Definition Native_IntMapGetFloat : native := fun pContext params =>
  GET_JSON_HANDLE params (fun json =>
  key <- arg params 2;; v <- int_member json key;;
  f <- StrictAsFloat v (str "IntObjectGetFloat") (int_loc key);; nret (sp_ftoc (f64_to_f32 f))).

Definition Native_IntMapGetBool : native := fun pContext params =>
  GET_JSON_HANDLE params (fun json =>
  key <- arg params 2;; v <- int_member json key;;
  b <- StrictAsBool v (str "IntObjectGetBool") (int_loc key);; nret (b2z b)).

Definition Native_IntMapGetObject : native := fun pContext params =>
  GET_JSON_HANDLE params (fun json =>
  key <- arg params 2;; val <- rd (IntMapGetObjectNode json key);; WrapChildNode pContext val).

Definition Native_IntMapGetArray : native := fun pContext params =>
  GET_JSON_HANDLE params (fun json =>
  key <- arg params 2;; val <- rd (IntMapGetArrayNode json key);; WrapChildNode pContext val).

Definition Native_IntMapGet : native := fun pContext params =>
  GET_JSON_HANDLE params (fun json =>
  key <- arg params 2;; val <- rd (IntMapGetMemberNode json key);; WrapChildNode pContext val).

Definition Native_IntMapGetMemberType : native := fun pContext params =>
  GET_JSON_HANDLE params (fun json =>
  key <- arg params 2;; t <- rd (IntMapMemberType json key);; nret (type_code t)).

Definition Native_IntMapSetString : native := fun pContext params =>
  GET_JSON_HANDLE params (fun json =>
  key <- arg params 2;;
  b <- arg params 3;; value <- local_string b;; wr (IntMapSetString json key value);;; nret 0).

Definition Native_IntMapSetInt : native := fun pContext params =>
  GET_JSON_HANDLE params (fun json =>
  key <- arg params 2;; v <- arg params 3;; wr (IntMapSetInt json key v);;; nret 0).

Definition Native_IntMapSetFloat : native := fun pContext params =>
  GET_JSON_HANDLE params (fun json =>
  key <- arg params 2;; v <- arg params 3;; wr (IntMapSetFloat json key (ctod v));;; nret 0).

Definition Native_IntMapSetBool : native := fun pContext params =>
  GET_JSON_HANDLE params (fun json =>
  key <- arg params 2;; v <- arg params 3;; wr (IntMapSetBool json key (is_true v));;; nret 0).

Definition Native_IntMapSetNull : native := fun pContext params =>
  GET_JSON_HANDLE params (fun json =>
  key <- arg params 2;; wr (IntMapSetNull json key);;; nret 0).

Definition Native_IntMapSetObject : native := fun pContext params =>
  GET_JSON_HANDLE params (fun json =>
  key <- arg params 2;;
  h <- arg params 3;; child <- GetDataHandle h;;
  match child with
  | None => nret 0
  | Some child =>
      if decide (json = child) then ThrowNativeError (str "Cannot SetObject with self as child") else
      c <- nonnull child;; wr (Incref c);;;
      n <- nonnull json;; wr (IntMapInsert n key c);;;
      FreeHandle h;;; nret 0
  end).

Definition Native_IntMapRemoveKey : native := fun pContext params =>
  GET_JSON_HANDLE params (fun json =>
  key <- arg params 2;; b <- wr' (IntMapRemoveKey json key);; nret (b2z b)).

Definition Native_IntMapHasKey : native := fun pContext params =>
  GET_JSON_HANDLE params (fun json =>
  key <- arg params 2;; b <- rd (IntMapHasKey json key);; nret (b2z b)).

Definition Native_IntMapGetString64 : native := fun pContext params =>
  GET_JSON_HANDLE params (fun json =>
  a <- arg params 2;; key <- ReadInt64Param a;; v <- int_member json key;;
  val <- StrictAsString v (str "IntObject64GetString") (int_loc key);;
  buf <- arg params 3;; maxlen <- arg params 4;; string_to_local buf maxlen val;;; nret 0).

Definition Native_IntMapGetInt64Key : native := fun pContext params =>
  GET_JSON_HANDLE params (fun json =>
  a <- arg params 2;; key <- ReadInt64Param a;; v <- int_member json key;;
  z <- StrictAsInt v (str "IntObject64GetInt") (int_loc key);; nret (cell z)).

Definition Native_IntMapGetInt64KeyValue : native := fun pContext params =>
  GET_JSON_HANDLE params (fun json =>
  a <- arg params 2;; key <- ReadInt64Param a;; v <- int_member json key;;
  z <- StrictAsInt v (str "IntObject64GetInt64") (int_loc key);;
  out <- arg params 3;; local_write out (WriteInt64 z);;; nret 0).

Definition Native_IntMapGetFloat64 : native := fun pContext params =>
  GET_JSON_HANDLE params (fun json =>
  a <- arg params 2;; key <- ReadInt64Param a;; v <- int_member json key;;
  f <- StrictAsFloat v (str "IntObject64GetFloat") (int_loc key);; nret (sp_ftoc (f64_to_f32 f))).

Definition Native_IntMapGetBool64 : native := fun pContext params =>
  GET_JSON_HANDLE params (fun json =>
  a <- arg params 2;; key <- ReadInt64Param a;; v <- int_member json key;;
  b <- StrictAsBool v (str "IntObject64GetBool") (int_loc key);; nret (b2z b)).

Definition Native_IntMapGetObject64 : native := fun pContext params =>
  GET_JSON_HANDLE params (fun json =>
  a <- arg params 2;; key <- ReadInt64Param a;; val <- rd (IntMapGetObjectNode json key);; WrapChildNode pContext val).

Definition Native_IntMapGetArray64 : native := fun pContext params =>
  GET_JSON_HANDLE params (fun json =>
  a <- arg params 2;; key <- ReadInt64Param a;; val <- rd (IntMapGetArrayNode json key);; WrapChildNode pContext val).

Definition Native_IntMapGet64 : native := fun pContext params =>
  GET_JSON_HANDLE params (fun json =>
  a <- arg params 2;; key <- ReadInt64Param a;; val <- rd (IntMapGetMemberNode json key);; WrapChildNode pContext val).

Definition Native_IntMapGetMemberType64 : native := fun pContext params =>
  GET_JSON_HANDLE params (fun json =>
  a <- arg params 2;; key <- ReadInt64Param a;; t <- rd (IntMapMemberType json key);; nret (type_code t)).

Definition Native_IntMapSetString64 : native := fun pContext params =>
  GET_JSON_HANDLE params (fun json =>
  a <- arg params 2;; key <- ReadInt64Param a;;
  b <- arg params 3;; value <- local_string b;; wr (IntMapSetString json key value);;; nret 0).

Definition Native_IntMapSetInt64 : native := fun pContext params =>
  GET_JSON_HANDLE params (fun json =>
  a <- arg params 2;; key <- ReadInt64Param a;; v <- arg params 3;; wr (IntMapSetInt json key v);;; nret 0).

Definition Native_IntMapSetInt64KeyValue : native := fun pContext params =>
  GET_JSON_HANDLE params (fun json =>
  a <- arg params 2;; key <- ReadInt64Param a;;
  b <- arg params 3;; v <- ReadInt64Param b;; wr (IntMapSetInt json key v);;; nret 0).

Definition Native_IntMapSetFloat64 : native := fun pContext params =>
  GET_JSON_HANDLE params (fun json =>
  a <- arg params 2;; key <- ReadInt64Param a;; v <- arg params 3;; wr (IntMapSetFloat json key (ctod v));;; nret 0).

Definition Native_IntMapSetBool64 : native := fun pContext params =>
  GET_JSON_HANDLE params (fun json =>
  a <- arg params 2;; key <- ReadInt64Param a;; v <- arg params 3;; wr (IntMapSetBool json key (is_true v));;; nret 0).

Definition Native_IntMapSetNull64 : native := fun pContext params =>
  GET_JSON_HANDLE params (fun json =>
  a <- arg params 2;; key <- ReadInt64Param a;; wr (IntMapSetNull json key);;; nret 0).

Definition Native_IntMapSetObject64 : native := fun pContext params =>
  GET_JSON_HANDLE params (fun json =>
  a <- arg params 2;; key <- ReadInt64Param a;;
  h <- arg params 3;; child <- GetDataHandle h;;
  match child with
  | None => nret 0
  | Some child =>
      if decide (json = child) then ThrowNativeError (str "Cannot SetObject with self as child") else
      c <- nonnull child;; wr (Incref c);;;
      n <- nonnull json;; wr (IntMapInsert n key c);;;
      FreeHandle h;;; nret 0
  end).

Definition Native_IntMapRemoveKey64 : native := fun pContext params =>
  GET_JSON_HANDLE params (fun json =>
  a <- arg params 2;; key <- ReadInt64Param a;; b <- wr' (IntMapRemoveKey json key);; nret (b2z b)).

Definition Native_IntMapHasKey64 : native := fun pContext params =>
  GET_JSON_HANDLE params (fun json =>
  a <- arg params 2;; key <- ReadInt64Param a;; b <- rd (IntMapHasKey json key);; nret (b2z b)).

Definition Native_IntMapClear : native := fun pContext params =>
  GET_JSON_HANDLE params (fun json =>
  wr (DataHandle.IntMapClear json);;; nret 0).

Definition Native_IntMapMerge : native := fun pContext params =>
  GET_JSON_HANDLE params (fun json =>
  h <- arg params 2;; other <- GetDataHandle h;;
  match other with
  | None => nret 0
  | Some other =>
      if decide (json = other) then nret 0 else
      overwrite <- arg params 3;; wr (DataHandle.IntMapMerge json other (is_true overwrite));;; nret 0
  end).

Definition Native_IntMapSize : native := fun pContext params =>
  GET_JSON_HANDLE params (fun json =>
  n <- rd (DataHandle.IntMapSize json);; nret (cell n)).

(** ** Binary data *)

Definition Native_JsonGetBuffer : native := fun pContext params =>
  h <- arg params 1;; dh <- GetDataHandle h;;
  match dh with
  | Some (Some n) =>
      p <- rd (deref n);;
      match p with
      | PBinary bin =>
          argc <- arg params 0;;
          offset <- (if argc >=? 4 then arg params 4 else nret 0);;
          if (offset <? 0) || (to_size offset >=? Z.of_nat (length bin)) then nret 0 else
          buf <- arg params 2;; maxlen <- arg params 3;;
          if maxlen <=? 0 then nret 0 else
          let available := Z.of_nat (length bin) - offset in
          let to_copy := if available <? maxlen then available else maxlen in
          local_write_bytes buf (take (Z.to_nat to_copy) (drop (Z.to_nat offset) bin));;;
          nret to_copy
      | _ => nret 0
      end
  | _ => nret 0
  end.

(** ** The table of natives *)

Definition g_JsonNatives : list (String.string * native) := [
  ("async2_JsonParseResponse"%string, Native_JsonParse);
  ("async2_JsonParseString"%string, Native_JsonParseString);
  ("async2_JsonParseFile"%string, Native_JsonParseFile);
  ("async2_JsonCreateObject"%string, Native_JsonCreateObject);
  ("async2_JsonCreateArray"%string, Native_JsonCreateArray);
  ("async2_JsonClose"%string, Native_JsonClose);
  ("async2_JsonGetType"%string, Native_JsonGetType);
  ("async2_JsonObjectSize"%string, Native_JsonObjectSize);
  ("async2_JsonArrayLength"%string, Native_JsonArrayLength);
  ("async2_JsonHasKey"%string, Native_JsonHasKey);
  ("async2_JsonGetString"%string, Native_JsonGetString);
  ("async2_JsonGetInt"%string, Native_JsonGetInt);
  ("async2_JsonGetInt64"%string, Native_JsonGetInt64);
  ("async2_JsonGetFloat"%string, Native_JsonGetFloat);
  ("async2_JsonGetBool"%string, Native_JsonGetBool);
  ("async2_JsonGetObject"%string, Native_JsonGetObject);
  ("async2_JsonGetArray"%string, Native_JsonGetArray);
  ("async2_JsonGet"%string, Native_JsonGet);
  ("async2_JsonGetMemberType"%string, Native_JsonGetMemberType);
  ("async2_JsonAsInt"%string, Native_JsonAsInt);
  ("async2_JsonAsInt64"%string, Native_JsonAsInt64);
  ("async2_JsonAsFloat"%string, Native_JsonAsFloat);
  ("async2_JsonAsBool"%string, Native_JsonAsBool);
  ("async2_JsonAsString"%string, Native_JsonAsString);
  ("async2_JsonArrayGetString"%string, Native_JsonArrayGetString);
  ("async2_JsonArrayGetInt"%string, Native_JsonArrayGetInt);
  ("async2_JsonArrayGetInt64"%string, Native_JsonArrayGetInt64);
  ("async2_JsonArrayGetFloat"%string, Native_JsonArrayGetFloat);
  ("async2_JsonArrayGetBool"%string, Native_JsonArrayGetBool);
  ("async2_JsonArrayGetObject"%string, Native_JsonArrayGetObject);
  ("async2_JsonArrayGet"%string, Native_JsonArrayGet);
  ("async2_JsonArrayGetType"%string, Native_JsonArrayGetType);
  ("async2_ObjectIterCreate"%string, Native_ObjectIterCreate);
  ("async2_IntMapIterCreate"%string, Native_IntMapIterCreate);
  ("async2_IterNext"%string, Native_IterNext);
  ("async2_IntMapIterNext"%string, Native_IntMapIterNext);
  ("async2_IntMapIterNext64"%string, Native_IntMapIterNext64);
  ("async2_IterClose"%string, Native_IterClose);
  ("async2_IterGetType"%string, Native_IterGetType);
  ("async2_IterGetInt"%string, Native_IterGetInt);
  ("async2_IterGetInt64"%string, Native_IterGetInt64);
  ("async2_IterGetFloat"%string, Native_IterGetFloat);
  ("async2_IterGetBool"%string, Native_IterGetBool);
  ("async2_IterGetString"%string, Native_IterGetString);
  ("async2_IterGetObject"%string, Native_IterGetObject);
  ("async2_JsonSetString"%string, Native_JsonSetString);
  ("async2_JsonSetInt"%string, Native_JsonSetInt);
  ("async2_JsonSetInt64"%string, Native_JsonSetInt64);
  ("async2_JsonSetFloat"%string, Native_JsonSetFloat);
  ("async2_JsonSetBool"%string, Native_JsonSetBool);
  ("async2_JsonSetNull"%string, Native_JsonSetNull);
  ("async2_JsonSetObject"%string, Native_JsonSetObject);
  ("async2_JsonRemoveKey"%string, Native_JsonRemoveKey);
  ("async2_JsonObjectClear"%string, Native_JsonObjectClear);
  ("async2_JsonObjectMerge"%string, Native_JsonObjectMerge);
  ("async2_JsonArrayRemove"%string, Native_JsonArrayRemove);
  ("async2_JsonArraySetString"%string, Native_JsonArraySetString);
  ("async2_JsonArraySetInt"%string, Native_JsonArraySetInt);
  ("async2_JsonArraySetInt64"%string, Native_JsonArraySetInt64);
  ("async2_JsonArraySetFloat"%string, Native_JsonArraySetFloat);
  ("async2_JsonArraySetBool"%string, Native_JsonArraySetBool);
  ("async2_JsonArraySetNull"%string, Native_JsonArraySetNull);
  ("async2_JsonArraySetObject"%string, Native_JsonArraySetObject);
  ("async2_JsonArrayClear"%string, Native_JsonArrayClear);
  ("async2_JsonArrayExtend"%string, Native_JsonArrayExtend);
  ("async2_JsonArrayAppendString"%string, Native_JsonArrayAppendString);
  ("async2_JsonArrayAppendInt"%string, Native_JsonArrayAppendInt);
  ("async2_JsonArrayAppendInt64"%string, Native_JsonArrayAppendInt64);
  ("async2_JsonArrayAppendFloat"%string, Native_JsonArrayAppendFloat);
  ("async2_JsonArrayAppendBool"%string, Native_JsonArrayAppendBool);
  ("async2_JsonArrayAppendNull"%string, Native_JsonArrayAppendNull);
  ("async2_JsonArrayAppendObject"%string, Native_JsonArrayAppendObject);
  ("async2_JsonEquals"%string, Native_JsonEquals);
  ("async2_JsonRef"%string, Native_JsonRef);
  ("async2_JsonCopy"%string, Native_JsonCopy);
  ("async2_JsonSerialize"%string, Native_JsonSerialize);
  ("async2_JsonPathGetInt"%string, Native_JsonPathGetInt);
  ("async2_JsonPathGetInt64"%string, Native_JsonPathGetInt64);
  ("async2_JsonPathGetFloat"%string, Native_JsonPathGetFloat);
  ("async2_JsonPathGetBool"%string, Native_JsonPathGetBool);
  ("async2_JsonPathGetString"%string, Native_JsonPathGetString);
  ("async2_JsonPathGet"%string, Native_JsonPathGet);
  ("async2_JsonPathGetType"%string, Native_JsonPathGetType);
  ("async2_JsonPathFailed"%string, Native_JsonPathFailed);
  ("async2_JsonPathError"%string, Native_JsonPathError);
  ("async2_JsonGetBuffer"%string, Native_JsonGetBuffer);
  ("async2_IntObjectCreate"%string, Native_IntMapCreate);
  ("async2_IntObjectGetString"%string, Native_IntMapGetString);
  ("async2_IntObjectGetInt"%string, Native_IntMapGetInt);
  ("async2_IntObjectGetFloat"%string, Native_IntMapGetFloat);
  ("async2_IntObjectGetBool"%string, Native_IntMapGetBool);
  ("async2_IntObjectGetObject"%string, Native_IntMapGetObject);
  ("async2_IntObjectGetArray"%string, Native_IntMapGetArray);
  ("async2_IntObjectGet"%string, Native_IntMapGet);
  ("async2_IntObjectGetMemberType"%string, Native_IntMapGetMemberType);
  ("async2_IntObject64GetString"%string, Native_IntMapGetString64);
  ("async2_IntObject64GetInt"%string, Native_IntMapGetInt64Key);
  ("async2_IntObject64GetInt64"%string, Native_IntMapGetInt64KeyValue);
  ("async2_IntObject64GetFloat"%string, Native_IntMapGetFloat64);
  ("async2_IntObject64GetBool"%string, Native_IntMapGetBool64);
  ("async2_IntObject64GetObject"%string, Native_IntMapGetObject64);
  ("async2_IntObject64GetArray"%string, Native_IntMapGetArray64);
  ("async2_IntObject64Get"%string, Native_IntMapGet64);
  ("async2_IntObject64GetMemberType"%string, Native_IntMapGetMemberType64);
  ("async2_IntObjectSetString"%string, Native_IntMapSetString);
  ("async2_IntObjectSetInt"%string, Native_IntMapSetInt);
  ("async2_IntObjectSetFloat"%string, Native_IntMapSetFloat);
  ("async2_IntObjectSetBool"%string, Native_IntMapSetBool);
  ("async2_IntObjectSetNull"%string, Native_IntMapSetNull);
  ("async2_IntObjectSetObject"%string, Native_IntMapSetObject);
  ("async2_IntObject64SetString"%string, Native_IntMapSetString64);
  ("async2_IntObject64SetInt"%string, Native_IntMapSetInt64);
  ("async2_IntObject64SetInt64"%string, Native_IntMapSetInt64KeyValue);
  ("async2_IntObject64SetFloat"%string, Native_IntMapSetFloat64);
  ("async2_IntObject64SetBool"%string, Native_IntMapSetBool64);
  ("async2_IntObject64SetNull"%string, Native_IntMapSetNull64);
  ("async2_IntObject64SetObject"%string, Native_IntMapSetObject64);
  ("async2_IntObjectRemoveKey"%string, Native_IntMapRemoveKey);
  ("async2_IntObject64RemoveKey"%string, Native_IntMapRemoveKey64);
  ("async2_IntObjectClear"%string, Native_IntMapClear);
  ("async2_IntObjectMerge"%string, Native_IntMapMerge);
  ("async2_IntObjectSize"%string, Native_IntMapSize);
  ("async2_IntObjectHasKey"%string, Native_IntMapHasKey);
  ("async2_IntObject64HasKey"%string, Native_IntMapHasKey64)].

End JsonNatives.
