(* ===== verification/NativesJsonSafe.v ===== *)
(** * The JSON natives keep the world consistent

    Every native of the table, called with any parameters in a world that
    satisfies [Inv], has no undefined behaviour and leaves a world that
    satisfies [Inv] again, given what [requires] says of the few natives that
    need it. *)

From stdpp Require Import base numbers list gmap.
From Stdlib Require Import ZArith Lia.
From S2P Require Import LinkedList LockedQueue HeaderMap HttpRequest EventLoop Prelude HandleManager HttpState NodePool DataMap DataValue Float Text DataNode DataRefcount DataCopy JsonText JsonParse DataMerge DataHandle DataIterator Natives NativesJson.

Section Safety.

Context {MO : DataMap bytes} {MI : DataMap Z} {P : Type} {PA : NodeAllocator P} {M : Type} {PC : PluginContext M} {FR : Frame}.
Context (iterate : bytes -> option od_value) (read_file : bytes -> option (Z * bytes)).

#[local] Notation N := (N (P := P) (M := M)).
#[local] Notation world := (world (P := P) (M := M)).
#[local] Notation heap := (store (P := P)).

Implicit Types (w : world) (L : list loc).

(** ** Reading the heap *)

(** A pointer found in the heap. *)
Definition child_ok (v : option loc) w : Prop := forall c, v = Some c -> live c w.

Lemma child_none w : child_ok None w.
Proof. by intros c. Qed.
Lemma child_some n w : live n w -> child_ok (Some n) w.
Proof. by intros H c [= <-]. Qed.

Lemma live_child L w n p x : Inv L w -> deref n (nodes w) = Some p -> x ∈ children p -> live x w.
Proof.
  intros Hi Hd Hx. unfold deref in Hd. destruct (cells (nodes w) !! n) as [c|] eqn:Hc; [|done]. injection Hd as <-.
  by eapply inv_child_live; [exact (I_heap _ _ Hi)| |].
Qed.

Lemma deref_live n w : live n w -> exists p, deref n (nodes w) = Some p.
Proof. intros [c Hc]. exists (pay c). unfold deref. by rewrite Hc. Qed.

Lemma wp_deref n (R : payload -> world -> Prop) w : live n w ->
  (forall p, deref n (nodes w) = Some p -> R p w) -> wp (rd (deref n)) R w.
Proof. intros Hn HR. apply wp_rd. destruct (deref_live n w Hn) as [p Hp]. exists p. auto. Qed.

Section Find.

Context {K : Type} {EqK : EqDecision K} {CK : Countable K} {DK : DataMap K} {MP : MapPayload K}.
Context (Hget : forall p (q : dm K loc), mp_get p = Some q -> p = mp_put q)
        (Hch : forall q : dm K loc, children (mp_put q) = (dm_list q).*2).

Lemma map_find_live L w n (key : K) : Inv L w -> live n w ->
  exists v, map_find n key (nodes w) = Some v /\ child_ok v w.
Proof using Hget Hch.
  intros Hi [c Hc]. unfold map_find. rewrite Hc. destruct (mp_get (pay c)) as [m|] eqn:Eg.
  - exists (dm_map m !! key). split; [done|]. intros x Hx. apply (live_child L w n (pay c)); [done|unfold deref; by rewrite Hc|].
    rewrite (Hget _ _ Eg), Hch. apply list_elem_of_fmap. exists (key, x). by rewrite elem_of_dm_list.
  - exists None. split; [done|apply child_none].
Qed.

End Find.

Lemma ObjFind_live L w n key : Inv L w -> live n w -> exists v, ObjFind n key (nodes w) = Some v /\ child_ok v w.
Proof. apply map_find_live; [apply obj_get|apply obj_children]. Qed.
Lemma IntMapFind_live L w n key : Inv L w -> live n w -> exists v, IntMapFind n key (nodes w) = Some v /\ child_ok v w.
Proof. apply map_find_live; [apply int_get|apply int_children]. Qed.

Lemma array_live L w n a i : Inv L w -> deref n (nodes w) = Some (PArray a) -> 0 <= i < Z.of_nat (length a) ->
  exists x, a !! Z.to_nat i = Some x /\ live x w.
Proof.
  intros Hi Hd Hr. destruct (lookup_lt_is_Some_2 a (Z.to_nat i)) as [x Hx]; [lia|]. exists x. split; [done|].
  eapply live_child; [exact Hi|exact Hd|]. simpl. by eapply list_elem_of_lookup_2.
Qed.

Lemma to_size_nonneg z : 0 <= to_size z.
Proof. unfold to_size. pose proof (u_bounds 64 ltac:(lia) z) as [? _]. done. Qed.

Lemma to_size_id z : 0 <= z -> s_range 32 z -> to_size z = z.
Proof. unfold to_size, s_range. intros. apply (u_id 64). unfold u_range. lia. Qed.

Lemma ArrayGet_live L w n i : Inv L w -> live n w ->
  exists v, ArrayGetMemberNode (Some n) (to_size i) (nodes w) = Some v /\ child_ok v w.
Proof.
  intros Hi Hn. destruct (deref_live n w Hn) as [p Hp]. unfold ArrayGetMemberNode. rewrite Hp.
  destruct p; try (by exists None; split; [done|apply child_none]).
  destruct (Z.geb_spec (to_size i) (Z.of_nat (length a))); [by exists None; split; [done|apply child_none]|].
  destruct (array_live L w n a (to_size i) Hi Hp) as (x & -> & Hx); [pose proof (to_size_nonneg i); lia|].
  exists (Some x). split; [done|by apply child_some].
Qed.

(** Reads whose result is a child pointer, or some other total value. *)
Lemma wp_rd_child (f : heap -> option (option loc)) (R : option loc -> world -> Prop) w :
  (exists v, f (nodes w) = Some v /\ child_ok v w) -> (forall v, child_ok v w -> R v w) -> wp (rd f) R w.
Proof. intros (v & Hv & Hc) HR. apply wp_rd. exists v. auto. Qed.

Lemma wp_rd_total {A} (f : heap -> option A) (R : A -> world -> Prop) w :
  is_Some (f (nodes w)) -> (forall a, R a w) -> wp (rd f) R w.
Proof. intros [a Ha] HR. apply wp_rd. exists a. auto. Qed.

Lemma NodeToType_total v w : child_ok v w -> is_Some (NodeToType v (nodes w)).
Proof. intros Hv. destruct v as [n|]; [|by eexists]. destruct (deref_live n w (Hv n eq_refl)) as [p Hp]. simpl. rewrite Hp. by eexists. Qed.

Lemma coerce_total {A} (d : A) (f : payload -> option A) v w : child_ok v w -> (forall p, is_Some (f p)) ->
  is_Some (coerce d f v (nodes w)).
Proof. intros Hv Hf. destruct v as [n|]; [|by eexists]. destruct (deref_live n w (Hv n eq_refl)) as [p Hp]. simpl. rewrite Hp. apply Hf. Qed.

Lemma as_bool_total p : is_Some (as_bool p).
Proof. destruct p; by eexists. Qed.
Lemma as_string_total p : is_Some (as_string p).
Proof. destruct p; by eexists. Qed.

Lemma filter_live L w v ok : Inv L w -> child_ok v w ->
  exists r, filter_node ok v (nodes w) = Some r /\ child_ok r w.
Proof.
  intros Hi Hv. destruct v as [n|]; [|by exists None; split; [done|apply child_none]].
  destruct (deref_live n w (Hv n eq_refl)) as [p Hp]. simpl. rewrite Hp.
  destruct (ok p); eexists; (split; [done|]); [by apply child_some, Hv|apply child_none].
Qed.

(** Bind, for the readers composed of two reads. *)
Lemma then_child (f : heap -> option (option loc)) (g : option loc -> heap -> option (option loc)) w :
  (exists v, f (nodes w) = Some v /\ child_ok v w) -> (forall v, child_ok v w -> exists r, g v (nodes w) = Some r /\ child_ok r w) ->
  exists r, (let? v := f (nodes w) in g v (nodes w)) = Some r /\ child_ok r w.
Proof. intros (v & -> & Hv) Hg. by apply Hg. Qed.

Lemma then_total {A} (f : heap -> option (option loc)) (g : option loc -> heap -> option A) w :
  (exists v, f (nodes w) = Some v /\ child_ok v w) -> (forall v, child_ok v w -> is_Some (g v (nodes w))) ->
  is_Some (let? v := f (nodes w) in g v (nodes w)).
Proof. intros (v & -> & Hv) Hg. by apply Hg. Qed.

(** ** Writing memory, errors *)

Definition quiet (R : world -> Prop) : Prop := forall w w', same w w' -> R w -> R w'.

Lemma wp_string_to_local addr len s (R : unit -> world -> Prop) w :
  (forall m, R tt (set_memory m w)) -> wp (string_to_local addr len s) R w.
Proof. intros HR. apply HR. Qed.
Lemma wp_local_write addr cs (R : unit -> world -> Prop) w : (forall m, R tt (set_memory m w)) -> wp (local_write addr cs) R w.
Proof. intros HR. unfold wp, local_write. destruct (write_cells _ _ _); auto. Qed.
Lemma wp_local_write_bytes addr cs (R : unit -> world -> Prop) w :
  (forall m, R tt (set_memory m w)) -> wp (local_write_bytes addr cs) R w.
Proof. intros HR. unfold wp, local_write_bytes. destruct (write_bytes _ _ _); auto. Qed.
Lemma wp_Throw msg (R : Z -> world -> Prop) w : R 0 (set_error msg w) -> wp (ThrowNativeError msg) R w.
Proof. done. Qed.
Lemma wp_nonnull {A} (a : A) (R : A -> world -> Prop) w : R a w -> wp (nonnull (Some a)) R w.
Proof. done. Qed.

(** ** Changing the heap *)

Definition keeps_inv (n : loc) (f : heap -> option heap) : Prop :=
  forall st ext, inv st ext -> n ∈ ext -> exists s, f st = Some s /\ inv s ext.
Definition keeps_inv' {A} (n : loc) (f : heap -> option (A * heap)) : Prop :=
  forall st ext, inv st ext -> n ∈ ext -> exists a s, f st = Some (a, s) /\ inv s ext.

Lemma wp_wr_keeps L n f (R : unit -> world -> Prop) w : Inv L w -> held n w -> keeps_inv n f ->
  (forall s, Inv L (set_nodes s w) -> R tt (set_nodes s w)) -> wp (wr f) R w.
Proof.
  intros Hi Hn Hf HR. apply wp_wr. destruct (Hf (nodes w) _ (I_heap _ _ Hi)) as (s & Hs & Hinv); [set_solver|].
  exists s. split; [done|]. apply HR. by apply (Inv_nodes L).
Qed.

Lemma wp_wr'_keeps {A} L n (f : heap -> option (A * heap)) (R : A -> world -> Prop) w : Inv L w -> held n w -> keeps_inv' n f ->
  (forall a s, Inv L (set_nodes s w) -> R a (set_nodes s w)) -> wp (wr' f) R w.
Proof.
  intros Hi Hn Hf HR. apply wp_wr'. destruct (Hf (nodes w) _ (I_heap _ _ Hi)) as (a & s & Hs & Hinv); [set_solver|].
  exists a, s. split; [done|]. apply HR. by apply (Inv_nodes L).
Qed.

Lemma with_new_keeps n p (k : loc -> heap -> option heap) : children p = [] ->
  (forall v st ext, inv st (v :: ext) -> n ∈ ext -> exists s, k v st = Some s /\ inv s ext) ->
  keeps_inv n (with_new (Make p) k).
Proof.
  intros Hp Hk st ext Hinv Hn. destruct (Make_inv st ext p Hinv Hp) as (v & s & Hm & Hi & _).
  unfold with_new. rewrite Hm. by apply Hk.
Qed.

Lemma obj_set_keeps n key p : children p = [] -> keeps_inv n (obj_set (Some n) key (Make p)).
Proof.
  intros Hp st ext Hinv Hn. unfold obj_set, deref. destruct (minv_live _ _ n (inv_m _ _ Hinv) Hn) as (c & Hc). rewrite Hc.
  destruct (is_object (pay c)); [|by exists st]. eapply with_new_keeps; [done| |done|done].
  intros v st' ext' Hi Hn'. by apply (map_insert_inv obj_get obj_children).
Qed.

Lemma intmap_set_keeps n key p : children p = [] -> keeps_inv n (intmap_set (Some n) key (Make p)).
Proof.
  intros Hp st ext Hinv Hn. unfold intmap_set, deref. destruct (minv_live _ _ n (inv_m _ _ Hinv) Hn) as (c & Hc). rewrite Hc.
  destruct (is_intmap (pay c)); [|by exists st]. eapply with_new_keeps; [done| |done|done].
  intros v st' ext' Hi Hn'. by apply (map_insert_inv int_get int_children).
Qed.

Lemma arr_set_keeps n i p : children p = [] -> keeps_inv n (arr_set (Some n) (to_size i) (Make p)).
Proof.
  intros Hp. apply with_new_keeps; [done|]. intros v st ext Hi Hn. apply ArrSet_inv; [done..|apply to_size_nonneg].
Qed.

Lemma arr_append_keeps n p : children p = [] -> keeps_inv n (arr_append (Some n) (Make p)).
Proof.
  intros Hp st ext Hinv Hn. unfold arr_append, deref. destruct (minv_live _ _ n (inv_m _ _ Hinv) Hn) as (c & Hc). rewrite Hc.
  destruct (pay c) as [| | | | |a| | |] eqn:Ep; try (by exists st).
  destruct (Make_inv st ext p Hinv Hp) as (v & s & Hm & Hi & Hv & Ec). unfold is_arr, with_new. rewrite Hm.
  eapply push_back_inv; [done|done| |exact Ep]. rewrite Ec, lookup_insert_ne; [exact Hc|]. intros ->. congruence.
Qed.

Lemma RemoveKey_keeps n key : keeps_inv' n (RemoveKey (Some n) key).
Proof. intros st ext Hi Hn. by apply (map_erase_inv obj_get obj_children). Qed.
Lemma IntMapRemoveKey_keeps n key : keeps_inv' n (IntMapRemoveKey (Some n) key).
Proof. intros st ext Hi Hn. by apply (map_erase_inv int_get int_children). Qed.
Lemma ObjectClear_keeps n : keeps_inv n (ObjectClear (Some n)).
Proof. intros st ext Hi Hn. by apply (map_clear_inv obj_get obj_children). Qed.
Lemma IntMapClear_keeps n : keeps_inv n (DataHandle.IntMapClear (Some n)).
Proof. intros st ext Hi Hn. by apply (map_clear_inv int_get int_children). Qed.
Lemma ArrayRemove_keeps n i : keeps_inv' n (ArrayRemove (Some n) (to_size i)).
Proof. intros st ext Hi Hn. apply ArrRemove_inv; [done..|apply to_size_nonneg]. Qed.
Lemma ArrayClear_keeps n : keeps_inv n (ArrayClear (Some n)).
Proof. intros st ext Hi Hn. by apply ArrClear_inv. Qed.

(** ** Composite steps *)

Lemma wp_GET_JSON L params k (R : Z -> world -> Prop) w : Inv L w ->
  R 0 (set_error (str "Invalid or closed Json handle") w) ->
  (forall h n, param params 1 = Some h -> node_of h w = Some n -> held n w -> wp (k (Some n)) R w) ->
  wp (GET_JSON_HANDLE params k) R w.
Proof.
  intros Hi Herr Hk. unfold GET_JSON_HANDLE. apply wp_bind, wp_arg. intros h Hh. apply wp_bind.
  apply (wp_GetDataHandle L); [done|by apply wp_Throw|]. intros n Hn Hheld. by apply (Hk h n).
Qed.

Lemma wp_Incref L n w : Inv L w -> room w -> live n w ->
  wp (wr (Incref n)) (fun _ w' => Inv (n :: L) w' /\ hm w' = hm w /\ objects w' = objects w /\
    (forall x, x <> n -> cells (nodes w') !! x = cells (nodes w) !! x)) w.
Proof.
  intros Hi Hroom [c Hc]. apply wp_wr.
  destruct (Incref_inv (nodes w) _ n c (I_heap _ _ Hi) Hc) as (s & Hs & Hinv); [by eapply (room_refs _ Hroom)|].
  exists s. split; [done|]. split_and!; [|done|done|].
  - apply (Inv_nodes L); [done|]. eapply inv_perm; [|exact Hinv]. by rewrite Permutation_middle.
  - intros x Hx. unfold Incref in Hs. rewrite Hc in Hs. injection Hs as <-. simpl. by apply lookup_insert_ne.
Qed.

Lemma wp_WrapChildNode L ctx v w : Inv L w -> room w -> child_ok v w -> wp (WrapChildNode ctx v) (fun _ => Inv L) w.
Proof.
  intros Hi Hroom Hv. destruct v as [n|]; [|done]. apply wp_bind.
  eapply wp_mono; [apply (wp_Incref L n w Hi Hroom); by apply Hv|]. intros _ w1 (Hi1 & Eh & _).
  eapply wp_mono; [apply (wp_make_handle L ctx (ODataHandle (Some n)) w1)|]; [done|by eexists|done|by rewrite Eh; apply (room_handles _ Hroom)|].
  by intros h w2 [Hi2 _].
Qed.

Lemma wp_wrap_new L ctx v w : Inv (option_list v ++ L) w -> Z.of_nat (size (used_handles_ (hm w))) < 2 ^ 32 - 1 ->
  wp (wrap_new ctx v) (fun _ => Inv L) w.
Proof.
  intros Hi Hroom. destruct v as [n|]; [|done].
  eapply wp_mono; [apply (wp_make_handle L ctx (ODataHandle (Some n)) w)|]; [done|by eexists|done|done|].
  by intros h w2 [Hi2 _].
Qed.

(** The attaching natives: a reference to the child goes into the container and
    the child's handle is freed. *)
Lemma wp_attach L (n c : loc) (h : Z) (f : loc -> loc -> heap -> option heap) w : Inv L w -> room w -> held c w -> may_free h w ->
  (forall w1, Inv (c :: L) w1 -> objects w1 = objects w -> 
     (forall x, x <> c -> cells (nodes w1) !! x = cells (nodes w) !! x) ->
     exists s, f n c (nodes w1) = Some s /\ inv s (world_refs (objects w) ++ L)) ->
  wp (nbind (nonnull (Some c)) (fun c => nbind (wr (Incref c)) (fun _ =>
      nbind (nonnull (Some n)) (fun n => nbind (wr (f n c)) (fun _ => nbind (FreeHandle h) (fun _ => nret 0)))))) (fun _ => Inv L) w.
Proof.
  intros Hi Hroom Hc Hno Hf. apply wp_bind, wp_nonnull, wp_bind.
  eapply wp_mono; [apply (wp_Incref L c w Hi Hroom); by eapply held_live|]. intros _ w1 (Hi1 & Eh & Eo & Ecells).
  apply wp_bind, wp_nonnull, wp_bind, wp_wr. destruct (Hf w1 Hi1 Eo Ecells) as (s & Hs & Hinv). exists s. split; [done|].
  apply wp_bind. eapply wp_mono; [apply (wp_FreeHandle L h (set_nodes s w1))|by intros _ w2 [Hi2 _]].
  - apply (Inv_nodes (c :: L)); [done|]. by rewrite Eo.
  - apply (may_free_change h w); [by cbn; rewrite Eh|by cbn; rewrite Eo|done].
Qed.

(** ** Conditions *)

(** Every live double fits the integer type it may be converted to. *)
Definition ints_ok (bits : Z) w : Prop :=
  forall l c f, cells (nodes w) !! l = Some c -> pay c = PFloat f -> is_Some (f64_to_int bits f).

Lemma ints_ok_deref bits w n f : ints_ok bits w -> deref n (nodes w) = Some (PFloat f) -> is_Some (f64_to_int bits f).
Proof. intros H Hd. unfold deref in Hd. destruct (cells (nodes w) !! n) as [c|] eqn:E; [|done]. injection Hd as Hd. by eapply H. Qed.

Lemma AsInt_total v w : child_ok v w -> ints_ok 64 w -> is_Some (AsInt v (nodes w)).
Proof.
  intros Hv Hok. destruct v as [n|]; [|by eexists]. destruct (deref_live n w (Hv n eq_refl)) as [p Hp]. unfold AsInt. simpl. rewrite Hp.
  destruct p; try (by eexists). by eapply ints_ok_deref.
Qed.

Lemma coerce_cell_total n p w : deref n (nodes w) = Some p -> ints_ok 32 w -> is_Some (coerce_cell p).
Proof. intros Hp Hok. destruct p; try (by eexists). by eapply ints_ok_deref. Qed.

(** The strict getters. *)
Lemma wp_StrictAsInt L v nm wh (R : Z -> world -> Prop) w : Inv L w -> child_ok v w -> ints_ok 64 w ->
  (forall z w', same w w' -> R z w') -> wp (StrictAsInt v nm wh) R w.
Proof.
  intros Hi Hv Hok HR. unfold StrictAsInt. destruct v as [n|]; [|by apply HR]. apply wp_bind, wp_deref; [by apply Hv|].
  intros p Hp. destruct p; try (by apply HR).
  destruct (ints_ok_deref 64 w n bits Hok Hp) as [z Hz]. apply wp_rd. exists z. split; [done|by apply HR].
Qed.

Lemma wp_StrictAsFloat L v nm wh (R : Z -> world -> Prop) w : Inv L w -> child_ok v w ->
  (forall z w', same w w' -> R z w') -> wp (StrictAsFloat v nm wh) R w.
Proof.
  intros Hi Hv HR. unfold StrictAsFloat. destruct v as [n|]; [|by apply HR]. apply wp_bind, wp_deref; [by apply Hv|].
  intros p Hp. destruct p; by apply HR.
Qed.

Lemma wp_StrictAsBool L v nm wh (R : bool -> world -> Prop) w : Inv L w -> child_ok v w ->
  (forall z w', same w w' -> R z w') -> wp (StrictAsBool v nm wh) R w.
Proof.
  intros Hi Hv HR. unfold StrictAsBool. destruct v as [n|]; [|by apply HR]. apply wp_bind, wp_deref; [by apply Hv|].
  intros p Hp. destruct p; try (by apply HR); by apply wp_bind, wp_Throw, HR.
Qed.

Lemma wp_StrictAsString L v nm wh (R : bytes -> world -> Prop) w : Inv L w -> child_ok v w ->
  (forall z w', same w w' -> R z w') -> wp (StrictAsString v nm wh) R w.
Proof.
  intros Hi Hv HR. unfold StrictAsString. destruct v as [n|]; [|by apply HR]. apply wp_bind, wp_deref; [by apply Hv|].
  intros p Hp. destruct p; try (by apply HR); by apply wp_bind, wp_Throw, HR.
Qed.

Lemma wp_member L n key (R : option loc -> world -> Prop) w : Inv L w -> held n w ->
  (forall v, child_ok v w -> R v w) -> wp (member (Some n) key) R w.
Proof. intros Hi Hn HR. apply wp_rd_child; [|done]. eapply ObjFind_live; [done|by eapply held_live]. Qed.

Lemma wp_int_member L n key (R : option loc -> world -> Prop) w : Inv L w -> held n w ->
  (forall v, child_ok v w -> R v w) -> wp (int_member (Some n) key) R w.
Proof. intros Hi Hn HR. apply wp_rd_child; [|done]. eapply IntMapFind_live; [done|by eapply held_live]. Qed.

Lemma wp_array_index L n a i (R : loc -> world -> Prop) w : Inv L w -> deref n (nodes w) = Some (PArray a) -> s_range 32 i ->
  (i <? 0) || (to_size i >=? Z.of_nat (length a)) = false ->
  (forall x, live x w -> R x w) -> wp (nonnull (a !! Z.to_nat i)) R w.
Proof.
  intros Hi Hd Hr Hb HR. apply orb_false_iff in Hb as [H1 H2]. apply Z.ltb_ge in H1. rewrite Z.geb_leb in H2. apply Z.leb_gt in H2.
  rewrite to_size_id in H2 by done. destruct (array_live L w n a i Hi Hd) as (x & -> & Hx); [lia|]. by apply HR.
Qed.

Lemma wp_ArrayElem L n i (R : option loc -> world -> Prop) w : Inv L w -> held n w -> s_range 32 i ->
  (forall v, child_ok v w -> R v w) -> wp (ArrayElem (Some n) i) R w.
Proof.
  intros Hi Hn Hr HR. unfold ArrayElem. apply wp_bind, wp_deref; [by eapply held_live|]. intros p Hp.
  destruct p; try (by apply HR, child_none). destruct ((i <? 0) || _) eqn:E; [by apply HR, child_none|].
  apply wp_bind, (wp_array_index L n); [done..|]. intros x Hx. by apply HR, child_some.
Qed.

(** ** Paths *)

Lemma try_cell_range addr w c : match read_cells (memory w) addr 1 with Some [c] => Some c | _ => None end = Some c -> s_range 32 c.
Proof.
  destruct (read_cells (memory w) addr 1) as [cs|] eqn:E; [|done]. apply read_cells_range in E.
  destruct cs as [|x [|]]; try done. intros [= ->]. by apply Forall_cons in E as [? _].
Qed.

Lemma wp_try_cell addr (R : option Z -> world -> Prop) w :
  (forall r, (forall c, r = Some c -> s_range 32 c) -> R r w) -> wp (try_cell addr) R w.
Proof. intros HR. apply HR. intros c. apply try_cell_range. Qed.

Lemma wp_BuildPathString L params w : Inv L w -> forall steps idx node path, live node w ->
  wp (BuildPathString params idx steps node path) (fun _ w' => w' = w) w.
Proof.
  intros Hi. induction steps as [|steps IH]; intros idx node path Hn; [done|]. cbn [BuildPathString].
  apply wp_bind, wp_deref; [done|]. intros p Hp. destruct p as [| | | | |a|m|m|]; try done.
  - apply wp_bind, wp_arg. intros ad _. apply wp_bind, wp_try_cell. intros [i|] Hr; [|done]. specialize (Hr i eq_refl).
    destruct ((i <? 0) || _) eqn:E; [done|]. apply wp_bind, (wp_array_index L node); [done..|]. intros x Hx. by apply IH.
  - apply wp_bind, wp_arg. intros ad _. apply wp_bind. unfold wp, try_string. destruct (LocalToString (memory w) ad) as [key|]; [|done].
    apply wp_bind, wp_rd_child; [by eapply ObjFind_live|]. intros [x|] Hx; [|done]. by apply IH, Hx.
  - apply wp_bind, wp_arg. intros ad _. apply wp_bind, wp_try_cell. intros [i|] _; [|done].
    apply wp_bind, wp_rd_child; [by eapply IntMapFind_live|]. intros [x|] Hx; [|done]. by apply IH, Hx.
Qed.

Lemma wp_SetPathError L params root start step reason (R : option loc -> world -> Prop) w : Inv L w -> live root w ->
  (forall w', same w w' -> R None w') -> wp (nbind (SetPathError params root start step reason) (fun _ => nret None)) R w.
Proof.
  intros Hi Hroot HR. unfold SetPathError. do 2 apply wp_bind. eapply wp_mono; [by eapply wp_BuildPathString|].
  intros path w' ->. by apply HR.
Qed.

Lemma wp_resolve_loop L params root start w (R : option loc -> world -> Prop) : Inv L w -> live root w ->
  (forall v w', same w w' -> child_ok v w -> R v w') ->
  forall n i node, live node w -> wp (resolve_loop params root start i n node) R w.
Proof.
  intros Hi Hroot HR. assert (forall w', same w w' -> R None w') as HN by (intros w' Hw; by apply HR, child_none).
  induction n as [|n IH]; intros i node Hn; [by apply HR, child_some|]. cbn [resolve_loop].
  apply wp_bind, wp_deref; [done|]. intros p Hp. destruct p as [| | | | |a|m|m|]; try (by eapply wp_SetPathError).
  - apply wp_bind, wp_arg. intros ad _. apply wp_bind, wp_try_cell. intros [x|] Hr; [|by eapply wp_SetPathError].
    specialize (Hr x eq_refl). destruct ((x <? 0) || _) eqn:E; [by eapply wp_SetPathError|].
    apply wp_bind, (wp_array_index L node); [done..|]. intros y Hy. by apply IH.
  - apply wp_bind, wp_arg. intros ad _. apply wp_bind. unfold wp, try_string.
    destruct (LocalToString (memory w) ad) as [key|]; [|by eapply wp_SetPathError].
    apply wp_bind, wp_rd_child; [by eapply ObjFind_live|]. intros [x|] Hx; [by apply IH, Hx|by eapply wp_SetPathError].
  - apply wp_bind, wp_arg. intros ad _. apply wp_bind, wp_try_cell. intros [x|] _; [|by eapply wp_SetPathError].
    apply wp_bind, wp_rd_child; [by eapply IntMapFind_live|]. intros [y|] Hy; [by apply IH, Hy|by eapply wp_SetPathError].
Qed.

Lemma wp_ResolveJsonPath L params n start count (R : option loc -> world -> Prop) w : Inv L w -> held n w ->
  (forall v w', same w w' -> child_ok v w' -> R v w') -> wp (ResolveJsonPath params (Some n) start count) R w.
Proof.
  intros Hi Hn HR. unfold ResolveJsonPath. apply wp_bind. unfold wp at 1, clear_path.
  assert (same w (set_path false [] w)) as Hs by done.
  eapply (wp_resolve_loop L); [by eapply Inv_same| | |].
  - by eapply (held_live L); [eapply Inv_same|].
  - intros v w' Hw Hv. apply HR; [|].
    + exact Hw.
    + destruct Hw as (_ & _ & E3 & _). intros c Hc. specialize (Hv c Hc). unfold live in *. by rewrite E3.
  - by eapply (held_live L); [eapply Inv_same|].
Qed.

(** ** Queries are total on live nodes *)

Lemma ObjectSize_total n w : live n w -> is_Some (ObjectSize (Some n) (nodes w)).
Proof. intros [c Hc]. unfold ObjectSize, ObjSize, map_size. rewrite Hc. by eexists. Qed.
Lemma IntMapSize_total n w : live n w -> is_Some (DataHandle.IntMapSize (Some n) (nodes w)).
Proof. intros [c Hc]. unfold DataHandle.IntMapSize, DataNode.IntMapSize, map_size. rewrite Hc. by eexists. Qed.
Lemma ArrayLength_total n w : live n w -> is_Some (ArrayLength (Some n) (nodes w)).
Proof. intros [c Hc]. unfold ArrayLength, deref. rewrite Hc. by eexists. Qed.
Lemma HasKey_total n key w : live n w -> is_Some (HasKey (Some n) key (nodes w)).
Proof. intros [c Hc]. unfold HasKey, ObjContains, map_contains. rewrite Hc. by eexists. Qed.
Lemma IntMapHasKey_total n key w : live n w -> is_Some (IntMapHasKey (Some n) key (nodes w)).
Proof. intros [c Hc]. unfold IntMapHasKey, IntMapContains, map_contains. rewrite Hc. by eexists. Qed.
Lemma GetType_total n w : live n w -> is_Some (GetType (Some n) (nodes w)).
Proof. intros Hn. by apply NodeToType_total, child_some. Qed.
Lemma MemberType_total L n key w : Inv L w -> live n w -> is_Some (MemberType (Some n) key (nodes w)).
Proof. intros Hi Hn. apply then_total; [by eapply ObjFind_live|]. intros v Hv. by apply NodeToType_total. Qed.
Lemma IntMapMemberType_total L n key w : Inv L w -> live n w -> is_Some (IntMapMemberType (Some n) key (nodes w)).
Proof. intros Hi Hn. apply then_total; [by eapply IntMapFind_live|]. intros v Hv. by apply NodeToType_total. Qed.
Lemma ArrayMemberType_total L n i w : Inv L w -> live n w -> is_Some (ArrayMemberType (Some n) (to_size i) (nodes w)).
Proof. intros Hi Hn. apply then_total; [by eapply ArrayGet_live|]. intros v Hv. by apply NodeToType_total. Qed.
Lemma AsBool_total v w : child_ok v w -> is_Some (AsBool v (nodes w)).
Proof. intros Hv. apply coerce_total; [done|apply as_bool_total]. Qed.
Lemma AsString_total v w : child_ok v w -> is_Some (AsString v (nodes w)).
Proof. intros Hv. apply coerce_total; [done|apply as_string_total]. Qed.
Lemma Serialize_total L n len pretty w : Inv L w -> live n w -> is_Some (Serialize (Some n) len pretty (nodes w)).
Proof.
  intros Hi Hn. unfold Serialize. destruct (len =? 0); [by eexists|].
  destruct (DataSerializeJson_total (nodes w) _ n pretty (I_heap _ _ Hi) Hn) as [t ->]. by eexists.
Qed.

Lemma GetMember_live L n key w : Inv L w -> live n w -> exists v, GetMemberNode (Some n) key (nodes w) = Some v /\ child_ok v w.
Proof. apply ObjFind_live. Qed.
Lemma IntMapGetMember_live L n key w : Inv L w -> live n w ->
  exists v, IntMapGetMemberNode (Some n) key (nodes w) = Some v /\ child_ok v w.
Proof. apply IntMapFind_live. Qed.
Lemma GetObject_live L n key w : Inv L w -> live n w -> exists v, GetObjectNode (Some n) key (nodes w) = Some v /\ child_ok v w.
Proof. intros Hi Hn. eapply then_child; [by eapply ObjFind_live|]. intros v Hv. by eapply filter_live. Qed.
Lemma GetArray_live L n key w : Inv L w -> live n w -> exists v, GetArrayNode (Some n) key (nodes w) = Some v /\ child_ok v w.
Proof. intros Hi Hn. eapply then_child; [by eapply ObjFind_live|]. intros v Hv. by eapply filter_live. Qed.
Lemma IntMapGetObject_live L n key w : Inv L w -> live n w ->
  exists v, IntMapGetObjectNode (Some n) key (nodes w) = Some v /\ child_ok v w.
Proof. intros Hi Hn. eapply then_child; [by eapply IntMapFind_live|]. intros v Hv. by eapply filter_live. Qed.
Lemma IntMapGetArray_live L n key w : Inv L w -> live n w ->
  exists v, IntMapGetArrayNode (Some n) key (nodes w) = Some v /\ child_ok v w.
Proof. intros Hi Hn. eapply then_child; [by eapply IntMapFind_live|]. intros v Hv. by eapply filter_live. Qed.

(** ** What a native must guarantee *)

(** The call of [f] has no undefined behaviour under [pre] and leaks nothing. *)
Definition keeps (f : native (P := P) (M := M)) (pre : list Z -> world -> Prop) : Prop :=
  forall ctx params L w, Inv L w -> room w -> pre params w -> wp (f ctx params) (fun _ => Inv L) w.

Definition always : list Z -> world -> Prop := fun _ _ => True.

End Safety.

#[export] Hint Resolve child_none child_some NodeToType_total ObjectSize_total IntMapSize_total ArrayLength_total HasKey_total
  IntMapHasKey_total GetType_total MemberType_total IntMapMemberType_total ArrayMemberType_total AsBool_total AsString_total
  AsInt_total Serialize_total GetMember_live IntMapGetMember_live GetObject_live GetArray_live IntMapGetObject_live
  IntMapGetArray_live ArrayGet_live held_live param_range : natives.

(** The rest of the world changed, the invariant is about the same parts. *)
Ltac inv_same := match goal with
  | |- Inv _ _ => first [assumption | eapply Inv_same; [|eassumption]; solve [repeat split; assumption | done]]
  end.

(** One step of a native that reads. *)
Ltac nat_step := lazymatch goal with
  | |- wp (nbind _ _) _ _ => apply wp_bind
  | |- wp (nret _) _ _ => apply wp_ret
  | |- wp (arg _ _) _ _ => apply wp_arg; intros ? ?
  | |- wp (local_string _) _ _ => apply wp_local_string; intros ?
  | |- wp (ReadInt64Param _) _ _ => apply wp_ReadInt64Param; intros ?
  | |- wp (string_to_local _ _ _) _ _ => apply wp_string_to_local; intros ?
  | |- wp (local_write _ _) _ _ => apply wp_local_write; intros ?
  | |- wp (local_write_bytes _ _) _ _ => apply wp_local_write_bytes; intros ?
  | |- wp (ThrowNativeError _) _ _ => apply wp_Throw
  | |- wp (nonnull (Some _)) _ _ => apply wp_nonnull
  | |- wp (GET_JSON_HANDLE _ _) _ _ => eapply wp_GET_JSON; [eassumption|inv_same|intros ? ? ? ? ?]
  | |- wp (member _ _) _ _ => eapply wp_member; [eassumption|eassumption|intros ? ?]
  | |- wp (int_member _ _) _ _ => eapply wp_int_member; [eassumption|eassumption|intros ? ?]
  | |- wp (ArrayElem _ _) _ _ => eapply wp_ArrayElem; [eassumption|eassumption|eauto with natives|intros ? ?]
  | |- wp (StrictAsInt _ _ _) _ _ =>
      eapply wp_StrictAsInt; [eassumption|solve [eauto with natives]|eassumption|intros ? ? ?]
  | |- wp (StrictAsFloat _ _ _) _ _ => eapply wp_StrictAsFloat; [eassumption|solve [eauto with natives]|intros ? ? ?]
  | |- wp (StrictAsBool _ _ _) _ _ => eapply wp_StrictAsBool; [eassumption|solve [eauto with natives]|intros ? ? ?]
  | |- wp (StrictAsString _ _ _) _ _ => eapply wp_StrictAsString; [eassumption|solve [eauto with natives]|intros ? ? ?]
  | |- wp (rd (deref _)) _ _ => apply wp_deref; [solve [eauto with natives]|intros ? ?]
  | |- wp (rd _) _ _ => first [apply wp_rd_child; [solve [eauto with natives]|intros ? ?]
                              |apply wp_rd_total; [solve [eauto with natives]|intros ?]]
  | |- wp (WrapChildNode _ _) _ _ => eapply wp_WrapChildNode; [eassumption|eassumption|solve [eauto with natives]]
  end.

Ltac nat_solve := repeat nat_step; try inv_same.
