(* ===== verification/NativesLinkedList.v ===== *)
(** * [src/natives_linkedlist.cpp]: the linked list natives

    Each native looks up the list behind its handle and applies one operation
    of [LinkedList] to it.  The theorem composes the refinement of that class
    with the handle table: a call on one handle acts on the abstract list of
    that handle and on no other. *)

From stdpp Require Import base numbers list gmap.
From Stdlib Require Import ZArith Lia.
From S2P Require Import LockedQueue HeaderMap HttpRequest EventLoop Prelude HandleManager HttpState NodePool DataMap DataValue Float Text DataNode DataRefcount DataCopy JsonText JsonParse DataMerge DataHandle DataIterator Natives NativesJson NativesJsonSafe LinkedList.

Section ListNatives.

Context {MO : DataMap bytes} {MI : DataMap Z} {P : Type} {PA : NodeAllocator P} {M : Type} {PC : PluginContext M} {FR : Frame}.

#[local] Notation N := (N (P := P) (M := M)).
#[local] Notation world := (world (P := P) (M := M)).
#[local] Notation native := (native (P := P) (M := M)).
#[local] Notation "x <- m ;; k" := (nbind m (fun x => k)) (at level 100, m at next level, right associativity).
#[local] Notation "m ;;; k" := (nbind m (fun _ => k)) (at level 100, right associativity).

(** [GET_LINKED_LIST()] *)
Definition GET_LINKED_LIST (params : list Z) (k : positive -> LinkedList -> N Z) : N Z :=
  h <- arg params 1;; list <- GetLinkedList h;;
  match list with None => nret 0 | Some (p, l) => k p l end.

(** A method of the list behind [p]: its result and the list it leaves. *)
Definition method {A} (p : positive) (r : option (A * LinkedList)) : N A :=
  x <- nonnull r;; store_object p (OLinkedList x.2);;; nret x.1.
(** A method without a result, and one that changes nothing. *)
Definition method_void (p : positive) (r : option LinkedList) : N Z :=
  x <- nonnull r;; store_object p (OLinkedList x);;; nret 0.

Definition Native_LinkedListCreate : native := fun pContext params =>
  make_handle pContext (OLinkedList new_LinkedList).

Definition Native_LinkedListClose : native := fun pContext params =>
  GET_LINKED_LIST params (fun _ _ => h <- arg params 1;; FreeHandle h;;; nret 0).

Definition Native_LinkedListSize : native := fun pContext params =>
  GET_LINKED_LIST params (fun _ list => nret (Size list)).

Definition Native_LinkedListClear : native := fun pContext params =>
  GET_LINKED_LIST params (fun p list => method_void p (Clear list)).

Definition Native_LinkedListPushFront : native := fun pContext params =>
  GET_LINKED_LIST params (fun p list => v <- arg params 2;; id <- method p (PushFront v list);; nret (cell id)).

Definition Native_LinkedListPushBack : native := fun pContext params =>
  GET_LINKED_LIST params (fun p list => v <- arg params 2;; id <- method p (PushBack v list);; nret (cell id)).

Definition Native_LinkedListPopFront : native := fun pContext params =>
  GET_LINKED_LIST params (fun p list => method p (PopFront list)).

Definition Native_LinkedListPopBack : native := fun pContext params =>
  GET_LINKED_LIST params (fun p list => method p (PopBack list)).

Definition Native_LinkedListRemove : native := fun pContext params =>
  GET_LINKED_LIST params (fun p list => i <- arg params 2;; method p (Remove (uN 32 i) list)).

Definition Native_LinkedListMoveToFront : native := fun pContext params =>
  GET_LINKED_LIST params (fun p list => i <- arg params 2;; method_void p (MoveToFront (uN 32 i) list)).

Definition Native_LinkedListMoveToBack : native := fun pContext params =>
  GET_LINKED_LIST params (fun p list => i <- arg params 2;; method_void p (MoveToBack (uN 32 i) list)).

Definition Native_LinkedListGetValue : native := fun pContext params =>
  GET_LINKED_LIST params (fun _ list => i <- arg params 2;; nonnull (GetValue (uN 32 i) list)).

Definition Native_LinkedListSetValue : native := fun pContext params =>
  GET_LINKED_LIST params (fun p list => i <- arg params 2;; v <- arg params 3;; method_void p (SetValue (uN 32 i) v list)).

Definition Native_LinkedListFirst : native := fun pContext params =>
  GET_LINKED_LIST params (fun _ list => id <- nonnull (First list);; nret (cell id)).

Definition Native_LinkedListLast : native := fun pContext params =>
  GET_LINKED_LIST params (fun _ list => id <- nonnull (Last list);; nret (cell id)).

Definition Native_LinkedListNext : native := fun pContext params =>
  GET_LINKED_LIST params (fun _ list => i <- arg params 2;; id <- nonnull (Next (uN 32 i) list);; nret (cell id)).

Definition Native_LinkedListPrev : native := fun pContext params =>
  GET_LINKED_LIST params (fun _ list => i <- arg params 2;; id <- nonnull (Prev (uN 32 i) list);; nret (cell id)).

Definition Native_LinkedListCopy : native := fun pContext params =>
  GET_LINKED_LIST params (fun _ list => copy <- nonnull (DeepCopy list);; make_handle pContext (OLinkedList copy)).

Definition g_LinkedListNatives : list (String.string * native) := [
  ("async2_LinkedListCreate"%string, Native_LinkedListCreate);
  ("async2_LinkedListClose"%string, Native_LinkedListClose);
  ("async2_LinkedListSize"%string, Native_LinkedListSize);
  ("async2_LinkedListClear"%string, Native_LinkedListClear);
  ("async2_LinkedListPushFront"%string, Native_LinkedListPushFront);
  ("async2_LinkedListPushBack"%string, Native_LinkedListPushBack);
  ("async2_LinkedListPopFront"%string, Native_LinkedListPopFront);
  ("async2_LinkedListPopBack"%string, Native_LinkedListPopBack);
  ("async2_LinkedListRemove"%string, Native_LinkedListRemove);
  ("async2_LinkedListMoveToFront"%string, Native_LinkedListMoveToFront);
  ("async2_LinkedListMoveToBack"%string, Native_LinkedListMoveToBack);
  ("async2_LinkedListGetValue"%string, Native_LinkedListGetValue);
  ("async2_LinkedListSetValue"%string, Native_LinkedListSetValue);
  ("async2_LinkedListFirst"%string, Native_LinkedListFirst);
  ("async2_LinkedListLast"%string, Native_LinkedListLast);
  ("async2_LinkedListNext"%string, Native_LinkedListNext);
  ("async2_LinkedListPrev"%string, Native_LinkedListPrev);
  ("async2_LinkedListCopy"%string, Native_LinkedListCopy)].

(** ** A call seen as an operation on abstract lists *)

(** The native and the parameters that perform [o] on handle [h]; the ids and
    values of [o] are cells. *)
Definition call_of (o : op) (h : Z) : native * list Z :=
  match o with
  | OPushFront v => (Native_LinkedListPushFront, [2; h; v])
  | OPushBack v => (Native_LinkedListPushBack, [2; h; v])
  | OPopFront => (Native_LinkedListPopFront, [1; h])
  | OPopBack => (Native_LinkedListPopBack, [1; h])
  | ORemove i => (Native_LinkedListRemove, [2; h; i])
  | OMoveToFront i => (Native_LinkedListMoveToFront, [2; h; i])
  | OMoveToBack i => (Native_LinkedListMoveToBack, [2; h; i])
  | OGetValue i => (Native_LinkedListGetValue, [2; h; i])
  | OSetValue i v => (Native_LinkedListSetValue, [3; h; i; v])
  | OFirst => (Native_LinkedListFirst, [1; h])
  | OLast => (Native_LinkedListLast, [1; h])
  | ONext i => (Native_LinkedListNext, [2; h; i])
  | OPrev i => (Native_LinkedListPrev, [2; h; i])
  | OSize => (Native_LinkedListSize, [1; h])
  | OClear => (Native_LinkedListClear, [1; h])
  end.

(** Ids are unsigned in the list and cells in the plugin. *)
Definition op_of (o : op) : op :=
  match o with
  | ORemove i => ORemove (uN 32 i) | OMoveToFront i => OMoveToFront (uN 32 i) | OMoveToBack i => OMoveToBack (uN 32 i)
  | OGetValue i => OGetValue (uN 32 i) | OSetValue i v => OSetValue (uN 32 i) v
  | ONext i => ONext (uN 32 i) | OPrev i => OPrev (uN 32 i) | o => o
  end.
Definition result_of (o : op) (r : Z) : Z :=
  match o with
  | OPushFront _ | OPushBack _ | OFirst | OLast | ONext _ | OPrev _ => cell r
  | _ => r
  end.

Definition cell_args (o : op) : Prop :=
  match o with
  | OPushFront v | OPushBack v => s_range 32 v
  | ORemove i | OMoveToFront i | OMoveToBack i | OGetValue i | ONext i | OPrev i => s_range 32 i
  | OSetValue i v => s_range 32 i /\ s_range 32 v
  | _ => True
  end.

(** Handle [h] is an open list handle whose list has the (id, value) pairs [l]. *)
Definition holds (w : world) (h : Z) (l : list (Z * Z)) : Prop :=
  exists p st, HandleManager.GetLinkedList h (hm w) = Some p /\ objects w !! p = Some (OLinkedList st) /\ rep st l.

Implicit Types (w : world) (L : list loc).

Lemma store_list L w p st st' l' : Inv L w -> objects w !! p = Some (OLinkedList st) -> rep st' l' ->
  Inv L (set_objects (<[p := OLinkedList st']> (objects w)) w).
Proof. intros Hi Ho Hr. apply (Inv_replace L L w p (OLinkedList st)); [done..|by exists l'|done]. Qed.

Lemma rep_op L w p st : Inv L w -> objects w !! p = Some (OLinkedList st) -> room w ->
  forall l o, rep st l -> exists r st' l', run o st = Some (r, st') /\ spec o l r l' /\ rep st' l'.
Proof.
  intros Hi Ho Hroom l o (al & -> & Hr). pose proof (room_lists _ Hroom p st Ho) as Hsz.
  rewrite (proj1 (rep_size _ _ Hr)) in Hsz. by apply refines_any.
Qed.

Lemma arg_cell params i v w : params !! i = Some v -> s_range 32 v -> arg params i w = Done v w.
Proof. intros Hi Hv. unfold arg, param. rewrite Hi. cbn. by rewrite (s_id 32) by (lia || done). Qed.

Lemma GET_LINKED_LIST_eq params h w p st k : params !! 1%nat = Some h -> s_range 32 h ->
  HandleManager.GetLinkedList h (hm w) = Some p -> objects w !! p = Some (OLinkedList st) ->
  GET_LINKED_LIST params k w = k p st w.
Proof.
  intros Hi Hh Hg Ho. unfold GET_LINKED_LIST, nbind. rewrite (arg_cell params 1 h w Hi Hh). unfold GetLinkedList. by rewrite Hg, Ho.
Qed.

(** Running the native is running the operation on the list's state. *)
Lemma call_run o h w p st r st' : HandleManager.GetLinkedList h (hm w) = Some p -> objects w !! p = Some (OLinkedList st) ->
  s_range 32 h -> cell_args o -> run (op_of o) st = Some (r, st') ->
  forall ctx, (call_of o h).1 ctx (call_of o h).2 w = Done (result_of o r) (set_objects (<[p := OLinkedList st']> (objects w)) w).
Proof.
  intros Hg Ho Hh Hargs Hrun ctx.
  assert (w = set_objects (<[p := OLinkedList st]> (objects w)) w) as Hsame by (rewrite insert_id by done; by destruct w).
  destruct o; cbn in Hargs; cbn [op_of run] in Hrun; cbn [call_of fst snd result_of];
    (lazymatch goal with |- ?f ctx ?ps w = _ => unfold f; rewrite (GET_LINKED_LIST_eq ps h w p st) by done end);
    repeat match type of Hrun with _ <$> ?x = Some _ =>
      let E := fresh "E" in destruct x eqn:E; cbn in Hrun; [injection Hrun as ? ?; subst|discriminate Hrun] end;
    unfold method, method_void, nonnull, store_object, nret, nbind;
    repeat match goal with |- context [arg ?ps ?i w] => erewrite (arg_cell ps i _ w) by (reflexivity || tauto) end;
    repeat match goal with E : ?x = Some _ |- context [?x] => rewrite E end; try done; try (by rewrite <- Hsame).
  injection Hrun as <- <-. by rewrite <- Hsame.
Qed.

(** C28: A linked list native does to the list of its handle what the abstract
    operation does to the list of (id, value) pairs: it has no undefined
    behaviour, returns the abstract result as a cell, and leaves every other
    list, the handle table and the nodes as they were. *)
Theorem list_natives_refine (L : list loc) (w : world) (ctx : positive) (o : op) (h : Z) (l : list (Z * Z)) :
  Inv L w -> room w -> s_range 32 h -> cell_args o -> holds w h l ->
  exists r w' l', (call_of o h).1 ctx (call_of o h).2 w = Done (result_of o r) w' /\
    spec (op_of o) l r l' /\ holds w' h l' /\ Inv L w' /\ hm w' = hm w /\ nodes w' = nodes w /\
    forall h' k, h' <> h -> holds w h' k -> holds w' h' k.
Proof.
  intros Hi Hroom Hh Hargs (p & st & Hg & Ho & Hr).
  destruct (rep_op L w p st Hi Ho Hroom l (op_of o) Hr) as (r & st' & l' & Hrun & Hs & Hr').
  exists r, (set_objects (<[p := OLinkedList st']> (objects w)) w), l'.
  split; [by apply (call_run o h w p st r st')|]. split; [done|]. split_and!; try done.
  - exists p, st'. cbn [hm objects set_objects]. by rewrite lookup_insert_eq.
  - by eapply store_list.
  - intros h' k Hne (p' & st1 & Hg' & Ho' & Hk). exists p', st1. cbn [hm objects set_objects].
    split_and!; [done| |done]. rewrite lookup_insert_ne; [done|]. intros <-.
    destruct (Inv_get L w _ h p Hi Hg) as (_ & _ & _ & x & Hx & Ep & _).
    destruct (Inv_get L w _ h' p Hi Hg') as (_ & _ & _ & x' & Hx' & Ep' & _).
    apply Hne. eapply (I_unique _ _ Hi); [exact Hx'|exact Hx|congruence].
Qed.

(** ** The table is safe *)

Lemma GET_LINKED_LIST_keeps L params (k : positive -> LinkedList -> N Z) w : Inv L w ->
  (forall p st, objects w !! p = Some (OLinkedList st) -> (forall h, param params 1 = Some h -> may_free h w) ->
     wp (k p st) (fun _ => Inv L) w) ->
  wp (GET_LINKED_LIST params k) (fun _ => Inv L) w.
Proof.
  intros Hi Hk. unfold GET_LINKED_LIST. nat_step. nat_step. nat_step. eapply wp_GetLinkedList; [exact Hi|done|].
  intros p st Ho Hno. apply Hk; [done|]. intros h Hh. by replace h with v by congruence.
Qed.

Lemma method_keeps L w p st (r : option (Z * LinkedList)) o : Inv L w -> room w -> objects w !! p = Some (OLinkedList st) ->
  run o st = r -> wp (method p r) (fun _ => Inv L) w.
Proof.
  intros Hi Hroom Ho Hrun. destruct (I_ok _ _ Hi _ _ Ho) as [l Hr].
  destruct (rep_op L w p st Hi Ho Hroom l o Hr) as (z & st' & l' & Hz & _ & Hr'). rewrite Hrun in Hz. subst r.
  unfold wp, method, nbind, nonnull, store_object, nret. rewrite Hz. by eapply store_list.
Qed.

Lemma void_keeps L w p st (r : option LinkedList) o : Inv L w -> room w -> objects w !! p = Some (OLinkedList st) ->
  run o st = pair 0 <$> r -> wp (method_void p r) (fun _ => Inv L) w.
Proof.
  intros Hi Hroom Ho Hrun. destruct (I_ok _ _ Hi _ _ Ho) as [l Hr].
  destruct (rep_op L w p st Hi Ho Hroom l o Hr) as (z & st' & l' & Hz & _ & Hr'). rewrite Hrun in Hz.
  destruct r as [st1|]; [|done]. injection Hz as _ <-. unfold wp, method_void, nbind, nonnull, store_object, nret.
  by eapply store_list.
Qed.

Lemma query_keeps L w p st (r : option Z) o : Inv L w -> room w -> objects w !! p = Some (OLinkedList st) ->
  run o st = (fun v => (v, st)) <$> r -> wp (nonnull r) (fun _ => Inv L) w.
Proof.
  intros Hi Hroom Ho Hrun. destruct (I_ok _ _ Hi _ _ Ho) as [l Hr].
  destruct (rep_op L w p st Hi Ho Hroom l o Hr) as (z & st' & l' & Hz & _). rewrite Hrun in Hz.
  by destruct r.
Qed.

Lemma then_ret L (m : N Z) (f : Z -> Z) w : wp m (fun _ => Inv L) w -> wp (x <- m;; nret (f x)) (fun _ => Inv L) w.
Proof. intros H. apply wp_bind. eapply wp_mono; [exact H|done]. Qed.

Lemma new_list_keeps L ctx st l w : Inv L w -> room w -> rep st l -> wp (make_handle ctx (OLinkedList st)) (fun _ => Inv L) w.
Proof.
  intros Hi Hroom Hr. eapply wp_mono; [apply (wp_make_handle L ctx (OLinkedList st) w)|]; [done|by exists l|done|apply (room_handles _ Hroom)|].
  by intros h w' [Hw _].
Qed.

Lemma list_close_keeps : keeps Native_LinkedListClose always.
Proof.
  intros ctx params L w Hi Hroom _. apply GET_LINKED_LIST_keeps; [done|]. intros p st Ho Hno. do 3 nat_step.
  eapply wp_mono; [apply wp_FreeHandle; [done|by apply Hno]|]. by intros _ w' [Hw _].
Qed.

Lemma list_copy_keeps : keeps Native_LinkedListCopy always.
Proof.
  intros ctx params L w Hi Hroom _. apply GET_LINKED_LIST_keeps; [done|]. intros p st Ho _. nat_step.
  destruct (I_ok _ _ Hi _ _ Ho) as [l Hr]. pose proof (room_lists _ Hroom p st Ho) as Hsz.
  assert (size (nodes_ st) = length l) as E by (destruct Hr as (al & -> & Hr); by rewrite length_fmap, (proj1 (rep_size _ _ Hr))).
  destruct (DeepCopy_spec st l Hr) as (copy & cl & -> & Hc & _); [lia|]. nat_step. by eapply new_list_keeps.
Qed.

Lemma list_table_keeps : Forall (fun e => keeps e.2 always) g_LinkedListNatives.
Proof.
  unfold g_LinkedListNatives. repeat (apply Forall_cons; split); [..|by apply Forall_nil]; cbn [snd];
    try exact list_close_keeps; try exact list_copy_keeps; intros ctx params L w Hi Hroom _;
    (lazymatch goal with |- wp (?f ctx params) _ w => unfold f end);
    try (apply GET_LINKED_LIST_keeps; [done|]; intros p st Ho _); repeat (nat_step; nat_step); try apply then_ret;
    try (first [eapply method_keeps|eapply void_keeps|eapply query_keeps]; [exact Hi|exact Hroom|exact Ho|]).
  1: by eapply new_list_keeps; [| |apply rep_new].
  1: done.
  all: first
    [ exact (eq_refl (run OClear st)) | refine (eq_refl (run (OPushFront _) st)) | refine (eq_refl (run (OPushBack _) st))
    | exact (eq_refl (run OPopFront st)) | exact (eq_refl (run OPopBack st)) | refine (eq_refl (run (ORemove _) st))
    | refine (eq_refl (run (OMoveToFront _) st)) | refine (eq_refl (run (OMoveToBack _) st))
    | refine (eq_refl (run (OGetValue _) st)) | refine (eq_refl (run (OSetValue _ _) st)) | exact (eq_refl (run OFirst st))
    | exact (eq_refl (run OLast st)) | refine (eq_refl (run (ONext _) st)) | refine (eq_refl (run (OPrev _) st)) ].
Qed.

End ListNatives.
