(* ===== verification/NativesJsonTable.v ===== *)
(** * The table of JSON natives is safe

    What some natives need of the state, the proofs for the natives that are
    not plain reads or writes, and the theorems about sequences of calls. *)

From stdpp Require Import base numbers list gmap.
From Stdlib Require Import ZArith Lia.
From S2P Require Import LinkedList LockedQueue HeaderMap HttpRequest EventLoop Prelude HandleManager HttpState NodePool DataMap DataValue Float Text DataNode DataRefcount DataCopy JsonText JsonParse DataMerge DataHandle DataIterator Natives NativesJson NativesJsonSafe.

Section Table.

Context {MO : DataMap bytes} {MI : DataMap Z} {P : Type} {PA : NodeAllocator P} {M : Type} {PC : PluginContext M} {FR : Frame}.
Context (iterate : bytes -> option od_value) (read_file : bytes -> option (Z * bytes)).

#[local] Notation world := (world (P := P) (M := M)).
#[local] Notation keeps := (keeps (P := P) (M := M)).
#[local] Notation native := (native (P := P) (M := M)).

Implicit Types (w : world).

(** ** What some natives need *)

(** Reads of a double as an integer of [bits] bits. *)
Definition need_ints (bits : Z) : list Z -> world -> Prop := fun _ w => ints_ok bits w.

(** The value an iterator last returned has not been freed. *)
Definition need_values : list Z -> world -> Prop := fun _ w =>
  forall p it v, objects w !! p = Some (OIterator it) -> value_ it = Some v -> live v w.

(** An iterator whose container has the version it remembers can still be used. *)
Definition iter_valid (it : DataIterator) w : Prop :=
  forall c, cells (nodes w) !! node_ it = Some c -> version c = version_ it ->
    match type_ it, pay c with
    | ItObject, PObject m => (dm_list m).*1 = obj_order it
    | ItIntMap, PIntMap m => (dm_list m).*1 = intmap_order it
    | _, _ => False
    end.
Definition need_iterators : list Z -> world -> Prop := fun _ w =>
  forall p it, objects w !! p = Some (OIterator it) -> iter_valid it w.

(** The data is acyclic. *)
Definition need_acyclic : list Z -> world -> Prop := fun _ w => acyclic (cells (nodes w)).

(** The source of a merge does not contain the target and, when [overwrite] is
    asked for, they share no key. *)
Definition disjoint_keys (n o : loc) w : Prop :=
  (forall m m', deref n (nodes w) = Some (PObject m) -> deref o (nodes w) = Some (PObject m') ->
     forall k, is_Some (dm_map m' !! k) -> dm_map m !! k = None) /\
  (forall m m', deref n (nodes w) = Some (PIntMap m) -> deref o (nodes w) = Some (PIntMap m') ->
     forall k, is_Some (dm_map m' !! k) -> dm_map m !! k = None).
Definition need_merge : list Z -> world -> Prop := fun params w =>
  acyclic (cells (nodes w)) /\
  forall h h' n o, param params 1 = Some h -> param params 2 = Some h' -> node_of h w = Some n -> node_of h' w = Some o ->
    n <> o -> ~ rtc (points (cells (nodes w))) o n /\
    (forall v, param params 3 = Some v -> is_true v = true -> disjoint_keys n o w).

(** The target of [JsonArrayAppendObject] is an array. *)
Definition need_array : list Z -> world -> Prop := fun params w =>
  forall h n, param params 1 = Some h -> node_of h w = Some n -> exists a, deref n (nodes w) = Some (PArray a).

Definition both (p q : list Z -> world -> Prop) : list Z -> world -> Prop := fun params w => p params w /\ q params w.

(** ** The natives that need an argument of their own *)

Lemma close_keeps : keeps Native_JsonClose always.
Proof.
  intros ctx params L w Hi Hroom _. unfold Native_JsonClose. nat_step. nat_step. nat_step.
  eapply wp_GetDataHandle; [exact Hi|done|]. intros n Hn _. nat_step.
  eapply wp_mono; [apply wp_FreeHandle; [done|by eapply may_free_node]|]. by intros _ w' [Hi' _].
Qed.

Lemma iter_close_keeps : keeps Native_IterClose always.
Proof.
  intros ctx params L w Hi Hroom _. unfold Native_IterClose. repeat nat_step.
  eapply wp_GetDataIterator; [exact Hi|done|]. intros p it _ Hno. nat_step.
  eapply wp_mono; [by apply wp_FreeHandle|]. by intros _ w' [Hi' _].
Qed.

Lemma create_keeps p : children p = [] -> forall ctx L w, Inv L w -> room w ->
  wp (nbind (wr' (fun st => let? (n, s) := Make p st in Some (new_DataHandle n, s)))
        (fun json => make_handle ctx (ODataHandle json))) (fun _ => Inv L) w.
Proof.
  intros Hp ctx L w Hi Hroom. nat_step. apply wp_wr'.
  destruct (Make_inv (nodes w) _ p (I_heap _ _ Hi) Hp) as (n & s & -> & Hs & _). exists (Some n), s. split; [done|].
  apply (wp_wrap_new L ctx (Some n)); [|apply (room_handles _ Hroom)].
  apply (Inv_nodes L); [done|]. eapply inv_perm; [|exact Hs]. by rewrite Permutation_middle.
Qed.

(** Replacing an object by one with the same type and references. *)
Lemma Inv_store L w p o o' : Inv L w -> objects w !! p = Some o -> replaces o o' -> obj_refs o' = obj_refs o ->
  obj_ok o' -> Inv L (set_objects (<[p := o']> (objects w)) w).
Proof. intros Hi Ho Et Er Hok. apply (Inv_replace L L w p o o'); [done..|]. by rewrite Er. Qed.

Lemma parse_wp ctx data L w : Inv L w -> room w ->
  wp (nbind (wr' (DataParseJson iterate data)) (fun node => wrap_new ctx node)) (fun _ w' => exists L', Inv (L' ++ L) w') w.
Proof.
  intros Hi Hroom. nat_step. apply wp_wr'.
  destruct (DataParseJson_builds iterate data (nodes w) _ (I_heap _ _ Hi)) as (r & s & L' & Hr & Hs & _).
  exists r, s. split; [done|]. eapply wp_mono; [apply (wp_wrap_new (L' ++ L) ctx r)|intros ? w' Hw; by exists L'].
  - apply (Inv_nodes L); [done|]. eapply inv_perm; [|exact Hs].
    trans ((option_list r ++ L') ++ world_refs (objects w) ++ L); [by rewrite app_assoc|].
    rewrite Permutation_app_swap_app. by rewrite <- !app_assoc.
  - apply (room_handles _ Hroom).
Qed.

(** Under [pre] the call has no undefined behaviour; it leaks only if [leak]. *)
Definition safe (leak : bool) (f : native) (pre : list Z -> world -> Prop) : Prop :=
  forall ctx params L w, Inv L w -> room w -> pre params w ->
  wp (f ctx params) (fun _ w' => exists L', Inv (L' ++ L) w' /\ (leak = false -> L' = [])) w.

Lemma keeps_safe leak f pre : keeps f pre -> safe leak f pre.
Proof. intros H ctx params L w Hi Hroom Hp. eapply wp_mono; [by apply H|]. intros ? w' Hw. by exists []. Qed.

Lemma wp_leaky L (m : N (P := P) (M := M) Z) w : wp m (fun _ w' => exists L', Inv (L' ++ L) w') w ->
  wp m (fun _ w' => exists L', Inv (L' ++ L) w' /\ (true = false -> L' = [])) w.
Proof. intros H. eapply wp_mono; [exact H|]. intros ? w' [L' HL]. by exists L'. Qed.

Lemma parse_string_safe : safe true (Native_JsonParseString iterate) always.
Proof. intros ctx params L w Hi Hroom _. apply wp_leaky. unfold Native_JsonParseString. do 4 nat_step. by apply parse_wp. Qed.

Lemma parse_file_safe : safe true (Native_JsonParseFile iterate read_file) always.
Proof.
  intros ctx params L w Hi Hroom _. apply wp_leaky. unfold Native_JsonParseFile. do 4 nat_step.
  destruct (read_file _) as [[size buf]|]; [|by exists []]. destruct (_ || _); [by exists []|]. destruct (negb _); [by exists []|].
  by apply parse_wp.
Qed.

Lemma parse_response_safe : safe true (Native_JsonParse iterate) always.
Proof.
  intros ctx params L w Hi Hroom _. apply wp_leaky. unfold Native_JsonParse. do 3 nat_step.
  eapply wp_GetHttpRequest; [exact Hi|by exists []|]. intros p r x Ho _ _ _.
  destruct (in_event_thread r); [by exists []|]. destruct (response_node r) as [n|] eqn:En.
  - nat_step. nat_step. unfold wp at 1, store_object. nat_step.
    eapply wp_mono; [apply (wp_wrap_new L ctx (Some n))|intros ? w' Hw; by exists []]; [|apply (room_handles _ Hroom)].
    apply (Inv_replace L (n :: L) w p (OHttpRequest r)); [done..|].
    simpl. rewrite En, app_nil_r, <- app_assoc. done.
  - destruct (response_body r) as [|b body]; [by exists []|]. by apply parse_wp.
Qed.

(** Iterators. *)
Lemma iter_create_wp L ctx n w (create : store -> option (option DataIterator * store)) : Inv L w -> room w -> held n w ->
  (create (nodes w) = Some (None, nodes w) \/
   exists it s, create (nodes w) = Some (Some it, s) /\ Incref n (nodes w) = Some s /\ node_ it = n) ->
  wp (nbind (wr' create) (fun iter => match iter with None => nret 0 | Some it => make_handle ctx (OIterator it) end))
    (fun _ => Inv L) w.
Proof.
  intros Hi Hroom Hn Hc. nat_step. apply wp_wr'. destruct Hc as [Hc|(it & s & Hc & Hs & En)].
  - exists None, (nodes w). split; [done|]. nat_step. by destruct w.
  - exists (Some it), s. split; [done|].
    destruct (held_live L w n Hi Hn) as [c Hc'].
    destruct (Incref_inv (nodes w) _ n c (I_heap _ _ Hi) Hc') as (s' & Hs' & Hinv); [by eapply (room_refs _ Hroom)|].
    rewrite Hs in Hs'. injection Hs' as <-.
    eapply wp_mono; [apply (wp_make_handle L ctx (OIterator it))|]; [|done|done|apply (room_handles _ Hroom)|].
    + apply (Inv_nodes L); [done|]. simpl. rewrite En. eapply inv_perm; [|exact Hinv]. by rewrite Permutation_middle.
    + by intros h w' [? _].
Qed.

Lemma object_iter_keeps : keeps Native_ObjectIterCreate always.
Proof.
  intros ctx params L w Hi Hroom _. unfold Native_ObjectIterCreate. do 3 nat_step. eapply wp_GetDataHandle; [exact Hi|done|].
  intros n _ Hn. do 2 nat_step. destruct (is_object _); [|done]. apply (iter_create_wp L ctx n); [done..|].
  destruct (held_live L w n Hi Hn) as [c Hc]. unfold DataIterator.CreateObject. rewrite Hc. destruct (pay c); try (by left).
  right. unfold Incref. rewrite Hc. by eexists _, _.
Qed.

Lemma intmap_iter_keeps : keeps Native_IntMapIterCreate always.
Proof.
  intros ctx params L w Hi Hroom _. unfold Native_IntMapIterCreate. do 3 nat_step. eapply wp_GetDataHandle; [exact Hi|done|].
  intros n _ Hn. do 2 nat_step. destruct (is_intmap _); [|done]. apply (iter_create_wp L ctx n); [done..|].
  destruct (held_live L w n Hi Hn) as [c Hc]. unfold DataIterator.CreateIntMap. rewrite Hc. destruct (pay c); try (by left).
  right. unfold Incref. rewrite Hc. by eexists _, _.
Qed.

Lemma Next_total L w p it : Inv L w -> objects w !! p = Some (OIterator it) -> iter_valid it w ->
  exists more it', Next it (nodes w) = Some (more, it') /\ node_ it' = node_ it.
Proof.
  intros Hi Ho Hv. destruct (held_live L w (node_ it) Hi) as [c Hc]; [eapply held_object; [exact Ho|constructor]|].
  specialize (Hv c Hc). unfold Next. rewrite Hc. destruct (Z.eqb_spec (version c) (version_ it)) as [E|E]; [|by eexists _, _].
  specialize (Hv E). simpl. unfold map_at. destruct (type_ it), (pay c); try done; rewrite decide_True by done;
    match goal with |- context [?l !! ?i] => destruct (l !! i) as [[? ?]|] end; by eexists _, _.
Qed.

(** The common part of the three natives that advance an iterator. *)
Lemma iter_next_wp L w p it (k : bool -> DataIterator -> N (P := P) (M := M) Z) (R : Z -> world -> Prop) :
  Inv L w -> objects w !! p = Some (OIterator it) -> iter_valid it w ->
  (forall more it' w', Inv L w' -> wp (k more it') R w') ->
  wp (nbind (rd (Next it)) (fun r => let '(more, it) := r in nbind (store_object p (OIterator it)) (fun _ => k more it))) R w.
Proof.
  intros Hi Ho Hv Hk. nat_step. apply wp_rd. destruct (Next_total L w p it Hi Ho Hv) as (more & it' & Hn & En).
  exists (more, it'). split; [done|]. nat_step. unfold wp at 1, store_object. apply Hk.
  apply (Inv_store L w p (OIterator it)); [done|done|done|simpl; by rewrite En|done].
Qed.

Lemma iter_next_keeps : keeps Native_IterNext need_iterators.
Proof.
  intros ctx params L w Hi Hroom Hpre. unfold Native_IterNext. do 3 nat_step. eapply wp_GetDataIterator; [exact Hi|done|].
  intros p it Ho _. case_decide; [done|]. 
  eapply (iter_next_wp L w p it); [done|done|by eapply Hpre|].
  intros more it' w' Hi'. destruct more; cbn [negb]; [nat_solve|done].
Qed.

Lemma intmap_iter_next_keeps : keeps Native_IntMapIterNext need_iterators.
Proof.
  intros ctx params L w Hi Hroom Hpre. unfold Native_IntMapIterNext. do 3 nat_step. eapply wp_GetDataIterator; [exact Hi|done|].
  intros p it Ho _. case_decide; [done|].
  eapply (iter_next_wp L w p it); [done|done|by eapply Hpre|].
  intros more it' w' Hi'. destruct more; cbn [negb]; [nat_solve|done].
Qed.

Lemma intmap_iter_next64_keeps : keeps Native_IntMapIterNext64 need_iterators.
Proof.
  intros ctx params L w Hi Hroom Hpre. unfold Native_IntMapIterNext64. do 3 nat_step. eapply wp_GetDataIterator; [exact Hi|done|].
  intros p it Ho _. case_decide; [done|].
  eapply (iter_next_wp L w p it); [done|done|by eapply Hpre|].
  intros more it' w' Hi'. destruct more; cbn [negb]; [nat_solve|done].
Qed.

Lemma wp_iter_value L params (R : option loc -> world -> Prop) w : Inv L w -> need_values params w ->
  (forall v, child_ok v w -> R v w) -> wp (iter_value params) R w.
Proof.
  intros Hi Hv HR. unfold iter_value. do 3 nat_step. eapply wp_GetDataIterator; [exact Hi| |].
  - apply HR, child_none.
  - intros p it Ho _. apply HR. intros c Hc. by eapply Hv.
Qed.

(** Attaching a child: the container's operation takes the reference. *)
Lemma attach_insert L n c w (f : store -> option store) : held n w -> n <> c ->
  (forall st ext, inv st (c :: ext) -> n ∈ ext -> exists s, f st = Some s /\ inv s ext) ->
  forall w1, Inv (c :: L) w1 -> objects w1 = objects w -> exists s, f (nodes w1) = Some s /\ inv s (world_refs (objects w) ++ L).
Proof.
  intros Hn Hne Hf w1 Hi1 Eo. apply Hf; [|unfold held in Hn; set_solver].
  eapply inv_perm; [|exact (I_heap _ _ Hi1)]. rewrite Eo. by rewrite Permutation_middle.
Qed.

Ltac attach_start :=
  repeat nat_step; eapply wp_GetDataHandle; [eassumption|by apply wp_ret|];
  let c := fresh "c" in let Hne := fresh "Hne" in
  intros c ? ?; case_decide as Hne; [apply wp_Throw; inv_same|];
  eapply wp_attach; [assumption|assumption|assumption|by eapply may_free_node|].

Ltac attach_take :=
  intros w1 ? ? _; match goal with Hne : Some ?n <> Some ?c |- _ => eapply (attach_insert _ n c) end;
  [eassumption|congruence| |eassumption|assumption].

Ltac attach_map lem1 lem2 :=
  attach_start; attach_take; intros st ext ? ?; by apply (map_insert_inv lem1 lem2).

Lemma set_object_keeps : keeps Native_JsonSetObject always.
Proof. intros ctx params L w Hi Hroom _. unfold Native_JsonSetObject. attach_map obj_get obj_children. Qed.
Lemma intmap_set_object_keeps : keeps Native_IntMapSetObject always.
Proof. intros ctx params L w Hi Hroom _. unfold Native_IntMapSetObject. attach_map int_get int_children. Qed.
Lemma intmap_set_object64_keeps : keeps Native_IntMapSetObject64 always.
Proof. intros ctx params L w Hi Hroom _. unfold Native_IntMapSetObject64. attach_map int_get int_children. Qed.
Lemma array_set_object_keeps : keeps Native_JsonArraySetObject always.
Proof.
  intros ctx params L w Hi Hroom _. unfold Native_JsonArraySetObject. attach_start. attach_take.
  intros st ext ? ?. apply ArrSet_inv; [done..|apply to_size_nonneg].
Qed.

Lemma array_append_object_keeps : keeps Native_JsonArrayAppendObject need_array.
Proof.
  intros ctx params L w Hi Hroom Hpre. unfold Native_JsonArrayAppendObject. nat_step.
  destruct (Hpre h n) as [a Ha]; [done..|]. attach_start. intros w1 Hi1 Eo Ecells.
  assert (exists d, cells (nodes w1) !! n = Some d /\ pay d = PArray a) as (d & Hd & Hp).
  { rewrite Ecells by congruence. unfold deref in Ha. destruct (cells (nodes w) !! n) as [d|]; [|done]. injection Ha as Ha. by exists d. }
  eapply push_back_inv; [|unfold held in *; set_solver|exact Hd|exact Hp].
  eapply inv_perm; [|exact (I_heap _ _ Hi1)]. rewrite Eo. by rewrite Permutation_middle.
Qed.

(** Merging. *)
Lemma object_merge_keeps : keeps Native_JsonObjectMerge need_merge.
Proof.
  intros ctx params L w Hi Hroom [Ha Hm]. unfold Native_JsonObjectMerge. nat_step.
  do 3 nat_step. eapply wp_GetDataHandle; [exact Hi|done|]. intros o Ho Hheld. case_decide as Hne; [done|].
  destruct (Hm h v n o) as [Hr Hd]; [done..|congruence|]. do 3 nat_step. apply wp_wr.
  destruct (map_merge_inv obj_get obj_put obj_children (nodes w) _ n o (is_true v0) (I_heap _ _ Hi)) as (s & Hs & Hinv).
  - unfold held in *. set_solver.
  - unfold held in *. set_solver.
  - exact Ha.
  - exact Hr.
  - intros Ht c oc q om Hc Hoc Hq Hom. specialize (Hd v0 H3 Ht). destruct Hd as [Hd _].
    apply (Hd q om); unfold deref; [rewrite Hc, (obj_get _ _ Hq)|rewrite Hoc, (obj_get _ _ Hom)]; done.
  - exists s. split; [exact Hs|]. nat_step. by apply (Inv_nodes L).
Qed.

Lemma intmap_merge_keeps : keeps Native_IntMapMerge need_merge.
Proof.
  intros ctx params L w Hi Hroom [Ha Hm]. unfold Native_IntMapMerge. nat_step.
  do 3 nat_step. eapply wp_GetDataHandle; [exact Hi|done|]. intros o Ho Hheld. case_decide as Hne; [done|].
  destruct (Hm h v n o) as [Hr Hd]; [done..|congruence|]. do 3 nat_step. apply wp_wr.
  destruct (map_merge_inv int_get int_put int_children (nodes w) _ n o (is_true v0) (I_heap _ _ Hi)) as (s & Hs & Hinv).
  - unfold held in *. set_solver.
  - unfold held in *. set_solver.
  - exact Ha.
  - exact Hr.
  - intros Ht c oc q om Hc Hoc Hq Hom. specialize (Hd v0 H3 Ht). destruct Hd as [_ Hd].
    apply (Hd q om); unfold deref; [rewrite Hc, (int_get _ _ Hq)|rewrite Hoc, (int_get _ _ Hom)]; done.
  - exists s. split; [exact Hs|]. nat_step. by apply (Inv_nodes L).
Qed.

Lemma array_extend_keeps : keeps Native_JsonArrayExtend need_merge.
Proof.
  intros ctx params L w Hi Hroom [Ha Hm]. unfold Native_JsonArrayExtend. nat_step.
  do 3 nat_step. eapply wp_GetDataHandle; [exact Hi|done|]. intros o Ho Hheld. case_decide as Hne; [done|].
  destruct (Hm h v n o) as [Hr _]; [done..|congruence|]. nat_step. apply wp_wr.
  destruct (ArrExtend_inv (nodes w) _ n o (I_heap _ _ Hi)) as (s & Hs & Hinv); [unfold held in *; set_solver..|exact Ha|exact Hr|].
  exists s. split; [exact Hs|]. nat_step. by apply (Inv_nodes L).
Qed.

Lemma node_value L w n : Inv L w -> live n w -> acyclic (cells (nodes w)) -> exists v, repr (cells (nodes w)) n v.
Proof. intros Hi Hn Ha. apply acyclic_repr; [|done..]. by eapply inv_closed, I_heap. Qed.

Lemma equals_keeps : keeps Native_JsonEquals need_acyclic.
Proof.
  intros ctx params L w Hi Hroom Ha. unfold Native_JsonEquals. nat_step. do 3 nat_step. eapply wp_GetDataHandle; [exact Hi|done|].
  intros o _ Ho. do 3 nat_step.
  destruct (node_value L w n Hi ltac:(by eapply held_live) Ha) as [v1 Hv1].
  destruct (node_value L w o Hi ltac:(by eapply held_live) Ha) as [v2 Hv2].
  apply wp_rd_total; [|done]. rewrite (Equals_spec (nodes w) n o v1 v2) by done. by eexists.
Qed.

Lemma copy_keeps : keeps Native_JsonCopy need_acyclic.
Proof.
  intros ctx params L w Hi Hroom Ha. unfold Native_JsonCopy. do 4 nat_step. apply wp_wr'.
  destruct (node_value L w n Hi ltac:(by eapply held_live) Ha) as [v Hv].
  destruct (DeepCopy_copies (nodes w) _ n v (I_heap _ _ Hi) Hv) as (l & s & -> & Hinv & _). exists l, s. split; [done|].
  apply (wp_wrap_new L ctx (Some l)); [|apply (room_handles _ Hroom)].
  apply (Inv_nodes L); [done|]. eapply inv_perm; [|exact Hinv]. by rewrite Permutation_middle.
Qed.

(** A path is resolved, then the target is read. *)
Ltac path_start := do 3 nat_step; nat_step;
  eapply wp_ResolveJsonPath; [eassumption|eassumption|]; let v := fresh "v" in let w' := fresh "w'" in
  intros v w' ? ?; assert (Inv _ w') by (eapply Inv_same; eassumption); assert (room w') by (eapply room_same; eassumption).

Lemma ints_same bits w w' : same w w' -> ints_ok bits w -> ints_ok bits w'.
Proof. intros (_ & _ & E & _) H l c f. rewrite E. apply H. Qed.

Lemma path_int_keeps : keeps Native_JsonPathGetInt (need_ints 32).
Proof.
  intros ctx params L w Hi Hroom Hpre. unfold Native_JsonPathGetInt. path_start. destruct v0 as [t|]; [|nat_solve].
  do 2 nat_step. apply wp_rd_total; [|intros; inv_same]. eapply coerce_cell_total; [eassumption|]. by eapply ints_same.
Qed.
Lemma path_int64_keeps : keeps Native_JsonPathGetInt64 (need_ints 64).
Proof.
  intros ctx params L w Hi Hroom Hpre. unfold Native_JsonPathGetInt64. path_start. nat_step.
  apply wp_rd_total; [apply AsInt_total; [done|by eapply ints_same]|]. intros z. nat_solve.
Qed.
Lemma path_float_keeps : keeps Native_JsonPathGetFloat always.
Proof. intros ctx params L w Hi Hroom Hpre. unfold Native_JsonPathGetFloat. path_start. destruct v0 as [t|]; nat_solve. Qed.
Lemma path_bool_keeps : keeps Native_JsonPathGetBool always.
Proof. intros ctx params L w Hi Hroom Hpre. unfold Native_JsonPathGetBool. path_start. nat_solve. Qed.
Lemma path_string_keeps : keeps Native_JsonPathGetString always.
Proof. intros ctx params L w Hi Hroom Hpre. unfold Native_JsonPathGetString. path_start. nat_solve. Qed.
Lemma path_get_keeps : keeps Native_JsonPathGet always.
Proof. intros ctx params L w Hi Hroom Hpre. unfold Native_JsonPathGet. path_start. nat_solve. Qed.
Lemma path_type_keeps : keeps Native_JsonPathGetType always.
Proof. intros ctx params L w Hi Hroom Hpre. unfold Native_JsonPathGetType. path_start. nat_solve. Qed.
Lemma path_failed_keeps : keeps Native_JsonPathFailed always.
Proof. by intros ctx params L w Hi Hroom Hpre. Qed.
Lemma path_error_keeps : keeps Native_JsonPathError always.
Proof. intros ctx params L w Hi Hroom Hpre. unfold Native_JsonPathError. do 5 nat_step. unfold wp at 1, string_to_local. nat_solve. Qed.

Lemma serialize_keeps : keeps Native_JsonSerialize always.
Proof.
  intros ctx params L w Hi Hroom Hpre. unfold Native_JsonSerialize. do 9 nat_step.
  assert (forall k : bool -> N (P := P) (M := M) Z, (forall b, wp (k b) (fun _ => Inv L) w) ->
    wp (nbind (if v1 >=? 4 then nbind (arg params 4) (fun p => nret (is_true p)) else nret false) k) (fun _ => Inv L) w) as Hk.
  { intros k Hk. nat_step. destruct (v1 >=? 4); [|by apply Hk]. do 3 nat_step. apply Hk. }
  apply Hk. intros b. do 2 nat_step. destruct a as [|x text]; nat_solve.
Qed.

Lemma buffer_keeps : keeps Native_JsonGetBuffer always.
Proof.
  intros ctx params L w Hi Hroom Hpre. unfold Native_JsonGetBuffer. do 3 nat_step. eapply wp_GetDataHandle; [exact Hi|done|].
  intros n _ Hn. do 2 nat_step. destruct p; try done. do 2 nat_step.
  assert (forall k : Z -> N (P := P) (M := M) Z, (forall b, wp (k b) (fun _ => Inv L) w) ->
    wp (nbind (if v0 >=? 4 then arg params 4 else nret 0) k) (fun _ => Inv L) w) as Hk.
  { intros k Hk. nat_step. destruct (v0 >=? 4); [|by apply Hk]. nat_step. apply Hk. }
  apply Hk. intros offset. destruct (_ || _); [done|]. do 4 nat_step. destruct (_ <=? 0); [done|]. nat_solve.
Qed.

Ltac value_start := nat_step; eapply wp_iter_value; [eassumption|eassumption|]; intros v Hv.

Lemma iter_type_keeps : keeps Native_IterGetType need_values.
Proof. intros ctx params L w Hi Hroom Hpre. unfold Native_IterGetType. value_start. destruct v as [v|]; nat_solve. Qed.
Lemma iter_int_keeps : keeps Native_IterGetInt (both need_values (need_ints 32)).
Proof.
  intros ctx params L w Hi Hroom [Hpre Hints]. unfold Native_IterGetInt. value_start. destruct v as [v|]; [|done].
  do 2 nat_step. apply wp_rd_total; [|done]. by eapply coerce_cell_total.
Qed.
Lemma iter_int64_keeps : keeps Native_IterGetInt64 (both need_values (need_ints 64)).
Proof.
  intros ctx params L w Hi Hroom [Hpre Hints]. unfold Native_IterGetInt64. value_start. destruct v as [v|]; [|done].
  nat_step. apply wp_rd_total; [by apply AsInt_total|]. intros z. nat_solve.
Qed.
Lemma iter_float_keeps : keeps Native_IterGetFloat need_values.
Proof. intros ctx params L w Hi Hroom Hpre. unfold Native_IterGetFloat. value_start. destruct v as [v|]; nat_solve. Qed.
Lemma iter_bool_keeps : keeps Native_IterGetBool need_values.
Proof. intros ctx params L w Hi Hroom Hpre. unfold Native_IterGetBool. value_start. destruct v as [v|]; nat_solve. Qed.
Lemma iter_string_keeps : keeps Native_IterGetString need_values.
Proof. intros ctx params L w Hi Hroom Hpre. unfold Native_IterGetString. value_start. nat_solve. Qed.
Lemma iter_object_keeps : keeps Native_IterGetObject need_values.
Proof.
  intros ctx params L w Hi Hroom Hpre. unfold Native_IterGetObject. value_start. destruct v as [v|]; [|done].
  do 2 nat_step. destruct (_ && _); nat_solve.
Qed.

(** ** The table *)

Inductive need := NNone | NInts (bits : Z) | NValues | NValuesInts (bits : Z) | NIterators | NAcyclic | NMerge | NArray.

Definition meaning (k : need) : list Z -> world -> Prop :=
  match k with
  | NNone => always
  | NInts bits => need_ints bits
  | NValues => need_values
  | NValuesInts bits => both need_values (need_ints bits)
  | NIterators => need_iterators
  | NAcyclic => need_acyclic
  | NMerge => need_merge
  | NArray => need_array
  end.

(** The natives that need something. *)
Definition needs : list (String.string * need) := [
  ("async2_JsonGetInt"%string, NInts 64); ("async2_JsonGetInt64"%string, NInts 64);
  ("async2_JsonAsInt"%string, NInts 64); ("async2_JsonAsInt64"%string, NInts 64);
  ("async2_JsonArrayGetInt"%string, NInts 64); ("async2_JsonArrayGetInt64"%string, NInts 64);
  ("async2_JsonPathGetInt"%string, NInts 32); ("async2_JsonPathGetInt64"%string, NInts 64);
  ("async2_IntObjectGetInt"%string, NInts 64); ("async2_IntObject64GetInt"%string, NInts 64);
  ("async2_IntObject64GetInt64"%string, NInts 64);
  ("async2_IterNext"%string, NIterators); ("async2_IntMapIterNext"%string, NIterators);
  ("async2_IntMapIterNext64"%string, NIterators);
  ("async2_IterGetType"%string, NValues); ("async2_IterGetInt"%string, NValuesInts 32);
  ("async2_IterGetInt64"%string, NValuesInts 64); ("async2_IterGetFloat"%string, NValues);
  ("async2_IterGetBool"%string, NValues); ("async2_IterGetString"%string, NValues);
  ("async2_IterGetObject"%string, NValues);
  ("async2_JsonObjectMerge"%string, NMerge); ("async2_IntObjectMerge"%string, NMerge);
  ("async2_JsonArrayExtend"%string, NMerge); ("async2_JsonArrayAppendObject"%string, NArray);
  ("async2_JsonEquals"%string, NAcyclic); ("async2_JsonCopy"%string, NAcyclic)].

Definition need_of (name : String.string) : need :=
  match List.find (fun e => String.eqb e.1 name) needs with Some (_, k) => k | None => NNone end.

Definition requires (name : String.string) : list Z -> world -> Prop := meaning (need_of name).

(** Parsing may leak (the values of repeated keys). *)
Definition may_leak (name : String.string) : bool :=
  List.existsb (String.eqb name)
    ["async2_JsonParseResponse"%string; "async2_JsonParseString"%string; "async2_JsonParseFile"%string].

Ltac head t := lazymatch t with ?f _ => head f | _ => t end.

(** Writes of the simple setters. *)
Ltac nat_write := lazymatch goal with
  | |- wp (wr _) _ _ => eapply wp_wr_keeps; [eassumption|eassumption| |intros ? ?];
      [first [apply obj_set_keeps; reflexivity|apply intmap_set_keeps; reflexivity|apply arr_set_keeps; reflexivity
             |apply arr_append_keeps; reflexivity|apply ObjectClear_keeps|apply IntMapClear_keeps|apply ArrayClear_keeps]|]
  | |- wp (wr' _) _ _ => eapply wp_wr'_keeps; [eassumption|eassumption| |intros ? ? ?];
      [first [apply RemoveKey_keeps|apply IntMapRemoveKey_keeps|apply ArrayRemove_keeps]|]
  end.

Ltac keeps_simple :=
  intros ctx params L w Hi Hroom Hpre; unfold need_ints in *;
  lazymatch goal with |- wp ?t _ _ => let f := head t in unfold f end;
  repeat (first [nat_step|nat_write]); try inv_same.

Lemma create_object_keeps : keeps Native_JsonCreateObject always.
Proof. intros ctx params L w Hi Hroom _. apply (create_keeps (PObject dm_new)); [apply new_children|done|done]. Qed.
Lemma create_array_keeps : keeps Native_JsonCreateArray always.
Proof. intros ctx params L w Hi Hroom _. by apply (create_keeps (PArray [])). Qed.
Lemma create_intmap_keeps : keeps Native_IntMapCreate always.
Proof.
  intros ctx params L w Hi Hroom _. apply (create_keeps (PIntMap dm_new)); [|done|done].
  simpl. by rewrite (dm_list_nil dm_new) by apply dm_new_map.
Qed.

Ltac table_entry :=
  cbn [fst snd]; lazymatch goal with |- safe (may_leak ?s) _ (requires _) =>
    let k := eval vm_compute in (need_of s) in change (requires s) with (meaning k);
    let b := eval vm_compute in (may_leak s) in change (may_leak s) with b end; cbn [meaning];
  first [exact parse_response_safe|exact parse_string_safe|exact parse_file_safe|
    apply keeps_safe; first
    [exact create_object_keeps|exact create_array_keeps|exact create_intmap_keeps|exact close_keeps|exact iter_close_keeps
    |exact object_iter_keeps|exact intmap_iter_keeps|exact iter_next_keeps|exact intmap_iter_next_keeps
    |exact intmap_iter_next64_keeps|exact set_object_keeps|exact intmap_set_object_keeps|exact intmap_set_object64_keeps
    |exact array_set_object_keeps|exact array_append_object_keeps|exact object_merge_keeps|exact intmap_merge_keeps
    |exact array_extend_keeps|exact equals_keeps|exact copy_keeps|exact path_int_keeps|exact path_int64_keeps
    |exact path_float_keeps|exact path_bool_keeps|exact path_string_keeps|exact path_get_keeps|exact path_type_keeps
    |exact path_failed_keeps|exact path_error_keeps|exact serialize_keeps|exact buffer_keeps|exact iter_type_keeps
    |exact iter_int_keeps|exact iter_int64_keeps|exact iter_float_keeps|exact iter_bool_keeps|exact iter_string_keeps
    |exact iter_object_keeps|solve [keeps_simple]]].

Lemma table_safe : Forall (fun e => safe (may_leak e.1) e.2 (requires e.1)) (g_JsonNatives iterate read_file).
Proof. unfold g_JsonNatives. repeat (apply Forall_cons; split; [table_entry|]). apply Forall_nil. exact I. Qed.

Lemma table_entry_safe name f : (name, f) ∈ g_JsonNatives iterate read_file -> safe (may_leak name) f (requires name).
Proof. intros Hin. pose proof table_safe as HF. rewrite Forall_forall in HF. exact (HF (name, f) Hin). Qed.

(** ** Sequences of calls *)

(** The worlds that calls of the natives lead to, from a consistent one in which
    nothing is leaked.  [leak] says whether parsing natives are among the calls. *)
Inductive reach (leak : bool) : world -> Prop :=
  | reach_start w : Inv [] w -> reach leak w
  | reach_call w name f ctx params r w' : reach leak w -> (name, f) ∈ g_JsonNatives iterate read_file ->
      (leak = false -> may_leak name = false) -> room w -> requires name params w ->
      f ctx params w = Done r w' -> reach leak w'.

Lemma reach_Inv leak w : reach leak w -> exists L, Inv L w /\ (leak = false -> L = []).
Proof.
  induction 1 as [w Hi|w name f ctx params r w' _ [L [Hi HL]] Hin Hleak Hroom Hreq Hcall]; [by exists []|].
  pose proof (table_entry_safe name f Hin ctx params L w Hi Hroom Hreq) as Hs. unfold wp in Hs. rewrite Hcall in Hs.
  destruct Hs as (L' & Hi' & HL'). exists (L' ++ L). split; [done|]. intros E. by rewrite HL', HL by auto.
Qed.


(** C15: The JSON natives leak nothing.  After calls that do not parse text, every
    live node of acyclic data can be reached from the node of an open handle,
    and once no handle is left open no node is left allocated. *)
Theorem json_natives_no_leak (w : world) : reach false w -> acyclic (cells (nodes w)) ->
  (forall l, live l w -> exists n, held n w /\ rtc (points (cells (nodes w))) n l) /\
  (used_handles_ (hm w) = ∅ -> cells (nodes w) = ∅).
Proof.
  intros (L & Hi & HL)%reach_Inv Ha. rewrite HL in Hi by done.
  assert (forall l, live l w -> exists n, held n w /\ rtc (points (cells (nodes w))) n l) as Hreach.
  { intros l Hl. destruct (minv_reachable _ _ l (inv_m _ _ (I_heap _ _ Hi)) Ha Hl) as (r & Hr & Hrtc).
    rewrite app_nil_r in Hr. by exists r. }
  split; [done|]. intros Hempty. apply map_empty. intros l. destruct (cells (nodes w) !! l) as [c|] eqn:E; [|done].
  destruct (Hreach l) as (n & Hn & _); [by exists c|]. unfold held, world_refs in Hn.
  assert (objects w = ∅) as Eo.
  { apply map_empty. intros p. destruct (objects w !! p) as [o|] eqn:Ep; [|done].
    destruct (I_handle _ _ Hi p) as (h & x & Hx & _); [by exists o|]. by rewrite Hempty in Hx. }
  rewrite Eo, map_to_list_empty in Hn. by apply not_elem_of_nil in Hn.
Qed.

End Table.
