(* ===== verification/NativesHttp.v ===== *)
(** * [src/natives_http.cpp], [src/natives_msgpack.cpp]: the natives of requests

    The natives act on the request behind a handle while the plugin owns it;
    [HttpExecute] hands it to the event thread and [HttpClose] cancels it.  The
    options of the libcurl easy handle are libcurl's; the caller's file and line
    that [SetRetry] keeps for log messages are not modelled. *)

From stdpp Require Import base numbers list gmap.
From Stdlib Require Import ZArith Lia.
From S2P Require Import LinkedList LockedQueue MsgPack Prelude HandleManager NodePool DataMap DataValue Float Text DataNode HeaderMap HttpRequest EventLoop HttpState DataRefcount DataCopy JsonText JsonParse DataBuild DataHandle DataIterator Natives NativesJson.

Section HttpNatives.

Context {MO : DataMap bytes} {MI : DataMap Z} {P : Type} {PA : NodeAllocator P} {M : Type} {PC : PluginContext M}.

(** libcurl: [curl_easy_init] makes a handle that is not among the existing ones. *)
Context (curl_easy_init : gset positive -> option positive).

#[local] Notation N := (N (P := P) (M := M)).
#[local] Notation world := (world (P := P) (M := M)).
#[local] Notation native := (native (P := P) (M := M)).
#[local] Notation "x <- m ;; k" := (nbind m (fun x => k)) (at level 100, m at next level, right associativity).
#[local] Notation "m ;;; k" := (nbind m (fun _ => k)) (at level 100, right associativity).

(** The easy handles that exist: one per request, and the pool. *)
Definition easy_handles (w : world) : gset positive :=
  list_to_set (omap (fun o => match o with OHttpRequest r => curl r | _ => None end) (map_to_list (objects w)).*2) ∪
  list_to_set (g_curl_pool (curls w)).

Definition acquire_curl : N (option positive) := fun w =>
  let '(c, pool) := AcquireCurl (curl_easy_init (easy_handles w)) (curls w) in Done c (set_curls pool w).

(** The macro [GET_HTTP_REQUEST]. *)
Definition GET_HTTP_REQUEST (params : list Z) (k : positive -> HttpRequest -> N Z) : N Z :=
  h <- arg params 1;; request <- GetHttpRequest h;;
  match request with None => nret 2 | Some (p, r) => if in_event_thread r then nret 2 else k p r end.

Definition Native_HttpNew : native := fun pContext params =>
  c <- acquire_curl;;
  match c with
  | None => nret 0
  | Some c =>
      let request := new_HttpRequest c pContext in
      p <- new_object (OHttpRequest request);;
      handle <- CreateHandle p HANDLE_HTTP_REQUEST pContext;;
      if handle =? 0 then delete_object p;;; nret 0 else
      userdata <- arg params 1;;
      store_request p (set_userdata userdata (set_handle_id handle request));;; nret handle
  end.

(** The cancelling of a request in flight, the same in the native, at the
    unloading of a plugin and when a client leaves. *)
Definition cancel_request (h : Z) (p : positive) (r : HttpRequest) : N unit :=
  store_request p (set_handle_closed true r);;; MarkHandleClosed h;;; upd_loop (CancelRequest p).

Definition Native_HttpClose : native := fun pContext params =>
  h <- arg params 1;; request <- GetHttpRequest h;;
  match request with
  | None => nret 2
  | Some (p, r) =>
      upd_clients (UntrackClientHandle (client_index r) (handle_id r));;;
      (if in_event_thread r then cancel_request h p r else FreeHandle h);;; nret 0
  end.

Definition toupper (c : byte) : byte := if (97 <=? c) && (c <=? 122) then c - 32 else c.

(** [EventLoop::EnqueueRequest] *)
Definition enqueue_request (p : positive) (r : HttpRequest) : N unit :=
  store_request p (PrepareForSend r);;; upd_loop (EnqueueRequest p).

Definition Native_HttpExecute : native := fun pContext params =>
  GET_HTTP_REQUEST params (fun p r =>
    a <- arg params 2;; b <- arg params 3;; method <- local_string a;; url <- local_string b;;
    callback <- arg params 4;;
    enqueue_request p (set_callback_id (uN 32 callback) (set_method (toupper <$> method) r));;; nret 0).

(** [SetBody]: the nodes of an earlier body are released. *)
Definition SetBody (data : bytes) (p : positive) (r : HttpRequest) : N unit :=
  match body_node r with
  | Some n => wr (Decref (Some n));;;
              store_request p (set_post_body data (set_body_format NONE (set_body_node None r)))
  | None => store_request p (set_post_body data r)
  end.

Definition SetBodyNode (node : loc) (fmt : BodyFormat) (p : positive) (r : HttpRequest) : N HttpRequest :=
  let r := set_post_body [] r in
  (match body_node r with Some n => wr (Decref (Some n)) | None => nret tt end);;;
  nret (set_body_format fmt (set_body_node (Some node) r)).

(** A negative length is a huge [size_t], and [assign] throws. *)
Definition Native_SetBody : native := fun pContext params =>
  GET_HTTP_REQUEST params (fun p r =>
    a <- arg params 2;; length <- arg params 3;;
    if length <? 0 then (fun _ => UB) else
    data <- local_raw a (Z.to_nat length);; SetBody data p r;;; nret 0).

Definition Native_SetBodyString : native := fun pContext params =>
  GET_HTTP_REQUEST params (fun p r => a <- arg params 2;; s <- local_string a;; SetBody s p r;;; nret 0).

(** [SetBodyJSON] and [SetBodyMsgPack]. *)
Definition set_body_node_of (params : list Z) (fmt : BodyFormat) (content_type : bytes) : N Z :=
  h <- arg params 1;; request <- GetHttpRequest h;; b <- arg params 2;;
  match request with
  | Some (p, r) =>
      if in_event_thread r then FreeHandle b;;; nret 2 else
      json <- GetDataHandle b;;
      match json with
      | Some (Some node) =>
          l <- wr' (DataNode.DeepCopy node);; r <- SetBodyNode l fmt p r;;
          store_request p (SetHeader (str "Content-Type") content_type r);;; FreeHandle b;;; nret 0
      | _ => nret 2
      end
  | None => FreeHandle b;;; nret 2
  end.

Definition Native_SetBodyJSON : native := fun pContext params => set_body_node_of params JSON (str "application/json").

Definition Native_SetCompression : native := fun pContext params =>
  GET_HTTP_REQUEST params (fun p r =>
    b <- arg params 2;; n <- arg params 0;;
    size <- (if n >=? 3 then s <- arg params 3;; nret (if s >? 0 then s else 0) else nret 0);;
    store_request p (set_compress_min_size size (set_compress_body (is_true b) r));;; nret 0).

Definition Native_SetHeader : native := fun pContext params =>
  GET_HTTP_REQUEST params (fun p r =>
    a <- arg params 2;; b <- arg params 3;; key <- local_string a;; value <- local_string b;;
    store_request p (SetHeader key value r);;; nret 0).

Definition Native_RemoveHeader : native := fun pContext params =>
  GET_HTTP_REQUEST params (fun p r =>
    a <- arg params 2;; key <- local_string a;; store_request p (RemoveHeader key r);;; nret 0).

Definition Native_ClearHeaders : native := fun pContext params =>
  GET_HTTP_REQUEST params (fun p r => store_request p (ClearHeaders r);;; nret 0).

Definition Native_GetString : native := fun pContext params =>
  GET_HTTP_REQUEST params (fun p r =>
    a <- arg params 2;; _ <- local_string a;; size <- arg params 3;;
    if size <=? 0 then nret 0 else
    local_write_bytes a (take (Z.to_nat (size - 1)) (response_body r) ++ [0]);;; nret 0).

Definition Native_GetRawData : native := fun pContext params =>
  GET_HTTP_REQUEST params (fun p r =>
    a <- arg params 2;; _ <- local_string a;; size <- arg params 3;;
    if size <=? 0 then nret 0 else
    let data := take (Z.to_nat size) (response_body r) in
    local_write_bytes a data;;; nret (cell (Z.of_nat (length data)))).

Definition Native_GetResponseLength : native := fun pContext params =>
  GET_HTTP_REQUEST params (fun p r => nret (cell (Z.of_nat (length (response_body r))))).

Definition Native_GetResponseHeader : native := fun pContext params =>
  GET_HTTP_REQUEST params (fun p r =>
    a <- arg params 2;; name <- local_string a;;
    match FindResponseHeader name r with
    | None => nret (-1)
    | Some val => b <- arg params 3;; n <- arg params 4;; string_to_local b n (cstr val);;; nret (cell (Z.of_nat (length val)))
    end).

Definition Native_GetResponseHeaderLength : native := fun pContext params =>
  GET_HTTP_REQUEST params (fun p r =>
    a <- arg params 2;; name <- local_string a;;
    match FindResponseHeader name r with None => nret (-1) | Some val => nret (cell (Z.of_nat (length val))) end).

Definition Native_SetRetry : native := fun pContext params =>
  GET_HTTP_REQUEST params (fun p r =>
    n <- arg params 0;; v <- arg params 2;;
    let r := set_max_retries v r in
    r <- (if n >=? 3 then v <- arg params 3;; nret (set_retry_delay_ms v r) else nret r);;
    r <- (if n >=? 4 then v <- arg params 4;; nret (set_retry_backoff (sp_ctof v) r) else nret r);;
    r <- (if n >=? 5 then v <- arg params 5;; nret (set_retry_max_delay_ms v r) else nret r);;
    r <- (if n >=? 6 then v <- arg params 6;; nret (if is_true v then set_log_retries true r else r) else nret r);;
    store_request p r;;; nret 0).

Definition Native_GetRetryCount : native := fun pContext params =>
  h <- arg params 1;; request <- GetHttpRequest h;;
  match request with None => nret (-1) | Some (_, r) => nret (retry_count r) end.

(** The addresses are tested before anything is written. *)
Definition Native_GetHttpPoolStats : native := fun pContext params =>
  a <- arg params 1;; b <- arg params 2;; c <- arg params 3;; d <- arg params 4;;
  w1 <- try_cell a;; w2 <- try_cell b;; w3 <- try_cell c;; w4 <- try_cell d;;
  match w1, w2, w3, w4 with
  | Some _, Some _, Some _, Some _ => fun w =>
      let e := g_event_loop w in
      (local_write a [stats_active e];;; local_write b [stats_pending e];;; local_write c [stats_completed e];;;
       local_write d [stats_retries e];;; nret 0) w
  | _, _, _, _ => nret 0
  end.

Definition Native_SetLogLevel : native := fun pContext params =>
  v <- arg params 1;; (fun w => Done 0 (set_log_level v w)).

Definition Native_SetOwner : native := fun pContext params =>
  GET_HTTP_REQUEST params (fun p r =>
    new_client <- arg params 2;;
    if new_client =? client_index r then nret 0 else
    upd_clients (UntrackClientHandle (client_index r) (handle_id r));;;
    store_request p (set_client_index new_client r);;;
    upd_clients (TrackClientHandle new_client (handle_id r));;; nret 0).

Definition Native_SetResponseType : native := fun pContext params =>
  GET_HTTP_REQUEST params (fun p r =>
    mode <- arg params 2;;
    if (mode <? 0) || (mode >? 2) then nret 1 else store_request p (set_parse_mode mode r);;; nret 0).

Definition g_HttpNatives : list (String.string * native) := [
  ("async2_HttpNew"%string, Native_HttpNew);
  ("async2_HttpClose"%string, Native_HttpClose);
  ("async2_HttpExecute"%string, Native_HttpExecute);
  ("async2_SetBody"%string, Native_SetBody);
  ("async2_SetBodyString"%string, Native_SetBodyString);
  ("async2_SetBodyJSON"%string, Native_SetBodyJSON);
  ("async2_SetCompression"%string, Native_SetCompression);
  ("async2_SetHeader"%string, Native_SetHeader);
  ("async2_RemoveHeader"%string, Native_RemoveHeader);
  ("async2_ClearHeaders"%string, Native_ClearHeaders);
  ("async2_GetString"%string, Native_GetString);
  ("async2_GetRawData"%string, Native_GetRawData);
  ("async2_GetResponseLength"%string, Native_GetResponseLength);
  ("async2_GetResponseHeader"%string, Native_GetResponseHeader);
  ("async2_GetResponseHeaderLength"%string, Native_GetResponseHeaderLength);
  ("async2_SetRetry"%string, Native_SetRetry);
  ("async2_GetRetryCount"%string, Native_GetRetryCount);
  ("async2_GetHttpPoolStats"%string, Native_GetHttpPoolStats);
  ("async2_SetLogLevel"%string, Native_SetLogLevel);
  ("async2_SetOwner"%string, Native_SetOwner);
  ("async2_SetResponseType"%string, Native_SetResponseType)].

(** ** MessagePack *)

Definition Native_MsgPackParse : native := fun pContext params =>
  h <- arg params 1;; request <- GetHttpRequest h;;
  match request with
  | None => nret 0
  | Some (p, r) =>
      if in_event_thread r then nret 0 else
      match response_body r with
      | [] => nret 0
      | body => fun w => (parsed <- wr' (ParseMsgPack (g_max_container_elements w) body);; wrap_new pContext parsed) w
      end
  end.

Definition Native_MsgPackParseBuffer : native := fun pContext params =>
  a <- arg params 1;; t <- try_cell a;;
  match t with
  | None => nret 0
  | Some _ =>
      length <- arg params 2;;
      if length <=? 0 then nret 0 else
      data <- local_raw a (Z.to_nat length);;
      (fun w => (parsed <- wr' (ParseMsgPack (g_max_container_elements w) data);; wrap_new pContext parsed) w)
  end.

Definition Native_MsgPackSerialize : native := fun pContext params =>
  h <- arg params 1;; json <- GetDataHandle h;;
  match json with
  | Some (Some node) =>
      buf <- rd (SerializeMsgPack node);; maxlen <- arg params 3;;
      if maxlen <=? 0 then nret 0 else
      let data := take (Z.to_nat maxlen) buf in
      a <- arg params 2;; t <- try_cell a;;
      match t with
      | None => nret 0
      | Some _ => local_write_bytes a data;;; nret (cell (Z.of_nat (length data)))
      end
  | _ => nret 0
  end.

Definition Native_SetBodyMsgPack : native := fun pContext params =>
  set_body_node_of params MSGPACK (str "application/msgpack").

Definition Native_MsgPackSetMaxElements : native := fun pContext params =>
  limit <- arg params 1;; (fun w => Done 0 (set_max_elements (MsgPackSetMaxElements (if limit >? 0 then limit else 1000000)) w)).

Definition INT_MAX : Z := 2 ^ 31 - 1.
Definition Native_MsgPackGetMaxElements : native := fun pContext params => fun w =>
  let val := MsgPackGetMaxElements (g_max_container_elements w) in Done (cell (if val >? INT_MAX then INT_MAX else val)) w.

Definition g_MsgPackNatives : list (String.string * native) := [
  ("async2_MsgPackParse"%string, Native_MsgPackParse);
  ("async2_MsgPackParseBuffer"%string, Native_MsgPackParseBuffer);
  ("async2_MsgPackSerialize"%string, Native_MsgPackSerialize);
  ("async2_SetBodyMsgPack"%string, Native_SetBodyMsgPack);
  ("async2_MsgPackSetMaxElements"%string, Native_MsgPackSetMaxElements);
  ("async2_MsgPackGetMaxElements"%string, Native_MsgPackGetMaxElements)].

End HttpNatives.
