(* ===== verification/NativesHttpSafe.v ===== *)
(** * The natives of requests keep the world consistent

    The steps of the HTTP code that leave the invariant intact (changing a
    member, cancelling, deleting, handing over), and with them every native of
    [NativesHttp]. *)

From stdpp Require Import base numbers list gmap.
From Stdlib Require Import ZArith Lia.
From S2P Require Import LinkedList LockedQueue MsgPack Prelude HandleManager NodePool DataMap DataValue Float Text DataNode HeaderMap HttpRequest EventLoop HttpState DataRefcount DataCopy JsonText JsonParse DataBuild ParsedNodes DataMerge DataHandle DataIterator Natives NativesJson NativesJsonSafe NativesHttp.

Section Steps.

Context {MO : DataMap bytes} {MI : DataMap Z} {P : Type} {PA : NodeAllocator P} {M : Type} {PC : PluginContext M}.

#[local] Notation N := (N (P := P) (M := M)).
#[local] Notation world := (world (P := P) (M := M)).
Implicit Types (w : world) (L : list loc).

(** ** The objects and the table after a change to one request *)

(** The parts of the invariant that do not speak of the event loop. *)
Lemma Inv_parts {FR FR' : Frame} L L' w w' p r r' : Inv (FR := FR) L w -> objects w !! p = Some (OHttpRequest r) ->
  objects w' = <[p := OHttpRequest r']> (objects w) -> wf (hm w') ->
  (forall h x, used_handles_ (hm w') !! h = Some x -> exists y, used_handles_ (hm w) !! h = Some y /\ pointer y = pointer x /\ type y = type x) ->
  (forall h y, used_handles_ (hm w) !! h = Some y -> exists x, used_handles_ (hm w') !! h = Some x /\ pointer y = pointer x /\ type y = type x) ->
  nodes w' = nodes w -> obj_refs (OHttpRequest r') ++ L' ≡ₚ obj_refs (OHttpRequest r) ++ L ->
  (exists pl, http_ok (FR := FR') pl (requests (objects w')) (used_handles_ (hm w')) (g_event_loop w') (curls w') (g_client_handles w')) ->
  Inv (FR := FR') L' w'.
Proof.
  intros Hi Ho Eo Hwf Hb Hf En Er Hh. pose proof Hi as [H1 H2 H3 H4 H5 H6 _]. split; try done.
  - intros h x Hx. destruct (Hb h x Hx) as (y & Hy & Ep & Et). destruct (H2 h y Hy) as (o & Ho' & Eot). rewrite Eo, <- Ep, <- Et.
    destruct (decide (pointer y = p)) as [E|E]; [|exists o; by rewrite lookup_insert_ne]. exists (OHttpRequest r'). rewrite E, lookup_insert_eq.
    split; [done|]. rewrite E in Ho'. rewrite <- Eot. by replace o with (OHttpRequest r) by congruence.
  - intros h h' x x' Hx Hx' E. destruct (Hb h x Hx) as (y & Hy & Ep & _). destruct (Hb h' x' Hx') as (y' & Hy' & Ep' & _).
    eapply H3; [exact Hy|exact Hy'|congruence].
  - intros q Hq. assert (is_Some (objects w !! q)) as Hq'.
    { rewrite Eo in Hq. destruct (decide (q = p)) as [->|]; [by eexists|]. by rewrite lookup_insert_ne in Hq. }
    destruct (H4 q Hq') as (h & y & Hy & Ep). destruct (Hf h y Hy) as (x & Hx & Ex & _). exists h, x. split; [done|congruence].
  - intros q o. rewrite Eo, lookup_insert_Some. intros [[<- <-]|[_ Hq]]; [done|by eapply H5].
  - rewrite En, Eo. eapply inv_perm; [|exact H6].
    rewrite (world_refs_lookup _ _ _ Ho), <- insert_delete_eq, world_refs_fresh by apply lookup_delete_eq.
    rewrite <- !app_assoc. rewrite (Permutation_app_comm (world_refs (delete p (objects w)))).
    rewrite (Permutation_app_comm (world_refs (delete p (objects w)))), !app_assoc. by rewrite Er.
Qed.

(** Handles of the same objects, with other owners. *)
Lemma Inv_table {FR : Frame} L w m : Inv (FR := FR) L w -> wf m ->
  (forall h x, used_handles_ m !! h = Some x -> exists y, used_handles_ (hm w) !! h = Some y /\ pointer x = pointer y /\ type x = type y) ->
  (forall h y, used_handles_ (hm w) !! h = Some y -> exists x, used_handles_ m !! h = Some x /\ pointer x = pointer y /\ type x = type y /\ closed x = closed y) ->
  Inv (FR := FR) L (set_hm m w).
Proof.
  intros [H1 H2 H3 H4 H5 H6 [pl H7]] Hwf Hb Hf. split; cbn [hm set_hm objects nodes g_event_loop curls g_client_handles]; try done.
  - intros h x Hx. destruct (Hb h x Hx) as (y & Hy & -> & ->). by apply (H2 h).
  - intros h h' x x' Hx Hx' E. destruct (Hb h x Hx) as (y & Hy & Ep & _). destruct (Hb h' x' Hx') as (y' & Hy' & Ep' & _).
    eapply H3; [exact Hy|exact Hy'|congruence].
  - intros q Hq. destruct (H4 q Hq) as (h & y & Hy & <-). destruct (Hf h y Hy) as (x & Hx & Ep & _). by exists h, x.
  - exists pl. eapply http_handles'; [exact H7|]. intros h y Hy _. by apply Hf.
Qed.

Lemma same_table w w' : hm w' = hm w ->
  (forall h x, used_handles_ (hm w') !! h = Some x -> exists y, used_handles_ (hm w) !! h = Some y /\ pointer y = pointer x /\ type y = type x) /\
  (forall h y, used_handles_ (hm w) !! h = Some y -> exists x, used_handles_ (hm w') !! h = Some x /\ pointer y = pointer x /\ type y = type x).
Proof. intros ->. split; intros h x Hx; by exists x. Qed.

Lemma Inv_wf {FR : Frame} L w : Inv L w -> wf (hm w).
Proof. by intros []. Qed.

(** A request is handed from one place to another; the table stays. *)
Lemma Inv_move {FR FR' : Frame} L L' w w' p r r' : Inv (FR := FR) L w -> objects w !! p = Some (OHttpRequest r) ->
  objects w' = <[p := OHttpRequest r']> (objects w) -> hm w' = hm w -> nodes w' = nodes w ->
  obj_refs (OHttpRequest r') ++ L' ≡ₚ obj_refs (OHttpRequest r) ++ L ->
  (exists pl, http_ok (FR := FR') pl (<[p := r']> (requests (objects w))) (used_handles_ (hm w)) (g_event_loop w') (curls w') (g_client_handles w')) ->
  Inv (FR := FR') L' w'.
Proof.
  intros Hi Ho Eo Eh En Er Hh. destruct (same_table w w' Eh) as [Hb Hf]. eapply (Inv_parts (FR := FR) (FR' := FR') L L' w w' p r r'); [exact Hi|exact Ho|exact Eo| |exact Hb|exact Hf|exact En|exact Er|].
  - rewrite Eh. exact (Inv_wf _ _ Hi).
  - by rewrite Eo, requests_insert, Eh.
Qed.

(** Members that are not the invariant's business. *)
Lemma Inv_request {FR : Frame} L w p r r' : Inv L w -> objects w !! p = Some (OHttpRequest r) -> same_core r r' ->
  body_node r' = body_node r -> response_node r' = response_node r -> Inv L (set_objects (<[p := OHttpRequest r']> (objects w)) w).
Proof. intros Hi Ho Hc E1 E2. apply (Inv_replace L L w p (OHttpRequest r)); [exact Hi|exact Ho|exact Hc|exact I|]. cbn. by rewrite E1, E2. Qed.

(** ** Looking up *)

Lemma GetHttpRequest_self {FR : Frame} L w h p r x : Inv L w -> objects w !! p = Some (OHttpRequest r) -> used_handles_ (hm w) !! h = Some x ->
  pointer x = p -> h = handle_id r /\ closed x = handle_closed r /\ type x = HANDLE_HTTP_REQUEST.
Proof.
  intros Hi Ho Hx Ep. destruct (I_http _ _ Hi) as [pl H]. apply requests_Some in Ho.
  destruct (K_req _ _ _ _ _ _ H p r Ho) as (q & _ & Hok). destruct (R_self _ _ _ _ _ Hok) as (y & Hy & Epy & Ety & Ecl).
  assert (h = handle_id r) as -> by (eapply (I_unique _ _ Hi); [exact Hx|exact Hy|congruence]).
  replace x with y by congruence. done.
Qed.

Lemma wp_GET_HTTP {FR : Frame} L params k (R : Z -> world -> Prop) w : Inv L w -> R 2 w ->
  (forall p r, objects w !! p = Some (OHttpRequest r) -> param params 1 = Some (handle_id r) -> in_event_thread r = false ->
     handle_closed r = false -> HandleManager.GetHttpRequest (handle_id r) (hm w) = Some p -> wp (k p r) R w) ->
  wp (GET_HTTP_REQUEST params k) R w.
Proof.
  intros Hi H2 Hk. unfold GET_HTTP_REQUEST. apply wp_bind, wp_arg. intros h Hh. apply wp_bind.
  apply (wp_GetHttpRequest L); [done|done|]. intros p r x Ho Hx Ep Ecl. destruct (in_event_thread r) eqn:Et; [done|].
  destruct (GetHttpRequest_self L w h p r x Hi Ho Hx Ep) as (-> & Ec & Ety). apply Hk; try done; [congruence|].
  unfold HandleManager.GetHttpRequest, get_typed. rewrite Hx, Ety, decide_False by (by intros []). by rewrite Ecl, Ep.
Qed.

(** ** Cancelling *)

Lemma wp_cancel_request {FR : Frame} L w p r h : Inv L w -> objects w !! p = Some (OHttpRequest r) -> h = handle_id r -> in_event_thread r = true ->
  wp (cancel_request h p r) (fun _ w' => Inv L w' /\ objects w' = <[p := OHttpRequest (set_handle_closed true r)]> (objects w) /\
      nodes w' = nodes w /\ g_client_handles w' = UntrackClientHandle (client_index r) h (g_client_handles w) /\
      g_plugin_contexts w' = g_plugin_contexts w /\ hm w' = HandleManager.MarkHandleClosed h (hm w))
    (set_clients (UntrackClientHandle (client_index r) h (g_client_handles w)) w).
Proof.
  intros Hi Ho -> Ht. unfold wp, cancel_request, store_request, store_object, MarkHandleClosed, upd_loop, nbind.
  destruct (I_http _ _ Hi) as [pl H]. pose proof (proj2 (requests_Some _ _ _) Ho) as Hr.
  destruct (K_req _ _ _ _ _ _ H p r Hr) as (q & _ & Hok). destruct (R_self _ _ _ _ _ Hok) as (x & Hx & Ep & Ety & Ecl).
  assert (used_handles_ (HandleManager.MarkHandleClosed (handle_id r) (hm w)) =
          <[handle_id r := mkHandle (type x) (pointer x) (owner x) true]> (used_handles_ (hm w))) as Eu.
  { unfold HandleManager.MarkHandleClosed. by rewrite Hx. }
  split_and!; [|done..].
  eapply (Inv_parts (FR := FR) L L w _ p r (set_handle_closed true r)); [done|done|reflexivity| | | |reflexivity|reflexivity|];
      cbn [hm set_loop set_hm set_objects set_clients objects g_event_loop curls g_client_handles].
  - apply wf_Mark. exact (Inv_wf _ _ Hi).
  - intros h y. rewrite Eu, lookup_insert_Some. intros [[<- <-]|[_ Hy]]; [by exists x|by exists y].
  - intros h y Hy. rewrite Eu. destruct (decide (h = handle_id r)) as [->|Hne]; [|exists y; by rewrite lookup_insert_ne].
    rewrite lookup_insert_eq. eexists. split; [done|]. by replace y with x by congruence.
  - exists pl. rewrite requests_insert. apply (http_close _ _ _ _ _ _ _ H p r (mkHandle (type x) (pointer x) (owner x) true)); [done|done| | |exact Ep|exact Ety|done].
    + intros h Hne. by rewrite Eu, lookup_insert_ne.
    + by rewrite Eu, lookup_insert_eq.
Qed.

(** ** Deleting *)

(** The request leaves: it is the plugin's, or its callback is over. *)
Definition leaves (FR FR' : Frame) (p : positive) : Prop :=
  (FR' = FR /\ running (Frame := FR) <> Some p) \/ (running (Frame := FR) = Some p /\ FR' = mkFrame (drained (Frame := FR)) None).

Lemma leaves_place (FR FR' : Frame) pl reqs handles e c cl p r : http_ok (FR := FR) pl reqs handles e c cl -> leaves FR FR' p ->
  reqs !! p = Some r -> in_event_thread r = false ->
  exists q0, pl !! p = Some q0 /\ (q0 = Idle \/ q0 = Run) /\
    forall q, (if decide (q = q0 /\ q <> Idle) then [p] else []) ++ members (FR := FR') e q ≡ₚ members (FR := FR) e q.
Proof.
  intros H [[-> Hrun]|[Hrun ->]] Hr Ht.
  - destruct (idle_place H p r Hr Ht Hrun) as [Hp _]. exists Idle. split_and!; [done|by left|].
    intros q. rewrite decide_False by naive_solver. done.
  - exists Run. split_and!; [|by right|].
    + apply (K_members _ _ _ _ _ _ H); [done|]. cbn. rewrite Hrun. constructor.
    + intros q. destruct q; cbn [members]; rewrite ?decide_False by naive_solver; try done.
      rewrite decide_True by done. cbn. by rewrite Hrun.
Qed.

Lemma wp_free_request (FR FR' : Frame) L w p r : Inv (FR := FR) L w -> objects w !! p = Some (OHttpRequest r) ->
  in_event_thread r = false -> leaves FR FR' p ->
  wp (FreeHandle (handle_id r)) (fun _ w' => Inv (FR := FR') L w' /\ objects w' = delete p (objects w) /\
      g_event_loop w' = g_event_loop w /\ used_handles_ (hm w') = delete (handle_id r) (used_handles_ (hm w)) /\
      g_client_handles w' = UntrackClientHandle (client_index r) (handle_id r) (g_client_handles w) /\
      g_plugin_contexts w' = g_plugin_contexts w)
    (set_clients (UntrackClientHandle (client_index r) (handle_id r) (g_client_handles w)) w).
Proof.
  intros Hi Ho Ht Hl. destruct (I_http _ _ Hi) as [pl H]. pose proof (proj2 (requests_Some _ _ _) Ho) as Hr.
  destruct (K_req _ _ _ _ _ _ H p r Hr) as (q & _ & Hok). destruct (R_self _ _ _ _ _ Hok) as (x & Hx & Ep & Ety & Ecl).
  destruct (R_curl _ _ _ _ _ Hok) as [c Hc]. destruct (leaves_place FR FR' _ _ _ _ _ _ p r H Hl Hr Ht) as (q0 & Hq0 & Hq & Hm).
  unfold wp, FreeHandle. cbn [hm set_clients]. rewrite Hx, decide_False by (by rewrite Ety). unfold delete_object.
  cbn [objects set_hm set_clients nodes curls]. rewrite Ep, Ho. cbn [release]. rewrite Hc.
  destruct (Decrefs_inv (obj_refs (OHttpRequest r)) (nodes w) (world_refs (delete p (objects w)) ++ L)) as (s & -> & Hs & _).
  { eapply inv_perm; [|exact (I_heap _ _ Hi)]. rewrite (world_refs_lookup _ _ _ Ho). by rewrite app_assoc. }
  assert (used_handles_ (HandleManager.FreeHandle (handle_id r) (hm w)) = delete (handle_id r) (used_handles_ (hm w))) as Eu.
  { unfold HandleManager.FreeHandle. by rewrite Hx. }
  split_and!; [|done..]. destruct Hi as [H1 H2 H3 H4 H5 H6 _].
  split; cbn [hm objects nodes set_hm set_objects set_nodes set_curls set_clients g_event_loop curls g_client_handles].
  - by apply wf_Free.
  - rewrite Eu. intros h1 x1 [Hne Hx1]%lookup_delete_Some. destruct (H2 h1 x1 Hx1) as (o1 & Ho1 & E1).
    exists o1. split; [|done]. rewrite lookup_delete_ne; [done|]. intros Ep1. destruct Hne. eapply H3; [exact Hx|exact Hx1|congruence].
  - rewrite Eu. intros h1 h2 x1 x2 [_ Hx1]%lookup_delete_Some [_ Hx2]%lookup_delete_Some. by apply H3.
  - intros u [o1 [Hu Ho1]%lookup_delete_Some]. destruct (H4 u) as (h1 & x1 & Hx1 & Ep1); [by exists o1|].
    exists h1, x1. split; [|done]. rewrite Eu, lookup_delete_ne; [done|]. intros <-. congruence.
  - intros u o1 [_ Hu]%lookup_delete_Some. by eapply H5.
  - done.
  - exists (delete p pl). rewrite requests_delete. apply (http_free FR FR' pl _ _ _ _ _ _ p r c q0 H Hr Hq0 Hc Hq Hm).
    intros h1 Hne. by rewrite Eu, lookup_delete_ne.
Qed.

(** ** Handing over to the event thread *)

Lemma wp_enqueue {FR : Frame} L w p r r' : Inv L w -> objects w !! p = Some (OHttpRequest r) -> same_core r r' ->
  body_node r' = body_node r -> response_node r' = response_node r -> in_event_thread r = false -> running <> Some p ->
  wp (enqueue_request p r') (fun _ w' => Inv L w' /\ objects w' = <[p := OHttpRequest (PrepareForSend r')]> (objects w) /\ hm w' = hm w) w.
Proof.
  intros Hi Ho Hcore E1 E2 Ht Hrun. unfold wp, enqueue_request, store_request, store_object, upd_loop, nbind. split_and!; [|done..].
  destruct (I_http _ _ Hi) as [pl H]. pose proof (proj2 (requests_Some _ _ _) Ho) as Hr.
  destruct (idle_place H p r Hr Ht Hrun) as [Hp Hok]. pose proof Hcore as (C1 & C2 & C3 & C4 & C5 & C6 & C7 & C8 & C9).
  eapply (Inv_move L L w _ p r); [done|done|reflexivity|done|done|cbn; by rewrite E1, E2|].
  exists (<[p := Pend]> pl). cbn [g_event_loop set_loop set_objects curls g_client_handles].
  eapply (http_move FR FR); [exact H|exact Hr|exact Hp| | | | |done..].
  - split_and!; [|done|].
    + intros q Hq. destruct q; repeat case_decide; try done; cbn. apply Permutation_app_comm.
    + intros x. cbn. rewrite (K_active _ _ _ _ _ _ H). destruct (decide (x = p)) as [->|]; [rewrite Hp|]; naive_solver.
  - destruct (http_loop _ _ _ _ _ _ H) as (L1 & (F1 & F2 & F3) & S1 & S2). split_and!; cbn; try done; [apply flag_Push|].
    rewrite S1. cbn. rewrite length_app, (s_add 32) by lia. f_equal. cbn. lia.
  - destruct Hok as [K1 K2 K3 K4 K5 K6 K7 K8]. split; cbn; rewrite ?C1, ?C2, ?C5, ?C6, ?C7; auto; [done|].
    intros Hc. by destruct (K5 Hc) as [? _].
  - intros x y Hx. by left.
Qed.

End Steps.

(** ** The natives *)

Section Natives.

Context {MO : DataMap bytes} {MI : DataMap Z} {P : Type} {PA : NodeAllocator P} {M : Type} {PC : PluginContext M} {FR : Frame}.
Context (curl_easy_init : gset positive -> option positive)
        (init_fresh : forall live c, curl_easy_init live = Some c -> c ∉ live).

#[local] Notation world := (world (P := P) (M := M)).
#[local] Notation keeps := (keeps (P := P) (M := M)).
Implicit Types (w : world) (L : list loc).

(** The handle is not the one of the request whose callback is running. *)
Definition not_running : list Z -> world -> Prop := fun params w =>
  forall h p, param params 1 = Some h -> HandleManager.GetHttpRequest h (hm w) = Some p -> running <> Some p.

(** The second handle is no request, and copying it ends. *)
Definition need_json : list Z -> world -> Prop := fun params w =>
  acyclic (cells (nodes w)) /\ forall b, param params 2 = Some b -> may_free b w.

Definition need_length : list Z -> world -> Prop := fun params w => forall n, param params 3 = Some n -> 0 <= n.

Definition need_trees : list Z -> world -> Prop := fun _ w => acyclic (cells (nodes w)).

Lemma Inv_body L w p r : Inv L w -> objects w !! p = Some (OHttpRequest r) -> body_ok r.
Proof.
  intros Hi Ho. destruct (I_http _ _ Hi) as [pl H]. apply requests_Some in Ho.
  destruct (K_req _ _ _ _ _ _ H p r Ho) as (q & _ & []). done.
Qed.

Lemma wp_store_request p r (R : unit -> world -> Prop) w : R tt (set_objects (<[p := OHttpRequest r]> (objects w)) w) -> wp (store_request p r) R w.
Proof. done. Qed.

Lemma wp_upd_clients f (R : unit -> world -> Prop) w : R tt (set_clients (f (g_client_handles w)) w) -> wp (upd_clients f) R w.
Proof. done. Qed.

Lemma wp_local_raw a n (R : bytes -> world -> Prop) w : (forall b, Forall is_byte b -> length b = n -> R b w) -> wp (local_raw a n) R w.
Proof. intros HR. unfold wp, local_raw. destruct (read_raw (memory w) a n) as [b|] eqn:E; [|done]. by apply HR; apply read_raw_bytes in E as []. Qed.

(** A reference moves from the leaked list into a request, or out of it. *)
Lemma Inv_request_refs L L' w p r r' : Inv L w -> objects w !! p = Some (OHttpRequest r) -> same_core r r' ->
  obj_refs (OHttpRequest r') ++ L' ≡ₚ obj_refs (OHttpRequest r) ++ L -> Inv L' (set_objects (<[p := OHttpRequest r']> (objects w)) w).
Proof. intros Hi Ho Hc Er. by apply (Inv_replace L L' w p (OHttpRequest r)). Qed.

Lemma wp_Decref L n (R : unit -> world -> Prop) w : Inv (n :: L) w -> (forall s, Inv L (set_nodes s w) -> R tt (set_nodes s w)) ->
  wp (wr (Decref (Some n))) R w.
Proof.
  intros Hi HR. apply wp_wr. destruct (Decref_inv (nodes w) (world_refs (objects w) ++ L) n) as (s & Hs & Hinv & _).
  { eapply inv_perm; [|exact (I_heap _ _ Hi)]. by rewrite Permutation_middle. }
  exists s. split; [done|]. apply HR. by apply (Inv_nodes (n :: L)).
Qed.

(** The request changed in members the invariant does not mention. *)
Ltac member p r := lazymatch goal with
  | |- Inv ?L (set_objects _ ?w) => apply (Inv_request L w p r); [assumption|assumption|core|reflexivity|reflexivity]
  end.

(** The release of a node whose pointer the code overwrites next. *)
Lemma wp_Decref_ahead L n os (R : unit -> world -> Prop) w : Inv (n :: L) (set_objects os w) ->
  (forall s, Inv L (set_objects os (set_nodes s w)) -> R tt (set_nodes s w)) -> wp (wr (Decref (Some n))) R w.
Proof.
  intros Hi HR. apply wp_wr. destruct (Decref_inv (nodes w) (world_refs os ++ L) n) as (s & Hs & Hinv & _).
  { eapply inv_perm; [|exact (I_heap _ _ Hi)]. by rewrite Permutation_middle. }
  exists s. split; [done|]. apply HR. by apply (Inv_nodes (n :: L) L (set_objects os w)).
Qed.

Lemma SetBody_keeps L data p r w : Inv L w -> objects w !! p = Some (OHttpRequest r) -> wp (SetBody data p r) (fun _ => Inv L) w.
Proof.
  intros Hi Ho. unfold SetBody. destruct (body_node r) as [n|] eqn:En; [|apply wp_store_request; member p r].
  apply wp_bind. set (r' := set_post_body _ _). eapply (wp_Decref_ahead L n (<[p := OHttpRequest r']> (objects w))).
  - apply (Inv_request_refs L _ w p r); [done|done|core|]. cbn. rewrite En. cbn. by rewrite Permutation_middle.
  - intros s Hs. by apply wp_store_request.
Qed.

Lemma SetBodyNode_keeps L l fmt ct p r w : Inv (l :: L) w -> objects w !! p = Some (OHttpRequest r) ->
  wp (nbind (SetBodyNode l fmt p r) (fun r => store_request p (SetHeader (str "Content-Type") ct r)))
    (fun _ w' => Inv L w' /\ hm w' = hm w /\ forall q c, objects w' !! q = Some (OWsConnection c) -> objects w !! q = Some (OWsConnection c)) w.
Proof.
  intros Hi Ho. unfold SetBodyNode. cbv zeta. apply wp_bind, wp_bind. set (r' := set_body_format _ _).
  assert (Inv (option_list (body_node r) ++ L) (set_objects (<[p := OHttpRequest (SetHeader (str "Content-Type") ct r')]> (objects w)) w)) as Hi'.
  { apply (Inv_request_refs (l :: L) _ w p r); [done|done|core|]. cbn. rewrite <- Permutation_middle. constructor.
    rewrite !app_assoc. apply Permutation_app_tail, Permutation_app_comm. }
  assert (forall o q c, <[p := OHttpRequest o]> (objects w) !! q = Some (OWsConnection c) -> objects w !! q = Some (OWsConnection c)) as Hws.
  { intros o q c [[_ ?]|[_ ?]]%lookup_insert_Some; done. }
  change (body_node (set_post_body [] r)) with (body_node r). destruct (body_node r) as [n|]; [|apply wp_ret, wp_ret, wp_store_request; split_and!; [done|done|apply Hws]].
  eapply wp_Decref_ahead; [exact Hi'|]. intros s Hs. apply wp_ret, wp_store_request. split_and!; [done|done|apply Hws].
Qed.

Lemma node_value_of L w n : Inv L w -> held n w -> acyclic (cells (nodes w)) -> exists v, repr (cells (nodes w)) n v.
Proof. intros Hi Hn Ha. apply acyclic_repr; [|done|by eapply held_live]. by eapply inv_closed, I_heap. Qed.

Lemma free_json_keeps L b w : Inv L w -> may_free b w -> wp (nbind (FreeHandle b) (fun _ => nret 2)) (fun _ => Inv L) w.
Proof. intros Hi Hno. apply wp_bind. eapply wp_mono; [by apply wp_FreeHandle|]. by intros _ w' [Hw _]. Qed.

Lemma set_body_node_keeps fmt ct : keeps (fun _ params => set_body_node_of params fmt ct) need_json.
Proof.
  intros ctx params L w Hi Hroom [Ha Hno]. unfold set_body_node_of. nat_step. nat_step. nat_step.
  eapply wp_GetHttpRequest; [exact Hi| |].
  - nat_step. nat_step. by apply free_json_keeps; [|apply Hno].
  - intros p r x Ho _ _ _. nat_step. nat_step. destruct (in_event_thread r); [by apply free_json_keeps; [|apply Hno]|].
    nat_step. eapply wp_GetDataHandle; [exact Hi|done|]. intros n Hn Hheld. nat_step. apply wp_wr'.
    destruct (node_value_of L w n Hi Hheld Ha) as [u Hu].
    destruct (DeepCopy_copies (nodes w) _ n u (I_heap _ _ Hi) Hu) as (l & s & -> & Hinv & _). exists l, s. split; [done|].
    assert (Inv (l :: L) (set_nodes s w)) as Hi1.
    { apply (Inv_nodes L); [done|]. eapply inv_perm; [|exact Hinv]. by rewrite Permutation_middle. }
    pose proof (SetBodyNode_keeps L l fmt ct p r (set_nodes s w) Hi1 Ho) as Hb. unfold wp, nbind in Hb |- *.
    destruct (SetBodyNode l fmt p r (set_nodes s w)) as [r' w1| |]; [|done|done].
    destruct (store_request p _ w1) as [[] w2| |]; [|done|done]. destruct Hb as (Hi2 & Eh & Ews).
    pose proof (wp_FreeHandle L v0 w2 Hi2) as Hf. unfold wp in Hf. destruct (FreeHandle v0 w2) as [[] w3| |]; [|done|];
      apply Hf, (may_free_change _ w); [by rewrite Eh|done|by apply Hno|by rewrite Eh|done|by apply Hno].
Qed.

Lemma http_close_keeps : keeps Native_HttpClose not_running.
Proof.
  intros ctx params L w Hi Hroom Hrun. unfold Native_HttpClose. nat_step. nat_step. nat_step.
  eapply wp_GetHttpRequest; [exact Hi|done|]. intros p r x Ho Hx Ep Ecl.
  destruct (GetHttpRequest_self L w v p r x Hi Ho Hx Ep) as (-> & Ec & Ety). nat_step. apply wp_upd_clients. apply wp_bind.
  destruct (in_event_thread r) eqn:Et.
  - eapply wp_mono; [by apply (wp_cancel_request L w p r)|]. by intros _ w' [Hw _].
  - eapply wp_mono; [apply (wp_free_request FR FR L w p r)|]; [done..| |by intros _ w' [Hw _]]. left. split; [done|].
    apply (Hrun (handle_id r)); [done|]. unfold HandleManager.GetHttpRequest, get_typed. by rewrite Hx, Ety, Ecl, Ep.
Qed.

Lemma http_execute_keeps : keeps Native_HttpExecute not_running.
Proof.
  intros ctx params L w Hi Hroom Hrun. apply (wp_GET_HTTP L); [done|done|]. intros p r Ho Hp Ht Hc Hg.
  do 11 nat_step. eapply wp_mono; [apply (wp_enqueue L w p r)|]; [done|done|core|done|done|done|by eapply Hrun|]. by intros _ w' [Hw _].
Qed.

(** The pool gives out a handle nobody has. *)
Lemma acquire_spec (w : world) : forall c pool, AcquireCurl (curl_easy_init (easy_handles w)) (curls w) = (c, pool) ->
  (NoDup (g_curl_pool (curls w)) -> NoDup (g_curl_pool pool)) /\ g_curl_pool pool ⊆ g_curl_pool (curls w) /\
  forall y, c = Some y -> (NoDup (g_curl_pool (curls w)) -> y ∉ g_curl_pool pool) /\ (y ∈ g_curl_pool (curls w) \/ y ∉ easy_handles w).
Proof using init_fresh.
  intros c pool. unfold AcquireCurl. destruct (rev (g_curl_pool (curls w))) as [|z rest] eqn:E; intros [= <- <-]; cbn.
  - assert (g_curl_pool (curls w) = []) as E' by (rewrite <- (rev_involutive (g_curl_pool (curls w))), E; done). rewrite E'.
    split; [done|]. split; [set_solver|]. intros y Hy. split; [intros _; apply not_elem_of_nil|]. right. by apply init_fresh.
  - assert (g_curl_pool (curls w) = rev rest ++ [z]) as E' by (rewrite <- (rev_involutive (g_curl_pool (curls w))), E; done). rewrite E'.
    split; [intros H%list.NoDup_app; tauto|]. split; [set_solver|]. intros y [= <-]. split; [|left; set_solver].
    intros (_ & H & _)%list.NoDup_app Hin. apply (H z Hin). constructor.
Qed.

Lemma easy_of_request w p r c : objects w !! p = Some (OHttpRequest r) -> curl r = Some c -> c ∈ easy_handles w.
Proof.
  intros Ho Hc. unfold easy_handles. apply elem_of_union_l, elem_of_list_to_set, list_elem_of_omap. exists (OHttpRequest r). split; [|done].
  apply list_elem_of_fmap. exists (p, OHttpRequest r). split; [done|]. by apply elem_of_map_to_list.
Qed.

Lemma http_pool pl reqs handles e c c' cl : http_ok pl reqs handles e c cl -> NoDup (g_curl_pool c') -> g_curl_pool c' ⊆ g_curl_pool c ->
  http_ok pl reqs handles e c' cl.
Proof. intros [] Hnd Hs. split; try done. destruct K_pool as [_ Hf]. split; [done|]. intros p r x Hr Hx Hin. eapply Hf; [exact Hr|exact Hx|auto]. Qed.

Lemma http_new_keeps : keeps (Native_HttpNew curl_easy_init) always.
Proof using init_fresh.
  intros ctx params L w Hi Hroom _. unfold wp, Native_HttpNew, nbind, acquire_curl.
  destruct (AcquireCurl _ _) as [c pool] eqn:Ea. destruct (acquire_spec w c pool Ea) as (Hnd & Hsub & Hc).
  destruct Hi as [H1 H2 H3 H4 H5 H6 [pl H7]]. pose proof (K_pool _ _ _ _ _ _ H7) as [Hpn Hpf].
  assert (http_ok pl (requests (objects w)) (used_handles_ (hm w)) (g_event_loop w) pool (g_client_handles w)) as H7'
    by (eapply http_pool; [exact H7|by apply Hnd|done]).
  destruct c as [c|]; [|split; try done; by exists pl]. destruct (Hc c eq_refl) as [Hcp Hce].
  unfold new_object. cbn [objects set_curls]. set (p := fresh_addr (objects w)).
  pose proof (fresh_addr_None (objects w)) as Hp. fold p in Hp. unfold CreateHandle. cbn [hm set_objects set_curls].
  destruct (CreateHandle_spec p HANDLE_HTTP_REQUEST (Some ctx) (hm w) (wf_next _ H1) (room_handles _ Hroom)) as (k & Hfree & _ & Hch).
  destruct (wf_Create p HANDLE_HTTP_REQUEST (Some ctx) (hm w) H1 (room_handles _ Hroom)) as (h' & st' & Hc' & Hwf).
  rewrite Hch in Hc'. injection Hc' as <- Est. rewrite Hch. pose proof (hid_range (base_of (next_handle_ (hm w))) k) as [_ Hne].
  set (h := hid _ k) in *. rewrite (proj2 (Z.eqb_neq _ _) Hne). unfold arg. destruct (param params 1) as [v|]; [|done].
  unfold store_request, store_object, nret. cbn [objects set_hm set_objects].
  set (r := set_userdata v (set_handle_id h (new_HttpRequest c ctx))). rewrite insert_insert_eq.
  assert (forall h1 x1, used_handles_ (hm w) !! h1 = Some x1 -> pointer x1 <> p) as Hnp.
  { intros h1 x1 Hx1 Ep. destruct (H2 h1 x1 Hx1) as (o1 & Ho1 & _). rewrite Ep in Ho1. congruence. }
  split; cbn [hm objects nodes set_hm set_objects set_curls used_handles_ g_event_loop curls g_client_handles].
  - by rewrite Est.
  - intros h1 x1. rewrite lookup_insert_Some. intros [[<- <-]|[_ Hx1]]; [exists (OHttpRequest r); by rewrite lookup_insert_eq|].
    destruct (H2 h1 x1 Hx1) as (o1 & Ho1 & Et). exists o1. split; [|done]. rewrite lookup_insert_ne; [done|]. intros Ep. by eapply Hnp.
  - intros h1 h2 x1 x2. rewrite !lookup_insert_Some. intros [[<- <-]|[_ Hx1]] [[<- <-]|[_ Hx2]] Ep; [done| | |by eapply H3].
    + by destruct (Hnp h2 x2 Hx2).
    + by destruct (Hnp h1 x1 Hx1).
  - intros q [o1 Ho1]. destruct (decide (q = p)) as [->|Hqp].
    + eexists h, _. by rewrite lookup_insert_eq.
    + rewrite lookup_insert_ne in Ho1 by done. destruct (H4 q) as (h1 & x1 & Hx1 & Ep); [by exists o1|].
      exists h1, x1. split; [|done]. rewrite lookup_insert_ne; [done|]. intros <-. congruence.
  - intros q o1 [[<- <-]|[_ Hq]]%lookup_insert_Some; [done|by eapply H5].
  - eapply inv_perm; [|exact H6]. by rewrite world_refs_fresh.
  - exists (<[p := Idle]> pl). rewrite requests_insert.
    eapply (http_create _ _ _ _ _ _ _ H7' p r (mkHandle HANDLE_HTTP_REQUEST p (Some ctx) false) c); try done.
    + by rewrite requests_lookup, Hp.
    + intros h1 z Hz. rewrite lookup_insert_ne; [done|]. intros <-. congruence.
    + by rewrite lookup_insert_eq.
    + by apply Hcp.
    + intros p1 r1 Hr1 Ec. destruct Hce as [Hin|Hout]; [by eapply Hpf|]. apply Hout. eapply easy_of_request; [|exact Ec]. by apply requests_Some.
Qed.

Ltac http_step := first
  [ nat_step
  | lazymatch goal with
    | |- wp (if ?c then _ else _) _ _ => destruct c
    | |- wp (match ?x with Some _ => _ | None => _ end) _ _ => destruct x
    | |- wp (store_request _ _) _ _ => apply wp_store_request
    | |- wp (try_cell _) _ _ => apply wp_try_cell; intros ? ?
    end ].

Ltac head_of t := lazymatch t with ?f _ => head_of f | _ => t end.

Ltac http_simple :=
  intros ctx params L w Hi Hroom Hpre; lazymatch goal with |- wp ?t _ _ => let f := head_of t in unfold f end;
  apply (wp_GET_HTTP L); [assumption|assumption|]; intros p r Ho Hp Ht Hc Hg; repeat http_step; try inv_same; try member p r.

Lemma set_body_keeps : keeps Native_SetBody need_length.
Proof.
  intros ctx params L w Hi Hroom Hpre. apply (wp_GET_HTTP L); [done|done|]. intros p r Ho Hp Ht Hc Hg. do 4 nat_step.
  destruct (Z.ltb_spec v0 0); [specialize (Hpre v0 ltac:(done)); lia|]. nat_step. apply wp_local_raw. intros b Hb Hl. nat_step.
  eapply wp_mono; [by apply SetBody_keeps|]. done.
Qed.

Lemma set_body_string_keeps : keeps Native_SetBodyString always.
Proof.
  intros ctx params L w Hi Hroom _. apply (wp_GET_HTTP L); [done|done|]. intros p r Ho Hp Ht Hc Hg. do 5 nat_step.
  eapply wp_mono; [by apply SetBody_keeps|]. done.
Qed.

Lemma set_owner_keeps : keeps Native_SetOwner always.
Proof.
  intros ctx params L w Hi Hroom _. apply (wp_GET_HTTP L); [done|done|]. intros p r Ho Hp Ht Hc Hg. do 2 nat_step.
  destruct (v =? client_index r); [done|]. nat_step. apply wp_upd_clients. nat_step. apply wp_store_request. nat_step. apply wp_upd_clients. nat_step.
  destruct (I_http _ _ Hi) as [pl Hk]. pose proof (proj2 (requests_Some _ _ _) Ho) as Hr.
  apply (Inv_move (FR := FR) (FR' := FR) L L w _ p r (set_client_index v r)); try done. exists pl. by apply http_owner.
Qed.

Lemma pool_stats_keeps : keeps Native_GetHttpPoolStats always.
Proof.
  intros ctx params L w Hi Hroom _. unfold Native_GetHttpPoolStats. repeat http_step; try done.
  unfold wp. cbv zeta. set (e := g_event_loop w). clearbody e. change (wp (nbind (local_write v [stats_active e])
    (fun _ => nbind (local_write v0 [stats_pending e]) (fun _ => nbind (local_write v1 [stats_completed e])
    (fun _ => nbind (local_write v2 [stats_retries e]) (fun _ => nret 0))))) (fun _ => Inv L) w). nat_solve.
Qed.

Lemma retry_count_keeps : keeps Native_GetRetryCount always.
Proof. intros ctx params L w Hi Hroom _. unfold Native_GetRetryCount. nat_step. nat_step. nat_step. eapply wp_GetHttpRequest; [exact Hi|done|]. done. Qed.

Lemma log_level_keeps : keeps Native_SetLogLevel always.
Proof. intros ctx params L w Hi Hroom _. unfold Native_SetLogLevel. do 2 nat_step. unfold wp. inv_same. Qed.

(** What each native needs. *)
Inductive http_need := NothingNeeded | NotRunning | PositiveLength | JsonHandle | Trees.

Definition http_need_of (name : String.string) : http_need :=
  if bool_decide (name ∈ ["async2_HttpClose"; "async2_HttpExecute"]%string) then NotRunning
  else if bool_decide (name = "async2_SetBody"%string) then PositiveLength
  else if bool_decide (name ∈ ["async2_SetBodyJSON"; "async2_SetBodyMsgPack"]%string) then JsonHandle
  else if bool_decide (name = "async2_MsgPackSerialize"%string) then Trees
  else NothingNeeded.

Definition http_meaning (n : http_need) : list Z -> world -> Prop :=
  match n with
  | NothingNeeded => always | NotRunning => not_running | PositiveLength => need_length | JsonHandle => need_json | Trees => need_trees
  end.

Definition http_needs (name : String.string) : list Z -> world -> Prop := http_meaning (http_need_of name).

Ltac http_entry := cbn [fst snd]; lazymatch goal with |- keeps _ (http_needs ?s) =>
  let k := eval vm_compute in (http_need_of s) in change (http_needs s) with (http_meaning k); cbn [http_meaning] end.

Lemma http_table_keeps : Forall (fun e => keeps e.2 (http_needs e.1)) (g_HttpNatives curl_easy_init).
Proof using init_fresh.
  unfold g_HttpNatives. repeat (apply Forall_cons; split); [..|by apply Forall_nil]; http_entry;
    first [exact http_new_keeps|exact http_close_keeps|exact http_execute_keeps|exact set_body_keeps|exact set_body_string_keeps
          |exact (set_body_node_keeps JSON (str "application/json"))|exact set_owner_keeps|exact pool_stats_keeps|exact retry_count_keeps
          |exact log_level_keeps|idtac].
  all: http_simple.
  all: destruct (is_true _); member p r.
Qed.

(** ** MessagePack *)

Lemma parse_msgpack_wp ctx L body w : Inv L w -> room w -> Forall is_byte body -> len body + 2 ^ 32 <= 2 ^ 64 ->
  wp (nbind (wr' (ParseMsgPack (g_max_container_elements w) body)) (fun parsed => wrap_new ctx parsed)) (fun _ => Inv L) w.
Proof.
  intros Hi Hroom Hb Hl. nat_step. apply wp_wr'.
  destruct (ParseMsgPack_inv (g_max_container_elements w) body (nodes w) _ Hl Hb (I_heap _ _ Hi)) as (r & s & -> & Hs).
  exists r, s. split; [done|]. apply (wp_wrap_new L ctx r); [|apply (room_handles _ Hroom)].
  apply (Inv_nodes L); [done|]. eapply inv_perm; [|exact Hs]. rewrite !app_assoc. apply Permutation_app_tail, Permutation_app_comm.
Qed.

(** A computation that reads the world it starts in. *)
Lemma wp_self {A} (f : world -> Natives.N A) (R : A -> world -> Prop) w : wp (f w) R w -> wp (fun w => f w w) R w.
Proof. done. Qed.

Lemma msgpack_parse_keeps : keeps Native_MsgPackParse always.
Proof.
  intros ctx params L w Hi Hroom _. unfold Native_MsgPackParse. nat_step. nat_step. nat_step.
  eapply wp_GetHttpRequest; [exact Hi|done|]. intros p r x Ho _ _ _. destruct (in_event_thread r); [done|].
  destruct (Inv_body L w p r Hi Ho) as [Hb Hl]. destruct (response_body r) as [|b body]; [done|].
  apply (wp_self (fun w => nbind (wr' (ParseMsgPack (g_max_container_elements w) (b :: body))) (fun parsed => wrap_new ctx parsed))).
  by apply parse_msgpack_wp.
Qed.

Lemma msgpack_buffer_keeps : keeps Native_MsgPackParseBuffer always.
Proof.
  intros ctx params L w Hi Hroom _. unfold Native_MsgPackParseBuffer. do 3 http_step. http_step. http_step; [|done]. do 2 nat_step.
  destruct (Z.leb_spec v0 0); [done|]. nat_step. apply wp_local_raw. intros b Hb Hl.
  assert (len b + 2 ^ 32 <= 2 ^ 64) as Hfit.
  { assert (s_range 32 v0) as Hr by (by eapply param_range). unfold len, s_range in *. lia. }
  apply (wp_self (fun w => nbind (wr' (ParseMsgPack (g_max_container_elements w) b)) (fun parsed => wrap_new ctx parsed))).
  by apply parse_msgpack_wp.
Qed.

Lemma msgpack_serialize_keeps : keeps Native_MsgPackSerialize need_trees.
Proof.
  intros ctx params L w Hi Hroom Ha. unfold Native_MsgPackSerialize. do 3 nat_step. eapply wp_GetDataHandle; [exact Hi|done|].
  intros n Hn Hheld. nat_step. destruct (node_value_of L w n Hi Hheld Ha) as [u Hu].
  apply wp_rd. exists (MsgPackSerialize u). split; [unfold SerializeMsgPack; by rewrite (node_value_repr _ _ _ Hu)|].
  repeat http_step; inv_same.
Qed.

Lemma max_elements_keeps : keeps Native_MsgPackSetMaxElements always.
Proof. intros ctx params L w Hi Hroom _. unfold Native_MsgPackSetMaxElements. do 2 nat_step. unfold wp. inv_same. Qed.

Lemma msgpack_table_keeps : Forall (fun e => keeps e.2 (http_needs e.1)) g_MsgPackNatives.
Proof.
  unfold g_MsgPackNatives. repeat (apply Forall_cons; split); [..|by apply Forall_nil]; http_entry;
    first [exact msgpack_parse_keeps|exact msgpack_buffer_keeps|exact msgpack_serialize_keeps|exact max_elements_keeps
          |exact (set_body_node_keeps MSGPACK (str "application/msgpack"))|by intros ? ? ? ? ? ? ?].
Qed.

End Natives.
