(* ===== verification/NativesText.v ===== *)
(** * [src/natives_crypto.cpp], [natives_url.cpp], [natives_utils.cpp], [natives_hjson.cpp]

    The natives that turn strings into strings, parse and build query strings,
    parse Hjson, tell the time and move handles between plugins.  OpenSSL, zlib,
    libcurl, SourceMod and the operating system are parameters. *)

From stdpp Require Import base numbers list gmap.
From Stdlib Require Import ZArith Lia.
From S2P Require Import Clock LinkedList LockedQueue MsgPack Prelude HandleManager NodePool DataMap DataValue Float Text DataNode HeaderMap HttpRequest EventLoop HttpState DataRefcount DataCopy JsonText JsonParse DataBuild HjsonScan Hjson HjsonNodes DataHandle DataIterator Natives NativesJson NativesHttp.

(** What the natives get from outside.  [curl_escape] and [curl_unescape] are
    libcurl's functions on a given range of bytes. *)
Record Env := mkEnv {
  EVP_EncodeBlock : bytes -> bytes * Z;               (* written to the output, return value *)
  EVP_DecodeBlock : bytes -> bytes * Z;
  digest : bytes -> bytes -> option bytes;            (* algorithm, data *)
  hmac : bytes -> bytes -> bytes -> option bytes;     (* algorithm, key, data *)
  crc32 : bytes -> Z;
  curl_escape : bytes -> option bytes;
  curl_unescape : bytes -> option bytes;
  clock_monotonic : Z;
  clock_realtime : Z;
  resident_set_memory : option Z;
  statm_pages : option Z;
  page_size : Z;
  PluginFromHandle : Z -> option positive
}.

(** ** Hexadecimal digits *)

Definition hex_chars : bytes := str "0123456789abcdef".
Definition hex_char (d : Z) : byte := nth (Z.to_nat d) hex_chars 0.

(** [hex_chars[(b >> 4) & 0xf], hex_chars[b & 0xf]] *)
Definition hex_pair (b : byte) : bytes := [hex_char (Z.land (Z.shiftr b 4) 0xf); hex_char (Z.land b 0xf)].
Definition hex_bytes (data : bytes) : bytes := concat (hex_pair <$> data).

Definition hex_digit (c : byte) : option Z :=
  if (48 <=? c) && (c <=? 57) then Some (c - 48)
  else if (97 <=? c) && (c <=? 102) then Some (c - 97 + 10)
  else if (65 <=? c) && (c <=? 70) then Some (c - 65 + 10)
  else None.

(** One turn of the loop of [Native_HexDecode]. *)
Definition hex_value (pair : bytes) : option byte :=
  match pair with
  | [a; b] => let? hi := hex_digit a in let? lo := hex_digit b in Some (Z.lor (Z.shiftl hi 4) lo)
  | _ => None
  end.

(** ** Query strings *)

(** A [string_view]: the C string its pointer points at, and its length. *)
Record view := mkView { view_at : bytes; view_size : nat }.

Definition view_bytes (v : view) : bytes := take (view_size v) (view_at v).

Fixpoint index_of (c : byte) (s : bytes) : option nat :=
  match s with [] => None | x :: s => if x =? c then Some O else S <$> index_of c s end.

Definition ends_brackets (s : bytes) : bool := bool_decide (drop (length s - 2) s = str "[]").

Section Query.

Context (env : Env).

(** [curl_easy_unescape(nullptr, string, length, &len)]: a length of 0 means
    [strlen(string)]. *)
Definition curl_easy_unescape (v : view) : option bytes :=
  if (view_size v =? 0)%nat then curl_unescape env (view_at v) else curl_unescape env (view_bytes v).

(** One pair, starting at the pointer: the key, and the value, whose pointer is
    null when there is no [=]. *)
Definition split_pair (pair : view) : view * option view :=
  match index_of 61 (view_bytes pair) with
  | None => (pair, None)
  | Some eq => (mkView (view_at pair) eq, Some (mkView (drop (S eq) (view_at pair)) (view_size pair - S eq)))
  end.

(** What the loop body of [QueryStringParse] stores for a pair: nothing, or a
    key and a value.  [curl_easy_unescape] of a null pointer is null. *)
Definition decode_pair (pair : view) : option (bytes * bytes) :=
  if (view_size pair =? 0)%nat then None else
  let '(raw_key, raw_val) := split_pair pair in
  if (view_size raw_key =? 0)%nat then None else
  let raw_key := if (2 <=? view_size raw_key)%nat && ends_brackets (view_bytes raw_key)
                 then mkView (view_at raw_key) (view_size raw_key - 2) else raw_key in
  let? dec_key := curl_easy_unescape raw_key in
  let? raw_val := raw_val in
  let? dec_val := curl_easy_unescape raw_val in
  Some (cstr dec_key, dec_val).

(** The loop over the pairs; a turn consumes at least one byte. *)
Fixpoint query_loop (fuel : nat) (qs : bytes) : list (bytes * bytes) :=
  match fuel, qs with
  | S fuel, _ :: _ =>
      let amp := match index_of 38 qs with Some i => i | None => length qs end in
      option_list (decode_pair (mkView qs amp)) ++ query_loop fuel (drop (S amp) qs)
  | _, _ => []
  end.

(** The pairs of a query string, a leading [?] skipped. *)
Definition query_pairs (input : bytes) : list (bytes * bytes) :=
  let qs := match input with c :: qs => if c =? 63 then qs else input | [] => [] end in query_loop (length qs) qs.

(** [curl_easy_escape(nullptr, s.c_str(), static_cast<int>(s.size()))]: null for a
    negative length, [strlen] for 0. *)
Definition curl_easy_escape (s : bytes) : option bytes :=
  let n := sN 32 (Z.of_nat (length s)) in
  if n <? 0 then None else if n =? 0 then curl_escape env (cstr s) else curl_escape env (take (Z.to_nat n) s).

(** [AppendEncoded], the value already as text. *)
Definition AppendEncoded (result enc_key str_val : bytes) : bytes :=
  let result := (match result with [] => [] | _ => result ++ [38] end) ++ enc_key ++ [61] in
  match curl_easy_escape str_val with Some enc_val => result ++ enc_val | None => result end.

(** The loop of [QueryStringBuild] over the entries, each with the texts of its
    values. *)
Definition build_query (entries : list (bytes * list bytes)) : bytes :=
  fold_left (fun result '(key, vals) =>
    match curl_easy_escape key with
    | None => result
    | Some enc_key => fold_left (fun result v => AppendEncoded result enc_key v) vals result
    end) entries [].

End Query.

(** ** The object of a query string *)

Section QueryNodes.

Context {MO : DataMap bytes} {MI : DataMap Z} {P : Type} {PA : NodeAllocator P}.

#[local] Notation heap := (store (P := P)).

(** The second value of a key: the first one moves into a new array.  The map
    entry is nulled before [ObjInsert], which then has nothing to release. *)
Definition promote (node : loc) (m : dm bytes loc) (old : loc) (key val : bytes) (st : heap) : option heap :=
  let? (arr, st) := MakeArray st in
  let? st := push_back arr old st in
  let? (e, st) := MakeString val st in
  let? st := push_back arr e st in
  let? st := bump node st in
  set_pay node (PObject (dm_set key arr m)) st.

(** One decoded pair goes into the object. *)
Definition query_put (node : loc) (kv : bytes * bytes) (st : heap) : option heap :=
  let '(key, val) := kv in
  let? p := deref node st in
  match p with
  | PObject m =>
      match dm_map m !! key with
      | Some existing =>
          let? q := deref existing st in
          if is_arr q then let? (e, st) := MakeString val st in push_back existing e st
          else promote node m existing key val st
      | None => SetString (Some node) key val st
      end
  | _ => None
  end.

Definition query_object (env : Env) (input : bytes) (st : heap) : option (option loc * heap) :=
  let? (json, st) := DataHandle.CreateObject st in
  match json with
  | None => None
  | Some node => let? st := foldM (query_put node) (query_pairs env input) st in Some (Some node, st)
  end.

Definition NodeToString (p : payload) : bytes :=
  match p with
  | PString s => s
  | PInt z => dec z
  | PFloat f => fmt_g 6 f
  | PBool b => if b then str "true" else str "false"
  | _ => []
  end.

(** The texts of a member: one per element of an array. *)
Definition value_texts (val : loc) (st : heap) : option (list bytes) :=
  let? p := deref val st in
  match p with
  | PArray a => mapM (fun elem => NodeToString <$> deref elem st) a
  | p => Some [NodeToString p]
  end.

Definition query_entries (m : dm bytes loc) (st : heap) : option (list (bytes * list bytes)) :=
  mapM (fun e => pair e.1 <$> value_texts e.2 st) (dm_list m).

End QueryNodes.

(** ** The natives *)

Section TextNatives.

Context {MO : DataMap bytes} {MI : DataMap Z} {P : Type} {PA : NodeAllocator P} {M : Type} {PC : PluginContext M}.
Context (env : Env) (no_simd has_avx2 : bool) (read_file : bytes -> option (Z * bytes)).

#[local] Notation N := (N (P := P) (M := M)).
#[local] Notation world := (world (P := P) (M := M)).
#[local] Notation native := (native (P := P) (M := M)).
#[local] Notation "x <- m ;; k" := (nbind m (fun x => k)) (at level 100, m at next level, right associativity).
#[local] Notation "m ;;; k" := (nbind m (fun _ => k)) (at level 100, right associativity).

(** The result of an [int] operation; overflow is undefined. *)
Definition int_of (z : Z) : N Z := fun w => if (- 2 ^ 31 <=? z) && (z <? 2 ^ 31) then Done z w else UB.

Definition strlen_int (s : bytes) : Z := cell (Z.of_nat (length s)).

(** [memcpy(output, s, n)], the size an [int]. *)
Definition copy_out (addr : Z) (s : bytes) (n : Z) : N unit :=
  if n <? 0 then (fun _ => UB) else local_write_bytes addr (take (Z.to_nat n) s).

(** *** URLs *)

Definition Native_UrlEncode : native := fun pContext params =>
  a <- arg params 1;; input <- local_string a;; b <- arg params 2;; _ <- local_string b;; maxlen <- arg params 3;;
  match curl_escape env input with
  | None => nret 0
  | Some encoded =>
      let len := strlen_int encoded in
      if len >=? maxlen then nret (-1) else copy_out b (encoded ++ [0]) (len + 1);;; nret len
  end.

Definition Native_UrlDecode : native := fun pContext params =>
  a <- arg params 1;; input <- local_string a;; b <- arg params 2;; _ <- local_string b;; maxlen <- arg params 3;;
  match curl_unescape env input with
  | None => nret 0
  | Some decoded =>
      let decoded_len := strlen_int decoded in
      if decoded_len >=? maxlen then nret (-1) else
      copy_out b decoded decoded_len;;; local_write_bytes (b + decoded_len) [0];;; nret decoded_len
  end.

Definition Native_QueryStringParse : native := fun pContext params =>
  a <- arg params 1;; input <- local_string a;;
  json <- wr' (query_object env input);; make_handle pContext (ODataHandle json).

Definition Native_QueryStringBuild : native := fun pContext params =>
  h <- arg params 1;; json <- GetDataHandle h;;
  match json with
  | None => nret (-1)
  | Some node =>
      node <- nonnull node;; p <- rd (deref node);;
      match p with
      | PObject m =>
          b <- arg params 2;; _ <- local_string b;; maxlen <- arg params 3;;
          if maxlen <=? 0 then nret (-1) else
          entries <- rd (query_entries m);;
          let result := build_query env entries in
          if Z.of_nat (length result) >=? maxlen then nret (-1) else
          local_write_bytes b (result ++ [0]);;; nret (cell (Z.of_nat (length result)))
      | _ => nret (-1)
      end
  end.

Definition g_UrlNatives : list (String.string * native) := [
  ("async2_UrlEncode"%string, Native_UrlEncode);
  ("async2_UrlDecode"%string, Native_UrlDecode);
  ("async2_QueryStringParse"%string, Native_QueryStringParse);
  ("async2_QueryStringBuild"%string, Native_QueryStringBuild)].

(** *** Encodings and digests (the OpenSSL branch) *)

Definition Native_Base64Encode : native := fun pContext params =>
  a <- arg params 1;; _ <- local_string a;; input_length <- arg params 2;;
  if input_length <=? 0 then nret 0 else
  b <- arg params 3;; _ <- local_string b;; maxlen <- arg params 4;;
  t <- int_of (input_length + 2);; t <- int_of (4 * (t / 3));; needed <- int_of (t + 1);;
  if maxlen <? needed then nret 0 else
  data <- local_raw a (Z.to_nat input_length);;
  let '(out, written) := EVP_EncodeBlock env data in
  local_write_bytes b out;;;
  if written <? 0 then nret 0 else local_write_bytes (b + written) [0];;; nret written.

Definition Native_Base64Decode : native := fun pContext params =>
  a <- arg params 1;; input <- local_string a;; b <- arg params 2;; _ <- local_string b;; maxlen <- arg params 3;;
  let input_length := strlen_int input in
  if input_length =? 0 then nret 0 else
  max_decoded <- int_of (3 * Z.quot input_length 4);; needed <- int_of (max_decoded + 1);;
  if maxlen <? needed then nret (-1) else
  let '(out, decoded) := EVP_DecodeBlock env input in
  local_write_bytes b out;;;
  if decoded <? 0 then nret (-1) else
  let pad i d := if (input_length >=? i) && bool_decide (input !! Z.to_nat (input_length - i) = Some 61) then d - 1 else d in
  let decoded := pad 2 (pad 1 decoded) in
  if decoded <? 0 then nret (-1) else local_write_bytes (b + decoded) [0];;; nret decoded.

(** [ComputeHash], after the digest is made; also the end of [HMAC]. *)
Definition write_digest (digest : option bytes) (b maxlen : Z) : N Z :=
  match digest with
  | None => nret 0
  | Some d =>
      let needed := cell (Z.of_nat (length d) * 2 + 1) in
      if maxlen <? needed then nret 0 else local_write_bytes b (hex_bytes d ++ [0]);;; nret 1
  end.

Definition HashNative (params : list Z) (md : bytes) : N Z :=
  a <- arg params 1;; _ <- local_string a;; length <- arg params 2;;
  if length <? 0 then nret 0 else
  b <- arg params 3;; _ <- local_string b;; maxlen <- arg params 4;;
  data <- local_raw a (Z.to_nat length);; write_digest (digest env md data) b maxlen.

Definition Native_SHA256 : native := fun pContext params => HashNative params (str "sha256").
Definition Native_SHA1 : native := fun pContext params => HashNative params (str "sha1").
Definition Native_MD5 : native := fun pContext params => HashNative params (str "md5").

Definition Native_HMAC : native := fun pContext params =>
  a1 <- arg params 1;; algo <- local_string a1;; a2 <- arg params 2;; _ <- local_string a2;; key_len <- arg params 3;;
  a4 <- arg params 4;; _ <- local_string a4;; input_len <- arg params 5;;
  b <- arg params 6;; _ <- local_string b;; maxlen <- arg params 7;;
  if (key_len <? 0) || (input_len <? 0) then nret 0 else
  key <- local_raw a2 (Z.to_nat key_len);; input <- local_raw a4 (Z.to_nat input_len);;
  write_digest (hmac env algo key input) b maxlen.

(** The loops work on the plugin's memory: the buffers may be the same. *)
Fixpoint hex_encode_loop (data output : Z) (n : nat) : N unit :=
  match n with
  | O => nret tt
  | S n => c <- local_raw data 1;; local_write_bytes output (hex_bytes c);;; hex_encode_loop (data + 1) (output + 2) n
  end.

Definition Native_HexEncode : native := fun pContext params =>
  a <- arg params 1;; _ <- local_string a;; length <- arg params 2;;
  if length <=? 0 then nret 0 else
  b <- arg params 3;; _ <- local_string b;; maxlen <- arg params 4;;
  if length >? (INT_MAX - 1) / 2 then nret 0 else
  t <- int_of (length * 2);; needed <- int_of (t + 1);;
  if maxlen <? needed then nret 0 else
  hex_encode_loop a b (Z.to_nat length);;; local_write_bytes (b + t) [0];;; nret t.

(** [false]: a character that is no digit. *)
Fixpoint hex_decode_loop (input output : Z) (n : nat) : N bool :=
  match n with
  | O => nret true
  | S n =>
      c <- local_raw input 2;;
      match hex_value c with
      | None => nret false
      | Some v => local_write_bytes output [v];;; hex_decode_loop (input + 2) (output + 1) n
      end
  end.

Definition Native_HexDecode : native := fun pContext params =>
  a <- arg params 1;; input <- local_string a;; b <- arg params 2;; _ <- local_string b;; maxlen <- arg params 3;;
  let input_len := strlen_int input in
  if input_len =? 0 then nret 0 else
  if negb (Z.rem input_len 2 =? 0) then nret (-1) else
  let decoded_len := Z.quot input_len 2 in
  needed <- int_of (decoded_len + 1);;
  if maxlen <? needed then nret (-1) else
  ok <- hex_decode_loop a b (Z.to_nat decoded_len);;
  if ok : bool then local_write_bytes (b + decoded_len) [0];;; nret decoded_len else nret (-1).

Definition Native_CRC32 : native := fun pContext params =>
  a <- arg params 1;; _ <- local_string a;; length <- arg params 2;;
  if length <? 0 then nret 0 else data <- local_raw a (Z.to_nat length);; nret (cell (crc32 env data)).

Definition g_CryptoNatives : list (String.string * native) := [
  ("async2_Base64Encode"%string, Native_Base64Encode);
  ("async2_Base64Decode"%string, Native_Base64Decode);
  ("async2_SHA256"%string, Native_SHA256);
  ("async2_SHA1"%string, Native_SHA1);
  ("async2_MD5"%string, Native_MD5);
  ("async2_CRC32"%string, Native_CRC32);
  ("async2_HMAC"%string, Native_HMAC);
  ("async2_HexEncode"%string, Native_HexEncode);
  ("async2_HexDecode"%string, Native_HexDecode)].

(** *** Utilities *)

Definition g_async2_api_version : Z := 11.
Definition Native_GetVersion : native := fun pContext params => nret g_async2_api_version.

Definition Native_GetTime : native := fun pContext params =>
  a <- arg params 1;; (fun w =>
    let '(ms, c) := GetAnchoredTimeMs (clock_monotonic env) (clock_realtime env) (g_clock w) in
    (local_write a (WriteInt64 ms);;; nret 0) (set_clock c w)).

Definition Native_GetRss : native := fun pContext params =>
  match resident_set_memory env with None => nret 0 | Some rss => nret (cell (rss / 1024)) end.

Definition Native_GetVss : native := fun pContext params =>
  match statm_pages env with None => nret 0 | Some pages => nret (cell (uN 64 (pages * (page_size env / 1024)))) end.

Definition Native_GetHandleCount : native := fun pContext params => fun w =>
  Done (cell (Z.of_nat (size (used_handles_ (hm w))))) w.

Definition transfer_handle (h : Z) (target : option positive) : N Z := fun w =>
  let '(ok, m) := TransferHandle h target (hm w) in Done (if ok then 1 else 0) (set_hm m w).

Definition Native_SetHandlePlugin : native := fun pContext params =>
  n <- arg params 0;; plugin <- (if n >=? 2 then arg params 2 else nret 0);; h <- arg params 1;;
  if plugin =? 0 then fun w =>
    match used_handles_ (hm w) !! h with
    | Some x => if decide (type x = HANDLE_HTTP_REQUEST) then transfer_handle h None w else Done 0 w
    | None => Done 0 w
    end
  else match PluginFromHandle env plugin with None => nret 0 | Some target => transfer_handle h (Some target) end.

Definition g_UtilsNatives : list (String.string * native) := [
  ("async2_GetVersion"%string, Native_GetVersion);
  ("async2_GetTime"%string, Native_GetTime);
  ("async2_GetRss"%string, Native_GetRss);
  ("async2_GetVss"%string, Native_GetVss);
  ("async2_GetHandleCount"%string, Native_GetHandleCount);
  ("async2_SetHandlePlugin"%string, Native_SetHandlePlugin)].

(** *** Hjson *)

Definition Native_HjsonParseString : native := fun pContext params =>
  a <- arg params 1;; str <- local_string a;;
  parsed <- wr' (ParseHjson (init_scanner no_simd has_avx2) str);; wrap_new pContext parsed.

Definition Native_HjsonParseFile : native := fun pContext params =>
  a <- arg params 1;; path <- local_string a;;
  match read_file path with
  | None => nret 0
  | Some (size, buf) =>
      if (size <=? 0) || (size >? 64 * 1024 * 1024) then nret 0 else
      if negb (Z.of_nat (length buf) =? size) then nret 0 else
      parsed <- wr' (ParseHjson (init_scanner no_simd has_avx2) buf);; wrap_new pContext parsed
  end.

Definition g_HjsonNatives : list (String.string * native) := [
  ("async2_HjsonParseString"%string, Native_HjsonParseString);
  ("async2_HjsonParseFile"%string, Native_HjsonParseFile)].

End TextNatives.
