(* ===== verification/QueryNodes.v ===== *)
(** * The object [QueryStringParse] makes

    Each key of the decoded pairs is a member: a string when the key occurs
    once, an array of the values in their order when it occurs more often. *)

From stdpp Require Import base numbers list gmap.
From Stdlib Require Import ZArith Lia.
From S2P Require Import Clock LinkedList LockedQueue MsgPack Prelude HandleManager NodePool DataMap DataValue Float Text DataNode HeaderMap HttpRequest EventLoop HttpState DataRefcount DataCopy JsonText JsonParse DataBuild HjsonScan Hjson HjsonNodes DataHandle DataIterator Natives NativesJson NativesHttp NativesText.

Section QueryNodes.

Context {MO : DataMap bytes} {MI : DataMap Z} {P : Type} {PA : NodeAllocator P}.

#[local] Notation heap := (store (P := P)).
Implicit Types (st : heap).

(** The values of a key, in order. *)
Definition values_of (key : bytes) (pairs : list (bytes * bytes)) : list bytes := (filter (fun e => e.1 = key) pairs).*2.

Definition is_string (st : heap) (x : loc) (v : bytes) : Prop := deref x st = Some (PString (cstr v)).

Definition member_ok (st : heap) (vs : list bytes) (x : option loc) : Prop :=
  match vs, x with
  | [], None => True
  | [v], Some x => is_string st x v
  | _ :: _ :: _, Some x => exists xs, deref x st = Some (PArray xs) /\ Forall2 (is_string st) xs vs
  | _, _ => False
  end.

(** The node is an object that holds the pairs; no two keys share a node. *)
Record holds_pairs (node : loc) (pairs : list (bytes * bytes)) (m : dm bytes loc) (st : heap) : Prop := {
  q_object : deref node st = Some (PObject m);
  q_member : forall key, member_ok st (values_of key pairs) (dm_map m !! key);
  q_apart : forall k k' x, dm_map m !! k = Some x -> dm_map m !! k' = Some x -> k = k'
}.

Lemma values_app key pairs kv : values_of key (pairs ++ [kv]) = values_of key pairs ++ (if decide (kv.1 = key) then [kv.2] else []).
Proof. unfold values_of. rewrite filter_app, fmap_app. f_equal. rewrite filter_cons. by case_decide. Qed.

Lemma member_mono st st' vs o : member_ok st vs o ->
  (forall y v, is_string st y v -> is_string st' y v) ->
  (forall x xs, o = Some x -> deref x st = Some (PArray xs) -> deref x st' = Some (PArray xs)) -> member_ok st' vs o.
Proof.
  intros H Hs Ha. destruct vs as [|v [|v' vs]], o as [x|]; try done; cbn in *; [by apply Hs|].
  destruct H as (xs & Hx & HF). exists xs. split; [by apply Ha|]. eapply Forall2_impl; [exact HF|]. auto.
Qed.

Lemma Make_new st ext p : inv st ext -> children p = [] ->
  exists l pl, a_alloc (pool st) = Some (l, pl) /\ cells st !! l = None /\ inv (mkStore (<[l := mkNode 0 1 p]> (cells st)) pl) (l :: ext).
Proof.
  intros Hi Hp. destruct (Make_inv st ext p Hi Hp) as (l & st' & Hm & Hi' & Hl & Ec). unfold Make in Hm.
  destruct (a_alloc (pool st)) as [[l' pl]|]; [|done]. injection Hm as -> <-. by exists l, pl.
Qed.

Lemma deref_Some x st p : deref x st = Some p <-> exists c, cells st !! x = Some c /\ pay c = p.
Proof. unfold deref. destruct (cells st !! x) as [c|]; naive_solver. Qed.

(** Replacing a payload by a whole cell. *)
Lemma inv_put st ext ext' n c c' pl : inv st ext -> cells st !! n = Some c -> version c' = version c \/ version c' = uN 24 (version c + 1) ->
  refcount c' = refcount c -> children (pay c') ++ ext' ≡ₚ children (pay c) ++ ext -> pl = pool st -> inv (mkStore (<[n := c']> (cells st)) pl) ext'.
Proof.
  intros Hi Hc Hv Hr Hp ->. pose proof (inv_swap st ext ext' n c (pay c') Hi Hc Hp) as Hs.
  assert (cells (swap n (pay c') st) !! n = Some (with_pay (pay c') c)) as Hn by (cbn; by rewrite lookup_alter_eq, Hc).
  assert (cells (swap n (pay c') st) = <[n := with_pay (pay c') c]> (cells st)) as Ec.
  { cbn. apply map_eq. intros i. destruct (decide (i = n)) as [->|Hne]; [by rewrite lookup_alter_eq, Hc, lookup_insert_eq|].
    by rewrite lookup_alter_ne, lookup_insert_ne. }
  destruct c' as [v' r' p']. cbn in *. destruct Hv as [->| ->]; subst r'.
  - replace (mkStore (<[n := mkNode (version c) (refcount c) p']> (cells st)) (pool st)) with (swap n p' st); [done|].
    unfold swap in *. f_equal. exact Ec.
  - destruct (bump_inv _ _ n _ Hs Hn) as (s1 & c1 & Hb & Hi1 & _ & _ & E1). unfold bump in Hb. cbn [cells swap] in Hb. rewrite Hn in Hb. injection Hb as <-.
    unfold put in Hi1. cbn [cells pool with_pay version refcount pay swap] in Hi1. cbn [cells swap] in Ec. rewrite Ec, insert_insert_eq in Hi1. exact Hi1.
Qed.

Section Put.

Context (st : heap) (ext : list loc) (node : loc) (pairs : list (bytes * bytes)) (m : dm bytes loc) (key val : bytes).
Context (Hi : inv st ext) (HQ : holds_pairs node pairs m st).

(** Nodes that are strings keep their contents when other nodes change. *)
Lemma strings_kept st' : (forall y, deref y st' = deref y st \/ (forall s, deref y st <> Some (PString s))) ->
  forall y v, is_string st y v -> is_string st' y v.
Proof. intros H y v Hy. unfold is_string in *. destruct (H y) as [->|Hn]; [done|]. by destruct (Hn _ Hy). Qed.

Lemma member_live k x : dm_map m !! k = Some x -> is_Some (cells st !! x) /\ x <> node.
Proof using HQ.
  intros Hx. destruct HQ as [Ho Hm _]. specialize (Hm k). rewrite Hx in Hm.
  destruct (values_of k pairs) as [|v [|v' vs]]; cbn in Hm; [done| |destruct Hm as (xs & Hm & _)];
    (split; [apply deref_Some in Hm as (c & Hc & _); by exists c|intros ->; unfold is_string in Hm; congruence]).
Qed.

(** What a step that touches the object and new nodes leaves to show. *)
Lemma other_members st' (new : list loc) : (forall y, y ∈ new -> cells st !! y = None) ->
  (forall y, y <> node -> y ∉ new -> deref y st' = deref y st) -> forall k, member_ok st' (values_of k pairs) (dm_map m !! k).
Proof using HQ.
  intros Hnew Hd k. destruct HQ as [Ho Hm _]. eapply member_mono; [apply Hm| |].
  - apply strings_kept. intros y. destruct (decide (y = node)) as [->|Hyn]; [right; rewrite Ho; done|].
    destruct (decide (y ∈ new)) as [Hy|Hy]; [right; intros s; unfold deref; by rewrite Hnew|]. left. by apply Hd.
  - intros x xs Hx Hp. destruct (member_live k x Hx) as [[c Hc] Hxn]. rewrite <- Hp. apply Hd; [done|]. intros Hy. rewrite (Hnew x Hy) in Hc. done.
Qed.

Lemma set_apart y : (forall k x, dm_map m !! k = Some x -> x <> y) ->
  forall k k' x, dm_map (dm_set key y m) !! k = Some x -> dm_map (dm_set key y m) !! k' = Some x -> k = k'.
Proof using HQ.
  intros Hy k k' x. rewrite dm_set_map, !lookup_insert_Some. intros [[E1 E2]|[Hk1 H1]] [[E3 E4]|[Hk2 H2]]; [congruence| | |by eapply (q_apart _ _ _ _ HQ)].
  - by destruct (Hy k' x H2).
  - by destruct (Hy k x H1).
Qed.

Lemma new_apart y : cells st !! y = None -> forall k x, dm_map m !! k = Some x -> x <> y.
Proof using HQ. intros Hy k x Hx ->. destruct (member_live k y Hx) as [[c Hc] _]. congruence. Qed.

Definition put_spec : Prop :=
  exists st' m', query_put node (key, val) st = Some st' /\ inv st' ext /\ holds_pairs node (pairs ++ [(key, val)]) m' st'.

Lemma put_none : dm_map m !! key = None -> put_spec.
Proof using Hi HQ.
  intros Hk. pose proof (q_object _ _ _ _ HQ) as Ho. pose proof Ho as (c & Hc & Ep)%deref_Some.
  destruct (Make_new st ext (PString (cstr val)) Hi eq_refl) as (e & pl & Hal & He & Hi1). assert (e <> node) as Hne by congruence.
  unfold put_spec, query_put. rewrite Ho, Hk. cbn. rewrite Ho. cbn. unfold with_new, MakeString, Make. rewrite Hal. unfold ObjInsert, map_insert, bump.
  cbn [cells]. rewrite (lookup_insert_ne _ e node) by done. rewrite Hc. cbn. rewrite Ep. cbn. rewrite Hk. unfold set_pay, put. cbn [cells pool].
  rewrite lookup_insert_eq. cbn. rewrite insert_insert_eq. eexists _, (dm_set key e m). split; [done|].
  set (st' := mkStore _ pl). assert (forall y, y <> node -> y ∉ [e] -> deref y st' = deref y st) as Hd
    by (intros y Hyn [Hye _]%not_elem_of_cons; unfold deref; cbn; by rewrite !lookup_insert_ne by done).
  split; [|split].
  - eapply (inv_put _ (e :: ext) ext node c _ pl Hi1); [by cbn; rewrite lookup_insert_ne|by right|done| |done].
    cbn. rewrite Ep. cbn. rewrite dm_list_set_fresh by done. cbn. by rewrite <- Permutation_middle.
  - unfold deref. cbn. by rewrite lookup_insert_eq.
  - intros k. rewrite dm_set_map, values_app. cbn. destruct (decide (key = k)) as [<-|Hkk].
    + rewrite lookup_insert_eq. pose proof (q_member _ _ _ _ HQ key) as Hm. rewrite Hk in Hm. destruct (values_of key pairs) as [|? [|]]; try done. cbn.
      unfold is_string, deref. cbn. by rewrite lookup_insert_ne, lookup_insert_eq.
    + rewrite lookup_insert_ne, app_nil_r by done. eapply other_members; [|exact Hd]. by intros y ->%list_elem_of_singleton.
  - by apply set_apart, new_apart.
Qed.

(** The values of a key that has several. *)
Lemma put_array x : dm_map m !! key = Some x -> is_arr <$> deref x st = Some true -> put_spec.
Proof using Hi HQ.
  intros Hk Hx. pose proof (q_object _ _ _ _ HQ) as Ho. destruct (member_live key x Hk) as [[c Hc] Hxn].
  pose proof (q_member _ _ _ _ HQ key) as Hm. rewrite Hk in Hm. destruct (values_of key pairs) as [|v [|v' vs]] eqn:Ev; [done| |].
  { cbn in Hm. unfold is_string in Hm. rewrite Hm in Hx. done. }
  cbn in Hm. destruct Hm as (xs & Hm & HF). pose proof Hm as (c' & Hc' & Ep)%deref_Some. rewrite Hc in Hc'. injection Hc' as <-.
  destruct (Make_new st ext (PString (cstr val)) Hi eq_refl) as (e & pl & Hal & He & Hi1). assert (e <> x) as Hex by congruence.
  unfold put_spec, query_put. rewrite Ho, Hk, Hm. cbn. unfold MakeString, Make. rewrite Hal. unfold push_back, set_pay, put.
  cbn [cells pool]. rewrite (lookup_insert_ne _ e x) by done. rewrite Hc, Ep. eexists _, m. split; [done|].
  set (st' := mkStore _ pl). assert (forall y, y <> x -> y <> e -> deref y st' = deref y st) as Hd
    by (intros y Hyn Hye; unfold deref; cbn; by rewrite !lookup_insert_ne by done).
  assert (forall y v, is_string st y v -> is_string st' y v) as Hs.
  { apply strings_kept. intros y. destruct (decide (y = x)) as [->|]; [right; rewrite Hm; done|].
    destruct (decide (y = e)) as [->|]; [right; intros s; unfold deref; by rewrite He|]. left. by apply Hd. }
  split; [|split].
  - eapply (inv_put _ (e :: ext) ext x c _ pl Hi1); [by cbn; rewrite lookup_insert_ne|by left|done| |done].
    cbn. rewrite Ep. cbn. by rewrite <- app_assoc.
  - rewrite Hd; [exact Ho|done|]. intros ->. unfold deref in Ho. by rewrite He in Ho.
  - intros k. rewrite values_app. cbn. destruct (decide (key = k)) as [<-|Hkk].
    + rewrite Hk, Ev. cbn. exists (xs ++ [e]). split; [unfold deref; cbn; by rewrite lookup_insert_eq|].
      change (v :: v' :: vs ++ [val]) with ((v :: v' :: vs) ++ [val]). apply Forall2_app; [by eapply Forall2_impl|]. constructor; [|constructor].
      unfold is_string, deref. cbn. by rewrite lookup_insert_ne, lookup_insert_eq.
    + rewrite app_nil_r. eapply member_mono; [apply (q_member _ _ _ _ HQ)|exact Hs|]. intros y ys Hy Hp. rewrite <- Hp. apply Hd.
      * intros ->. apply Hkk. by eapply (q_apart _ _ _ _ HQ).
      * intros ->. unfold deref in Hp. by rewrite He in Hp.
  - exact (q_apart _ _ _ _ HQ).
Qed.

Lemma put_promote x : dm_map m !! key = Some x -> is_arr <$> deref x st = Some false -> put_spec.
Proof using Hi HQ.
  intros Hk Hx. pose proof (q_object _ _ _ _ HQ) as Ho. pose proof Ho as (c & Hc & Ep)%deref_Some. destruct (member_live key x Hk) as [_ Hxn].
  pose proof (q_member _ _ _ _ HQ key) as Hm. rewrite Hk in Hm. destruct (values_of key pairs) as [|v [|v' vs]] eqn:Ev; [done| |].
  2: { cbn in Hm. destruct Hm as (xs & Hm & _). rewrite Hm in Hx. done. }
  cbn in Hm. destruct (Make_new st ext (PArray []) Hi eq_refl) as (arr & pl1 & Hal1 & Ha & Hi1).
  destruct (Make_new _ _ (PString (cstr val)) Hi1 eq_refl) as (e & pl & Hal & He & Hi2). cbn [cells pool] in *.
  apply lookup_insert_None in He as [He Hae]. assert (arr <> node) as Han by congruence. assert (e <> node) as Hen by congruence.
  assert (query_put node (key, val) st = Some (mkStore (<[node := mkNode (uN 24 (version c + 1)) (refcount c) (PObject (dm_set key arr m))]>
    (<[arr := mkNode 0 1 (PArray [x; e])]> (<[e := mkNode 0 1 (PString (cstr val))]> (cells st)))) pl)) as Hrun.
  { unfold query_put. rewrite Ho, Hk. unfold is_string in Hm. rewrite Hm. cbn. unfold promote, MakeArray, MakeString, Make. rewrite Hal1. cbn.
    unfold push_back at 1. cbn. rewrite lookup_insert_eq. cbn. unfold set_pay at 1. cbn. rewrite lookup_insert_eq. cbn. rewrite Hal.
    unfold push_back. cbn. rewrite lookup_insert_ne, lookup_insert_eq by done. cbn. unfold set_pay at 1. cbn. rewrite lookup_insert_ne, lookup_insert_eq by done.
    cbn. unfold bump, put. cbn. rewrite !lookup_insert_ne, Hc by done. cbn. unfold set_pay. cbn. rewrite lookup_insert_eq. unfold put, with_pay. cbn.
    do 2 f_equal. apply map_eq. intros i. destruct (decide (i = node)) as [->|]; [by rewrite !lookup_insert_eq|].
    destruct (decide (i = arr)) as [->|]; [by rewrite !(lookup_insert_ne _ node), !lookup_insert_eq|]. rewrite !(lookup_insert_ne _ node), !(lookup_insert_ne _ arr) by done.
    destruct (decide (i = e)) as [->|]; [by rewrite !lookup_insert_eq|]. by rewrite !(lookup_insert_ne _ e), !(lookup_insert_ne _ arr). }
  eexists _, (dm_set key arr m). split; [exact Hrun|]. set (st' := mkStore _ pl).
  assert (forall y, y <> node -> y ∉ [arr; e] -> deref y st' = deref y st) as Hd
    by (intros y Hyn [Hya [Hye _]%not_elem_of_cons]%not_elem_of_cons; unfold deref; cbn; by rewrite !lookup_insert_ne by done).
  split; [|split].
  - pose proof (inv_put _ (e :: arr :: ext) (x :: e :: ext) node c (mkNode (uN 24 (version c + 1)) (refcount c) (PObject (dm_set key arr m))) pl Hi2) as Hn.
    cbn [cells pool] in Hn. rewrite !lookup_insert_ne in Hn by done. specialize (Hn Hc (or_intror eq_refl) eq_refl).
    ospecialize (Hn _ eq_refl).
    { cbn. rewrite Ep. cbn. rewrite (dm_list_split key x m) by done. rewrite dm_list_set_over. cbn. solve_Permutation. }
    set (n' := mkNode _ _ (PObject _)) in *.
    assert (<[node := n']> (<[e := mkNode 0 1 (PString (cstr val))]> (<[arr := mkNode 0 1 (PArray [])]> (cells st))) !! arr = Some (mkNode 0 1 (PArray []))) as Harr
      by (by rewrite (lookup_insert_ne _ node), (lookup_insert_ne _ e), lookup_insert_eq).
    pose proof (inv_put _ _ ext arr _ (mkNode 0 1 (PArray [x; e])) pl Hn Harr (or_introl eq_refl) eq_refl ltac:(done) eq_refl) as Hf.
    replace st' with (mkStore (<[arr := mkNode 0 1 (PArray [x; e])]> (cells (mkStore (<[node := n']> (<[e := mkNode 0 1 (PString (cstr val))]>
      (<[arr := mkNode 0 1 (PArray [])]> (cells st)))) pl))) pl); [exact Hf|]. unfold st'. cbn. f_equal.
    rewrite (insert_insert_ne _ arr node), (insert_insert_ne _ arr e), insert_insert_eq by done. by rewrite (insert_insert_ne _ e arr).
  - unfold deref. cbn. by rewrite lookup_insert_eq.
  - intros k. rewrite dm_set_map, values_app. cbn. destruct (decide (key = k)) as [<-|Hkk].
    + rewrite lookup_insert_eq, Ev. cbn. exists [x; e]. split; [unfold deref; cbn; by rewrite lookup_insert_ne, lookup_insert_eq|].
      constructor; [|constructor; [|constructor]].
      * unfold is_string. rewrite Hd; [exact Hm|done|]. rewrite !not_elem_of_cons. unfold is_string, deref in Hm.
        split_and!; [intros ->; by rewrite Ha in Hm|intros ->; by rewrite He in Hm|apply not_elem_of_nil].
      * unfold is_string, deref. cbn. by rewrite (lookup_insert_ne _ node), (lookup_insert_ne _ arr), lookup_insert_eq.
    + rewrite lookup_insert_ne, app_nil_r by done. eapply other_members; [|exact Hd]. by intros y [->|[->|[]%not_elem_of_nil]%elem_of_cons]%elem_of_cons.
  - by apply set_apart, new_apart.
Qed.

Lemma put_holds : put_spec.
Proof using Hi HQ.
  destruct (dm_map m !! key) as [x|] eqn:Hk; [|by apply put_none]. destruct (member_live key x Hk) as [[c Hc] _].
  destruct (is_arr (pay c)) eqn:E; [apply (put_array x)|apply (put_promote x)]; try done; unfold deref; by rewrite Hc; cbn; rewrite E.
Qed.

End Put.

Lemma puts_hold ext node kvs : forall pairs m st, inv st ext -> holds_pairs node pairs m st ->
  exists st' m', foldM (query_put node) kvs st = Some st' /\ inv st' ext /\ holds_pairs node (pairs ++ kvs) m' st'.
Proof.
  induction kvs as [|[k v] kvs IH]; intros pairs m st Hi HQ; [exists st, m; by rewrite app_nil_r|].
  destruct (put_holds st ext node pairs m k v Hi HQ) as (st1 & m1 & H1 & Hi1 & HQ1).
  destruct (IH _ _ _ Hi1 HQ1) as (st2 & m2 & H2 & Hi2 & HQ2). exists st2, m2. cbn [foldM]. rewrite H1. split_and!; [done|done|].
  by rewrite <- app_assoc in HQ2.
Qed.

Lemma query_object_holds env input st ext : inv st ext ->
  exists node m st', query_object env input st = Some (Some node, st') /\ inv st' (node :: ext) /\ holds_pairs node (query_pairs env input) m st'.
Proof.
  intros Hi. assert (children (PObject dm_new) = []) as Hn by (cbn; rewrite (dm_list_nil dm_new); [done|apply dm_new_map]).
  destruct (Make_inv st ext (PObject dm_new) Hi Hn) as (node & st1 & Hm & Hi1 & _ & Ec).
  destruct (puts_hold (node :: ext) node (query_pairs env input) [] dm_new st1 Hi1) as (st2 & m & Hf & Hi2 & HQ).
  { split.
    - unfold deref. by rewrite Ec, lookup_insert_eq.
    - intros k. by rewrite dm_new_map, lookup_empty.
    - intros k k' x. by rewrite dm_new_map, lookup_empty. }
  exists node, m, st2. split_and!; [|done|done]. unfold query_object, DataHandle.CreateObject, MakeObject. rewrite Hm. cbn. by rewrite Hf.
Qed.

(** The serializer reads what [QueryStringBuild] needs. *)
Lemma value_texts_live st ext x c : inv st ext -> cells st !! x = Some c -> is_Some (value_texts x st).
Proof.
  intros Hi Hc. unfold value_texts, deref. rewrite Hc. cbn. destruct (pay c) as [| | | | |a| | |] eqn:Ep; try by eexists.
  apply mapM_is_Some, Forall_forall. intros y Hy. destruct (inv_child_live st ext x c y Hi Hc) as [d Hd]; [by rewrite Ep|]. unfold compose. rewrite Hd. by eexists.
Qed.

Lemma query_entries_live st ext n c m : inv st ext -> cells st !! n = Some c -> pay c = PObject m -> is_Some (query_entries m st).
Proof.
  intros Hi Hc Ep. apply mapM_is_Some, Forall_forall. intros [k x] Hx. cbn.
  destruct (inv_child_live st ext n c x Hi Hc) as [d Hd]; [rewrite Ep; by apply (list_elem_of_fmap_2 snd _ (k, x))|].
  destruct (value_texts_live st ext x d Hi Hd) as [t ->]. by eexists.
Qed.

(** What a query string parses to.  [QueryStringParse] succeeds on every
    input, keeps the reference counts exact, and leaves an object in which a
    key of the decoded pairs ([query_pairs]) has a string when it occurs once
    and an array of its values, in order, when it occurs more than once;
    other keys are absent.  No two members share a node. *)
Theorem query_string_object (env : Env) (input : bytes) (st : heap) (ext : list loc) : inv st ext ->
  exists node m st', query_object env input st = Some (Some node, st') /\ inv st' (node :: ext) /\
    deref node st' = Some (PObject m) /\
    (forall key, member_ok st' (values_of key (query_pairs env input)) (dm_map m !! key)) /\
    (forall k k' x, dm_map m !! k = Some x -> dm_map m !! k' = Some x -> k = k').
Proof.
  intros Hi. destruct (query_object_holds env input st ext Hi) as (node & m & st' & H1 & H2 & [H3 H4 H5]). by exists node, m, st'.
Qed.

End QueryNodes.
