(* ===== verification/NativesTextSafe.v ===== *)
(** * The natives of text, query strings, digests, time and Hjson keep the world consistent *)

From stdpp Require Import base numbers list gmap.
From Stdlib Require Import ZArith Lia.
From S2P Require Import Clock LinkedList LockedQueue MsgPack Prelude HandleManager NodePool DataMap DataValue Float Text DataNode HeaderMap HttpRequest EventLoop HttpState DataRefcount DataCopy JsonText JsonParse DataBuild HjsonScan Hjson HjsonSafe HjsonNodes DataHandle DataIterator Natives NativesJson NativesJsonSafe NativesHttp NativesHttpSafe NativesText QueryNodes.

(** What libcurl documents of the sizes: an escaped byte is at most three, an
    unescaped text is not longer. *)
Record curl_sizes (env : Env) : Prop := {
  escape_size : forall s e, curl_escape env s = Some e -> (length e <= 3 * length s)%nat;
  unescape_size : forall s d, curl_unescape env s = Some d -> (length d <= length s)%nat
}.

Section Safety.

Context {MO : DataMap bytes} {MI : DataMap Z} {P : Type} {PA : NodeAllocator P} {M : Type} {PC : PluginContext M} {FR : Frame}.
Context (env : Env) (no_simd has_avx2 : bool) (read_file : bytes -> option (Z * bytes)) (Henv : curl_sizes env).

#[local] Notation N := (N (P := P) (M := M)).
#[local] Notation world := (world (P := P) (M := M)).
Implicit Types (w : world) (L : list loc).

Definition string_at (a : Z) (s : bytes) w : Prop := LocalToString (memory w) a = Some s.

(** An encoded text longer than an [int] cannot be measured. *)
Definition need_short (params : list Z) w : Prop :=
  forall a s, param params 1 = Some a -> string_at a s w -> 3 * Z.of_nat (length s) < 2 ^ 31.
(** [4 * ((length + 2) / 3) + 1] is an [int]. *)
Definition need_encodable (params : list Z) w : Prop := forall n, param params 2 = Some n -> n <= 1610612733.
(** The Hjson parser throws on some control characters, and nobody catches it. *)
Definition need_plain (params : list Z) w : Prop :=
  forall a s, param params 1 = Some a -> string_at a s w -> Forall plain_byte s.
Definition need_plain_file (params : list Z) w : Prop :=
  forall a s size buf, param params 1 = Some a -> string_at a s w -> read_file s = Some (size, buf) -> Forall is_byte buf /\ Forall plain_byte buf.

Lemma wp_int_of z (R : Z -> world -> Prop) w : - 2 ^ 31 <= z < 2 ^ 31 -> R z w -> wp (int_of z) R w.
Proof. intros Hz HR. unfold wp, int_of. rewrite (proj2 (Z.leb_le _ _)), (proj2 (Z.ltb_lt _ _)) by lia. done. Qed.

Lemma strlen_int_id s : Z.of_nat (length s) < 2 ^ 31 -> strlen_int s = Z.of_nat (length s).
Proof. intros. apply (s_id 32); [lia|]. unfold s_range. cbn. lia. Qed.

(** Natives that only write the plugin's memory. *)
Ltac text_step := first
  [ lazymatch goal with
    | |- wp (local_string _) _ _ => apply wp_local_text; intros ? ? ? ?
    | |- wp (local_raw _ _) _ _ => apply wp_local_raw; intros ? ? ?
    | |- wp (if ?c then _ else _) _ _ => destruct c
    | |- wp (match ?x with Some _ => _ | None => _ end) _ _ => destruct x
    end
  | nat_step ].
Ltac head_of t := lazymatch t with ?f _ => head_of f | _ => t end.
Ltac text_solve := repeat text_step; try inv_same; try done.

Lemma hex_encode_keeps L n : forall data output w, Inv L w -> wp (hex_encode_loop data output n) (fun _ => Inv L) w.
Proof.
  induction n as [|n IH]; intros data output w Hi; [done|]. cbn [hex_encode_loop]. do 4 text_step. apply IH. inv_same.
Qed.

Lemma hex_decode_keeps L n : forall input output w, Inv L w -> wp (hex_decode_loop input output n) (fun _ => Inv L) w.
Proof.
  induction n as [|n IH]; intros input output w Hi; [done|]. cbn [hex_decode_loop]. do 2 text_step.
  destruct (hex_value b) as [v|]; [|done]. do 2 text_step. apply IH. inv_same.
Qed.

Lemma url_encode_keeps : keeps (Native_UrlEncode env) need_short.
Proof using Henv.
  intros ctx params L w Hi Hroom Hpre. unfold Native_UrlEncode. do 10 text_step. destruct (curl_escape env s) as [e|] eqn:E; [|done].
  pose proof (escape_size _ Henv _ _ E). specialize (Hpre _ _ ltac:(done) ltac:(done)). cbv zeta. rewrite strlen_int_id by lia.
  destruct (_ >=? _); [done|]. text_step. unfold copy_out. destruct (Z.ltb_spec (Z.of_nat (length e) + 1) 0); [lia|]. text_solve.
Qed.

Lemma url_decode_keeps : keeps (Native_UrlDecode env) always.
Proof using Henv.
  intros ctx params L w Hi Hroom _. unfold Native_UrlDecode. do 10 text_step. destruct (curl_unescape env s) as [d|] eqn:E; [|done].
  pose proof (unescape_size _ Henv _ _ E). cbv zeta. rewrite strlen_int_id by lia.
  destruct (_ >=? _); [done|]. text_step. unfold copy_out. destruct (Z.ltb_spec (Z.of_nat (length d)) 0); [lia|]. text_solve.
Qed.

Lemma query_parse_keeps : keeps (Native_QueryStringParse env) always.
Proof.
  intros ctx params L w Hi Hroom _. unfold Native_QueryStringParse. do 5 text_step. apply wp_wr'.
  destruct (query_object_holds env s (nodes w) _ (I_heap _ _ Hi)) as (node & m & st & -> & Hs & _). exists (Some node), st. split; [done|].
  eapply wp_mono; [apply (wp_make_handle L ctx (ODataHandle (Some node)))|]; [|by eexists|done|apply (room_handles _ Hroom)|by intros h w' [Hi' _]].
  apply (Inv_nodes L); [done|]. eapply inv_perm; [|exact Hs]. cbn. by rewrite Permutation_middle.
Qed.

Lemma query_build_keeps : keeps (Native_QueryStringBuild env) always.
Proof.
  intros ctx params L w Hi Hroom _. unfold Native_QueryStringBuild. do 3 text_step. eapply wp_GetDataHandle; [exact Hi|done|]. intros n Hn Hheld.
  do 3 text_step. apply wp_deref; [by eapply held_live|]. intros p Hp. destruct p; try done. do 6 text_step. destruct (_ <=? 0); [done|]. text_step.
  apply wp_rd_total; [|intros entries; text_solve]. apply deref_Some in Hp as (c & Hc & Ep). by eapply query_entries_live; [apply (I_heap _ _ Hi)| |].
Qed.

Lemma base64_encode_keeps : keeps (Native_Base64Encode env) need_encodable.
Proof.
  intros ctx params L w Hi Hroom Hpre. unfold Native_Base64Encode. do 6 text_step. destruct (Z.leb_spec v0 0); [done|]. do 6 text_step.
  specialize (Hpre v0 ltac:(done)).
  assert (v0 + 2 < 2 ^ 31 /\ 4 * ((v0 + 2) / 3) + 1 < 2 ^ 31 /\ 0 <= (v0 + 2) / 3) as (Hn1 & Hn2 & Hn3) by (Z.div_mod_to_equations; lia).
  text_step. apply wp_int_of; [lia|]. text_step. apply wp_int_of; [lia|]. text_step. apply wp_int_of; [lia|]. destruct (_ <? _); [done|]. do 2 text_step.
  destruct (EVP_EncodeBlock env b). text_solve.
Qed.

Lemma base64_decode_keeps : keeps (Native_Base64Decode env) always.
Proof.
  intros ctx params L w Hi Hroom _. unfold Native_Base64Decode. do 10 text_step. cbv zeta. rewrite strlen_int_id by lia. destruct (_ =? 0); [done|].
  assert (0 <= 3 * Z.quot (Z.of_nat (length s)) 4 < 2 ^ 31 - 1) as Hq by (rewrite Z.quot_div_nonneg by lia; Z.div_mod_to_equations; lia).
  text_step. apply wp_int_of; [lia|]. text_step. apply wp_int_of; [lia|]. destruct (_ <? _); [done|].
  destruct (EVP_DecodeBlock env s). text_solve.
Qed.

Lemma write_digest_keeps L d b maxlen w : Inv L w -> wp (write_digest d b maxlen) (fun _ => Inv L) w.
Proof. intros Hi. unfold write_digest. text_solve. Qed.

Lemma hash_keeps md : keeps (fun _ params => HashNative env params md) always.
Proof.
  intros ctx params L w Hi Hroom _. unfold HashNative. do 6 text_step. destruct (_ <? 0); [done|]. do 8 text_step. by apply write_digest_keeps.
Qed.

Lemma hmac_keeps : keeps (Native_HMAC env) always.
Proof.
  intros ctx params L w Hi Hroom _. unfold Native_HMAC. do 22 text_step. destruct (_ || _); [done|]. do 4 text_step. by apply write_digest_keeps.
Qed.

Lemma hex_native_encode_keeps : keeps Native_HexEncode always.
Proof.
  intros ctx params L w Hi Hroom _. unfold Native_HexEncode. do 6 text_step. destruct (Z.leb_spec v0 0); [done|]. do 6 text_step.
  destruct (Z.gtb_spec v0 ((INT_MAX - 1) / 2)) as [|Hm]; [done|]. change ((INT_MAX - 1) / 2) with 1073741823 in Hm.
  text_step. apply wp_int_of; [lia|]. text_step. apply wp_int_of; [lia|]. destruct (_ <? _); [done|]. text_step.
  eapply wp_mono; [by apply hex_encode_keeps|]. intros [] w' Hi'. text_solve.
Qed.

Lemma hex_native_decode_keeps : keeps Native_HexDecode always.
Proof.
  intros ctx params L w Hi Hroom _. unfold Native_HexDecode. do 10 text_step. cbv zeta. rewrite strlen_int_id by lia. destruct (_ =? 0); [done|].
  destruct (negb _); [done|]. assert (0 <= Z.quot (Z.of_nat (length s)) 2 < 2 ^ 31 - 1) as Hq by (rewrite Z.quot_div_nonneg by lia; Z.div_mod_to_equations; lia).
  text_step. apply wp_int_of; [lia|]. destruct (_ <? _); [done|]. text_step. eapply wp_mono; [by apply hex_decode_keeps|]. intros [] w' Hi'; text_solve.
Qed.

Lemma get_time_keeps : keeps (Native_GetTime env) always.
Proof.
  intros ctx params L w Hi Hroom _. unfold Native_GetTime. do 2 text_step. unfold wp. destruct (GetAnchoredTimeMs _ _ _) as [ms c].
  change (wp (nbind (local_write v (WriteInt64 ms)) (fun _ => nret 0)) (fun _ => Inv L) (set_clock c w)). text_solve.
Qed.

Lemma transfer_keeps L h target w : Inv L w -> wp (transfer_handle h target) (fun _ => Inv L) w.
Proof.
  intros Hi. pose proof (wf_Transfer h target (hm w) (I_table _ _ Hi)) as Hwf. unfold wp, transfer_handle.
  destruct (TransferHandle h target (hm w)) as [ok m] eqn:E. unfold TransferHandle in E.
  assert (m = hm w -> Inv L (set_hm m w)) as Hs by (intros ->; by destruct w).
  destruct (used_handles_ (hm w) !! h) as [x|] eqn:Ex; [|injection E as <- <-; by apply Hs].
  destruct (closed x); [injection E as <- <-; by apply Hs|]. case_decide; [injection E as <- <-; by apply Hs|]. injection E as <- <-.
  apply Inv_table; [done|exact Hwf| |]; cbn [used_handles_].
  - intros h' y. rewrite lookup_insert_Some. intros [[<- <-]|[_ Hy]]; [by exists x|by exists y].
  - intros h' y Hy. destruct (decide (h' = h)) as [->|Hne]; [|exists y; by rewrite lookup_insert_ne].
    exists (set_owner target x). rewrite lookup_insert_eq. replace y with x by congruence. done.
Qed.

Lemma set_plugin_keeps : keeps (Native_SetHandlePlugin (P := P) (M := M) env) always.
Proof.
  intros ctx params L w Hi Hroom _. unfold Native_SetHandlePlugin. do 3 text_step.
  assert (wp (if v >=? 2 then arg params 2 else nret 0) (fun _ w' => w' = w) w) as Hp by (destruct (v >=? 2); [apply wp_arg; auto|done]).
  eapply wp_mono; [exact Hp|]. intros pl w' ->. do 2 text_step. destruct (pl =? 0).
  - unfold wp. destruct (used_handles_ (hm w) !! _) as [x|]; [|done]. destruct (decide _); [|done]. by apply transfer_keeps.
  - destruct (PluginFromHandle env pl); [by apply transfer_keeps|done].
Qed.

Lemma hjson_wp ctx L s w : Inv L w -> room w -> Forall is_byte s -> Forall plain_byte s -> Z.of_nat (length s) < 2 ^ 62 ->
  wp (nbind (wr' (ParseHjson (init_scanner no_simd has_avx2) s)) (fun parsed => wrap_new ctx parsed)) (fun _ => Inv L) w.
Proof.
  intros Hi Hroom Hb Hp Hl. nat_step. apply wp_wr'.
  destruct (ParseHjson_inv no_simd has_avx2 s (nodes w) _ Hb Hp Hl (I_heap _ _ Hi)) as (r & st & -> & Hs).
  exists r, st. split; [done|]. apply (wp_wrap_new L ctx r); [|apply (room_handles _ Hroom)].
  apply (Inv_nodes L); [done|]. eapply inv_perm; [|exact Hs]. rewrite !app_assoc. apply Permutation_app_tail, Permutation_app_comm.
Qed.

Lemma hjson_string_keeps : keeps (Native_HjsonParseString no_simd has_avx2) need_plain.
Proof.
  intros ctx params L w Hi Hroom Hpre. unfold Native_HjsonParseString. do 4 text_step.
  apply hjson_wp; [done|done| |by eapply Hpre|lia]. eapply Forall_impl; [exact H1|]. unfold is_byte. cbn. lia.
Qed.

Lemma hjson_file_keeps : keeps (Native_HjsonParseFile no_simd has_avx2 read_file) need_plain_file.
Proof.
  intros ctx params L w Hi Hroom Hpre. unfold Native_HjsonParseFile. do 4 text_step. destruct (read_file s) as [[size buf]|] eqn:Ef; [|done].
  destruct (_ || _) eqn:Eo; [done|]. apply orb_false_iff in Eo as [_ Eo]. destruct (Z.eqb_spec (Z.of_nat (length buf)) size) as [El|]; cbn [negb]; [|done].
  destruct (Hpre _ _ _ _ ltac:(done) ltac:(done) Ef) as [Hb Hp]. apply hjson_wp; try done. rewrite Z.gtb_ltb, Z.ltb_ge in Eo. lia.
Qed.

(** ** The tables *)

Inductive text_need := NoNeed | Short | Encodable | Plain | PlainFile.

Definition text_need_of (name : String.string) : text_need :=
  if bool_decide (name = "async2_UrlEncode"%string) then Short
  else if bool_decide (name = "async2_Base64Encode"%string) then Encodable
  else if bool_decide (name = "async2_HjsonParseString"%string) then Plain
  else if bool_decide (name = "async2_HjsonParseFile"%string) then PlainFile
  else NoNeed.

Definition text_meaning (n : text_need) : list Z -> world -> Prop :=
  match n with NoNeed => always | Short => need_short | Encodable => need_encodable | Plain => need_plain | PlainFile => need_plain_file end.

Definition text_needs (name : String.string) : list Z -> world -> Prop := text_meaning (text_need_of name).

Definition text_natives : list (String.string * native (P := P) (M := M)) :=
  g_UrlNatives env ++ g_CryptoNatives env ++ g_UtilsNatives env ++ g_HjsonNatives no_simd has_avx2 read_file.

Ltac text_entry := cbn [fst snd]; lazymatch goal with |- keeps _ (text_needs ?s) =>
  let k := eval vm_compute in (text_need_of s) in change (text_needs s) with (text_meaning k); cbn [text_meaning] end.

Lemma text_table_keeps : Forall (fun e => keeps e.2 (text_needs e.1)) text_natives.
Proof using Henv.
  unfold text_natives, g_UrlNatives, g_CryptoNatives, g_UtilsNatives, g_HjsonNatives. cbn [app].
  repeat (apply Forall_cons; split); [..|by apply Forall_nil]; text_entry;
    first [exact url_encode_keeps|exact url_decode_keeps|exact query_parse_keeps|exact query_build_keeps|exact base64_encode_keeps
          |exact base64_decode_keeps|exact (hash_keeps (str "sha256"))|exact (hash_keeps (str "sha1"))|exact (hash_keeps (str "md5"))
          |exact hmac_keeps|exact hex_native_encode_keeps|exact hex_native_decode_keeps|exact get_time_keeps|exact set_plugin_keeps
          |exact hjson_string_keeps|exact hjson_file_keeps|idtac].
  all: intros ctx params L w Hi Hroom _; lazymatch goal with |- wp ?t _ _ => let f := head_of t in unfold f end; text_solve.
Qed.

End Safety.
