(* ===== verification/NativesTextFacts.v ===== *)
(** * What the text natives do to the plugin's memory

    They write into the caller's buffer only, whatever the libraries return
    within their documented sizes; and hexadecimal text decodes to what was
    encoded, through the plugin's memory. *)

From stdpp Require Import base numbers list gmap.
From Stdlib Require Import ZArith Lia.
From S2P Require Import Clock LinkedList LockedQueue MsgPack Prelude HandleManager NodePool DataMap DataValue Float Text DataNode HeaderMap HttpRequest EventLoop HttpState DataRefcount DataCopy JsonText JsonParse DataBuild HjsonScan Hjson HjsonNodes DataHandle DataIterator Natives NativesJson NativesHttp NativesText.

Section Facts.

Context {MO : DataMap bytes} {MI : DataMap Z} {P : Type} {PA : NodeAllocator P} {M : Type} {PC : PluginContext M}.

#[local] Notation N := (N (P := P) (M := M)).
#[local] Notation world := (world (P := P) (M := M)).
#[local] Notation native := (native (P := P) (M := M)).
Implicit Types (w : world) (m : M).

(** ** Writing into a buffer *)

(** Memory outside [[lo, hi)] is as before. *)
Record confined (lo hi : Z) m m' : Prop := {
  c_outside : forall addr n, addr + Z.of_nat n <= lo \/ hi <= addr -> read_raw m' addr n = read_raw m addr n;
  c_strings : forall addr, is_Some (LocalToString m addr) -> is_Some (LocalToString m' addr)
}.

#[export] Instance confined_refl lo hi : Reflexive (confined lo hi).
Proof. intros m. by split. Qed.

#[export] Instance confined_trans lo hi : Transitive (confined lo hi).
Proof. intros m1 m2 m3 [H1 H1'] [H2 H2']. split; [|by auto]. intros addr n H. by rewrite H2, H1. Qed.

Lemma confined_wider lo hi lo' hi' m m' : lo' <= lo -> hi <= hi' -> confined lo hi m m' -> confined lo' hi' m m'.
Proof. intros Hl Hh [H1 H2]. split; [|done]. intros addr n H. apply H1. lia. Qed.

Lemma write_confined addr b m m' lo hi : write_bytes addr b m = Some m' -> lo <= addr -> addr + Z.of_nat (length b) <= hi -> confined lo hi m m'.
Proof.
  intros Hw Hl Hh. split; [|intros addr'; by eapply write_string]. intros addr' n H. eapply raw_write_other; [exact Hw|lia].
Qed.

(** A computation that changes only the memory in the range. *)
Definition within {A} (lo hi : Z) (f : N A) : Prop :=
  forall w a w', f w = Done a w' -> confined lo hi (memory w) (memory w') /\ w' = set_memory (memory w') w.

Lemma set_memory_id w : set_memory (memory w) w = w.
Proof. by destruct w. Qed.

Lemma within_ret {A} lo hi (a : A) : within lo hi (nret a).
Proof. intros w a' w' [= _ <-]. split; [reflexivity|]. by rewrite set_memory_id. Qed.

Lemma within_bind {A B} lo hi (f : N A) (k : A -> N B) : within lo hi f -> (forall a, within lo hi (k a)) -> within lo hi (nbind f k).
Proof.
  intros Hf Hk w b w'. unfold nbind. destruct (f w) as [a w1| |] eqn:E; try done. intros H.
  destruct (Hf w a w1 E) as [C1 E1]. destruct (Hk a w1 b w' H) as [C2 E2]. split; [by etransitivity|]. rewrite E2 at 1. by rewrite E1.
Qed.

(** A computation that only reads, and what is known of its result. *)
Lemma within_read {A B} lo hi (f : N A) (R : A -> Prop) (k : A -> N B) : (forall w a w', f w = Done a w' -> w' = w /\ R a) ->
  (forall a, R a -> within lo hi (k a)) -> within lo hi (nbind f k).
Proof. intros Hf Hk w b w'. unfold nbind. destruct (f w) as [a w1| |] eqn:E; try done. destruct (Hf w a w1 E) as [-> Ha]. by apply Hk. Qed.

Lemma within_arg {B} lo hi params i (k : Z -> N B) : (forall v, param params i = Some v -> within lo hi (k v)) -> within lo hi (nbind (arg params i) k).
Proof. apply within_read. intros w a w'. unfold arg. destruct (param params i) as [v|]; [|done]. by intros [= <- <-]. Qed.

Lemma within_string {B} lo hi a (k : bytes -> N B) : (forall s, Z.of_nat (length s) < 2 ^ 31 -> within lo hi (k s)) -> within lo hi (nbind (local_string a) k).
Proof.
  apply within_read. intros w s w'. unfold local_string. destruct (LocalToString (memory w) a) as [t|] eqn:E; [|done]. intros [= <- <-].
  split; [done|]. by apply LocalToString_text in E as [_ E].
Qed.

Lemma within_raw {B} lo hi a n (k : bytes -> N B) : (forall b, length b = n -> within lo hi (k b)) -> within lo hi (nbind (local_raw a n) k).
Proof.
  apply within_read. intros w b w'. unfold local_raw. destruct (read_raw (memory w) a n) as [t|] eqn:E; [|done]. intros [= <- <-].
  split; [done|]. by apply read_raw_bytes in E as [_ E].
Qed.

Lemma within_rd {A B} lo hi (f : store -> option A) (k : A -> N B) : (forall a, within lo hi (k a)) -> within lo hi (nbind (rd f) k).
Proof. intros Hk. apply (within_read _ _ _ (fun _ => True)); [|auto]. intros w a w'. unfold rd. destruct (f (nodes w)); [|done]. by intros [= _ <-]. Qed.

Lemma within_int {B} lo hi z (k : Z -> N B) : (z < 2 ^ 31 -> within lo hi (k z)) -> within lo hi (nbind (int_of z) k).
Proof.
  intros Hk. apply (within_read _ _ _ (fun y => y = z /\ z < 2 ^ 31)); [|by intros y [-> Hz]; auto]. intros w a w'. unfold int_of.
  destruct (Z.ltb_spec z (2 ^ 31)); [|rewrite andb_false_r; done]. destruct (_ <=? z); [|done]. by intros [= <- <-].
Qed.

Lemma within_write lo hi addr b : lo <= addr -> addr + Z.of_nat (length b) <= hi -> within lo hi (local_write_bytes addr b).
Proof.
  intros Hl Hh w [] w'. unfold local_write_bytes. destruct (write_bytes addr b (memory w)) as [m|] eqn:E; [|done]. intros [= <-].
  split; [by eapply write_confined|done].
Qed.

Lemma within_GetDataHandle {B} lo hi h (k : option (option loc) -> N B) : (forall j, within lo hi (k j)) -> within lo hi (nbind (GetDataHandle h) k).
Proof.
  intros Hk. apply (within_read _ _ _ (fun _ => True)); [|auto]. intros w a w'. unfold GetDataHandle.
  destruct (HandleManager.GetDataHandle h (hm w)) as [p|]; [|by intros [= _ <-]]. destruct (objects w !! p) as [[]|]; try done. by intros [= _ <-].
Qed.

Lemma within_nonnull {A B} lo hi (p : option A) (k : A -> N B) : (forall a, within lo hi (k a)) -> within lo hi (nbind (nonnull p) k).
Proof. intros Hk. apply (within_read _ _ _ (fun _ => True)); [|auto]. intros w a w'. unfold nonnull. destruct p; [|done]. by intros [= _ <-]. Qed.

Lemma length_hex_bytes d : length (hex_bytes d) = (2 * length d)%nat.
Proof. unfold hex_bytes. induction d as [|b d IH]; [done|]. cbn [fmap list_fmap concat]. rewrite length_app, IH. cbn. lia. Qed.

Lemma within_hex_encode lo hi n : forall data output, lo <= output -> output + 2 * Z.of_nat n <= hi -> within lo hi (hex_encode_loop data output n).
Proof.
  induction n as [|n IH]; intros data output Hl Hh; [apply within_ret|]. cbn [hex_encode_loop]. apply within_raw. intros b Hb. apply within_bind.
  - apply within_write; [done|]. rewrite length_hex_bytes, Hb. lia.
  - intros _. apply IH; lia.
Qed.

Lemma within_hex_decode lo hi n : forall input output, lo <= output -> output + Z.of_nat n <= hi -> within lo hi (hex_decode_loop input output n).
Proof.
  induction n as [|n IH]; intros input output Hl Hh; [apply within_ret|]. cbn [hex_decode_loop]. apply within_raw. intros b _.
  destruct (hex_value b) as [v|]; [|apply within_ret]. apply within_bind; [apply within_write; cbn; lia|]. intros _. apply IH; lia.
Qed.

(** ** Every native with an output buffer *)

(** The documented sizes of what OpenSSL writes: base64 of [n] bytes is
    [4 * ceil(n / 3)] characters and a NUL; decoding gives three bytes for
    four characters at most; a digest is at most [EVP_MAX_MD_SIZE] bytes. *)
Record evp_sizes (env : Env) : Prop := {
  encode_size : forall d out n, EVP_EncodeBlock env d = (out, n) ->
    Z.of_nat (length out) <= 4 * ((Z.of_nat (length d) + 2) / 3) + 1 /\ n <= 4 * ((Z.of_nat (length d) + 2) / 3);
  decode_size : forall s out n, EVP_DecodeBlock env s = (out, n) ->
    Z.of_nat (length out) <= 3 * (Z.of_nat (length s) / 4) /\ n <= 3 * (Z.of_nat (length s) / 4);
  digest_size : forall md d x, digest env md d = Some x -> (length x <= 64)%nat;
  hmac_size : forall md k d x, hmac env md k d = Some x -> (length x <= 64)%nat
}.

(** The parameters that are the output buffer and its size. *)
Definition output_of (name : String.string) : option (nat * nat) :=
  if bool_decide (name ∈ ["async2_UrlEncode"; "async2_UrlDecode"; "async2_QueryStringBuild"; "async2_Base64Decode"; "async2_HexDecode"]%string) then Some (2, 3)%nat
  else if bool_decide (name ∈ ["async2_Base64Encode"; "async2_SHA256"; "async2_SHA1"; "async2_MD5"; "async2_HexEncode"]%string) then Some (3, 4)%nat
  else if bool_decide (name = "async2_HMAC"%string) then Some (6, 7)%nat
  else None.

Definition fills_buffer (f : native) (ib im : nat) : Prop :=
  forall ctx params b maxlen, param params ib = Some b -> param params im = Some maxlen -> within b (b + maxlen) (f ctx params).

Section Env.

Context (env : Env) (Henv : evp_sizes env).

Lemma within_copy lo hi addr s n : lo <= addr -> addr + n <= hi -> within lo hi (copy_out addr s n).
Proof.
  intros Hl Hh. unfold copy_out. destruct (Z.ltb_spec n 0); [done|]. apply within_write; [done|]. rewrite length_take. lia.
Qed.

Ltac fills := lazymatch goal with
  | |- within _ _ (nbind (arg _ _) _) => apply within_arg; intros ? ?
  | |- within _ _ (nbind (local_string _) _) => apply within_string; intros ? ?
  | |- within _ _ (nbind (local_raw _ _) _) => apply within_raw; intros ? ?
  | |- within _ _ (nbind (int_of _) _) => apply within_int; intros ?
  | |- within _ _ (nbind (GetDataHandle _) _) => apply within_GetDataHandle; intros ?
  | |- within _ _ (nbind (nonnull _) _) => apply within_nonnull; intros ?
  | |- within _ _ (nbind (rd _) _) => apply within_rd; intros ?
  | |- within _ _ (nbind _ _) => apply within_bind; [|intros ?]
  | |- within _ _ (nret _) => apply within_ret
  end.
Ltac head_of t := lazymatch t with ?f _ => head_of f | _ => t end.
Ltac fills_start := intros ctx params b maxlen Hb Hm; lazymatch goal with |- within _ _ ?t => let f := head_of t in unfold f end; repeat fills.
Ltac same_arg Hx x := lazymatch type of Hx with param ?p ?i = _ =>
  match goal with H : param p i = Some ?y |- _ => tryif constr_eq y x then fail else (assert (y = x) by congruence; subst y) end end.
Ltac same_args Hb b Hm maxlen := try same_arg Hb b; try same_arg Hm maxlen.

Lemma write_digest_within d b maxlen : (forall x, d = Some x -> (length x <= 64)%nat) -> within b (b + maxlen) (write_digest d b maxlen).
Proof.
  intros Hd. unfold write_digest. destruct d as [x|]; [|apply within_ret]. specialize (Hd x eq_refl). cbv zeta.
  assert (cell (Z.of_nat (length x) * 2 + 1) = Z.of_nat (length x) * 2 + 1) as -> by (apply (s_id 32); [lia|]; unfold s_range; cbn; lia).
  destruct (Z.ltb_spec maxlen (Z.of_nat (length x) * 2 + 1)); [apply within_ret|]. fills; [|apply within_ret].
  apply within_write; [lia|]. rewrite length_app, length_hex_bytes. cbn. lia.
Qed.

Lemma url_encode_fills : fills_buffer (Native_UrlEncode env) 2 3.
Proof.
  fills_start. same_args Hb b Hm maxlen. match goal with |- context [curl_escape env ?x] => destruct (curl_escape env x) as [e|] end; [|apply within_ret]. cbv zeta. destruct (Z.geb_spec (strlen_int e) maxlen); [apply within_ret|].
  fills; [|apply within_ret]. apply within_copy; lia.
Qed.

Lemma url_decode_fills : fills_buffer (Native_UrlDecode env) 2 3.
Proof.
  fills_start. same_args Hb b Hm maxlen. match goal with |- context [curl_unescape env ?x] => destruct (curl_unescape env x) as [e|] end; [|apply within_ret]. cbv zeta. destruct (Z.geb_spec (strlen_int e) maxlen); [apply within_ret|].
  unfold copy_out. destruct (Z.ltb_spec (strlen_int e) 0); [intros w a w'; done|]. fills; [apply within_write; [lia|rewrite length_take; lia]|].
  fills; [|apply within_ret]. apply within_write; cbn; lia.
Qed.

(** The head of the computation is a test. *)
Ltac test := lazymatch goal with
  | |- within _ _ (if (?x <? ?y) || (?x' <? ?y') then _ else _) => destruct (Z.ltb_spec x y), (Z.ltb_spec x' y'); cbn [orb]; try apply within_ret
  | |- within _ _ (if ?x <? ?y then _ else _) => destruct (Z.ltb_spec x y); try apply within_ret
  | |- within _ _ (if ?x <=? ?y then _ else _) => destruct (Z.leb_spec x y); try apply within_ret
  | |- within _ _ (if ?x >? ?y then _ else _) => destruct (Z.gtb_spec x y); try apply within_ret
  | |- within _ _ (if ?x >=? ?y then _ else _) => destruct (Z.geb_spec x y); try apply within_ret
  | |- within _ _ (if ?x =? ?y then _ else _) => destruct (Z.eqb_spec x y); try apply within_ret
  | |- within _ _ (if negb ?x then _ else _) => destruct x; cbn [negb]; try apply within_ret
  | |- within _ _ (match ?x with _ => _ end) => destruct x eqn:?; try apply within_ret
  end.

Lemma query_build_fills : fills_buffer (Native_QueryStringBuild env) 2 3.
Proof.
  fills_start. test. repeat fills. test. repeat fills. same_args Hb b Hm maxlen.
  test. fills. cbv zeta. test. fills; [|apply within_ret]. apply within_write; [lia|]. rewrite length_app. cbn. lia.
Qed.

Lemma base64_encode_fills : fills_buffer (Native_Base64Encode env) 3 4.
Proof using Henv.
  fills_start. test. repeat fills. same_args Hb b Hm maxlen. test. fills. test.
  match goal with E : EVP_EncodeBlock env _ = _, H : length _ = Z.to_nat _ |- _ => apply (encode_size _ Henv) in E as [E1 E2]; rewrite H, Z2Nat.id in E1, E2 by lia end.
  fills; [apply within_write; lia|]. test. fills; [|apply within_ret]. apply within_write; cbn; lia.
Qed.

Lemma base64_decode_fills : fills_buffer (Native_Base64Decode env) 2 3.
Proof using Henv.
  fills_start. same_args Hb b Hm maxlen. cbv zeta. test. repeat fills. test. test.
  match goal with E : EVP_DecodeBlock env ?s = _ |- _ => apply (decode_size _ Henv) in E as [E1 E2];
    assert (strlen_int s = Z.of_nat (length s)) as Es by (apply (s_id 32); [lia|]; unfold s_range; cbn; lia) end.
  rewrite Es, Z.quot_div_nonneg in * by lia. fills; [apply within_write; lia|]. test.
  set (d := if _ && _ then _ else _). assert (d <= z) as Hd by (unfold d; repeat destruct (_ && _); lia). clearbody d. test.
  fills; [|apply within_ret]. apply within_write; cbn; lia.
Qed.

Lemma hash_fills md : fills_buffer (fun _ params => HashNative env params md) 3 4.
Proof using Henv.
  intros ctx params b maxlen Hb Hm. unfold HashNative. repeat fills. test. repeat fills. same_args Hb b Hm maxlen. apply write_digest_within.
  intros x. apply (digest_size _ Henv).
Qed.

Lemma hmac_fills : fills_buffer (Native_HMAC env) 6 7.
Proof using Henv.
  fills_start. same_args Hb b Hm maxlen. test. repeat fills. apply write_digest_within. intros x. apply (hmac_size _ Henv).
Qed.

Lemma hex_encode_fills : fills_buffer Native_HexEncode 3 4.
Proof.
  fills_start. test. repeat fills. same_args Hb b Hm maxlen. test. repeat fills. test. fills; [apply within_hex_encode; lia|].
  fills; [|apply within_ret]. apply within_write; cbn; lia.
Qed.

Lemma hex_decode_fills : fills_buffer Native_HexDecode 2 3.
Proof.
  fills_start. same_args Hb b Hm maxlen. cbv zeta. test. test. repeat fills. test. 
  match goal with |- context [strlen_int ?s] => assert (strlen_int s = Z.of_nat (length s)) as Es by (apply (s_id 32); [lia|]; unfold s_range; cbn; lia);
    assert (0 <= Z.quot (strlen_int s) 2) by (rewrite Es, Z.quot_div_nonneg by lia; Z.div_mod_to_equations; lia) end.
  fills; [apply within_hex_decode; lia|]. test. fills; [|apply within_ret]. apply within_write; cbn; lia.
Qed.

Lemma output_fills name f ib im : (name, f) ∈ g_UrlNatives env ++ g_CryptoNatives env -> output_of name = Some (ib, im) -> fills_buffer f ib im.
Proof using Henv.
  intros Hin Ho. assert (Forall (fun e => forall ib im, output_of e.1 = Some (ib, im) -> fills_buffer e.2 ib im) (g_UrlNatives env ++ g_CryptoNatives env)) as HF.
  { unfold g_UrlNatives, g_CryptoNatives. cbn [app]. repeat (apply Forall_cons; split); [..|by apply Forall_nil]; cbn [fst snd]; intros i j E;
      vm_compute in E; try discriminate E; injection E as <- <-;
      first [exact url_encode_fills|exact url_decode_fills|exact query_build_fills|exact base64_encode_fills|exact base64_decode_fills
            |exact (hash_fills (str "sha256"))|exact (hash_fills (str "sha1"))|exact (hash_fills (str "md5"))|exact hmac_fills
            |exact hex_encode_fills|exact hex_decode_fills]. }
  rewrite Forall_forall in HF. exact (HF (name, f) Hin ib im Ho).
Qed.

End Env.


(** ** Hexadecimal text through memory *)

Lemma hex_pair_value b : is_byte b -> hex_value (hex_pair b) = Some b /\ Forall (fun c => 0 < c < 256) (hex_pair b).
Proof.
  intros Hb. assert (forallb (fun i => let x := Z.of_nat i in bool_decide (hex_value (hex_pair x) = Some x) && forallb (fun c => (0 <? c) && (c <? 256)) (hex_pair x))
    (seq 0 256) = true) as H by (vm_compute; reflexivity).
  rewrite forallb_forall in H. specialize (H (Z.to_nat b)). unfold is_byte in Hb. rewrite in_seq, Z2Nat.id in H by lia.
  apply andb_prop in H as [H1 H2]; [|lia]. apply bool_decide_eq_true in H1. split; [done|]. rewrite forallb_forall in H2.
  apply Forall_forall. intros c Hc. apply list_elem_of_In, H2, andb_prop in Hc as [?%Z.ltb_lt ?%Z.ltb_lt]. lia.
Qed.

Lemma hex_bytes_text d : Forall is_byte d -> Forall (fun c => 0 < c < 256) (hex_bytes d).
Proof. unfold hex_bytes. induction 1 as [|b d Hb _ IH]; [constructor|]. cbn [fmap list_fmap concat]. apply Forall_app_2; [by apply hex_pair_value|done]. Qed.

Lemma read_bytes m a n d : read_raw m a n = Some d -> Forall is_byte d /\ length d = n.
Proof. apply read_raw_bytes. Qed.

(** Reading one more byte. *)
Lemma raw_cons m a n d k : read_raw m a (k + n) = Some d -> exists x y, d = x ++ y /\ length x = k /\ read_raw m a k = Some x /\ read_raw m (a + Z.of_nat k) n = Some y.
Proof. intros (x & y & -> & Hx & Hy)%raw_app. exists x, y. split_and!; try done. by eapply read_bytes. Qed.

Lemma apart lo hi m m' a n : confined lo hi m m' -> a + Z.of_nat n <= lo \/ hi <= a -> read_raw m' a n = read_raw m a n.
Proof. intros H. apply (c_outside _ _ _ _ H). Qed.

Lemma write_runs addr d old w : read_raw (memory w) addr (length d) = Some old -> Forall is_byte d ->
  exists m, local_write_bytes addr d w = Done tt (set_memory m w) /\ read_raw m addr (length d) = Some d /\ confined addr (addr + Z.of_nat (length d)) (memory w) m.
Proof.
  intros Hr Hd. destruct (raw_writable _ _ _ _ d Hr eq_refl) as [m Hw]. exists m. unfold local_write_bytes. rewrite Hw. split_and!; [done|by eapply raw_write|].
  eapply write_confined; [exact Hw|lia|lia].
Qed.

Lemma hex_encode_runs n : forall data a b old w, read_raw (memory w) a n = Some data -> read_raw (memory w) b (2 * n) = Some old ->
  a + Z.of_nat n <= b \/ b + 2 * Z.of_nat n <= a ->
  exists m, hex_encode_loop a b n w = Done tt (set_memory m w) /\ read_raw m b (2 * n) = Some (hex_bytes data) /\
    confined b (b + 2 * Z.of_nat n) (memory w) m.
Proof.
  induction n as [|n IH]; intros data a b old w Ha Hb Hd.
  - exists (memory w). apply read_bytes in Ha as [_ Hl]. destruct data; [|done]. cbn. rewrite set_memory_id. split_and!; [done| |reflexivity].
    replace (2 * 0)%nat with 0%nat in Hb by lia. rewrite Hb. apply read_bytes in Hb as [_ Hl']. by destruct old.
  - apply (raw_cons _ _ n _ 1) in Ha as (x & data' & -> & Hx & Ha1 & Ha2). replace (2 * S n)%nat with (2 + 2 * n)%nat in * by lia.
    apply (raw_cons _ _ (2 * n) _ 2) in Hb as (o1 & o2 & -> & Ho & Hb1 & Hb2). pose proof (read_bytes _ _ _ _ Ha1) as [Hbx _].
    destruct x as [|c [|]]; try done. cbn [hex_encode_loop]. unfold nbind, local_raw. rewrite Ha1. unfold nbind.
    destruct (write_runs b (hex_bytes [c]) o1 w Hb1) as (m1 & -> & Hw1 & Hc1); [eapply Forall_impl; [by apply hex_bytes_text|]; unfold is_byte; cbn; lia|].
    change (Z.of_nat (length (hex_bytes [c]))) with 2 in Hc1.
    destruct (IH data' (a + 1) (b + 2) o2 (set_memory m1 w)) as (m2 & Hrun & Hr2 & Hc2); cbn [memory set_memory].
    { rewrite (apart _ _ _ _ (a + 1) n Hc1) by lia. exact Ha2. }
    { rewrite (apart _ _ _ _ (b + 2) (2 * n) Hc1) by lia. exact Hb2. }
    { lia. }
    exists m2. cbn [memory set_memory] in Hc2. split_and!; [exact Hrun| |].
    + apply raw_app. exists (hex_bytes [c]), (hex_bytes data'). split_and!; [done| |exact Hr2].
      rewrite (apart _ _ _ _ b 2 Hc2) by lia. exact Hw1.
    + etransitivity; [eapply confined_wider; [| |exact Hc1]; lia|eapply confined_wider; [| |exact Hc2]; lia].
Qed.

Lemma hex_decode_runs n : forall data a b old w, read_raw (memory w) a (2 * n) = Some (hex_bytes data) -> Forall is_byte data -> length data = n ->
  read_raw (memory w) b n = Some old -> a + 2 * Z.of_nat n <= b \/ b + Z.of_nat n <= a ->
  exists m, hex_decode_loop a b n w = Done true (set_memory m w) /\ read_raw m b n = Some data /\ confined b (b + Z.of_nat n) (memory w) m.
Proof.
  induction n as [|n IH]; intros data a b old w Ha Hby Hl Hb Hd; destruct data as [|c data]; try done.
  - exists (memory w). cbn. rewrite set_memory_id. split_and!; [done| |reflexivity]. rewrite Hb. apply read_bytes in Hb as [_ Hl']. by destruct old.
  - apply Forall_cons in Hby as [Hc Hby]. replace (2 * S n)%nat with (2 + 2 * n)%nat in Ha by lia.
    apply (raw_cons _ _ (2 * n) _ 2) in Ha as (x & y & Exy & Hx & Ha1 & Ha2). change (hex_bytes (c :: data)) with (hex_pair c ++ hex_bytes data) in Exy.
    apply app_inj_1 in Exy as [<- <-]; [|done]. apply (raw_cons _ _ n _ 1) in Hb as (o1 & o2 & -> & Ho & Hb1 & Hb2).
    cbn [hex_decode_loop]. unfold nbind, local_raw. rewrite Ha1. rewrite (proj1 (hex_pair_value c Hc)). unfold nbind.
    destruct (write_runs b [c] o1 w Hb1) as (m1 & -> & Hw1 & Hc1); [by apply Forall_singleton|]. change (Z.of_nat (length [c])) with 1 in Hc1.
    destruct (IH data (a + 2) (b + 1) o2 (set_memory m1 w)) as (m2 & Hrun & Hr2 & Hc2); cbn [memory set_memory]; try done.
    { rewrite (apart _ _ _ _ (a + 2) (2 * n) Hc1) by lia. exact Ha2. }
    { by injection Hl. }
    { rewrite (apart _ _ _ _ (b + 1) n Hc1) by lia. exact Hb2. }
    { lia. }
    exists m2. cbn [memory set_memory] in Hc2. split_and!; [exact Hrun| |].
    + apply (raw_app m2 b 1 n). exists [c], data. split_and!; [done| |exact Hr2]. rewrite (apart _ _ _ _ b 1 Hc2) by lia. exact Hw1.
    + etransitivity; [eapply confined_wider; [| |exact Hc1]; lia|eapply confined_wider; [| |exact Hc2]; lia].
Qed.

(** A text and its NUL at an address. *)
Lemma terminated m a s n : read_raw m a n = Some s -> read_raw m (a + Z.of_nat n) 1 = Some [0] -> read_raw m a (n + 1) = Some (s ++ [0]).
Proof. intros H1 H2. apply raw_app. by exists s, [0]. Qed.

Lemma param_is (params : list Z) i v : params !! i = Some v -> s_range 32 v -> param params i = Some v.
Proof. intros E Hv. unfold param. rewrite E. cbn. by rewrite (s_id 32). Qed.

Ltac params := repeat match goal with |- context [param ?ps ?i] => let v := eval cbn in (ps !! i) in
  lazymatch v with Some ?x => rewrite (param_is ps i x eq_refl) by (done || (unfold s_range; cbn; lia)) end end.

Definition room_at (b : Z) (n : nat) m : Prop := exists old, read_raw m b n = Some old.

Lemma room_split b n k m : room_at b (n + k) m -> room_at b n m /\ room_at (b + Z.of_nat n) k m.
Proof. intros [old (x & y & _ & Hx & Hy)%raw_app]. split; by eexists. Qed.

Lemma room_apart lo hi m m' b n : confined lo hi m m' -> b + Z.of_nat n <= lo \/ hi <= b -> room_at b n m -> room_at b n m'.
Proof. intros H Hd [old Ho]. exists old. by rewrite (apart _ _ _ _ b n H). Qed.

Lemma Native_HexEncode_runs ctx a n b maxlen data w : s_range 32 a -> s_range 32 b -> s_range 32 maxlen ->
  (0 < n)%nat -> Z.of_nat n <= 1073741823 -> 2 * Z.of_nat n + 1 <= maxlen ->
  is_Some (LocalToString (memory w) a) -> is_Some (LocalToString (memory w) b) ->
  read_raw (memory w) a n = Some data -> room_at b (2 * n + 1) (memory w) -> a + Z.of_nat n <= b \/ b + 2 * Z.of_nat n + 1 <= a ->
  exists m, Native_HexEncode ctx [4; a; Z.of_nat n; b; maxlen] w = Done (2 * Z.of_nat n) (set_memory m w) /\
    read_raw m b (2 * n + 1) = Some (hex_bytes data ++ [0]) /\ confined b (b + 2 * Z.of_nat n + 1) (memory w) m.
Proof.
  intros Ha Hb Hmx Hn Hn' Hfit [sa Hsa] [sb Hsb] Hd [[o1 Ho1] Hlast]%room_split Hap.
  unfold Native_HexEncode, nbind, arg. params. unfold local_string. rewrite Hsa.
  destruct (Z.leb_spec (Z.of_nat n) 0); [lia|]. rewrite Hsb. destruct (Z.gtb_spec (Z.of_nat n) ((INT_MAX - 1) / 2)) as [Hg|_]; [change ((INT_MAX - 1) / 2) with 1073741823 in Hg; lia|].
  unfold int_of. rewrite (proj2 (Z.leb_le (- 2 ^ 31) _)), (proj2 (Z.ltb_lt (Z.of_nat n * 2) _)) by lia. cbn [andb].
  rewrite (proj2 (Z.leb_le (- 2 ^ 31) _)), (proj2 (Z.ltb_lt (Z.of_nat n * 2 + 1) _)) by lia. cbn [andb].
  destruct (Z.ltb_spec maxlen (Z.of_nat n * 2 + 1)); [lia|]. rewrite Nat2Z.id.
  destruct (hex_encode_runs n data a b o1 w Hd Ho1) as (m1 & -> & Hr1 & Hc1); [lia|]. unfold nbind.
  destruct (room_apart _ _ _ _ (b + Z.of_nat (2 * n)) 1 Hc1 ltac:(lia) Hlast) as [o2 Ho2].
  destruct (write_runs (b + Z.of_nat (2 * n)) [0] o2 (set_memory m1 w) Ho2) as (m2 & Hw2 & Hr2 & Hc2); [by apply Forall_singleton|].
  replace (Z.of_nat n * 2) with (Z.of_nat (2 * n)) by lia. rewrite Hw2. cbn [memory set_memory length] in Hc2. exists m2.
  split_and!; [unfold nret; f_equal; lia| |].
  - apply terminated; [|exact Hr2]. rewrite (apart _ _ _ _ b (2 * n) Hc2) by lia. exact Hr1.
  - etransitivity; [eapply confined_wider; [| |exact Hc1]; lia|eapply confined_wider; [| |exact Hc2]; lia].
Qed.

Lemma Native_HexDecode_runs ctx b c maxlen data w : s_range 32 b -> s_range 32 c -> s_range 32 maxlen ->
  (0 < length data)%nat -> Z.of_nat (length data) <= 1073741823 -> Z.of_nat (length data) + 1 <= maxlen -> Forall is_byte data ->
  is_Some (LocalToString (memory w) c) ->
  read_raw (memory w) b (2 * length data + 1) = Some (hex_bytes data ++ [0]) -> room_at c (length data + 1) (memory w) ->
  b + 2 * Z.of_nat (length data) + 1 <= c \/ c + Z.of_nat (length data) + 1 <= b ->
  exists m, Native_HexDecode ctx [3; b; c; maxlen] w = Done (Z.of_nat (length data)) (set_memory m w) /\
    read_raw m c (length data + 1) = Some (data ++ [0]) /\ confined c (c + Z.of_nat (length data) + 1) (memory w) m.
Proof.
  intros Hb Hc Hmx Hn Hn' Hfit Hby [sc Hsc] Hr [[o1 Ho1] Hlast]%room_split Hap. set (n := length data) in *.
  assert (LocalToString (memory w) b = Some (hex_bytes data)) as Hsb.
  { apply raw_string; [by apply hex_bytes_text|rewrite length_hex_bytes; fold n; lia|]. rewrite length_hex_bytes. fold n. by rewrite <- Nat.add_1_r. }
  unfold Native_HexDecode, nbind, arg. params. unfold local_string. rewrite Hsb, Hsc.
  cbv zeta. assert (strlen_int (hex_bytes data) = 2 * Z.of_nat n) as ->.
  { unfold strlen_int. rewrite length_hex_bytes. fold n. rewrite Nat2Z.inj_mul. apply (s_id 32); [lia|]. unfold s_range. cbn -[Z.mul]. lia. }
  destruct (Z.eqb_spec (2 * Z.of_nat n) 0); [lia|]. rewrite (Z.mul_comm 2), Z.rem_mul, Z.quot_mul by lia. cbn [Z.eqb negb].
  unfold int_of. rewrite (proj2 (Z.leb_le (- 2 ^ 31) _)), (proj2 (Z.ltb_lt (Z.of_nat n + 1) _)) by lia. cbn [andb].
  destruct (Z.ltb_spec maxlen (Z.of_nat n + 1)); [lia|]. rewrite Nat2Z.id. apply raw_app in Hr as (x & y & Exy & Hx & _).
  apply app_inj_1 in Exy as [<- _]; [|apply read_bytes in Hx as [_ ->]; by rewrite length_hex_bytes].
  destruct (hex_decode_runs n data b c o1 w Hx Hby eq_refl Ho1) as (m1 & -> & Hr1 & Hc1); [lia|]. unfold nbind.
  destruct (room_apart _ _ _ _ (c + Z.of_nat n) 1 Hc1 ltac:(lia) Hlast) as [o2 Ho2].
  destruct (write_runs (c + Z.of_nat n) [0] o2 (set_memory m1 w) Ho2) as (m2 & Hw2 & Hr2 & Hc2); [by apply Forall_singleton|].
  rewrite Hw2. cbn [memory set_memory length] in Hc2. exists m2. split_and!; [done| |].
  - apply terminated; [|exact Hr2]. rewrite (apart _ _ _ _ c n Hc2) by lia. exact Hr1.
  - etransitivity; [eapply confined_wider; [| |exact Hc1]; lia|eapply confined_wider; [| |exact Hc2]; lia].
Qed.

(** Encode [n] bytes at [a] into the buffer at [b], decode that text into the
    buffer at [c]. *)
Definition hex_there_and_back (ctx : positive) (a n b bmax c cmax : Z) : N (Z * Z) :=
  nbind (Native_HexEncode ctx [4; a; n; b; bmax]) (fun x => nbind (Native_HexDecode ctx [3; b; c; cmax]) (fun y => nret (x, y))).

(** Hexadecimal text decodes to the bytes it was made from.  With buffers that
    do not overlap and are large enough, [HexEncode] returns twice the length
    and [HexDecode] of its output the length, and the last buffer holds the
    bytes and a NUL, zero bytes included; nothing else changes but the two
    buffers. *)
Theorem hex_natives_roundtrip (ctx : positive) (a b c bmax cmax : Z) (n : nat) (data : bytes) (w : world) :
  Forall (s_range 32) [a; b; c; bmax; cmax] -> (0 < n)%nat -> Z.of_nat n <= 1073741823 ->
  2 * Z.of_nat n + 1 <= bmax -> Z.of_nat n + 1 <= cmax ->
  Forall (fun x => is_Some (LocalToString (memory w) x)) [a; b; c] ->
  read_raw (memory w) a n = Some data -> room_at b (2 * n + 1) (memory w) -> room_at c (n + 1) (memory w) ->
  a + Z.of_nat n <= b \/ b + 2 * Z.of_nat n + 1 <= a -> b + 2 * Z.of_nat n + 1 <= c \/ c + Z.of_nat n + 1 <= b ->
  exists m, hex_there_and_back ctx a (Z.of_nat n) b bmax c cmax w = Done (2 * Z.of_nat n, Z.of_nat n) (set_memory m w) /\
    read_raw m c (n + 1) = Some (data ++ [0]) /\
    (forall addr k, (addr + Z.of_nat k <= b \/ b + bmax <= addr) -> (addr + Z.of_nat k <= c \/ c + cmax <= addr) ->
       read_raw m addr k = read_raw (memory w) addr k).
Proof.
  intros Hs Hn Hn' Hf1 Hf2 Hstr Hr Hrb Hrc Hab Hbc. rewrite !Forall_cons in Hs. destruct Hs as (Ha & Hb & Hc & Hbm & Hcm & _).
  rewrite !Forall_cons in Hstr. destruct Hstr as (Sa & Sb & Sc & _). pose proof (read_bytes _ _ _ _ Hr) as [Hby <-].
  destruct (Native_HexEncode_runs ctx a (length data) b bmax data w) as (m1 & E1 & Hr1 & Hc1); try done.
  destruct (Native_HexDecode_runs ctx b c cmax data (set_memory m1 w)) as (m2 & E2 & Hr2 & Hc2); try done; cbn [memory set_memory].
  { by apply (c_strings _ _ _ _ Hc1). }
  { eapply room_apart; [exact Hc1|lia|done]. }
  exists m2. unfold hex_there_and_back, nbind. rewrite E1, E2. split_and!; [done|done|]. intros addr k H1 H2. cbn [memory set_memory] in Hc2.
  rewrite (apart _ _ _ _ addr k Hc2), (apart _ _ _ _ addr k Hc1); [done|lia|lia].
Qed.

End Facts.
