(* ===== verification/QueryText.v ===== *)
(** * Query strings: what is built is what is parsed *)

From stdpp Require Import base numbers list gmap.
From Stdlib Require Import ZArith Lia.
From S2P Require Import Clock LinkedList LockedQueue MsgPack Prelude HandleManager NodePool DataMap DataValue Float Text DataNode HeaderMap HttpRequest EventLoop HttpState DataRefcount DataCopy JsonText JsonParse DataBuild HjsonScan Hjson HjsonNodes DataHandle DataIterator Natives NativesJson NativesHttp NativesText.

(** Unreserved characters: [A-Z a-z 0-9 - . _ ~]. *)
Definition unreserved (c : byte) : bool :=
  ((48 <=? c) && (c <=? 57)) || ((65 <=? c) && (c <=? 90)) || ((97 <=? c) && (c <=? 122)) ||
  (c =? 45) || (c =? 46) || (c =? 95) || (c =? 126).

(** What libcurl documents of the two functions: all other characters become
    [%NN], and unescaping gives them back. *)
Record curl_codec (env : Env) : Prop := {
  esc_total : forall s, Forall is_byte s -> is_Some (curl_escape env s);
  esc_chars : forall s e, Forall is_byte s -> curl_escape env s = Some e -> Forall (fun c => unreserved c = true \/ c = 37) e;
  esc_length : forall s e, curl_escape env s = Some e -> (length s <= length e)%nat;
  unesc_esc : forall s e, Forall is_byte s -> curl_escape env s = Some e -> curl_unescape env e = Some s
}.

(** A text that can be a key or a value. *)
Definition query_text (s : bytes) : Prop := s <> [] /\ Forall is_byte s /\ Z.of_nat (length s) < 2 ^ 31.

Section Codec.

Context (env : Env) (Henv : curl_codec env).

(** The characters with a meaning in query strings. *)
Lemma esc_plain s e c : Forall is_byte s -> curl_escape env s = Some e -> c ∈ e -> c <> 38 /\ c <> 61 /\ c <> 63 /\ c <> 93.
Proof using Henv.
  intros Hb He Hc. pose proof (esc_chars _ Henv _ _ Hb He) as HF. rewrite Forall_forall in HF. destruct (HF c Hc) as [H| ->]; [|done].
  unfold unreserved in H. split_and!; intros ->; discriminate H.
Qed.

Lemma index_of_app c xs ys : c ∉ xs -> index_of c (xs ++ c :: ys) = Some (length xs).
Proof.
  induction xs as [|x xs IH]; intros Hn; cbn; [by rewrite Z.eqb_refl|]. apply not_elem_of_cons in Hn as [Hx Hn].
  destruct (Z.eqb_spec x c); [congruence|]. by rewrite IH.
Qed.

Lemma index_of_None c xs : c ∉ xs -> index_of c xs = None.
Proof.
  induction xs as [|x xs IH]; intros Hn; cbn; [done|]. apply not_elem_of_cons in Hn as [Hx Hn].
  destruct (Z.eqb_spec x c); [congruence|]. by rewrite IH.
Qed.

Lemma no_brackets s : 93 ∉ s -> ends_brackets s = false.
Proof.
  intros Hn. apply bool_decide_eq_false. intros E. apply Hn. rewrite <- (take_drop (length s - 2) s), E. apply elem_of_app. right. change (93 ∈ [91; 93]). set_solver.
Qed.

Lemma easy_escape s : query_text s -> exists e, curl_easy_escape env s = Some e /\ curl_escape env s = Some e.
Proof using Henv.
  intros (Hne & Hb & Hl). destruct (esc_total _ Henv s Hb) as [e He]. exists e. split; [|done]. unfold curl_easy_escape.
  rewrite (s_id 32) by (try unfold s_range; cbn; lia). destruct s as [|c s]; [done|]. destruct (Z.ltb_spec (Z.of_nat (length (c :: s))) 0); [lia|].
  destruct (Z.eqb_spec (Z.of_nat (length (c :: s))) 0); [cbn in *; lia|]. rewrite Nat2Z.id, take_ge by lia. done.
Qed.

(** One pair of the text, followed by anything: the key part. *)
Lemma decode_key k ek size rest : query_text k -> cstr k = k -> curl_escape env k = Some ek -> (length ek < size)%nat ->
  decode_pair env (mkView (ek ++ 61 :: rest) size) =
    (let? v := curl_easy_unescape env (mkView rest (size - S (length ek))) in Some (k, v)).
Proof using Henv.
  intros (Hne & Hb & Hl) Hk He Hs. pose proof (fun c => esc_plain k ek c Hb) as Hp. pose proof (esc_length _ Henv _ _ He) as Hel.
  destruct k as [|c0 k]; [done|]. cbn [length] in Hel. unfold decode_pair. cbn [view_size view_at].
  destruct (Nat.eqb_spec size 0); [lia|]. unfold split_pair, view_bytes. cbn [view_size view_at].
  assert (take size (ek ++ 61 :: rest) = ek ++ 61 :: take (size - S (length ek)) rest) as Et.
  { rewrite take_app_ge by lia. f_equal. destruct (size - length ek)%nat as [|j] eqn:En; [lia|]. cbn. do 2 f_equal. lia. }
  rewrite Et, index_of_app by (intros Hin; by destruct (Hp 61 He Hin) as (_ & ? & _)). cbn [view_size view_at].
  destruct (Nat.eqb_spec (length ek) 0); [lia|]. rewrite take_app_length, no_brackets by (intros Hin; by destruct (Hp 93 He Hin) as (_ & _ & _ & ?)).
  rewrite andb_false_r. unfold curl_easy_unescape at 1. cbn [view_size view_at]. destruct (Nat.eqb_spec (length ek) 0); [lia|].
  unfold view_bytes at 1. cbn [view_size view_at]. rewrite take_app_length, (unesc_esc _ Henv _ _ Hb He). cbn [mbind option_bind].
  rewrite drop_app_ge by lia. replace (S (length ek) - length ek)%nat with 1%nat by lia. cbn [drop]. by rewrite Hk.
Qed.

(** The text of one pair. *)
Record piece (p k v : bytes) : Prop := {
  p_key : query_text k; p_cstr : cstr k = k; p_val : query_text v;
  p_text : exists ek ev, curl_escape env k = Some ek /\ curl_escape env v = Some ev /\ p = ek ++ 61 :: ev
}.

Lemma piece_plain p k v : piece p k v -> 38 ∉ p /\ exists c p', p = c :: p' /\ c <> 63.
Proof using Henv.
  intros [(Hne & Hkb & _) _ (_ & Hvb & _) (ek & ev & He & Hv & ->)]. pose proof (esc_length _ Henv _ _ He). split.
  - rewrite elem_of_app, elem_of_cons. intros [Hin|[?|Hin]]; [by destruct (esc_plain _ _ _ Hkb He Hin)|done|by destruct (esc_plain _ _ _ Hvb Hv Hin)].
  - destruct ek as [|c ek]; [destruct k; cbn in *; [done|lia]|]. exists c, (ek ++ 61 :: ev). split; [done|]. eapply (esc_plain _ _ c Hkb He). constructor.
Qed.

Lemma decode_piece p k v rest : piece p k v -> decode_pair env (mkView (p ++ rest) (length p)) = Some (k, v).
Proof using Henv.
  intros [Hk Hc Hv (ek & ev & He & Hev & ->)]. rewrite <- app_assoc. cbn [app].
  rewrite (decode_key k ek) by (done || (rewrite length_app; cbn; lia)). rewrite length_app. cbn [length]. replace (length ek + S (length ev) - S (length ek))%nat with (length ev) by lia.
  unfold curl_easy_unescape, view_bytes. cbn [view_size view_at]. pose proof (esc_length _ Henv _ _ Hev). destruct Hv as (Hne & Hb & _).
  destruct (Nat.eqb_spec (length ev) 0); [destruct v; cbn in *; [done|lia]|]. by rewrite take_app_length, (unesc_esc _ Henv _ _ Hb Hev).
Qed.

(** Pieces joined with [&]. *)
Fixpoint join (ps : list bytes) : bytes :=
  match ps with [] => [] | p :: ps => p ++ match ps with [] => [] | _ => 38 :: join ps end end.

Lemma join_snoc ps p : join (ps ++ [p]) = (match ps with [] => [] | _ => join ps ++ [38] end) ++ p.
Proof.
  induction ps as [|q ps IH]; [by cbn; rewrite app_nil_r|]. cbn [app]. destruct ps as [|q' ps]; [cbn; by rewrite !app_nil_r, <- app_assoc|].
  change (join (q :: (q' :: ps) ++ [p])) with (q ++ 38 :: join ((q' :: ps) ++ [p])). rewrite IH.
  change (join (q :: q' :: ps)) with (q ++ 38 :: join (q' :: ps)). rewrite <- !app_assoc. done.
Qed.

Lemma query_loop_join ps kvs : Forall2 (fun p kv => piece p kv.1 kv.2) ps kvs ->
  forall fuel, (length (join ps) <= fuel)%nat -> query_loop env fuel (join ps) = kvs.
Proof using Henv.
  induction 1 as [|p [k v] ps kvs Hp HF IH]; intros fuel Hf; [by destruct fuel|]. destruct (piece_plain _ _ _ Hp) as (H38 & c & p' & Ep & _).
  assert (exists c' s, join (p :: ps) = c' :: s) as (c' & s & Es) by (rewrite Ep; cbn; eauto).
  destruct fuel as [|fuel]; [rewrite Es in Hf; cbn in Hf; lia|]. cbn [query_loop]. rewrite Es. rewrite <- Es.
  assert (match index_of 38 (join (p :: ps)) with Some i => i | None => length (join (p :: ps)) end = length p /\ drop (S (length p)) (join (p :: ps)) = join ps) as [-> ->].
  { destruct ps as [|q ps]; cbn [join].
    - rewrite app_nil_r, index_of_None by done. split; [done|]. by rewrite drop_ge by lia.
    - rewrite index_of_app by done. split; [done|]. rewrite drop_app_ge by lia. by replace (S (length p) - length p)%nat with 1%nat by lia. }
  cbn [join]. rewrite (decode_piece p k v) by done. cbn. f_equal. apply IH. clear IH HF Es. destruct ps as [|q ps]; [cbn; lia|].
  cbn [join] in Hf. rewrite length_app in Hf. cbn [length] in Hf |- *. cbn [join]. lia.
Qed.

Lemma join_pairs ps kvs : Forall2 (fun p kv => piece p kv.1 kv.2) ps kvs -> query_pairs env (join ps) = kvs.
Proof using Henv.
  intros HF. unfold query_pairs. assert (match join ps with c :: qs => if c =? 63 then qs else join ps | [] => [] end = join ps) as E.
  { destruct HF as [|p [k v] ps kvs Hp HF]; [done|]. destruct (piece_plain _ _ _ Hp) as (_ & c & p' & -> & Hc). cbn [join app]. by rewrite (proj2 (Z.eqb_neq _ _) Hc). }
  cbv zeta. rewrite E. by apply query_loop_join.
Qed.

(** What [QueryStringBuild] appends for a pair is a piece. *)
Lemma append_piece ps k ek v : Forall (fun p => p <> []) ps -> query_text k -> cstr k = k -> query_text v -> curl_escape env k = Some ek ->
  exists p, AppendEncoded env (join ps) ek v = join (ps ++ [p]) /\ piece p k v.
Proof using Henv.
  intros Hne Hk Hc Hv He. destruct (easy_escape v Hv) as (ev & E1 & E2). exists (ek ++ 61 :: ev). split; [|split; try done; by exists ek, ev].
  unfold AppendEncoded. rewrite E1. rewrite join_snoc. destruct ps as [|q ps]; [cbn; by rewrite <- app_assoc|].
  apply Forall_cons in Hne as [Hq _]. destruct q as [|c q]; [done|]. cbn [join app]. destruct ps; cbn [app]; by rewrite <- !app_assoc.
Qed.

Definition entry_ok (e : bytes * list bytes) : Prop := query_text e.1 /\ cstr e.1 = e.1 /\ Forall query_text e.2.
Definition pairs_of (entries : list (bytes * list bytes)) : list (bytes * bytes) := concat ((fun e : bytes * list bytes => pair e.1 <$> e.2) <$> entries).

Lemma pieces_nonempty ps kvs : Forall2 (fun p kv => piece p kv.1 kv.2) ps kvs -> Forall (fun p => p <> []) ps.
Proof using Henv. induction 1 as [|p kv ps kvs Hp _ IH]; constructor; [|done]. destruct (piece_plain _ _ _ Hp) as (_ & c & p' & -> & _). done. Qed.

Lemma build_values k ek vs : query_text k -> cstr k = k -> curl_escape env k = Some ek -> Forall query_text vs ->
  forall ps kvs, Forall2 (fun p kv => piece p kv.1 kv.2) ps kvs ->
  exists ps', fold_left (fun result v => AppendEncoded env result ek v) vs (join ps) = join ps' /\
    Forall2 (fun p kv => piece p kv.1 kv.2) ps' (kvs ++ (pair k <$> vs)).
Proof using Henv.
  intros Hk Hc He Hvs. induction Hvs as [|v vs Hv _ IH]; intros ps kvs HF; [exists ps; split; [done|]; cbn; by rewrite app_nil_r|].
  cbn [fold_left]. destruct (append_piece ps k ek v) as (p & -> & Hp); try done; [by eapply pieces_nonempty|].
  destruct (IH (ps ++ [p]) (kvs ++ [(k, v)])) as (ps' & E & HF'); [apply Forall2_app; [done|]; by constructor|]. exists ps'. split; [done|].
  cbn. rewrite <- app_assoc in HF'. exact HF'.
Qed.

Lemma build_pieces entries : Forall entry_ok entries -> exists ps, build_query env entries = join ps /\ Forall2 (fun p kv => piece p kv.1 kv.2) ps (pairs_of entries).
Proof using Henv.
  intros HE. unfold build_query. enough (forall ps kvs, Forall2 (fun p kv => piece p kv.1 kv.2) ps kvs -> exists ps',
    fold_left (fun result '(key, vals) => match curl_easy_escape env key with None => result
      | Some enc_key => fold_left (fun result v => AppendEncoded env result enc_key v) vals result end) entries (join ps) = join ps' /\
    Forall2 (fun p kv => piece p kv.1 kv.2) ps' (kvs ++ pairs_of entries)) as H by (apply (H [] []); constructor).
  induction HE as [|[k vs] entries (Hk & Hc & Hvs) _ IH]; intros ps kvs HF; [exists ps; split; [done|]; cbn; by rewrite app_nil_r|].
  cbn [fst snd] in *. cbn [fold_left]. destruct (easy_escape k Hk) as (ek & -> & He). destruct (build_values k ek vs Hk Hc He Hvs ps kvs HF) as (ps1 & -> & HF1).
  destruct (IH ps1 _ HF1) as (ps2 & E & HF2). exists ps2. split; [exact E|]. unfold pairs_of in *. cbn. by rewrite <- app_assoc in HF2.
Qed.

End Codec.


(** An empty value swallows the rest of the query string.  The parser passes the
    length of the value to [curl_easy_unescape], for which 0 means [strlen]: the
    pair [k=] followed by [&rest] gets the unescaped text [&rest] as its value,
    after which the rest is parsed once more. *)
Theorem query_empty_value (env : Env) (k ek v rest : bytes) : curl_codec env -> query_text k -> cstr k = k -> curl_escape env k = Some ek ->
  curl_unescape env (38 :: rest) = Some v ->
  exists fuel, query_pairs env (ek ++ 61 :: 38 :: rest) = (k, v) :: query_loop env fuel rest /\ (length rest <= fuel)%nat.
Proof.
  intros Henv Hk Hc He Hv. pose proof Hk as (Hne & Hkb & _). pose proof (esc_length _ Henv _ _ He) as Hl.
  destruct ek as [|c ek]; [destruct k; cbn in Hl; [done|lia]|]. exists (length (ek ++ 61 :: 38 :: rest)). split; [|rewrite length_app; cbn; lia].
  assert (c <> 63) as Hq by (apply (esc_plain env Henv k _ c Hkb He); constructor). unfold query_pairs. cbn [app].
  rewrite (proj2 (Z.eqb_neq _ _) Hq). cbv zeta. cbn [query_loop length].
  assert (38 ∉ (c :: ek) ++ [61]) as H38.
  { rewrite elem_of_app. intros [Hin|Hin]; [by destruct (esc_plain env Henv k _ 38 Hkb He Hin)|set_solver]. }
  assert (c :: ek ++ 61 :: 38 :: rest = ((c :: ek) ++ [61]) ++ 38 :: rest) as E38 by (cbn; by rewrite <- app_assoc).
  rewrite E38, index_of_app by done. rewrite length_app. cbn [length]. rewrite <- app_assoc.
  change ((c :: ek) ++ [61] ++ 38 :: rest) with ((c :: ek) ++ 61 :: 38 :: rest). rewrite (decode_key env Henv k (c :: ek)) by (done || (cbn; lia)). replace (S (length ek) + 1 - S (length (c :: ek)))%nat with 0%nat by (cbn; lia).
  unfold curl_easy_unescape. cbn [view_size view_at Nat.eqb]. rewrite Hv. cbn. f_equal.
  rewrite drop_app_ge by lia. replace (S (length ek + 1) - length ek)%nat with 2%nat by lia. done.
Qed.
