(* ===== verification/TcpLoop.v ===== *)
(** * [src/natives_tcp.cpp] and the TCP part of [src/event_loop.cpp], [src/extension.cpp]

    The natives queue operations; the event thread registers the socket under
    its handle, resolves the host, drives libuv and pushes events; the game
    thread dispatches the events to the plugin and frees the handle after the
    close event.  libuv calls that return a code take it as an argument (the
    result is libuv's); [uv_close] of a handle that is closing, and work on one,
    is undefined.  Functions of one thread are one step: [handle_closed], which
    the other thread may set at any time, has one value in each. *)

From stdpp Require Import base numbers list gmap.
From Stdlib Require Import ZArith Lia.
From S2P Require Import Clock TcpSocket LinkedList LockedQueue MsgPack Prelude HandleManager NodePool DataMap DataValue Float Text DataNode HeaderMap HttpRequest EventLoop HttpState DataRefcount DataCopy JsonText JsonParse DataBuild DataHandle DataIterator Natives NativesJson.

Import Tcp.

Section TcpLoop.

Context {MO : DataMap bytes} {MI : DataMap Z} {P : Type} {PA : NodeAllocator P} {M : Type} {PC : PluginContext M}.

(** [plugin_context->GetFunctionById]: whether the plugin has the function; the
    texts of error codes. *)
Context (has_function : positive -> Z -> bool) (uv_strerror ares_strerror : Z -> bytes).

#[local] Notation N := (N (P := P) (M := M)).
#[local] Notation world := (world (P := P) (M := M)).
#[local] Notation native := (native (P := P) (M := M)).
#[local] Notation "x <- m ;; k" := (nbind m (fun x => k)) (at level 100, m at next level, right associativity).
#[local] Notation "m ;;; k" := (nbind m (fun _ => k)) (at level 100, right associativity).

(** ** Access *)

(** Dereferencing a pointer to a socket, and writing members. *)
Definition load_socket (p : positive) : N TcpSocket := fun w =>
  match objects w !! p with Some (OTcpSocket s) => Done s w | _ => UB end.
Definition upd_socket (p : positive) (f : TcpSocket -> TcpSocket) : N unit :=
  s <- load_socket p;; store_object p (OTcpSocket (f s)).

Definition GetTcpSocket (h : Z) : N (option (positive * TcpSocket)) := fun w =>
  match HandleManager.GetTcpSocket h (hm w) with
  | None => Done None w
  | Some p => match objects w !! p with Some (OTcpSocket s) => Done (Some (p, s)) w | _ => UB end
  end.

Definition upd_tcp (f : TcpLoop -> TcpLoop) : N unit := fun w => Done tt (set_tcp (f (g_tcp w)) w).

Definition EnqueueTcpOp (op : TcpOp) : N unit := upd_tcp (fun t => set_ops (Push op (tcp_op_queue t)) t).
Definition PushSocketEvent (e : SocketEvent) : N unit := upd_tcp (fun t => set_events (Push e (socket_done_queue t)) t).

(** [while (!socket_done_queue.Empty()) out.push_back(socket_done_queue.Pop());] *)
Definition DrainSocketEvents : N (list SocketEvent) := fun w =>
  match DrainAll (socket_done_queue (g_tcp w)) with
  | Some (l, q) => Done l (set_tcp (set_events q (g_tcp w)) w)
  | None => UB
  end.

(** ** The natives *)

Definition with_socket (params : list Z) (k : positive -> TcpSocket -> N Z) : N Z :=
  h <- arg params 1;; sock <- GetTcpSocket h;;
  match sock with None => nret 0 | Some (p, s) => k p s end.

Definition Native_TcpNew : native := fun pContext params =>
  userdata <- arg params 1;;
  p <- new_object (OTcpSocket (new_TcpSocket pContext userdata));;
  handle <- CreateHandle p HANDLE_TCP_SOCKET pContext;;
  if handle =? 0 then delete_object p;;; nret 0 else
  upd_socket p (set_handle_id handle);;; nret handle.

Definition funcid (c : Z) : Z := uN 32 c.

Definition Native_TcpSetCallbacks : native := fun pContext params =>
  with_socket params (fun p s =>
    a <- arg params 2;; b <- arg params 3;; c <- arg params 4;; d <- arg params 5;;
    upd_socket p (fun s => set_on_close (funcid d) (set_on_error (funcid c) (set_on_data (funcid b) (set_on_connect (funcid a) s))));;; nret 0).

Definition Native_TcpConnect : native := fun pContext params =>
  with_socket params (fun p s =>
    a <- arg params 2;; host <- local_string a;; port <- arg params 3;; EnqueueTcpOp (CONNECT (handle_id s) host port p);;; nret 0).

Definition Native_TcpBind : native := fun pContext params =>
  with_socket params (fun p s =>
    a <- arg params 2;; addr <- local_string a;; port <- arg params 3;; EnqueueTcpOp (BIND (handle_id s) addr port p);;; nret 0).

Definition Native_TcpSend : native := fun pContext params =>
  with_socket params (fun p s =>
    a <- arg params 2;; t <- try_cell a;;
    match t with
    | None => nret 0
    | Some _ =>
        length <- arg params 3;;
        if length <=? 0 then nret 0 else
        data <- local_raw a (Z.to_nat length);; EnqueueTcpOp (SEND (handle_id s) data);;; nret 0
    end).

Definition Native_TcpClose : native := fun pContext params =>
  with_socket params (fun p s =>
    upd_socket p (set_handle_closed true);;; EnqueueTcpOp (CLOSE (handle_id s));;; nret 0).

Definition Native_TcpListen : native := fun pContext params =>
  with_socket params (fun p s =>
    a <- arg params 2;; addr <- local_string a;; port <- arg params 3;; backlog <- arg params 5;; accept <- arg params 4;;
    EnqueueTcpOp (LISTEN (handle_id s) addr port (funcid accept) backlog p);;; nret 0).

Definition positive_or (value default : Z) : Z := if value >? 0 then value else default.

Definition Native_TcpSetOption : native := fun pContext params =>
  with_socket params (fun p s =>
    option <- arg params 2;; value <- arg params 3;;
    let route := EnqueueTcpOp (SET_OPTION (handle_id s) option value);;; nret 0 in
    if option =? 0 then route
    else if option =? 1 then upd_socket p (set_nodelay (negb (value =? 0)));;; nret 0
    else if option =? 2 then upd_socket p (set_keepalive (negb (value =? 0)));;; nret 0
    else if option =? 3 then upd_socket p (set_keepalive_delay (positive_or value 60));;; nret 0
    else if option =? 4 then upd_socket p (set_send_bufsize (positive_or value 0));;; route
    else if option =? 5 then upd_socket p (set_recv_bufsize (positive_or value 0));;; route
    else nret 0).

Definition g_TcpNatives : list (String.string * native) := [
  ("async2_TcpNew"%string, Native_TcpNew);
  ("async2_TcpSetCallbacks"%string, Native_TcpSetCallbacks);
  ("async2_TcpConnect"%string, Native_TcpConnect);
  ("async2_TcpBind"%string, Native_TcpBind);
  ("async2_TcpSend"%string, Native_TcpSend);
  ("async2_TcpClose"%string, Native_TcpClose);
  ("async2_TcpListen"%string, Native_TcpListen);
  ("async2_TcpSetOption"%string, Native_TcpSetOption)].

(** ** libuv *)

Definition uv_get (h : positive) : N uv_tcp_t := fun w =>
  match uv_handles (g_tcp w) !! h with Some u => Done u w | None => UB end.
Definition uv_put (h : positive) (u : uv_tcp_t) : N unit := upd_tcp (fun t => set_uvs (<[h := u]> (uv_handles t)) t).

(** A handle that is in use, not closing. *)
Definition uv_open (h : positive) : N uv_tcp_t :=
  u <- uv_get h;; match uv_closing u with None => nret u | Some _ => fun _ => UB end.

(** [new uv_tcp_t], [uv_tcp_init] and the assignment of [data]. *)
Definition new_uv (data : positive) : N positive := fun w =>
  let h := fresh_addr (uv_handles (g_tcp w)) in
  Done h (set_tcp (set_uvs (<[h := uv_tcp_init data]> (uv_handles (g_tcp w))) (g_tcp w)) w).

(** [delete] of a [uv_tcp_t]. *)
Definition delete_uv (h : positive) : N unit :=
  _ <- uv_get h;; upd_tcp (fun t => set_uvs (delete h (uv_handles t)) t).

Definition uv_close (h : positive) (cb : CloseCallback) : N unit :=
  u <- uv_open h;; uv_put h (mkUv (uv_data u) (Some cb) false false (uv_connect u) (uv_writes u)).
Definition uv_read_start (h : positive) : N unit :=
  u <- uv_open h;; uv_put h (mkUv (uv_data u) None true (uv_listening u) (uv_connect u) (uv_writes u)).
Definition uv_read_stop (h : positive) : N unit :=
  u <- uv_open h;; uv_put h (mkUv (uv_data u) None false (uv_listening u) (uv_connect u) (uv_writes u)).
Definition uv_tcp_connect (h sock : positive) (rc : Z) : N Z :=
  u <- uv_open h;;
  if rc =? 0 then uv_put h (mkUv (uv_data u) None (uv_reading u) (uv_listening u) (Some sock) (uv_writes u));;; nret rc else nret rc.
Definition uv_write (h sock : positive) (data : bytes) (rc : Z) : N Z :=
  u <- uv_open h;;
  if rc =? 0 then uv_put h (mkUv (uv_data u) None (uv_reading u) (uv_listening u) (uv_connect u) (uv_writes u ++ [(sock, data)]));;; nret rc else nret rc.
Definition uv_tcp_bind (h : positive) (rc : Z) : N Z := _ <- uv_open h;; nret rc.
Definition uv_listen (h : positive) (rc : Z) : N Z :=
  u <- uv_open h;;
  if rc =? 0 then uv_put h (mkUv (uv_data u) None (uv_reading u) true (uv_connect u) (uv_writes u));;; nret rc else nret rc.

(** [ApplyTcpOptions]: options of a handle that is in use. *)
Definition ApplyTcpOptions (s : TcpSocket) : N unit :=
  match uv_handle s with None => nret tt | Some h => _ <- uv_open h;; nret tt end.

(** ** Processing operations *)

(** [tcp_sockets_.emplace] does not replace. *)
Definition emplace (id : Z) (p : positive) : N unit :=
  upd_tcp (fun t => match tcp_sockets_ t !! id with Some _ => t | None => set_sockets (<[id := p]> (tcp_sockets_ t)) t end).
Definition erase_socket (id : Z) : N unit := upd_tcp (fun t => set_sockets (delete id (tcp_sockets_ t)) t).

(** [tcp_sockets_.find], and the members of the socket. *)
Definition find_socket (id : Z) : N (option (positive * TcpSocket)) := fun w =>
  match tcp_sockets_ (g_tcp w) !! id with
  | None => Done None w
  | Some p => (s <- load_socket p;; nret (Some (p, s))) w
  end.

Definition Resolve (r : Resolution) : N unit := upd_tcp (fun t => set_resolving (resolving t ++ [r]) t).

Definition push_error (id : Z) (s : TcpSocket) (closed : bool) (code : Z) (msg : bytes) : N unit :=
  PushSocketEvent (MakeErrorEvent TCP_ERROR id (plugin_context s) (on_error s) (userdata s) closed code msg).

Definition ProcessTcpConnect (id : Z) (host : bytes) (port : Z) (p : positive) : N unit :=
  emplace id p;;; sock <- find_socket id;;
  match sock with
  | None => nret tt
  | Some (p, s) => if handle_closed s then nret tt else upd_socket p (set_state RESOLVING);;; Resolve (R_connect id host port)
  end.

(** [if (!sock2->uv_handle) { ... }] *)
Definition ensure_uv (p : positive) (s : TcpSocket) : N positive :=
  match uv_handle s with
  | Some h => nret h
  | None => h <- new_uv p;; upd_socket p (set_uv_handle (Some h));;; s <- load_socket p;; ApplyTcpOptions s;;; nret h
  end.

(** The callback of the resolution for [CONNECT]; [rc] is what
    [uv_tcp_connect] returns. *)
Definition connect_resolved (id status rc : Z) : N unit :=
  sock <- find_socket id;;
  match sock with
  | None => nret tt
  | Some (p, s) =>
      if handle_closed s then nret tt else
      if negb (status =? 0) then push_error id s (handle_closed s) status (ares_strerror status) else
      h <- ensure_uv p s;;
      upd_socket p (set_state CONNECTING);;;
      rc <- uv_tcp_connect h p rc;;
      if negb (rc =? 0) then push_error id s (handle_closed s) rc (uv_strerror rc) else nret tt
  end.

Definition ProcessTcpSend (id : Z) (data : bytes) (rc : Z) : N unit :=
  sock <- find_socket id;;
  match sock with
  | None => nret tt
  | Some (p, s) =>
      if handle_closed s || negb (bool_decide (state s = CONNECTED)) then nret tt else
      match uv_handle s with
      | None => nret tt
      | Some h =>
          rc <- uv_write h p data rc;;
          if negb (rc =? 0) then push_error (handle_id s) s (handle_closed s) rc (uv_strerror rc) else nret tt
      end
  end.

Definition push_closed (s : TcpSocket) : N unit :=
  PushSocketEvent (MakeSocketEvent TCP_CLOSED (handle_id s) (plugin_context s) (on_close s) (userdata s) (handle_closed s)).

Definition ProcessTcpClose (id : Z) : N unit :=
  sock <- find_socket id;;
  match sock with
  | None => nret tt
  | Some (p, s) =>
      if bool_decide (state s = CLOSING) || bool_decide (state s = CLOSED) then nret tt else
      upd_socket p (set_state CLOSING);;;
      match uv_handle s with
      | Some h => uv_read_stop h;;; uv_close h CB_OnTcpClosed
      | None => upd_socket p (set_state CLOSED);;; push_closed s;;; erase_socket id
      end
  end.

Definition ProcessTcpListen (id : Z) (host : bytes) (port accept backlog : Z) (p : positive) : N unit :=
  emplace id p;;; sock <- find_socket id;;
  match sock with
  | None => nret tt
  | Some (p, s) => if handle_closed s then nret tt else upd_socket p (set_on_accept accept);;; Resolve (R_listen id backlog host port)
  end.

(** [CloseTcpHandle]: the socket forgets the handle. *)
Definition CloseTcpHandle (p : positive) : N unit :=
  s <- load_socket p;;
  match uv_handle s with None => nret tt | Some h => upd_socket p (set_uv_handle None);;; uv_close h CB_delete_handle end.

(** The callback of the resolution for [LISTEN]. *)
Definition listen_resolved (id status rc_bind rc_listen : Z) : N unit :=
  sock <- find_socket id;;
  match sock with
  | None => nret tt
  | Some (p, s) =>
      if handle_closed s then nret tt else
      if negb (status =? 0) then push_error id s false status (ares_strerror status) else
      h <- new_uv p;; upd_socket p (set_uv_handle (Some h));;; s <- load_socket p;; ApplyTcpOptions s;;;
      rc <- uv_tcp_bind h rc_bind;;
      if negb (rc =? 0) then CloseTcpHandle p;;; push_error id s false rc (uv_strerror rc) else
      rc <- uv_listen h rc_listen;;
      if negb (rc =? 0) then CloseTcpHandle p;;; push_error id s false rc (uv_strerror rc) else
      upd_socket p (set_state LISTENING)
  end.

Definition ProcessTcpBind (id : Z) (host : bytes) (port : Z) (p : positive) : N unit :=
  emplace id p;;; sock <- find_socket id;;
  match sock with None => nret tt | Some (p, s) => if handle_closed s then nret tt else Resolve (R_bind id host port) end.

(** The callback of the resolution for [BIND]. *)
Definition bind_resolved (id status rc : Z) : N unit :=
  sock <- find_socket id;;
  match sock with
  | None => nret tt
  | Some (p, s) =>
      if handle_closed s then nret tt else
      if negb (status =? 0) then push_error id s false status (ares_strerror status) else
      h <- ensure_uv p s;; rc <- uv_tcp_bind h rc;;
      if negb (rc =? 0) then CloseTcpHandle p;;; push_error id s false rc (uv_strerror rc) else nret tt
  end.

Definition ProcessTcpSetOption (id option value : Z) : N unit :=
  sock <- find_socket id;;
  match sock with
  | None => nret tt
  | Some (p, s) =>
      if option =? 0 then upd_socket p (set_max_chunk_size (positive_or value 4096)) else
      match uv_handle s with
      | None => nret tt
      | Some h => if (option =? 4) || (option =? 5) then _ <- uv_get h;; nret tt else nret tt
      end
  end.

Definition ProcessTcpAcceptConfig (id connect data error close : Z) (p : positive) : N unit :=
  emplace id p;;; sock <- find_socket id;;
  match sock with
  | None => nret tt
  | Some (p, s) =>
      upd_socket p (fun s => set_on_close close (set_on_error error (set_on_data data (set_on_connect connect s))));;;
      match uv_handle s with
      | Some h => if handle_closed s then nret tt else uv_read_start h
      | None => nret tt
      end
  end.

(** One turn of the loop of [OnAsyncTcpOp]; [rc] is what [uv_write] returns. *)
Definition process_op (rc : Z) (op : TcpOp) : N unit :=
  match op with
  | CONNECT id host port p => ProcessTcpConnect id host port p
  | SEND id data => ProcessTcpSend id data rc
  | CLOSE id => ProcessTcpClose id
  | LISTEN id host port accept backlog p => ProcessTcpListen id host port accept backlog p
  | BIND id host port p => ProcessTcpBind id host port p
  | SET_OPTION id option value => ProcessTcpSetOption id option value
  | ACCEPT_CONFIG id connect data error close p => ProcessTcpAcceptConfig id connect data error close p
  end.

Definition OnAsyncTcpOp_turn (rc : Z) : N unit := fun w =>
  match Pop (tcp_op_queue (g_tcp w)) with
  | Some (op, q) => process_op rc op (set_tcp (set_ops q (g_tcp w)) w)
  | None => UB
  end.

(** ** Callbacks of libuv *)

(** The end of a resolution: the [i]-th one. *)
Definition OnResolved (i : nat) (status rc rc_listen : Z) : N unit := fun w =>
  match resolving (g_tcp w) !! i with
  | None => UB
  | Some r =>
      (match r with
       | R_connect id _ _ => connect_resolved id status rc
       | R_listen id backlog _ _ => listen_resolved id status rc rc_listen
       | R_bind id _ _ => bind_resolved id status rc
       end) (set_tcp (set_resolving (delete i (resolving (g_tcp w))) (g_tcp w)) w)
  end.

(** The request is libuv's no longer, then the callback: [sock->uv_handle] is
    dereferenced first. *)
Definition OnTcpConnected (h : positive) (status : Z) : N unit :=
  u <- uv_get h;;
  match uv_connect u with
  | None => fun _ => UB
  | Some p =>
      uv_put h (mkUv (uv_data u) (uv_closing u) (uv_reading u) (uv_listening u) None (uv_writes u));;;
      s <- load_socket p;; h' <- nonnull (uv_handle s);; _ <- uv_get h';;
      if handle_closed s then nret tt else
      if negb (status =? 0) then push_error (handle_id s) s false status (uv_strerror status) else
      upd_socket p (set_state CONNECTED);;; uv_read_start h';;;
      PushSocketEvent (MakeSocketEvent TCP_CONNECTED (handle_id s) (plugin_context s) (on_connect s) (userdata s) false)
  end.

Definition alloc_size (s : TcpSocket) : Z := positive_or (max_chunk_size s) 4096.

(** [OnTcpAllocBuffer] *)
Definition OnTcpAllocBuffer (h : positive) : N Z := u <- uv_get h;; s <- load_socket (uv_data u);; nret (alloc_size s).

(** The pieces of the loop in [OnTcpRead]. *)
Fixpoint chunks (fuel : nat) (chunk_size : nat) (data : bytes) : list bytes :=
  match fuel, data with
  | S fuel, _ :: _ => take chunk_size data :: chunks fuel chunk_size (drop chunk_size data)
  | _, _ => []
  end.

Definition data_event (s : TcpSocket) (data : bytes) : SocketEvent :=
  mkEvent TCP_DATA (handle_id s) (plugin_context s) (on_data s) data 0 [] [] 0 None (userdata s) false.

Fixpoint push_all (es : list SocketEvent) : N unit :=
  match es with [] => nret tt | e :: es => PushSocketEvent e;;; push_all es end.

(** What libuv reports: data, the end of the stream, an error, nothing. *)
Inductive ReadResult := ReadData (data : bytes) | ReadEof | ReadError (code : Z) | ReadNothing.

Definition OnTcpRead (h : positive) (r : ReadResult) : N unit :=
  u <- uv_get h;; let p := uv_data u in
  match r with
  | ReadData data =>
      s <- load_socket p;;
      push_all (if handle_closed s then [] else data_event s <$> chunks (length data) (Z.to_nat (alloc_size s)) data)
  | ReadEof =>
      uv_read_stop h;;; upd_socket p (set_state CLOSING);;; s <- load_socket p;; h' <- nonnull (uv_handle s);; uv_close h' CB_OnTcpClosed
  | ReadError code => s <- load_socket p;; push_error (handle_id s) s (handle_closed s) code (uv_strerror code)
  | ReadNothing => nret tt
  end.

(** The oldest write is done. *)
Definition OnTcpWriteDone (h : positive) (status : Z) : N unit :=
  u <- uv_get h;;
  match uv_writes u with
  | [] => fun _ => UB
  | (p, _) :: rest =>
      uv_put h (mkUv (uv_data u) (uv_closing u) (uv_reading u) (uv_listening u) (uv_connect u) rest);;;
      s <- load_socket p;; h' <- nonnull (uv_handle s);; _ <- uv_get h';;
      if negb (status =? 0) && negb (handle_closed s) then push_error (handle_id s) s false status (uv_strerror status) else nret tt
  end.

(** The callback of [uv_close]. *)
Definition OnTcpClosed (h : positive) : N unit :=
  u <- uv_get h;; let p := uv_data u in
  upd_socket p (set_state CLOSED);;; s <- load_socket p;;
  h' <- nonnull (uv_handle s);; delete_uv h';;; upd_socket p (set_uv_handle None);;;
  push_closed s;;; erase_socket (handle_id s).

Definition OnClosed (h : positive) : N unit :=
  u <- uv_get h;;
  match uv_closing u with
  | None => fun _ => UB
  | Some CB_OnTcpClosed => OnTcpClosed h
  | Some CB_delete_handle => delete_uv h
  | Some CB_null => nret tt
  | Some CB_delete_client =>
      let p := uv_data u in
      s <- load_socket p;; h' <- nonnull (uv_handle s);; delete_uv h';;; upd_socket p (set_uv_handle None);;; delete_object p
  end.

(** [rc] is what [uv_accept] returns, [addr] and [port] are the peer's. *)
Definition OnTcpNewConnection (h : positive) (status rc : Z) (addr : bytes) (port : Z) : N unit :=
  u <- uv_get h;; listener <- load_socket (uv_data u);;
  if negb (status =? 0) || handle_closed listener then nret tt else
  client <- new_object (OTcpSocket
    (set_state CONNECTED (set_max_chunk_size (max_chunk_size listener) (set_on_close (on_close listener) (set_on_error (on_error listener)
      (set_on_data (on_data listener) (new_TcpSocket (plugin_context listener) (userdata listener))))))));;
  ch <- new_uv client;; upd_socket client (set_uv_handle (Some ch));;;
  if negb (rc =? 0) then uv_close ch CB_delete_client else
  PushSocketEvent (mkEvent TCP_ACCEPTED (handle_id listener) (plugin_context listener) (on_accept listener) [] 0 [] addr port (Some client) (userdata listener) false).

(** ** The game thread *)

Definition GetSourcepawnFunction (context : positive) (id : Z) : N bool := fun w =>
  Done (bool_decide (context ∈ g_plugin_contexts w) && has_function context id) w.

(** What is pushed for the plugin's function. *)
Inductive CallArg := ACell (c : Z) | AString (s : bytes) | ABinary (b : bytes).

Definition event_args (e : SocketEvent) (client_handle : Z) : list CallArg :=
  match e_type e with
  | TCP_CONNECTED => [ACell (e_handle_id e); ACell (e_userdata e)]
  | TCP_ACCEPTED => [ACell (e_handle_id e); ACell client_handle; AString (e_remote_addr e); ACell (e_remote_port e); ACell (e_userdata e)]
  | TCP_DATA => [ACell (e_handle_id e); ABinary (e_data e); ACell (cell (Z.of_nat (length (e_data e)))); ACell (e_userdata e)]
  | TCP_ERROR => [ACell (e_handle_id e); ACell (e_error_code e); AString (e_error_msg e); ACell (e_userdata e)]
  | TCP_CLOSED => [ACell (e_handle_id e); ACell (if e_handle_closed e then 1 else 0); ACell (e_userdata e)]
  end.

(** An accepted socket gets its handle; [None] when there is none left. *)
Definition register_accepted (e : SocketEvent) : N (option Z) :=
  client <- nonnull (e_accepted e);; s <- load_socket client;;
  client_handle <- CreateHandle client HANDLE_TCP_SOCKET (plugin_context s);;
  if client_handle =? 0 then delete_object client;;; nret None else
  upd_socket client (set_handle_id client_handle);;;
  EnqueueTcpOp (ACCEPT_CONFIG client_handle (on_connect s) (on_data s) (on_error s) (on_close s) client);;; nret (Some client_handle).

(** [DispatchSocketEvent] up to the call of the plugin's function, whose
    arguments it returns; then the rest. *)
Definition dispatch_start (e : SocketEvent) : N (option (list CallArg)) :=
  if e_handle_closed e && negb (IsCloseEvent (e_type e)) then nret None else
  fn <- GetSourcepawnFunction (e_plugin_ctx e) (e_callback e);;
  if bool_decide (e_type e = TCP_ACCEPTED) then
    client_handle <- register_accepted e;;
    match client_handle with
    | Some c => nret (if fn : bool then Some (event_args e c) else None)
    | None => nret None
    end
  else nret (if fn : bool then Some (event_args e 0) else None).

Definition dispatch_end (e : SocketEvent) : N unit := if IsCloseEvent (e_type e) then FreeHandle (e_handle_id e) else nret tt.

(** The part of [OnPluginUnloaded] for a socket of the plugin. *)
Definition close_socket (p : positive) : N unit :=
  upd_socket p (set_handle_closed true);;; s <- load_socket p;; EnqueueTcpOp (CLOSE (handle_id s)).

End TcpLoop.
