(* ===== verification/UdpLoop.v ===== *)
(** * [src/natives_udp.cpp] and the UDP part of [src/event_loop.cpp], [src/extension.cpp]

    The natives queue operations; the event thread registers the socket under
    its handle, resolves addresses, drives libuv and pushes events; the game
    thread dispatches them and frees the handle after the close event.  What the
    event thread does with one socket is a function of the socket and the loop;
    [None] is undefined behaviour: work on a libuv handle that does not exist or
    is closing.  Codes that libuv returns are arguments. *)

From stdpp Require Import base numbers list gmap.
From Stdlib Require Import ZArith Lia.
From S2P Require Import Clock UdpSocket LinkedList LockedQueue MsgPack Prelude HandleManager NodePool DataMap DataValue Float Text DataNode HeaderMap HttpRequest EventLoop HttpState DataRefcount DataCopy JsonText JsonParse DataBuild DataHandle DataIterator Natives NativesJson.

Import Udp.

(** ** libuv *)

Definition uv_open (h : positive) (t : UdpLoop) : option uv_udp_t :=
  let? u := uv_handles t !! h in if uv_closing u then None else Some u.
Definition uv_put (h : positive) (u : uv_udp_t) (t : UdpLoop) : UdpLoop := set_uvs (<[h := u]> (uv_handles t)) t.

Definition uv_udp_recv_start (h : positive) (t : UdpLoop) : option UdpLoop :=
  let? u := uv_open h t in Some (uv_put h (mkUv (uv_data u) false true (uv_sends u)) t).
Definition uv_udp_recv_stop (h : positive) (t : UdpLoop) : option UdpLoop :=
  let? u := uv_open h t in Some (uv_put h (mkUv (uv_data u) false false (uv_sends u)) t).
Definition uv_close (h : positive) (t : UdpLoop) : option UdpLoop :=
  let? u := uv_open h t in Some (uv_put h (mkUv (uv_data u) true false (uv_sends u)) t).
Definition uv_udp_send (h : positive) (data addr : bytes) (rc : Z) (t : UdpLoop) : option UdpLoop :=
  let? u := uv_open h t in
  Some (if rc =? 0 then uv_put h (mkUv (uv_data u) false (uv_receiving u) (uv_sends u ++ [(data, addr)])) t else t).

(** ** The event thread and one socket *)

Section Loop.

Context (uv_strerror ares_strerror : Z -> bytes).

Definition PushSocketEvent (e : UdpEvent) (t : UdpLoop) : UdpLoop := set_events (Push e (udp_events t)) t.

Definition push_error (id : Z) (s : UdpSocket) (closed : bool) (code : Z) (msg : bytes) (t : UdpLoop) : UdpLoop :=
  PushSocketEvent (MakeErrorEvent UDP_ERROR id (plugin_context s) (on_error s) (userdata s) closed code msg) t.

(** [ApplyUdpOptions]: options of a handle that is in use. *)
Definition ApplyUdpOptions (s : UdpSocket) (t : UdpLoop) : option unit :=
  match uv_handle s with None => Some tt | Some h => let? _ := uv_open h t in Some tt end.

(** [udp_sockets_.emplace] does not replace. *)
Definition emplace (id : Z) (p : positive) (t : UdpLoop) : UdpLoop :=
  match udp_sockets_ t !! id with Some _ => t | None => set_sockets (<[id := p]> (udp_sockets_ t)) t end.

(** [ProcessUdpBind] after the socket was found. *)
Definition ProcessUdpBind (id : Z) (addr : bytes) (port : Z) (s : UdpSocket) (t : UdpLoop) : option (UdpSocket * UdpLoop) :=
  if handle_closed s then Some (s, t) else Some (s, set_resolving (resolving t ++ [R_bind id addr port]) t).

(** The callback of its resolution, the socket at [p]; [rc], [rc_recv] are what
    [uv_udp_bind] and [uv_udp_recv_start] return. *)
Definition bind_resolved (id : Z) (p : positive) (status rc rc_recv : Z) (s : UdpSocket) (t : UdpLoop) : option (UdpSocket * UdpLoop) :=
  if handle_closed s then Some (s, t) else
  if negb (status =? 0) then Some (s, push_error id s false status (ares_strerror status) t) else
  let h := fresh_addr (uv_handles t) in
  let s := set_uv_handle (Some h) s in
  let t := uv_put h (uv_udp_init p) t in
  let? _ := ApplyUdpOptions s t in
  if negb (rc =? 0) then Some (s, push_error id s false rc (uv_strerror rc) t) else
  if negb (rc_recv =? 0) then Some (s, push_error id s false rc_recv (uv_strerror rc_recv) t) else
  let? t := uv_udp_recv_start h t in
  Some (set_state BOUND s, t).

Definition ProcessUdpSetOption (option_id option_value : Z) (s : UdpSocket) (t : UdpLoop) : option (UdpSocket * UdpLoop) :=
  match uv_handle s with
  | None => Some (s, t)
  | Some h => if (option_id =? 2) || (option_id =? 3) then let? _ := uv_handles t !! h in Some (s, t) else Some (s, t)
  end.

Definition ProcessUdpSend (id : Z) (data addr : bytes) (port : Z) (s : UdpSocket) (t : UdpLoop) : option (UdpSocket * UdpLoop) :=
  if handle_closed s || bool_decide (uv_handle s = None) then Some (s, t) else
  Some (s, set_resolving (resolving t ++ [R_send id data addr port]) t).

(** The callback of its resolution: [peer] is the address that was found. *)
Definition send_resolved (id : Z) (data peer : bytes) (status rc : Z) (s : UdpSocket) (t : UdpLoop) : option (UdpSocket * UdpLoop) :=
  match uv_handle s with
  | None => Some (s, t)
  | Some h =>
      if handle_closed s then Some (s, t) else
      if negb (status =? 0) then Some (s, push_error id s false status (ares_strerror status) t) else
      let? t := uv_udp_send h data peer rc t in Some (s, t)
  end.

Definition push_closed (s : UdpSocket) (t : UdpLoop) : UdpLoop :=
  PushSocketEvent (MakeSocketEvent UDP_CLOSED (handle_id s) (plugin_context s) (on_close s) (userdata s) (handle_closed s)) t.

Definition erase (id : Z) (t : UdpLoop) : UdpLoop := set_sockets (delete id (udp_sockets_ t)) t.

Definition ProcessUdpClose (id : Z) (s : UdpSocket) (t : UdpLoop) : option (UdpSocket * UdpLoop) :=
  if bool_decide (state s = CLOSING) || bool_decide (state s = CLOSED) then Some (s, t) else
  let s := set_state CLOSING s in
  match uv_handle s with
  | Some h => let? t := uv_udp_recv_stop h t in let? t := uv_close h t in Some (s, t)
  | None => let s := set_state CLOSED s in Some (s, erase id (push_closed s t))
  end.

(** What libuv reports: a datagram with its sender, none, or an error; [ip] is
    the text of [inet_ntop]. *)
Inductive RecvResult := RecvData (data ip : bytes) (port : Z) | RecvNothing | RecvError (code : Z).

Definition OnUdpRead (r : RecvResult) (s : UdpSocket) (t : UdpLoop) : option (UdpSocket * UdpLoop) :=
  match r with
  | RecvData data ip port =>
      if handle_closed s || bool_decide (data = []) then Some (s, t) else
      Some (s, PushSocketEvent (mkEvent UDP_DATA (handle_id s) (plugin_context s) (on_data s) data 0 [] ip port (userdata s) false) t)
  | RecvNothing => Some (s, t)
  | RecvError code => Some (s, push_error (handle_id s) s (handle_closed s) code (uv_strerror code) t)
  end.

(** [delete sock->uv_handle], the event, and [udp_sockets_.erase]. *)
Definition OnUdpClosed (s : UdpSocket) (t : UdpLoop) : option (UdpSocket * UdpLoop) :=
  let s := set_state CLOSED s in
  let? h := uv_handle s in
  let? _ := uv_handles t !! h in
  let t := set_uvs (delete h (uv_handles t)) t in
  let s := set_uv_handle None s in
  Some (s, erase (handle_id s) (push_closed s t)).

(** [OnUdpSendDone]: the oldest send is done; its buffer is freed. *)
Definition OnUdpSendDone (h : positive) (t : UdpLoop) : option UdpLoop :=
  let? u := uv_handles t !! h in
  match uv_sends u with
  | [] => None
  | _ :: rest => Some (uv_put h (mkUv (uv_data u) (uv_closing u) (uv_receiving u) rest) t)
  end.

End Loop.

(** ** In the world *)

Section UdpLoop.

Context {MO : DataMap bytes} {MI : DataMap Z} {P : Type} {PA : NodeAllocator P} {M : Type} {PC : PluginContext M}.
Context (has_function : positive -> Z -> bool) (uv_strerror ares_strerror : Z -> bytes).

#[local] Notation N := (N (P := P) (M := M)).
#[local] Notation native := (native (P := P) (M := M)).
#[local] Notation "x <- m ;; k" := (nbind m (fun x => k)) (at level 100, m at next level, right associativity).
#[local] Notation "m ;;; k" := (nbind m (fun _ => k)) (at level 100, right associativity).

Definition GetUdpSocket (h : Z) : N (option (positive * UdpSocket)) := fun w =>
  match HandleManager.GetUdpSocket h (hm w) with
  | None => Done None w
  | Some p => match objects w !! p with Some (OUdpSocket s) => Done (Some (p, s)) w | _ => UB end
  end.

Definition upd_udp (f : UdpLoop -> UdpLoop) : N unit := fun w => Done tt (set_udp (f (g_udp w)) w).

Definition EnqueueUdpOp (op : UdpOp) : N unit := upd_udp (fun t => set_ops (Push op (udp_op_queue t)) t).

(** *** The natives *)

Definition with_socket (params : list Z) (k : positive -> UdpSocket -> N Z) : N Z :=
  h <- arg params 1;; sock <- GetUdpSocket h;;
  match sock with None => nret 0 | Some (p, s) => k p s end.

Definition store_socket (p : positive) (s : UdpSocket) : N unit := store_object p (OUdpSocket s).

Definition Native_UdpNew : native := fun pContext params =>
  userdata <- arg params 1;;
  let s := new_UdpSocket pContext userdata in
  p <- new_object (OUdpSocket s);;
  handle <- CreateHandle p HANDLE_UDP_SOCKET pContext;;
  if handle =? 0 then delete_object p;;; nret 0 else
  store_socket p (set_handle_id handle s);;; nret handle.

Definition funcid (c : Z) : Z := uN 32 c.

Definition Native_UdpSetCallbacks : native := fun pContext params =>
  with_socket params (fun p s =>
    a <- arg params 2;; b <- arg params 3;; c <- arg params 4;;
    store_socket p (set_on_close (funcid c) (set_on_error (funcid b) (set_on_data (funcid a) s)));;; nret 0).

Definition Native_UdpBind : native := fun pContext params =>
  with_socket params (fun p s =>
    a <- arg params 2;; addr <- local_string a;; port <- arg params 3;; EnqueueUdpOp (BIND (handle_id s) addr port p);;; nret 0).

Definition Native_UdpSend : native := fun pContext params =>
  with_socket params (fun p s =>
    a <- arg params 2;; t <- try_cell a;;
    match t with
    | None => nret 0
    | Some _ =>
        length <- arg params 3;;
        if length <=? 0 then nret 0 else
        b <- arg params 4;; addr <- local_string b;; port <- arg params 5;;
        data <- local_raw a (Z.to_nat length);; EnqueueUdpOp (SEND (handle_id s) data addr port);;; nret 0
    end).

Definition Native_UdpClose : native := fun pContext params =>
  with_socket params (fun p s => store_socket p (set_handle_closed true s);;; EnqueueUdpOp (CLOSE (handle_id s));;; nret 0).

Definition positive_or_zero (value : Z) : Z := if value >? 0 then value else 0.

Definition Native_UdpSetOption : native := fun pContext params =>
  with_socket params (fun p s =>
    option <- arg params 2;; value <- arg params 3;;
    let route := EnqueueUdpOp (SET_OPTION (handle_id s) option value);;; nret 0 in
    if option =? 0 then store_socket p (set_broadcast (negb (value =? 0)) s);;; nret 0
    else if option =? 1 then store_socket p (set_ttl (positive_or_zero value) s);;; nret 0
    else if option =? 2 then store_socket p (set_send_bufsize (positive_or_zero value) s);;; route
    else if option =? 3 then store_socket p (set_recv_bufsize (positive_or_zero value) s);;; route
    else nret 0).

Definition g_UdpNatives : list (String.string * native) := [
  ("async2_UdpNew"%string, Native_UdpNew);
  ("async2_UdpSetCallbacks"%string, Native_UdpSetCallbacks);
  ("async2_UdpBind"%string, Native_UdpBind);
  ("async2_UdpSend"%string, Native_UdpSend);
  ("async2_UdpClose"%string, Native_UdpClose);
  ("async2_UdpSetOption"%string, Native_UdpSetOption)].

(** *** Operations and callbacks *)

(** The socket at an address and the loop change; the address must be one of a
    socket. *)
Definition on_socket (p : positive) (f : UdpSocket -> UdpLoop -> option (UdpSocket * UdpLoop)) : N unit := fun w =>
  match objects w !! p with
  | Some (OUdpSocket s) =>
      match f s (g_udp w) with
      | Some (s', t) => Done tt (set_udp t (set_objects (<[p := OUdpSocket s']> (objects w)) w))
      | None => UB
      end
  | _ => UB
  end.

(** [udp_sockets_.find]: nothing happens when there is no entry. *)
Definition on_registered (id : Z) (f : positive -> UdpSocket -> UdpLoop -> option (UdpSocket * UdpLoop)) : N unit := fun w =>
  match udp_sockets_ (g_udp w) !! id with None => Done tt w | Some p => on_socket p (f p) w end.

Definition process_op (op : UdpOp) : N unit :=
  match op with
  | BIND id addr port p => upd_udp (emplace id p);;; on_registered id (fun _ => ProcessUdpBind id addr port)
  | SEND id data addr port => on_registered id (fun _ => ProcessUdpSend id data addr port)
  | CLOSE id => on_registered id (fun _ => ProcessUdpClose id)
  | SET_OPTION id option value => on_registered id (fun _ => ProcessUdpSetOption option value)
  end.

(** One turn of the loop of [OnAsyncUdpOp]. *)
Definition OnAsyncUdpOp_turn : N unit := fun w =>
  match Pop (udp_op_queue (g_udp w)) with
  | Some (op, q) => process_op op (set_udp (set_ops q (g_udp w)) w)
  | None => UB
  end.

(** The end of the [i]-th resolution. *)
Definition OnResolved (i : nat) (status rc rc_recv : Z) (peer : bytes) : N unit := fun w =>
  match resolving (g_udp w) !! i with
  | None => UB
  | Some r =>
      (match r with
       | R_bind id _ _ => on_registered id (fun p => bind_resolved uv_strerror ares_strerror id p status rc rc_recv)
       | R_send id data _ _ => on_registered id (fun _ => send_resolved ares_strerror id data peer status rc)
       end) (set_udp (set_resolving (delete i (resolving (g_udp w))) (g_udp w)) w)
  end.

(** A callback of libuv for a handle: its [data] is the socket. *)
Definition uv_callback (h : positive) (f : UdpSocket -> UdpLoop -> option (UdpSocket * UdpLoop)) : N unit := fun w =>
  match uv_handles (g_udp w) !! h with Some u => on_socket (uv_data u) f w | None => UB end.

Definition udp_read (h : positive) (r : RecvResult) : N unit := uv_callback h (OnUdpRead uv_strerror r).
Definition udp_closed (h : positive) : N unit := uv_callback h OnUdpClosed.
Definition udp_send_done (h : positive) : N unit := fun w =>
  match OnUdpSendDone h (g_udp w) with Some t => Done tt (set_udp t w) | None => UB end.

(** *** The game thread *)

Definition GetSourcepawnFunction (context : positive) (id : Z) : N bool := fun w =>
  Done (bool_decide (context ∈ g_plugin_contexts w) && has_function context id) w.

(** What is pushed for the plugin's function. *)
Inductive UdpArg := ACell (c : Z) | AString (s : bytes) | ABinary (b : bytes).

Definition event_args (e : UdpEvent) : list UdpArg :=
  match e_type e with
  | UDP_DATA => [ACell (e_handle_id e); ABinary (e_data e); ACell (cell (Z.of_nat (length (e_data e)))); AString (e_remote_addr e);
                 ACell (e_remote_port e); ACell (e_userdata e)]
  | UDP_ERROR => [ACell (e_handle_id e); ACell (e_error_code e); AString (e_error_msg e); ACell (e_userdata e)]
  | UDP_CLOSED => [ACell (e_handle_id e); ACell (if e_handle_closed e then 1 else 0); ACell (e_userdata e)]
  end.

Definition is_closed (e : UdpEvent) : bool := bool_decide (e_type e = UDP_CLOSED).

(** [DispatchSocketEvent] up to the plugin's function, then the rest. *)
Definition dispatch_start (e : UdpEvent) : N (option (list UdpArg)) :=
  if e_handle_closed e && negb (is_closed e) then nret None else
  fn <- GetSourcepawnFunction (e_plugin_ctx e) (e_callback e);; nret (if fn : bool then Some (event_args e) else None).

Definition dispatch_end (e : UdpEvent) : N unit := if is_closed e then FreeHandle (e_handle_id e) else nret tt.

Definition DrainSocketEvents : N (list UdpEvent) := fun w =>
  match DrainAll (udp_events (g_udp w)) with
  | Some (l, q) => Done l (set_udp (set_events q (g_udp w)) w)
  | None => UB
  end.

(** The part of [OnPluginUnloaded] for a UDP socket of the plugin. *)
Definition close_udp (p : positive) : N unit := fun w =>
  match objects w !! p with
  | Some (OUdpSocket s) => (store_socket p (set_handle_closed true s);;; EnqueueUdpOp (CLOSE (handle_id s))) w
  | _ => UB
  end.

End UdpLoop.
