(* ===== verification/WsLoop.v ===== *)
(** * The WebSocket part of [src/event_loop.cpp]: the event thread and one connection

    The event thread connects with libcurl, polls the socket, puts the pieces of
    a message together, answers closes, reconnects, and reports events.  What it
    does with a connection is a function of the connection and the loop; [None]
    is undefined behaviour: stopping a timer, poll or easy handle that does not
    exist, or an [int] that overflows.  Codes and handles that libcurl returns
    are arguments. *)

From stdpp Require Import base numbers list gmap.
From Stdlib Require Import ZArith Lia.
From S2P Require Import WsConnection LockedQueue MsgPack Prelude NodePool DataMap DataValue Float Text DataNode HeaderMap HttpRequest DataRefcount JsonParse DataBuild.

Import Ws.

Definition CURLE_GOT_NOTHING : Z := 52.
Definition CURLE_AGAIN : Z := 81.

(** An [int] product. *)
Definition mul_int (a b : Z) : option Z := if bool_decide (s_range 32 (a * b)) then Some (a * b) else None.

Section WsLoop.

(** libuv's and libcurl's texts of error codes, and
    [static_cast<int>(reconnect_delay_ms * std::pow(reconnect_backoff, reconnect_count - 1))]
    of the three, [None] when the product is no [int]. *)
Context (uv_strerror curl_easy_strerror : Z -> bytes) (backoff : Z -> Z -> Z -> option Z).

#[local] Notation step := (option (WsConnection * WsLoop)).

(** ** Events *)

Definition PushSocketEvent (e : WsEvent) t : WsLoop := set_events (Push e (ws_events t)) t.

Definition error_event c (code : Z) (msg : bytes) : WsEvent :=
  MakeErrorEvent WS_ERROR (handle_id c) (plugin_context c) (on_error c) (userdata c) false code msg.

Definition closed_event c (closed : bool) : WsEvent :=
  MakeSocketEvent WS_CLOSED (handle_id c) (plugin_context c) (on_close c) (userdata c) closed.

Definition PushWsClosedOnce (e : WsEvent) c t : WsConnection * WsLoop :=
  if close_event_pushed_ c then (c, t) else (set_close_pushed true c, PushSocketEvent e t).

(** ** Timers, polls and easy handles *)

(** [uv_timer_stop] and [uv_close]; libuv deletes the timer later. *)
Definition stop_timer (h : positive) t : option WsLoop := let? _ := timers t !! h in Some (set_timers (delete h (timers t)) t).

Definition start_timer (x : uv_timer_t) t : positive * WsLoop :=
  let h := fresh_addr (timers t) in (h, set_timers (<[h := x]> (timers t)) t).

Definition erase_connection (id : Z) t : WsLoop := set_connections (delete id (ws_connections_ t)) t.

(** [conn] is the address of the connection. *)
Definition WsStartPingTimer (conn : positive) c t : step :=
  let? ms := mul_int (ping_interval c) 1000 in
  let '(h, t) := start_timer (mkTimer T_ping conn ms ms) t in Some (set_ping_timer (Some h) c, t).

Definition stop_close_timer c t : step :=
  match close_timer_ c with None => Some (c, t) | Some h => let? t := stop_timer h t in Some (set_close_timer None c, t) end.
Definition stop_ping_timer c t : step :=
  match ping_timer_ c with None => Some (c, t) | Some h => let? t := stop_timer h t in Some (set_ping_timer None c, t) end.
Definition stop_reconnect_timer c t : step :=
  match reconnect_timer_ c with
  | None => Some (c, t)
  | Some h =>
      let? t := stop_timer h (set_reconnect_timers (ws_reconnect_timers_ t ∖ {[h]}) t) in Some (set_reconnect_timer None c, t)
  end.

Definition WsStopTimers c t : step :=
  let? (c, t) := stop_close_timer c t in let? (c, t) := stop_ping_timer c t in stop_reconnect_timer c t.

(** [uv_poll_stop] and [uv_close]. *)
Definition stop_poll c t : step :=
  match uv_poll c with
  | None => Some (c, t)
  | Some h => let? _ := polls t !! h in Some (set_poll None c, set_polls (delete h (polls t)) t)
  end.

(** [curl_multi_remove_handle] and [curl_easy_cleanup]. *)
Definition easy_cleanup (easy : positive) t : option WsLoop := let? _ := easies t !! easy in Some (set_easies (delete easy (easies t)) t).

Definition drop_easy c t : step :=
  match curl_handle c with
  | None => Some (c, t)
  | Some easy =>
      let? t := easy_cleanup easy (set_curl_handles (ws_curl_handles_ t ∖ {[easy]}) t) in Some (set_curl None c, t)
  end.

Definition WsCleanup (keep_connection : bool) c t : step :=
  let? (c, t) := WsStopTimers c t in
  let? (c, t) := stop_poll c t in
  let? (c, t) := drop_easy c t in
  let c := set_built [] c in
  if keep_connection then Some (set_state RECONNECTING (set_close_sent false (set_fragmented false (set_message_buf [] c))), t)
  else Some (set_state CLOSED c, erase_connection (handle_id c) t).

(** The event is made before the cleanup. *)
Definition close_with (e : WsEvent) c t : step := let? (c, t) := WsCleanup false c t in Some (PushWsClosedOnce e c t).

(** ** Reconnecting *)

Definition WsShouldReconnect c : bool :=
  if handle_closed c then false
  else if bool_decide (state c = CLOSING) then false
  else if max_reconnects c =? 0 then false
  else negb ((max_reconnects c >? 0) && (reconnect_count c >=? max_reconnects c)).

(** A number drawn from [[0, n]], given by any natural number; a negative bound
    is undefined. *)
Definition uniform (rng n : Z) : option Z := if n <? 0 then None else Some (rng mod (n + 1)).

Definition WsStartReconnect (rng : Z) (conn : positive) c t : step :=
  let? (c, t) := WsCleanup true c t in
  let c := set_reconnect_count (sN 32 (reconnect_count c + 1)) c in
  let? scaled := backoff (reconnect_delay_ms c) (reconnect_backoff c) (reconnect_count c) in
  let? delay := uniform rng (retry_delay scaled (reconnect_max_delay_ms c)) in
  let '(h, t) := start_timer (mkTimer T_reconnect conn delay 0) t in
  Some (set_reconnect_timer (Some h) c, set_reconnect_timers ({[h]} ∪ ws_reconnect_timers_ t) t).

(** The two overloads: [code] is set by the second. *)
Definition WsDisconnectOrReconnect (rng : Z) (conn : positive) (code : option (Z * bytes)) c t : step :=
  if WsShouldReconnect c then WsStartReconnect rng conn c t else
  let e := closed_event c (handle_closed c) in
  let e := match code with
           | Some (error_code, msg) => mkEvent (e_type e) (e_handle_id e) (e_plugin_ctx e) (e_callback e) [] error_code msg (e_userdata e) (e_handle_closed e) false None 0 0
           | None => e
           end in
  close_with e c t.

(** [easy] is what [curl_easy_init] returns; [false] when it is null. *)
Definition WsInitCurl (easy : option positive) (conn : positive) c t : bool * WsConnection * WsLoop :=
  match easy with
  | None => (false, c, t)
  | Some easy =>
      let c := set_state CONNECTING (set_curl (Some easy) c) in
      let c := set_built (BuildHeaderSlist (headers_ c) None) c in
      (true, c, set_easies (<[easy := conn]> (easies t)) (set_curl_handles ({[easy]} ∪ ws_curl_handles_ t) t))
  end.

Definition WsReconnect (easy : option positive) (conn : positive) c t : WsConnection * WsLoop :=
  match WsInitCurl easy conn c t with
  | (true, c, t) => (c, t)
  | (false, c, t) =>
      let t := PushSocketEvent (error_event c (-1) (str "curl_easy_init failed during reconnect")) t in
      let e := closed_event c false in
      let c := set_state CLOSED c in
      PushWsClosedOnce e c (erase_connection (handle_id c) t)
  end.

(** A timer that fired. *)
Definition OnWsReconnectTimer (h : positive) (easy : option positive) (conn : positive) c t : step :=
  let t := set_reconnect_timers (ws_reconnect_timers_ t ∖ {[h]}) t in
  let? t := stop_timer h t in
  let c := set_reconnect_timer None c in
  if handle_closed c then
    let e := closed_event c true in
    let c := set_state CLOSED c in
    Some (PushWsClosedOnce e c (erase_connection (handle_id c) t))
  else Some (WsReconnect easy conn c t).

Definition OnWsCloseTimeout (h : positive) c t : step :=
  let c := set_close_timer None c in
  let? t := stop_timer h t in
  close_with (closed_event c (handle_closed c)) c t.

(** [curl_ws_send]: what is sent when libcurl takes it. *)
Definition curl_ws_send (easy : positive) (data : bytes) (flags rc : Z) t : option WsLoop :=
  let? _ := easies t !! easy in Some (if rc =? 0 then set_sent (sent t ++ [(easy, flags, data)]) t else t).

Definition OnWsPingTimer (rc : Z) c t : step :=
  match curl_handle c with
  | None => Some (c, t)
  | Some easy =>
      if handle_closed c || negb (bool_decide (state c = CONNECTED)) then Some (c, t) else
      let? t := curl_ws_send easy [] CURLWS_PING rc t in Some (c, t)
  end.

(** ** Operations *)

(** [ws_connections_.emplace] does not replace. *)
Definition emplace (id : Z) (conn : positive) t : WsLoop :=
  match ws_connections_ t !! id with Some _ => t | None => set_connections (<[id := conn]> (ws_connections_ t)) t end.

Definition ProcessWsConnect (id : Z) (url : bytes) (easy : option positive) (conn : positive) c t : step :=
  let t := emplace id conn t in
  let c := set_url url c in
  if handle_closed c then Some (c, t) else
  match WsInitCurl easy conn c t with
  | (true, c, t) => Some (c, t)
  | (false, c, t) => Some (c, erase_connection id (PushSocketEvent (error_event c (-1) (str "curl_easy_init failed")) t))
  end.

(** Whether [ProcessWsSend] sends at all. *)
Definition can_send c : bool :=
  negb (handle_closed c) && negb (bool_decide (curl_handle c = None)) && bool_decide (state c = CONNECTED).

Definition send_flags (k : SendType) : Z :=
  match k with SEND_TEXT | SEND_JSON => CURLWS_TEXT | SEND_BINARY | SEND_MSGPACK => CURLWS_BINARY | SEND_PING => CURLWS_PING end.

(** [ProcessWsSend] once the data is there. *)
Definition send_data (k : SendType) (data : bytes) (rc : Z) c t : step :=
  let? easy := curl_handle c in
  let? t := curl_ws_send easy data (send_flags k) rc t in
  Some (c, if negb (rc =? CURLE_OK) && negb (rc =? CURLE_AGAIN) then PushSocketEvent (error_event c rc (curl_easy_strerror rc)) t else t).

(** Two bytes of code and at most 123 of the reason. *)
Definition close_payload (code : Z) (reason : bytes) : bytes :=
  [Z.land (Z.shiftr code 8) 255; Z.land code 255] ++ take 123 reason.

Definition ProcessWsClose (code : Z) (reason : bytes) (rc : Z) (conn : positive) c t : step :=
  if bool_decide (state c = CLOSING) || bool_decide (state c = CLOSED) then Some (c, t) else
  if bool_decide (state c = RECONNECTING) then
    let e := closed_event c (handle_closed c) in
    let? (c, t) := WsStopTimers c t in
    let c := set_state CLOSED c in
    Some (PushWsClosedOnce e c (erase_connection (handle_id c) t))
  else
    match curl_handle c, uv_poll c with
    | Some easy, Some _ =>
        if bool_decide (state c = CONNECTED) && negb (close_sent_ c) then
          let c := set_state CLOSING c in
          let? t := curl_ws_send easy (close_payload code reason) CURLWS_CLOSE rc t in
          let c := set_close_sent true c in
          let? ms := mul_int (close_timeout c) 1000 in
          let '(h, t) := start_timer (mkTimer T_close conn ms 0) t in Some (set_close_timer (Some h) c, t)
        else close_with (closed_event c (handle_closed c)) c t
    | _, _ => close_with (closed_event c (handle_closed c)) c t
    end.

Definition positive_or (value default : Z) : Z := if value >? 0 then value else default.

Definition ProcessWsSetOption (option_id value : Z) (conn : positive) c t : step :=
  if option_id =? 0 then Some (set_max_message_size (positive_or value (16 * 1024 * 1024)) c, t)
  else if option_id =? 1 then Some (set_auto_pong (negb (value =? 0)) c, t)
  else if option_id =? 2 then
    let c := set_ping_interval (positive_or value 0) c in
    if bool_decide (state c = CONNECTED) then
      let? (c, t) := stop_ping_timer c t in
      if ping_interval c >? 0 then WsStartPingTimer conn c t else Some (c, t)
    else Some (c, t)
  else if option_id =? 3 then Some (set_close_timeout (positive_or value 5) c, t)
  else Some (c, t).

(** ** The end of a transfer: [CheckCompletedJobs] for an easy handle of a connection *)

Definition ws_completed (easy : positive) (result rng : Z) (conn : positive) c t : step :=
  let t := set_curl_handles (ws_curl_handles_ t ∖ {[easy]}) t in
  if handle_closed c then
    let e := closed_event c true in
    let? t := easy_cleanup easy t in
    let c := set_state CLOSED (set_curl None c) in
    Some (PushWsClosedOnce e c (erase_connection (handle_id c) t))
  else if result =? CURLE_OK then
    let h := fresh_addr (polls t) in
    let t := set_polls (<[h := conn]> (polls t)) t in
    let c := set_reconnect_count 0 (set_state CONNECTED (set_poll (Some h) c)) in
    let? (c, t) := if ping_interval c >? 0 then WsStartPingTimer conn c t else Some (c, t) in
    Some (c, PushSocketEvent (MakeSocketEvent WS_CONNECTED (handle_id c) (plugin_context c) (on_connect c) (userdata c) false) t)
  else
    let t := PushSocketEvent (error_event c result (curl_easy_strerror result)) t in
    let? t := easy_cleanup easy t in
    WsDisconnectOrReconnect rng conn None (set_curl None c) t.

(** ** Received frames *)

(** What [curl_ws_recv] returns: a piece of a frame with its flags and what is
    left of the frame, a piece without data about its frame, or a code. *)
Inductive WsRecv := RecvFrame (flags bytesleft : Z) (data : bytes) | RecvNoMeta | RecvCode (rc : Z).

Definition has_flag (flags f : Z) : bool := negb (Z.land flags f =? 0).

(** The close frame's code and reason. *)
Definition close_frame (data : bytes) : Z * bytes :=
  match data with b0 :: b1 :: reason => (Z.lor (Z.shiftl b0 8) b1, reason) | _ => (1005, []) end.

Definition recv_close (data : bytes) (rc rng : Z) (conn : positive) c t : step :=
  let? (c, t) :=
    if close_sent_ c then Some (c, t) else
    let? easy := curl_handle c in
    let? t := curl_ws_send easy (if bool_decide (2 <= length data)%nat then take 2 data else []) CURLWS_CLOSE rc t in
    Some (set_close_sent true c, t) in
  WsDisconnectOrReconnect rng conn (Some (close_frame data)) c t.

(** A message that is larger than allowed. *)
Definition message_too_big (rc : Z) c t : step :=
  let t := PushSocketEvent (error_event c 1009 (str "Message exceeds max_message_size")) t in
  let? easy := curl_handle c in
  let? t := curl_ws_send easy [3; 241] CURLWS_CLOSE rc t in
  let c := set_close_sent true c in
  close_with (closed_event c (handle_closed c)) c t.

(** The start of a message: its type is that of the first piece. *)
Definition start_message (flags : Z) c : WsConnection :=
  if in_fragmented_message_ c then c else set_message_buf [] (set_is_binary (has_flag flags CURLWS_BINARY) c).

(** What a message is turned into: raw bytes or nodes. *)
Section Message.

Context {MO : DataMap bytes} {MI : DataMap Z} {P : Type} {PA : NodeAllocator P}.
Context (iterate : bytes -> option od_value) (limit : Z).
#[local] Notation heap := (store (P := P)).

Definition parse_message c (st : heap) : option (option loc * heap) :=
  if parse_messages c >? 0 then
    if is_binary_message_ c then let? (n, st) := MakeBinary (message_buf_ c) st in Some (Some n, st)
    else if parse_messages c =? 1 then DataParseJson iterate (message_buf_ c) st
    else if parse_messages c =? 2 then ParseMsgPack limit (message_buf_ c) st
    else Some (None, st)
  else Some (None, st).

(** The message is complete: [DataParseJson] and [MsgPackParse] leave the bytes
    to the game thread when they fail. *)
Definition message_event c (node : option loc) : WsEvent :=
  mkEvent WS_MESSAGE (handle_id c) (plugin_context c) (on_message c)
    (match node with Some _ => [] | None => if parse_messages c >? 0 then (if is_binary_message_ c then [] else if (parse_messages c =? 1) || (parse_messages c =? 2) then message_buf_ c else []) else message_buf_ c end)
    0 [] (userdata c) false (is_binary_message_ c) node (parse_messages c) (on_error c).

Definition complete_message c t (st : heap) : option (WsConnection * WsLoop * heap) :=
  let c := set_fragmented false c in
  let? (node, st) := parse_message c st in
  Some (set_message_buf [] c, PushSocketEvent (message_event c node) t, st).

(** One turn of the loop of [OnWsPollActivity]; [true] when it goes on. *)
Definition poll_turn (r : WsRecv) (rc rng : Z) (conn : positive) c t (st : heap) : option (bool * WsConnection * WsLoop * heap) :=
  let stop (x : step) := let? (c, t) := x in Some (false, c, t, st) in
  match r with
  | RecvCode code =>
      if code =? CURLE_AGAIN then Some (false, c, t, st)
      else if code =? CURLE_GOT_NOTHING then stop (WsDisconnectOrReconnect rng conn None c t)
      else stop (WsDisconnectOrReconnect rng conn None c (PushSocketEvent (error_event c code (curl_easy_strerror code)) t))
  | RecvNoMeta => Some (true, c, t, st)
  | RecvFrame flags bytesleft data =>
      if has_flag flags CURLWS_CLOSE then stop (recv_close data rc rng conn c t)
      else if has_flag flags CURLWS_PING then Some (true, c, t, st)
      else if has_flag flags CURLWS_PONG then
        Some (true, c, if on_pong c =? 0 then t else
          PushSocketEvent (mkEvent WS_PONG (handle_id c) (plugin_context c) (on_pong c) data 0 [] (userdata c) false false None 0 0) t, st)
      else if handle_closed c then Some (false, c, t, st)
      else
        let c := start_message flags c in
        if Z.of_nat (length (message_buf_ c)) + Z.of_nat (length data) >? uN 64 (max_message_size c) then stop (message_too_big rc c t)
        else
          let c := set_message_buf (message_buf_ c ++ data) c in
          if has_flag flags CURLWS_CONT || (bytesleft >? 0) then Some (true, set_fragmented true c, t, st)
          else let? (c, t, st) := complete_message c t st in Some (true, c, t, st)
  end.

(** The loop: libcurl's results one after another, until the loop ends. *)
Fixpoint poll_loop (rs : list WsRecv) (rc rng : Z) (conn : positive) c t (st : heap) : option (WsConnection * WsLoop * heap) :=
  match rs with
  | [] => Some (c, t, st)
  | r :: rs =>
      let? (more, c, t, st) := poll_turn r rc rng conn c t st in
      if more : bool then poll_loop rs rc rng conn c t st else Some (c, t, st)
  end.

(** [status] is libuv's; [rc] is what [curl_ws_send] returns. *)
Definition OnWsPollActivity (status : Z) (rs : list WsRecv) (rc rng : Z) (conn : positive) c t (st : heap) : option (WsConnection * WsLoop * heap) :=
  let plain (x : step) := let? (c, t) := x in Some (c, t, st) in
  if handle_closed c then plain (close_with (closed_event c true) c t)
  else if status <? 0 then
    plain (WsDisconnectOrReconnect rng conn None c (PushSocketEvent (error_event c status (uv_strerror status)) t))
  else poll_loop rs rc rng conn c t st.

End Message.

End WsLoop.
