(* ===== verification/NativesWs.v ===== *)
(** * [src/natives_ws.cpp] and WebSockets in the world

    The natives configure a connection and queue operations; the event thread's
    functions of [WsLoop.v] are applied to the connection they find; the game
    thread dispatches the events ([src/extension.cpp]). *)

From stdpp Require Import base numbers list gmap.
From Stdlib Require Import ZArith Lia.
From S2P Require Import Clock WsConnection LinkedList LockedQueue MsgPack Prelude HandleManager NodePool DataMap DataValue Float Text DataNode HeaderMap HttpRequest EventLoop HttpState DataRefcount DataCopy JsonText JsonParse DataBuild DataHandle DataIterator Natives NativesJson WsLoop.

Import Ws.

Section NativesWs.

Context {MO : DataMap bytes} {MI : DataMap Z} {P : Type} {PA : NodeAllocator P} {M : Type} {PC : PluginContext M}.

#[local] Notation N := (N (P := P) (M := M)).
#[local] Notation native := (native (P := P) (M := M)).
#[local] Notation heap := (store (P := P)).
#[local] Notation "x <- m ;; k" := (nbind m (fun x => k)) (at level 100, m at next level, right associativity).
#[local] Notation "m ;;; k" := (nbind m (fun _ => k)) (at level 100, right associativity).

(** ** The natives *)

Definition GetWsSocket (h : Z) : N (option (positive * WsConnection)) := fun w =>
  match HandleManager.GetWsSocket h (hm w) with
  | None => Done None w
  | Some p => match objects w !! p with Some (OWsConnection c) => Done (Some (p, c)) w | _ => UB end
  end.

Definition upd_ws (f : WsLoop -> WsLoop) : N unit := fun w => Done tt (set_ws (f (g_ws w)) w).
Definition EnqueueWsOp (op : WsOp) : N unit := upd_ws (fun t => set_ops (Push op (ws_op_queue t)) t).
Definition store_conn (p : positive) (c : WsConnection) : N unit := store_object p (OWsConnection c).

(** The natives start alike; [missing] is returned without a connection. *)
Definition with_conn (missing : Z) (params : list Z) (k : positive -> WsConnection -> N Z) : N Z :=
  h <- arg params 1;; conn <- GetWsSocket h;;
  match conn with None => nret missing | Some (p, c) => k p c end.

Definition Native_WsNew : native := fun pContext params =>
  userdata <- arg params 1;;
  let c := new_WsConnection pContext userdata in
  p <- new_object (OWsConnection c);;
  handle <- CreateHandle p HANDLE_WS_SOCKET pContext;;
  if handle =? 0 then delete_object p;;; nret 0 else
  store_conn p (set_handle_id handle c);;; nret handle.

Definition funcid (c : Z) : Z := uN 32 c.

Definition Native_WsSetCallbacks : native := fun pContext params =>
  with_conn 0 params (fun p c =>
    a1 <- arg params 2;; a2 <- arg params 3;; a3 <- arg params 4;; a4 <- arg params 5;; a5 <- arg params 6;;
    store_conn p (set_on_pong (funcid a5) (set_on_close (funcid a4) (set_on_error (funcid a3) (set_on_message (funcid a2) (set_on_connect (funcid a1) c)))));;;
    nret 0).

Definition Native_WsSetHeader : native := fun pContext params =>
  with_conn 0 params (fun p c =>
    a <- arg params 2;; key <- local_string a;; b <- arg params 3;; value <- local_string b;;
    store_conn p (SetHeader key value c);;; nret 0).

Definition Native_WsRemoveHeader : native := fun pContext params =>
  with_conn 0 params (fun p c => a <- arg params 2;; key <- local_string a;; store_conn p (RemoveHeader key c);;; nret 0).

Definition Native_WsClearHeaders : native := fun pContext params =>
  with_conn 0 params (fun p c => store_conn p (ClearHeaders c);;; nret 0).

Definition Native_WsConnect : native := fun pContext params =>
  with_conn 0 params (fun p c =>
    a <- arg params 2;; url <- local_string a;; EnqueueWsOp (CONNECT (handle_id c) url p);;; nret 0).

Definition Native_WsSendText : native := fun pContext params =>
  with_conn 0 params (fun p c =>
    a <- arg params 2;; data <- local_string a;; length <- arg params 3;;
    data <- (if length <? 0 then nret data else local_raw a (Z.to_nat length));;
    EnqueueWsOp (SEND SEND_TEXT (handle_id c) data None);;; nret 0).

Definition Native_WsSendBinary : native := fun pContext params =>
  with_conn 0 params (fun p c =>
    a <- arg params 2;; t <- try_cell a;;
    match t with
    | None => nret 0
    | Some _ =>
        length <- arg params 3;;
        if length <=? 0 then nret 0 else
        data <- local_raw a (Z.to_nat length);; EnqueueWsOp (SEND SEND_BINARY (handle_id c) data None);;; nret 0
    end).

Definition Native_WsSendPing : native := fun pContext params =>
  with_conn 0 params (fun p c =>
    a <- arg params 2;; t <- try_cell a;;
    match t with
    | None => nret 0
    | Some _ =>
        length <- arg params 3;;
        let length := if length >? 125 then 125 else length in
        data <- (if length >? 0 then local_raw a (Z.to_nat length) else nret []);;
        EnqueueWsOp (SEND SEND_PING (handle_id c) data None);;; nret 0
    end).

Definition Native_WsClose : native := fun pContext params =>
  with_conn 0 params (fun p c =>
    store_conn p (set_handle_closed true c);;;
    b <- arg params 3;; reason <- local_string b;; code <- arg params 2;;
    EnqueueWsOp (CLOSE (handle_id c) code reason);;; nret 0).

(** [value * 1000] is an [int]. *)
Definition Native_WsSetOption : native := fun pContext params =>
  with_conn 0 params (fun p c =>
    option <- arg params 2;; value <- arg params 3;;
    c <- (if option =? 0 then nret (set_max_message_size (positive_or value (16 * 1024 * 1024)) c)
          else if option =? 1 then nret (set_auto_pong (negb (value =? 0)) c)
          else if option =? 2 then nret (set_ping_interval (positive_or value 0) c)
          else if option =? 3 then nret (set_close_timeout (positive_or value 5) c)
          else if option =? 4 then nret (set_verifypeer (negb (value =? 0)) c)
          else if option =? 5 then nret (set_verifyhost (negb (value =? 0)) c)
          else if option =? 6 then nret (set_parse_messages (if (value >=? 0) && (value <=? 2) then value else 0) c)
          else if option =? 7 then
            (if value >? 0 then ms <- nonnull (mul_int value 1000);; nret (set_connect_timeout ms c) else nret (set_connect_timeout 10000 c))
          else nret c);;
    store_conn p c;;;
    if option =? 2 then EnqueueWsOp (SET_OPTION (handle_id c) option value);;; nret 0 else nret 0).

(** Without a connection the handle given as data is freed, whatever it is. *)
Definition WsSendNode (params : list Z) (k : SendType) : N Z :=
  h <- arg params 1;; conn <- GetWsSocket h;; d <- arg params 2;;
  match conn with
  | None => FreeHandle d;;; nret 2
  | Some (p, c) =>
      dh <- GetDataHandle d;;
      match dh with
      | Some (Some n) =>
          node <- wr' (CopyNodeForSend (Some n));;
          EnqueueWsOp (SEND k (handle_id c) [] (Some node));;; FreeHandle d;;; nret 0
      | _ => nret 2
      end
  end.

Definition Native_WsSendJson : native := fun pContext params => WsSendNode params SEND_JSON.
Definition Native_WsSendMsgPack : native := fun pContext params => WsSendNode params SEND_MSGPACK.

Definition Native_WsSetReconnect : native := fun pContext params =>
  with_conn 2 params (fun p c =>
    n <- arg params 0;; m <- arg params 2;;
    let c := set_max_reconnects m c in
    c <- (if n >=? 3 then x <- arg params 3;; nret (set_reconnect_delay x c) else nret c);;
    c <- (if n >=? 4 then x <- arg params 4;; nret (set_reconnect_backoff (uN 32 x) c) else nret c);;
    c <- (if n >=? 5 then x <- arg params 5;; nret (set_reconnect_max_delay x c) else nret c);;
    store_conn p c;;; nret 0).

Definition Native_WsGetReconnectCount : native := fun pContext params =>
  with_conn (-1) params (fun p c => nret (reconnect_count c)).

Definition Native_WsGetState : native := fun pContext params =>
  with_conn (-1) params (fun p c => nret (state_cell (state c))).

Definition g_WsNatives : list (String.string * native) := [
  ("async2_WsNew"%string, Native_WsNew);
  ("async2_WsSetCallbacks"%string, Native_WsSetCallbacks);
  ("async2_WsSetHeader"%string, Native_WsSetHeader);
  ("async2_WsRemoveHeader"%string, Native_WsRemoveHeader);
  ("async2_WsClearHeaders"%string, Native_WsClearHeaders);
  ("async2_WsConnect"%string, Native_WsConnect);
  ("async2_WsSendText"%string, Native_WsSendText);
  ("async2_WsSendBinary"%string, Native_WsSendBinary);
  ("async2_WsSendPing"%string, Native_WsSendPing);
  ("async2_WsClose"%string, Native_WsClose);
  ("async2_WsSetOption"%string, Native_WsSetOption);
  ("async2_WsSendJson"%string, Native_WsSendJson);
  ("async2_WsSendMsgPack"%string, Native_WsSendMsgPack);
  ("async2_WsSetReconnect"%string, Native_WsSetReconnect);
  ("async2_WsGetReconnectCount"%string, Native_WsGetReconnectCount);
  ("async2_WsGetState"%string, Native_WsGetState)].

(** ** The event thread *)

Context (uv_strerror curl_easy_strerror : Z -> bytes) (backoff : Z -> Z -> Z -> option Z) (iterate : bytes -> option od_value).

(** The connection at an address and the loop change, or also the heap. *)
Definition on_conn_heap (p : positive) (f : WsConnection -> WsLoop -> heap -> option (WsConnection * WsLoop * heap)) : N unit := fun w =>
  match objects w !! p with
  | Some (OWsConnection c) =>
      match f c (g_ws w) (nodes w) with
      | Some (c', t, st) => Done tt (set_nodes st (set_ws t (set_objects (<[p := OWsConnection c']> (objects w)) w)))
      | None => UB
      end
  | _ => UB
  end.

Definition on_conn (p : positive) (f : WsConnection -> WsLoop -> option (WsConnection * WsLoop)) : N unit :=
  on_conn_heap p (fun c t st => let? (c, t) := f c t in Some (c, t, st)).

(** [ws_connections_.find]: nothing happens without an entry. *)
Definition on_registered (id : Z) (f : positive -> WsConnection -> WsLoop -> option (WsConnection * WsLoop)) : N unit := fun w =>
  match ws_connections_ (g_ws w) !! id with None => Done tt w | Some p => on_conn p (f p) w end.

(** [~WsOp]. *)
Definition drop_body (body : option loc) : N unit := match body with Some _ => wr (Decref body) | None => nret tt end.

(** [ProcessWsSend], with the destructor of the operation. *)
Definition ProcessWsSend (k : SendType) (id : Z) (data : bytes) (body : option loc) (rc : Z) : N unit := fun w =>
  match ws_connections_ (g_ws w) !! id with
  | None => drop_body body w
  | Some p =>
      match objects w !! p with
      | Some (OWsConnection c) =>
          if negb (can_send c) then drop_body body w else
          (data <- match body, k with
                   | Some n, SEND_JSON => rd (DataSerializeJson n false)
                   | Some n, SEND_MSGPACK => rd (SerializeMsgPack n)
                   | _, _ => nret data
                   end;;
           drop_body body;;; on_conn p (send_data curl_easy_strerror k data rc)) w
      | _ => UB
      end
  end.

(** One turn of the loop of [OnAsyncWsOp]: [easy] is what [curl_easy_init]
    returns, [rc] what [curl_ws_send] returns. *)
Definition process_op (easy : option positive) (rc : Z) (op : WsOp) : N unit :=
  match op with
  | CONNECT id url p => on_conn p (ProcessWsConnect id url easy p)
  | SEND k id data body => ProcessWsSend k id data body rc
  | CLOSE id code reason => on_registered id (ProcessWsClose code reason rc)
  | SET_OPTION id option value => on_registered id (ProcessWsSetOption option value)
  end.

Definition OnAsyncWsOp_turn (easy : option positive) (rc : Z) : N unit := fun w =>
  match Pop (ws_op_queue (g_ws w)) with
  | Some (op, q) => process_op easy rc op (set_ws (set_ops q (g_ws w)) w)
  | None => UB
  end.

(** libcurl reports the end of a transfer; the private pointer of the easy
    handle is the connection. *)
Definition CheckCompletedJobs_ws (easy : positive) (result rng : Z) : N unit := fun w =>
  match easies (g_ws w) !! easy with
  | Some p => on_conn p (ws_completed curl_easy_strerror backoff easy result rng p) w
  | None => UB
  end.

(** A poll, and a timer by its kind; [data] is the connection. *)
Definition poll_callback (h : positive) (status : Z) (rs : list WsRecv) (rc rng : Z) : N unit := fun w =>
  match polls (g_ws w) !! h with
  | Some p => on_conn_heap p (OnWsPollActivity uv_strerror curl_easy_strerror backoff iterate (g_max_container_elements w) status rs rc rng p) w
  | None => UB
  end.

Definition timer_callback (h : positive) (easy : option positive) (rc : Z) : N unit := fun w =>
  match timers (g_ws w) !! h with
  | Some x =>
      let p := t_data x in
      on_conn p (match t_kind x with
                 | T_close => OnWsCloseTimeout h
                 | T_ping => OnWsPingTimer rc
                 | T_reconnect => OnWsReconnectTimer h easy p
                 end) w
  | None => UB
  end.

(** ** The game thread *)

Context (has_function : positive -> Z -> bool) (parse_error : bytes -> bytes).

Definition GetSourcepawnFunction (context : positive) (id : Z) : N bool := fun w =>
  Done (bool_decide (context ∈ g_plugin_contexts w) && has_function context id) w.

(** The function that is called and what is pushed for it. *)
Inductive WsArg := ACell (c : Z) | AString (s : bytes) | ABinary (b : bytes).
Record WsCall := mkCall { call_function : Z; call_args : list WsArg }.

Definition is_closed (e : WsEvent) : bool := bool_decide (e_type e = WS_CLOSED).

(** [~SocketEvent]. *)
Definition delete_event (e : WsEvent) : N unit := drop_body (e_parsed_node e).

(** The second parse, on the game thread. *)
Definition fallback (e : WsEvent) : N (option loc) :=
  match e_parsed_node e with
  | Some n => nret (Some n)
  | None =>
      if negb (e_is_binary e) && negb (bool_decide (e_data e = [])) then
        if e_parse_mode e =? 1 then wr' (DataParseJson iterate (e_data e))
        else if e_parse_mode e =? 2 then fun w => wr' (ParseMsgPack (g_max_container_elements w) (e_data e)) w
        else nret None
      else nret None
  end.

(** The text of a failed parse: simdjson's error, unless it is empty. *)
Definition parse_error_text (e : WsEvent) : bytes :=
  let msg := if (e_parse_mode e =? 1) && negb (e_is_binary e) && negb (bool_decide (e_data e = [])) then parse_error (e_data e) else [] in
  if bool_decide (msg = []) then (if e_parse_mode e =? 2 then str "MsgPack parse failed" else str "JSON parse failed") else msg.

Definition dispatch_parsed (e : WsEvent) : N (option WsCall) :=
  node <- fallback e;;
  match node with
  | Some n =>
      json_handle <- make_handle (e_plugin_ctx e) (ODataHandle (Some n));;
      nret (Some (mkCall (e_callback e) [ACell (e_handle_id e); ACell json_handle; ACell (e_userdata e)]))
  | None =>
      err_fn <- GetSourcepawnFunction (e_plugin_ctx e) (e_error_callback e);;
      nret (if err_fn : bool then
              Some (mkCall (e_error_callback e) [ACell (e_handle_id e); ACell (-1); AString (parse_error_text e); ACell (e_userdata e)])
            else None)
  end.

Definition message_args (e : WsEvent) : list WsArg :=
  [ACell (e_handle_id e); ABinary (e_data e ++ [0]); ACell (cell (Z.of_nat (length (e_data e)))); ACell (if e_is_binary e then 1 else 0); ACell (e_userdata e)].

Definition event_args (e : WsEvent) : list WsArg :=
  match e_type e with
  | WS_CONNECTED => [ACell (e_handle_id e); ACell (e_userdata e)]
  | WS_MESSAGE => message_args e
  | WS_ERROR | WS_CLOSED => [ACell (e_handle_id e); ACell (e_error_code e); AString (e_error_msg e); ACell (e_userdata e)]
  | WS_PONG => [ACell (e_handle_id e); ABinary (e_data e); ACell (cell (Z.of_nat (length (e_data e)))); ACell (e_userdata e)]
  end.

(** [DispatchSocketEvent] up to the plugin's function, and the event that is left
    to finish; the node of a parsed message is taken out of it. *)
Definition without_node (e : WsEvent) : WsEvent :=
  mkEvent (e_type e) (e_handle_id e) (e_plugin_ctx e) (e_callback e) (e_data e) (e_error_code e) (e_error_msg e) (e_userdata e) (e_handle_closed e)
    (e_is_binary e) None (e_parse_mode e) (e_error_callback e).

Definition dispatch_start (e : WsEvent) : N (option WsCall * option WsEvent) :=
  if e_handle_closed e && negb (is_closed e) then delete_event e;;; nret (None, None) else
  fn <- GetSourcepawnFunction (e_plugin_ctx e) (e_callback e);;
  if fn : bool then
    if bool_decide (e_type e = WS_MESSAGE) && (e_parse_mode e >? 0) then call <- dispatch_parsed e;; nret (call, Some (without_node e))
    else nret (Some (mkCall (e_callback e) (event_args e)), Some e)
  else nret (None, Some e).

(** The rest of it. *)
Definition dispatch_end (e : WsEvent) : N unit :=
  (if is_closed e then FreeHandle (e_handle_id e) else nret tt);;; delete_event e.

Definition DrainSocketEvents : N (list WsEvent) := fun w =>
  match DrainAll (ws_events (g_ws w)) with
  | Some (l, q) => Done l (set_ws (set_events q (g_ws w)) w)
  | None => UB
  end.

(** The part of [OnPluginUnloaded] for a connection of the plugin; 1001 is
    "going away". *)
Definition close_ws (p : positive) : N unit := fun w =>
  match objects w !! p with
  | Some (OWsConnection c) => (store_conn p (set_handle_closed true c);;; EnqueueWsOp (CLOSE (handle_id c) 1001 [])) w
  | _ => UB
  end.

End NativesWs.
