(* ===== verification/NativesDns.v ===== *)
(** * [src/natives_dns.cpp] and the DNS part of [src/event_loop.cpp]

    The natives change the resolver's cache at once and queue a change of its
    timeouts; the event thread applies it.  They keep the invariant of the world,
    and a queued change reaches the resolver as it was asked for. *)

From stdpp Require Import base numbers list gmap.
From Stdlib Require Import ZArith Lia.
From S2P Require Import DnsResolver LinkedList LockedQueue HeaderMap HttpRequest EventLoop Prelude HandleManager HttpState NodePool DataMap DataValue Float Text DataNode DataRefcount DataHandle DataIterator Natives NativesJson NativesJsonSafe.

Import Dns.

Section NativesDns.

Context {MO : DataMap bytes} {MI : DataMap Z} {P : Type} {PA : NodeAllocator P} {M : Type} {PC : PluginContext M}.

(** The standard library's capacity of a string and number of buckets. *)
Context (capacity : bytes -> Z) (bucket_count : gmap (list Z) DnsCacheEntry -> Z).

#[local] Notation N := (N (P := P) (M := M)).
#[local] Notation native := (native (P := P) (M := M)).
#[local] Notation world := (world (P := P) (M := M)).
#[local] Notation "x <- m ;; k" := (nbind m (fun x => k)) (at level 100, m at next level, right associativity).
#[local] Notation "m ;;; k" := (nbind m (fun _ => k)) (at level 100, right associativity).

Definition upd_dns (f : DnsLoop -> DnsLoop) : N unit := fun w => Done tt (set_dns (f (g_dns w)) w).
Definition upd_resolver (f : DnsResolver -> DnsResolver) : N unit := upd_dns (fun d => mkDnsLoop (dns_op_queue d) (f (dns_resolver_ d))).

(** ** The event loop *)

Definition EnqueueDnsOp (op : DnsOp) : N unit := upd_dns (fun d => mkDnsLoop (Push op (dns_op_queue d)) (dns_resolver_ d)).

(** One turn of the loop of [OnAsyncDnsOp]; [rc] is what [ares_init_options]
    returns.  The requests that were waiting are answered, in this turn. *)
Definition OnAsyncDnsOp_turn (rc : Z) : N (list (positive * Answer)) := fun w =>
  match Pop (dns_op_queue (g_dns w)) with
  | Some (op, q) =>
      let '(_, answers, r) := Reinit (op_timeout_ms op) (op_tries op) rc (dns_resolver_ (g_dns w)) in
      Done answers (set_dns (mkDnsLoop q r) w)
  | None => UB
  end.

Definition DnsCacheFlush : N unit := upd_resolver FlushCache.
Definition DnsCacheStats : N (Z * Z) := fun w =>
  let r := dns_resolver_ (g_dns w) in Done (GetCacheStats capacity (bucket_count (cache_ r)) r) w.
Definition DnsCacheSetTtl (seconds : Z) : N unit := upd_resolver (SetCacheTtl seconds).

(** ** The natives *)

Definition Native_DnsSetTimeout : native := fun pContext params =>
  timeout_ms <- arg params 1;; tries <- arg params 2;; EnqueueDnsOp (mkDnsOp timeout_ms tries);;; nret 0.

Definition Native_DnsCacheFlush : native := fun pContext params => DnsCacheFlush;;; nret 0.

Definition Native_DnsCacheStats : native := fun pContext params =>
  stats <- DnsCacheStats;;
  a <- arg params 1;; local_write a [cell stats.1];;; b <- arg params 2;; local_write b [cell stats.2];;; nret 0.

Definition Native_DnsCacheSetTtl : native := fun pContext params => seconds <- arg params 1;; DnsCacheSetTtl seconds;;; nret 0.

Definition g_DnsNatives : list (String.string * native) := [
  ("async2_DnsSetTimeout"%string, Native_DnsSetTimeout);
  ("async2_DnsCacheFlush"%string, Native_DnsCacheFlush);
  ("async2_DnsCacheStats"%string, Native_DnsCacheStats);
  ("async2_DnsCacheSetTtl"%string, Native_DnsCacheSetTtl)].

(** ** What they do *)

Lemma Inv_dns {FR : Frame} L d (w : world) : Inv L w -> Inv L (set_dns d w).
Proof. by intros []. Qed.

Lemma dns_natives_keep {FR : Frame} : Forall (fun e => keeps e.2 always) g_DnsNatives.
Proof.
  repeat (apply Forall_cons; split); [..|by apply Forall_nil]; intros ctx params L w Hi Hroom _; unfold snd.
  - do 2 (apply wp_bind, wp_arg; intros ? _). apply wp_bind. unfold wp at 1, EnqueueDnsOp, upd_dns. apply wp_ret. by apply Inv_dns.
  - apply wp_bind. unfold wp at 1, DnsCacheFlush, upd_resolver, upd_dns. apply wp_ret. by apply Inv_dns.
  - apply wp_bind. unfold wp at 1, DnsCacheStats. apply wp_bind, wp_arg. intros a _. apply wp_bind, wp_local_write. intros m. apply wp_bind, wp_arg. intros b _. apply wp_bind, wp_local_write. intros m'.
    apply wp_ret. by apply (Inv_same L w).
  - apply wp_bind, wp_arg. intros n _. apply wp_bind. unfold wp at 1, DnsCacheSetTtl, upd_resolver, upd_dns. apply wp_ret. by apply Inv_dns.
Qed.

Lemma dns_turn_keeps {FR : Frame} L (w : world) rc : Inv L w -> queue_ (dns_op_queue (g_dns w)) <> [] -> wp (OnAsyncDnsOp_turn rc) (fun _ => Inv L) w.
Proof.
  intros Hi Hq. destruct (queue_ (dns_op_queue (g_dns w))) as [|x l] eqn:E; [done|]. destruct (Pop_spec _ _ _ E) as (q & Ep & _).
  unfold wp, OnAsyncDnsOp_turn. rewrite Ep. destruct (Reinit _ _ _ _) as [[? ?] ?]. by apply Inv_dns.
Qed.

(** A resolver that runs takes the timeouts that the plugin gave, its defaults for
    those that are not positive, answers what was waiting once with
    [ARES_ECANCELLED] and keeps its cache. *)
Lemma set_timeout_applied (w : world) ctx params ms tries rc : param params 1 = Some ms -> param params 2 = Some tries ->
  queue_ (dns_op_queue (g_dns w)) = [] -> initialized_ (dns_resolver_ (g_dns w)) = true ->
  exists w1 answers w2, Native_DnsSetTimeout ctx params w = Done 0 w1 /\ OnAsyncDnsOp_turn rc w1 = Done answers w2 /\
    let r := dns_resolver_ (g_dns w) in let r' := dns_resolver_ (g_dns w2) in
    timeout_ms_ r' = (if ms >? 0 then ms else 5000) /\ tries_ r' = (if tries >? 0 then tries else 2) /\ cache_ r' = cache_ r /\ requests r' = ∅ /\
    answers.*1 = (map_to_list (requests r)).*1 /\ Forall (fun a => a.2 = mkAnswer ARES_ECANCELLED None 0) answers /\ queue_ (dns_op_queue (g_dns w2)) = [].
Proof.
  intros E1 E2 Eq Hin. unfold Native_DnsSetTimeout, nbind, arg. rewrite E1, E2. unfold EnqueueDnsOp, upd_dns, nret. set (w1 := set_dns (mkDnsLoop (Push (mkDnsOp ms tries) (dns_op_queue (g_dns w))) (dns_resolver_ (g_dns w))) w). exists w1.
  destruct (Pop_spec (dns_op_queue (g_dns w1)) (mkDnsOp ms tries) []) as (q & Ep & Er & _); [cbn; by rewrite Eq|]. unfold OnAsyncDnsOp_turn. rewrite Ep.
  change (dns_resolver_ (g_dns w1)) with (dns_resolver_ (g_dns w)). unfold Reinit. cbn [op_timeout_ms op_tries]. rewrite Hin. cbn [negb answer_all]. unfold InitChannel.
  destruct (rc =? ARES_SUCCESS); eexists _, _; (split; [reflexivity|]); (split; [reflexivity|]); cbn; (split_and!; try done);
    first [by rewrite <- list_fmap_compose, list_fmap_id|apply Forall_forall; by intros a (? & -> & _)%list_elem_of_fmap].
Qed.

End NativesDns.
