(* ===== verification/NativesCurl.v ===== *)
(** * [src/natives_curl.cpp]: options and results of transfers

    The natives pass options to libcurl's easy handle of a request and read
    results from it; options for all transfers are queued for the event thread.
    libcurl is a parameter: its answers, and which type each option takes. *)

From stdpp Require Import base numbers list gmap.
From Stdlib Require Import ZArith Lia.
From S2P Require Import LinkedList LockedQueue HeaderMap HttpRequest EventLoop Prelude HandleManager HttpState NodePool DataMap DataValue Float Text DataNode DataRefcount DataHandle DataIterator Natives NativesJson NativesJsonSafe NativesHttp NativesHttpSafe.

(** What libcurl answers, by easy handle: the codes of [curl_easy_setopt] for a
    [long] and for a string, the code and result of [curl_easy_getinfo]; the
    texts; what it has written into a request's error buffer.  An option takes a
    value of one type: [takes_long] and [takes_string] are those of the two
    natives, [info_long] and [info_string] the same for results. *)
Record CurlApi := mkApi {
  setopt_long : option positive -> Z -> Z -> Z;
  setopt_string : option positive -> Z -> bytes -> Z;
  getinfo_long : option positive -> Z -> Z * Z;
  getinfo_string : option positive -> Z -> Z * option bytes;
  easy_strerror : Z -> bytes;
  curl_version : bytes;
  curl_error_message : positive -> bytes;
  takes_long : Z -> bool;
  takes_string : Z -> bool;
  info_long : Z -> bool;
  info_string : Z -> bool
}.

Section NativesCurl.

Context {MO : DataMap bytes} {MI : DataMap Z} {P : Type} {PA : NodeAllocator P} {M : Type} {PC : PluginContext M}.

Context (api : CurlApi).

#[local] Notation N := (N (P := P) (M := M)).
#[local] Notation native := (native (P := P) (M := M)).
#[local] Notation world := (world (P := P) (M := M)).
#[local] Notation "x <- m ;; k" := (nbind m (fun x => k)) (at level 100, m at next level, right associativity).
#[local] Notation "m ;;; k" := (nbind m (fun _ => k)) (at level 100, right associativity).

(** A value of the wrong type in the variable arguments of libcurl. *)
Definition typed {A} (ok : bool) (m : N A) : N A := if ok then m else fun _ => UB.

(** ** The natives *)

Definition Native_SetOptInt : native := fun pContext params =>
  GET_HTTP_REQUEST params (fun p r =>
    option <- arg params 2;; value <- arg params 3;;
    typed (takes_long api option) (nret (cell (setopt_long api (curl r) option value)))).

Definition Native_SetOptString : native := fun pContext params =>
  GET_HTTP_REQUEST params (fun p r =>
    a <- arg params 3;; value <- local_string a;; option <- arg params 2;;
    typed (takes_string api option) (nret (cell (setopt_string api (curl r) option value)))).

Definition Native_GetInfoInt : native := fun pContext params =>
  GET_HTTP_REQUEST params (fun p r =>
    info <- arg params 2;;
    typed (info_long api info) (
      let '(curlcode, output) := getinfo_long api (curl r) info in
      if curlcode =? 0 then a <- arg params 3;; local_write a [cell output];;; nret (cell curlcode) else nret (cell curlcode))).

Definition Native_GetInfoString : native := fun pContext params =>
  GET_HTTP_REQUEST params (fun p r =>
    info <- arg params 2;;
    typed (info_string api info) (
      let '(curlcode, result) := getinfo_string api (curl r) info in
      match result with
      | Some s => if curlcode =? 0 then a <- arg params 3;; n <- arg params 4;; string_to_local a n s;;; nret (cell curlcode) else nret (cell curlcode)
      | None => nret (cell curlcode)
      end)).

Definition Native_GetErrorMessage : native := fun pContext params =>
  GET_HTTP_REQUEST params (fun p r => a <- arg params 2;; n <- arg params 3;; string_to_local a n (curl_error_message api p);;; nret 0).

Definition Native_SetMultiOpt : native := fun pContext params =>
  key <- arg params 1;; value <- arg params 2;; upd_loop (ChangeCurlSetting key value);;; nret 0.

Definition Native_CurlErrorString : native := fun pContext params =>
  code <- arg params 1;; a <- arg params 2;; n <- arg params 3;; string_to_local a n (easy_strerror api code);;; nret 0.

Definition Native_CurlVersion : native := fun pContext params =>
  a <- arg params 1;; n <- arg params 2;; string_to_local a n (curl_version api);;; nret 0.

Definition g_CurlNatives : list (String.string * native) := [
  ("async2_SetOptInt"%string, Native_SetOptInt);
  ("async2_SetOptString"%string, Native_SetOptString);
  ("async2_GetInfoInt"%string, Native_GetInfoInt);
  ("async2_GetInfoString"%string, Native_GetInfoString);
  ("async2_GetErrorMessage"%string, Native_GetErrorMessage);
  ("async2_SetMultiOpt"%string, Native_SetMultiOpt);
  ("async2_CurlErrorString"%string, Native_CurlErrorString);
  ("async2_CurlVersion"%string, Native_CurlVersion)].

(** The event thread takes one option. *)
Definition settings_turn : N (Z * Z) := fun w =>
  match OnAsyncSettings_turn (g_event_loop w) with Some (opt, e) => Done opt (set_loop e w) | None => UB end.

(** ** They keep the world consistent *)

(** Options are passed with the type they take. *)
Definition curl_needs (name : String.string) (params : list Z) : Prop :=
  forall o, param params 2 = Some o ->
    (name = "async2_SetOptInt"%string -> takes_long api o = true) /\ (name = "async2_SetOptString"%string -> takes_string api o = true) /\
    (name = "async2_GetInfoInt"%string -> info_long api o = true) /\ (name = "async2_GetInfoString"%string -> info_string api o = true).

Lemma Inv_options {FR : Frame} L (w : world) q : Inv L w -> Inv L (set_loop (set_options q (g_event_loop w)) w).
Proof. intros [H1 H2 H3 H4 H5 H6 [pl []]]. split; try done. exists pl. by split. Qed.

Lemma wp_typed {A} ok (m : N A) R w : ok = true -> wp m R w -> wp (typed ok m) R w.
Proof. by intros ->. Qed.

Lemma wp_string {FR : Frame} L a n s (k : N Z) (w : world) : Inv L w -> (forall w', Inv L w' -> wp k (fun _ => Inv L) w') -> wp (string_to_local a n s;;; k) (fun _ => Inv L) w.
Proof. intros Hi Hk. apply wp_bind. unfold wp at 1, string_to_local. apply Hk. by apply (Inv_same L w). Qed.

Lemma curl_table_keeps {FR : Frame} : Forall (fun e => keeps e.2 (fun params _ => curl_needs e.1 params)) g_CurlNatives.
Proof.
  repeat (apply Forall_cons; split); [..|by apply Forall_nil]; intros ctx params L w Hi Hroom Hn; unfold fst, snd in *;
    try (apply (wp_GET_HTTP L); [done|done|]; intros p r _ _ _ _ _; cbv beta).
  - apply wp_bind, wp_arg. intros o Ho. apply wp_bind, wp_arg. intros v _. apply wp_typed; [by apply (Hn o)|by apply wp_ret].
  - apply wp_bind, wp_arg. intros a _. apply wp_bind, wp_local_string. intros s. apply wp_bind, wp_arg. intros o Ho. apply wp_typed; [by apply (Hn o)|by apply wp_ret].
  - apply wp_bind, wp_arg. intros o Ho. apply wp_typed; [by apply (Hn o)|]. destruct (getinfo_long api (curl r) o) as [rc v].
    destruct (rc =? 0); [|by apply wp_ret]. apply wp_bind, wp_arg. intros a _. apply wp_bind, wp_local_write. intros m. apply wp_ret. by apply (Inv_same L w).
  - apply wp_bind, wp_arg. intros o Ho. apply wp_typed; [by apply (Hn o)|]. destruct (getinfo_string api (curl r) o) as [rc [s|]]; [|by apply wp_ret].
    destruct (rc =? 0); [|by apply wp_ret]. do 2 (apply wp_bind, wp_arg; intros ? _). apply wp_string; [done|]. intros w' Hi'. by apply wp_ret.
  - do 2 (apply wp_bind, wp_arg; intros ? _). apply wp_string; [done|]. intros w' Hi'. by apply wp_ret.
  - do 2 (apply wp_bind, wp_arg; intros ? _). apply wp_bind. unfold wp at 1, upd_loop. apply wp_ret. by apply Inv_options.
  - do 3 (apply wp_bind, wp_arg; intros ? _). apply wp_string; [done|]. intros w' Hi'. by apply wp_ret.
  - do 2 (apply wp_bind, wp_arg; intros ? _). apply wp_string; [done|]. intros w' Hi'. by apply wp_ret.
Qed.

Lemma settings_turn_keeps {FR : Frame} L (w : world) : Inv L w -> queue_ (option_queue (g_event_loop w)) <> [] -> wp settings_turn (fun _ => Inv L) w.
Proof.
  intros Hi Hq. destruct (queue_ (option_queue (g_event_loop w))) as [|x l] eqn:E; [done|]. destruct (Pop_spec _ _ _ E) as (q & Ep & _).
  unfold wp, settings_turn, OnAsyncSettings_turn. rewrite Ep. cbn. by apply Inv_options.
Qed.

End NativesCurl.
