(* ===== verification/CurlSockets.v ===== *)
(** * [src/event_loop.cpp]: libuv watches libcurl's sockets

    libcurl tells the event loop which sockets to watch and when to call it
    again; the loop keeps a [CurlSocketContext] with a libuv poll per socket and
    one timer.  The state is what the code can observe: the pointer libcurl keeps
    for each socket ([curl_multi_assign]), the contexts that exist, each with the
    events its poll watches or closing, and the timer.  [None] is the use of a
    context that was deleted, or of a poll that is closing. *)

From stdpp Require Import base numbers list gmap.
From Stdlib Require Import ZArith Lia.
From S2P Require Import Prelude.

(** libcurl's [CURL_POLL_*] and [CURL_CSELECT_*], libuv's [UV_*]. *)
Definition CURL_POLL_IN : Z := 1.
Definition CURL_POLL_OUT : Z := 2.
Definition CURL_POLL_INOUT : Z := 3.
Definition CURL_POLL_REMOVE : Z := 4.
Definition CURL_CSELECT_IN : Z := 1.
Definition CURL_CSELECT_OUT : Z := 2.
Definition CURL_CSELECT_ERR : Z := 4.
Definition CURL_SOCKET_TIMEOUT : Z := -1.
Definition UV_READABLE : Z := 1.
Definition UV_WRITABLE : Z := 2.

(** [poll_events]: what [uv_poll_start] was called with, 0 before; [poll_closing]
    after [uv_close]. *)
Record CurlSocketContext := mkContext { curl_socket : Z; poll_events : Z; poll_closing : bool }.

Record CurlLoop := mkCurlLoop {
  assigned : gmap Z positive;
  contexts : gmap positive CurlSocketContext;
  timeout_ : option Z
}.

Definition new_CurlLoop : CurlLoop := mkCurlLoop ∅ ∅ None.

Implicit Types (s : Z) (p : positive).

Definition new_CurlSocketContext s (t : CurlLoop) : positive * CurlLoop :=
  let p := fresh_addr (contexts t) in
  (p, mkCurlLoop (assigned t) (<[p := mkContext s 0 false]> (contexts t)) (timeout_ t)).

(** [curl_multi_assign] of a context, or of null. *)
Definition assign s (p : option positive) (t : CurlLoop) : CurlLoop :=
  mkCurlLoop (match p with Some p => <[s := p]> (assigned t) | None => delete s (assigned t) end) (contexts t) (timeout_ t).

Definition uv_poll_start p (events : Z) (t : CurlLoop) : option CurlLoop :=
  let? c := contexts t !! p in
  if poll_closing c then None else
  Some (mkCurlLoop (assigned t) (<[p := mkContext (curl_socket c) events false]> (contexts t)) (timeout_ t)).

(** [uv_poll_stop] and [uv_close]. *)
Definition BeginRemoval p (t : CurlLoop) : option CurlLoop :=
  let? c := contexts t !! p in
  if poll_closing c then None else
  Some (mkCurlLoop (assigned t) (<[p := mkContext (curl_socket c) 0 true]> (contexts t)) (timeout_ t)).

Definition OnPollClosed p (t : CurlLoop) : option CurlLoop :=
  let? _ := contexts t !! p in Some (mkCurlLoop (assigned t) (delete p (contexts t)) (timeout_ t)).

(** The events of libuv for an action of libcurl. *)
Definition poll_flags (action : Z) : Z :=
  let flags := if negb (Z.land action CURL_POLL_IN =? 0) then Z.lor 0 UV_READABLE else 0 in
  if negb (Z.land action CURL_POLL_OUT =? 0) then Z.lor flags UV_WRITABLE else flags.

(** [socketdata] is the pointer libcurl keeps for the socket. *)
Definition OnCurlSocket s (action : Z) (t : CurlLoop) : option CurlLoop :=
  let socketdata := assigned t !! s in
  if action =? CURL_POLL_REMOVE then
    match socketdata with
    | Some context => let? t := BeginRemoval context t in Some (assign s None t)
    | None => Some t
    end
  else if (action =? CURL_POLL_IN) || (action =? CURL_POLL_OUT) || (action =? CURL_POLL_INOUT) then
    let '(context, t) := match socketdata with
                         | Some context => (context, t)
                         | None => let '(context, t) := new_CurlSocketContext s t in (context, assign s (Some context) t)
                         end in
    uv_poll_start context (poll_flags action) t
  else Some t.

Definition set_timeout (ms : option Z) (t : CurlLoop) : CurlLoop := mkCurlLoop (assigned t) (contexts t) ms.

Definition OnCurlTimeout (timeout_ms : Z) (t : CurlLoop) : CurlLoop := if timeout_ms =? -1 then set_timeout None t else set_timeout (Some timeout_ms) t.

(** What [curl_multi_socket_action] is called with: the socket and the flags.  A
    timer that fires is no longer active. *)
Definition OnTimeout (t : CurlLoop) : (Z * Z) * CurlLoop := ((CURL_SOCKET_TIMEOUT, 0), set_timeout None t).

Definition select_flags (status events : Z) : Z :=
  if status <? 0 then CURL_CSELECT_ERR
  else let flags := if negb (Z.land events UV_READABLE =? 0) then Z.lor 0 CURL_CSELECT_IN else 0 in
       if negb (Z.land events UV_WRITABLE =? 0) then Z.lor flags CURL_CSELECT_OUT else flags.

Definition OnSocketActivity p (status events : Z) (t : CurlLoop) : option ((Z * Z) * CurlLoop) :=
  let? c := contexts t !! p in Some ((curl_socket c, select_flags status events), set_timeout None t).

(** ** What it is for

    The specification: the sockets libcurl wants watched, each with the last
    action it gave, and the time it asked for. *)

Record wanted := mkWanted { want : gmap Z Z; want_timeout : option Z }.

Inductive curl_step :=
  | CSocket s (action : Z) | CTimeout (timeout_ms : Z) | CTimerFires | CActivity p (status events : Z) | CClosed p.

Definition is_poll (action : Z) : bool := (action =? CURL_POLL_IN) || (action =? CURL_POLL_OUT) || (action =? CURL_POLL_INOUT).

Definition spec_step (x : curl_step) (a : wanted) : wanted :=
  match x with
  | CSocket s action =>
      mkWanted (if action =? CURL_POLL_REMOVE then delete s (want a) else if is_poll action then <[s := action]> (want a) else want a) (want_timeout a)
  | CTimeout ms => mkWanted (want a) (if ms =? -1 then None else Some ms)
  | CTimerFires | CActivity _ _ _ => mkWanted (want a) None
  | CClosed _ => a
  end.

Definition code_step (x : curl_step) (t : CurlLoop) : option CurlLoop :=
  match x with
  | CSocket s action => OnCurlSocket s action t
  | CTimeout ms => Some (OnCurlTimeout ms t)
  | CTimerFires => Some (OnTimeout t).2
  | CActivity p status events => let? (_, t) := OnSocketActivity p status events t in Some t
  | CClosed p => OnPollClosed p t
  end.

(** libuv reports activity of polls that watch something, and the end of a close
    that was asked for. *)
Definition code_may (x : curl_step) (t : CurlLoop) : Prop :=
  match x with
  | CActivity p _ _ => exists c, contexts t !! p = Some c /\ poll_closing c = false /\ poll_events c <> 0
  | CClosed p => exists c, contexts t !! p = Some c /\ poll_closing c = true
  | CTimerFires => is_Some (timeout_ t)
  | _ => True
  end.

(** libuv watches exactly what libcurl wants: the poll of a socket's context
    watches the events of the last action; every other context is closing. *)
Record watches (t : CurlLoop)  (a : wanted) : Prop := {
  Q_want : forall s action, want a !! s = Some action -> is_poll action = true /\
    exists p, assigned t !! s = Some p /\ contexts t !! p = Some (mkContext s action false);
  Q_assigned : forall s p, assigned t !! s = Some p -> is_Some (want a !! s);
  Q_context : forall p c, contexts t !! p = Some c -> poll_closing c = false -> assigned t !! curl_socket c = Some p;
  Q_timeout : timeout_ t = want_timeout a
}.

Lemma watches_new : watches new_CurlLoop (mkWanted ∅ None).
Proof. split; cbn; try done; intros ? ?; rewrite lookup_empty; done. Qed.

(** The bits of libcurl's and of libuv's constants are the same. *)
Lemma poll_flags_id action : is_poll action = true -> poll_flags action = action.
Proof. unfold is_poll. intros [[->%Z.eqb_eq| ->%Z.eqb_eq]%orb_prop| ->%Z.eqb_eq]%orb_prop; reflexivity. Qed.

Lemma poll_not_remove action : is_poll action = true -> (action =? CURL_POLL_REMOVE) = false.
Proof. unfold is_poll. intros [[->%Z.eqb_eq| ->%Z.eqb_eq]%orb_prop| ->%Z.eqb_eq]%orb_prop; reflexivity. Qed.

Lemma assigned_context t a s p : watches t a -> assigned t !! s = Some p -> exists action, want a !! s = Some action /\ contexts t !! p = Some (mkContext s action false).
Proof.
  intros H Hp. destruct (Q_assigned _ _ H s p Hp) as [action Ha]. destruct (Q_want _ _ H s action Ha) as (_ & p' & Hp' & Hc). exists action. split; [done|congruence].
Qed.

(** Two sockets have two contexts. *)
Lemma context_inj t a s s' p : watches t a -> assigned t !! s = Some p -> assigned t !! s' = Some p -> s = s'.
Proof.
  intros H Hp Hp'. destruct (assigned_context t a s p H Hp) as (? & _ & E). destruct (assigned_context t a s' p H Hp') as (? & _ & E'). congruence.
Qed.

Lemma remove_watches t a s p : watches t a -> assigned t !! s = Some p ->
  exists t', BeginRemoval p t = Some t' /\ watches (assign s None t') (mkWanted (delete s (want a)) (want_timeout a)).
Proof.
  intros H Hp. destruct (assigned_context t a s p H Hp) as (action & Ha & Hc). unfold BeginRemoval. rewrite Hc. cbn. eexists. split; [done|]. split; cbn.
  - intros s' action' [Hne Ha']%lookup_delete_Some. destruct (Q_want _ _ H s' action' Ha') as (Hpoll & p' & Hp' & Hc'). split; [done|]. exists p'.
    rewrite lookup_delete_ne by done. split; [done|]. rewrite lookup_insert_ne; [done|]. intros ->. apply Hne. by eapply context_inj.
  - intros s' p' [Hne Hp']%lookup_delete_Some. rewrite lookup_delete_ne by done. by eapply Q_assigned.
  - intros p' c [[<- <-]|[Hne Hc']]%lookup_insert_Some Hcl; [done|]. pose proof (Q_context _ _ H p' c Hc' Hcl) as Hp'. rewrite lookup_delete_ne; [done|]. intros ->. congruence.
  - apply (Q_timeout _ _ H).
Qed.

(** The context of a socket watches a new action. *)
Lemma poll_watches t a s p c action : watches t a -> is_poll action = true -> assigned t !! s = Some p -> contexts t !! p = Some c -> curl_socket c = s -> poll_closing c = false ->
  exists t', uv_poll_start p (poll_flags action) t = Some t' /\ watches t' (mkWanted (<[s := action]> (want a)) (want_timeout a)).
Proof.
  intros H Hpoll Hp Hc Hs Hcl. unfold uv_poll_start. rewrite Hc. cbn. rewrite Hcl, poll_flags_id by done. eexists. split; [done|]. split; cbn.
  - intros s' action' [[<- <-]|[Hne Ha']]%lookup_insert_Some; [split; [done|]; exists p; rewrite lookup_insert_eq, Hs; done|].
    destruct (Q_want _ _ H s' action' Ha') as (Hpoll' & p' & Hp' & Hc'). split; [done|]. exists p'. split; [done|]. rewrite lookup_insert_ne; [done|]. intros ->. apply Hne. by eapply context_inj.
  - intros s' p' Hp'. destruct (decide (s' = s)) as [->|Hne]; [rewrite lookup_insert_eq; by eexists|]. rewrite lookup_insert_ne by done. by eapply Q_assigned.
  - intros p' c' [[<- <-]|[Hne Hc']]%lookup_insert_Some Hcl'; [by rewrite Hs|by eapply Q_context].
  - apply (Q_timeout _ _ H).
Qed.

(** A socket without a context gets one. *)
Lemma new_watches (t : CurlLoop) a s action : watches t a -> is_poll action = true -> assigned t !! s = None ->
  let '(p, t1) := new_CurlSocketContext s t in
  exists t', uv_poll_start p (poll_flags action) (assign s (Some p) t1) = Some t' /\ watches t' (mkWanted (<[s := action]> (want a)) (want_timeout a)).
Proof.
  intros H Hpoll Hn. unfold new_CurlSocketContext. set (p := fresh_addr (contexts t)). pose proof (fresh_addr_None (contexts t)) as Hf. fold p in Hf.
  unfold uv_poll_start. cbn. rewrite lookup_insert_eq. cbn. rewrite poll_flags_id by done. eexists. split; [done|]. split; cbn.
  - intros s' action' [[<- <-]|[Hne Ha']]%lookup_insert_Some; [split; [done|]; exists p; by rewrite !lookup_insert_eq|].
    destruct (Q_want _ _ H s' action' Ha') as (Hpoll' & p' & Hp' & Hc'). split; [done|]. exists p'. rewrite lookup_insert_ne by done.
    split; [done|]. assert (p <> p') by congruence. by rewrite !lookup_insert_ne.
  - intros s' p' [[<- <-]|[Hne Hp']]%lookup_insert_Some; [rewrite lookup_insert_eq; by eexists|]. rewrite lookup_insert_ne by done. by eapply Q_assigned.
  - intros p' c'. rewrite insert_insert_eq. intros [[<- <-]|[Hne Hc']]%lookup_insert_Some Hcl'; cbn; [by rewrite lookup_insert_eq|].
    pose proof (Q_context _ _ H p' c' Hc' Hcl') as Hp'. rewrite lookup_insert_ne; [done|]. intros E. congruence.
  - apply (Q_timeout _ _ H).
Qed.

Lemma socket_watches (t : CurlLoop) a s action : watches t a ->
  exists t', OnCurlSocket s action t = Some t' /\ watches t' (spec_step (CSocket s action) a).
Proof.
  intros H. unfold OnCurlSocket, spec_step. fold (is_poll action). destruct (action =? CURL_POLL_REMOVE) eqn:Er.
  - destruct (assigned t !! s) as [p|] eqn:Ep.
    + destruct (remove_watches t a s p H Ep) as (t' & -> & Hw). by eexists.
    + exists t. split; [done|]. assert (want a !! s = None) as Hn.
      { destruct (want a !! s) as [x|] eqn:E; [|done]. destruct (Q_want _ _ H s x E) as (_ & p & Hp & _). congruence. }
      rewrite delete_id by done. by destruct a.
  - destruct (is_poll action) eqn:Eq; [|exists t; split; [done|by destruct a]]. destruct (assigned t !! s) as [p|] eqn:Ep.
    + destruct (assigned_context t a s p H Ep) as (x & _ & Hc). by eapply poll_watches.
    + pose proof (new_watches t a s action H Eq Ep) as Hn. destruct (new_CurlSocketContext s t). exact Hn.
Qed.

Lemma timeout_watches (t : CurlLoop) a ms : watches t a -> watches (set_timeout ms t) (mkWanted (want a) ms).
Proof. by intros []. Qed.

Lemma closed_watches (t : CurlLoop) a p c : watches t a -> contexts t !! p = Some c -> poll_closing c = true ->
  watches (mkCurlLoop (assigned t) (delete p (contexts t)) (timeout_ t)) a.
Proof.
  intros H Hc Hcl. split; cbn; [|apply (Q_assigned _ _ H)| |apply (Q_timeout _ _ H)].
  - intros s action Ha. destruct (Q_want _ _ H s action Ha) as (Hpoll & p' & Hp' & Hc'). split; [done|]. exists p'. split; [done|].
    rewrite lookup_delete_ne; [done|]. intros ->. rewrite Hc in Hc'. by injection Hc' as ->.
  - intros p' c' [Hne Hc']%lookup_delete_Some. by apply (Q_context _ _ H).
Qed.

Inductive curl_runs : CurlLoop -> wanted -> Prop :=
  | curl_start : curl_runs new_CurlLoop (mkWanted ∅ None)
  | curl_next t a x t' : curl_runs t a -> code_may x t -> code_step x t = Some t' -> curl_runs t' (spec_step x a).

Lemma step_watches (t : CurlLoop) a x : watches t a -> code_may x t -> exists t', code_step x t = Some t' /\ watches t' (spec_step x a).
Proof.
  intros H Hm. destruct x; cbn [code_step spec_step code_may] in *.
  - by apply socket_watches.
  - eexists. split; [done|]. unfold OnCurlTimeout. destruct (timeout_ms =? -1); by apply timeout_watches.
  - eexists. split; [done|]. by apply timeout_watches.
  - destruct Hm as (c & Hc & _). unfold OnSocketActivity. rewrite Hc. eexists. split; [done|]. by apply timeout_watches.
  - destruct Hm as (c & Hc & Hcl). unfold OnPollClosed. rewrite Hc. eexists. split; [done|]. by eapply closed_watches.
Qed.

Lemma curl_runs_watches (t : CurlLoop) a : curl_runs t a -> watches t a.
Proof.
  induction 1 as [|t a x t' _ IH Hm Hs]; [apply watches_new|]. destruct (step_watches t a x IH Hm) as (t1 & E & Hw). congruence.
Qed.


(** ** A run *)

Module CurlScenarios.

(** A transfer connects, sends and receives on socket 7, then libcurl opens a
    second one, drops the first, whose poll is closed, and reuses its number. *)
Definition trace : list curl_step :=
  [CTimeout 0; CTimerFires; CSocket 7 CURL_POLL_OUT; CActivity 2 0 UV_WRITABLE; CSocket 7 CURL_POLL_IN; CTimeout 250; CSocket 8 CURL_POLL_INOUT; CSocket 7 CURL_POLL_REMOVE;
   CSocket 7 CURL_POLL_IN; CClosed 2].

Definition may_b (x : curl_step) (t : CurlLoop) : bool :=
  match x with
  | CActivity p _ _ => match contexts t !! p with Some c => negb (poll_closing c) && negb (poll_events c =? 0) | None => false end
  | CClosed p => match contexts t !! p with Some c => poll_closing c | None => false end
  | CTimerFires => bool_decide (timeout_ t <> None)
  | _ => true
  end.

Lemma may_b_may x t : may_b x t = true -> code_may x t.
Proof.
  destruct x; cbn; try done.
  - intros H%bool_decide_eq_true. by destruct (timeout_ t).
  - destruct (contexts t !! p) as [c|]; [|done]. intros [H1 H2]%andb_prop. exists c. split_and!; [done|by apply negb_true_iff|by apply Z.eqb_neq, negb_true_iff].
  - destruct (contexts t !! p) as [c|]; [|done]. intros H. by exists c.
Qed.

Fixpoint run_curl (l : list curl_step) (t : CurlLoop) (a : wanted) : option (CurlLoop * wanted) :=
  match l with
  | [] => Some (t, a)
  | x :: l => if may_b x t then let? t := code_step x t in run_curl l t (spec_step x a) else None
  end.

Lemma run_curl_runs l : forall t a t' a', curl_runs t a -> run_curl l t a = Some (t', a') -> curl_runs t' a'.
Proof.
  induction l as [|x l IH]; intros t a t' a' Hr H; cbn [run_curl] in H; [by injection H as <- <-|]. destruct (may_b x t) eqn:Em; [|done].
  destruct (code_step x t) as [t1|] eqn:Es; [|done]. apply (IH t1 (spec_step x a)); [|done]. apply (curl_next t a x t1); [done|by apply may_b_may|done].
Qed.


End CurlScenarios.
