(* ===== verification/HttpLoop.v ===== *)
(** * [src/event_loop.cpp]: the event thread's part in a request

    What libuv and libcurl call on the event thread: a signal that requests
    are pending or to be cancelled, data for a transfer, the end of a transfer,
    a retry timer.  Each is a computation on the shared world.  libcurl's
    choices are arguments: the easy handle it reports, the result of the
    transfer and the HTTP status, the data it received. *)

From stdpp Require Import base numbers list gmap.
From Stdlib Require Import ZArith Lia.
From S2P Require Import LinkedList LockedQueue MsgPack Prelude HandleManager NodePool DataMap DataValue Float Text DataNode HeaderMap HttpRequest EventLoop HttpState DataRefcount DataCopy JsonText JsonParse DataBuild DataHandle DataIterator Natives NativesJson NativesHttp.

Section HttpLoop.

Context {MO : DataMap bytes} {MI : DataMap Z} {P : Type} {PA : NodeAllocator P} {M : Type} {PC : PluginContext M}.

(** simdjson; zlib's [compress2] as [CompressDeflate] uses it; and
    [static_cast<int>(retry_delay_ms * std::pow(retry_backoff, retry_count - 1))],
    [None] when the product is no [int]. *)
Context (iterate : bytes -> option od_value) (compress2 : bytes -> option bytes) (backoff : HttpRequest -> option Z).

#[local] Notation N := (N (P := P) (M := M)).
#[local] Notation "x <- m ;; k" := (nbind m (fun x => k)) (at level 100, m at next level, right associativity).
#[local] Notation "m ;;; k" := (nbind m (fun _ => k)) (at level 100, right associativity).

Definition get_loop : N EventLoop := fun w => Done (g_event_loop w) w.

(** A pop from one of the queues; [front] of an empty deque is undefined. *)
Definition pop_queue (get : EventLoop -> LockedQueue positive) (set : LockedQueue positive -> EventLoop -> EventLoop) : N positive :=
  e <- get_loop;; x <- nonnull (Pop (get e));; upd_loop (set x.2);;; nret x.1.

(** [while (!queue.Empty()) { body(queue.Pop()); }], with fuel for the entries
    the queue holds; running out of it counts as undefined. *)
Fixpoint queue_loop (get : EventLoop -> LockedQueue positive) (set : LockedQueue positive -> EventLoop -> EventLoop)
    (body : positive -> N unit) (fuel : nat) : N unit :=
  match fuel with
  | O => fun _ => UB
  | S fuel => e <- get_loop;; if Empty (get e) then nret tt else
              req <- pop_queue get set;; body req;;; queue_loop get set body fuel
  end.

(** The tail of every path that ends a request: hand it to the game thread. *)
Definition finish (req : positive) (r : HttpRequest) : N unit :=
  store_request req (OnCompleted r);;;
  upd_loop (fun e => set_stats_completed (sN 32 (stats_completed e + 1)) e);;;
  upd_loop (fun e => set_active (active_http_requests_ e ∖ {[req]}) e);;;
  upd_loop (fun e => set_done (Push req (done_queue e)) e).

(** [HttpRequest::SetupCurl]: the body is serialized, its nodes released. *)
Definition SetupCurl (req : positive) : N unit :=
  r <- load_request req;;
  r <- match body_node r with
       | Some n =>
           body <- match body_format r with
                   | JSON => rd (DataSerializeJson n false)
                   | MSGPACK => rd (SerializeMsgPack n)
                   | NONE => nret (post_body r)
                   end;;
           wr (Decref (Some n));;; nret (set_body_node None (set_post_body body r))
       | None => nret r
       end;;
  store_request req (finish_setup compress2 r).

(** The easy handle goes into the multi handle with its private pointer. *)
Definition add_easy (req easy : positive) : N unit :=
  upd_loop (fun e => set_stats_active (sN 32 (stats_active e + 1)) e);;;
  upd_loop (fun e => set_handles ({[easy]} ∪ http_curl_handles_ e) e);;;
  upd_loop (fun e => set_multi (<[easy := req]> (curl_multi_ e)) e).

Definition ProcessCurlJob (req : positive) : N unit :=
  r <- load_request req;; easy <- nonnull (curl r);; add_easy req easy.

(** The body of the loop of [OnAsyncAdd]. *)
Definition add_one (req : positive) : N unit :=
  upd_loop (fun e => set_stats_pending (sN 32 (stats_pending e - 1)) e);;;
  upd_loop (fun e => set_active ({[req]} ∪ active_http_requests_ e) e);;;
  r <- load_request req;;
  if handle_closed r then
    let r := set_completed true r in
    (match body_node r with Some n => wr (Decref (Some n)) | None => nret tt end);;;
    finish req (set_body_node None r)
  else SetupCurl req;;; ProcessCurlJob req.

Definition OnAsyncAdd : N unit :=
  e <- get_loop;; queue_loop pending_queue set_pending add_one (S (length (queue_ (pending_queue e)))).

(** The timer whose [data] is the request, if there is one. *)
Definition find_timer (req : positive) (timers : gmap positive positive) : option positive :=
  fst <$> List.find (fun kv => bool_decide (kv.2 = req)) (map_to_list timers).

Definition remove_timer (req : positive) (timers : gmap positive positive) : gmap positive positive :=
  match find_timer req timers with Some t => delete t timers | None => timers end.

(** [http_curl_handles_.erase], [curl_multi_remove_handle] and the counter. *)
Definition remove_easy (easy : positive) : N unit :=
  upd_loop (fun e => set_handles (http_curl_handles_ e ∖ {[easy]}) e);;;
  upd_loop (fun e => set_multi (delete easy (curl_multi_ e)) e);;;
  upd_loop (fun e => set_stats_active (sN 32 (stats_active e - 1)) e).

(** The body of the loop of [OnAsyncCancel].  A request that is not in the
    active set is not touched: it may have been deleted. *)
Definition cancel_one (req : positive) : N unit :=
  e <- get_loop;;
  if decide (req ∈ active_http_requests_ e) then
    r <- load_request req;;
    (if in_retry_wait r then upd_loop (fun e => set_timers (remove_timer req (retry_timers_ e)) e)
     else easy <- nonnull (curl r);; remove_easy easy);;;
    finish req (set_in_retry_wait false (set_completed true r))
  else nret tt.

Definition OnAsyncCancel : N unit :=
  e <- get_loop;; queue_loop cancel_queue set_cancel cancel_one (S (length (queue_ (cancel_queue e)))).

(** libcurl hands over received data; [WRITEDATA] and [HEADERDATA] are the request. *)
Definition receive (f : bytes -> HttpRequest -> HttpRequest) (easy : positive) (data : bytes) : N unit :=
  e <- get_loop;; req <- nonnull (curl_multi_ e !! easy);; r <- load_request req;; store_request req (f data r).

Definition receive_data : positive -> bytes -> N unit := receive OnReceiveData.
Definition receive_header : positive -> bytes -> N unit := receive OnReceiveHeaders.

(** [PrepareForRetry]. *)
Definition PrepareForRetry (req : positive) (r : HttpRequest) : N HttpRequest :=
  let r := reset_for_retry r in
  match response_node r with
  | Some n => wr (Decref (Some n));;; nret (set_response_node None r)
  | None => nret r
  end.

(** The delay is drawn from [[0, delay]]: a negative bound is undefined. *)
Definition schedule_retry (req timer : positive) (r : HttpRequest) : N unit :=
  scaled <- nonnull (backoff r);;
  (if retry_delay scaled (retry_max_delay_ms r) <? 0 then (fun _ => UB) else nret tt);;;
  upd_loop (fun e => set_timers (<[timer := req]> (retry_timers_ e)) e).

(** Parsing the response on the event thread. *)
Definition parse_response (r : HttpRequest) : N HttpRequest :=
  if (parse_mode r >? 0) && (curlcode r =? CURLE_OK) && negb (bool_decide (response_body r = [])) then
    node <- (if parse_mode r =? 1 then wr' (DataParseJson iterate (response_body r))
             else if parse_mode r =? 2 then (fun w => wr' (ParseMsgPack (g_max_container_elements w) (response_body r)) w)
             else nret (response_node r));;
    let r := set_response_node node r in
    nret (match node with Some _ => set_response_body [] r | None => r end)
  else nret r.

(** One message of [CheckCompletedJobs]: the transfer of [easy] ended with
    [result]; [httpcode] is its status; [timer] is the address of a new timer. *)
Definition complete_job (easy : positive) (result httpcode : Z) (timer : positive) : N unit :=
  e <- get_loop;; req <- nonnull (curl_multi_ e !! easy);;
  remove_easy easy;;;
  r <- load_request req;;
  let r := set_curlcode result r in
  if ShouldRetry httpcode r then
    r <- PrepareForRetry req r;; store_request req r;;;
    upd_loop (fun e => set_stats_retries (sN 32 (stats_retries e + 1)) e);;;
    schedule_retry req timer r
  else
    r <- parse_response r;; finish req (set_completed true r).

(** [CheckCompletedJobs]: the messages libcurl has, in order. *)
Fixpoint CheckCompletedJobs (messages : list (positive * Z * Z * positive)) : N unit :=
  match messages with
  | [] => nret tt
  | (easy, result, httpcode, timer) :: messages => complete_job easy result httpcode timer;;; CheckCompletedJobs messages
  end.

Definition OnRetryTimer (timer : positive) : N unit :=
  e <- get_loop;; req <- nonnull (retry_timers_ e !! timer);;
  upd_loop (fun e => set_timers (delete timer (retry_timers_ e)) e);;;
  r <- load_request req;;
  if completed r then nret tt else
  let r := set_in_retry_wait false r in
  if handle_closed r then finish req (set_completed true r) else
  let r := set_built (BuildHeaderSlist (headers_ r) (Some (auto_headers_ r))) r in
  store_request req r;;; easy <- nonnull (curl r);; add_easy req easy.

End HttpLoop.
