(* ===== verification/HttpLoopSafe.v ===== *)
(** * The event thread keeps the world consistent

    A callback of the event thread takes a request out of one place and puts it
    into another.  The first half are lemmas about the event loop's members
    alone; the second half lifts them to the world. *)

From stdpp Require Import base numbers list gmap.
From Stdlib Require Import ZArith Lia.
From S2P Require Import LinkedList LockedQueue MsgPack Prelude HandleManager NodePool DataMap DataValue Float Text DataNode HeaderMap HttpRequest EventLoop HttpState DataRefcount DataCopy JsonText JsonParse DataBuild ParsedNodes DataMerge DataHandle DataIterator Natives NativesJson NativesJsonSafe NativesHttp NativesHttpSafe HttpLoop.

Section Moves.

Context {FR : Frame}.
Implicit Types (e : EventLoop) (p : positive) (q : place).

(** [p] has left [q0] and is nowhere. *)
Record gone (p : positive) (q0 : place) (e e1 : EventLoop) : Prop := {
  G_members : forall q, q <> Idle -> (if decide (q = q0) then [p] else []) ++ members e1 q ≡ₚ members e q;
  G_cancel : forall x, x <> p -> x ∈ queue_ (cancel_queue e) -> x ∈ queue_ (cancel_queue e1);
  G_active : forall x, x <> p -> x ∈ active_http_requests_ e1 <-> x ∈ active_http_requests_ e;
  G_loop : loop_ok e1;
  G_multi : forall x y, curl_multi_ e1 !! x = Some y -> curl_multi_ e !! x = Some y
}.

(** ... and arrives among the completed ones ([finish]), *)
Definition finish_loop (req : positive) e : EventLoop :=
  let e := set_stats_completed (sN 32 (stats_completed e + 1)) e in
  let e := set_active (active_http_requests_ e ∖ {[req]}) e in
  set_done (Push req (done_queue e)) e.

Lemma finish_moves p q0 e e1 : q0 <> Finished -> gone p q0 e e1 ->
  moved FR FR p q0 Finished e (finish_loop p e1) /\ loop_ok (finish_loop p e1).
Proof.
  intros Hq [Hm Hc Ha (L1 & (F1 & F2 & F3) & S1 & S2) _]. split.
  - split_and!; [|done|].
    + intros q Hne. rewrite <- (Hm q Hne). destruct q; repeat case_decide; try done; cbn; subst; try done.
      rewrite app_assoc. apply Permutation_app_comm.
    + intros x. cbn. rewrite elem_of_difference, elem_of_singleton. destruct (decide (x = p)) as [->|Hx]; [naive_solver|].
      rewrite (Ha x Hx). naive_solver.
  - split_and!; cbn; try done. apply flag_Push.
Qed.

(** ... or in the multi handle ([add_easy]), *)
Definition add_loop (req easy : positive) e : EventLoop :=
  let e := set_stats_active (sN 32 (stats_active e + 1)) e in
  let e := set_handles ({[easy]} ∪ http_curl_handles_ e) e in
  set_multi (<[easy := req]> (curl_multi_ e)) e.

Lemma add_moves p q0 e e1 easy : q0 <> Multi -> gone p q0 e e1 -> curl_multi_ e1 !! easy = None -> p ∈ active_http_requests_ e1 ->
  moved FR FR p q0 Multi e (add_loop p easy e1) /\ loop_ok (add_loop p easy e1) /\
  forall x y, curl_multi_ (add_loop p easy e1) !! x = Some y -> curl_multi_ e !! x = Some y \/ (y = p /\ x = easy).
Proof.
  intros Hq [Hm Hc Ha (L1 & (F1 & F2 & F3) & S1 & S2) Hmu] Hn Hin. split_and!.
  - split_and!; [|done|].
    + intros q Hne. rewrite <- (Hm q Hne). destruct q; repeat case_decide; try done; cbn; subst; try done.
      by rewrite map_to_list_insert.
    + intros x. cbn. destruct (decide (x = p)) as [->|Hx]; [naive_solver|]. rewrite (Ha x Hx). naive_solver.
  - split_and!; cbn; try done; [by rewrite dom_insert_L, L1|]. rewrite S2, (s_add 32) by lia. f_equal. cbn.
    rewrite map_to_list_insert by done. cbn. lia.
  - intros x y. cbn. rewrite lookup_insert_Some. intros [[<- <-]|[_ Hx]]; [by right|]. left. by apply Hmu.
Qed.

(** ... or at a timer. *)
Definition wait_loop (req timer : positive) e : EventLoop := set_timers (<[timer := req]> (retry_timers_ e)) e.

Lemma wait_moves p q0 e e1 timer : q0 <> Wait -> gone p q0 e e1 -> retry_timers_ e1 !! timer = None -> p ∈ active_http_requests_ e1 ->
  moved FR FR p q0 Wait e (wait_loop p timer e1) /\ loop_ok (wait_loop p timer e1).
Proof.
  intros Hq [Hm Hc Ha (L1 & (F1 & F2 & F3) & S1 & S2) Hmu] Hn Hin. split.
  - split_and!; [|done|].
    + intros q Hne. rewrite <- (Hm q Hne). destruct q; repeat case_decide; try done; cbn; subst; try done.
      by rewrite map_to_list_insert.
    + intros x. cbn. destruct (decide (x = p)) as [->|Hx]; [naive_solver|]. rewrite (Ha x Hx). naive_solver.
  - by split_and!.
Qed.

(** Leaving the queue of pending requests, *)
Definition pend_loop (req : positive) (qu : LockedQueue positive) e : EventLoop :=
  let e := set_pending qu e in
  let e := set_stats_pending (sN 32 (stats_pending e - 1)) e in
  set_active ({[req]} ∪ active_http_requests_ e) e.

Lemma pend_gone p rest qu e : loop_ok e -> queue_ (pending_queue e) = p :: rest -> queue_ qu = rest -> flag_ok qu ->
  gone p Pend e (pend_loop p qu e).
Proof.
  intros (L1 & (F1 & F2 & F3) & S1 & S2) Eq Er Hf. split; try done.
  - intros q Hne. destruct q; repeat case_decide; try done; cbn. by rewrite Eq, Er.
  - intros x Hx. cbn. set_solver.
  - split_and!; cbn; try done. rewrite S1. cbn. rewrite Eq, Er.
    replace (sN 32 (Z.of_nat (length (p :: rest))) - 1) with (sN 32 (Z.of_nat (length (p :: rest))) + -1) by lia.
    rewrite (s_add 32) by lia. f_equal. cbn. lia.
Qed.

(** the multi handle, *)
Definition drop_loop (easy : positive) e : EventLoop :=
  let e := set_handles (http_curl_handles_ e ∖ {[easy]}) e in
  let e := set_multi (delete easy (curl_multi_ e)) e in
  set_stats_active (sN 32 (stats_active e - 1)) e.

Lemma drop_gone p easy e : loop_ok e -> curl_multi_ e !! easy = Some p -> gone p Multi e (drop_loop easy e).
Proof.
  intros (L1 & (F1 & F2 & F3) & S1 & S2) He. pose proof (map_to_list_delete _ _ _ He) as Hd. split; try done.
  - intros q Hne. destruct q; repeat case_decide; try done; cbn. by rewrite <- Hd.
  - split_and!; cbn; try done; [by rewrite dom_delete_L, L1|]. rewrite S2. cbn. rewrite <- Hd.
    match goal with |- context [sN 32 ?n - 1] => replace (sN 32 n - 1) with (sN 32 n + -1) by lia end.
    rewrite (s_add 32) by lia. f_equal. cbn. lia.
  - cbn. intros x y [_ Hx]%lookup_delete_Some. done.
Qed.

(** a timer. *)
Lemma timer_gone p t e : loop_ok e -> retry_timers_ e !! t = Some p -> gone p Wait e (set_timers (delete t (retry_timers_ e)) e).
Proof.
  intros (L1 & (F1 & F2 & F3) & S1 & S2) He. pose proof (map_to_list_delete _ _ _ He) as Hd. split; try done.
  intros q Hne. destruct q; repeat case_decide; try done; cbn. by rewrite <- Hd.
Qed.

(** The entry of a request in the queue of cancellations is taken out. *)
Lemma gone_cancel p q0 rest qu e e1 : queue_ (cancel_queue e) = p :: rest -> queue_ qu = rest -> flag_ok qu ->
  cancel_queue e1 = qu -> gone p q0 (set_cancel qu e) e1 -> gone p q0 e e1.
Proof.
  intros Eq Er Hf Ec [Hm Hc Ha Hl Hmu]. split; try done. intros x Hx. rewrite Eq, Ec, Er, elem_of_cons. naive_solver.
Qed.

Lemma find_timer_spec req timers : (exists t, timers !! t = Some req) -> exists t, find_timer req timers = Some t /\ timers !! t = Some req.
Proof.
  intros [t Ht]. unfold find_timer. destruct (List.find _ _) as [[t' r']|] eqn:E.
  - apply List.find_some in E as [Hin Hb]. apply bool_decide_eq_true_1 in Hb. cbn in Hb. subst r'. exists t'. split; [done|].
    apply elem_of_map_to_list. by apply list_elem_of_In.
  - exfalso. pose proof (List.find_none _ _ E (t, req)) as Hn. cbn in Hn. rewrite bool_decide_eq_false in Hn.
    apply Hn; [|done]. apply list_elem_of_In. by apply elem_of_map_to_list.
Qed.

End Moves.

(** ** Steps on the world *)

Section Steps.

Context {MO : DataMap bytes} {MI : DataMap Z} {P : Type} {PA : NodeAllocator P} {M : Type} {PC : PluginContext M} {FR : Frame}.

#[local] Notation N := (N (P := P) (M := M)).
#[local] Notation world := (world (P := P) (M := M)).
Implicit Types (w : world) (L : list loc).

(** What a request must look like at its new place. *)
Record arrives (r r' : HttpRequest) (q1 : place) : Prop := {
  A_core : curl r' = curl r /\ handle_id r' = handle_id r /\ client_index r' = client_index r /\ handle_closed r' = handle_closed r;
  A_thread : in_event_thread r' = in_flight q1;
  A_wait : in_retry_wait r' = bool_decide (q1 = Wait);
  A_completed : q1 = Wait -> completed r' = false;
  A_closed : handle_closed r = true -> q1 = Finished;
  A_body : body_ok r -> body_ok r';
  A_node : q1 <> Finished -> response_node r' = None
}.

Lemma Inv_shift L L' w w' p r r' q0 q1 : Inv L w -> objects w !! p = Some (OHttpRequest r) ->
  q0 <> Idle -> p ∈ members (g_event_loop w) q0 -> arrives r r' q1 ->
  moved FR FR p q0 q1 (g_event_loop w) (g_event_loop w') -> loop_ok (g_event_loop w') ->
  (forall x y, curl_multi_ (g_event_loop w') !! x = Some y -> curl_multi_ (g_event_loop w) !! x = Some y \/ (y = p /\ curl r = Some x)) ->
  objects w' = <[p := OHttpRequest r']> (objects w) -> hm w' = hm w -> nodes w' = nodes w -> curls w' = curls w ->
  g_client_handles w' = g_client_handles w ->
  obj_refs (OHttpRequest r') ++ L' ≡ₚ obj_refs (OHttpRequest r) ++ L -> q1 <> Run -> Inv L' w'.
Proof.
  intros Hi Ho Hq0 Hp [(C1 & C2 & C3 & C4) At Aw Ac Acl Ab An] Hm Hl Hmu Eo Eh En Ecu Ecl Er Hrun.
  destruct (I_http _ _ Hi) as [pl H]. destruct (at_place H p q0 Hq0 Hp) as (r1 & Hr1 & Hpl & Hok).
  pose proof (proj2 (requests_Some _ _ _) Ho) as Hr. assert (r1 = r) as -> by congruence. destruct Hok as [K1 K2 K3 K4 K5 K6 K7 K8].
  eapply (Inv_move (FR := FR) (FR' := FR) L L' w w' p r r'); [done..|]. exists (<[p := q1]> pl). rewrite Ecu, Ecl.
  eapply (http_move FR FR); [exact H|exact Hr|exact Hpl|exact Hm|exact Hl| |by rewrite C1|done..].
  split; rewrite ?C1, ?C2, ?C4; auto. intros Hc. rewrite (Acl Hc). split; [done|]. intros [?|?]; done.
Qed.

(** The reference to [n] moves out of the request and is dropped. *)
Lemma Decref_moved L n p r r' w : Inv L w -> objects w !! p = Some (OHttpRequest r) -> same_core r r' ->
  obj_refs (OHttpRequest r) ≡ₚ n :: obj_refs (OHttpRequest r') ->
  exists s, Decref (Some n) (nodes w) = Some s /\ shrunk (cells (nodes w)) (cells s) /\
    Inv L (set_objects (<[p := OHttpRequest r']> (objects w)) (set_nodes s w)).
Proof.
  intros Hi Ho Hc Er. set (os := <[p := OHttpRequest r']> (objects w)).
  assert (Inv (n :: L) (set_objects os w)) as Hi'.
  { apply (Inv_request_refs L (n :: L) w p r); [done..|]. rewrite Er, <- Permutation_middle. done. }
  destruct (Decref_inv (nodes w) (world_refs os ++ L) n) as (s & Hs & Hinv & Hsh).
  { eapply inv_perm; [|exact (I_heap _ _ Hi')]. by rewrite Permutation_middle. }
  exists s. split; [done|]. split; [done|]. by apply (Inv_nodes (n :: L) L (set_objects os w)).
Qed.

Lemma flying_core L w p q : Inv L w -> q <> Idle -> p ∈ members (g_event_loop w) q ->
  exists r, objects w !! p = Some (OHttpRequest r) /\ in_event_thread r = in_flight q /\ in_retry_wait r = bool_decide (q = Wait) /\
    (q = Wait -> completed r = false) /\ (q <> Finished -> q <> Run -> response_node r = None) /\ body_ok r /\
    (handle_closed r = true -> q = Multi \/ q = Wait -> p ∈ queue_ (cancel_queue (g_event_loop w))) /\ is_Some (curl r).
Proof.
  intros Hi Hq Hp. destruct (I_http _ _ Hi) as [pl H]. destruct (at_place H p q Hq Hp) as (r & Hr & _ & [K1 K2 K3 K4 K5 K6 K7 K8]).
  exists r. split; [by apply requests_Some|]. split_and!; try done. intros Hc. by apply K5.
Qed.

Lemma Inv_loop L w : Inv L w -> loop_ok (g_event_loop w).
Proof. intros Hi. destruct (I_http _ _ Hi) as [pl H]. by eapply http_loop. Qed.

(** [finish] after the request has left its place. *)
Lemma wp_finish L L' w w1 p r r' q0 : Inv L w -> objects w !! p = Some (OHttpRequest r) -> q0 <> Idle -> q0 <> Finished ->
  p ∈ members (g_event_loop w) q0 -> gone p q0 (g_event_loop w) (g_event_loop w1) ->
  (forall o, <[p := o]> (objects w1) = <[p := o]> (objects w)) -> hm w1 = hm w -> nodes w1 = nodes w -> curls w1 = curls w ->
  g_client_handles w1 = g_client_handles w -> curl r' = curl r -> handle_id r' = handle_id r -> client_index r' = client_index r -> handle_closed r' = handle_closed r ->
  in_event_thread r' = true -> in_retry_wait r' = false -> (body_ok r -> body_ok r') ->
  obj_refs (OHttpRequest r') ++ L' ≡ₚ obj_refs (OHttpRequest r) ++ L ->
  wp (finish p r') (fun _ w' => Inv L' w' /\ hm w' = hm w /\ objects w' = <[p := OHttpRequest (OnCompleted r')]> (objects w) /\
      g_event_loop w' = finish_loop p (g_event_loop w1) /\ nodes w' = nodes w) w1.
Proof.
  intros Hi Ho Hq Hqf Hp Hg Eo Eh En Ec Ecl C1 C2 C3 C4 Ht Hw Hb Er. unfold wp, finish, nbind, store_request, store_object, upd_loop.
  destruct (finish_moves p q0 _ _ Hqf Hg) as [Hm Hl]. split; [|split_and!; [done|cbn; by rewrite Eo|done|done]].
  eapply (Inv_shift L L' w _ p r (OnCompleted r') q0 Finished); [exact Hi|exact Ho|exact Hq|exact Hp| |exact Hm|exact Hl| |cbn; by rewrite Eo|done..| |done].
  - unfold OnCompleted. rewrite Hw. split; cbn; try done.
  - intros x y Hx. left. by apply (G_multi _ _ _ _ Hg).
  - unfold OnCompleted. rewrite Hw. exact Er.
Qed.

(** ** Pending requests *)

Lemma shrunk_acyclic m m' : shrunk m m' -> acyclic m -> acyclic m'.
Proof. intros Hs [rank Hr]. exists rank. intros d l (c & Hc & Hl). destruct (Hs d c Hc) as (c0 & Hc0 & _ & E). apply Hr. exists c0. by rewrite <- E. Qed.

Lemma easy_free L w p r c : Inv L w -> objects w !! p = Some (OHttpRequest r) -> curl r = Some c -> p ∉ members (g_event_loop w) Multi ->
  curl_multi_ (g_event_loop w) !! c = None.
Proof.
  intros Hi Ho Hc Hp. destruct (curl_multi_ (g_event_loop w) !! c) as [x|] eqn:E; [|done]. destruct Hp.
  destruct (I_http _ _ Hi) as [pl H]. destruct (K_multi _ _ _ _ _ _ H c x E) as (r' & Hr' & Hc').
  assert (x = p) as ->. { eapply (K_distinct _ _ _ _ _ _ H); [exact Hr'|by apply requests_Some|congruence]. }
  cbn. apply list_elem_of_fmap. exists (c, p). by rewrite elem_of_map_to_list.
Qed.

Lemma one_place L w p q q' : Inv L w -> q <> Idle -> q' <> Idle -> p ∈ members (g_event_loop w) q -> p ∈ members (g_event_loop w) q' -> q = q'.
Proof.
  intros Hi Hq Hq' H1 H2. destruct (I_http _ _ Hi) as [pl H]. apply (K_members _ _ _ _ _ _ H q p Hq) in H1.
  apply (K_members _ _ _ _ _ _ H q' p Hq') in H2. congruence.
Qed.

(** Entering the multi handle. *)
Lemma wp_add_easy L w w1 p r r' c q0 : Inv L w -> objects w !! p = Some (OHttpRequest r) -> q0 <> Idle -> q0 <> Multi ->
  p ∈ members (g_event_loop w) q0 -> gone p q0 (g_event_loop w) (g_event_loop w1) -> p ∈ active_http_requests_ (g_event_loop w1) ->
  objects w1 = <[p := OHttpRequest r']> (objects w) -> hm w1 = hm w -> nodes w1 = nodes w -> curls w1 = curls w ->
  g_client_handles w1 = g_client_handles w -> curl r = Some c -> arrives r r' Multi -> obj_refs (OHttpRequest r') = obj_refs (OHttpRequest r) ->
  wp (add_easy p c) (fun _ w' => Inv L w' /\ hm w' = hm w /\ objects w' = objects w1 /\ g_event_loop w' = add_loop p c (g_event_loop w1) /\
    nodes w' = nodes w) w1.
Proof.
  intros Hi Ho Hq Hqm Hp Hg Ha Eo Eh En Ec Ecl Hc Har Er. unfold wp, add_easy, nbind, upd_loop. split; [|done].
  assert (curl_multi_ (g_event_loop w1) !! c = None) as Hfree.
  { destruct (curl_multi_ (g_event_loop w1) !! c) as [x|] eqn:E; [|done]. apply (G_multi _ _ _ _ Hg) in E.
    rewrite (easy_free L w p r c Hi Ho Hc) in E; [done|]. intros Hm. by destruct (Hqm (one_place L w p q0 Multi Hi Hq ltac:(done) Hp Hm)). }
  destruct (add_moves p q0 _ _ c Hqm Hg Hfree Ha) as (Hm & Hl & Hmu).
  eapply (Inv_shift L L w _ p r r' q0 Multi); [exact Hi|exact Ho|exact Hq|exact Hp|exact Har|exact Hm|exact Hl| |exact Eo|done..| |done].
  - intros x y Hx. destruct (Hmu x y Hx) as [?|[-> ->]]; auto.
  - by rewrite Er.
Qed.

Lemma pop_spec L (get : EventLoop -> LockedQueue positive) set (body : positive -> N unit) p rest w (R : unit -> world -> Prop) :
  queue_ (get (g_event_loop w)) = p :: rest ->
  (forall qu, queue_ qu = rest -> flag_ok qu -> wp (body p) R (set_loop (set qu (g_event_loop w)) w)) ->
  Inv L w -> wp (nbind (pop_queue get set) body) R w.
Proof.
  intros Eq Hb _. destruct (Pop_spec _ _ _ Eq) as (qu & Hpop & Er & Hf). unfold wp, nbind, pop_queue, get_loop, nonnull, upd_loop, nret, nbind.
  rewrite Hpop. cbn. exact (Hb qu Er Hf).
Qed.
Section Setup.

Context (compress2 : bytes -> option bytes).

Lemma finish_setup_core r : let r' := finish_setup compress2 r in
  same_core r r' /\ body_node r' = body_node r /\ response_node r' = response_node r.
Proof.
  unfold finish_setup. assert (same_core r (compress_step compress2 r) /\ body_node (compress_step compress2 r) = body_node r /\
    response_node (compress_step compress2 r) = response_node r) as (H1 & H2 & H3).
  { unfold compress_step. destruct (post_body r); [split; [apply same_core_refl|done]|]. destruct (_ && _); [|split; [apply same_core_refl|done]].
    destruct (compress2 _); [|split; [apply same_core_refl|done]]. split; [core|done]. }
  revert H1 H2 H3. generalize (compress_step compress2 r) as r1. intros r1 H1 H2 H3. cbv zeta.
  destruct (post_body r1); (split; [|by rewrite <- H2, <- H3]); revert H1; core.
Qed.

(** What [SetupCurl] leaves: the request without its nodes. *)
Lemma SetupCurl_spec L w w1 p r : Inv L w -> objects w !! p = Some (OHttpRequest r) -> acyclic (cells (nodes w)) ->
  objects w1 = objects w -> nodes w1 = nodes w ->
  exists r1 s, SetupCurl compress2 p w1 = Done tt (set_objects (<[p := OHttpRequest (finish_setup compress2 r1)]> (objects w)) (set_nodes s w1)) /\
    same_core r r1 /\ response_node r1 = response_node r /\ body_node r1 = None /\ shrunk (cells (nodes w)) (cells s) /\
    Inv L (set_objects (<[p := OHttpRequest r1]> (objects w)) (set_nodes s w)).
Proof.
  intros Hi Ho Ha Eo En. unfold SetupCurl, nbind, load_request. rewrite Eo, Ho. destruct (body_node r) as [n|] eqn:Eb.
  - assert (held n w) as Hn by (eapply held_object; [exact Ho|cbn; rewrite Eb; constructor]).
    assert (exists body, (match body_format r with
        | JSON => rd (DataSerializeJson n false) | MSGPACK => rd (SerializeMsgPack n) | NONE => nret (post_body r) end) w1 = Done body w1) as [body Hb].
    { destruct (body_format r); unfold rd, nret; rewrite ?En; [by eexists| |].
      - destruct (DataSerializeJson_total (nodes w) _ n false (I_heap _ _ Hi)) as [t ->]; [by eapply held_live|by eexists].
      - destruct (node_value_of L w n Hi Hn Ha) as [u Hu]. unfold SerializeMsgPack. rewrite (node_value_repr _ _ _ Hu). by eexists. }
    set (r1 := set_body_node None (set_post_body body r)).
    destruct (Decref_moved L n p r r1 w Hi Ho) as (s & Hs & Hsh & Hi1); [core|cbn; by rewrite Eb|].
    exists r1, s. rewrite Hb. unfold wr, nret. rewrite En, Hs. unfold store_request, store_object. cbn [objects set_nodes]. rewrite Eo.
    split_and!; try done.
  - exists r, (nodes w). unfold nret, store_request, store_object. rewrite Eo. split_and!; try done; [|apply shrunk_refl|].
    + f_equal. rewrite <- En. by destruct w1.
    + rewrite insert_id by done. by destruct w.
Qed.

(** A pending request is picked up. *)
Lemma add_one_keeps L p rest w : Inv L w -> acyclic (cells (nodes w)) -> queue_ (pending_queue (g_event_loop w)) = p :: rest ->
  wp (nbind (pop_queue pending_queue set_pending) (add_one compress2))
    (fun _ w' => Inv L w' /\ shrunk (cells (nodes w)) (cells (nodes w')) /\ queue_ (pending_queue (g_event_loop w')) = rest /\ hm w' = hm w) w.
Proof.
  intros Hi Ha Eq. eapply pop_spec; [exact Eq| |exact Hi]. intros qu Er Hf.
  assert (p ∈ members (g_event_loop w) Pend) as Hp by (cbn; rewrite Eq; constructor).
  destruct (flying_core L w p Pend Hi ltac:(done) Hp) as (r & Ho & Ht & Hw & _ & Hn & Hb & _ & [c Hc]). cbn in Ht. specialize (Hn ltac:(done) ltac:(done)).
  pose proof (pend_gone p rest qu (g_event_loop w) (Inv_loop L w Hi) Eq Er Hf) as Hg. set (e1 := pend_loop p qu (g_event_loop w)) in Hg.
  change (wp (nbind (load_request p) (fun r => if handle_closed r then
      nbind (match body_node r with Some n => wr (Decref (Some n)) | None => nret tt end) (fun _ => finish p (set_body_node None (set_completed true r)))
      else nbind (SetupCurl compress2 p) (fun _ => ProcessCurlJob p)))
    (fun _ w' => Inv L w' /\ shrunk (cells (nodes w)) (cells (nodes w')) /\ queue_ (pending_queue (g_event_loop w')) = rest /\ hm w' = hm w) (set_loop e1 w)).
  unfold wp, nbind, load_request at 1. cbn [objects set_loop]. rewrite Ho. destruct (handle_closed r) eqn:Eh.
  - set (r1 := set_body_node None r).
    assert (exists s, (match body_node r with Some n => wr (Decref (Some n)) | None => nret tt end) (set_loop e1 w) = Done tt (set_nodes s (set_loop e1 w)) /\
      shrunk (cells (nodes w)) (cells s) /\ Inv L (set_objects (<[p := OHttpRequest r1]> (objects w)) (set_nodes s w))) as (s & -> & Hsh & Hi1).
    { destruct (body_node r) as [n|] eqn:Eb.
      - destruct (Decref_moved L n p r r1 w Hi Ho) as (s & Hs & Hsh & Hi1); [core|cbn; by rewrite Eb|]. exists s. unfold wr. cbn [nodes set_loop].
        by rewrite Hs.
      - exists (nodes w). split_and!; [done|apply shrunk_refl|]. apply (Inv_request L (set_nodes (nodes w) w) p r); [by destruct w|done|core|done|done]. }
    set (wA := set_objects _ _) in Hi1.
    eapply (wp_mono (finish p _)); [apply (wp_finish L L wA (set_nodes s (set_loop e1 w)) p r1 _ Pend Hi1)|]; try done.
    + cbn. by rewrite lookup_insert_eq.
    + intros o. cbn. by rewrite insert_insert_eq.
    + intros _ w' (Hi' & Eh' & Eo' & Ee' & En'). by rewrite Ee', En', Eh'.
  - destruct (SetupCurl_spec L w (set_loop e1 w) p r Hi Ho Ha) as (r1 & s & -> & Hcore & Hn1 & Hb1 & Hsh & Hi1); [done|done|].
    set (wA := set_objects _ _) in Hi1. unfold ProcessCurlJob, nbind, load_request. cbn [objects set_objects]. rewrite lookup_insert_eq.
    destruct (finish_setup_core r1) as (Hcore2 & Hb2 & Hn2). cbv zeta in Hcore2, Hb2, Hn2. set (r2 := finish_setup compress2 r1) in *.
    destruct Hcore as (C1 & C2 & C3 & C4 & C5 & C6 & C7 & C8 & C9). destruct Hcore2 as (D1 & D2 & D3 & D4 & D5 & D6 & D7 & D8 & D9).
    rewrite D1, C1, Hc. unfold nonnull.
    eapply (wp_mono (add_easy p c)); [eapply (wp_add_easy L wA _ p r1 r2 c Pend Hi1)|]; try done.
    + cbn. by rewrite lookup_insert_eq.
    + cbn. set_solver.
    + cbn. by rewrite insert_insert_eq.
    + by rewrite C1.
    + split; try done; [by rewrite D4, C4, Ht|by rewrite D6, C6, Hw|by rewrite C5, Eh|by rewrite Hn2, Hn1].
    + cbn [obj_refs]. by rewrite Hb2, Hn2.
    + intros _ w' (Hi' & Eh' & Eo' & Ee' & En'). by rewrite Ee', En', Eh'.
Qed.

End Setup.

(** ** Loops over a queue *)

Lemma wp_queue_loop (J : world -> Prop) get set (body : positive -> N unit) :
  (forall w p rest, J w -> queue_ (get (g_event_loop w)) = p :: rest ->
     wp (nbind (pop_queue get set) body) (fun _ w' => J w' /\ queue_ (get (g_event_loop w')) = rest) w) ->
  forall fuel w, J w -> (length (queue_ (get (g_event_loop w))) < fuel)%nat ->
  wp (queue_loop get set body fuel) (fun _ w' => J w' /\ queue_ (get (g_event_loop w')) = []) w.
Proof.
  intros Hbody. induction fuel as [|fuel IH]; intros w Hj Hlen; [lia|]. cbn [queue_loop]. apply wp_bind. unfold wp at 1, get_loop.
  destruct (queue_ (get (g_event_loop w))) as [|p rest] eqn:E.
  - unfold Empty. rewrite E. by apply wp_ret.
  - unfold Empty. rewrite E. specialize (Hbody w p rest Hj E). unfold wp, nbind in Hbody |- *.
    destruct (pop_queue get set w) as [x w1| |]; [|done|done]. destruct (body x w1) as [[] w2| |]; [|done|done].
    destruct Hbody as [Hj2 E2]. apply (IH w2 Hj2). rewrite E2. cbn in Hlen. lia.
Qed.

Lemma OnAsyncAdd_keeps compress2 L w : Inv L w -> acyclic (cells (nodes w)) ->
  wp (OnAsyncAdd compress2) (fun _ w' => (Inv L w' /\ acyclic (cells (nodes w')) /\ hm w' = hm w) /\ queue_ (pending_queue (g_event_loop w')) = []) w.
Proof.
  intros Hi Ha. apply wp_bind. unfold wp at 1, get_loop.
  apply (wp_queue_loop (fun w' => Inv L w' /\ acyclic (cells (nodes w')) /\ hm w' = hm w)); [|done|lia].
  intros w1 p rest (Hi1 & Ha1 & Eh1) E. eapply wp_mono; [by apply (add_one_keeps compress2 L p rest)|].
  intros _ w2 (Hi2 & Hsh & E2 & Eh2). split_and!; [done|by eapply shrunk_acyclic|congruence|done].
Qed.

(** ** Cancelling *)

Lemma http_skip pl reqs handles e c cl p rest qu : http_ok pl reqs handles e c cl -> queue_ (cancel_queue e) = p :: rest -> queue_ qu = rest ->
  flag_ok qu -> p ∉ active_http_requests_ e -> http_ok pl reqs handles (set_cancel qu e) c cl.
Proof.
  intros H Eq Er Hf Hna. pose proof (K_active _ _ _ _ _ _ H) as Hact. destruct H. split; try done.
  - intros x r Hx. destruct (K_req x r Hx) as (q & Hq & []). exists q. split; [done|]. split; try done.
    intros Hc. destruct (R_closed Hc) as [? Hin]. split; [done|]. intros Hqq. specialize (Hin Hqq). rewrite Eq, elem_of_cons in Hin. cbn. rewrite Er.
    destruct Hin as [->|Hin]; [|done]. destruct Hna. apply Hact. rewrite Hq. destruct Hqq as [-> | ->]; auto.
  - cbn. tauto.
Qed.

Lemma active_place L w p : Inv L w -> p ∈ active_http_requests_ (g_event_loop w) ->
  p ∈ members (g_event_loop w) Multi \/ p ∈ members (g_event_loop w) Wait.
Proof.
  intros Hi Ha. destruct (I_http _ _ Hi) as [pl H]. destruct (proj1 (K_active _ _ _ _ _ _ H p) Ha); [left|right]; by apply (K_members _ _ _ _ _ _ H).
Qed.

Lemma multi_easy L w p r c : Inv L w -> p ∈ members (g_event_loop w) Multi -> objects w !! p = Some (OHttpRequest r) -> curl r = Some c ->
  curl_multi_ (g_event_loop w) !! c = Some p.
Proof.
  intros Hi Hp Ho Hc. destruct (I_http _ _ Hi) as [pl H]. cbn in Hp. apply list_elem_of_fmap in Hp as ([c' p'] & -> & Hin%elem_of_map_to_list).
  cbn in *. destruct (K_multi _ _ _ _ _ _ H c' p' Hin) as (r' & Hr' & Hc'). apply requests_Some in Hr'. congruence.
Qed.

Lemma cancel_one_keeps L p rest w : Inv L w -> queue_ (cancel_queue (g_event_loop w)) = p :: rest ->
  wp (nbind (pop_queue cancel_queue set_cancel) cancel_one)
    (fun _ w' => (Inv L w' /\ hm w' = hm w /\ nodes w' = nodes w) /\ queue_ (cancel_queue (g_event_loop w')) = rest) w.
Proof.
  intros Hi Eq. eapply pop_spec; [exact Eq| |exact Hi]. intros qu Er Hf. set (e0 := set_cancel qu (g_event_loop w)).
  assert (loop_ok e0) as Hl0 by (destruct (Inv_loop L w Hi) as (? & ? & ?); split_and!; cbn; tauto).
  unfold cancel_one, wp, nbind, get_loop. cbn [g_event_loop set_loop]. case_decide as Ha.
  - assert (p ∈ active_http_requests_ (g_event_loop w)) as Ha' by exact Ha.
    unfold load_request. cbn [objects set_loop]. destruct (active_place L w p Hi Ha') as [Hp|Hp].
    + destruct (flying_core L w p Multi Hi ltac:(done) Hp) as (r & Ho & Ht & Hw & _ & _ & Hb & _ & [c Hc]). rewrite Ho, Hw, bool_decide_eq_false_2 by done.
      rewrite Hc. cbn [nonnull]. unfold nonnull, remove_easy, nbind, upd_loop.
      pose proof (multi_easy L w p r c Hi Hp Ho Hc) as Hm.
      eapply (wp_mono (finish p _)); [apply (wp_finish L L w (set_loop (drop_loop c e0) w) p r _ Multi Hi Ho)|]; try done.
      * apply (gone_cancel p Multi rest qu); [done..|]. by apply drop_gone.
      * intros _ w' (Hi' & Eh' & Eo' & Ee' & En'). by rewrite Ee', Eh', En'.
    + destruct (flying_core L w p Wait Hi ltac:(done) Hp) as (r & Ho & Ht & Hw & _ & _ & Hb & _ & [c Hc]). rewrite Ho, Hw, bool_decide_eq_true_2 by done.
      unfold upd_loop. cbn [g_event_loop set_loop].
      destruct (find_timer_spec p (retry_timers_ e0)) as (t & Hft & Htt).
      { cbn in Hp. apply list_elem_of_fmap in Hp as ([t p'] & -> & Hin%elem_of_map_to_list). by exists t. }
      unfold remove_timer. rewrite Hft.
      eapply (wp_mono (finish p _)); [apply (wp_finish L L w (set_loop (set_timers (delete t (retry_timers_ e0)) e0) w) p r _ Wait Hi Ho)|]; try done.
      * apply (gone_cancel p Wait rest qu); [done..|]. by apply timer_gone.
      * intros _ w' (Hi' & Eh' & Eo' & Ee' & En'). by rewrite Ee', Eh', En'.
  - split; [|done]. split; [|done]. destruct Hi as [H1 H2 H3 H4 H5 H6 [pl H7]]. split; try done. exists pl. by eapply http_skip.
Qed.

Lemma OnAsyncCancel_keeps L w : Inv L w ->
  wp OnAsyncCancel (fun _ w' => (Inv L w' /\ hm w' = hm w /\ nodes w' = nodes w) /\ queue_ (cancel_queue (g_event_loop w')) = []) w.
Proof.
  intros Hi. apply wp_bind. unfold wp at 1, get_loop.
  apply (wp_queue_loop (fun w' => Inv L w' /\ hm w' = hm w /\ nodes w' = nodes w)); [|done|lia].
  intros w1 p rest (Hi1 & Eh1 & En1) E. eapply wp_mono; [by apply (cancel_one_keeps L p rest)|].
  intros _ w2 ((Hi2 & Eh2 & En2) & E2). split_and!; [done|congruence|congruence|done].
Qed.
(** ** Transfers *)

(** Data for the transfer of [easy] that fits. *)
Definition fits_body (easy : positive) (data : bytes) w : Prop :=
  Forall is_byte data /\ forall p r, curl_multi_ (g_event_loop w) !! easy = Some p -> objects w !! p = Some (OHttpRequest r) ->
    len (response_body r ++ data) + 2 ^ 32 <= 2 ^ 64.

Lemma multi_member w easy p : curl_multi_ (g_event_loop w) !! easy = Some p -> p ∈ members (g_event_loop w) Multi.
Proof. intros He. cbn. apply list_elem_of_fmap. exists (easy, p). by rewrite elem_of_map_to_list. Qed.

Lemma receive_keeps f L easy data w : Inv L w -> is_Some (curl_multi_ (g_event_loop w) !! easy) ->
  (forall p r, curl_multi_ (g_event_loop w) !! easy = Some p -> objects w !! p = Some (OHttpRequest r) -> same_core r (f data r)) ->
  (forall r, body_node (f data r) = body_node r /\ response_node (f data r) = response_node r) ->
  wp (receive f easy data) (fun _ w' => Inv L w' /\ hm w' = hm w /\ nodes w' = nodes w /\ g_event_loop w' = g_event_loop w) w.
Proof.
  intros Hi [p He] Hcore Hrefs. unfold wp, receive, nbind, get_loop, nonnull. rewrite He. unfold load_request.
  destruct (flying_core L w p Multi Hi ltac:(done) (multi_member _ _ _ He)) as (r & Ho & _). rewrite Ho. split; [|done].
  destruct (Hrefs r). by apply (Inv_request L w p r); [|done|eapply Hcore|..].
Qed.

Lemma receive_data_keeps L easy data w : Inv L w -> is_Some (curl_multi_ (g_event_loop w) !! easy) -> fits_body easy data w ->
  wp (receive_data easy data) (fun _ w' => Inv L w' /\ hm w' = hm w /\ nodes w' = nodes w /\ g_event_loop w' = g_event_loop w) w.
Proof.
  intros Hi He [Hd Hf]. apply receive_keeps; [done|done| |done]. intros p r Hp Ho. pose proof (Hf p r Hp Ho) as Hlen.
  unfold same_core. cbn. split_and!; try done. intros [Hb _]. split; [|done]. by apply Forall_app_2.
Qed.

Lemma receive_header_keeps L easy data w : Inv L w -> is_Some (curl_multi_ (g_event_loop w) !! easy) ->
  wp (receive_header easy data) (fun _ w' => Inv L w' /\ hm w' = hm w /\ nodes w' = nodes w /\ g_event_loop w' = g_event_loop w) w.
Proof.
  intros Hi He. apply receive_keeps; [done|done| |]; intros; unfold OnReceiveHeaders; (destruct (split_colon data) as [[name rest]|]; [|]).
  all: try apply same_core_refl; try core; try done.
Qed.

Section Complete.

Context (iterate : bytes -> option od_value) (backoff : HttpRequest -> option Z).

(** The delay before a retry can be computed and drawn. *)
Definition delay_ok (r : HttpRequest) : Prop :=
  exists z, backoff r = Some z /\ 0 <= retry_delay z (retry_max_delay_ms r).

Definition can_retry (easy : positive) (result httpcode : Z) w : Prop :=
  forall p r, curl_multi_ (g_event_loop w) !! easy = Some p -> objects w !! p = Some (OHttpRequest r) ->
    ShouldRetry httpcode (set_curlcode result r) = true -> delay_ok (reset_for_retry (set_curlcode result r)).

Lemma gone_retries p q0 e e1 n : gone p q0 e e1 -> gone p q0 e (set_stats_retries n e1).
Proof. intros [Hm Hc Ha Hl Hmu]. by split. Qed.

Lemma gone_active p e e1 : gone p Multi e e1 -> active_http_requests_ e1 = active_http_requests_ e -> p ∈ active_http_requests_ e ->
  p ∈ active_http_requests_ e1.
Proof. by intros _ ->. Qed.

Lemma place_active L w p q : Inv L w -> q = Multi \/ q = Wait -> p ∈ members (g_event_loop w) q -> p ∈ active_http_requests_ (g_event_loop w).
Proof.
  intros Hi Hq Hp. destruct (I_http _ _ Hi) as [pl H]. apply (K_active _ _ _ _ _ _ H).
  destruct Hq as [-> | ->]; apply (K_members _ _ _ _ _ _ H) in Hp; auto.
Qed.

(** Parsing gives the request a node of its own, and may leak others. *)
Lemma parse_response_spec L w w1 r : Inv L w -> nodes w1 = nodes w -> response_node r = None -> body_ok r ->
  exists r1 s L', parse_response iterate r w1 = Done r1 (set_nodes s w1) /\
    Inv (option_list (response_node r1) ++ L' ++ L) (set_nodes s w) /\
    r1 = set_response_body (response_body r1) (set_response_node (response_node r1) r) /\ body_ok r1.
Proof.
  intros Hi En Hn Hb. unfold parse_response.
  assert (exists r1 s L', nret r w1 = Done r1 (set_nodes s w1) /\ Inv (option_list (response_node r1) ++ L' ++ L) (set_nodes s w) /\
    r1 = set_response_body (response_body r1) (set_response_node (response_node r1) r) /\ body_ok r1) as Hskip.
  { exists r, (nodes w), []. rewrite Hn. split_and!; [rewrite <- En; by destruct w1|by destruct w|rewrite <- Hn; by destruct r|done]. }
  destruct (_ && _ && _); [|exact Hskip].
  assert (forall node s L', Inv (option_list node ++ L' ++ L) (set_nodes s w) ->
    exists r1 s0 L0, nret (P := P) (M := M) (match node with Some _ => set_response_body [] (set_response_node node r) | None => set_response_node node r end)
        (set_nodes s w1) = Done r1 (set_nodes s0 w1) /\
      Inv (option_list (response_node r1) ++ L0 ++ L) (set_nodes s0 w) /\
      r1 = set_response_body (response_body r1) (set_response_node (response_node r1) r) /\ body_ok r1) as Hend.
  { intros node s L' Hs. eexists _, s, L'. split; [done|]. destruct node as [n|]; (split; [exact Hs|]); (split; [done|]); [|exact Hb].
    unfold body_ok, len. cbn [response_body set_response_body set_response_node length]. split; [constructor|lia]. }
  destruct (parse_mode r =? 1); [|destruct (parse_mode r =? 2)].
  - unfold nbind, wr'. rewrite En. destruct (DataParseJson_builds iterate (response_body r) (nodes w) _ (I_heap _ _ Hi)) as (n & s & L' & -> & Hs & _).
    apply (Hend n s L'). apply (Inv_nodes L); [done|]. eapply inv_perm; [|exact Hs].
    by rewrite (Permutation_app_swap_app L'), (Permutation_app_swap_app (option_list n)).
  - unfold nbind, wr'. rewrite En. destruct Hb as [Hb1 Hb2].
    destruct (ParseMsgPack_inv (g_max_container_elements w1) (response_body r) (nodes w) _ Hb2 Hb1 (I_heap _ _ Hi)) as (n & s & -> & Hs).
    apply (Hend n s []). apply (Inv_nodes L); [done|]. eapply inv_perm; [|exact Hs].
    apply Permutation_app_swap_app.
  - specialize (Hend None (nodes w) []). assert (set_nodes (nodes w) w1 = w1) as E1 by (rewrite <- En; by destruct w1).
    rewrite E1 in Hend. unfold nbind, nret at 1. rewrite Hn. apply Hend. by destruct w.
Qed.

(** A transfer ended. *)
Lemma complete_job_keeps L easy result httpcode timer w : Inv L w -> is_Some (curl_multi_ (g_event_loop w) !! easy) ->
  retry_timers_ (g_event_loop w) !! timer = None -> can_retry easy result httpcode w ->
  wp (complete_job iterate backoff easy result httpcode timer) (fun _ w' => (exists L', Inv (L' ++ L) w') /\ hm w' = hm w) w.
Proof.
  intros Hi [p He] Htm Hcan. pose proof (multi_member w easy p He) as Hp.
  destruct (flying_core L w p Multi Hi ltac:(done) Hp) as (r & Ho & Ht & Hw & _ & Hn & Hb & _ & _). specialize (Hn ltac:(done) ltac:(done)).
  pose proof (drop_gone p easy _ (Inv_loop L w Hi) He) as Hg. set (e1 := drop_loop easy (g_event_loop w)) in Hg.
  unfold wp, complete_job, nbind, get_loop, nonnull. rewrite He. unfold remove_easy, nbind, upd_loop, load_request. cbn [objects set_loop g_event_loop].
  rewrite Ho. set (r0 := set_curlcode result r). destruct (ShouldRetry httpcode r0) eqn:Es.
  - destruct (Hcan p r He Ho Es) as (z & Hz & Hd). fold r0 in Hz, Hd. unfold PrepareForRetry. set (r1 := reset_for_retry r0) in *.
    change (response_node r1) with (response_node r). rewrite Hn. unfold nret, store_request, store_object, schedule_retry, nbind, nonnull, upd_loop.
    rewrite Hz. rewrite (proj2 (Z.ltb_ge _ _) Hd). unfold nret. split; [|done]. exists [].
    pose proof (gone_retries p Multi _ _ (sN 32 (stats_retries e1 + 1)) Hg) as Hg2. set (e2 := set_stats_retries _ e1) in Hg2.
    destruct (wait_moves p Multi _ e2 timer ltac:(done) Hg2 Htm) as [Hm Hl]; [by eapply (place_active L w p Multi); [|left|]|].
    eapply (Inv_shift L L w _ p r r1 Multi Wait); [exact Hi|exact Ho|done|exact Hp| |exact Hm|exact Hl| |reflexivity|done..].
    + split; try done. unfold ShouldRetry in Es. intros Hc. change (handle_closed r0) with (handle_closed r) in Es. rewrite Hc in Es. by destruct (_ || _).
    + intros x y Hx. left. by apply (G_multi _ _ _ _ Hg).
  - destruct (parse_response_spec L w (set_loop e1 w) r0 Hi eq_refl Hn Hb) as (r1 & s & L' & Hpr & Hi1 & E1 & Hb1).
    change (parse_response iterate r0 _) with (parse_response iterate r0 (set_loop e1 w)). rewrite Hpr.
    eapply (wp_mono (finish p _)); [apply (wp_finish _ (L' ++ L) (set_nodes s w) (set_nodes s (set_loop e1 w)) p r _ Multi Hi1 Ho)|];
      try done; try (by rewrite E1).
    + rewrite E1. cbn. rewrite Hn. cbn. rewrite app_nil_r. by rewrite <- app_assoc.
    + intros _ w' (Hi' & Eh' & _). split; [by exists L'|done].
Qed.

(** The messages of one run: every transfer is in the multi handle when its
    message is read, and new timers have new addresses. *)
Fixpoint messages_ok (messages : list (positive * Z * Z * positive)) w : Prop :=
  match messages with
  | [] => True
  | (easy, result, httpcode, timer) :: messages =>
      is_Some (curl_multi_ (g_event_loop w) !! easy) /\ retry_timers_ (g_event_loop w) !! timer = None /\
      can_retry easy result httpcode w /\
      forall w', complete_job iterate backoff easy result httpcode timer w = Done tt w' -> messages_ok messages w'
  end.

Lemma CheckCompletedJobs_keeps messages : forall L w, Inv L w -> messages_ok messages w ->
  wp (CheckCompletedJobs iterate backoff messages) (fun _ w' => (exists L', Inv (L' ++ L) w') /\ hm w' = hm w) w.
Proof.
  induction messages as [|[[[easy result] httpcode] timer] messages IH]; intros L w Hi Hm; [split; [by exists []|done]|].
  destruct Hm as (He & Ht & Hc & Hrest). pose proof (complete_job_keeps L easy result httpcode timer w Hi He Ht Hc) as Hj.
  cbn [CheckCompletedJobs]. unfold wp, nbind in Hj |- *. destruct (complete_job _ _ _ _ _ _ w) as [[] w1| |] eqn:E; [|done|done].
  destruct Hj as [[L1 Hi1] Eh1]. pose proof (IH (L1 ++ L) w1 Hi1 (Hrest w1 eq_refl)) as Hr. unfold wp in Hr.
  destruct (CheckCompletedJobs iterate backoff messages w1) as [[] w2| |]; [|done|done]. destruct Hr as [[L2 Hi2] Eh2].
  split; [|congruence]. exists (L2 ++ L1). by rewrite <- app_assoc.
Qed.

End Complete.

(** A retry timer fires. *)
Lemma OnRetryTimer_keeps L timer w : Inv L w -> is_Some (retry_timers_ (g_event_loop w) !! timer) ->
  wp (OnRetryTimer timer) (fun _ w' => Inv L w' /\ hm w' = hm w /\ nodes w' = nodes w) w.
Proof.
  intros Hi [p He]. assert (p ∈ members (g_event_loop w) Wait) as Hp.
  { cbn. apply list_elem_of_fmap. exists (timer, p). by rewrite elem_of_map_to_list. }
  destruct (flying_core L w p Wait Hi ltac:(done) Hp) as (r & Ho & Ht & Hw & Hcm & Hn & Hb & _ & [c Hc]). specialize (Hn ltac:(done) ltac:(done)).
  pose proof (timer_gone p timer _ (Inv_loop L w Hi) He) as Hg. set (e1 := set_timers _ _) in Hg.
  unfold wp, OnRetryTimer, nbind, get_loop, nonnull. rewrite He. unfold upd_loop, load_request. cbn [objects set_loop g_event_loop].
  rewrite Ho, (Hcm eq_refl). destruct (handle_closed _) eqn:Ecl.
  - eapply (wp_mono (finish p _)); [apply (wp_finish L L w (set_loop e1 w) p r _ Wait Hi Ho)|]; try done. by intros _ w' (Hi' & Eh' & _ & _ & En').
  - unfold store_request, store_object. set (r1 := set_built _ _). change (curl r1) with (curl r). rewrite Hc.
    eapply (wp_mono (add_easy p c)); [eapply (wp_add_easy L w _ p r r1 c Wait Hi Ho)|]; try done.
    + by eapply (place_active L w p Wait); [|right|].
    + split; try done. intros Hcl. change (handle_closed r = false) in Ecl. congruence.
    + by intros _ w' (Hi' & Eh' & _ & _ & En').
Qed.

End Steps.
