(* ===== verification/GameFrame.v ===== *)
(** * [src/extension.cpp], [src/http_request.cpp]: the game thread between native calls

    What the game server calls: the frame hook, which hands completed requests
    to the plugins' callbacks; the loading and unloading of plugins; a client
    that leaves.  A SourcePawn function is a computation on the world, taken from
    the virtual machine by [GetFunctionById]; it may call natives, and the event
    thread may run in the meantime. *)

From stdpp Require Import base numbers list gmap.
From Stdlib Require Import ZArith Lia.
From S2P Require Import LinkedList LockedQueue MsgPack Prelude HandleManager NodePool DataMap DataValue Float Text DataNode HeaderMap HttpRequest EventLoop HttpState DataRefcount DataCopy JsonText JsonParse DataBuild DataHandle DataIterator Natives NativesJson NativesHttp UdpLoop NativesWs HttpLoop TcpLoop.

Section GameFrame.

Context {MO : DataMap bytes} {MI : DataMap Z} {P : Type} {PA : NodeAllocator P} {M : Type} {PC : PluginContext M}.

#[local] Notation N := (N (P := P) (M := M)).
#[local] Notation "x <- m ;; k" := (nbind m (fun x => k)) (at level 100, m at next level, right associativity).
#[local] Notation "m ;;; k" := (nbind m (fun _ => k)) (at level 100, right associativity).

(** simdjson; the functions of a plugin (what [Execute] does with the cells that
    were pushed); libcurl's status of the last response of an easy handle. *)
Context (iterate : bytes -> option od_value) (GetFunctionById : positive -> Z -> option (list Z -> N unit))
        (response_code : positive -> Z).

Definition GetSourcepawnFunction (context : positive) (id : Z) : N (option (list Z -> N unit)) := fun w =>
  Done (if decide (context ∈ g_plugin_contexts w) then GetFunctionById context id else None) w.

(** The request is closed: its handle is freed, which deletes it. *)
Definition auto_close (r : HttpRequest) : N unit :=
  upd_clients (UntrackClientHandle (client_index r) (handle_id r));;; FreeHandle (handle_id r).

(** The second parse, on the game thread. *)
Definition fallback_parse (r : HttpRequest) (node : option loc) : N (option loc) :=
  match node with
  | Some _ => nret node
  | None =>
      if (curlcode r =? CURLE_OK) && negb (bool_decide (response_body r = [])) then
        if parse_mode r =? 1 then wr' (DataParseJson iterate (response_body r))
        else if parse_mode r =? 2 then fun w => wr' (ParseMsgPack (g_max_container_elements w) (response_body r)) w
        else nret None
      else nret None
  end.

(** The [Json] the callback gets, 0 for none. *)
Definition json_result (p : positive) (r : HttpRequest) : N Z :=
  node <- (if handle_closed r then nret None else
           let node := response_node r in
           store_request p (set_response_node None r);;; fallback_parse r node);;
  match node with Some n => make_handle (plugin_context r) (ODataHandle (Some n)) | None => nret 0 end.

(** The cells of the callback. *)
Definition callback_cells (p : positive) (r : HttpRequest) : N (list Z) :=
  let httpresult := if negb (handle_closed r) && (curlcode r =? 0)
                    then match curl r with Some c => response_code c | None => 0 end else 0 in
  let size := if negb (handle_closed r) && (curlcode r =? 0) then Z.of_nat (length (response_body r)) else 0 in
  data <- (if parse_mode r >? 0 then json_result p r else nret (cell size));;
  nret [handle_id r; curlcode r; sN 32 httpresult; data; userdata r].

(** [OnCompletedGameThread] up to [Execute]: the function to call and its
    cells, or nothing when the plugin is gone. *)
Definition begin_callback (p : positive) : N (option ((list Z -> N unit) * list Z)) :=
  r <- load_request p;;
  let r := set_in_event_thread false r in
  store_request p r;;;
  func <- GetSourcepawnFunction (plugin_context r) (callback_id r);;
  match func with
  | None => auto_close r;;; nret None
  | Some func =>
      let r := if handle_closed r then set_curlcode CURLE_ABORTED_BY_CALLBACK r else r in
      store_request p r;;;
      cells <- callback_cells p r;; nret (Some (func, cells))
  end.

(** ... and after it: the members are read again. *)
Definition end_callback (p : positive) : N unit := r <- load_request p;; auto_close r.

Definition OnCompletedGameThread (p : positive) : N unit :=
  c <- begin_callback p;;
  match c with Some (func, cells) => func cells;;; end_callback p | None => nret tt end.

(** [g_event_loop.DrainCompleted(completed)] *)
Definition drain_completed : N (list positive) :=
  e <- get_loop;; x <- nonnull (DrainCompleted e);; upd_loop (fun _ => x.2);;; nret x.1.

Fixpoint for_each {A} (l : list A) (body : A -> N unit) : N unit :=
  match l with [] => nret tt | x :: l => body x;;; for_each l body end.

(** [OnGameFrame], the part about requests. *)
Definition frame_requests : N unit :=
  e <- get_loop;;
  if HasItems (done_queue e) then completed <- drain_completed;; for_each completed OnCompletedGameThread else nret tt.

(** ** Plugins and clients *)

Definition upd_plugins (f : gset positive -> gset positive) : N unit := fun w => Done tt (set_plugins (f (g_plugin_contexts w)) w).

Definition OnPluginLoaded (ctx : positive) : N unit := upd_plugins (union {[ctx]}).

Definition take_handles (ctx : positive) : N (list (Z * Handle)) := fun w =>
  let '(r, m) := TakePluginHandles ctx (hm w) in Done r (set_hm m w).

(** The loop body of [OnPluginUnloaded]. *)
Definition close_taken (idh : Z * Handle) : N unit :=
  let '(id, h) := idh in
  match type h with
  | HANDLE_HTTP_REQUEST =>
      r <- load_request (pointer h);;
      upd_clients (UntrackClientHandle (client_index r) (handle_id r));;;
      if in_event_thread r then cancel_request id (pointer h) r else FreeHandle id
  | HANDLE_TCP_SOCKET => close_socket (pointer h)
  | HANDLE_UDP_SOCKET => close_udp (pointer h)
  | HANDLE_WS_SOCKET => close_ws (pointer h)
  | HANDLE_JSON_VALUE | HANDLE_LINKED_LIST | HANDLE_ITERATOR => FreeHandle id
  | _ => nret tt
  end.

Definition OnPluginUnloaded (ctx : positive) : N unit :=
  upd_plugins (fun s => s ∖ {[ctx]});;; handles <- take_handles ctx;; for_each handles close_taken.

(** The loop body of [OnClientDisconnecting]. *)
Definition close_owned (id : Z) : N unit :=
  request <- GetHttpRequest id;;
  match request with
  | None => nret tt
  | Some (p, r) => if in_event_thread r then cancel_request id p r else FreeHandle id
  end.

Definition OnClientDisconnecting (client : Z) : N unit := fun w =>
  match g_client_handles w !! client with
  | None => Done tt w
  | Some handles => (upd_clients (delete client);;; for_each handles close_owned) w
  end.

End GameFrame.
