(* ===== verification/GameFrameSafe.v ===== *)
(** * The game thread keeps the world consistent

    Completed requests, their callbacks, the unloading of plugins and the
    leaving of clients. *)

From stdpp Require Import base numbers list gmap.
From Stdlib Require Import ZArith Lia.
From S2P Require Import UdpSocket WsConnection TcpSocket LinkedList LockedQueue MsgPack Prelude HandleManager NodePool DataMap DataValue Float Text DataNode HeaderMap HttpRequest EventLoop HttpState DataRefcount DataCopy JsonText JsonParse DataBuild ParsedNodes DataMerge DataHandle DataIterator Natives NativesJson NativesJsonSafe NativesHttp NativesHttpSafe UdpLoop NativesWs HttpLoop HttpLoopSafe TcpLoop GameFrame.

Section Frames.

Context {MO : DataMap bytes} {MI : DataMap Z} {P : Type} {PA : NodeAllocator P} {M : Type} {PC : PluginContext M}.
Context (iterate : bytes -> option od_value) (GetFunctionById : positive -> Z -> option (list Z -> N (P := P) (M := M) unit))
        (response_code : positive -> Z).

#[local] Notation N := (N (P := P) (M := M)).
#[local] Notation world := (world (P := P) (M := M)).
Implicit Types (w : world) (L : list loc).

(** ** Draining *)

(** Taking the completed requests out of the queue: the frame has them now. *)
Lemma drain_keeps L w : Inv (FR := no_frame) L w ->
  wp drain_completed (fun l w' => Inv (FR := mkFrame l None) L w' /\ l = queue_ (done_queue (g_event_loop w)) /\
    queue_ (done_queue (g_event_loop w')) = [] /\ hm w' = hm w /\ objects w' = objects w /\ nodes w' = nodes w) w.
Proof.
  intros Hi. unfold wp, drain_completed, nbind, get_loop, DrainCompleted, nonnull, upd_loop, nret.
  destruct (DrainAll_spec (done_queue (g_event_loop w))) as (q' & -> & Eq & Hf). cbn [fst snd]. split_and!; try done.
  destruct Hi as [H1 H2 H3 H4 H5 H6 [pl H7]]. split; try done. exists pl. cbn [objects g_event_loop set_loop hm curls g_client_handles].
  assert (forall q, members (FR := mkFrame (queue_ (done_queue (g_event_loop w))) None) (set_done q' (g_event_loop w)) q =
    members (FR := no_frame) (g_event_loop w) q) as Em.
  { intros []; try done. cbn. by rewrite Eq, app_nil_r. }
  destruct H7. split; try done.
  - intros q. rewrite Em. apply K_nodup.
  - intros q p Hq. rewrite Em. by apply K_members.
  - destruct K_flags as (F1 & F2 & F3). split_and!; [done|done|]. by apply Hf.
Qed.

(** ** Callbacks *)

(** The first completed request is taken up. *)
Lemma take_up p l L w : Inv (FR := mkFrame (p :: l) None) L w ->
  exists r, objects w !! p = Some (OHttpRequest r) /\ in_event_thread r = true /\ body_ok r /\
    Inv (FR := mkFrame l (Some p)) L (set_objects (<[p := OHttpRequest (set_in_event_thread false r)]> (objects w)) w).
Proof.
  intros Hi. set (FR := mkFrame (p :: l) None) in *. set (FR' := mkFrame l (Some p)).
  assert (p ∈ members (FR := FR) (g_event_loop w) Finished) as Hp by (cbn; constructor).
  destruct (I_http _ _ Hi) as [pl H]. destruct (at_place H p Finished ltac:(done) Hp) as (r & Hr & Hpl & Hok).
  pose proof (proj1 (requests_Some _ _ _) Hr) as Ho. pose proof Hok as [K1 K2 K3 K4 K5 K6 K7 K8]. cbn in K2, K3.
  exists r. split_and!; [done|done|done|].
  eapply (Inv_move (FR := FR) (FR' := FR') L L w _ p r (set_in_event_thread false r)); [exact Hi|exact Ho|done|done|done|done|].
  exists (<[p := Run]> pl). cbn [g_event_loop set_objects curls g_client_handles].
  eapply (http_move FR FR'); [exact H|exact Hr|exact Hpl| | | | |done..].
  - split_and!; [|done|].
    + intros q Hq. destruct q; repeat case_decide; try done.
    + intros x. rewrite (K_active _ _ _ _ _ _ H). destruct (decide (x = p)) as [->|]; [rewrite Hpl|]; naive_solver.
  - exact (http_loop (FR := FR) _ _ _ _ _ _ H).
  - split; cbn; try done. intros Hc. split; [done|]. by intros [?|?].
  - intros x y Hx. by left.
Qed.

(** The callback is over, or there is none. *)
Lemma wp_auto_close p l L w r : Inv (FR := mkFrame l (Some p)) L w -> objects w !! p = Some (OHttpRequest r) ->
  wp (auto_close r) (fun _ w' => Inv (FR := mkFrame l None) L w' /\ objects w' = delete p (objects w) /\ g_event_loop w' = g_event_loop w /\
    used_handles_ (hm w') = delete (handle_id r) (used_handles_ (hm w))) w.
Proof.
  intros Hi Ho. unfold auto_close. apply wp_bind, wp_upd_clients.
  assert (in_event_thread r = false) as Ht.
  { destruct (flying_core (FR := mkFrame l (Some p)) L w p Run Hi ltac:(done)) as (r' & Ho' & Ht & _); [cbn; constructor|].
    rewrite Ho in Ho'. by injection Ho' as ->. }
  eapply wp_mono; [apply (wp_free_request (mkFrame l (Some p)) (mkFrame l None) L w p r Hi Ho Ht); by right|].
  intros _ w' (Hi' & Eo & Ee & Eh & _). done.
Qed.

Lemma wp_load_request p r (R : HttpRequest -> world -> Prop) w : objects w !! p = Some (OHttpRequest r) -> R r w -> wp (load_request p) R w.
Proof. intros Ho HR. unfold wp, load_request. by rewrite Ho. Qed.

Lemma wp_function ctx id (R : option (list Z -> N unit) -> world -> Prop) w : (forall f, R f w) -> wp (GetSourcepawnFunction GetFunctionById ctx id) R w.
Proof. intros HR. apply HR. Qed.

Lemma wp_end_callback p l L w : Inv (FR := mkFrame l (Some p)) L w ->
  wp (end_callback p) (fun _ w' => Inv (FR := mkFrame l None) L w' /\ objects w' = delete p (objects w) /\ g_event_loop w' = g_event_loop w) w.
Proof.
  intros Hi. destruct (flying_core (FR := mkFrame l (Some p)) L w p Run Hi ltac:(done)) as (r & Ho & _); [cbn; constructor|].
  unfold end_callback. apply wp_bind, (wp_load_request _ _ _ _ Ho). eapply wp_mono; [exact (wp_auto_close p l L w r Hi Ho)|].
  by intros _ w' (? & ? & ? & _).
Qed.

Section Begin.

Context (l : list positive) (p : positive).
Let FR := mkFrame l (Some p).

Lemma fallback_keeps L w r node : Inv (FR := FR) (option_list node ++ L) w -> body_ok r ->
  wp (fallback_parse iterate r node) (fun n w' => (exists L', Inv (FR := FR) (option_list n ++ L' ++ L) w') /\ hm w' = hm w /\ objects w' = objects w /\
    g_event_loop w' = g_event_loop w) w.
Proof.
  intros Hi [Hb1 Hb2]. destruct node as [n|]; cbn [fallback_parse]; [apply wp_ret; split; [by exists []|done]|]. cbn [option_list app] in Hi.
  assert (wp (nret (P := P) (M := M) None) (fun n w' => (exists L', Inv (FR := FR) (option_list n ++ L' ++ L) w') /\ hm w' = hm w /\ objects w' = objects w /\
    g_event_loop w' = g_event_loop w) w) as Hnone by (apply wp_ret; split; [by exists []|done]).
  destruct (_ && _); [|exact Hnone]. destruct (parse_mode r =? 1); [|destruct (parse_mode r =? 2); [|exact Hnone]].
  - apply wp_wr'. destruct (DataParseJson_builds iterate (response_body r) (nodes w) _ (I_heap (FR := FR) _ _ Hi)) as (n & s & L' & -> & Hs & _).
    exists n, s. split; [done|]. split; [|done]. exists L'. apply (Inv_nodes (FR := FR) L); [done|]. eapply inv_perm; [|exact Hs].
    by rewrite (Permutation_app_swap_app L'), (Permutation_app_swap_app (option_list n)).
  - apply (wp_self (fun w => wr' (ParseMsgPack (g_max_container_elements w) (response_body r)))). apply wp_wr'.
    destruct (ParseMsgPack_inv (g_max_container_elements w) (response_body r) (nodes w) _ Hb2 Hb1 (I_heap (FR := FR) _ _ Hi)) as (n & s & -> & Hs).
    exists n, s. split; [done|]. split; [|done]. exists []. apply (Inv_nodes (FR := FR) L); [done|]. eapply inv_perm; [|exact Hs].
    apply Permutation_app_swap_app.
Qed.

Lemma json_result_keeps L w r : Inv (FR := FR) L w -> objects w !! p = Some (OHttpRequest r) ->
  Z.of_nat (size (used_handles_ (hm w))) < 2 ^ 32 - 1 ->
  wp (json_result iterate p r) (fun _ w' => exists L', Inv (FR := FR) (L' ++ L) w') w.
Proof.
  intros Hi Ho Hroom. unfold json_result. apply wp_bind.
  assert (body_ok r) as Hb by exact (Inv_body (FR := FR) L w p r Hi Ho).
  assert (wp (if handle_closed r then nret None else
      nbind (store_request p (set_response_node None r)) (fun _ => fallback_parse iterate r (response_node r)))
    (fun n w' => (exists L', Inv (FR := FR) (option_list n ++ L' ++ L) w') /\ hm w' = hm w) w) as Hn.
  { destruct (handle_closed r); [apply wp_ret; split; [by exists []|done]|].
    apply wp_bind, wp_store_request. set (w1 := set_objects _ w).
    assert (Inv (FR := FR) (option_list (response_node r) ++ L) w1) as Hi1.
    { apply (Inv_request_refs (FR := FR) L _ w p r); [exact Hi|exact Ho|core|]. cbn. rewrite <- !app_assoc. cbn. done. }
    eapply wp_mono; [exact (fallback_keeps L w1 r (response_node r) Hi1 Hb)|]. intros n w' (HL & Eh & _). done. }
  eapply wp_mono; [exact Hn|]. intros n w' [[L' Hi'] Eh]. destruct n as [n|]; [|apply wp_ret; by exists L'].
  eapply wp_mono; [apply (wp_make_handle (FR := FR) (L' ++ L) (plugin_context r) (ODataHandle (Some n)) w'); [exact Hi'|by eexists|done|by rewrite Eh]|].
  intros h w2 [Hi2 _]. by exists L'.
Qed.

End Begin.

(** [OnCompletedGameThread] up to the plugin's code. *)
Lemma wp_begin_callback p l L w : Inv (FR := mkFrame (p :: l) None) L w -> Z.of_nat (size (used_handles_ (hm w))) < 2 ^ 32 - 1 ->
  wp (begin_callback iterate GetFunctionById response_code p) (fun c w' => exists L',
    match c with Some _ => Inv (FR := mkFrame l (Some p)) (L' ++ L) w' | None => Inv (FR := mkFrame l None) (L' ++ L) w' end) w.
Proof.
  intros Hi Hroom. destruct (take_up p l L w Hi) as (r & Ho & Ht & Hb & Hi1). unfold begin_callback.
  set (r1 := set_in_event_thread false r) in *. set (w1 := set_objects _ w) in Hi1.
  assert (objects w1 !! p = Some (OHttpRequest r1)) as Ho1 by apply lookup_insert_eq.
  apply wp_bind, (wp_load_request _ _ _ _ Ho). cbv zeta. apply wp_bind, wp_store_request. fold r1 w1. apply wp_bind, wp_function. intros [fn|].
  - set (r2 := if handle_closed r1 then _ else _). apply wp_bind, wp_store_request. set (w2 := set_objects _ w1).
    assert (Inv (FR := mkFrame l (Some p)) L w2) as Hi2.
    { apply (Inv_request (FR := mkFrame l (Some p)) L w1 p r1); [exact Hi1|exact Ho1| |..]; unfold r2; destruct (handle_closed r1); [core|core|done..]. }
    assert (objects w2 !! p = Some (OHttpRequest r2)) as Ho2 by apply lookup_insert_eq.
    unfold callback_cells. do 2 apply wp_bind. destruct (parse_mode r2 >? 0); [|do 3 apply wp_ret; by exists []].
    eapply wp_mono; [apply (json_result_keeps l p L w2 r2 Hi2 Ho2); exact Hroom|]. intros d w' [L' Hi']. do 2 apply wp_ret. by exists L'.
  - apply wp_bind. eapply wp_mono; [exact (wp_auto_close p l L w1 r1 Hi1 Ho1)|]. intros _ w' (Hi' & _). apply wp_ret. by exists [].
Qed.

(** The frame goes well: there is room for a handle, and the function of each
    callback leaves the world consistent while its request waits for it. *)
Fixpoint frame_ok (l : list positive) w : Prop :=
  match l with
  | [] => True
  | p :: l =>
      Z.of_nat (size (used_handles_ (hm w))) < 2 ^ 32 - 1 /\
      forall c w1, begin_callback iterate GetFunctionById response_code p w = Done c w1 ->
      match c with
      | None => frame_ok l w1
      | Some (fn, cells) => forall L, Inv (FR := mkFrame l (Some p)) L w1 ->
          wp (fn cells) (fun _ w2 => (exists L', Inv (FR := mkFrame l (Some p)) (L' ++ L) w2) /\
            forall w3, end_callback p w2 = Done tt w3 -> frame_ok l w3) w1
      end
  end.

Lemma for_each_completed l : forall L w, Inv (FR := mkFrame l None) L w -> frame_ok l w ->
  wp (for_each l (OnCompletedGameThread iterate GetFunctionById response_code)) (fun _ w' => exists L', Inv (FR := no_frame) (L' ++ L) w') w.
Proof.
  induction l as [|p l IH]; intros L w Hi Hok; [by exists []|]. destruct Hok as [Hroom Hok].
  assert (forall L1 w1, Inv (FR := mkFrame l None) (L1 ++ L) w1 -> frame_ok l w1 ->
    wp (for_each l (OnCompletedGameThread iterate GetFunctionById response_code)) (fun _ w' => exists L', Inv (FR := no_frame) (L' ++ L) w') w1) as Hrest.
  { intros L1 w1 Hi1 Hok1. eapply wp_mono; [exact (IH _ w1 Hi1 Hok1)|]. intros _ w' [L4 Hi4]. exists (L4 ++ L1). by rewrite <- app_assoc. }
  cbn [for_each]. apply wp_bind. unfold OnCompletedGameThread at 1. apply wp_bind.
  pose proof (wp_begin_callback p l L w Hi Hroom) as Hb. unfold wp in Hb. unfold wp at 1.
  destruct (begin_callback _ _ _ p w) as [[[fn cells]|] w1| |]; [| |done|done]; specialize (Hok _ w1 eq_refl); destruct Hb as [L1 Hi1].
  - apply wp_bind. eapply wp_mono; [exact (Hok _ Hi1)|]. intros _ w2 [[L2 Hi2] Hok2].
    pose proof (wp_end_callback p l _ w2 Hi2) as He. unfold wp in He. unfold wp at 1. destruct (end_callback p w2) as [[] w3| |]; [|done|done].
    destruct He as [Hi3 _]. apply (Hrest (L2 ++ L1)); [by rewrite <- app_assoc|by apply Hok2].
  - apply wp_ret. by apply (Hrest L1).
Qed.

Lemma frame_requests_keeps L w : Inv (FR := no_frame) L w -> (forall l w1, drain_completed w = Done l w1 -> frame_ok l w1) ->
  wp (frame_requests iterate GetFunctionById response_code) (fun _ w' => exists L', Inv (FR := no_frame) (L' ++ L) w') w.
Proof.
  intros Hi Hok. unfold frame_requests, wp, nbind, get_loop. destruct (HasItems _); [|by exists []].
  pose proof (drain_keeps L w Hi) as Hd. unfold wp in Hd. destruct (drain_completed w) as [l w1| |]; [|done|done].
  destruct Hd as [Hi1 _]. exact (for_each_completed l L w1 Hi1 (Hok l w1 eq_refl)).
Qed.

End Frames.

(** ** Plugins *)

Section Plugins.

Context {MO : DataMap bytes} {MI : DataMap Z} {P : Type} {PA : NodeAllocator P} {M : Type} {FR : Frame}.

#[local] Notation N := (N (P := P) (M := M)).
#[local] Notation world := (world (P := P) (M := M)).
Implicit Types (w : world) (L : list loc).

Lemma wp_upd_plugins f (R : unit -> world -> Prop) w : R tt (set_plugins (f (g_plugin_contexts w)) w) -> wp (upd_plugins f) R w.
Proof. done. Qed.

Lemma Inv_plugins L s w : Inv L w -> Inv L (set_plugins s w).
Proof. by intros []. Qed.

(** A handle that was taken is still in the table. *)
Definition taken (idh : Z * Handle) w : Prop :=
  exists x, used_handles_ (hm w) !! idh.1 = Some x /\ pointer x = pointer idh.2 /\ type x = type idh.2.

Lemma take_keeps ctx L w : Inv L w ->
  wp (take_handles ctx) (fun r w' => Inv L w' /\ objects w' = objects w /\ nodes w' = nodes w /\ NoDup r.*1 /\ Forall (fun i => taken i w') r /\
    forall i, i ∈ r -> exists x, used_handles_ (hm w) !! i.1 = Some x /\ pointer x = pointer i.2 /\ owner x = Some ctx) w.
Proof.
  intros Hi. unfold wp, take_handles. pose proof (take_spec ctx (hm w) (Inv_wf _ _ Hi)) as Ht. pose proof (wf_Take ctx (hm w) (Inv_wf _ _ Hi)) as Hwf.
  destruct (TakePluginHandles ctx (hm w)) as [r m]. destruct Ht as (_ & _ & _ & Eu & Hnd & Hr). cbn in Hwf. split_and!; try done.
  - apply Inv_table; [done|done| |].
    + intros h x. rewrite Eu. intros (y & Hy & ->)%fmap_Some. exists y. split; [done|]. by case_decide.
    + intros h y Hy. rewrite Eu, Hy. eexists. split; [done|]. by case_decide.
  - apply Forall_forall. intros [h x] Hx. apply Hr in Hx as (y & Hy & Ho & ->). exists (set_owner None y). cbn. rewrite Eu, Hy.
    cbn. by rewrite decide_True.
  - intros [h x] Hx. apply Hr in Hx as (y & Hy & Ho & ->). by exists y.
Qed.

Lemma taken_mark id i w w' : hm w' = HandleManager.MarkHandleClosed id (hm w) -> taken i w -> taken i w'.
Proof.
  intros Eh (x & Hx & Hp & Ht). unfold taken. rewrite Eh. unfold HandleManager.MarkHandleClosed. destruct (used_handles_ (hm w) !! id) as [y|] eqn:Ey; [|by exists x].
  cbn. destruct (decide (i.1 = id)) as [Ei|Hne]; [|exists x; by rewrite lookup_insert_ne].
  rewrite Ei, lookup_insert_eq. eexists. split; [done|]. rewrite Ei in Hx. replace y with x by congruence. done.
Qed.

Lemma taken_free id i w w' : used_handles_ (hm w') = delete id (used_handles_ (hm w)) -> i.1 <> id -> taken i w -> taken i w'.
Proof. intros Eh Hne (x & Hx & Hp). exists x. by rewrite Eh, lookup_delete_ne. Qed.

(** Closing a socket touches no other object and no handle. *)
Lemma close_socket_keeps p s L w (R : world -> Prop) : Inv L w -> objects w !! p = Some (OTcpSocket s) -> (forall w', Inv L w' -> hm w' = hm w -> R w') ->
  wp (close_socket p) (fun _ => R) w.
Proof.
  intros Hi Ho HR. set (s' := Tcp.set_handle_closed true s). set (w1 := set_objects (<[p := OTcpSocket s']> (objects w)) w).
  assert (Inv L w1) as Hi1 by (apply (Inv_replace L L w p (OTcpSocket s) (OTcpSocket s')); [done|done|by split_and!|done|done]).
  unfold wp, close_socket, upd_socket, load_socket, store_object, nbind, EnqueueTcpOp, upd_tcp. rewrite Ho. cbn [objects set_objects]. rewrite lookup_insert_eq.
  apply HR; [|done]. fold w1. by destruct Hi1.
Qed.

Lemma close_udp_keeps p s L w (R : world -> Prop) : Inv L w -> objects w !! p = Some (OUdpSocket s) -> (forall w', Inv L w' -> hm w' = hm w -> R w') ->
  wp (close_udp p) (fun _ => R) w.
Proof.
  intros Hi Ho HR. set (s' := Udp.set_handle_closed true s). set (w1 := set_objects (<[p := OUdpSocket s']> (objects w)) w).
  assert (Inv L w1) as Hi1 by (apply (Inv_replace L L w p (OUdpSocket s) (OUdpSocket s')); [done|done|by split_and!|done|done]).
  unfold wp, close_udp. rewrite Ho. apply HR; [|done]. change (Inv L w1) in Hi1. by destruct Hi1.
Qed.

Lemma close_ws_keeps p c L w (R : world -> Prop) : Inv L w -> objects w !! p = Some (OWsConnection c) -> (forall w', Inv L w' -> hm w' = hm w -> R w') ->
  wp (close_ws p) (fun _ => R) w.
Proof.
  intros Hi Ho HR. set (c' := Ws.set_handle_closed true c). set (w1 := set_objects (<[p := OWsConnection c']> (objects w)) w).
  pose proof (I_ok _ _ Hi _ _ Ho) as Hok.
  assert (Inv L w1) as Hi1 by (apply (Inv_replace L L w p (OWsConnection c) (OWsConnection c')); [done|done|by split_and!|done|done]).
  unfold wp, close_ws. rewrite Ho. apply HR; [|done]. change (Inv L w1) in Hi1. by destruct Hi1.
Qed.

Lemma close_taken_keeps id h L w : Inv L w -> taken (id, h) w -> running <> Some (pointer h) ->
  wp (close_taken (id, h)) (fun _ w' => Inv L w' /\ forall i, i.1 <> id -> taken i w -> taken i w') w.
Proof.
  intros Hi (x & Hx & Hp & Ht) Hrun. cbn [fst snd] in Hx, Hp, Ht. destruct (I_object _ _ Hi id x Hx) as (o & Ho & Eo). rewrite Hp, Ht in *.
  assert (type h <> HANDLE_HTTP_REQUEST -> type h <> HANDLE_WS_SOCKET -> wp (FreeHandle id) (fun _ w' => Inv L w' /\ forall i, i.1 <> id -> taken i w -> taken i w') w) as Hfree.
  { intros Hne Hws. eapply wp_mono; [apply (wp_FreeHandle L id w Hi)|].
    - intros y Hy. replace y with x by congruence. rewrite Ht, Hp, Ho. split; [done|]. by intros c [= ->].
    - intros _ w' (Hi' & Eu & _). split; [done|]. intros i. by apply taken_free. }
  assert (forall w', Inv L w' -> hm w' = hm w -> Inv L w' /\ forall i, i.1 <> id -> taken i w -> taken i w') as Hsame.
  { intros w' Hi' Eh'. split; [done|]. intros i _ (y & Hy). exists y. by rewrite Eh'. }
  unfold close_taken. destruct (type h) eqn:Eh; try (by apply Hfree); [| | | |apply wp_ret; by split].
  2: { destruct o as [| | | |s| |]; try done. by eapply close_socket_keeps. }
  2: { destruct o as [| | | | |s|]; try done. by eapply close_udp_keeps. }
  2: { destruct o as [| | | | | |c]; try done. by eapply close_ws_keeps. }
  destruct o as [| |r| | | |]; try done. apply wp_bind, (wp_load_request _ _ _ _ Ho).
  destruct (GetHttpRequest_self L w id (pointer h) r x Hi Ho Hx Hp) as (-> & _ & _). apply wp_bind, wp_upd_clients.
  destruct (in_event_thread r) eqn:Et.
  - eapply wp_mono; [apply (wp_cancel_request L w (pointer h) r _ Hi Ho eq_refl Et)|]. intros _ w' (Hi' & _ & _ & _ & _ & Eh').
    split; [done|]. intros i _. by eapply taken_mark.
  - eapply wp_mono; [apply (wp_free_request FR FR L w (pointer h) r Hi Ho Et); by left|]. intros _ w' (Hi' & _ & _ & Eu & _).
    split; [done|]. intros i. by apply taken_free.
Qed.

(** The plugin whose callback is running is not unloaded. *)
Definition unload_ok (ctx : positive) w : Prop :=
  forall h x, used_handles_ (hm w) !! h = Some x -> owner x = Some ctx -> running <> Some (pointer x).

Lemma OnPluginUnloaded_keeps ctx L w : Inv L w -> unload_ok ctx w -> wp (OnPluginUnloaded ctx) (fun _ => Inv L) w.
Proof.
  intros Hi Hok. unfold OnPluginUnloaded. apply wp_bind, wp_upd_plugins, wp_bind. set (w1 := set_plugins _ w).
  eapply wp_mono; [exact (take_keeps ctx L w1 (Inv_plugins L _ w Hi))|]. intros r w2 (Hi2 & _ & _ & Hnd & Htk & Hown).
  assert (forall i, i ∈ r -> running <> Some (pointer i.2)) as Hrun.
  { intros i Hin. destruct (Hown i Hin) as (x & Hx & <- & Eo). by apply (Hok i.1). }
  clear Hown. revert w2 Hi2 Htk. induction r as [|[id h] r IH]; intros w2 Hi2 Htk; [done|]. cbn [for_each].
  apply Forall_cons in Htk as [Ht Htk]. cbn in Hnd. apply NoDup_cons in Hnd as [Hid Hnd]. apply wp_bind.
  eapply wp_mono; [apply (close_taken_keeps id h L w2 Hi2 Ht), (Hrun (id, h)); constructor|]. intros _ w3 [Hi3 Hk].
  apply IH; [done|intros i Hin; apply Hrun; by constructor|done|]. rewrite Forall_forall in Htk |- *. intros i Hin. apply Hk; [|by apply Htk].
  intros <-. apply Hid. apply list_elem_of_fmap. by exists i.
Qed.

Lemma OnPluginLoaded_keeps ctx L w : Inv L w -> wp (OnPluginLoaded ctx) (fun _ => Inv L) w.
Proof. intros Hi. by apply wp_upd_plugins, Inv_plugins. Qed.

(** ** Clients *)

(** Steps that neither read nor write the index of client handles. *)
Definition sets_clients {A} c (o : outcome (P := P) (M := M) A) : outcome A :=
  match o with Done a w => Done a (set_clients c w) | BadArg => BadArg | UB => UB end.

Lemma cancel_clients c h p r w : cancel_request h p r (set_clients c w) = sets_clients c (cancel_request h p r w).
Proof. done. Qed.

Lemma free_clients c h w : FreeHandle h (set_clients c w) = sets_clients c (FreeHandle h w).
Proof.
  unfold FreeHandle. cbn [hm set_clients]. destruct (used_handles_ (hm w) !! h) as [x|]; [|done]. destruct (decide _); [done|].
  unfold delete_object. cbn [objects set_hm set_clients curls nodes]. destruct (objects w !! pointer x) as [o|]; [|done].
  destruct (release o (curls w)); [|done]. by destruct (foldM _ _ _).
Qed.

(** [w] is consistent but for the index, which lacks the entry of the client. *)
Definition leaving (L : list loc) (client : Z) (ids : list Z) (cl : gmap Z (list Z)) w : Prop :=
  Inv L (set_clients cl w) /\ g_client_handles w = delete client cl /\
  (forall h, h ∈ default [] (cl !! client) -> h ∈ ids) /\
  (forall h p, h ∈ ids -> HandleManager.GetHttpRequest h (hm w) = Some p -> h ∈ default [] (cl !! client) /\ running <> Some p).

Lemma delete_untrack client h (cl : gmap Z (list Z)) : delete client (UntrackClientHandle client h cl) = delete client cl.
Proof.
  unfold UntrackClientHandle. destruct (client <=? 0); [done|]. destruct (cl !! client); [|done].
  destruct (filter _ _); [by rewrite delete_delete_eq|by rewrite delete_insert_eq].
Qed.

Lemma get_mark t id h m p : get_typed t h (HandleManager.MarkHandleClosed id m) = Some p -> is_Some (used_handles_ m !! id) ->
  h <> id /\ get_typed t h m = Some p.
Proof.
  unfold get_typed, HandleManager.MarkHandleClosed. intros Hg [x Hx]. rewrite Hx in Hg. cbn in Hg. destruct (decide (h = id)) as [->|Hne].
  - rewrite lookup_insert_eq in Hg. by case_decide.
  - by rewrite lookup_insert_ne in Hg.
Qed.

Lemma get_delete t id h m m' p : get_typed t h m' = Some p -> used_handles_ m' = delete id (used_handles_ m) -> h <> id /\ get_typed t h m = Some p.
Proof.
  unfold get_typed. intros Hg Eu. rewrite Eu in Hg. destruct (decide (h = id)) as [->|Hne]; [by rewrite lookup_delete_eq in Hg|].
  by rewrite lookup_delete_ne in Hg.
Qed.

Lemma tracked_get L w i h : Inv L w -> h ∈ default [] (g_client_handles w !! i) ->
  0 < i /\ exists p r, objects w !! p = Some (OHttpRequest r) /\ handle_id r = h /\ client_index r = i /\
    HandleManager.GetHttpRequest h (hm w) = Some p.
Proof.
  intros Hi Hh. destruct (I_http _ _ Hi) as [pl H]. destruct (K_tracked _ _ _ _ _ _ H i h Hh) as (Hpos & p & r & Hr & E1 & E2 & E3).
  split; [done|]. exists p, r. split_and!; [by apply requests_Some|done|done|].
  destruct (K_req _ _ _ _ _ _ H p r Hr) as (q & _ & Hok). destruct (R_self _ _ _ _ _ Hok) as (x & Hx & Ep & Et & Ec).
  unfold HandleManager.GetHttpRequest, get_typed. rewrite <- E1, Hx, Et, Ec, E3, Ep. by rewrite decide_False by (by intros []).
Qed.

(** One of the client's requests is closed. *)
Lemma leaving_closes L client id ids cl w w2 : leaving L client (id :: ids) cl w ->
  Inv L (set_clients (UntrackClientHandle client id cl) w2) -> 0 < client -> g_client_handles w2 = g_client_handles w ->
  (forall h p, HandleManager.GetHttpRequest h (hm w2) = Some p -> h <> id /\ HandleManager.GetHttpRequest h (hm w) = Some p) ->
  leaving L client ids (UntrackClientHandle client id cl) w2.
Proof.
  intros (Hi & Ec & H3 & H4) Hi2 Hpos Ec2 Hg. split_and!.
  - done.
  - by rewrite delete_untrack, <- Ec, Ec2.
  - intros h [Hh Hne]%elem_untrack. apply H3 in Hh as [->|Hh]%elem_of_cons; [naive_solver|done].
  - intros h p Hh Hp. destruct (Hg h p Hp) as [Hne Hp0]. destruct (H4 h p) as [Hin Hr]; [by constructor|done|].
    split; [|done]. apply elem_untrack. naive_solver.
Qed.

Lemma close_owned_leaving L client id ids cl w : leaving L client (id :: ids) cl w ->
  wp (close_owned id) (fun _ w' => exists cl', leaving L client ids cl' w') w.
Proof.
  intros Hl. pose proof Hl as (Hi & Ec & H3 & H4). unfold close_owned. apply wp_bind.
  unfold wp at 1, GetHttpRequest. destruct (HandleManager.GetHttpRequest id (hm w)) as [p|] eqn:Eg.
  2:{ apply wp_ret. exists cl. split_and!; [done|done| |].
      - intros h Hh. destruct (tracked_get L _ client h Hi Hh) as (_ & p & r & _ & _ & _ & Hp). cbn in Hp.
        apply H3 in Hh as [->|Hh]%elem_of_cons; [congruence|done].
      - intros h p Hh. apply H4. by constructor. }
  destruct (H4 id p) as [Hin Hrun]; [constructor|done|].
  destruct (tracked_get L (set_clients cl w) client id Hi Hin) as (Hpos & p' & r & Ho & Eid & Eci & Hp'). cbn in Ho, Hp'.
  assert (p' = p) as -> by congruence. rewrite Ho.
  assert (is_Some (used_handles_ (hm w) !! id)) as Hused.
  { unfold HandleManager.GetHttpRequest, get_typed in Eg. by destruct (used_handles_ (hm w) !! id); [eexists|]. }
  destruct (in_event_thread r) eqn:Et.
  - pose proof (wp_cancel_request L (set_clients cl w) p r id Hi Ho (eq_sym Eid) Et) as Hc. unfold wp in Hc |- *.
    set (c2 := UntrackClientHandle _ _ _) in Hc. change (set_clients c2 (set_clients cl w)) with (set_clients c2 w) in Hc.
    rewrite cancel_clients in Hc. destruct (cancel_request id p r w) as [[] w2| |] eqn:E2; [|done|done]. cbn in Hc.
    destruct Hc as (Hi2 & _ & _ & _ & _ & Eh). exists c2. subst c2. rewrite Eci in *.
    apply (leaving_closes L client id ids cl w w2 Hl Hi2 Hpos); [by injection E2 as <-|]. intros h p1. cbn in Eh |- *. rewrite Eh.
    intros Hg. by apply get_mark in Hg.
  - pose proof (wp_free_request FR FR L (set_clients cl w) p r Hi Ho Et (or_introl (conj eq_refl Hrun))) as Hc. unfold wp in Hc |- *.
    rewrite Eid in Hc. set (c2 := UntrackClientHandle _ _ _) in Hc. change (set_clients c2 (set_clients cl w)) with (set_clients c2 w) in Hc.
    pose proof (free_clients (g_client_handles w) id w) as E2. replace (set_clients (g_client_handles w) w) with w in E2 by (by destruct w).
    rewrite free_clients in Hc. destruct (FreeHandle id w) as [[] w2| |]; [|done|done]. cbn in Hc, E2.
    destruct Hc as (Hi2 & _ & _ & Eu & _). exists c2. subst c2. cbn [client_index set_clients g_client_handles] in *. rewrite Eci in *.
    apply (leaving_closes L client id ids cl w w2 Hl Hi2 Hpos); [injection E2 as E2; by rewrite E2|]. intros h p1 Hg. by eapply get_delete.
Qed.

(** The request whose callback is running is not one of the client's. *)
Definition leave_ok (client : Z) w : Prop :=
  forall h p, h ∈ default [] (g_client_handles w !! client) -> HandleManager.GetHttpRequest h (hm w) = Some p -> running <> Some p.

Lemma OnClientDisconnecting_keeps client L w : Inv L w -> leave_ok client w ->
  wp (OnClientDisconnecting client) (fun _ w' => Inv L w' /\ g_client_handles w' !! client = None) w.
Proof.
  intros Hi Hok. unfold wp, OnClientDisconnecting. destruct (g_client_handles w !! client) as [ids|] eqn:Ec; [|by split].
  change (wp (nbind (upd_clients (delete client)) (fun _ => for_each ids close_owned)) (fun _ w' => Inv L w' /\ g_client_handles w' !! client = None) w).
  apply wp_bind, wp_upd_clients. set (w1 := set_clients _ w).
  assert (leaving L client ids (g_client_handles w) w1) as Hl.
  { split_and!; [by destruct w|done|by rewrite Ec|]. intros h p Hh Hp. rewrite Ec. split; [done|]. by apply (Hok h); [rewrite Ec|]. }
  clearbody w1. clear Hi Hok Ec. revert w1 Hl. generalize (g_client_handles w) as cl. clear w. induction ids as [|id ids IH]; intros cl w Hl.
  - apply wp_ret. destruct Hl as (Hi & Ec & H3 & _). split; [|by rewrite Ec, lookup_delete_eq].
    destruct Hi as [H1 H2 H3' H4 H5 H6 [pl H7]]. split; try done. exists pl. eapply http_clients; [exact H7|]. intros i. rewrite Ec. cbn.
    destruct (decide (i = client)) as [->|]; [|by rewrite lookup_delete_ne]. rewrite lookup_delete_eq. cbn.
    destruct (default [] (cl !! client)) as [|h t] eqn:E; [done|]. exfalso. apply (not_elem_of_nil h), H3. constructor.
  - cbn [for_each]. apply wp_bind. eapply wp_mono; [exact (close_owned_leaving L client id ids cl w Hl)|]. intros _ w' [cl' Hl']. by apply (IH cl').
Qed.

End Plugins.
