(* ===== verification/TcpState.v ===== *)
(** * The invariant of TCP sockets

    What relates the handle table, the socket objects, the event loop's table,
    the queued operations, the resolutions and libuv's handles to the events on
    their way to the game thread.  It is stated per socket, over the parts that
    name its handle, so that a step on one socket leaves the others alone. *)

From stdpp Require Import base numbers list gmap.
From Stdlib Require Import ZArith Lia.
From S2P Require Import Prelude LockedQueue TcpSocket HandleManager.

Import Tcp.

Implicit Types (s : TcpSocket) (t : TcpLoop) (u : uv_tcp_t) (p : positive) (id : Z).

(** ** Views *)

Definition op_id (op : TcpOp) : Z :=
  match op with
  | CONNECT id _ _ _ | SEND id _ | CLOSE id | LISTEN id _ _ _ _ _ | BIND id _ _ _ | SET_OPTION id _ _ | ACCEPT_CONFIG id _ _ _ _ _ => id
  end.

(** The pointer of an operation that registers its socket. *)
Definition op_ptr (op : TcpOp) : option positive :=
  match op with
  | CONNECT _ _ _ p | LISTEN _ _ _ _ _ p | BIND _ _ _ p | ACCEPT_CONFIG _ _ _ _ _ p => Some p
  | _ => None
  end.

Definition res_id (r : Resolution) : Z := match r with R_connect id _ _ | R_listen id _ _ _ | R_bind id _ _ => id end.

Definition ops_of id t : list TcpOp := filter (fun op => op_id op = id) (queue_ (tcp_op_queue t)).
Definition res_of id t : list Resolution := filter (fun r => res_id r = id) (resolving t).
Definition closed_of id (evs : list SocketEvent) : list SocketEvent := filter (fun e => e_type e = TCP_CLOSED /\ e_handle_id e = id) evs.
Definition accepted_of (evs : list SocketEvent) : list positive := omap e_accepted evs.

(** Operations that register, in the operations of one socket. *)
Definition regs (ops : list TcpOp) : list TcpOp := filter (fun op => is_Some (op_ptr op)) ops.

Definition is_close (op : TcpOp) : bool := match op with CLOSE _ => true | _ => false end.

(** No close before an operation that registers. *)
Fixpoint ordered (ops : list TcpOp) : Prop :=
  match ops with [] => True | op :: ops => (is_close op = true -> regs ops = []) /\ ordered ops end.

(** libuv has no request for the handle, does not read it and does not listen. *)
Definition idle u : Prop := uv_connect u = None /\ uv_writes u = [] /\ uv_reading u = false /\ uv_listening u = false.

(** ** One socket *)

Record uv_ok p s u : Prop := {
  U_data : uv_data u = p;
  U_closing : match uv_closing u with None => state s <> CLOSING | Some CB_OnTcpClosed => state s = CLOSING | Some _ => False end;
  U_reading : uv_reading u = true -> state s = CONNECTED;
  U_connect : uv_connect u = None \/ (uv_connect u = Some p /\ (state s = CONNECTING \/ state s = CLOSING));
  U_writes : Forall (fun q => q.1 = p) (uv_writes u) /\ (uv_writes u = [] \/ state s = CONNECTED \/ state s = CLOSING)
}.

(** What a queued operation that registers says of its socket. *)
Definition reg_ok (tab : option positive) (res : list Resolution) (uv : option uv_tcp_t) s (op : TcpOp) : Prop :=
  match op with
  | CONNECT _ _ _ _ | BIND _ _ _ _ => state s = CREATED /\ res = []
  | LISTEN _ _ _ _ _ _ => state s = CREATED /\ res = [] /\ tab = None /\ uv_handle s = None
  | ACCEPT_CONFIG _ _ _ _ _ _ => state s = CONNECTED /\ tab = None /\ exists u, uv = Some u /\ idle u
  | _ => True
  end.

Definition res_ok s (r : Resolution) : Prop :=
  match r with
  | R_connect _ _ _ => state s = RESOLVING
  | R_listen _ _ _ _ => state s = CREATED /\ uv_handle s = None
  | R_bind _ _ _ => state s = CREATED
  end.

Record sock_ok (tab : option positive) (ops : list TcpOp) (res : list Resolution) (closed : list SocketEvent) (uv : option uv_tcp_t) p s : Prop := {
  S_tab : tab = None \/ tab = Some p;
  S_uv : match uv_handle s with Some _ => exists u, uv = Some u /\ uv_ok p s u | None => state s <> CLOSING end;
  S_closed : length closed = if decide (state s = CLOSED) then 1%nat else 0%nat;
  S_final : state s = CLOSED -> tab = None /\ uv_handle s = None /\ regs ops = [];
  S_regs : (length (regs ops) <= 1)%nat /\ Forall (fun op => op_ptr op = Some p /\ reg_ok tab res uv s op) (regs ops);
  S_ordered : ordered ops;
  S_closes : Exists (fun op => is_close op = true) ops -> handle_closed s = true;
  S_res : (length res <= 1)%nat /\ (handle_closed s = false -> Forall (res_ok s) res)
}.

(** The libuv handle a socket has. *)
Definition uv_of s t : option uv_tcp_t := uv_handle s ≫= fun h => uv_handles t !! h.

Definition view_ok t evs id p s : Prop :=
  sock_ok (tcp_sockets_ t !! id) (ops_of id t) (res_of id t) (closed_of id evs) (uv_of s t) p s.

(** An accepted socket that has no handle yet. *)
Definition waiting_ok t p s : Prop :=
  handle_id s = 0 /\ state s = CONNECTED /\ exists h u, uv_handle s = Some h /\ uv_handles t !! h = Some u /\
    uv_data u = p /\ uv_closing u = None /\ idle u.

(** ** All sockets *)

Record tcp_ok (used : gmap Z Handle) (socks : gmap positive TcpSocket) t (evs : list SocketEvent) : Prop := {
  T_zero : used !! 0 = None;
  T_handle : forall id x, used !! id = Some x -> type x = HANDLE_TCP_SOCKET /\
    exists s, socks !! pointer x = Some s /\ handle_id s = id /\ view_ok t evs id (pointer x) s;
  T_sock : forall p s, socks !! p = Some s ->
    (exists x, used !! handle_id s = Some x /\ pointer x = p) \/ p ∈ accepted_of evs \/
    (handle_id s = 0 /\ exists h u, uv_handle s = Some h /\ uv_handles t !! h = Some u /\ uv_data u = p /\ uv_closing u = Some CB_delete_client);
  T_table : forall id p, tcp_sockets_ t !! id = Some p -> exists x, used !! id = Some x /\ pointer x = p;
  T_regs : forall op p, op ∈ queue_ (tcp_op_queue t) -> op_ptr op = Some p -> is_Some (used !! op_id op);
  T_closed : forall e, e ∈ evs -> e_type e = TCP_CLOSED -> is_Some (used !! e_handle_id e);
  T_waiting : NoDup (accepted_of evs) /\ forall p, p ∈ accepted_of evs -> exists s, socks !! p = Some s /\ waiting_ok t p s;
  T_accepted : forall e, e ∈ evs -> if decide (e_type e = TCP_ACCEPTED) then is_Some (e_accepted e) /\ e_handle_closed e = false else e_accepted e = None;
  T_uv : forall h u, uv_handles t !! h = Some u ->
    (uv_closing u = Some CB_delete_handle /\ idle u) \/
    (exists s, socks !! uv_data u = Some s /\ uv_handle s = Some h /\ uv_closing u <> Some CB_delete_handle /\
      (uv_closing u = Some CB_delete_client -> handle_id s = 0 /\ uv_data u ∉ accepted_of evs /\ idle u))
}.

Lemma tcp_ok_empty : tcp_ok ∅ ∅ new_TcpLoop [].
Proof.
  split; try done; cbn; try (intros ? ?; rewrite lookup_empty; done); try (by intros ? ?%not_elem_of_nil).
  - by intros ? ? ?%not_elem_of_nil.
  - split; [constructor|]. by intros p ?%not_elem_of_nil.
Qed.

(** ** Views of changed parts *)

Lemma ops_push id op t : ops_of id (set_ops (Push op (tcp_op_queue t)) t) = ops_of id t ++ (if decide (op_id op = id) then [op] else []).
Proof. unfold ops_of. cbn. by rewrite filter_app. Qed.

Lemma ops_pop id op q t rest : queue_ (tcp_op_queue t) = op :: rest -> queue_ q = rest ->
  ops_of id t = (if decide (op_id op = id) then [op] else []) ++ ops_of id (set_ops q t).
Proof. intros E1 E2. unfold ops_of. rewrite E1, filter_cons. cbn. rewrite E2. by case_decide. Qed.

Lemma closed_push id e evs : closed_of id (evs ++ [e]) = closed_of id evs ++ (if decide (e_type e = TCP_CLOSED /\ e_handle_id e = id) then [e] else []).
Proof. unfold closed_of. by rewrite filter_app. Qed.

Lemma accepted_push e evs : accepted_of (evs ++ [e]) = accepted_of evs ++ option_list (e_accepted e).
Proof. unfold accepted_of. rewrite omap_app. cbn. by destruct (e_accepted e). Qed.

Lemma regs_app a b : regs (a ++ b) = regs a ++ regs b.
Proof. apply filter_app. Qed.

Lemma ordered_snoc ops op : ordered ops -> (is_Some (op_ptr op) -> Forall (fun o => is_close o = false) ops) -> ordered (ops ++ [op]).
Proof.
  induction ops as [|o ops IH]; intros Ho Hc; [done|]. destruct Ho as [H1 H2]. cbn. split.
  - intros Hcl. rewrite regs_app, (H1 Hcl). unfold regs. rewrite filter_cons. case_decide as Hp; [|done].
    specialize (Hc Hp). apply Forall_cons in Hc as [Hc _]. congruence.
  - apply IH; [done|]. intros Hp. specialize (Hc Hp). by apply Forall_cons in Hc as [_ Hc].
Qed.

(** ** A step on one socket *)

(** The parts that belong to other sockets are as before. *)
Record apart id p t t' (evs evs' : list SocketEvent) : Prop := {
  O_tab : forall id', id' <> id -> tcp_sockets_ t' !! id' = tcp_sockets_ t !! id';
  O_ops : forall id', id' <> id -> ops_of id' t' = ops_of id' t;
  O_res : forall id', id' <> id -> res_of id' t' = res_of id' t;
  O_closed : forall id', id' <> id -> closed_of id' evs' = closed_of id' evs;
  O_accepted : accepted_of evs' = accepted_of evs;
  O_events : forall e, e ∈ evs' -> e ∈ evs \/ (e_type e <> TCP_ACCEPTED /\ e_accepted e = None /\ e_handle_id e = id);
  O_uv : forall h u, uv_data u <> p -> uv_handles t' !! h = Some u <-> uv_handles t !! h = Some u
}.

Lemma apart_refl id p t evs : apart id p t t evs evs.
Proof. split; try done. by left. Qed.

Lemma apart_trans id p t1 t2 t3 e1 e2 e3 : apart id p t1 t2 e1 e2 -> apart id p t2 t3 e2 e3 -> apart id p t1 t3 e1 e3.
Proof.
  intros [A1 A2 A3 A4 A5 A6 A7] [B1 B2 B3 B4 B5 B6 B7].
  split; try (intros id' Hne; etransitivity; [by apply B1 || by apply B2 || by apply B3 || by apply B4|auto]); [congruence| |].
  - intros e He. destruct (B6 e He) as [He'|]; auto.
  - intros h u Hu. by rewrite B7, A7.
Qed.

(** The libuv handles whose data is a socket: its own, and ones being deleted. *)
Definition own p (ho : option positive) t : Prop := forall h u, uv_handles t !! h = Some u -> uv_data u = p ->
  (uv_closing u = Some CB_delete_handle /\ idle u) \/ (ho = Some h /\ (uv_closing u = None \/ uv_closing u = Some CB_OnTcpClosed)).

Lemma own_put p h u t ho : own p ho t -> uv_data u = p -> uv_closing u = None \/ uv_closing u = Some CB_OnTcpClosed -> ho = None \/ ho = Some h ->
  own p (Some h) (set_uvs (<[h := u]> (uv_handles t)) t).
Proof.
  intros Ho Hd Hc Hh h' u'. cbn. rewrite lookup_insert_Some. intros [[<- <-]|[Hne Hu]] Hd'; [by right|].
  destruct (Ho h' u' Hu Hd') as [?|[E ?]]; [by left|]. destruct Hh; congruence.
Qed.

Lemma own_drop p h u t : own p (Some h) t -> uv_closing u = Some CB_delete_handle -> idle u -> own p None (set_uvs (<[h := u]> (uv_handles t)) t).
Proof.
  intros Ho Hc Hi h' u'. cbn. rewrite lookup_insert_Some. intros [[<- <-]|[Hne Hu]] Hd'; [by left|].
  destruct (Ho h' u' Hu Hd') as [?|[E ?]]; [by left|]. congruence.
Qed.

Lemma own_del p h t : own p (Some h) t -> own p None (set_uvs (delete h (uv_handles t)) t).
Proof.
  intros Ho h' u'. cbn. rewrite lookup_delete_Some. intros [Hne Hu] Hd'. destruct (Ho h' u' Hu Hd') as [?|[E ?]]; [by left|]. congruence.
Qed.

Lemma apart_tab id p m t evs : (forall id', id' <> id -> m !! id' = tcp_sockets_ t !! id') -> apart id p t (set_sockets m t) evs evs.
Proof. intros Hm. split; try done; [by left]. Qed.

Lemma apart_res id p r t evs : res_id r = id -> apart id p t (set_resolving (resolving t ++ [r]) t) evs evs.
Proof.
  intros Hr. split; try done; [|by left]. intros id' Hne. unfold res_of. cbn. rewrite filter_app. cbn. rewrite decide_False by congruence. apply app_nil_r.
Qed.

Lemma apart_op id p op t evs : op_id op = id -> apart id p t (set_ops (Push op (tcp_op_queue t)) t) evs evs.
Proof. intros Ho. split; try done; [|by left]. intros id' Hne. rewrite ops_push, decide_False by congruence. apply app_nil_r. Qed.

Lemma apart_event id p e t evs : e_handle_id e = id -> e_type e <> TCP_ACCEPTED -> e_accepted e = None ->
  apart id p t (set_events (Push e (socket_done_queue t)) t) evs (evs ++ [e]).
Proof.
  intros He Ht Ha. split; try done.
  - intros id' Hne. rewrite closed_push, decide_False by (intros [_ ?]; congruence). apply app_nil_r.
  - rewrite accepted_push, Ha. apply app_nil_r.
  - intros e' [He'| ->%list_elem_of_singleton]%elem_of_app; auto.
Qed.

Lemma apart_put id p h u t evs : uv_data u = p -> (forall u0, uv_handles t !! h = Some u0 -> uv_data u0 = p) ->
  apart id p t (set_uvs (<[h := u]> (uv_handles t)) t) evs evs.
Proof.
  intros Hd Hh. split; try done; [by left|]. intros h' u' Hu'. cbn. destruct (decide (h' = h)) as [->|Hne]; [|by rewrite lookup_insert_ne].
  rewrite lookup_insert_eq. split; [intros [= <-]; done|]. intros Hu. by destruct (Hu' (Hh u' Hu)).
Qed.

Lemma apart_del id p h u t evs : uv_handles t !! h = Some u -> uv_data u = p -> apart id p t (set_uvs (delete h (uv_handles t)) t) evs evs.
Proof.
  intros Hu Hd. split; try done; [by left|]. intros h' u' Hu'. cbn. destruct (decide (h' = h)) as [->|Hne]; [|by rewrite lookup_delete_ne].
  rewrite lookup_delete_eq. split; [done|]. intros Hx. congruence.
Qed.

Section OneSocket.

Context (used : gmap Z Handle) (socks : gmap positive TcpSocket) (t t' : TcpLoop) (evs evs' : list SocketEvent).
Context (id : Z) (x : Handle) (p : positive) (s s' : TcpSocket).
Context (H : tcp_ok used socks t evs) (Hx : used !! id = Some x) (Hp : pointer x = p) (Hs : socks !! p = Some s).

Lemma owner_id : handle_id s = id /\ view_ok t evs id p s.
Proof using H Hx Hp Hs. destruct (T_handle _ _ _ _ H id x Hx) as (_ & s0 & Hs0 & E & Hv). subst p. rewrite Hs in Hs0. injection Hs0 as <-. done. Qed.

Lemma id_nonzero : id <> 0.
Proof using H Hx. intros ->. rewrite (T_zero _ _ _ _ H) in Hx. done. Qed.

Lemma not_waiting : p ∉ accepted_of evs.
Proof using H Hx Hp Hs.
  intros Hin. destruct (proj2 (T_waiting _ _ _ _ H) p Hin) as (s0 & Hs0 & E & _). rewrite Hs in Hs0. injection Hs0 as <-.
  destruct owner_id as [Ei _]. apply id_nonzero. congruence.
Qed.

(** Two handles do not point to one socket. *)
Lemma owner_unique id' x' : used !! id' = Some x' -> pointer x' = p -> id' = id.
Proof using H Hx Hp Hs.
  intros Hx' Hp'. destruct (T_handle _ _ _ _ H id' x' Hx') as (_ & s0 & Hs0 & E & _). rewrite Hp', Hs in Hs0. injection Hs0 as <-.
  destruct owner_id as [Ei _]. congruence.
Qed.

Lemma own_init : own p (uv_handle s) t.
Proof using H Hx Hp Hs.
  intros h u Hu Hd. destruct (T_uv _ _ _ _ H h u Hu) as [?|(s0 & Hs0 & Hh & Hc & Hcl)]; [by left|]. right. rewrite Hd, Hs in Hs0. injection Hs0 as <-.
  split; [done|]. destruct owner_id as [Ei Hv].
  assert (uv_closing u <> Some CB_null) as Hnull.
  { intros E. pose proof (S_uv _ _ _ _ _ _ _ Hv) as Hu'. unfold uv_of in Hu'. rewrite Hh in Hu'. cbn in Hu'. rewrite Hu in Hu'. destruct Hu' as (u' & [= <-] & [_ Hc' _ _ _]).
    by rewrite E in Hc'. }
  destruct (uv_closing u) as [[| | |]|]; try done; [by right| |by left]. destruct (Hcl eq_refl) as (Hz & _). destruct id_nonzero. congruence.
Qed.

Lemma uv_of_other q s0 : apart id p t t' evs evs' -> (forall h, uv_handle s0 = Some h -> exists u, uv_handles t !! h = Some u /\ uv_data u = q) ->
  q <> p -> uv_of s0 t' = uv_of s0 t.
Proof.
  intros Ho Hq Hne. unfold uv_of. destruct (uv_handle s0) as [h|]; [|done]. cbn. destruct (Hq h eq_refl) as (u & Hu & Eq). rewrite Hu.
  apply (O_uv _ _ _ _ _ _ Ho); [congruence|done].
Qed.

Lemma one_socket : apart id p t t' evs evs' -> own p (uv_handle s') t' -> handle_id s' = id -> view_ok t' evs' id p s' -> tcp_ok used (<[p := s']> socks) t' evs'.
Proof using H Hx Hp Hs.
  intros Ho Hown Hid Hv. pose proof not_waiting as Hnw. destruct Ho as [O1 O2 O3 O4 O5 O6 O7] eqn:EO. split.
  - apply (T_zero _ _ _ _ H).
  - intros id' x' Hx'. destruct (T_handle _ _ _ _ H id' x' Hx') as (Hty & s0 & Hs0 & E0 & Hv0). split; [done|].
    destruct (decide (id' = id)) as [->|Hne].
    + rewrite Hx in Hx'. injection Hx' as <-. exists s'. rewrite Hp, lookup_insert_eq. done.
    + assert (pointer x' <> p) as Hpp by (intros Ep; apply Hne; by eapply owner_unique).
      exists s0. rewrite lookup_insert_ne by done. split_and!; [done..|]. unfold view_ok in *.
      rewrite O1, O2, O3, O4 by done. erewrite uv_of_other; [exact Hv0|exact Ho| |done].
      intros h Hh. pose proof (S_uv _ _ _ _ _ _ _ Hv0) as Hu. rewrite Hh in Hu. destruct Hu as (u & Hu & Hok). unfold uv_of in Hu. rewrite Hh in Hu.
      exists u. split; [done|apply (U_data _ _ _ Hok)].
  - intros q s0. rewrite lookup_insert_Some. intros [[<- <-]|[Hne Hq]]; [left; exists x; by rewrite Hid|].
    destruct (T_sock _ _ _ _ H q s0 Hq) as [Hh|[Hw|(Hz & h & u & Hh & Hu & Hd & Hc)]]; [by left|right; left; by rewrite O5|].
    right. right. split; [done|]. exists h, u. split_and!; [done| |done|done]. apply O7; [|done].
    destruct (T_uv _ _ _ _ H h u Hu) as [[? _]|(s1 & Hs1 & Hh1 & _ & Hcl)]; [congruence|]. intros Ed. rewrite Ed, Hs in Hs1. injection Hs1 as <-.
    destruct (Hcl Hc) as (Hz1 & _). destruct owner_id as [Ei _]. apply id_nonzero. congruence.
  - intros id' q. destruct (decide (id' = id)) as [->|Hne]; [|rewrite O1 by done; apply (T_table _ _ _ _ H)].
    intros Hq. destruct (S_tab _ _ _ _ _ _ _ Hv) as [E|E]; rewrite E in Hq; [done|]. injection Hq as <-. by exists x.
  - intros op q Hin Hptr. destruct (decide (op_id op = id)) as [->|Hne]; [by exists x|]. apply (T_regs _ _ _ _ H op q); [|done].
    assert (op ∈ ops_of (op_id op) t') as Hin' by (by apply list_elem_of_filter). rewrite O2 in Hin' by done.
    by apply list_elem_of_filter in Hin' as [_ ?].
  - intros e Hin Hc. destruct (O6 e Hin) as [He|(_ & _ & He)]; [by apply (T_closed _ _ _ _ H e)|]. rewrite He. by exists x.
  - rewrite O5. destruct (T_waiting _ _ _ _ H) as [Hnd Hw]. split; [done|]. intros q Hq. destruct (Hw q Hq) as (s0 & Hs0 & Hz & Hst & h & u & Hh & Hu & Hd & Hcl & Hidle).
    assert (q <> p) as Hqp by (intros ->; done). exists s0. rewrite lookup_insert_ne by done. split; [done|]. split; [done|]. split; [done|].
    exists h, u. split_and!; [done| |done..]. apply O7; [congruence|done].
  - intros e Hin. destruct (O6 e Hin) as [He|(Hn & Ha & _)]; [by apply (T_accepted _ _ _ _ H e)|]. by rewrite decide_False.
  - intros h u Hu. destruct (decide (uv_data u = p)) as [Ed|Ed].
    + destruct (Hown h u Hu Ed) as [Hl|[Hh Hcl]]; [by left|]. right. exists s'. rewrite Ed, lookup_insert_eq. split_and!; [done|done| |]; destruct Hcl as [->| ->]; done.
    + apply O7 in Hu; [|done]. destruct (T_uv _ _ _ _ H h u Hu) as [Hl|(s1 & Hs1 & Hh1 & Hc1 & Hcl)]; [by left|]. right.
      exists s1. rewrite lookup_insert_ne by done. rewrite O5. done.
Qed.

End OneSocket.

(** ** Taking something out of a queue *)

Lemma sock_ok_less tab ops ops' res res' closed uv p s : sock_ok tab ops res closed uv p s ->
  (regs ops' = regs ops \/ regs ops' = []) -> ordered ops' -> (Exists (fun op => is_close op = true) ops' -> Exists (fun op => is_close op = true) ops) ->
  (res' = res \/ res' = []) -> sock_ok tab ops' res' closed uv p s.
Proof.
  intros [H1 H2 H3 H4 [H5 H5'] H6 H7 [H8 H8']] Hr Ho Hc Hres. split; try done.
  - intros E. destruct (H4 E) as (? & ? & E'). split_and!; [done|done|]. destruct Hr as [->|]; done.
  - destruct Hr as [->| ->]; [|split; [cbn; lia|by apply Forall_nil]]. split; [done|]. eapply Forall_impl; [exact H5'|]. intros op [Hp Hk]. split; [done|].
    destruct Hres as [->| ->]; [done|]. destruct op; cbn in *; tauto.
  - auto.
  - destruct Hres as [->| ->]; [done|]. split; [cbn; lia|]. intros _. by apply Forall_nil.
Qed.

(** What is known of an operation at the head of the queue. *)
Record popped (used : gmap Z Handle) (socks : gmap positive TcpSocket) t (op : TcpOp) : Prop := {
  P_ptr : forall p, op_ptr op = Some p -> exists x, used !! op_id op = Some x /\ pointer x = p;
  P_facts : forall x s, used !! op_id op = Some x -> socks !! pointer x = Some s ->
    (is_close op = true \/ is_Some (op_ptr op) -> regs (ops_of (op_id op) t) = []) /\
    (is_close op = true -> handle_closed s = true) /\
    (is_Some (op_ptr op) -> reg_ok (tcp_sockets_ t !! op_id op) (res_of (op_id op) t) (uv_of s t) s op)
}.

Lemma pop_ok used socks t evs op q rest : tcp_ok used socks t evs -> queue_ (tcp_op_queue t) = op :: rest -> queue_ q = rest ->
  tcp_ok used socks (set_ops q t) evs /\ popped used socks (set_ops q t) op.
Proof.
  intros H Eq Er. assert (forall id, id <> op_id op -> ops_of id (set_ops q t) = ops_of id t) as Hne
    by (intros id Hid; rewrite (ops_pop id op q t rest Eq Er), decide_False; done).
  assert (ops_of (op_id op) t = op :: ops_of (op_id op) (set_ops q t)) as Heq by (by rewrite (ops_pop (op_id op) op q t rest Eq Er), decide_True).
  assert (forall x s, used !! op_id op = Some x -> socks !! pointer x = Some s -> view_ok t evs (op_id op) (pointer x) s) as Hv.
  { intros x s Hx Hs. by destruct (owner_id used socks t evs (op_id op) x (pointer x) s H Hx eq_refl Hs). }
  assert (forall ops, regs (op :: ops) = (if op_ptr op then [op] else []) ++ regs ops) as Hregs.
  { intros ops. unfold regs. rewrite filter_cons. destruct (op_ptr op); [rewrite decide_True by done; done|]. rewrite decide_False; [done|]. by intros [? ?]. }
  split; [split; cbn; try apply H|split].
  - intros id x Hx. destruct (T_handle _ _ _ _ H id x Hx) as (Hty & s & Hs & Hid & Hvo). split; [done|]. exists s. split_and!; [done|done|].
    destruct (decide (id = op_id op)) as [->|Hd]; [|unfold view_ok in *; rewrite Hne by done; exact Hvo].
    unfold view_ok in *. eapply sock_ok_less; [exact Hvo| | | |by left].
    + rewrite Heq, Hregs. destruct (op_ptr op); [|by left]. right. pose proof (proj1 (S_regs _ _ _ _ _ _ _ Hvo)) as Hl. rewrite Heq, Hregs in Hl. cbn in Hl.
      destruct (regs _); [done|cbn in Hl; lia].
    + pose proof (S_ordered _ _ _ _ _ _ _ Hvo) as Ho. rewrite Heq in Ho. apply Ho.
    + rewrite Heq. by constructor 2.
  - intros op' p Hin. apply (T_regs _ _ _ _ H op' p). rewrite Eq. constructor 2. by rewrite <- Er.
  - intros p Hp. destruct (T_regs _ _ _ _ H op p) as [x Hx]; [rewrite Eq; constructor|done|]. exists x. split; [done|].
    destruct (T_handle _ _ _ _ H _ _ Hx) as (_ & s & Hs & _ & Hvo). pose proof (proj2 (S_regs _ _ _ _ _ _ _ Hvo)) as HF. rewrite Heq, Hregs, Hp in HF.
    apply Forall_cons in HF as [[E _] _]. congruence.
  - intros x s Hx Hs. specialize (Hv x s Hx Hs). pose proof (S_ordered _ _ _ _ _ _ _ Hv) as Ho. rewrite Heq in Ho. destruct Ho as [Ho _].
    destruct (S_regs _ _ _ _ _ _ _ Hv) as [Hl HF]. rewrite Heq, Hregs in Hl, HF. split_and!.
    + intros [Hc|[p Hp]]; [by apply Ho|]. rewrite Hp in Hl. cbn in Hl. destruct (regs _); [done|cbn in Hl; lia].
    + intros Hc. apply (S_closes _ _ _ _ _ _ _ Hv). rewrite Heq. by constructor.
    + intros [p Hp]. rewrite Hp in HF. by apply Forall_cons in HF as [[_ Hk] _].
Qed.

(** What is known when a resolution ends. *)
Definition resolved (used : gmap Z Handle) (socks : gmap positive TcpSocket) t (r : Resolution) : Prop :=
  forall x s, used !! res_id r = Some x -> socks !! pointer x = Some s -> handle_closed s = false ->
    res_ok s r /\ res_of (res_id r) t = [] /\ regs (ops_of (res_id r) t) = [].

Lemma filter_delete {A} (Q : A -> Prop) `{forall a, Decision (Q a)} (l : list A) i a : l !! i = Some a ->
  if decide (Q a) then length (filter Q (delete i l)) = pred (length (filter Q l)) /\ a ∈ filter Q l else filter Q (delete i l) = filter Q l.
Proof.
  revert i. induction l as [|b l IH]; intros [|i] Hi; try done; cbn in Hi.
  - injection Hi as ->. cbn [delete list_delete]. rewrite filter_cons. case_decide; [split; [done|constructor]|done].
  - specialize (IH i Hi). change (delete (S i) (b :: l)) with (b :: delete i l). rewrite !filter_cons. destruct (decide (Q a)).
    + destruct IH as [IH1 IH2]. destruct (decide (Q b)); [|done]. split; [|by constructor]. cbn. rewrite IH1.
      destruct (filter Q l); [by apply not_elem_of_nil in IH2|done].
    + rewrite IH. done.
Qed.

Lemma resolved_ok used socks t evs i r : tcp_ok used socks t evs -> resolving t !! i = Some r ->
  tcp_ok used socks (set_resolving (delete i (resolving t)) t) evs /\ resolved used socks (set_resolving (delete i (resolving t)) t) r.
Proof.
  intros H Hi. set (t' := set_resolving _ t).
  assert (forall id, id <> res_id r -> res_of id t' = res_of id t) as Hne.
  { intros id Hid. unfold res_of. cbn. pose proof (filter_delete (fun r => res_id r = id) _ _ _ Hi) as Hf. by rewrite decide_False in Hf by congruence. }
  pose proof (filter_delete (fun r0 => res_id r0 = res_id r) _ _ _ Hi) as Hf. rewrite decide_True in Hf by done. destruct Hf as [Hf1 Hf2].
  assert (forall x s, used !! res_id r = Some x -> socks !! pointer x = Some s -> res_of (res_id r) t' = [] /\ res_of (res_id r) t = [r]) as Hr.
  { intros x s Hx Hs. destruct (owner_id used socks t evs (res_id r) x (pointer x) s H Hx eq_refl Hs) as [_ Hv].
    pose proof (proj1 (S_res _ _ _ _ _ _ _ Hv)) as Hl. unfold res_of in *. cbn. destruct (filter _ (resolving t)) as [|r0 [|]] eqn:E; [by apply not_elem_of_nil in Hf2| |cbn in Hl; lia].
    apply list_elem_of_singleton in Hf2 as ->. cbn in Hf1. split; [|done]. by apply nil_length_inv. }
  split; [split; try apply H|].
  - intros id x Hx. destruct (T_handle _ _ _ _ H id x Hx) as (Hty & s & Hs & Hid & Hvo). split; [done|]. exists s. split_and!; [done|done|].
    destruct (decide (id = res_id r)) as [->|Hd]; [|unfold view_ok in *; rewrite Hne by done; exact Hvo].
    destruct (Hr x s Hx Hs) as [E _]. unfold view_ok in *. eapply sock_ok_less; [exact Hvo|by left|apply (S_ordered _ _ _ _ _ _ _ Hvo)|done|by right].
  - intros x s Hx Hs Hcl. destruct (Hr x s Hx Hs) as [E1 E2]. destruct (owner_id used socks t evs (res_id r) x (pointer x) s H Hx eq_refl Hs) as [_ Hv].
    pose proof (proj2 (S_res _ _ _ _ _ _ _ Hv) Hcl) as HF. rewrite E2 in HF. apply Forall_cons in HF as [HF _]. split; [exact HF|]. split; [exact E1|].
    change (ops_of (res_id r) t') with (ops_of (res_id r) t). destruct (regs (ops_of (res_id r) t)) as [|op l] eqn:Er; [done|].
    pose proof (proj2 (S_regs _ _ _ _ _ _ _ Hv)) as HG. rewrite Er in HG. apply Forall_cons in HG as [[Hp Hk] _]. rewrite E2 in Hk.
    destruct op; cbn in Hk, Hp; try done; try (destruct Hk as [_ Hk]; (discriminate || by destruct Hk as [[=] _])).
    destruct Hk as [Hst _]. destruct r; cbn in HF; [congruence|destruct HF; congruence|congruence].
Qed.

(** ** Events that end, or that say nothing of sockets *)

Lemma tcp_ok_events used socks t t' evs evs' : tcp_ok used socks t evs ->
  tcp_sockets_ t' = tcp_sockets_ t -> queue_ (tcp_op_queue t') = queue_ (tcp_op_queue t) -> resolving t' = resolving t -> uv_handles t' = uv_handles t ->
  (forall id, closed_of id evs' = closed_of id evs) -> accepted_of evs' = accepted_of evs ->
  (forall e, e ∈ evs' -> e ∈ evs \/ (e_type e <> TCP_CLOSED /\ e_type e <> TCP_ACCEPTED /\ e_accepted e = None)) -> tcp_ok used socks t' evs'.
Proof.
  intros H E1 E2 E3 E4 Hc Ha He.
  assert (forall id p s, view_ok t evs id p s -> view_ok t' evs' id p s) as Hv.
  { intros id p s. unfold view_ok, ops_of, res_of, uv_of. by rewrite E1, E2, E3, E4, Hc. }
  split; rewrite ?E1, ?E2, ?E4, ?Ha; try apply H.
  - intros id x Hx. destruct (T_handle _ _ _ _ H id x Hx) as (Hty & s & Hs & Hid & Hvo). split; [done|]. exists s. eauto.
  - intros e Hin Hty. destruct (He e Hin) as [Hin'|[? _]]; [by apply (T_closed _ _ _ _ H)|done].
  - destruct (T_waiting _ _ _ _ H) as [Hnd Hw]. split; [done|]. intros p Hp. unfold waiting_ok. rewrite E4. by apply Hw.
  - intros e Hin. destruct (He e Hin) as [Hin'|(_ & Hn & Hac)]; [by apply (T_accepted _ _ _ _ H)|]. by rewrite decide_False.
Qed.

Lemma drop_event used socks t e evs : tcp_ok used socks t (e :: evs) -> e_type e <> TCP_CLOSED -> e_type e <> TCP_ACCEPTED -> tcp_ok used socks t evs.
Proof.
  intros H Ht Hn. assert (e_accepted e = None) as Ha.
  { pose proof (T_accepted _ _ _ _ H e (list_elem_of_here _ _)) as Ha. by rewrite decide_False in Ha. }
  eapply tcp_ok_events; [exact H|done..| | |].
  - intros id. unfold closed_of. rewrite filter_cons, decide_False; [done|]. by intros [? _].
  - unfold accepted_of. cbn. by rewrite Ha.
  - intros e' He. left. by constructor.
Qed.

(** ** Sockets that come and go *)

Lemma filter_none {A} (Q : A -> Prop) `{forall a, Decision (Q a)} (l : list A) : (forall a, a ∈ l -> ~ Q a) -> filter Q l = [].
Proof. induction l as [|a l IH]; intros Hl; [done|]. rewrite filter_cons, decide_False by (apply Hl; constructor). apply IH. intros b Hb. apply Hl. by constructor. Qed.

Section Changes.

Context (used : gmap Z Handle) (socks : gmap positive TcpSocket) (t : TcpLoop) (evs : list SocketEvent).

(** The socket of a handle, in one bundle. *)
Lemma handle_socket id x : tcp_ok used socks t evs -> used !! id = Some x -> exists s, socks !! pointer x = Some s /\ handle_id s = id /\ view_ok t evs id (pointer x) s.
Proof. intros H Hx. by destruct (T_handle _ _ _ _ H id x Hx) as [_ ?]. Qed.

(** A handle no one has says nothing. *)
Lemma unused_id id : tcp_ok used socks t evs -> used !! id = None -> tcp_sockets_ t !! id = None /\ closed_of id evs = [] /\ regs (ops_of id t) = [].
Proof.
  intros H Hn. split_and!.
  - destruct (tcp_sockets_ t !! id) as [p|] eqn:E; [|done]. destruct (T_table _ _ _ _ H id p E) as (x & Hx & _). congruence.
  - apply filter_none. intros e He [Hc Hi]. destruct (T_closed _ _ _ _ H e He Hc) as [x Hx]. congruence.
  - apply filter_none. intros op [Hi Hop]%list_elem_of_filter [p Hp]. destruct (T_regs _ _ _ _ H op p Hop Hp) as [x Hx]. congruence.
Qed.

(** [TcpNew]. *)
Lemma new_handled id x p s : tcp_ok used socks t evs -> used !! id = None -> id <> 0 -> socks !! p = None -> type x = HANDLE_TCP_SOCKET -> pointer x = p ->
  handle_id s = id -> state s = CREATED -> uv_handle s = None -> ops_of id t = [] -> res_of id t = [] -> tcp_ok (<[id := x]> used) (<[p := s]> socks) t evs.
Proof.
  intros H Hn Hz Hp Ht Hxp Hid Hst Huv Hops Hres. destruct (unused_id id H Hn) as (Htab & Hcl & _). split; try apply H.
  - rewrite lookup_insert_ne by done. apply H.
  - intros id' x'. rewrite lookup_insert_Some. intros [[<- <-]|[Hne Hx']].
    + split; [done|]. exists s. rewrite Hxp, lookup_insert_eq. split_and!; [done..|]. unfold view_ok, uv_of. rewrite Htab, Hcl, Hops, Hres, Huv.
      split; rewrite ?Huv, ?Hst; try done; [by left| | |]; try (split; [cbn; lia|intros; by apply Forall_nil]). intros Hex. by apply Exists_nil in Hex.
    + destruct (T_handle _ _ _ _ H id' x' Hx') as (Hty & s0 & Hs0 & Hv). split; [done|]. exists s0. rewrite lookup_insert_ne by congruence. done.
  - intros q s0. rewrite lookup_insert_Some. intros [[<- <-]|[Hne Hq]]; [left; exists x; by rewrite Hid, lookup_insert_eq|].
    destruct (T_sock _ _ _ _ H q s0 Hq) as [(x0 & Hx0 & E0)|Hr]; [|by right]. left. exists x0. rewrite lookup_insert_ne by congruence. done.
  - intros id' q Hq. destruct (T_table _ _ _ _ H id' q Hq) as (x0 & Hx0 & E0). exists x0. rewrite lookup_insert_ne by congruence. done.
  - intros op q Hop Hq. destruct (T_regs _ _ _ _ H op q Hop Hq) as (x0 & Hx0). exists x0. rewrite lookup_insert_ne by congruence. done.
  - intros e He Hc. destruct (T_closed _ _ _ _ H e He Hc) as (x0 & Hx0). exists x0. rewrite lookup_insert_ne by congruence. done.
  - destruct (T_waiting _ _ _ _ H) as [Hnd Hw]. split; [done|]. intros q Hq. destruct (Hw q Hq) as (s0 & Hs0 & Hok). exists s0. rewrite lookup_insert_ne by congruence. done.
  - intros h u Hu. destruct (T_uv _ _ _ _ H h u Hu) as [?|(s0 & Hs0 & Hr)]; [by left|]. right. exists s0. rewrite lookup_insert_ne by congruence. done.
Qed.

(** A connection the listener takes: [l] is the event's socket, if an event is sent. *)
Lemma new_client evs' l p s h u : tcp_ok used socks t evs -> socks !! p = None -> uv_handles t !! h = None ->
  handle_id s = 0 -> state s = CONNECTED -> uv_handle s = Some h -> uv_data u = p -> idle u ->
  (forall id, closed_of id evs' = closed_of id evs) -> accepted_of evs' = accepted_of evs ++ l ->
  (forall e, e ∈ evs' -> e ∈ evs \/ (e_type e = TCP_ACCEPTED /\ is_Some (e_accepted e) /\ e_handle_closed e = false)) ->
  (l = [p] /\ uv_closing u = None) \/ (l = [] /\ uv_closing u = Some CB_delete_client) ->
  tcp_ok used (<[p := s]> socks) (set_uvs (<[h := u]> (uv_handles t)) t) evs'.
Proof.
  intros H Hp Hh Hz Hst Huv Hd Hidle Hcl Hacc Hev Hl.
  assert (p ∉ accepted_of evs) as Hpa. { intros Hin. destruct (proj2 (T_waiting _ _ _ _ H) p Hin) as (s0 & Hs0 & _). congruence. }
  assert (forall h' u', uv_handles t !! h' = Some u' -> uv_handles (set_uvs (<[h := u]> (uv_handles t)) t) !! h' = Some u') as Hkeep
    by (intros h' u' Hu'; cbn; rewrite lookup_insert_ne by congruence; done).
  split; try apply H.
  - intros id x Hx. destruct (T_handle _ _ _ _ H id x Hx) as (Hty & s0 & Hs0 & Hi0 & Hv). split; [done|]. exists s0.
    rewrite lookup_insert_ne by congruence. split_and!; [done..|]. unfold view_ok in *. rewrite Hcl. cbn. replace (uv_of s0 _) with (uv_of s0 t); [done|].
    unfold uv_of. pose proof (S_uv _ _ _ _ _ _ _ Hv) as Hu. destruct (uv_handle s0) as [h0|] eqn:E0; [|done]. destruct Hu as (u0 & Hu0 & _). unfold uv_of in Hu0.
    rewrite E0 in Hu0. cbn in Hu0 |- *. rewrite Hu0, lookup_insert_ne by congruence. done.
  - intros q s0. rewrite lookup_insert_Some, Hacc. intros [[<- <-]|[Hne Hq]].
    + destruct Hl as [[-> Hc]|[-> Hc]]; [right; left; apply elem_of_app; right; constructor|]. right. right. split; [done|]. exists h, u. cbn. by rewrite lookup_insert_eq.
    + destruct (T_sock _ _ _ _ H q s0 Hq) as [?|[?|(Hz0 & h0 & u0 & E1 & E2 & E3 & E4)]]; [by left|right; left; apply elem_of_app; by left|].
      right. right. split; [done|]. exists h0, u0. eauto.
  - intros e He Hc. destruct (Hev e He) as [He'|(? & _)]; [by apply (T_closed _ _ _ _ H)|congruence].
  - rewrite Hacc. destruct (T_waiting _ _ _ _ H) as [Hnd Hw]. split.
    + destruct Hl as [[-> _]|[-> _]]; [|by rewrite app_nil_r]. apply list.NoDup_app. split_and!; [done| |apply NoDup_singleton].
      intros q Hq ->%list_elem_of_singleton. done.
    + intros q [Hq|Hq]%elem_of_app.
      * destruct (Hw q Hq) as (s0 & Hs0 & Hz0 & Hst0 & h0 & u0 & E0 & Hu0 & Hr). exists s0. rewrite lookup_insert_ne by congruence.
        split; [done|]. split_and!; [done|done|]. exists h0, u0. split_and!; [done|by apply Hkeep|apply Hr..].
      * destruct Hl as [[-> Hc]|[-> _]]; [|by apply not_elem_of_nil in Hq]. apply list_elem_of_singleton in Hq as ->. exists s. rewrite lookup_insert_eq.
        split; [done|]. split_and!; [done|done|]. exists h, u. cbn. rewrite lookup_insert_eq. done.
  - intros e He. destruct (Hev e He) as [He'|(Ht & Hs & Hc)]; [by apply (T_accepted _ _ _ _ H)|]. by rewrite decide_True.
  - intros h' u'. cbn. rewrite lookup_insert_Some. intros [[<- <-]|[Hne Hu']].
    + right. exists s. rewrite Hd, lookup_insert_eq, Hacc. split_and!; [done|done| |]; destruct Hl as [[-> ->]|[-> ->]]; try done. intros _. by rewrite app_nil_r.
    + destruct (T_uv _ _ _ _ H h' u' Hu') as [?|(s0 & Hs0 & Hh0 & Hc0 & Hdc)]; [by left|]. right. exists s0. rewrite lookup_insert_ne by congruence.
      split_and!; [done..|]. intros Hc. destruct (Hdc Hc) as (? & Hna & ?). split_and!; [done| |done]. rewrite Hacc, not_elem_of_app. split; [done|].
      destruct Hl as [[-> _]|[-> _]]; [|apply not_elem_of_nil]. rewrite list_elem_of_singleton. congruence.
Qed.

(** The game thread gives an accepted socket its handle. *)
Lemma accepted_handled e id x p s op : tcp_ok used socks t (e :: evs) -> e_type e = TCP_ACCEPTED -> e_accepted e = Some p -> socks !! p = Some s ->
  used !! id = None -> id <> 0 -> type x = HANDLE_TCP_SOCKET -> pointer x = p -> ops_of id t = [] -> res_of id t = [] ->
  op_id op = id -> op_ptr op = Some p -> (exists a b c d, op = ACCEPT_CONFIG id a b c d p) ->
  tcp_ok (<[id := x]> used) (<[p := set_handle_id id s]> socks) (set_ops (Push op (tcp_op_queue t)) t) evs.
Proof.
  intros H Hty Ha Hs Hn Hz Ht Hxp Hops Hres Hoi Hop Hac. destruct (T_waiting _ _ _ _ H) as [Hnd Hw].
  assert (accepted_of (e :: evs) = p :: accepted_of evs) as Ea by (unfold accepted_of; cbn; by rewrite Ha). rewrite Ea in Hnd, Hw.
  apply NoDup_cons in Hnd as [Hpn Hnd].
  assert (forall id', closed_of id' (e :: evs) = closed_of id' evs) as Hce by (intros id'; unfold closed_of; rewrite filter_cons, decide_False; [done|]; intros [? _]; congruence).
  assert (tcp_sockets_ t !! id = None /\ closed_of id evs = []) as [Htab Hcl].
  { destruct (tcp_sockets_ t !! id) as [q|] eqn:E; [destruct (T_table _ _ _ _ H id q E) as (y & Hy & _); congruence|]. split; [done|].
    apply filter_none. intros e' He' [Hc Hi']. destruct (T_closed _ _ _ _ H e') as [y Hy]; [by constructor|done|]. congruence. }
  destruct (Hw p) as (s0 & Hs0 & Hz0 & Hst & h & u & Hh & Hu & Hd & Hcn & Hidle); [constructor|]. rewrite Hs in Hs0. injection Hs0 as <-.
  assert (forall id' x', used !! id' = Some x' -> pointer x' <> p) as Hother.
  { intros id' x' Hx' E. destruct (T_handle _ _ _ _ H id' x' Hx') as (_ & s0 & Hs0 & Hi0 & _). rewrite E, Hs in Hs0. injection Hs0 as <-.
    rewrite Hz0 in Hi0. subst id'. rewrite (T_zero _ _ _ _ H) in Hx'. done. }
  split; try apply H.
  - rewrite lookup_insert_ne by done. apply H.
  - intros id' x'. rewrite lookup_insert_Some. intros [[<- <-]|[Hne Hx']].
    + split; [done|]. exists (set_handle_id id s). rewrite Hxp, lookup_insert_eq. split_and!; [done..|].
      assert (res_of id (set_ops (Push op (tcp_op_queue t)) t) = []) as Hres' by exact Hres.
      unfold view_ok, uv_of. rewrite ops_push, Hops, Hcl, Hres', decide_True by done. cbn. rewrite Hh. cbn. rewrite Hu, Htab.
      destruct Hac as (a & b & c & d & ->). destruct Hidle as (I1 & I2 & I3 & I4). split; cbn; rewrite ?Hh, ?Hst; try done.
      * by left.
      * exists u. split; [done|]. split; cbn; rewrite ?Hcn, ?Hst, ?I1, ?I2, ?I3; try done; [by left|]. split; [by apply Forall_nil|by left].
      * rewrite !decide_True by (by eexists). split; [cbn; lia|]. apply Forall_cons. split; [|by apply Forall_nil]. cbn.
        split_and!; [done..|]. exists u. done.
      * intros Hex. apply Exists_cons in Hex as [?|Hex]; [done|by apply Exists_nil in Hex].
      * split; [cbn; lia|]. intros _. by apply Forall_nil.
    + destruct (T_handle _ _ _ _ H id' x' Hx') as (Hty' & s0 & Hs0 & Hi0 & Hv). split; [done|]. exists s0. rewrite lookup_insert_ne by (intros E; by apply (Hother id' x')).
      split_and!; [done..|]. unfold view_ok in *. rewrite ops_push, decide_False, app_nil_r by congruence. rewrite Hce in Hv. exact Hv.
  - intros q s0. rewrite lookup_insert_Some. intros [[<- <-]|[Hne Hq]]; [left; exists x; by rewrite lookup_insert_eq|].
    destruct (T_sock _ _ _ _ H q s0 Hq) as [(x0 & Hx0 & E0)|[Hr|Hr]]; [| |by right; right].
    + left. exists x0. rewrite lookup_insert_ne by congruence. done.
    + right. left. rewrite Ea in Hr. apply elem_of_cons in Hr as [?|?]; [congruence|done].
  - intros id' q Hq. destruct (T_table _ _ _ _ H id' q Hq) as (x0 & Hx0 & E0). exists x0. rewrite lookup_insert_ne by congruence. done.
  - intros op' q. cbn. intros [Hop'| ->%list_elem_of_singleton]%elem_of_app Hq; [|rewrite Hoi; exists x; by rewrite lookup_insert_eq].
    destruct (T_regs _ _ _ _ H op' q Hop' Hq) as (x0 & Hx0). exists x0. rewrite lookup_insert_ne by congruence. done.
  - intros e' He Hc. destruct (T_closed _ _ _ _ H e') as (x0 & Hx0); [by constructor|done|]. exists x0. rewrite lookup_insert_ne by congruence. done.
  - split; [done|]. intros q Hq. destruct (Hw q) as (s0 & Hs0 & Hok); [by constructor|]. exists s0. rewrite lookup_insert_ne by (intros <-; done). done.
  - intros e' He. apply (T_accepted _ _ _ _ H). by constructor.
  - intros h' u' Hu'. destruct (T_uv _ _ _ _ H h' u' Hu') as [?|(s0 & Hs0 & Hh0 & Hc0 & Hdc)]; [by left|]. right. rewrite Ea in Hdc. destruct (decide (uv_data u' = p)) as [E|E].
    + exists (set_handle_id id s). rewrite E, lookup_insert_eq. rewrite E, Hs in Hs0. injection Hs0 as <-. split_and!; [done..|].
      intros Hc. destruct (Hdc Hc) as (_ & Hna & _). destruct Hna. rewrite E. constructor.
    + exists s0. rewrite lookup_insert_ne by congruence. split_and!; [done..|]. intros Hc. destruct (Hdc Hc) as (? & Hna & ?). split_and!; [done| |done].
      intros Hin. apply Hna. by constructor.
Qed.

(** After the close event the game thread frees the handle. *)
Lemma free_closed e x : tcp_ok used socks t (e :: evs) -> e_type e = TCP_CLOSED -> used !! e_handle_id e = Some x ->
  tcp_ok (delete (e_handle_id e) used) (delete (pointer x) socks) t evs.
Proof.
  intros H Ht Hx. set (id := e_handle_id e) in *. destruct (T_handle _ _ _ _ H id x Hx) as (_ & s & Hs & Hid & Hv).
  pose proof (S_closed _ _ _ _ _ _ _ Hv) as Hl. unfold closed_of in Hl. rewrite filter_cons, decide_True in Hl by done. cbn in Hl.
  destruct (decide (state s = CLOSED)) as [Hst|]; [|done]. injection Hl as Hl. apply nil_length_inv in Hl. destruct (S_final _ _ _ _ _ _ _ Hv Hst) as (Htab & Huv & Hregs).
  assert (accepted_of (e :: evs) = accepted_of evs) as Ea.
  { pose proof (T_accepted _ _ _ _ H e (list_elem_of_here _ _)) as Ha. rewrite decide_False in Ha by congruence. unfold accepted_of. cbn. by rewrite Ha. }
  pose proof (not_waiting used socks t (e :: evs) id x (pointer x) s H Hx eq_refl Hs) as Hnw. rewrite Ea in Hnw.
  assert (forall id' x', id' <> id -> used !! id' = Some x' -> pointer x' <> pointer x) as Hne.
  { intros id' x' Hi' Hx' E. apply Hi'. by apply (owner_unique used socks t (e :: evs) id x (pointer x) s H Hx eq_refl Hs id' x'). }
  split; try apply H.
  - apply lookup_delete_None. right. apply H.
  - intros id' x' [Hi' Hx']%lookup_delete_Some. destruct (T_handle _ _ _ _ H id' x' Hx') as (Hty & s0 & Hs0 & Hi0 & Hv0). split; [done|]. exists s0.
    rewrite lookup_delete_ne by (apply not_eq_sym; by eapply Hne). split_and!; [done..|]. unfold view_ok in *. unfold closed_of in Hv0. rewrite filter_cons, decide_False in Hv0 by (intros [_ ?]; done). done.
  - intros q s0 [Hq Hs0]%lookup_delete_Some. destruct (T_sock _ _ _ _ H q s0 Hs0) as [(x0 & Hx0 & E0)|[Hr|Hr]]; [|right; left; by rewrite <- Ea|by right; right].
    left. exists x0. rewrite lookup_delete_ne; [done|]. intros E. rewrite <- E, Hx in Hx0. injection Hx0 as <-. done.
  - intros id' q Hq. destruct (T_table _ _ _ _ H id' q Hq) as (x0 & Hx0 & E0). exists x0. rewrite lookup_delete_ne; [done|]. intros <-. congruence.
  - intros op q Hop Hq. destruct (T_regs _ _ _ _ H op q Hop Hq) as (x0 & Hx0). exists x0. rewrite lookup_delete_ne; [done|]. intros E.
    apply (filter_nil_not_elem_of _ _ op Hregs); [by eexists|]. by apply list_elem_of_filter.
  - intros e' He Hc. destruct (T_closed _ _ _ _ H e') as (x0 & Hx0); [by constructor|done|]. exists x0. rewrite lookup_delete_ne; [done|]. intros E.
    apply (filter_nil_not_elem_of _ _ e' Hl); done.
  - destruct (T_waiting _ _ _ _ H) as [Hnd Hw]. rewrite Ea in Hnd, Hw. split; [done|]. intros q Hq. destruct (Hw q Hq) as (s0 & Hs0 & Hok). exists s0.
    rewrite lookup_delete_ne; [done|]. intros <-. done.
  - intros e' He. apply (T_accepted _ _ _ _ H). by constructor.
  - intros h u Hu. destruct (T_uv _ _ _ _ H h u Hu) as [?|(s0 & Hs0 & Hr)]; [by left|]. right. rewrite Ea in Hr. exists s0. rewrite lookup_delete_ne; [done|].
    intros E. rewrite <- E, Hs in Hs0. injection Hs0 as <-. destruct Hr as [Hr _]. congruence.
Qed.

End Changes.

(** ** libuv handles that go *)

(** A deleted libuv handle that no socket's view shows. *)
Lemma forget_uv used socks t evs h u : tcp_ok used socks t evs -> uv_handles t !! h = Some u -> (uv_closing u = Some CB_delete_handle \/ uv_closing u = Some CB_delete_client) ->
  (forall id x s, used !! id = Some x -> socks !! pointer x = Some s -> view_ok t evs id (pointer x) s -> view_ok (set_uvs (delete h (uv_handles t)) t) evs id (pointer x) s) /\
  (forall p s, waiting_ok t p s -> waiting_ok (set_uvs (delete h (uv_handles t)) t) p s).
Proof.
  intros H Hu Hc. split.
  - intros id x s Hx Hs Hv. unfold view_ok in *. cbn. replace (uv_of s _) with (uv_of s t); [done|]. unfold uv_of. pose proof (S_uv _ _ _ _ _ _ _ Hv) as Hok.
    destruct (uv_handle s) as [h0|] eqn:E0; [|done]. cbn. destruct (decide (h0 = h)) as [->|Hne]; [|by rewrite lookup_delete_ne].
    destruct Hok as (u0 & Hu0 & Hok). unfold uv_of in Hu0. rewrite E0 in Hu0. cbn in Hu0. rewrite Hu in Hu0. injection Hu0 as <-.
    pose proof (U_closing _ _ _ Hok) as Hx0. destruct Hc as [E|E]; rewrite E in Hx0; done.
  - intros p s (Hz & Hst & h0 & u0 & Hh0 & Hu0 & Hd & Hcn & Hi). split_and!; [done..|]. exists h0, u0. split_and!; [done| |done..]. cbn.
    rewrite lookup_delete_ne; [done|]. intros <-. destruct Hc; congruence.
Qed.

(** The callback that only deletes the handle. *)
Lemma delete_handle_ok used socks t evs h u : tcp_ok used socks t evs -> uv_handles t !! h = Some u -> uv_closing u = Some CB_delete_handle ->
  tcp_ok used socks (set_uvs (delete h (uv_handles t)) t) evs.
Proof.
  intros H Hu Hc. destruct (forget_uv _ _ _ _ _ _ H Hu (or_introl Hc)) as [Hv Hw]. split; try apply H.
  - intros id x Hx. destruct (T_handle _ _ _ _ H id x Hx) as (Hty & s0 & Hs0 & Hi0 & Hv0). eauto 10.
  - intros q s0 Hq. destruct (T_sock _ _ _ _ H q s0 Hq) as [?|[?|(Hz0 & h0 & u0 & E1 & E2 & E3 & E4)]]; [by left|by right; left|].
    right. right. split; [done|]. exists h0, u0. cbn. rewrite lookup_delete_ne; [done|]. intros <-. congruence.
  - destruct (T_waiting _ _ _ _ H) as [Hnd Hw0]. split; [done|]. intros q Hq. destruct (Hw0 q Hq) as (s0 & Hs0 & Hok). eauto.
  - cbn. intros h' u' [_ Hu']%lookup_delete_Some. by apply (T_uv _ _ _ _ H).
Qed.

(** The callback that deletes a client that could not be accepted. *)
Lemma delete_client_ok used socks t evs h u : tcp_ok used socks t evs -> uv_handles t !! h = Some u -> uv_closing u = Some CB_delete_client ->
  tcp_ok used (delete (uv_data u) socks) (set_uvs (delete h (uv_handles t)) t) evs.
Proof.
  intros H Hu Hc. destruct (forget_uv _ _ _ _ _ _ H Hu (or_intror Hc)) as [Hv Hw]. set (p := uv_data u).
  destruct (T_uv _ _ _ _ H h u Hu) as [[? _]|(s & Hs & Hh & _ & Hdc)]; [congruence|]. destruct (Hdc Hc) as (Hz & Hna & _).
  assert (forall id x, used !! id = Some x -> pointer x <> p) as Hother.
  { intros id x Hx E. destruct (T_handle _ _ _ _ H id x Hx) as (_ & s0 & Hs0 & Hi0 & _). unfold p in E. rewrite E in Hs0. assert (s0 = s) as -> by congruence.
    rewrite Hz in Hi0. subst id. rewrite (T_zero _ _ _ _ H) in Hx. done. }
  split; try apply H.
  - intros id x Hx. destruct (T_handle _ _ _ _ H id x Hx) as (Hty & s0 & Hs0 & Hi0 & Hv0). split; [done|]. exists s0.
    rewrite lookup_delete_ne by (apply not_eq_sym; by eapply Hother). eauto.
  - intros q s0 [Hne Hq]%lookup_delete_Some. destruct (T_sock _ _ _ _ H q s0 Hq) as [?|[?|(Hz0 & h0 & u0 & E1 & E2 & E3 & E4)]]; [by left|by right; left|].
    right. right. split; [done|]. exists h0, u0. cbn. rewrite lookup_delete_ne; [done|]. intros <-. apply Hne. unfold p. congruence.
  - destruct (T_waiting _ _ _ _ H) as [Hnd Hw0]. split; [done|]. intros q Hq. destruct (Hw0 q Hq) as (s0 & Hs0 & Hok). exists s0.
    rewrite lookup_delete_ne; [eauto|]. intros <-. done.
  - cbn. intros h' u' [Hne Hu']%lookup_delete_Some. destruct (T_uv _ _ _ _ H h' u' Hu') as [?|(s0 & Hs0 & Hh0 & Hr)]; [by left|]. right. exists s0.
    rewrite lookup_delete_ne; [done|]. intros E. unfold p in E. rewrite <- E in Hs0. assert (s0 = s) as -> by congruence. congruence.
Qed.

(** ** Changes to one socket *)

(** Only three members matter. *)
Lemma sock_ok_same tab ops res closed uv p s s' : sock_ok tab ops res closed uv p s -> state s' = state s -> uv_handle s' = uv_handle s -> handle_closed s' = handle_closed s ->
  sock_ok tab ops res closed uv p s'.
Proof.
  intros [H1 H2 H3 H4 [H5 H5'] H6 H7 [H8 H8']] Es Eu Ec. split; rewrite ?Es, ?Eu, ?Ec; try done.
  - destruct (uv_handle s); [|done]. destruct H2 as (u & Hu & [U1 U2 U3 U4 U5]). exists u. split; [done|]. by split; rewrite ?Es.
  - split; [done|]. eapply Forall_impl; [exact H5'|]. intros op [Hp Hk]. split; [done|]. destruct op; cbn in *; rewrite ?Es, ?Eu; done.
  - split; [done|]. intros Hc. eapply Forall_impl; [exact (H8' Hc)|]. intros [| |]; cbn; rewrite ?Es, ?Eu; done.
Qed.

Lemma sock_ok_closing tab ops res closed uv p s : sock_ok tab ops res closed uv p s -> sock_ok tab ops res closed uv p (set_handle_closed true s).
Proof.
  intros [H1 H2 H3 H4 [H5 H5'] H6 H7 [H8 H8']]. split; try done. cbn. destruct (uv_handle s); [|done]. destruct H2 as (u & Hu & [U1 U2 U3 U4 U5]). by exists u.
Qed.

(** An operation that does not register. *)
Lemma sock_ok_op tab ops res closed uv p s op : sock_ok tab ops res closed uv p s -> op_ptr op = None -> (is_close op = true -> handle_closed s = true) ->
  sock_ok tab (ops ++ [op]) res closed uv p s.
Proof.
  intros [H1 H2 H3 H4 [H5 H5'] H6 H7 [H8 H8']] Hp Hc. assert (regs (ops ++ [op]) = regs ops) as Er.
  { rewrite regs_app. unfold regs at 2. rewrite filter_cons, decide_False; [apply app_nil_r|]. rewrite Hp. by intros [? ?]. }
  split; rewrite ?Er; try done.
  - apply ordered_snoc; [done|]. rewrite Hp. by intros [? ?].
  - intros [Hx|Hx]%Exists_app; [by apply H7|]. apply Exists_cons in Hx as [Hx|Hx]; [by apply Hc|by apply Exists_nil in Hx].
Qed.

(** An operation that registers. *)
Lemma sock_ok_reg tab ops res closed uv p s op : sock_ok tab ops res closed uv p s -> op_ptr op = Some p -> reg_ok tab res uv s op -> regs ops = [] ->
  handle_closed s = false -> state s <> CLOSED -> sock_ok tab (ops ++ [op]) res closed uv p s.
Proof.
  intros [H1 H2 H3 H4 [H5 H5'] H6 H7 [H8 H8']] Hp Hr Hn Hc Hst. assert (regs (ops ++ [op]) = [op]) as Er.
  { rewrite regs_app, Hn. unfold regs. rewrite filter_cons, decide_True; [done|]. by rewrite Hp. }
  split; rewrite ?Er; try done.
  - split; [cbn; lia|]. apply Forall_cons. split; [done|by apply Forall_nil].
  - apply ordered_snoc; [done|]. intros _. apply Forall_forall. intros o Ho. destruct (is_close o) eqn:E; [|done].
    rewrite H7 in Hc; [done|]. apply Exists_exists. by exists o.
  - intros [Hx|Hx]%Exists_app; [by apply H7|]. apply Exists_cons in Hx as [Hx|Hx]; [by destruct op|by apply Exists_nil in Hx].
Qed.

Lemma uv_not_closing p s u : uv_ok p s u -> state s <> CLOSING -> uv_closing u = None.
Proof. intros [_ U2 _ _ _] Hs. by destruct (uv_closing u) as [[]|]. Qed.

(** libuv's handle before a connection. *)
Definition quiet p u : Prop := uv_data u = p /\ uv_closing u = None /\ uv_connect u = None /\ uv_writes u = [] /\ uv_reading u = false.

Definition early (st : TcpState) : bool := match st with CREATED | RESOLVING | LISTENING => true | _ => false end.

Lemma uv_quiet p s u : uv_ok p s u -> early (state s) = true -> quiet p u.
Proof.
  intros [U1 U2 U3 U4 [U5 U6]] He. split; [done|]. split; [|split_and!].
  - destruct (uv_closing u) as [[| | |]|]; try done. by rewrite U2 in He.
  - destruct U4 as [?|[_ [E|E]]]; [done|by rewrite E in He..].
  - destruct U6 as [?|[E|E]]; [done|by rewrite E in He..].
  - destruct (uv_reading u); [|done]. specialize (U3 eq_refl). by rewrite U3 in He.
Qed.

Lemma quiet_ok p s u : quiet p u -> state s <> CLOSING -> uv_ok p s u.
Proof. intros (Q1 & Q2 & Q3 & Q4 & Q5) Hs. split; rewrite ?Q1, ?Q2, ?Q3, ?Q4, ?Q5; try done; [by left|]. split; [by apply Forall_nil|by left]. Qed.

Lemma early_uv tab ops res closed uv p s h : sock_ok tab ops res closed uv p s -> early (state s) = true -> uv_handle s = Some h -> exists u, uv = Some u /\ quiet p u.
Proof. intros H He Hh. pose proof (S_uv _ _ _ _ _ _ _ H) as Hu. rewrite Hh in Hu. destruct Hu as (u & Hu & Hok). exists u. split; [done|by eapply uv_quiet]. Qed.

(** The next state of a socket that is not closed, when no operation registers it. *)
Lemma sock_ok_step tab tab' ops res res' closed uv uv' p s s' : sock_ok tab ops res closed uv p s -> regs ops = [] -> state s <> CLOSED -> state s' <> CLOSED ->
  (tab' = None \/ tab' = Some p) -> handle_closed s' = handle_closed s ->
  match uv_handle s' with Some _ => exists u, uv' = Some u /\ uv_ok p s' u | None => state s' <> CLOSING end ->
  (length res' <= 1)%nat -> (handle_closed s = false -> Forall (res_ok s') res') -> sock_ok tab' ops res' closed uv' p s'.
Proof.
  intros [H1 H2 H3 H4 [H5 H5'] H6 H7 [H8 H8']] Hr Hs Hs' Ht Hc Hu Hl Hres. rewrite decide_False in H3 by done. split; try done.
  - by rewrite decide_False.
  - rewrite Hr. split; [cbn; lia|by apply Forall_nil].
  - by rewrite Hc.
  - by rewrite Hc.
Qed.

(** ... and when it has no connection yet. *)
Lemma early_next tab tab' ops res res' closed uv p s s' : sock_ok tab ops res closed uv p s -> regs ops = [] -> early (state s) = true -> early (state s') = true ->
  uv_handle s' = uv_handle s -> handle_closed s' = handle_closed s -> (tab' = None \/ tab' = Some p) ->
  (length res' <= 1)%nat -> (handle_closed s = false -> Forall (res_ok s') res') -> sock_ok tab' ops res' closed uv p s'.
Proof.
  intros Hok Hr He He' Hu Hc Ht Hl Hres. eapply sock_ok_step; [exact Hok|done|by intros E; rewrite E in He|by intros E; rewrite E in He'|done|done| |done|done].
  rewrite Hu. destruct (uv_handle s) as [h|] eqn:Hh; [|by intros E; rewrite E in He']. destruct (early_uv _ _ _ _ _ _ _ h Hok He Hh) as (u & -> & Hq). exists u. split; [done|].
  apply quiet_ok; [done|by intros E; rewrite E in He'].
Qed.

(** A socket that is past its registration. *)
Lemma regs_none tab ops res closed uv p s : sock_ok tab ops res closed uv p s -> state s <> CREATED ->
  (state s = CONNECTED -> tab <> None \/ exists u, uv = Some u /\ ~ idle u) -> regs ops = [].
Proof.
  intros H Hs Hc. destruct (S_regs _ _ _ _ _ _ _ H) as [_ HF]. destruct (regs ops) as [|op l]; [done|]. apply Forall_cons in HF as [[Hp Hr] _].
  destruct op; cbn in *; try done; try (by destruct Hr). destruct Hr as (Hst & Ht & u & Hu & Hi). destruct (Hc Hst) as [?|(u' & Hu' & Hn)]; [done|]. by assert (u' = u) as -> by congruence.
Qed.

Lemma sock_ok_uv tab ops res closed uv uv' p s : sock_ok tab ops res closed uv p s -> regs ops = [] -> state s <> CLOSED ->
  match uv_handle s with Some _ => exists u, uv' = Some u /\ uv_ok p s u | None => state s <> CLOSING end -> sock_ok tab ops res closed uv' p s.
Proof. intros Hok Hr Hs Hu. eapply sock_ok_step; [exact Hok|done|done|done|apply Hok|done|done|apply Hok|apply Hok]. Qed.

Lemma res_none tab ops res closed uv p s : sock_ok tab ops res closed uv p s -> handle_closed s = false -> state s <> CREATED -> state s <> RESOLVING -> res = [].
Proof.
  intros H Hc H1 H2. pose proof (proj2 (S_res _ _ _ _ _ _ _ H) Hc) as HF. destruct res as [|r res]; [done|]. apply Forall_cons in HF as [Hr _].
  destruct r; cbn in Hr; [done|by destruct Hr|done].
Qed.

(** ** The handle table *)

Lemma tcp_ok_handles (used used' : gmap Z Handle) socks t evs : (forall id, (fun x => (type x, pointer x)) <$> used' !! id = (fun x => (type x, pointer x)) <$> used !! id) ->
  tcp_ok used socks t evs -> tcp_ok used' socks t evs.
Proof.
  intros Hsame H. assert (forall id x, used' !! id = Some x -> exists y, used !! id = Some y /\ type y = type x /\ pointer y = pointer x) as H1.
  { intros id x Hx. specialize (Hsame id). rewrite Hx in Hsame. destruct (used !! id) as [y|]; [|done]. injection Hsame as ? ?. by exists y. }
  assert (forall id x, used !! id = Some x -> exists y, used' !! id = Some y /\ type y = type x /\ pointer y = pointer x) as H2.
  { intros id x Hx. specialize (Hsame id). rewrite Hx in Hsame. destruct (used' !! id) as [y|]; [|done]. injection Hsame as ? ?. by exists y. }
  split; try apply H.
  - destruct (used' !! 0) as [x|] eqn:E; [|done]. destruct (H1 _ _ E) as (y & Hy & _). by rewrite (T_zero _ _ _ _ H) in Hy.
  - intros id x Hx. destruct (H1 _ _ Hx) as (y & Hy & <- & <-). by apply (T_handle _ _ _ _ H).
  - intros p s Hs. destruct (T_sock _ _ _ _ H p s Hs) as [(x & Hx & <-)|?]; [|by right]. destruct (H2 _ _ Hx) as (y & Hy & _ & E). left. by exists y.
  - intros id p Hp. destruct (T_table _ _ _ _ H id p Hp) as (x & Hx & <-). destruct (H2 _ _ Hx) as (y & Hy & _ & E). by exists y.
  - intros op p Hop Hp. destruct (T_regs _ _ _ _ H op p Hop Hp) as [x Hx]. destruct (H2 _ _ Hx) as (y & Hy & _). by exists y.
  - intros e He Hc. destruct (T_closed _ _ _ _ H e He Hc) as [x Hx]. destruct (H2 _ _ Hx) as (y & Hy & _). by exists y.
Qed.
