(* ===== verification/TcpSafe.v ===== *)
(** * TCP steps keep the sockets consistent

    Every native, operation and callback of TCP that works on one socket is
    executed symbolically: the world is a base world in which that socket and
    the TCP part have changed ([cur]), and [at_view] says what the parts that
    name the socket look like.  The rules of the first half move [at_view]
    along; the lemmas of the second half are one per step. *)

From stdpp Require Import base numbers list gmap.
From Stdlib Require Import ZArith Lia.
From S2P Require Import Clock TcpSocket LinkedList LockedQueue MsgPack Prelude HandleManager NodePool DataMap DataValue Float Text DataNode HeaderMap HttpRequest EventLoop HttpState DataRefcount DataCopy JsonText JsonParse DataBuild DataHandle DataIterator Natives NativesJson NativesJsonSafe TcpLoop TcpState.

Import Tcp.

Section TcpSafe.

Context {MO : DataMap bytes} {MI : DataMap Z} {P : Type} {PA : NodeAllocator P} {M : Type} {PC : PluginContext M}.

#[local] Notation N := (N (P := P) (M := M)).
#[local] Notation world := (world (P := P) (M := M)).
#[local] Notation "x <- m ;; k" := (nbind m (fun x => k)) (at level 100, m at next level, right associativity).
#[local] Notation "m ;;; k" := (nbind m (fun _ => k)) (at level 100, right associativity).
Implicit Types (w : world) (s : TcpSocket) (t : TcpLoop) (u : uv_tcp_t) (p : positive) (id : Z).

(** ** The invariant *)

Definition as_tcp (o : Natives.object) : option TcpSocket := match o with OTcpSocket s => Some s | _ => None end.
Definition sockets (os : gmap positive Natives.object) : gmap positive TcpSocket := omap as_tcp os.

(** [pre] are the events the game thread has taken and not finished. *)
Definition evs_of (pre : list SocketEvent) t : list SocketEvent := pre ++ queue_ (socket_done_queue t).

Record tinv (pre : list SocketEvent) w : Prop := {
  V_table : wf (hm w);
  V_tcp : tcp_ok (used_handles_ (hm w)) (sockets (objects w)) (g_tcp w) (evs_of pre (g_tcp w))
}.

Lemma sockets_Some os p s : sockets os !! p = Some s <-> os !! p = Some (OTcpSocket s).
Proof. unfold sockets. rewrite lookup_omap. destruct (os !! p) as [[]|]; cbn; naive_solver. Qed.

Lemma sockets_insert os p s : sockets (<[p := OTcpSocket s]> os) = <[p := s]> (sockets os).
Proof. unfold sockets. by apply omap_insert_Some. Qed.

Lemma sockets_delete os p : sockets (delete p os) = delete p (sockets os).
Proof. unfold sockets. by rewrite omap_delete. Qed.

(** ** One socket's world *)

Definition cur (w0 : world) p s t : world := set_tcp t (set_objects (<[p := OTcpSocket s]> (objects w0)) w0).

Record at_view (pre : list SocketEvent) id p (w0 : world) s t (tab : option positive) (ops : list TcpOp) (res : list Resolution) (closed : list SocketEvent) (uv : option uv_tcp_t) : Prop := {
  A_apart : apart id p (g_tcp w0) t (evs_of pre (g_tcp w0)) (evs_of pre t);
  A_own : own p (uv_handle s) t;
  A_id : handle_id s = id;
  A_tab : tcp_sockets_ t !! id = tab;
  A_ops : ops_of id t = ops;
  A_res : res_of id t = res;
  A_closed : closed_of id (evs_of pre t) = closed;
  A_uv : uv_of s t = uv
}.

(** A base world, and a socket of it with a handle. *)
Record base (pre : list SocketEvent) id p w0 : Prop := {
  B_inv : tinv pre w0;
  B_handle : exists x s, used_handles_ (hm w0) !! id = Some x /\ pointer x = p /\ objects w0 !! p = Some (OTcpSocket s)
}.

Lemma cur_self w p s : objects w !! p = Some (OTcpSocket s) -> cur w p s (g_tcp w) = w.
Proof. intros Ho. unfold cur. rewrite insert_id by done. by destruct w. Qed.

Lemma start pre w id x p s : tinv pre w -> used_handles_ (hm w) !! id = Some x -> pointer x = p -> objects w !! p = Some (OTcpSocket s) ->
  base pre id p w /\ w = cur w p s (g_tcp w) /\
  exists tab ops res closed uv, at_view pre id p w s (g_tcp w) tab ops res closed uv /\ sock_ok tab ops res closed uv p s.
Proof.
  intros Hi Hx Hp Ho. pose proof (proj2 (sockets_Some _ _ _) Ho) as Hs. pose proof (V_tcp _ _ Hi) as Ht.
  destruct (owner_id _ _ _ _ id x p s Ht Hx Hp Hs) as [Hid Hv]. split; [split; [done|by exists x, s]|]. split; [by rewrite cur_self|].
  eexists _, _, _, _, _. split; [|exact Hv]. split; try done; [apply apart_refl|]. by apply (own_init _ _ _ _ id x p s Ht).
Qed.

Lemma finish pre id p w0 s t tab ops res closed uv : base pre id p w0 -> at_view pre id p w0 s t tab ops res closed uv ->
  sock_ok tab ops res closed uv p s -> tinv pre (cur w0 p s t).
Proof.
  intros [[Hw Ht] (x & s0 & Hx & Hp & Ho)] [A1 A2 A3 A4 A5 A6 A7 A8] Hok. split; [exact Hw|]. cbn [hm g_tcp objects cur set_tcp set_objects].
  rewrite sockets_insert. apply sockets_Some in Ho. eapply (one_socket _ _ _ _ _ _ id x p s0 s Ht Hx Hp Ho); [done..|].
  unfold view_ok. by rewrite A4, A5, A6, A7, A8.
Qed.

(** ** Rules *)

Lemma w_load w0 p s t (R : TcpSocket -> world -> Prop) : R s (cur w0 p s t) -> wp (load_socket p) R (cur w0 p s t).
Proof. intros HR. unfold wp, load_socket. cbn [objects cur set_tcp set_objects]. by rewrite lookup_insert_eq. Qed.

Lemma w_assign w0 p s t f (R : unit -> world -> Prop) : R tt (cur w0 p (f s) t) -> wp (upd_socket p f) R (cur w0 p s t).
Proof. intros HR. apply wp_bind, w_load. unfold wp, store_object, cur. cbn [objects set_objects set_tcp]. by rewrite insert_insert_eq. Qed.

Section Rules.

Context (pre : list SocketEvent) (id : Z) (p : positive) (w0 : world) (s : TcpSocket) (t : TcpLoop)
        (tab : option positive) (ops : list TcpOp) (res : list Resolution) (closed : list SocketEvent) (uv : option uv_tcp_t).
Context (A : at_view pre id p w0 s t tab ops res closed uv).

Lemma w_upd f (R : unit -> world -> Prop) : handle_id (f s) = handle_id s -> uv_handle (f s) = uv_handle s ->
  (at_view pre id p w0 (f s) t tab ops res closed uv -> R tt (cur w0 p (f s) t)) -> wp (upd_socket p f) R (cur w0 p s t).
Proof using A.
  intros H1 H2 HR. apply w_assign, HR.
  destruct A as [A1 A2 A3 A4 A5 A6 A7 A8]. split; try done; [by rewrite H2|congruence|]. unfold uv_of in *. by rewrite H2.
Qed.

Lemma w_event e (R : unit -> world -> Prop) : e_handle_id e = id -> e_type e <> TCP_ACCEPTED -> e_accepted e = None ->
  (forall t', at_view pre id p w0 s t' tab ops res (closed ++ if decide (e_type e = TCP_CLOSED) then [e] else []) uv -> R tt (cur w0 p s t')) ->
  wp (PushSocketEvent e) R (cur w0 p s t).
Proof using A.
  intros H1 H2 H3 HR. unfold wp, PushSocketEvent, upd_tcp. cbn [g_tcp cur set_tcp]. set (t' := set_events _ t). apply (HR t').
  destruct A as [A1 A2 A3 A4 A5 A6 A7 A8]. assert (evs_of pre t' = evs_of pre t ++ [e]) as Ee by (unfold evs_of; cbn; by rewrite app_assoc).
  split; try done.
  - eapply apart_trans; [exact A1|]. rewrite Ee. by apply apart_event.
  - rewrite Ee, closed_push, A7. f_equal. repeat case_decide; naive_solver.
Qed.

Lemma w_op op (R : unit -> world -> Prop) : op_id op = id ->
  (forall t', at_view pre id p w0 s t' tab (ops ++ [op]) res closed uv -> R tt (cur w0 p s t')) -> wp (EnqueueTcpOp op) R (cur w0 p s t).
Proof using A.
  intros H1 HR. unfold wp, EnqueueTcpOp, upd_tcp. cbn [g_tcp cur set_tcp]. set (t' := set_ops _ t). apply (HR t').
  destruct A as [A1 A2 A3 A4 A5 A6 A7 A8]. split; try done.
  - eapply apart_trans; [exact A1|]. by apply apart_op.
  - unfold t'. by rewrite ops_push, decide_True, A5.
Qed.

Lemma w_resolve r (R : unit -> world -> Prop) : res_id r = id ->
  (forall t', at_view pre id p w0 s t' tab ops (res ++ [r]) closed uv -> R tt (cur w0 p s t')) -> wp (Resolve r) R (cur w0 p s t).
Proof using A.
  intros H1 HR. unfold wp, Resolve, upd_tcp. cbn [g_tcp cur set_tcp]. set (t' := set_resolving _ t). apply (HR t').
  destruct A as [A1 A2 A3 A4 A5 A6 A7 A8]. split; try done.
  - eapply apart_trans; [exact A1|]. by apply apart_res.
  - unfold res_of in *. cbn. rewrite filter_app, A6, filter_cons, decide_True by done. done.
Qed.

Lemma w_emplace q (R : unit -> world -> Prop) :
  (forall t', at_view pre id p w0 s t' (match tab with Some _ => tab | None => Some q end) ops res closed uv -> R tt (cur w0 p s t')) ->
  wp (emplace id q) R (cur w0 p s t).
Proof using A.
  intros HR. unfold wp, emplace, upd_tcp. cbn [g_tcp cur set_tcp]. destruct A as [A1 A2 A3 A4 A5 A6 A7 A8]. rewrite A4.
  destruct tab as [q0|]; [by apply HR|]. set (t' := set_sockets _ t). apply (HR t'). split; try done; [|by cbn; rewrite lookup_insert_eq].
  eapply apart_trans; [exact A1|]. apply apart_tab. intros id' Hne. by rewrite lookup_insert_ne.
Qed.

Lemma w_erase (R : unit -> world -> Prop) :
  (forall t', at_view pre id p w0 s t' None ops res closed uv -> R tt (cur w0 p s t')) -> wp (erase_socket id) R (cur w0 p s t).
Proof using A.
  intros HR. unfold wp, erase_socket, upd_tcp. cbn [g_tcp cur set_tcp]. destruct A as [A1 A2 A3 A4 A5 A6 A7 A8]. set (t' := set_sockets _ t). apply (HR t').
  split; try done; [|by cbn; rewrite lookup_delete_eq]. eapply apart_trans; [exact A1|]. apply apart_tab. intros id' Hne. by rewrite lookup_delete_ne.
Qed.

Lemma w_find (R : option (positive * TcpSocket) -> world -> Prop) : tab = None \/ tab = Some p ->
  (tab = None -> R None (cur w0 p s t)) -> (tab = Some p -> R (Some (p, s)) (cur w0 p s t)) -> wp (find_socket id) R (cur w0 p s t).
Proof using A.
  intros Ht HN HS. unfold wp, find_socket. cbn [g_tcp cur set_tcp]. rewrite (A_tab _ _ _ _ _ _ _ _ _ _ _ A). destruct Ht as [-> | ->]; [by apply HN|].
  apply wp_bind. apply w_load. by apply HS.
Qed.

Lemma w_uv_get h u (R : uv_tcp_t -> world -> Prop) : uv_handle s = Some h -> uv = Some u -> R u (cur w0 p s t) -> wp (uv_get h) R (cur w0 p s t).
Proof using A.
  intros Hh Hu HR. unfold wp, uv_get. cbn [g_tcp cur set_tcp]. pose proof (A_uv _ _ _ _ _ _ _ _ _ _ _ A) as E. unfold uv_of in E. rewrite Hh, Hu in E. cbn in E. by rewrite E.
Qed.

Lemma w_uv_open h u (R : uv_tcp_t -> world -> Prop) : uv_handle s = Some h -> uv = Some u -> uv_closing u = None ->
  R u (cur w0 p s t) -> wp (uv_open h) R (cur w0 p s t).
Proof using A. intros Hh Hu Hc HR. apply wp_bind. eapply w_uv_get; [done..|]. by rewrite Hc. Qed.

Lemma w_uv_put h u u' (R : unit -> world -> Prop) : uv_handle s = Some h -> uv = Some u -> uv_data u = p -> uv_data u' = p ->
  uv_closing u' = None \/ uv_closing u' = Some CB_OnTcpClosed ->
  (forall t', at_view pre id p w0 s t' tab ops res closed (Some u') -> R tt (cur w0 p s t')) -> wp (uv_put h u') R (cur w0 p s t).
Proof using A.
  intros Hh Hu Hd Hd' Hc HR. unfold wp, uv_put, upd_tcp. cbn [g_tcp cur set_tcp]. set (t' := set_uvs _ t). apply (HR t').
  destruct A as [A1 A2 A3 A4 A5 A6 A7 A8]. unfold uv_of in A8. rewrite Hh, Hu in A8. cbn in A8. split; try done.
  - eapply apart_trans; [exact A1|]. apply apart_put; [done|]. intros u0 Hu0. congruence.
  - rewrite Hh in A2 |- *. eapply own_put; [exact A2|done..|by right].
  - unfold uv_of. rewrite Hh. cbn. by rewrite lookup_insert_eq.
Qed.

Lemma w_uv_change h u f (R : unit -> world -> Prop) : uv_handle s = Some h -> uv = Some u -> uv_closing u = None -> uv_data u = p -> uv_data (f u) = uv_data u ->
  uv_closing (f u) = None \/ uv_closing (f u) = Some CB_OnTcpClosed ->
  (forall t', at_view pre id p w0 s t' tab ops res closed (Some (f u)) -> R tt (cur w0 p s t')) -> wp (u <- uv_open h;; uv_put h (f u)) R (cur w0 p s t).
Proof using A. intros Hh Hu Hc Hd Hd' Hc' HR. apply wp_bind. eapply w_uv_open; [done..|]. eapply w_uv_put; [done..|by rewrite Hd'|done|done]. Qed.

(** [new uv_tcp_t] for the socket. *)
Lemma w_new_uv {X} (k : positive -> N X) (R : X -> world -> Prop) : uv_handle s = None ->
  (forall h t', at_view pre id p w0 (set_uv_handle (Some h) s) t' tab ops res closed (Some (uv_tcp_init p)) -> wp (k h) R (cur w0 p (set_uv_handle (Some h) s) t')) ->
  wp (h <- new_uv p;; (upd_socket p (set_uv_handle (Some h));;; k h)) R (cur w0 p s t).
Proof using A.
  intros Hn HR. apply wp_bind. unfold wp at 1, new_uv. cbn [g_tcp cur set_tcp]. set (h := fresh_addr (uv_handles t)). set (t' := set_uvs _ t).
  pose proof (fresh_addr_None (uv_handles t)) as Hf. fold h in Hf. change (set_tcp t' _) with (cur w0 p s t').
  apply wp_bind, w_assign. apply (HR h t'). destruct A as [A1 A2 A3 A4 A5 A6 A7 A8]. rewrite Hn in A2. split; try done.
  - eapply apart_trans; [exact A1|]. apply apart_put; [done|]. intros u0 Hu0. congruence.
  - eapply own_put; [exact A2|done|by left|by left].
  - unfold uv_of. cbn. by rewrite lookup_insert_eq.
Qed.

(** [CloseTcpHandle]. *)
Lemma w_CloseTcpHandle h u (R : unit -> world -> Prop) : uv_handle s = Some h -> uv = Some u -> uv_data u = p -> uv_closing u = None -> uv_connect u = None -> uv_writes u = [] ->
  (forall t', at_view pre id p w0 (set_uv_handle None s) t' tab ops res closed None -> R tt (cur w0 p (set_uv_handle None s) t')) ->
  wp (CloseTcpHandle p) R (cur w0 p s t).
Proof using A.
  intros Hh Hu Hd Hc Hco Hwr HR. apply wp_bind, w_load. rewrite Hh. apply wp_bind, w_assign. destruct A as [A1 A2 A3 A4 A5 A6 A7 A8]. unfold uv_of in A8. rewrite Hh, Hu in A8. cbn in A8.
  unfold wp, uv_close, uv_open, uv_get, uv_put, upd_tcp, nbind, nret. cbn [g_tcp cur set_tcp]. rewrite A8, Hc. cbn [g_tcp set_tcp]. 
  set (t' := set_uvs (<[h := mkUv (uv_data u) (Some CB_delete_handle) false false (uv_connect u) (uv_writes u)]> (uv_handles t)) t).
  change (R tt (cur w0 p (set_uv_handle None s) t')). apply HR.
  split; try done.
  - eapply apart_trans; [exact A1|]. apply apart_put; [done|]. intros u0 Hu0. congruence.
  - rewrite Hh in A2. eapply own_drop; [exact A2|done|]. unfold idle. cbn. done.
Qed.

(** [delete] of the socket's handle. *)
Lemma w_delete_uv {X} h u (k : N X) (R : X -> world -> Prop) : uv_handle s = Some h -> uv = Some u -> uv_data u = p ->
  (forall t', at_view pre id p w0 (set_uv_handle None s) t' tab ops res closed None -> wp k R (cur w0 p (set_uv_handle None s) t')) ->
  wp (delete_uv h;;; (upd_socket p (set_uv_handle None);;; k)) R (cur w0 p s t).
Proof using A.
  intros Hh Hu Hd HR. apply wp_bind. unfold delete_uv. apply wp_bind. eapply w_uv_get; [done..|]. unfold wp at 1, upd_tcp. cbn [g_tcp cur set_tcp]. set (t' := set_uvs _ t).
  change (set_tcp t' _) with (cur w0 p s t'). apply wp_bind, w_assign. apply (HR t'). destruct A as [A1 A2 A3 A4 A5 A6 A7 A8]. unfold uv_of in A8. rewrite Hh, Hu in A8. cbn in A8. split; try done.
  - eapply apart_trans; [exact A1|]. by eapply apart_del.
  - rewrite Hh in A2. by apply own_del.
Qed.

Lemma w_options h u (R : unit -> world -> Prop) : uv_handle s = Some h -> uv = Some u -> uv_closing u = None ->
  R tt (cur w0 p s t) -> wp (ApplyTcpOptions s) R (cur w0 p s t).
Proof using A. intros Hh Hu Hc HR. unfold ApplyTcpOptions. rewrite Hh. apply wp_bind. eapply w_uv_open; [done..|]. by apply wp_ret. Qed.

End Rules.

(** [if (!sock2->uv_handle) ...] *)
Lemma w_ensure pre id p w0 s t tab ops res closed uv (R : positive -> world -> Prop) : at_view pre id p w0 s t tab ops res closed uv ->
  (forall h, uv_handle s = Some h -> exists u, uv = Some u /\ quiet p u) ->
  (forall h t' u, at_view pre id p w0 (set_uv_handle (Some h) s) t' tab ops res closed (Some u) -> quiet p u ->
    R h (cur w0 p (set_uv_handle (Some h) s) t')) -> wp (ensure_uv p s) R (cur w0 p s t).
Proof.
  intros A Hq HR. unfold ensure_uv. destruct (uv_handle s) as [h|] eqn:Hh.
  - destruct (Hq h eq_refl) as (u & -> & Hu). apply wp_ret. replace s with (set_uv_handle (Some h) s) at 1 by (destruct s; cbn in *; by subst).
    apply (HR h t u); [|done]. replace (set_uv_handle (Some h) s) with s by (destruct s; cbn in *; by subst). exact A.
  - eapply w_new_uv; [exact A|done|]. intros h t' A'. apply wp_bind, w_load. apply wp_bind. eapply w_options; [exact A'|done..|]. by eapply wp_ret, HR.
Qed.

(** ** The natives *)

(** What a handle gives. *)
Lemma tcp_handle pre w id x : tinv pre w -> used_handles_ (hm w) !! id = Some x -> exists s, objects w !! pointer x = Some (OTcpSocket s) /\ handle_id s = id.
Proof.
  intros Hi Hx. destruct (T_handle _ _ _ _ (V_tcp _ _ Hi) id x Hx) as (_ & s & Hs & Hid & _). exists s. split; [by apply sockets_Some|done].
Qed.

(** The socket [p] of the handle, with its members [s]. *)
Definition socket_at (w : world) id p s : Prop :=
  (exists x, used_handles_ (hm w) !! id = Some x /\ pointer x = p) /\ objects w !! p = Some (OTcpSocket s).

Lemma wp_with_socket pre params k (R : Z -> world -> Prop) w : tinv pre w -> R 0 w ->
  (forall id p s, param params 1 = Some id -> socket_at w id p s -> handle_id s = id -> wp (k p s) R w) -> wp (with_socket params k) R w.
Proof.
  intros Hi H0 Hk. apply wp_bind, wp_arg. intros id Hid. apply wp_bind. unfold wp at 1, GetTcpSocket. destruct (HandleManager.GetTcpSocket id (hm w)) as [p|] eqn:E; [|done].
  unfold HandleManager.GetTcpSocket, get_typed in E. destruct (used_handles_ (hm w) !! id) as [x|] eqn:Ex; [|done]. case_decide; [done|]. destruct (HandleManager.closed x); [done|]. injection E as <-.
  destruct (tcp_handle pre w id x Hi Ex) as (s & Ho & Hs). rewrite Ho. apply (Hk id); [done| |done]. split; [by exists x|done].
Qed.

Lemma start_at pre w id p s : tinv pre w -> socket_at w id p s ->
  base pre id p w /\ w = cur w p s (g_tcp w) /\
  exists tab ops res closed uv, at_view pre id p w s (g_tcp w) tab ops res closed uv /\ sock_ok tab ops res closed uv p s.
Proof. intros Hi [(x & Hx & Hp) Ho]. by eapply start. Qed.

(** Setting members that are not part of the invariant. *)
Lemma configure_keeps pre id p s f (R : unit -> world -> Prop) w : tinv pre w -> socket_at w id p s -> handle_id (f s) = handle_id s -> uv_handle (f s) = uv_handle s ->
  state (f s) = state s -> handle_closed (f s) = handle_closed s ->
  (forall w', tinv pre w' -> socket_at w' id p (f s) -> g_tcp w' = g_tcp w -> memory w' = memory w -> R tt w') -> wp (upd_socket p f) R w.
Proof.
  intros Hi Hat H1 H2 H3 H4 HR. destruct (start_at pre w id p s Hi Hat) as (Hb & Ew & tab & ops & res & closed & uv & A & Hok). rewrite Ew.
  eapply w_upd; [exact A|done|done|]. intros A'. apply HR; [|split; [apply Hat|cbn; by rewrite lookup_insert_eq]|done|done].
  eapply finish; [done|exact A'|]. by eapply sock_ok_same.
Qed.

(** Queueing an operation that does not register. *)
Lemma enqueue_keeps pre id p s op (R : unit -> world -> Prop) w : tinv pre w -> socket_at w id p s -> op_id op = id -> op_ptr op = None ->
  (is_close op = true -> handle_closed s = true) -> (forall w', tinv pre w' -> R tt w') -> wp (EnqueueTcpOp op) R w.
Proof.
  intros Hi Hat Ho Hp Hc HR. destruct (start_at pre w id p s Hi Hat) as (Hb & Ew & tab & ops & res & closed & uv & A & Hok). rewrite Ew.
  eapply w_op; [exact A|done|]. intros t' A'. apply HR. eapply finish; [done|exact A'|]. by apply sock_ok_op.
Qed.

(** What registering a socket needs: it is new, open, and nothing is under way. *)
Definition idle_socket (w : world) id s : Prop :=
  state s = CREATED /\ handle_closed s = false /\ regs (ops_of id (g_tcp w)) = [] /\ res_of id (g_tcp w) = [].

Lemma register_keeps pre id p s op (R : unit -> world -> Prop) w : tinv pre w -> socket_at w id p s -> op_id op = id -> op_ptr op = Some p -> idle_socket w id s ->
  reg_ok (tcp_sockets_ (g_tcp w) !! id) [] (uv_of s (g_tcp w)) s op -> (forall w', tinv pre w' -> R tt w') -> wp (EnqueueTcpOp op) R w.
Proof.
  intros Hi Hat Ho Hp (S1 & S2 & S3 & S4) Hr HR. destruct (start_at pre w id p s Hi Hat) as (Hb & Ew & tab & ops & res & closed & uv & A & Hok).
  pose proof A as [_ _ _ A4 A5 A6 _ A8]. rewrite A5 in S3. rewrite A6 in S4. rewrite A4, A8 in Hr. subst res. rewrite Ew.
  eapply w_op; [exact A|done|]. intros t' A'. apply HR. eapply finish; [done|exact A'|]. apply sock_ok_reg; try done. by rewrite S1.
Qed.

Definition keeps_tcp (f : native (P := P) (M := M)) (pre : list Z -> world -> Prop) : Prop :=
  forall evs ctx params w, tinv evs w -> pre params w -> wp (f ctx params) (fun _ w' => tinv evs w') w.

Definition no_need (params : list Z) (w : world) : Prop := True.

(** The socket the call is about. *)
Definition socket_need (Q : world -> Z -> TcpSocket -> Prop) (params : list Z) (w : world) : Prop :=
  forall id p s, param params 1 = Some id -> socket_at w id p s -> Q w id s.

Lemma set_callbacks_keeps : keeps_tcp Native_TcpSetCallbacks no_need.
Proof.
  intros evs ctx params w Hi _. apply (wp_with_socket evs); [done..|]. intros id p s _ Hat _. do 4 (apply wp_bind, wp_arg; intros ? _).
  apply wp_bind. eapply configure_keeps; [exact Hi|exact Hat|done..|]. intros w' Hi' _ _ _. by apply wp_ret.
Qed.

Lemma connect_keeps : keeps_tcp Native_TcpConnect (socket_need idle_socket).
Proof.
  intros evs ctx params w Hi Hn. apply (wp_with_socket evs); [done..|]. intros id p s Hid Hat Hs. specialize (Hn id p s Hid Hat).
  apply wp_bind, wp_arg. intros a _. apply wp_bind, wp_local_string. intros host. apply wp_bind, wp_arg. intros port _. apply wp_bind.
  eapply register_keeps; [exact Hi|exact Hat|done|done|exact Hn| |]; [split; [apply Hn|done]|]. intros w' Hi'. by apply wp_ret.
Qed.

Lemma bind_keeps : keeps_tcp Native_TcpBind (socket_need idle_socket).
Proof.
  intros evs ctx params w Hi Hn. apply (wp_with_socket evs); [done..|]. intros id p s Hid Hat Hs. specialize (Hn id p s Hid Hat).
  apply wp_bind, wp_arg. intros a _. apply wp_bind, wp_local_string. intros host. apply wp_bind, wp_arg. intros port _. apply wp_bind.
  eapply register_keeps; [exact Hi|exact Hat|done|done|exact Hn| |]; [split; [apply Hn|done]|]. intros w' Hi'. by apply wp_ret.
Qed.

(** A listener is not bound or registered before. *)
Definition unregistered (w : world) id s : Prop := idle_socket w id s /\ tcp_sockets_ (g_tcp w) !! id = None /\ uv_handle s = None.

Lemma listen_keeps : keeps_tcp Native_TcpListen (socket_need unregistered).
Proof.
  intros evs ctx params w Hi Hn. apply (wp_with_socket evs); [done..|]. intros id p s Hid Hat Hs. destruct (Hn id p s Hid Hat) as (Hn1 & Hn2 & Hn3).
  apply wp_bind, wp_arg. intros a _. apply wp_bind, wp_local_string. intros host. do 3 (apply wp_bind, wp_arg; intros ? _). apply wp_bind.
  eapply register_keeps; [exact Hi|exact Hat|done|done|exact Hn1| |]; [|intros w' Hi'; by apply wp_ret]. cbn. rewrite Hn2, Hn3. split_and!; [apply Hn1|done..].
Qed.

Lemma send_keeps : keeps_tcp Native_TcpSend no_need.
Proof.
  intros evs ctx params w Hi _. apply (wp_with_socket evs); [done..|]. intros id p s _ Hat Hs. apply wp_bind, wp_arg. intros a _.
  assert (forall w', tinv evs w' -> wp (nret 0) (fun _ => tinv evs) w') as Hr by (intros; by apply wp_ret).
  apply wp_bind, wp_try_cell. intros [c|] _; [|by apply Hr]. apply wp_bind, wp_arg. intros len _. destruct (len <=? 0); [by apply Hr|].
  apply wp_bind. unfold wp at 1, local_raw. destruct (read_raw _ _ _); [|done]. apply wp_bind. eapply enqueue_keeps; [exact Hi|exact Hat|done|done|done|]. exact Hr.
Qed.

Lemma tcp_close_keeps : keeps_tcp Native_TcpClose no_need.
Proof.
  intros evs ctx params w Hi _. apply (wp_with_socket evs); [done..|]. intros id p s _ Hat Hs.
  destruct (start_at evs w id p s Hi Hat) as (Hb & Ew & tab & ops & res & closed & uv & A & Hok). rewrite Ew. apply wp_bind. eapply w_upd; [exact A|done|done|]. intros A1.
  apply wp_bind. eapply w_op; [exact A1|done|]. intros t' A2. apply wp_ret. eapply finish; [done|exact A2|]. apply sock_ok_op; [by apply sock_ok_closing|done|done].
Qed.

Lemma set_option_keeps : keeps_tcp Native_TcpSetOption no_need.
Proof.
  intros evs ctx params w Hi _. apply (wp_with_socket evs); [done..|]. intros id p s _ Hat Hs. do 2 (apply wp_bind, wp_arg; intros ? _).
  assert (forall s' w' o val, tinv evs w' -> socket_at w' id p s' -> wp (nbind (EnqueueTcpOp (SET_OPTION (handle_id s) o val)) (fun _ => nret 0)) (fun _ => tinv evs) w') as Hroute.
  { intros s' w' o val Hi' Hat'. apply wp_bind. eapply enqueue_keeps; [exact Hi'|exact Hat'|done|done|done|]. intros w2 Hi2. by apply wp_ret. }
  repeat case_match; try (by eapply Hroute); try (by apply wp_ret); apply wp_bind; (eapply configure_keeps; [exact Hi|exact Hat|done..|]);
    intros w' Hi' Hat' _ _; [by apply wp_ret..| |]; by eapply Hroute.
Qed.

(** Numbers of new handles are in no queue: they come round after 2^32. *)
Definition new_ids (w : world) : Prop :=
  Z.of_nat (size (used_handles_ (hm w))) < 2 ^ 32 - 1 /\
  forall p ty o id m, HandleManager.CreateHandle p ty o (hm w) = Some (id, m) -> ops_of id (g_tcp w) = [] /\ res_of id (g_tcp w) = [].

(** The handle that is created. *)
Lemma wp_CreateHandle p ty o (R : Z -> world -> Prop) w : wf (hm w) -> new_ids w ->
  (forall id m, id <> 0 -> used_handles_ (hm w) !! id = None -> used_handles_ m = <[id := mkHandle ty p (Some o) false]> (used_handles_ (hm w)) -> wf m ->
    ops_of id (g_tcp w) = [] -> res_of id (g_tcp w) = [] -> R id (set_hm m w)) -> wp (CreateHandle p ty o) R w.
Proof.
  intros Hwf [Hroom Hnew] HR. unfold wp, CreateHandle.
  destruct (CreateHandle_spec p ty (Some o) (hm w) (wf_next _ Hwf) Hroom) as (k & Hfree & _ & Hc).
  destruct (wf_Create p ty (Some o) (hm w) Hwf Hroom) as (h' & st' & Hc' & Hwf'). rewrite Hc in Hc'. injection Hc' as <- Est. rewrite Hc.
  pose proof (hid_range (base_of (next_handle_ (hm w))) k) as [_ Hne]. destruct (Hnew _ _ _ _ _ Hc) as [H1 H2]. apply HR; try done. by rewrite Est.
Qed.

Lemma new_keeps : keeps_tcp Native_TcpNew (fun _ => new_ids).
Proof.
  intros evs ctx params w Hi Hn. apply wp_bind, wp_arg. intros ud _. apply wp_bind. unfold wp at 1, new_object. set (p := fresh_addr (objects w)).
  pose proof (fresh_addr_None (objects w)) as Hp. fold p in Hp. set (s := new_TcpSocket ctx ud). apply wp_bind, wp_CreateHandle; [apply Hi|exact Hn|].
  intros id m Hz Hf Hu Hwf Hops Hres. rewrite (proj2 (Z.eqb_neq _ _) Hz). apply wp_bind. change (set_hm m _) with (cur (set_hm m w) p s (g_tcp w)). apply w_assign, wp_ret.
  split; [exact Hwf|]. cbn [hm objects g_tcp cur set_tcp set_objects set_hm]. rewrite Hu, sockets_insert. apply new_handled; try done; [apply Hi|].
  unfold sockets. by rewrite lookup_omap, Hp.
Qed.

Context (has_function : positive -> Z -> bool) (uv_strerror ares_strerror : Z -> bytes).

End TcpSafe.
