(* ===== verification/TcpSteps.v ===== *)
(** * The event thread's TCP steps keep the sockets consistent

    One lemma per operation, resolution and callback of libuv. *)

From stdpp Require Import base numbers list gmap.
From Stdlib Require Import ZArith Lia.
From S2P Require Import Clock TcpSocket LinkedList LockedQueue MsgPack Prelude HandleManager NodePool DataMap DataValue Float Text DataNode HeaderMap HttpRequest EventLoop HttpState DataRefcount DataCopy JsonText JsonParse DataBuild DataHandle DataIterator Natives NativesJson NativesJsonSafe TcpLoop TcpState TcpSafe.

Import Tcp.

Section TcpSteps.

Context {MO : DataMap bytes} {MI : DataMap Z} {P : Type} {PA : NodeAllocator P} {M : Type} {PC : PluginContext M}.

#[local] Notation N := (N (P := P) (M := M)).
#[local] Notation world := (world (P := P) (M := M)).
#[local] Notation "x <- m ;; k" := (nbind m (fun x => k)) (at level 100, m at next level, right associativity).
#[local] Notation "m ;;; k" := (nbind m (fun _ => k)) (at level 100, right associativity).
Implicit Types (w : world) (s : TcpSocket) (t : TcpLoop) (u : uv_tcp_t) (p : positive) (id : Z).

(** ** Looking a socket up *)

(** A handle is free, and then not in the table, or has its socket. *)
Lemma owner_cases pre w id : tinv pre w -> tcp_sockets_ (g_tcp w) !! id = None \/ exists p s, socket_at w id p s.
Proof.
  intros Hi. destruct (used_handles_ (hm w) !! id) as [x|] eqn:E; [right|left].
  - destruct (tcp_handle pre w id x Hi E) as (s & Ho & _). exists (pointer x), s. split; [by exists x|done].
  - by destruct (unused_id _ _ _ _ id (V_tcp _ _ Hi) E).
Qed.

(** [tcp_sockets_.find]: the socket of the handle, or nothing. *)
Lemma wp_find pre id (R : option (positive * TcpSocket) -> world -> Prop) w : tinv pre w -> (tcp_sockets_ (g_tcp w) !! id = None -> R None w) ->
  (forall p s, socket_at w id p s -> tcp_sockets_ (g_tcp w) !! id = Some p -> R (Some (p, s)) w) -> wp (find_socket id) R w.
Proof.
  intros Hi HN HS. destruct (owner_cases pre w id Hi) as [E|(p & s & Hat)]; [unfold wp, find_socket; rewrite E; by apply HN|].
  destruct (start_at pre w id p s Hi Hat) as (Hb & Ew & tab & ops & res & closed & uv & A & Hok). rewrite Ew.
  eapply w_find; [exact A|apply Hok| |]; intros Et; rewrite <- Ew; [apply HN|apply HS; [done|]]; by rewrite (A_tab _ _ _ _ _ _ _ _ _ _ _ A).
Qed.

Context (uv_strerror ares_strerror : Z -> bytes).

(** Reporting an error changes nothing else. *)
Lemma w_error pre id p w0 s t tab ops res closed uv s' b code msg : base pre id p w0 -> at_view pre id p w0 s t tab ops res closed uv -> sock_ok tab ops res closed uv p s ->
  wp (push_error id s' b code msg) (fun _ => tinv pre) (cur w0 p s t).
Proof.
  intros Hb A Hok. eapply w_event; [exact A|done|done|done|]. intros t' A'. cbn in A'. rewrite app_nil_r in A'. by eapply finish.
Qed.

(** The socket of an operation that was taken out of the queue. *)
Lemma popped_reg pre w op p : tinv pre w -> popped (used_handles_ (hm w)) (sockets (objects w)) (g_tcp w) op -> op_ptr op = Some p ->
  exists s, socket_at w (op_id op) p s /\ regs (ops_of (op_id op) (g_tcp w)) = [] /\
    reg_ok (tcp_sockets_ (g_tcp w) !! op_id op) (res_of (op_id op) (g_tcp w)) (uv_of s (g_tcp w)) s op.
Proof.
  intros Hi [H1 H2] Hp. destruct (H1 p Hp) as (x & Hx & Ep). destruct (tcp_handle pre w _ x Hi Hx) as (s & Ho & _). exists s. rewrite Ep in Ho. split; [split; [by exists x|done]|].
  destruct (H2 x s Hx) as (Hr & _ & Hk); [rewrite Ep; by apply sockets_Some|]. split; [apply Hr; right; by eexists|apply Hk; by eexists].
Qed.

Section Process.

Context (pre : list SocketEvent) (w : world) (Hi : tinv pre w).

(** [emplace] and [find] of an operation that registers. *)
Lemma wp_register op p (k : option (positive * TcpSocket) -> N unit) : popped (used_handles_ (hm w)) (sockets (objects w)) (g_tcp w) op -> op_ptr op = Some p ->
  (forall s t' tab ops res closed uv, socket_at w (op_id op) p s -> base pre (op_id op) p w -> sock_ok tab ops res closed uv p s -> regs ops = [] -> reg_ok tab res uv s op ->
    at_view pre (op_id op) p w s t' (Some p) ops res closed uv -> wp (k (Some (p, s))) (fun _ => tinv pre) (cur w p s t')) ->
  wp (emplace (op_id op) p;;; (sock <- find_socket (op_id op);; k sock)) (fun _ => tinv pre) w.
Proof using Hi.
  intros Hpop Hp Hk. destruct (popped_reg pre w op p Hi Hpop Hp) as (s & Hat & Hregs & Hreg).
  destruct (start_at pre w _ p s Hi Hat) as (Hb & Ew & tab & ops & res & closed & uv & A & Hok). pose proof A as [_ _ _ A4 A5 A6 _ A8].
  rewrite A5 in Hregs. rewrite A4, A6, A8 in Hreg. rewrite Ew at 1. apply wp_bind. eapply w_emplace; [exact A|]. intros t' A'.
  assert (match tab with Some _ => tab | None => Some p end = Some p) as Et by (destruct (S_tab _ _ _ _ _ _ _ Hok) as [->| ->]; done). rewrite Et in A'.
  apply wp_bind. eapply w_find; [exact A'|by right|done|]. intros _. by eapply Hk.
Qed.

Lemma ProcessTcpConnect_keeps id host port p : popped (used_handles_ (hm w)) (sockets (objects w)) (g_tcp w) (CONNECT id host port p) ->
  wp (ProcessTcpConnect id host port p) (fun _ => tinv pre) w.
Proof using Hi.
  intros Hpop. apply (wp_register _ p _ Hpop eq_refl). intros s t' tab ops res closed uv Hat Hb Hok Hregs [Hst ->] A. cbn [op_id] in *.
  assert (forall s' res', early (state s') = true -> uv_handle s' = uv_handle s -> handle_closed s' = handle_closed s -> (length res' <= 1)%nat ->
    (handle_closed s = false -> Forall (res_ok s') res') -> sock_ok (Some p) ops res' closed uv p s') as Hnext.
  { intros s' res' He Hu Hc Hl Hr. eapply early_next; [exact Hok|done|by rewrite Hst|done..|by right|done|done]. }
  destruct (handle_closed s) eqn:Ec.
  - apply wp_ret. eapply finish; [done|exact A|]. apply Hnext; [by rewrite Hst|done|done|cbn; lia|done].
  - apply wp_bind. eapply w_upd; [exact A|done|done|]. intros A1. eapply w_resolve; [exact A1|done|]. intros t2 A2. eapply finish; [done|exact A2|].
    apply Hnext; [done|done|done|cbn; lia|]. intros _. by apply Forall_singleton.
Qed.

Lemma ProcessTcpListen_keeps id host port accept backlog p :
  popped (used_handles_ (hm w)) (sockets (objects w)) (g_tcp w) (LISTEN id host port accept backlog p) ->
  wp (ProcessTcpListen id host port accept backlog p) (fun _ => tinv pre) w.
Proof using Hi.
  intros Hpop. apply (wp_register _ p _ Hpop eq_refl). intros s t' tab ops res closed uv Hat Hb Hok Hregs (Hst & -> & _ & Hnu) A. cbn [op_id] in *.
  destruct (handle_closed s) eqn:Ec.
  - apply wp_ret. eapply finish; [done|exact A|]. eapply early_next; [exact Hok|done|by rewrite Hst..|done|done|by right|cbn; lia|]. by rewrite Ec.
  - apply wp_bind. eapply w_upd; [exact A|done|done|]. intros A1. eapply w_resolve; [exact A1|done|]. intros t2 A2. eapply finish; [done|exact A2|].
    eapply early_next; [exact Hok|done|by rewrite Hst|cbn; by rewrite Hst|done|done|by right|cbn; lia|]. intros _. by apply Forall_singleton.
Qed.

Lemma ProcessTcpBind_keeps id host port p : popped (used_handles_ (hm w)) (sockets (objects w)) (g_tcp w) (BIND id host port p) ->
  wp (ProcessTcpBind id host port p) (fun _ => tinv pre) w.
Proof using Hi.
  intros Hpop. apply (wp_register _ p _ Hpop eq_refl). intros s t' tab ops res closed uv Hat Hb Hok Hregs (Hst & ->) A. cbn [op_id] in *.
  destruct (handle_closed s) eqn:Ec.
  - apply wp_ret. eapply finish; [done|exact A|]. eapply early_next; [exact Hok|done|by rewrite Hst..|done|done|by right|cbn; lia|]. by rewrite Ec.
  - eapply w_resolve; [exact A|done|]. intros t2 A2. eapply finish; [done|exact A2|].
    eapply early_next; [exact Hok|done|by rewrite Hst..|done|done|by right|cbn; lia|]. intros _. by apply Forall_singleton.
Qed.

Lemma ProcessTcpAcceptConfig_keeps id a b c d p : popped (used_handles_ (hm w)) (sockets (objects w)) (g_tcp w) (ACCEPT_CONFIG id a b c d p) ->
  wp (ProcessTcpAcceptConfig id a b c d p) (fun _ => tinv pre) w.
Proof using Hi.
  intros Hpop. apply (wp_register _ p _ Hpop eq_refl). intros s t' tab ops res closed uv Hat Hb Hok Hregs (Hst & -> & u & -> & I1 & I2 & I3 & I4) A. cbn [op_id] in *.
  pose proof (S_uv _ _ _ _ _ _ _ Hok) as Hu. assert (forall u', uv_data u' = uv_data u -> uv_closing u' = uv_closing u -> uv_connect u' = None -> uv_writes u' = [] ->
    sock_ok (Some p) ops res closed (Some u') p (set_on_close d (set_on_error c (set_on_data b (set_on_connect a s))))) as Hnext.
  { intros u' E1 E2 E3 E4. eapply sock_ok_step; [exact Hok|done|by rewrite Hst|cbn; by rewrite Hst|by right|done| |apply Hok|].
    - cbn. destruct (uv_handle s); [|by rewrite Hst]. destruct Hu as (u0 & [= <-] & [U1 U2 U3 U4 U5]). exists u'. split; [done|].
      split; cbn; rewrite ?E1, ?E2, ?E3, ?E4, ?Hst; try done; [by rewrite Hst in U2|by left|]. split; [by apply Forall_nil|by left].
    - intros Hc. eapply Forall_impl; [exact (proj2 (S_res _ _ _ _ _ _ _ Hok) Hc)|]. by intros [| |]. }
  apply wp_bind. eapply w_upd; [exact A|done|done|]. intros A1. destruct (uv_handle s) as [h|] eqn:Hh; [|apply wp_ret; eapply finish; [done|exact A1|by apply Hnext]].
  destruct (handle_closed s) eqn:Ec; [apply wp_ret; eapply finish; [done|exact A1|by apply Hnext]|].
  destruct Hu as (u0 & [= <-] & Hu). pose proof (uv_not_closing _ _ _ Hu ltac:(by rewrite Hst)) as Hcn. pose proof (U_data _ _ _ Hu) as U1.
  unfold uv_read_start. eapply w_uv_change; [exact A1|exact Hh|done|done|done|done|by left|]. intros t2 A2. eapply finish; [done|exact A2|]. by apply Hnext.
Qed.

(** The socket is closed, or libuv will call back when it is. *)
Definition closing_or_closed p (w' : world) : Prop := exists s, objects w' !! p = Some (OTcpSocket s) /\
  (state s = CLOSED \/ state s = CLOSING /\ exists h u, uv_handle s = Some h /\ uv_handles (g_tcp w') !! h = Some u /\ uv_closing u = Some CB_OnTcpClosed).

Lemma closing_has_uv tab ops res closed uv p s t w0 id : at_view pre id p w0 s t tab ops res closed uv -> sock_ok tab ops res closed uv p s -> state s = CLOSING ->
  closing_or_closed p (cur w0 p s t).
Proof.
  intros A Hok Hst. exists s. split; [cbn; by rewrite lookup_insert_eq|]. right. split; [done|]. pose proof (S_uv _ _ _ _ _ _ _ Hok) as Hu. destruct (uv_handle s) as [h|] eqn:Hh; [|done].
  destruct Hu as (u & -> & Hu). pose proof (A_uv _ _ _ _ _ _ _ _ _ _ _ A) as E. unfold uv_of in E. rewrite Hh in E. exists h, u. split_and!; [done|done|].
  pose proof (U_closing _ _ _ Hu) as Hc. by destruct (uv_closing u) as [[| | |]|].
Qed.

Lemma finish_closing tab ops res closed uv p s t w0 id : base pre id p w0 -> at_view pre id p w0 s t tab ops res closed uv -> state s = CLOSING ->
  sock_ok tab ops res closed uv p s -> tinv pre (cur w0 p s t) /\ closing_or_closed p (cur w0 p s t).
Proof. intros Hb A Hst Hok. split; [by eapply finish|by eapply closing_has_uv]. Qed.

Lemma ProcessTcpClose_keeps id : popped (used_handles_ (hm w)) (sockets (objects w)) (g_tcp w) (CLOSE id) ->
  wp (ProcessTcpClose id) (fun _ w' => tinv pre w' /\ forall p, tcp_sockets_ (g_tcp w) !! id = Some p -> closing_or_closed p w') w.
Proof using Hi.
  intros [_ Hfacts]. apply wp_bind. eapply wp_find; [exact Hi|intros E; apply wp_ret; split; [done|by rewrite E]|]. intros p s Hat Htab. cbn [op_id] in Hfacts.
  destruct Hat as [(x & Hx & Hp) Ho]. destruct (Hfacts x s Hx) as (Hregs & Hcl & _); [rewrite Hp; by apply sockets_Some|]. specialize (Hregs (or_introl eq_refl)). specialize (Hcl eq_refl).
  destruct (start pre w id x p s Hi Hx Hp Ho) as (Hb & Ew & tab & ops & res & closed & uv & A & Hok). pose proof A as [_ _ Hid _ A5 _ _ _]. rewrite A5 in Hregs.
  assert (forall p', tcp_sockets_ (g_tcp w) !! id = Some p' -> p' = p) as Hpp by congruence.
  case_bool_decide as Hs1; [cbn [orb]; apply wp_ret; split; [done|]; intros p' ->%Hpp; rewrite Ew; by eapply closing_has_uv|].
  case_bool_decide as Hs2; cbn [orb]; [apply wp_ret; split; [done|]; intros p' ->%Hpp; exists s; split; [done|by left]|]. rewrite Ew at 1. apply wp_bind. eapply w_upd; [exact A|done|done|]. intros A1.
  pose proof (S_uv _ _ _ _ _ _ _ Hok) as Hu. destruct (uv_handle s) as [h|] eqn:Hh.
  - destruct Hu as (u & -> & Hu). pose proof (uv_not_closing _ _ _ Hu ltac:(done)) as Hcn. destruct Hu as [U1 U2 U3 U4 [U5 U6]].
    apply wp_bind. unfold uv_read_stop. eapply w_uv_change; [exact A1|exact Hh|done|done|done|done|by left|]. intros t2 A2.
    unfold uv_close. eapply w_uv_change; [exact A2|exact Hh|done|done|done|done|by right|]. intros t3 A3. match goal with |- tinv _ ?w' /\ _ => enough (tinv pre w' /\ closing_or_closed p w') as [Hi' Hcc] by (split; [done|by intros p' ->%Hpp]) end.
    eapply finish_closing; [done|exact A3|done|].
    eapply sock_ok_step; [exact Hok|done|done|done|apply Hok|done| |apply Hok|by rewrite Hcl]. cbn. rewrite Hh. eexists. split; [done|].
    split; cbn; try done; [destruct U4 as [?|[? _]]; [by left|right; split; [done|by right]]|]. split; [done|]. right. by right.
  - apply wp_bind. eapply w_upd; [exact A1|done|done|]. intros A2. apply wp_bind. eapply w_event; [exact A2|exact Hid|done|done|]. intros t3 A3. cbn in A3.
    eapply w_erase; [exact A3|]. intros t4 A4. split; [|intros p' ->%Hpp; eexists; split; [cbn; by rewrite lookup_insert_eq|by left]]. eapply finish; [done|exact A4|]. destruct Hok as [H1 H2 H3 H4 [H5 H5'] H6 H7 [H8 H8']]. rewrite decide_False in H3 by done.
    split; cbn; rewrite ?Hh; try done; [by left|rewrite length_app, H3; done|rewrite Hregs; split; [cbn; lia|by apply Forall_nil]|split; [done|by rewrite Hcl]].
Qed.

Lemma ProcessTcpSend_keeps id data rc : wp (ProcessTcpSend uv_strerror id data rc) (fun _ => tinv pre) w.
Proof using Hi.
  apply wp_bind. eapply wp_find; [exact Hi|done|]. intros p s Hat Htab.
  destruct (start_at pre w id p s Hi Hat) as (Hb & Ew & tab & ops & res & closed & uv & A & Hok). pose proof A as [_ _ Hid A4 _ _ _ _].
  destruct (handle_closed s || negb (bool_decide (state s = CONNECTED))) eqn:Ec; [by apply wp_ret|]. apply orb_false_iff in Ec as [Ec Est].
  apply negb_false_iff, bool_decide_eq_true_1 in Est. destruct (uv_handle s) as [h|] eqn:Hh; [|by apply wp_ret].
  assert (regs ops = []) as Hregs by (eapply regs_none; [exact Hok|by rewrite Est|left; by rewrite <- A4, Htab]).
  pose proof (S_uv _ _ _ _ _ _ _ Hok) as Hu. rewrite Hh in Hu. destruct Hu as (u & -> & Hu). pose proof (uv_not_closing _ _ _ Hu ltac:(by rewrite Est)) as Hcn.
  rewrite Ew. apply wp_bind. unfold uv_write. apply wp_bind. eapply w_uv_open; [exact A|done..|]. destruct (Z.eqb_spec rc 0) as [->|Hne].
  - apply wp_bind. destruct Hu as [U1 U2 U3 U4 [U5 U6]]. eapply w_uv_put; [exact A|done|done|done|done|by left|]. intros t' A'. apply wp_ret. cbn. apply wp_ret.
    eapply finish; [done|exact A'|]. eapply sock_ok_uv; [exact Hok|done|by rewrite Est|]. rewrite Hh. eexists. split; [done|].
    split; cbn; rewrite ?Est; try done; [rewrite Est in U4; destruct U4 as [?|[_ [?|?]]]; [by left|done..]|]. split; [|by right; left].
    apply Forall_app. split; [done|by apply Forall_singleton].
  - apply wp_ret. rewrite (proj2 (Z.eqb_neq _ _) Hne). cbn. rewrite Hid. by eapply w_error.
Qed.

Lemma ProcessTcpSetOption_keeps id option value : wp (ProcessTcpSetOption id option value) (fun _ => tinv pre) w.
Proof using Hi.
  apply wp_bind. eapply wp_find; [exact Hi|done|]. intros p s Hat Htab. destruct (option =? 0).
  - eapply configure_keeps; [exact Hi|exact Hat|done..|]. by intros w' Hi'.
  - destruct (start_at pre w id p s Hi Hat) as (Hb & Ew & tab & ops & res & closed & uv & A & Hok). pose proof (S_uv _ _ _ _ _ _ _ Hok) as Hu.
    destruct (uv_handle s) as [h|] eqn:Hh; [|by apply wp_ret]. destruct (_ || _); [|by apply wp_ret]. destruct Hu as (u & -> & Hu). rewrite Ew at 1. apply wp_bind.
    eapply w_uv_get; [exact A|done..|]. apply wp_ret. by rewrite <- Ew.
Qed.

End Process.

(** ** Resolutions *)

Section Resolutions.

Context (pre : list SocketEvent) (w : world) (Hi : tinv pre w).

(** The socket a resolution that ended was for. *)
Lemma wp_resolved r (k : option (positive * TcpSocket) -> N unit) : resolved (used_handles_ (hm w)) (sockets (objects w)) (g_tcp w) r -> wp (k None) (fun _ => tinv pre) w ->
  (forall p s, handle_closed s = true -> wp (k (Some (p, s))) (fun _ => tinv pre) w) ->
  (forall p s ops closed uv, base pre (res_id r) p w -> w = cur w p s (g_tcp w) -> sock_ok (Some p) ops [] closed uv p s -> regs ops = [] -> handle_closed s = false -> res_ok s r ->
    at_view pre (res_id r) p w s (g_tcp w) (Some p) ops [] closed uv -> wp (k (Some (p, s))) (fun _ => tinv pre) w) ->
  wp (sock <- find_socket (res_id r);; k sock) (fun _ => tinv pre) w.
Proof using Hi.
  intros Hr HN HC HS. apply wp_bind. eapply wp_find; [exact Hi|done|]. intros p s Hat Htab. destruct (handle_closed s) eqn:Ec; [by apply HC|].
  pose proof Hat as [(x & Hx & Hp) Ho]. destruct (Hr x s Hx) as (H1 & H2 & H3); [rewrite Hp; by apply sockets_Some|done|].
  destruct (start_at pre w _ p s Hi Hat) as (Hb & Ew & tab & ops & res & closed & uv & A & Hok). pose proof A as [_ _ _ A4 A5 A6 _ _].
  rewrite A5 in H3. rewrite A6 in H2. rewrite A4 in Htab. subst tab res. by eapply HS.
Qed.

Lemma connect_resolved_keeps id host port status rc : resolved (used_handles_ (hm w)) (sockets (objects w)) (g_tcp w) (R_connect id host port) ->
  wp (connect_resolved uv_strerror ares_strerror id status rc) (fun _ => tinv pre) w.
Proof using Hi.
  intros Hr. eapply (wp_resolved _ _ Hr); [by apply wp_ret|intros p s Hc; rewrite Hc; by apply wp_ret|].
  intros p s ops closed uv Hb Ew Hok Hregs Hc Hst A. cbn [res_id res_ok] in *. rewrite Hc. destruct (Z.eqb_spec status 0) as [->|Hne]; cbn [negb]; rewrite Ew; [|by eapply w_error].
  apply wp_bind. eapply w_ensure; [exact A|intros h Hh; eapply early_uv; [exact Hok|by rewrite Hst|done]|]. intros h t1 u A1 (Q1 & Q2 & Q3 & Q4 & Q5).
  apply wp_bind. eapply w_upd; [exact A1|done|done|]. intros A2.
  assert (forall u', uv_data u' = p -> uv_closing u' = None -> uv_writes u' = [] -> uv_reading u' = false -> uv_connect u' = None \/ uv_connect u' = Some p ->
    sock_ok (Some p) ops [] closed (Some u') p (set_state CONNECTING (set_uv_handle (Some h) s))) as Hnext.
  { intros u' E1 E2 E3 E4 E5. eapply sock_ok_step; [exact Hok|done|by rewrite Hst|done|by right|done| |cbn; lia|intros; by apply Forall_nil]. cbn. exists u'. split; [done|].
    split; cbn; rewrite ?E2, ?E3, ?E4; try done; [destruct E5; [by left|right; split; [done|by left]]|]. split; [by apply Forall_nil|by left]. }
  apply wp_bind. unfold uv_tcp_connect. apply wp_bind. eapply w_uv_open; [exact A2|done..|]. destruct (Z.eqb_spec rc 0) as [->|Hrc].
  - apply wp_bind. eapply w_uv_put; [exact A2|done|done|done|done|by left|]. intros t3 A3. apply wp_ret. cbn. apply wp_ret. eapply finish; [done|exact A3|]. apply Hnext; try done. by right.
  - apply wp_ret. rewrite (proj2 (Z.eqb_neq _ _) Hrc). cbn. eapply w_error; [done|exact A2|]. apply Hnext; try done. by left.
Qed.

(** A failed [uv_tcp_bind] or [uv_listen]. *)
Lemma w_fail id p t s s' ops closed u h code msg : base pre id p w -> at_view pre id p w (set_uv_handle (Some h) s) t (Some p) ops [] closed (Some u) -> quiet p u ->
  (exists uv0, sock_ok (Some p) ops [] closed uv0 p s) -> regs ops = [] -> state s = CREATED -> wp (CloseTcpHandle p;;; push_error id s' false code msg) (fun _ => tinv pre) (cur w p (set_uv_handle (Some h) s) t).
Proof.
  intros Hb A (Q1 & Q2 & Q3 & Q4 & Q5) [uv0 Hok] Hregs Hst. apply wp_bind. eapply w_CloseTcpHandle; [exact A|done..|]. intros t' A'. eapply w_error; [done|exact A'|].
  eapply sock_ok_step; [exact Hok|done|by rewrite Hst|cbn; by rewrite Hst|by right|done|cbn; by rewrite Hst|cbn; lia|]. intros _. by apply Forall_nil.
Qed.

Lemma bind_resolved_keeps id host port status rc : resolved (used_handles_ (hm w)) (sockets (objects w)) (g_tcp w) (R_bind id host port) ->
  wp (bind_resolved uv_strerror ares_strerror id status rc) (fun _ => tinv pre) w.
Proof using Hi.
  intros Hr. eapply (wp_resolved _ _ Hr); [by apply wp_ret|intros p s Hc; rewrite Hc; by apply wp_ret|].
  intros p s ops closed uv Hb Ew Hok Hregs Hc Hst A. cbn [res_id res_ok] in *. rewrite Hc. destruct (Z.eqb_spec status 0) as [->|Hne]; cbn [negb]; rewrite Ew; [|by eapply w_error].
  apply wp_bind. eapply w_ensure; [exact A|intros h Hh; eapply early_uv; [exact Hok|by rewrite Hst|done]|]. intros h t1 u A1 Hq. pose proof Hq as (_ & Q2 & _).
  apply wp_bind. unfold uv_tcp_bind. apply wp_bind. eapply w_uv_open; [exact A1|done..|]. apply wp_ret. destruct (Z.eqb_spec rc 0) as [->|Hrc]; cbn [negb].
  - apply wp_ret. eapply finish; [done|exact A1|]. eapply sock_ok_step; [exact Hok|done|by rewrite Hst|cbn; by rewrite Hst|by right|done| |cbn; lia|intros; by apply Forall_nil].
    exists u. split; [done|]. apply quiet_ok; [done|]. cbn. by rewrite Hst.
  - eapply w_fail; [done|exact A1|done|by exists uv|done|done].
Qed.

Lemma listen_resolved_keeps id backlog host port status rc rc' : resolved (used_handles_ (hm w)) (sockets (objects w)) (g_tcp w) (R_listen id backlog host port) ->
  wp (listen_resolved uv_strerror ares_strerror id status rc rc') (fun _ => tinv pre) w.
Proof using Hi.
  intros Hr. eapply (wp_resolved _ _ Hr); [by apply wp_ret|intros p s Hc; rewrite Hc; by apply wp_ret|].
  intros p s ops closed uv Hb Ew Hok Hregs Hc [Hst Hnu] A. cbn [res_id res_ok] in *. rewrite Hc. destruct (Z.eqb_spec status 0) as [->|Hne]; cbn [negb]; rewrite Ew; [|by eapply w_error].
  eapply w_new_uv; [exact A|done|]. intros h t1 A1. apply wp_bind, w_load. apply wp_bind. eapply w_options; [exact A1|done..|]. apply wp_bind. unfold uv_tcp_bind. apply wp_bind.
  eapply w_uv_open; [exact A1|done..|]. apply wp_ret. destruct (Z.eqb_spec rc 0) as [->|Hrc]; cbn [negb]; [|by eapply w_fail; [done|exact A1|done|by exists uv|done|done]].
  apply wp_bind. unfold uv_listen. apply wp_bind. eapply w_uv_open; [exact A1|done..|]. destruct (Z.eqb_spec rc' 0) as [->|Hrc].
  - apply wp_bind. eapply w_uv_put; [exact A1|done|done|done|done|by left|]. intros t2 A2. apply wp_ret. cbn. eapply w_upd; [exact A2|done|done|]. intros A3. eapply finish; [done|exact A3|].
    eapply sock_ok_step; [exact Hok|done|by rewrite Hst|done|by right|done| |cbn; lia|intros; by apply Forall_nil]. cbn. eexists. split; [done|]. by apply quiet_ok.
  - apply wp_ret. rewrite (proj2 (Z.eqb_neq _ _) Hrc). cbn. eapply w_fail; [done|exact A1|done|by exists uv|done|done].
Qed.

End Resolutions.

(** ** Callbacks of libuv *)

Section Callbacks.

Context (pre : list SocketEvent) (w : world) (Hi : tinv pre w) (h : positive) (u : uv_tcp_t) (Hu : uv_handles (g_tcp w) !! h = Some u).

(** A handle libuv works on belongs to a socket with a handle. *)
Lemma uv_owner : ~ idle u \/ uv_closing u = Some CB_OnTcpClosed -> exists id s, socket_at w id (uv_data u) s /\ uv_handle s = Some h.
Proof using Hi Hu.
  intros Hb. pose proof (V_tcp _ _ Hi) as Ht. destruct (T_uv _ _ _ _ Ht h u Hu) as [[E I]|(s & Hs & Hh & _ & Hc)]; [by destruct Hb; [|congruence]|].
  destruct (T_sock _ _ _ _ Ht _ s Hs) as [(x & Hx & Ep)|[Hw|(_ & h' & u' & Hh' & Hu' & _ & Hc')]].
  - exists (handle_id s), s. split; [|done]. split; [by exists x|by apply sockets_Some].
  - destruct (proj2 (T_waiting _ _ _ _ Ht) _ Hw) as (s' & Hs' & _ & _ & h' & u' & Hh' & Hu' & _ & Hcn & Hid). assert (h' = h) as -> by congruence.
    assert (u' = u) as -> by congruence. by destruct Hb; [|congruence].
  - assert (h' = h) as -> by congruence. assert (u' = u) as -> by congruence. destruct (Hc Hc') as (_ & _ & I). by destruct Hb; [|congruence].
Qed.

(** The callback starts with the socket of the handle. *)
Lemma start_callback : ~ idle u \/ uv_closing u = Some CB_OnTcpClosed -> exists id s tab ops res closed,
  base pre id (uv_data u) w /\ w = cur w (uv_data u) s (g_tcp w) /\ uv_handle s = Some h /\ handle_id s = id /\ uv_ok (uv_data u) s u /\
  at_view pre id (uv_data u) w s (g_tcp w) tab ops res closed (Some u) /\ sock_ok tab ops res closed (Some u) (uv_data u) s /\
  (~ idle u -> state s <> CREATED -> regs ops = []).
Proof using Hi Hu.
  intros Hb. destruct (uv_owner Hb) as (id & s & Hat & Hh). destruct (start_at pre w id _ s Hi Hat) as (Hbase & Ew & tab & ops & res & closed & uv & A & Hok).
  pose proof A as [_ _ Hid _ _ _ _ A8]. unfold uv_of in A8. rewrite Hh in A8. cbn in A8. rewrite Hu in A8. subst uv. exists id, s, tab, ops, res, closed.
  pose proof (S_uv _ _ _ _ _ _ _ Hok) as Hx. rewrite Hh in Hx. destruct Hx as (u' & [= <-] & Huv). split_and!; try done.
  intros Hn Hst. eapply regs_none; [exact Hok|done|]. intros _. right. by exists u.
Qed.

Lemma OnTcpConnected_keeps status : is_Some (uv_connect u) -> (status = 0 -> uv_closing u = None) -> wp (OnTcpConnected uv_strerror h status) (fun _ => tinv pre) w.
Proof using Hi Hu.
  intros [q Hq] Hs0. destruct start_callback as (id & s & tab & ops & res & closed & Hb & Ew & Hh & Hid & Huv & A & Hok & Hr); [left; by intros (I1 & _); congruence|].
  set (p := uv_data u) in *. destruct (U_connect _ _ _ Huv) as [?|[Ep Hst]]; [congruence|]. assert (q = p) as -> by congruence.
  assert (state s <> CREATED /\ state s <> CLOSED) as [Hn1 Hn2] by (by destruct Hst as [-> | ->]). assert (regs ops = []) as Hregs by (apply Hr; [by intros (I1 & _); congruence|done]).
  rewrite Ew. apply wp_bind. eapply w_uv_get; [exact A|done..|]. rewrite Hq. apply wp_bind. pose proof Huv as [U1 U2 U3 U4 [U5 U6]].
  assert (uv_closing u = None \/ uv_closing u = Some CB_OnTcpClosed) as Hcl by (destruct (uv_closing u) as [[| | |]|]; auto; done).
  eapply w_uv_put; [exact A|done|done|done|done|done|]. intros t1 A1.
  assert (sock_ok tab ops res closed (Some (mkUv (uv_data u) (uv_closing u) (uv_reading u) (uv_listening u) None (uv_writes u))) p s) as Hok1.
  { eapply sock_ok_uv; [exact Hok|done|done|]. rewrite Hh. eexists. split; [done|]. split; cbn; try done. by left. }
  apply wp_bind, w_load. apply wp_bind. rewrite Hh. apply wp_nonnull. apply wp_bind. eapply w_uv_get; [exact A1|done|done|].
  destruct (handle_closed s) eqn:Ec; [apply wp_ret; by eapply finish|]. rewrite Hid. destruct (Z.eqb_spec status 0) as [Es|Hne]; cbn [negb]; [|by eapply w_error].
  specialize (Hs0 Es). rewrite Hs0 in U2. assert (state s = CONNECTING) as Hst' by (by destruct Hst).
  apply wp_bind. eapply w_upd; [exact A1|done|done|]. intros A2. apply wp_bind. unfold uv_read_start. eapply w_uv_change; [exact A2|done|done|done|done|done|by left|]. intros t3 A3.
  eapply w_event; [exact A3|done|done|done|]. intros t4 A4. cbn in A4. rewrite app_nil_r in A4. eapply finish; [done|exact A4|].
  rewrite (res_none _ _ _ _ _ _ _ Hok Ec) by (by rewrite Hst'). eapply sock_ok_step; [exact Hok|done|done|done|apply Hok|done| |cbn; lia|intros; by apply Forall_nil].
  cbn. rewrite Hh. eexists. split; [done|]. split; cbn; try done; [by left|]. split; [done|]. right. by left.
Qed.

Lemma OnTcpAllocBuffer_keeps : uv_reading u = true -> wp (OnTcpAllocBuffer h) (fun n w' => w' = w /\ 0 < n) w.
Proof using Hi Hu.
  intros Hrd. destruct start_callback as (id & s & tab & ops & res & closed & Hb & Ew & Hh & Hid & Huv & A & Hok & Hr); [left; by intros (_ & _ & I3 & _); congruence|].
  rewrite Ew. apply wp_bind. eapply w_uv_get; [exact A|done..|]. apply wp_bind, w_load. apply wp_ret. split; [done|].
  unfold alloc_size, positive_or. destruct (Z.gtb_spec (max_chunk_size s) 0); lia.
Qed.

Lemma w_push_all id p s t tab ops res closed uv es : base pre id p w -> at_view pre id p w s t tab ops res closed uv -> sock_ok tab ops res closed uv p s ->
  Forall (fun e => e_handle_id e = id /\ e_type e = TCP_DATA /\ e_accepted e = None) es -> wp (push_all es) (fun _ => tinv pre) (cur w p s t).
Proof.
  intros Hb A Hok HF. revert t A. induction es as [|e es IH]; intros t A; [apply wp_ret; by eapply finish|]. apply Forall_cons in HF as [(E1 & E2 & E3) HF].
  cbn. apply wp_bind. eapply w_event; [exact A|done|by rewrite E2|done|]. intros t' A'. rewrite decide_False, app_nil_r in A' by (by rewrite E2). by apply IH.
Qed.

Lemma OnTcpRead_keeps r : uv_reading u = true -> wp (OnTcpRead uv_strerror h r) (fun _ => tinv pre) w.
Proof using Hi Hu.
  intros Hrd. assert (~ idle u) as Hni by (intros (_ & _ & I3 & _); congruence).
  destruct start_callback as (id & s & tab & ops & res & closed & Hb & Ew & Hh & Hid & Huv & A & Hok & Hr); [by left|].
  pose proof (U_reading _ _ _ Huv Hrd) as Hst. pose proof (uv_not_closing _ _ _ Huv ltac:(by rewrite Hst)) as Hcn. assert (regs ops = []) as Hregs by (apply Hr; [done|by rewrite Hst]).
  rewrite Ew. apply wp_bind. eapply w_uv_get; [exact A|done..|]. destruct r as [data| |code|].
  - apply wp_bind, w_load. eapply w_push_all; [done|exact A|exact Hok|]. destruct (handle_closed s); [by apply Forall_nil|].
    apply Forall_forall. intros e (d & -> & _)%list_elem_of_fmap. done.
  - destruct Huv as [U1 U2 U3 U4 [U5 U6]]. apply wp_bind. unfold uv_read_stop. eapply w_uv_change; [exact A|done|done|done|done|done|by left|]. intros t1 A1.
    apply wp_bind. eapply w_upd; [exact A1|done|done|]. intros A2. apply wp_bind, w_load. apply wp_bind. cbn [uv_handle set_state]. rewrite Hh. apply wp_nonnull.
    unfold uv_close. eapply w_uv_change; [exact A2|exact Hh|done|done|done|done|by right|]. intros t3 A3. eapply finish; [done|exact A3|].
    eapply sock_ok_step; [exact Hok|done|by rewrite Hst|done|apply Hok|done| |apply Hok|].
    + cbn. rewrite Hh. eexists. split; [done|]. rewrite Hst in U4. split; cbn; try done; [destruct U4 as [?|[_ [?|?]]]; [by left|done..]|]. split; [done|]. right. by right.
    + intros Hc. rewrite (res_none _ _ _ _ _ _ _ Hok Hc) by (by rewrite Hst). by apply Forall_nil.
  - apply wp_bind, w_load. rewrite Hid. by eapply w_error.
  - apply wp_ret. by rewrite <- Ew.
Qed.

Lemma OnTcpWriteDone_keeps status : uv_writes u <> [] -> wp (OnTcpWriteDone uv_strerror h status) (fun _ => tinv pre) w.
Proof using Hi Hu.
  intros Hwr. assert (~ idle u) as Hni by (by intros (_ & I2 & _)).
  destruct start_callback as (id & s & tab & ops & res & closed & Hb & Ew & Hh & Hid & Huv & A & Hok & Hr); [by left|].
  pose proof Huv as [U1 U2 U3 U4 [U5 U6]]. destruct (uv_writes u) as [|[q sent] rest] eqn:Ewr; [done|]. apply Forall_cons in U5 as [Eq U5]. cbn in Eq. subst q. destruct U6 as [?|Hst]; [done|].
  assert (state s <> CREATED /\ state s <> CLOSED) as [Hn1 Hn2] by (by destruct Hst as [-> | ->]). assert (regs ops = []) as Hregs by (by apply Hr).
  assert (uv_closing u = None \/ uv_closing u = Some CB_OnTcpClosed) as Hcl by (destruct (uv_closing u) as [[| | |]|]; auto; done).
  rewrite Ew. apply wp_bind. eapply w_uv_get; [exact A|done..|]. rewrite Ewr. apply wp_bind. eapply w_uv_put; [exact A|done|done|done|done|done|]. intros t1 A1.
  assert (sock_ok tab ops res closed (Some (mkUv (uv_data u) (uv_closing u) (uv_reading u) (uv_listening u) (uv_connect u) rest)) (uv_data u) s) as Hok1.
  { eapply sock_ok_uv; [exact Hok|done|done|]. rewrite Hh. eexists. split; [done|]. split; cbn; try done. split; [done|by right]. }
  apply wp_bind, w_load. apply wp_bind. rewrite Hh. apply wp_nonnull. apply wp_bind. eapply w_uv_get; [exact A1|done|done|].
  destruct (_ && _); [rewrite Hid; by eapply w_error|]. apply wp_ret. by eapply finish.
Qed.

Lemma OnTcpClosed_keeps : uv_closing u = Some CB_OnTcpClosed -> uv_connect u = None -> uv_writes u = [] ->
  wp (OnTcpClosed h) (fun _ w' => tinv pre w' /\ exists s, objects w' !! uv_data u = Some (OTcpSocket s) /\ state s = CLOSED) w.
Proof using Hi Hu.
  intros Hc Hco Hwr. destruct start_callback as (id & s & tab & ops & res & closed & Hb & Ew & Hh & Hid & Huv & A & Hok & Hr); [by right|].
  pose proof (U_closing _ _ _ Huv) as Hst. rewrite Hc in Hst. assert (regs ops = []) as Hregs by (eapply regs_none; [exact Hok|by rewrite Hst|by rewrite Hst]).
  rewrite Ew. apply wp_bind. eapply w_uv_get; [exact A|done..|]. apply wp_bind. eapply w_upd; [exact A|done|done|]. intros A1. apply wp_bind, w_load. apply wp_bind.
  cbn [uv_handle set_state]. rewrite Hh. apply wp_nonnull. eapply w_delete_uv; [exact A1|done|done|done|]. intros t2 A2. apply wp_bind. eapply w_event; [exact A2|exact Hid|done|done|].
  intros t3 A3. cbn [handle_id set_state]. rewrite Hid. eapply w_erase; [exact A3|]. intros t4 A4.
  split; [|eexists; split; [cbn; by rewrite lookup_insert_eq|done]]. eapply finish; [done|exact A4|]. cbn [e_type push_closed MakeSocketEvent].
  destruct Hok as [H1 H2 H3 H4 [H5 H5'] H6 H7 [H8 H8']]. rewrite decide_False in H3 by (by rewrite Hst).
  split; cbn; try done; [by left|rewrite length_app, H3; done|rewrite Hregs; split; [cbn; lia|by apply Forall_nil]|]. split; [done|].
  intros Hcl. specialize (H8' Hcl). destruct res as [|r res]; [by apply Forall_nil|]. apply Forall_cons in H8' as [Hx _].
  destruct r; cbn in Hx; rewrite Hst in Hx; try done. by destruct Hx.
Qed.

(** After [uv_close], when no request is left. *)
Lemma OnClosed_keeps : is_Some (uv_closing u) -> uv_connect u = None -> uv_writes u = [] -> wp (OnClosed h) (fun _ => tinv pre) w.
Proof using Hi Hu.
  intros [cb Hc] Hco Hwr. unfold OnClosed. apply wp_bind. unfold wp at 1, uv_get. rewrite Hu, Hc. destruct cb.
  - eapply wp_mono; [by apply OnTcpClosed_keeps|]. by intros _ w' [Hi' _].
  - unfold wp, delete_uv, nbind, uv_get, upd_tcp. rewrite Hu. split; [apply Hi|]. cbn. eapply delete_handle_ok; [apply (V_tcp _ _ Hi)|exact Hu|done].
  - pose proof (V_tcp _ _ Hi) as Ht. destruct (T_uv _ _ _ _ Ht h u Hu) as [[? _]|(s & Hs & Hh & _ & _)]; [congruence|]. apply sockets_Some in Hs.
    assert (w = cur w (uv_data u) s (g_tcp w)) as Ew by (by rewrite cur_self). rewrite Ew at 1. apply wp_bind, w_load. rewrite Hh. apply wp_bind, wp_nonnull. apply wp_bind.
    unfold wp at 1, delete_uv, nbind, uv_get, upd_tcp. cbn [g_tcp cur set_tcp]. rewrite Hu. change (set_tcp ?t' _) with (cur w (uv_data u) s t').
    apply wp_bind, w_assign. unfold wp, delete_object. cbn [objects cur set_objects set_tcp]. rewrite lookup_insert_eq. cbn [release obj_refs foldM].
    split; [apply Hi|]. cbn [hm objects g_tcp set_objects set_nodes set_curls set_tcp]. rewrite delete_insert_eq, sockets_delete.
    eapply delete_client_ok; [exact Ht|exact Hu|done].
  - by apply wp_ret.
Qed.

(** A connection that was refused or accepted. *)
Lemma OnTcpNewConnection_keeps status rc addr port : uv_listening u = true -> wp (OnTcpNewConnection h status rc addr port) (fun _ => tinv pre) w.
Proof using Hi Hu.
  intros Hl. pose proof (V_tcp _ _ Hi) as Ht. destruct (T_uv _ _ _ _ Ht h u Hu) as [[_ (_ & _ & _ & I4)]|(l & Hs & _)]; [congruence|]. apply sockets_Some in Hs.
  unfold OnTcpNewConnection. apply wp_bind. unfold wp at 1, uv_get. rewrite Hu. apply wp_bind. unfold wp at 1, load_socket. rewrite Hs. destruct (_ || _); [by apply wp_ret|].
  apply wp_bind. unfold wp at 1, new_object. set (client := fresh_addr (objects w)). pose proof (fresh_addr_None (objects w)) as Hf. fold client in Hf.
  set (s := set_state CONNECTED _). assert (set_objects (<[client := OTcpSocket s]> (objects w)) w = cur w client s (g_tcp w)) as -> by (by destruct w).
  apply wp_bind. unfold wp at 1, new_uv. cbn [g_tcp cur set_tcp]. set (ch := fresh_addr (uv_handles (g_tcp w))). pose proof (fresh_addr_None (uv_handles (g_tcp w))) as Hch. fold ch in Hch.
  change (set_tcp ?t' _) with (cur w client s t'). apply wp_bind, w_assign. assert (sockets (objects w) !! client = None) as Hns by (unfold sockets; by rewrite lookup_omap, Hf).
  assert (forall t1, tcp_ok (used_handles_ (hm w)) (<[client := set_uv_handle (Some ch) s]> (sockets (objects w))) t1 (evs_of pre t1) -> tinv pre (cur w client (set_uv_handle (Some ch) s) t1)) as Hfin.
  { intros t1 Hok. split; [apply Hi|]. cbn [hm objects g_tcp cur set_tcp set_objects]. by rewrite sockets_insert. }
  destruct (Z.eqb_spec rc 0) as [->|Hne]; cbn [negb].
  - unfold wp, PushSocketEvent, upd_tcp. cbn [g_tcp cur set_tcp]. set (e := mkEvent _ _ _ _ _ _ _ _ _ _ _ _). apply Hfin. eapply tcp_ok_events.
    + eapply (new_client _ _ _ _ (evs_of pre (g_tcp w) ++ [e]) [client] client _ ch (uv_tcp_init client) Ht); try done.
      * intros id. rewrite closed_push, decide_False; [apply app_nil_r|]. by intros [? _].
      * by rewrite accepted_push.
      * intros e' [?| ->%list_elem_of_singleton]%elem_of_app; [by left|]. right. split_and!; [done|by eexists|done].
      * by left.
    + done.
    + done.
    + done.
    + done.
    + intros id. unfold evs_of. cbn. by rewrite app_assoc.
    + unfold evs_of. cbn. by rewrite app_assoc.
    + intros e' He. left. unfold evs_of in *. cbn in He. by rewrite app_assoc in He.
  - unfold wp, uv_close, uv_open, uv_get, uv_put, upd_tcp, nbind, nret. cbn [g_tcp cur set_tcp set_uvs uv_handles]. rewrite lookup_insert_eq. cbn [uv_closing uv_tcp_init].
    set (t1 := set_uvs (<[ch := mkUv client (Some CB_delete_client) false false None []]> (uv_handles (g_tcp w))) (g_tcp w)).
    match goal with |- tinv _ ?x => replace x with (cur w client (set_uv_handle (Some ch) s) t1) by (unfold cur, t1, set_uvs; cbn; by rewrite insert_insert_eq) end. apply Hfin.
    eapply (new_client _ _ _ _ (evs_of pre (g_tcp w)) [] client _ ch (mkUv client (Some CB_delete_client) false false None []) Ht); try done; [by rewrite app_nil_r|by left|by right].
Qed.

End Callbacks.

(** ** The queue of operations and the resolver *)

Lemma OnAsyncTcpOp_keeps pre w rc : tinv pre w -> queue_ (tcp_op_queue (g_tcp w)) <> [] -> wp (OnAsyncTcpOp_turn uv_strerror rc) (fun _ => tinv pre) w.
Proof.
  intros [Hwf Ht] Hne. destruct (queue_ (tcp_op_queue (g_tcp w))) as [|op rest] eqn:Eq; [done|]. unfold wp, OnAsyncTcpOp_turn.
  destruct (Pop (tcp_op_queue (g_tcp w))) as [[op' q]|] eqn:Ep; [|unfold Pop in Ep; by rewrite Eq in Ep].
  assert (op' = op /\ queue_ q = rest) as [-> Er] by (unfold Pop in Ep; rewrite Eq in Ep; by injection Ep as <- <-).
  destruct (pop_ok _ _ _ _ _ _ _ Ht Eq Er) as [Ht' Hpop]. set (w' := set_tcp _ w). assert (tinv pre w') as Hi' by (by split).
  change (wp (process_op uv_strerror rc op) (fun _ => tinv pre) w'). destruct op; cbn [process_op].
  - by eapply ProcessTcpConnect_keeps.
  - by apply ProcessTcpSend_keeps.
  - eapply wp_mono; [by apply ProcessTcpClose_keeps|]. by intros _ w2 [Hi2 _].
  - by eapply ProcessTcpListen_keeps.
  - by eapply ProcessTcpBind_keeps.
  - by apply ProcessTcpSetOption_keeps.
  - by eapply ProcessTcpAcceptConfig_keeps.
Qed.

Lemma OnResolved_keeps pre w i status rc rc' : tinv pre w -> is_Some (resolving (g_tcp w) !! i) -> wp (OnResolved uv_strerror ares_strerror i status rc rc') (fun _ => tinv pre) w.
Proof.
  intros [Hwf Ht] [r Hr]. unfold wp, OnResolved. rewrite Hr. destruct (resolved_ok _ _ _ _ _ _ Ht Hr) as [Ht' Hres]. set (w' := set_tcp _ w). assert (tinv pre w') as Hi' by (by split).
  destruct r.
  - by apply (connect_resolved_keeps pre w' Hi' id host port).
  - by apply (listen_resolved_keeps pre w' Hi' id backlog host port).
  - by apply (bind_resolved_keeps pre w' Hi' id host port).
Qed.

End TcpSteps.
