(* ===== verification/TcpSystem.v ===== *)
(** * TCP as a whole: plugins, the event thread, libuv and frames

    A state is the world and the events the game thread has taken from the
    queue.  Natives of plugins, operations, resolutions, libuv's callbacks and
    the parts of a dispatch before and after the plugin's function are steps;
    they interleave in any order.  [tmay] says when a step can happen (what
    libuv and c-ares do) and what is asked of plugins. *)

From stdpp Require Import base numbers list gmap.
From Stdlib Require Import ZArith Lia.
From S2P Require Import Clock TcpSocket LinkedList LockedQueue MsgPack Prelude HandleManager NodePool DataMap DataValue Float Text DataNode HeaderMap HttpRequest EventLoop HttpState DataRefcount DataCopy JsonText JsonParse DataBuild DataHandle DataIterator Natives NativesJson NativesJsonSafe TcpLoop GameFrame GameFrameSafe TcpState TcpSafe TcpSteps.

Import Tcp.

Section TcpSystem.

Context {MO : DataMap bytes} {MI : DataMap Z} {P : Type} {PA : NodeAllocator P} {M : Type} {PC : PluginContext M}.
Context (has_function : positive -> Z -> bool) (uv_strerror ares_strerror : Z -> bytes).

#[local] Notation N := (N (P := P) (M := M)).
#[local] Notation world := (world (P := P) (M := M)).
#[local] Notation native := (native (P := P) (M := M)).
#[local] Notation "x <- m ;; k" := (nbind m (fun x => k)) (at level 100, m at next level, right associativity).
#[local] Notation "m ;;; k" := (nbind m (fun _ => k)) (at level 100, right associativity).
Implicit Types (w : world) (s : TcpSocket) (t : TcpLoop) (u : uv_tcp_t) (p : positive) (id : Z) (e : SocketEvent).

(** ** The game thread *)

(** What the game thread still has of a frame: events, and the one whose
    callback is running. *)
Record Frame := mkFrame { drained : list SocketEvent; running : option SocketEvent }.
Definition no_frame : Frame := mkFrame [] None.

(** Events not finished: of the running one, a close event. *)
Definition unfinished (o : option SocketEvent) : list SocketEvent :=
  match o with Some e => if IsCloseEvent (e_type e) then [e] else [] | None => [] end.
Definition taken_events (F : Frame) : list SocketEvent := unfinished (running F) ++ drained F.

Lemma dispatch_accepted_keeps l e w : tinv (e :: l) w -> e_type e = TCP_ACCEPTED -> new_ids w -> wp (register_accepted e) (fun _ => tinv l) w.
Proof.
  intros Hi Hty Hn. pose proof (V_tcp _ _ Hi) as Ht. change (evs_of (e :: l) (g_tcp w)) with (e :: evs_of l (g_tcp w)) in Ht.
  pose proof (T_accepted _ _ _ _ Ht e (list_elem_of_here _ _)) as Ha. rewrite decide_True in Ha by done. destruct Ha as [[p Hp] _].
  destruct (proj2 (T_waiting _ _ _ _ Ht) p) as (s & Hs & _); [unfold accepted_of; cbn; rewrite Hp; constructor|]. pose proof (proj1 (sockets_Some _ _ _) Hs) as Ho.
  unfold register_accepted. rewrite Hp. apply wp_bind, wp_nonnull. apply wp_bind. unfold wp at 1, load_socket. rewrite Ho. apply wp_bind, wp_CreateHandle; [apply Hi|exact Hn|].
  intros id m Hz Hf Hu Hwf Hops Hres. rewrite (proj2 (Z.eqb_neq _ _) Hz). rewrite <- (cur_self (set_hm m w) p s) by done. apply wp_bind, w_assign. apply wp_bind.
  unfold wp, EnqueueTcpOp, upd_tcp, nret. split; [exact Hwf|]. cbn [hm objects g_tcp cur set_tcp set_objects set_hm]. rewrite Hu, sockets_insert.
  eapply (accepted_handled _ _ _ _ e id _ p s); [exact Ht|done..|by eexists _, _, _, _].
Qed.

Lemma dispatch_start_keeps l e w : tinv (e :: l) w -> (e_type e = TCP_ACCEPTED -> new_ids w) ->
  wp (dispatch_start has_function e) (fun _ => tinv (unfinished (Some e) ++ l)) w.
Proof.
  intros Hi Hn. pose proof (V_tcp _ _ Hi) as Ht. change (evs_of (e :: l) (g_tcp w)) with (e :: evs_of l (g_tcp w)) in Ht.
  assert (e_type e <> TCP_ACCEPTED -> tinv (unfinished (Some e) ++ l) w) as Hdrop.
  { intros Hna. cbn. unfold IsCloseEvent. case_bool_decide as Hc; [done|]. split; [apply Hi|]. by eapply drop_event. }
  unfold dispatch_start. destruct (e_handle_closed e && negb (IsCloseEvent (e_type e))) eqn:Ec.
  - apply wp_ret, Hdrop. intros Hty. pose proof (T_accepted _ _ _ _ Ht e (list_elem_of_here _ _)) as Ha. rewrite decide_True in Ha by done. destruct Ha as [_ Hcl].
    by rewrite Hcl in Ec.
  - apply wp_bind. unfold wp at 1, TcpLoop.GetSourcepawnFunction.
    destruct (decide (e_type e = TCP_ACCEPTED)) as [Hty|Hty]; [rewrite (bool_decide_true (e_type e = _)) by done|rewrite (bool_decide_false (e_type e = _)) by done; apply wp_ret; by apply Hdrop].
    cbn [unfinished]. replace (IsCloseEvent (e_type e)) with false by (unfold IsCloseEvent; by rewrite Hty). cbn [app].
    apply wp_bind. eapply wp_mono; [by apply (dispatch_accepted_keeps l e w); [..|apply Hn]|]. intros [c|] w' Hi'; by apply wp_ret.
Qed.

Lemma dispatch_end_keeps l e w : tinv (unfinished (Some e) ++ l) w -> wp (dispatch_end e) (fun _ => tinv l) w.
Proof.
  cbn [unfinished]. unfold dispatch_end, IsCloseEvent. case_bool_decide as Hc; cbn [app]; [|intros Hi; by apply wp_ret]. intros Hi.
  pose proof (V_tcp _ _ Hi) as Ht. change (evs_of (e :: l) (g_tcp w)) with (e :: evs_of l (g_tcp w)) in Ht.
  destruct (T_closed _ _ _ _ Ht e (list_elem_of_here _ _) Hc) as [x Hx]. destruct (tcp_handle _ w _ x Hi Hx) as (s & Ho & _).
  destruct (T_handle _ _ _ _ Ht _ x Hx) as [Hty _]. unfold wp, FreeHandle. rewrite Hx, decide_False by (by rewrite Hty). unfold delete_object. cbn [objects set_hm]. rewrite Ho.
  cbn [release obj_refs foldM]. split; [cbn; apply wf_Free, Hi|]. cbn [hm objects g_tcp set_objects set_nodes set_curls set_hm]. rewrite sockets_delete.
  unfold HandleManager.FreeHandle. rewrite Hx. cbn [used_handles_]. by apply free_closed.
Qed.

(** [OnGameFrame], the part about sockets: the events that are dispatched. *)
Definition frame_events : N (list SocketEvent) := fun w =>
  if HasItems (socket_done_queue (g_tcp w)) then DrainSocketEvents w else Done [] w.

Lemma frame_events_keeps w : tinv [] w -> wp frame_events (fun l => tinv l) w.
Proof.
  intros [Hwf Ht]. unfold wp, frame_events, DrainSocketEvents. destruct (HasItems _); [|done]. destruct (DrainAll_spec (socket_done_queue (g_tcp w))) as (q & -> & Eq & _).
  split; [done|]. cbn. eapply tcp_ok_events; [exact Ht|done|done|done|done|intros id| |]; unfold evs_of; cbn; rewrite Eq, app_nil_r; [done|done|]. intros e He. by left.
Qed.

(** ** Plugins that leave *)

Lemma close_socket_tcp l id p s w : tinv l w -> socket_at w id p s -> wp (close_socket p) (fun _ w' => tinv l w' /\ hm w' = hm w) w.
Proof.
  intros Hi Hat. destruct (start_at l w id p s Hi Hat) as (Hb & Ew & tab & ops & res & closed & uv & A & Hok). rewrite Ew at 1. apply wp_bind.
  eapply w_upd; [exact A|done|done|]. intros A1. apply wp_bind, w_load. pose proof (A_id _ _ _ _ _ _ _ _ _ _ _ A1) as Hid. cbn [handle_id set_handle_closed] in Hid.
  eapply w_op; [exact A1|done|]. intros t' A2. split; [|done]. eapply finish; [done|exact A2|]. apply sock_ok_op; [by apply sock_ok_closing|done|done].
Qed.

Lemma unload_keeps l ctx w : tinv l w -> wp (OnPluginUnloaded ctx) (fun _ => tinv l) w.
Proof.
  intros [Hwf Ht]. unfold OnPluginUnloaded. apply wp_bind, wp_upd_plugins, wp_bind. unfold wp at 1, take_handles. cbn [hm set_plugins].
  pose proof (take_spec ctx (hm w) Hwf) as Hk. pose proof (wf_Take ctx (hm w) Hwf) as Hwf'. destruct (TakePluginHandles ctx (hm w)) as [r m]. destruct Hk as (_ & _ & _ & Eu & _ & Hr).
  assert (tinv l (set_hm m (set_plugins (g_plugin_contexts w ∖ {[ctx]}) w))) as Hi.
  { split; [exact Hwf'|]. eapply tcp_ok_handles; [|exact Ht]. intros id. cbn. rewrite Eu. destruct (used_handles_ (hm w) !! id) as [x|]; [|done]. cbn. by case_decide. }
  set (w1 := set_hm m _) in *. assert (forall i, i ∈ r -> exists x, used_handles_ (hm w1) !! i.1 = Some x /\ pointer x = pointer i.2 /\ type x = type i.2) as Hin.
  { intros [h x] Hx. apply Hr in Hx as (y & Hy & Ho & ->). cbn. rewrite Eu, Hy. eexists. split; [done|]. by rewrite decide_True. }
  clearbody w1. clear Hr Hwf'. revert w1 Hi Hin. induction r as [|[id h] r IH]; intros w1 Hi Hin; [done|]. cbn [for_each]. apply wp_bind.
  destruct (Hin (id, h)) as (x & Hx & Ep & Ey); [constructor|]. cbn in Hx, Ep, Ey. destruct (T_handle _ _ _ _ (V_tcp _ _ Hi) id x Hx) as (Hty & _).
  destruct (tcp_handle l w1 id x Hi Hx) as (s & Ho & _). unfold close_taken. rewrite <- Ey, Hty, <- Ep.
  assert (socket_at w1 id (pointer x) s) as Hat by (split; [by exists x|done]).
  eapply wp_mono; [exact (close_socket_tcp l id (pointer x) s w1 Hi Hat)|]. intros _ w2 [Hi2 Eh]. apply IH; [done|]. intros i Hi'. rewrite Eh. apply Hin. by constructor.
Qed.

(** ** Natives *)

(** What a call of each native needs: the number of a new handle is in no
    queue; a socket is connected, bound or made to listen while it is new, open
    and nothing is under way for it, and made to listen only when it was never
    registered. *)
Inductive tcp_need := NoNeed | NewHandle | IdleSocket | Unregistered.

Definition tcp_need_of (name : String.string) : tcp_need :=
  if bool_decide (name = "async2_TcpNew"%string) then NewHandle
  else if bool_decide (name ∈ ["async2_TcpConnect"; "async2_TcpBind"]%string) then IdleSocket
  else if bool_decide (name = "async2_TcpListen"%string) then Unregistered
  else NoNeed.

Definition tcp_meaning (n : tcp_need) : list Z -> world -> Prop :=
  match n with NoNeed => no_need | NewHandle => fun _ => new_ids | IdleSocket => socket_need idle_socket | Unregistered => socket_need unregistered end.

Definition tcp_needs (name : String.string) : list Z -> world -> Prop := tcp_meaning (tcp_need_of name).

Ltac tcp_entry := cbn [fst snd]; lazymatch goal with |- keeps_tcp _ (tcp_needs ?s) =>
  let k := eval vm_compute in (tcp_need_of s) in change (tcp_needs s) with (tcp_meaning k); cbn [tcp_meaning] end.

Lemma tcp_table_keeps : Forall (fun e : String.string * native => keeps_tcp e.2 (tcp_needs e.1)) g_TcpNatives.
Proof.
  unfold g_TcpNatives. repeat (apply Forall_cons; split); [..|by apply Forall_nil]; tcp_entry;
    first [exact new_keeps|exact set_callbacks_keeps|exact connect_keeps|exact bind_keeps|exact send_keeps|exact tcp_close_keeps|exact listen_keeps|exact set_option_keeps].
Qed.

(** ** Steps *)

Inductive tcp_event :=
  | TCall (name : String.string) (f : native) (ctx : positive) (params : list Z)
  | TOp (rc : Z)
  | TResolved (i : nat) (status rc rc_listen : Z)
  | TConnected (h : positive) (status : Z)
  | TAlloc (h : positive)
  | TRead (h : positive) (r : ReadResult)
  | TWritten (h : positive) (status : Z)
  | TClosed (h : positive)
  | TConnection (h : positive) (status rc : Z) (addr : bytes) (port : Z)
  | TFrame | TDispatch | TDispatched
  | TLoad (ctx : positive) | TUnload (ctx : positive).

Definition then_frame {A} (F : A -> Frame) (m : N A) : N Frame := x <- m;; nret (F x).

Definition tcp_step (F : Frame) (ev : tcp_event) : N Frame :=
  let stay {A} (m : N A) := then_frame (fun _ => F) m in
  match ev with
  | TCall _ f ctx params => stay (f ctx params)
  | TOp rc => stay (OnAsyncTcpOp_turn uv_strerror rc)
  | TResolved i status rc rc' => stay (OnResolved uv_strerror ares_strerror i status rc rc')
  | TConnected h status => stay (OnTcpConnected uv_strerror h status)
  | TAlloc h => stay (OnTcpAllocBuffer h)
  | TRead h r => stay (OnTcpRead uv_strerror h r)
  | TWritten h status => stay (OnTcpWriteDone uv_strerror h status)
  | TClosed h => stay (OnClosed h)
  | TConnection h status rc addr port => stay (OnTcpNewConnection h status rc addr port)
  | TFrame => then_frame (fun l => mkFrame l None) frame_events
  | TDispatch =>
      match drained F with
      | [] => nret F
      | e :: l => then_frame (fun _ => mkFrame l (Some e)) (dispatch_start has_function e)
      end
  | TDispatched =>
      match running F with
      | None => nret F
      | Some e => then_frame (fun _ => mkFrame (drained F) None) (dispatch_end e)
      end
  | TLoad ctx => stay (OnPluginLoaded ctx)
  | TUnload ctx => stay (OnPluginUnloaded ctx)
  end.

(** libuv calls back for what it was asked: a connect request ends with success
    only on a handle that is not closing, the callback of [uv_close] comes after
    the requests' callbacks, reads and connections come for handles that read
    and listen.  c-ares answers the resolutions in any order. *)
Definition tcp_may (F : Frame) (ev : tcp_event) w : Prop :=
  let uv h (Q : uv_tcp_t -> Prop) := exists u, uv_handles (g_tcp w) !! h = Some u /\ Q u in
  match ev with
  | TCall name f ctx params => (name, f) ∈ g_TcpNatives /\ tcp_needs name params w
  | TOp _ => queue_ (tcp_op_queue (g_tcp w)) <> []
  | TResolved i _ _ _ => is_Some (resolving (g_tcp w) !! i)
  | TConnected h status => uv h (fun u => is_Some (uv_connect u) /\ (status = 0 -> uv_closing u = None))
  | TAlloc h | TRead h _ => uv h (fun u => uv_reading u = true)
  | TWritten h _ => uv h (fun u => uv_writes u <> [])
  | TClosed h => uv h (fun u => is_Some (uv_closing u) /\ uv_connect u = None /\ uv_writes u = [])
  | TConnection h _ _ _ _ => uv h (fun u => uv_listening u = true)
  | TFrame => F = no_frame
  | TDispatch => running F = None /\ (match drained F with e :: _ => e_type e = TCP_ACCEPTED -> new_ids w | [] => True end)
  | TDispatched | TLoad _ | TUnload _ => True
  end.

(** The extension after loading. *)
Record tcp_initial w : Prop := {
  begin_handles : hm w = new_HandleManager;
  begin_objects : objects w = ∅;
  begin_tcp : g_tcp w = new_TcpLoop
}.

Inductive tcp_runs : Frame -> world -> Prop :=
  | tcp_runs_start w : tcp_initial w -> tcp_runs no_frame w
  | tcp_runs_step F w ev F' w' : tcp_runs F w -> tcp_may F ev w -> tcp_step F ev w = Done F' w' -> tcp_runs F' w'.

Lemma tcp_initial_tinv w : tcp_initial w -> tinv [] w.
Proof. intros [H1 H2 H3]. split; rewrite ?H1, ?H2, ?H3; [apply wf_new|]. unfold sockets. rewrite omap_empty. apply tcp_ok_empty. Qed.

Lemma wp_framed {A} (F : A -> Frame) (m : N A) w : wp m (fun a w' => tinv (taken_events (F a)) w') w -> wp (then_frame F m) (fun F w' => tinv (taken_events F) w') w.
Proof. intros H. apply wp_bind. eapply wp_mono; [exact H|]. intros a w' Hs. by apply wp_ret. Qed.

Lemma tcp_step_keeps F ev w : tinv (taken_events F) w -> tcp_may F ev w -> wp (tcp_step F ev) (fun F' w' => tinv (taken_events F') w') w.
Proof.
  intros Hi Hm. destruct ev; cbn [tcp_step tcp_may] in *.
  - destruct Hm as [Hin Hn]. pose proof tcp_table_keeps as HF. rewrite Forall_forall in HF. apply wp_framed. exact (HF _ Hin _ ctx params w Hi Hn).
  - by apply wp_framed, OnAsyncTcpOp_keeps.
  - by apply wp_framed, OnResolved_keeps.
  - destruct Hm as (u & Hu & H1 & H2). apply wp_framed. by eapply OnTcpConnected_keeps.
  - destruct Hm as (u & Hu & H1). apply wp_framed. eapply wp_mono; [by eapply OnTcpAllocBuffer_keeps|]. by intros n w' [-> _].
  - destruct Hm as (u & Hu & H1). apply wp_framed. by eapply OnTcpRead_keeps.
  - destruct Hm as (u & Hu & H1). apply wp_framed. by eapply OnTcpWriteDone_keeps.
  - destruct Hm as (u & Hu & H1 & H2 & H3). apply wp_framed. by eapply OnClosed_keeps.
  - destruct Hm as (u & Hu & H1). apply wp_framed. by eapply OnTcpNewConnection_keeps.
  - subst F. by apply wp_framed, frame_events_keeps.
  - destruct Hm as [Hr Hn]. destruct F as [[|e l] r]; cbn in Hr, Hn; subst r; [by apply wp_ret|]. apply wp_framed. by apply dispatch_start_keeps.
  - destruct F as [l [e|]]; [|by apply wp_ret]. apply wp_framed. by apply dispatch_end_keeps.
  - apply wp_framed, wp_upd_plugins. by destruct Hi.
  - by apply wp_framed, unload_keeps.
Qed.

Lemma tcp_runs_tinv F w : tcp_runs F w -> tinv (taken_events F) w.
Proof.
  induction 1 as [w Hs|F w ev F' w' _ Hi Hm Hst]; [by apply tcp_initial_tinv|]. pose proof (tcp_step_keeps F ev w Hi Hm) as Hk. unfold wp in Hk. by rewrite Hst in Hk.
Qed.

(** ** What holds in every state *)

(** C5: TCP is memory safe.  However calls of the TCP natives by any plugins,
    operations on the event thread, resolutions, libuv's callbacks, frames with
    their dispatches and plugin unloading interleave, no step has undefined
    behaviour: no use of a deleted socket or libuv handle, no work on a handle
    that is closing, no second [uv_close], no null [uv_handle], no pop of an
    empty queue.  The conditions are those of [tcp_may]: libuv calls back for
    what it was asked, and plugins connect, bind or listen with a socket that is
    new, open and has nothing under way. *)
Theorem tcp_safe (F : Frame) (w : world) (ev : tcp_event) : tcp_runs F w -> tcp_may F ev w -> tcp_step F ev w <> UB.
Proof. intros Hi%tcp_runs_tinv Hm E. pose proof (tcp_step_keeps F ev w Hi Hm) as Hk. unfold wp in Hk. by rewrite E in Hk. Qed.

(** C6: A socket is closed once, and its handle lives until the plugin has heard of
    it.  In every state TCP reaches, each close event that is queued, taken or
    being dispatched names a handle in use; a handle has exactly one close event
    under way when its socket is [CLOSED] and none otherwise; and a closed
    socket is out of the event loop's table, has no libuv handle, and no queued
    operation would register it again. *)
Theorem tcp_closed_once (F : Frame) (w : world) : tcp_runs F w ->
  let evs := evs_of (taken_events F) (g_tcp w) in
  (forall e, e ∈ evs -> e_type e = TCP_CLOSED -> is_Some (used_handles_ (hm w) !! e_handle_id e)) /\
  forall id x, used_handles_ (hm w) !! id = Some x -> exists s, objects w !! pointer x = Some (OTcpSocket s) /\ handle_id s = id /\
    length (closed_of id evs) = (if decide (state s = CLOSED) then 1 else 0)%nat /\
    (state s = CLOSED -> tcp_sockets_ (g_tcp w) !! id = None /\ uv_handle s = None /\ regs (ops_of id (g_tcp w)) = []).
Proof.
  intros Hi%tcp_runs_tinv evs. pose proof (V_tcp _ _ Hi) as Ht. split; [apply (T_closed _ _ _ _ Ht)|]. intros id x Hx.
  destruct (T_handle _ _ _ _ Ht id x Hx) as (_ & s & Hs & Hid & Hv). exists s. split; [by apply sockets_Some|]. split; [done|].
  split; [apply (S_closed _ _ _ _ _ _ _ Hv)|apply (S_final _ _ _ _ _ _ _ Hv)].
Qed.

(** C31: libuv never holds a stray handle.  In every state TCP reaches, a libuv handle
    that has a connect request, a write, or is being read or listened on belongs
    to a socket that exists and points back to it; every socket in the event
    loop's table is the one its handle names; and every accepted socket on its
    way to the game thread exists, is reported once and is not read yet. *)
Theorem tcp_handles_owned (F : Frame) (w : world) : tcp_runs F w ->
  (forall h u, uv_handles (g_tcp w) !! h = Some u -> ~ idle u -> exists s, objects w !! uv_data u = Some (OTcpSocket s) /\ uv_handle s = Some h) /\
  (forall id p, tcp_sockets_ (g_tcp w) !! id = Some p -> exists x s, used_handles_ (hm w) !! id = Some x /\ pointer x = p /\ objects w !! p = Some (OTcpSocket s) /\ handle_id s = id) /\
  NoDup (accepted_of (evs_of (taken_events F) (g_tcp w))) /\
  (forall p, p ∈ accepted_of (evs_of (taken_events F) (g_tcp w)) -> exists s h u, objects w !! p = Some (OTcpSocket s) /\ state s = CONNECTED /\
    uv_handle s = Some h /\ uv_handles (g_tcp w) !! h = Some u /\ idle u).
Proof.
  intros Hi%tcp_runs_tinv. pose proof (V_tcp _ _ Hi) as Ht. split; [|split; [|split]].
  - intros h u Hu Hn. destruct (T_uv _ _ _ _ Ht h u Hu) as [[_ ?]|(s & Hs & Hh & _)]; [done|]. exists s. split; [by apply sockets_Some|done].
  - intros id p Hp. destruct (T_table _ _ _ _ Ht id p Hp) as (x & Hx & <-). destruct (tcp_handle _ w id x Hi Hx) as (s & Ho & Hid). by exists x, s.
  - apply (T_waiting _ _ _ _ Ht).
  - intros p Hp. destruct (proj2 (T_waiting _ _ _ _ Ht) p Hp) as (s & Hs & _ & Hst & h & u & Hh & Hu & _ & _ & Hid). exists s, h, u. split; [by apply sockets_Some|done].
Qed.

End TcpSystem.

(** * What TCP does with data, and how a close ends

    The pieces a read is cut into, and progress of a close: the operation puts
    the socket into a state from which the close event follows. *)

(** ** Pieces *)

Lemma chunks_concat n fuel data : (0 < n)%nat -> (length data <= fuel)%nat -> concat (chunks fuel n data) = data.
Proof.
  intros Hn. revert data. induction fuel as [|fuel IH]; intros [|b data] Hl; cbn [length] in Hl; try done; [lia|]. cbn [chunks concat].
  rewrite IH by (rewrite length_drop; cbn; lia). apply take_drop.
Qed.

Lemma chunks_size n fuel data : (0 < n)%nat -> Forall (fun c => (0 < length c <= n)%nat) (chunks fuel n data).
Proof.
  intros Hn. revert data. induction fuel as [|fuel IH]; intros [|b data]; cbn; try by apply Forall_nil. apply Forall_cons. split; [|done].
  rewrite length_take. cbn. lia.
Qed.

Section TcpFacts.

Context {MO : DataMap bytes} {MI : DataMap Z} {P : Type} {PA : NodeAllocator P} {M : Type} {PC : PluginContext M}.

#[local] Notation N := (N (P := P) (M := M)).
#[local] Notation world := (world (P := P) (M := M)).
Implicit Types (w : world) (s : TcpSocket) (t : TcpLoop) (u : uv_tcp_t) (p : positive) (id : Z).

Lemma push_all_run es w : exists q, push_all es w = Done tt (set_tcp (set_events q (g_tcp w)) w) /\ queue_ q = queue_ (socket_done_queue (g_tcp w)) ++ es.
Proof.
  revert w. induction es as [|e es IH]; intros w; [exists (socket_done_queue (g_tcp w)); split; [by destruct w as [? ? ? ? ? ? ? ? ? ? ? ? ? ? []]|by rewrite app_nil_r]|].
  cbn [push_all]. unfold nbind. cbn [PushSocketEvent upd_tcp]. destruct (IH (set_tcp (set_events (Push e (socket_done_queue (g_tcp w))) (g_tcp w)) w)) as (q & -> & Eq).
  exists q. split; [done|]. rewrite Eq. cbn. by rewrite <- app_assoc.
Qed.

(** C32: Data arrives whole and in order.  When libuv reports data for a socket that is
    open, [OnTcpRead] queues data events for the socket's handle, one after the
    other behind what is queued: their data together is what was read, each
    holds at least one byte and at most the socket's chunk size (4096 where the
    plugin's option is not positive).  For a socket the plugin has closed nothing
    is queued.  Nothing else changes. *)
Theorem tcp_read_chunks (uv_strerror : Z -> bytes) (w : world) (h : positive) (u : uv_tcp_t) (s : TcpSocket) (data : bytes) :
  uv_handles (g_tcp w) !! h = Some u -> objects w !! uv_data u = Some (OTcpSocket s) ->
  exists q cs, OnTcpRead uv_strerror h (ReadData data) w = Done tt (set_tcp (set_events q (g_tcp w)) w) /\
    queue_ q = queue_ (socket_done_queue (g_tcp w)) ++ (data_event s <$> cs) /\
    (if handle_closed s then cs = [] else concat cs = data) /\
    Forall (fun c => 0 < Z.of_nat (length c) <= (if 0 <? max_chunk_size s then max_chunk_size s else 4096)) cs.
Proof.
  intros Hu Ho. unfold OnTcpRead, nbind, uv_get, load_socket. rewrite Hu. cbn. rewrite Ho.
  assert (alloc_size s = if 0 <? max_chunk_size s then max_chunk_size s else 4096) as Ea.
  { unfold alloc_size, positive_or. destruct (Z.gtb_spec (max_chunk_size s) 0), (Z.ltb_spec 0 (max_chunk_size s)); lia. }
  assert (0 < alloc_size s) as Hpos by (rewrite Ea; destruct (Z.ltb_spec 0 (max_chunk_size s)); lia).
  set (cs := if handle_closed s then [] else chunks (length data) (Z.to_nat (alloc_size s)) data).
  replace (if handle_closed s then [] else data_event s <$> chunks (length data) (Z.to_nat (alloc_size s)) data) with (data_event s <$> cs) by (unfold cs; by destruct (handle_closed s)).
  destruct (push_all_run (data_event s <$> cs) w) as (q & Hq & Eq). exists q, cs. split_and!; [done|done| |].
  - unfold cs. destruct (handle_closed s); [done|]. apply chunks_concat; lia.
  - rewrite <- Ea. unfold cs. destruct (handle_closed s); [by apply Forall_nil|]. eapply Forall_impl; [apply (chunks_size (Z.to_nat (alloc_size s))); lia|]. cbn. intros c Hc. lia.
Qed.

(** ** The event thread's steps complete *)

Definition complete {A} (m : N A) : Prop := forall w, m w <> BadArg.

Lemma complete_bind {A B} (m : N A) (k : A -> N B) : complete m -> (forall a, complete (k a)) -> complete (nbind m k).
Proof. intros Hm Hk w. unfold nbind. specialize (Hm w). destruct (m w) as [a w'| |]; [apply Hk|done|done]. Qed.

Lemma complete_ret {A} (a : A) : complete (nret a).
Proof. done. Qed.

Lemma complete_load p : complete (load_socket p).
Proof. intros w. unfold load_socket. by destruct (objects w !! p) as [[]|]. Qed.

Lemma complete_uv h : complete (uv_get h).
Proof. intros w. unfold uv_get. by destruct (uv_handles _ !! h). Qed.

Lemma complete_nonnull {A} (o : option A) : complete (nonnull o).
Proof. intros w. by destruct o. Qed.

Lemma complete_find id : complete (find_socket id).
Proof. intros w. unfold find_socket. destruct (_ !! id); [|done]. apply complete_bind; [apply complete_load|]. intros s. apply complete_ret. Qed.

Ltac completes := repeat first [apply complete_bind; [|intros ?]|apply complete_ret|apply complete_load|apply complete_uv|apply complete_nonnull|apply complete_find
  |progress case_match|done].

Lemma complete_close id : complete (ProcessTcpClose id).
Proof. unfold ProcessTcpClose, upd_socket, store_object, uv_read_stop, uv_close, uv_open, uv_put, push_closed, PushSocketEvent, erase_socket, upd_tcp. completes. Qed.

Lemma complete_closed h : complete (OnTcpClosed h).
Proof. unfold OnTcpClosed, upd_socket, store_object, delete_uv, push_closed, PushSocketEvent, erase_socket, upd_tcp. completes. Qed.

Lemma wp_completes {A} (m : N A) (R : A -> world -> Prop) w : complete m -> wp m R w -> exists a w', m w = Done a w' /\ R a w'.
Proof. intros Hm. specialize (Hm w). unfold wp. destruct (m w) as [a w'| |]; [|done|done]. intros HR. by exists a, w'. Qed.

Context (has_function : positive -> Z -> bool) (uv_strerror ares_strerror : Z -> bytes).

(** C33: A close goes on to its end.  In every state TCP reaches, when the event
    thread takes a close operation for a socket of its table, the operation
    completes and leaves the socket [CLOSED], or [CLOSING] with its libuv handle
    being closed; and when libuv calls back for such a handle, its requests
    having ended, the socket is [CLOSED].  By the theorem about close events a
    closed socket has its close event on the way to the plugin. *)
Theorem tcp_close_progress (F : TcpSystem.Frame) (w : world) : tcp_runs has_function uv_strerror ares_strerror F w ->
  (forall id p rest rc, queue_ (tcp_op_queue (g_tcp w)) = CLOSE id :: rest -> tcp_sockets_ (g_tcp w) !! id = Some p ->
    exists w', tcp_step has_function uv_strerror ares_strerror F (TOp rc) w = Done F w' /\ closing_or_closed p w') /\
  (forall h u, uv_handles (g_tcp w) !! h = Some u -> uv_closing u = Some CB_OnTcpClosed -> uv_connect u = None -> uv_writes u = [] ->
    exists w' s, tcp_step has_function uv_strerror ares_strerror F (TClosed h) w = Done F w' /\ objects w' !! uv_data u = Some (OTcpSocket s) /\ state s = CLOSED).
Proof.
  intros Hi%tcp_runs_tinv. split.
  - intros id p rest rc Eq Htab. cbn [tcp_step]. unfold then_frame, nbind, OnAsyncTcpOp_turn. pose proof (V_tcp _ _ Hi) as Ht.
    destruct (Pop (tcp_op_queue (g_tcp w))) as [[op q]|] eqn:Ep; [|unfold Pop in Ep; by rewrite Eq in Ep].
    assert (op = CLOSE id /\ queue_ q = rest) as [-> Er] by (unfold Pop in Ep; rewrite Eq in Ep; by injection Ep as <- <-).
    destruct (pop_ok _ _ _ _ _ _ _ Ht Eq Er) as [Ht' Hpop]. set (w1 := set_tcp _ w). assert (tinv (taken_events F) w1) as Hi1 by (split; [apply Hi|done]).
    destruct (wp_completes _ _ _ (complete_close id) (ProcessTcpClose_keeps _ w1 Hi1 id Hpop)) as ([] & w2 & E & _ & Hc). cbn [process_op]. rewrite E. exists w2.
    split; [done|]. by apply Hc.
  - intros h u Hu Hc Hco Hwr. cbn [tcp_step]. unfold then_frame, nbind, OnClosed, nbind, uv_get. rewrite Hu, Hc.
    destruct (wp_completes _ _ _ (complete_closed h) (OnTcpClosed_keeps _ w Hi h u Hu Hc Hco Hwr)) as ([] & w2 & E & _ & s & Hs & Hst). rewrite E. by exists w2, s.
Qed.

End TcpFacts.
