(* ===== verification/UdpState.v ===== *)
(** * The invariant of UDP sockets

    What relates the handles, the socket objects, the event loop's table, the
    queued operations, the resolutions and libuv's handles to the events on
    their way to the game thread: per socket, over the parts that name it. *)

From stdpp Require Import base numbers list gmap.
From Stdlib Require Import ZArith Lia.
From S2P Require Import Prelude LockedQueue UdpSocket HandleManager.

Import Udp.

Implicit Types (s : UdpSocket) (t : UdpLoop) (u : uv_udp_t) (p : positive) (id : Z).

(** ** Views *)

Definition op_id (op : UdpOp) : Z := match op with BIND id _ _ _ | SEND id _ _ _ | CLOSE id | SET_OPTION id _ _ => id end.
Definition is_bind (op : UdpOp) : bool := match op with BIND _ _ _ _ => true | _ => false end.
Definition is_close (op : UdpOp) : bool := match op with CLOSE _ => true | _ => false end.
Definition bind_id (r : Resolution) : option Z := match r with R_bind id _ _ => Some id | R_send _ _ _ _ => None end.

Definition ops_of id t : list UdpOp := filter (fun op => op_id op = id) (queue_ (udp_op_queue t)).
Definition binds_of id t : list Resolution := filter (fun r => bind_id r = Some id) (resolving t).
Definition closed_of id (evs : list UdpEvent) : list UdpEvent := filter (fun e => e_type e = UDP_CLOSED /\ e_handle_id e = id) evs.

(** At most one bind is queued, and no close before it. *)
Fixpoint ordered (ops : list UdpOp) : Prop :=
  match ops with [] => True | op :: ops => (is_bind op || is_close op = true -> Forall (fun o => is_bind o = false) ops) /\ ordered ops end.

(** ** One socket *)

(** The libuv handle of a socket. *)
Definition uv_ok t p s : Prop :=
  match uv_handle s with
  | Some h => exists u, uv_handles t !! h = Some u /\ uv_data u = p /\ uv_closing u = bool_decide (state s = CLOSING)
  | None => state s <> CLOSING
  end.

(** The socket can be bound. *)
Definition fresh_socket s : Prop := state s = CREATED /\ uv_handle s = None.

Record sock_ok t (evs : list UdpEvent) id p s : Prop := {
  S_uv : uv_ok t p s;
  S_closed : length (closed_of id evs) = if decide (state s = CLOSED) then 1%nat else 0%nat;
  S_final : state s = CLOSED -> udp_sockets_ t !! id = None /\ uv_handle s = None /\ Forall (fun op => is_bind op = false) (ops_of id t);
  S_binds : Exists (fun op => is_bind op = true) (ops_of id t) -> fresh_socket s /\ binds_of id t = [];
  S_ordered : ordered (ops_of id t);
  S_closes : Exists (fun op => is_close op = true) (ops_of id t) -> handle_closed s = true;
  S_res : (length (binds_of id t) <= 1)%nat /\ (handle_closed s = false -> binds_of id t <> [] -> fresh_socket s);
  S_closing : state s = CLOSING \/ state s = CLOSED -> handle_closed s = true
}.

(** ** All sockets: [hs] are the handles of UDP sockets with their pointers *)

Record udp_ok (hs : gmap Z positive) (socks : gmap positive UdpSocket) t (evs : list UdpEvent) : Prop := {
  U_handle : forall id p, hs !! id = Some p -> exists s, socks !! p = Some s /\ handle_id s = id /\ sock_ok t evs id p s;
  U_sock : forall p s, socks !! p = Some s -> hs !! handle_id s = Some p;
  U_table : forall id p, udp_sockets_ t !! id = Some p -> hs !! id = Some p;
  U_binds : forall id a n p, BIND id a n p ∈ queue_ (udp_op_queue t) -> hs !! id = Some p;
  U_closed : forall e, e ∈ evs -> e_type e = UDP_CLOSED -> is_Some (hs !! e_handle_id e);
  U_uv : forall h u, uv_handles t !! h = Some u -> exists s, socks !! uv_data u = Some s /\ uv_handle s = Some h
}.

Lemma udp_ok_empty : udp_ok ∅ ∅ new_UdpLoop [].
Proof. split; try done; cbn; try (intros ? ?; rewrite lookup_empty; done); [by intros ? ? ? ? ?%not_elem_of_nil|by intros ? ?%not_elem_of_nil]. Qed.

(** ** Views of changed parts *)

Lemma udp_ops_push id op t : ops_of id (set_ops (Push op (udp_op_queue t)) t) = ops_of id t ++ (if decide (op_id op = id) then [op] else []).
Proof. unfold ops_of. cbn. by rewrite filter_app. Qed.

Lemma udp_ops_pop id op q t rest : queue_ (udp_op_queue t) = op :: rest -> queue_ q = rest ->
  ops_of id t = (if decide (op_id op = id) then [op] else []) ++ ops_of id (set_ops q t).
Proof. intros E1 E2. unfold ops_of. rewrite E1, filter_cons. cbn. rewrite E2. by case_decide. Qed.

Lemma udp_closed_push id e evs : closed_of id (evs ++ [e]) = closed_of id evs ++ (if decide (e_type e = UDP_CLOSED /\ e_handle_id e = id) then [e] else []).
Proof. unfold closed_of. by rewrite filter_app. Qed.

Lemma udp_ordered_snoc ops op : ordered ops -> (is_bind op = true -> Forall (fun o => is_bind o || is_close o = false) ops) -> ordered (ops ++ [op]).
Proof.
  induction ops as [|o ops IH]; intros Ho Hc; [cbn; split; [by intros _|done]|]. destruct Ho as [H1 H2]. cbn. split.
  - intros Hoc. apply Forall_app. split; [by apply H1|]. apply Forall_singleton. destruct (is_bind op) eqn:Eb; [|done].
    specialize (Hc eq_refl). apply Forall_cons in Hc as [Hc _]. congruence.
  - apply IH; [done|]. intros Hb. specialize (Hc Hb). by apply Forall_cons in Hc as [_ Hc].
Qed.

(** ** A step on one socket *)

(** The parts that belong to other sockets are as before. *)
Record apart id p t t' (evs evs' : list UdpEvent) : Prop := {
  O_tab : forall id', id' <> id -> udp_sockets_ t' !! id' = udp_sockets_ t !! id';
  O_ops : forall id', id' <> id -> ops_of id' t' = ops_of id' t;
  O_res : forall id', id' <> id -> binds_of id' t' = binds_of id' t;
  O_closed : forall id', id' <> id -> closed_of id' evs' = closed_of id' evs;
  O_events : forall e, e ∈ evs' -> e ∈ evs \/ e_handle_id e = id;
  O_uv : forall h u, uv_data u <> p -> uv_handles t' !! h = Some u <-> uv_handles t !! h = Some u
}.

(** The handles whose data is a socket are its own. *)
Definition own p (ho : option positive) t : Prop := forall h u, uv_handles t !! h = Some u -> uv_data u = p -> ho = Some h.

Section OneSocket.

Context (hs : gmap Z positive) (socks : gmap positive UdpSocket) (t t' : UdpLoop) (evs evs' : list UdpEvent).
Context (id : Z) (p : positive) (s s' : UdpSocket).
Context (H : udp_ok hs socks t evs) (Hx : hs !! id = Some p) (Hs : socks !! p = Some s).

Lemma udp_owner_ok : handle_id s = id /\ sock_ok t evs id p s.
Proof using H Hx Hs. destruct (U_handle _ _ _ _ H id p Hx) as (s0 & Hs0 & E & Hv). rewrite Hs in Hs0. injection Hs0 as <-. done. Qed.

Lemma udp_owner_unique id' : hs !! id' = Some p -> id' = id.
Proof using H Hx Hs. intros Hx'. destruct (U_handle _ _ _ _ H id' p Hx') as (s0 & Hs0 & E & _). rewrite Hs in Hs0. injection Hs0 as <-. destruct udp_owner_ok. congruence. Qed.

Lemma udp_own_init : own p (uv_handle s) t.
Proof using H Hx Hs. intros h u Hu Hd. destruct (U_uv _ _ _ _ H h u Hu) as (s0 & Hs0 & Hh). rewrite Hd, Hs in Hs0. congruence. Qed.

Lemma udp_one_socket : apart id p t t' evs evs' -> own p (uv_handle s') t' -> handle_id s' = id ->
  (forall q, udp_sockets_ t' !! id = Some q -> q = p) -> (forall a n q, BIND id a n q ∈ ops_of id t' -> q = p) ->
  sock_ok t' evs' id p s' -> udp_ok hs (<[p := s']> socks) t' evs'.
Proof using H Hx Hs.
  intros [O1 O2 O3 O4 O5 O6] Hown Hid Htab Hbind Hv. split.
  - intros id' p' Hx'. destruct (decide (id' = id)) as [->|Hne].
    + assert (p' = p) as -> by congruence. exists s'. by rewrite lookup_insert_eq.
    + destruct (U_handle _ _ _ _ H id' p' Hx') as (s0 & Hs0 & E0 & [V1 V2 V3 V4 V5 V6 V7 V9]).
      assert (p' <> p) as Hpp by (intros ->; apply Hne; by apply udp_owner_unique). exists s0. rewrite lookup_insert_ne by done. split_and!; [done..|].
      split; rewrite ?O1, ?O2, ?O3, ?O4 by done; try done. unfold uv_ok in *. destruct (uv_handle s0); [|done]. destruct V1 as (u & Hu & Hd & Hc).
      exists u. split_and!; [apply O6; [congruence|done]|done..].
  - intros q s0. rewrite lookup_insert_Some. intros [[<- <-]|[Hne Hq]]; [by rewrite Hid|by apply (U_sock _ _ _ _ H)].
  - intros id' q. destruct (decide (id' = id)) as [->|Hne]; [|rewrite O1 by done; apply (U_table _ _ _ _ H)]. intros Hq. by rewrite (Htab q Hq).
  - intros id' a n q Hin. assert (BIND id' a n q ∈ ops_of id' t') as Hin' by (by apply list_elem_of_filter).
    destruct (decide (id' = id)) as [->|Hne]; [by rewrite (Hbind a n q Hin')|]. rewrite O2 in Hin' by done. apply list_elem_of_filter in Hin' as [_ Hin']. by apply (U_binds _ _ _ _ H id' a n).
  - intros e Hin Hc. destruct (O5 e Hin) as [He| ->]; [by apply (U_closed _ _ _ _ H e)|by exists p].
  - intros h u Hu. destruct (decide (uv_data u = p)) as [Ed|Ed].
    + exists s'. rewrite Ed, lookup_insert_eq. split; [done|by eapply Hown].
    + apply O6 in Hu; [|done]. destruct (U_uv _ _ _ _ H h u Hu) as (s1 & Hs1 & Hh1). exists s1. by rewrite lookup_insert_ne.
Qed.

End OneSocket.

Lemma udp_apart_refl id p t evs : apart id p t t evs evs.
Proof. split; try done. by left. Qed.

Lemma udp_apart_trans id p t1 t2 t3 e1 e2 e3 : apart id p t1 t2 e1 e2 -> apart id p t2 t3 e2 e3 -> apart id p t1 t3 e1 e3.
Proof.
  intros [A1 A2 A3 A4 A5 A6] [B1 B2 B3 B4 B5 B6].
  split; try (intros id' Hne; etransitivity; [by apply B1 || by apply B2 || by apply B3 || by apply B4|auto]).
  - intros e He. destruct (B5 e He) as [He'|]; auto.
  - intros h u Hu. by rewrite B6, A6.
Qed.

Lemma udp_apart_tab id p m t evs : (forall id', id' <> id -> m !! id' = udp_sockets_ t !! id') -> apart id p t (set_sockets m t) evs evs.
Proof. intros Hm. split; try done; [by left]. Qed.

Lemma udp_apart_res id p r t evs : (forall id', id' <> id -> bind_id r <> Some id') -> apart id p t (set_resolving (resolving t ++ [r]) t) evs evs.
Proof.
  intros Hr. split; try done; [|by left]. intros id' Hne. unfold binds_of. cbn. rewrite filter_app. cbn. rewrite decide_False by (by apply Hr). apply app_nil_r.
Qed.

Lemma udp_apart_op id p op t evs : op_id op = id -> apart id p t (set_ops (Push op (udp_op_queue t)) t) evs evs.
Proof. intros Ho. split; try done; [|by left]. intros id' Hne. rewrite udp_ops_push, decide_False by congruence. apply app_nil_r. Qed.

Lemma udp_apart_event id p e t evs : e_handle_id e = id -> apart id p t (set_events (Push e (udp_events t)) t) evs (evs ++ [e]).
Proof.
  intros He. split; try done.
  - intros id' Hne. rewrite udp_closed_push, decide_False by (intros [_ ?]; congruence). apply app_nil_r.
  - intros e' [He'| ->%list_elem_of_singleton]%elem_of_app; auto.
Qed.

Lemma udp_apart_put id p h u t evs : uv_data u = p -> (forall u0, uv_handles t !! h = Some u0 -> uv_data u0 = p) ->
  apart id p t (set_uvs (<[h := u]> (uv_handles t)) t) evs evs.
Proof.
  intros Hd Hh. split; try done; [by left|]. intros h' u' Hu'. cbn. destruct (decide (h' = h)) as [->|Hne]; [|by rewrite lookup_insert_ne].
  rewrite lookup_insert_eq. split; [intros [= <-]; done|]. intros Hu. by destruct (Hu' (Hh u' Hu)).
Qed.

Lemma udp_apart_del id p h u t evs : uv_handles t !! h = Some u -> uv_data u = p -> apart id p t (set_uvs (delete h (uv_handles t)) t) evs evs.
Proof.
  intros Hu Hd. split; try done; [by left|]. intros h' u' Hu'. cbn. destruct (decide (h' = h)) as [->|Hne]; [|by rewrite lookup_delete_ne].
  rewrite lookup_delete_eq. split; [done|]. intros Hx. congruence.
Qed.

(** ** Taking something out of a queue *)

(** Fewer operations and resolutions. *)
Lemma udp_sock_ok_less t t' evs id p s : sock_ok t evs id p s -> udp_sockets_ t' = udp_sockets_ t -> uv_handles t' = uv_handles t ->
  (exists pre, ops_of id t = pre ++ ops_of id t') -> (binds_of id t' = binds_of id t \/ binds_of id t' = []) -> sock_ok t' evs id p s.
Proof.
  intros [V1 V2 V3 V4 V5 V6 V7 V9] E1 E2 [pre Epre] Hb. split; try done.
  - unfold uv_ok. by rewrite E2.
  - rewrite E1. intros Ec. destruct (V3 Ec) as (H1 & H2 & H3). rewrite Epre in H3. by apply Forall_app in H3 as [_ ?].
  - intros Hex. destruct V4 as [H1 H2]; [rewrite Epre; apply Exists_app; by right|]. split; [done|]. destruct Hb as [->|]; done.
  - rewrite Epre in V5. clear -V5. induction pre as [|o pre IH]; [done|]. destruct V5 as [_ V5]. by apply IH.
  - intros Hex. apply V6. rewrite Epre. apply Exists_app. by right.
  - destruct V7 as [H1 H2]. destruct Hb as [->| ->]; [done|]. split; [cbn; lia|done].
Qed.

(** The operation at the head of the queue. *)
Lemma udp_pop_ok hs socks t evs op q rest : udp_ok hs socks t evs -> queue_ (udp_op_queue t) = op :: rest -> queue_ q = rest ->
  udp_ok hs socks (set_ops q t) evs /\
  (forall id a n p, op = BIND id a n p -> hs !! id = Some p) /\
  (forall p s, hs !! op_id op = Some p -> socks !! p = Some s ->
    (is_bind op || is_close op = true -> Forall (fun o => is_bind o = false) (ops_of (op_id op) (set_ops q t))) /\
    (is_close op = true -> handle_closed s = true) /\ (is_bind op = true -> fresh_socket s /\ binds_of (op_id op) t = [])).
Proof.
  intros H Eq Er. assert (ops_of (op_id op) t = op :: ops_of (op_id op) (set_ops q t)) as Heq by (by rewrite (udp_ops_pop (op_id op) op q t rest Eq Er), decide_True).
  split_and!.
  - split; cbn; try apply H.
    + intros id p Hx. destruct (U_handle _ _ _ _ H id p Hx) as (s & Hs & Hid & Hv). exists s. split_and!; [done|done|].
      eapply udp_sock_ok_less; [exact Hv|done|done| |by left]. eexists. by apply (udp_ops_pop id op q t rest).
    + intros id a n p Hin. apply (U_binds _ _ _ _ H id a n p). rewrite Eq. constructor 2. by rewrite <- Er.
  - intros id a n p ->. apply (U_binds _ _ _ _ H id a n). rewrite Eq. constructor.
  - intros p s Hx Hs. destruct (udp_owner_ok hs socks t evs (op_id op) p s H Hx Hs) as [_ [V1 V2 V3 V4 V5 V6 V7 V9]]. rewrite Heq in V4, V5, V6. split_and!.
    + apply V5.
    + intros Hc. apply V6. by constructor.
    + intros Hb. apply V4. by constructor.
Qed.

(** A resolution that ended. *)
Lemma udp_resolved_ok hs socks t evs i r : udp_ok hs socks t evs -> resolving t !! i = Some r ->
  let t' := set_resolving (delete i (resolving t)) t in
  udp_ok hs socks t' evs /\
  (forall id p s, bind_id r = Some id -> hs !! id = Some p -> socks !! p = Some s -> binds_of id t' = [] /\
    (handle_closed s = false -> fresh_socket s /\ Forall (fun o => is_bind o = false) (ops_of id t))).
Proof.
  intros H Hi t'. pose proof (delete_Permutation _ _ _ Hi) as Hp.
  assert (forall id, binds_of id t ≡ₚ (if decide (bind_id r = Some id) then [r] else []) ++ binds_of id t') as Hb.
  { intros id. unfold binds_of, t'. cbn. rewrite Hp at 1. rewrite filter_cons. by case_decide. }
  assert (forall id p s, hs !! id = Some p -> socks !! p = Some s -> binds_of id t' = binds_of id t \/ binds_of id t' = []) as Hor.
  { intros id p s Hx Hs. destruct (udp_owner_ok hs socks t evs id p s H Hx Hs) as [_ Hv]. pose proof (proj1 (S_res _ _ _ _ _ Hv)) as Hl. specialize (Hb id). case_decide as Hd.
    - right. apply Permutation_length in Hb. rewrite length_app in Hb. cbn [length] in Hb. apply nil_length_inv. lia.
    - left. unfold binds_of, t'. cbn. clear -Hd Hi. revert i Hi. induction (resolving t) as [|a l IH]; intros [|i] Hi; try done.
      + injection Hi as ->. change (delete 0%nat (r :: l)) with l. by rewrite filter_cons, decide_False.
      + change (delete (S i) (a :: l)) with (a :: delete i l). rewrite !filter_cons. rewrite (IH i Hi). done. }
  split.
  - split; try apply H. intros id p Hx. destruct (U_handle _ _ _ _ H id p Hx) as (s & Hs & Hid & Hv). exists s. split_and!; [done|done|].
    eapply udp_sock_ok_less; [exact Hv|done|done|by exists []|by eapply Hor].
  - intros id p s Hr Hx Hs. destruct (udp_owner_ok hs socks t evs id p s H Hx Hs) as [_ [V1 V2 V3 V4 V5 V6 [V7 V8] V9]]. specialize (Hb id). rewrite decide_True in Hb by done.
    assert (binds_of id t <> []) as Hne by (intros E; rewrite E in Hb; by apply Permutation_nil_cons in Hb). split.
    + apply Permutation_length in Hb. rewrite length_app in Hb. cbn [length] in Hb. apply nil_length_inv. lia.
    + intros Hc. split; [by apply V8|]. apply Forall_forall. intros o Ho. destruct (is_bind o) eqn:Eb; [|done]. destruct V4 as [_ V4]; [|done].
      apply Exists_exists. exists o. done.
Qed.

(** ** Handles *)

Lemma udp_free_ok hs socks t e evs p : udp_ok hs socks t (e :: evs) -> e_type e = UDP_CLOSED -> hs !! e_handle_id e = Some p ->
  udp_ok (delete (e_handle_id e) hs) (delete p socks) t evs.
Proof.
  intros H He Hx. destruct (U_handle _ _ _ _ H _ _ Hx) as (s & Hs & Hid & [V1 V2 V3 V4 V5 V6 V7 V9]).
  assert (closed_of (e_handle_id e) (e :: evs) = e :: closed_of (e_handle_id e) evs) as Ec by (unfold closed_of; by rewrite filter_cons, decide_True).
  rewrite Ec in V2. cbn in V2. case_decide as Hst; [|lia]. destruct (V3 Hst) as (Htab & Huv & Hbinds).
  assert (closed_of (e_handle_id e) evs = []) as Enil by (apply nil_length_inv; lia).
  split.
  - intros id q. rewrite lookup_delete_Some. intros [Hne Hq]. destruct (U_handle _ _ _ _ H id q Hq) as (s0 & Hs0 & Hid0 & [W1 W2 W3 W4 W5 W6 W7 W9]). exists s0.
    rewrite lookup_delete_ne; [|intros <-; congruence]. split_and!; [done..|]. split; try done. rewrite <- W2. unfold closed_of. rewrite filter_cons, decide_False; [done|]. intros [_ ?]. congruence.
  - intros q s0 [Hne Hq]%lookup_delete_Some. rewrite lookup_delete_ne; [by apply (U_sock _ _ _ _ H)|]. intros E. pose proof (U_sock _ _ _ _ H q s0 Hq). congruence.
  - intros id q Hq. rewrite lookup_delete_ne; [by apply (U_table _ _ _ _ H)|]. intros <-. congruence.
  - intros id a n q Hin. rewrite lookup_delete_ne; [by apply (U_binds _ _ _ _ H id a n)|]. intros E. rewrite Forall_forall in Hbinds.
    specialize (Hbinds (BIND id a n q)). rewrite E in Hbinds. discriminate Hbinds. by apply list_elem_of_filter.
  - intros e' He' Hc'. assert (e_handle_id e' <> e_handle_id e) as Hne.
    { intros E. assert (e' ∈ closed_of (e_handle_id e) evs) as Hin by (by apply list_elem_of_filter). rewrite Enil in Hin. by apply not_elem_of_nil in Hin. }
    rewrite lookup_delete_ne by done. apply (U_closed _ _ _ _ H e'); [by constructor|done].
  - intros h u Hu. destruct (U_uv _ _ _ _ H h u Hu) as (s0 & Hs0 & Hh). exists s0. rewrite lookup_delete_ne; [done|]. intros E. rewrite <- E, Hs in Hs0. congruence.
Qed.

(** A new socket whose number nothing refers to. *)
Definition new_id id t (evs : list UdpEvent) : Prop := ops_of id t = [] /\ binds_of id t = [] /\ closed_of id evs = [].

Lemma udp_new_ok hs socks t evs id p s : udp_ok hs socks t evs -> hs !! id = None -> socks !! p = None -> new_id id t evs -> handle_id s = id ->
  fresh_socket s -> udp_ok (<[id := p]> hs) (<[p := s]> socks) t evs.
Proof.
  intros H Hx Hp (N1 & N2 & N3) Hid [Hst Huv]. split.
  - intros id' q. rewrite lookup_insert_Some. intros [[<- <-]|[Hne Hq]].
    + exists s. rewrite lookup_insert_eq. split_and!; [done|done|]. split; rewrite ?N1, ?N2, ?N3;
        [unfold uv_ok; by rewrite Huv, Hst|by rewrite Hst|by rewrite Hst|by intros ?%Exists_nil|done|by intros ?%Exists_nil|split; [cbn; lia|done]|by rewrite Hst; intros [|]].
    + destruct (U_handle _ _ _ _ H id' q Hq) as (s0 & Hs0 & Hv). exists s0. rewrite lookup_insert_ne; [done|]. intros <-. congruence.
  - intros q s0. rewrite lookup_insert_Some. intros [[<- <-]|[Hne Hq]]; [by rewrite Hid, lookup_insert_eq|].
    pose proof (U_sock _ _ _ _ H q s0 Hq) as E. rewrite lookup_insert_ne; [done|]. congruence.
  - intros id' q Hq. pose proof (U_table _ _ _ _ H id' q Hq) as E. rewrite lookup_insert_ne; [done|]. intros <-. congruence.
  - intros id' a n q Hin. pose proof (U_binds _ _ _ _ H id' a n q Hin) as E. rewrite lookup_insert_ne; [done|]. intros <-. congruence.
  - intros e He Hc. destruct (U_closed _ _ _ _ H e He Hc) as [q Hq]. exists q. rewrite lookup_insert_ne; [done|]. congruence.
  - intros h u Hu. destruct (U_uv _ _ _ _ H h u Hu) as (s0 & Hs0 & Hh). exists s0. rewrite lookup_insert_ne; [done|]. intros E. rewrite <- E, Hp in Hs0. done.
Qed.

(** An event that closes nothing is done. *)
Lemma udp_drop_ok hs socks t e evs : udp_ok hs socks t (e :: evs) -> e_type e <> UDP_CLOSED -> udp_ok hs socks t evs.
Proof.
  intros H He. split; try apply H.
  - intros id p Hx. destruct (U_handle _ _ _ _ H id p Hx) as (s & Hs & Hid & [V1 V2 V3 V4 V5 V6 V7 V9]). exists s. split_and!; [done|done|]. split; try done.
    rewrite <- V2. unfold closed_of. rewrite filter_cons, decide_False; [done|]. by intros [? _].
  - intros e' He'. apply (U_closed _ _ _ _ H e'). by constructor.
Qed.
