(* ===== verification/UdpSafe.v ===== *)
(** * UDP: the event thread's functions keep the invariant

    Each function of [UdpLoop.v] on a socket is defined and leads to a state
    that satisfies [udp_ok] again. *)

From stdpp Require Import base numbers list gmap.
From Stdlib Require Import ZArith Lia.
From S2P Require Import Prelude LockedQueue UdpSocket HandleManager Natives UdpLoop UdpState.

Import Udp.

(** The events that are not finished: taken by the game thread, then queued. *)
Definition evs_of (l : list UdpEvent) (t : UdpLoop) : list UdpEvent := l ++ queue_ (udp_events t).

Lemma udp_evs_push l e t : evs_of l (PushSocketEvent e t) = evs_of l t ++ [e].
Proof. unfold evs_of. cbn. by rewrite app_assoc. Qed.

(** ** Changes of one socket's state *)

Lemma sock_ok_event t evs id p s e : sock_ok t evs id p s -> e_type e <> UDP_CLOSED -> sock_ok (PushSocketEvent e t) (evs ++ [e]) id p s.
Proof. intros [V1 V2 V3 V4 V5 V6 V7 V9] He. split; try done. rewrite udp_closed_push, decide_False; [by rewrite app_nil_r|]. by intros [? _]. Qed.

Section Keeps.

Context (uv_strerror ares_strerror : Z -> bytes).
Context (hs : gmap Z positive) (socks : gmap positive UdpSocket) (t : UdpLoop) (l : list UdpEvent) (id : Z) (p : positive) (s : UdpSocket).
Context (H : udp_ok hs socks t (evs_of l t)) (Hx : hs !! id = Some p) (Hs : socks !! p = Some s).

Definition leads (r : option (UdpSocket * UdpLoop)) : Prop :=
  exists s' t', r = Some (s', t') /\ udp_ok hs (<[p := s']> socks) t' (evs_of l t').

Lemma udp_leads_same : leads (Some (s, t)).
Proof using H Hx Hs. exists s, t. split; [done|]. by rewrite insert_id. Qed.

(** The socket's parts after a change. *)
Lemma leads_to s' t' : apart id p t t' (evs_of l t) (evs_of l t') -> own p (uv_handle s') t' -> handle_id s' = id ->
  (udp_sockets_ t' !! id = None \/ udp_sockets_ t' !! id = udp_sockets_ t !! id \/ udp_sockets_ t' !! id = Some p) -> ops_of id t' = ops_of id t ->
  sock_ok t' (evs_of l t') id p s' -> leads (Some (s', t')).
Proof using H Hx Hs.
  intros Ha Ho Hid Ht Hops Hv. exists s', t'. split; [done|]. eapply udp_one_socket; try done.
  - intros q Hq. destruct Ht as [E|[E|E]]; rewrite E in Hq; [done| |congruence]. apply (U_table _ _ _ _ H) in Hq. congruence.
  - rewrite Hops. intros a n q [_ Hin]%list_elem_of_filter. apply (U_binds _ _ _ _ H id a n q) in Hin. congruence.
Qed.

Lemma udp_the_id : handle_id s = id. Proof using H Hx Hs. by destruct (udp_owner_ok hs socks t _ id p s H Hx Hs). Qed.
Lemma udp_the_ok : sock_ok t (evs_of l t) id p s. Proof using H Hx Hs. by destruct (udp_owner_ok hs socks t _ id p s H Hx Hs). Qed.
Lemma the_own : own p (uv_handle s) t. Proof using H Hx Hs. by eapply udp_own_init. Qed.

(** An event about the socket that does not close it. *)
Lemma udp_leads_event e : e_handle_id e = id -> e_type e <> UDP_CLOSED -> leads (Some (s, PushSocketEvent e t)).
Proof using H Hx Hs.
  intros He Ht. apply leads_to; [rewrite udp_evs_push; by apply udp_apart_event|exact the_own|exact udp_the_id|by right; left|done|].
  rewrite udp_evs_push. by apply sock_ok_event; [exact udp_the_ok|].
Qed.

Lemma udp_emplace_ok : state s <> CLOSED -> udp_ok hs socks (emplace id p t) (evs_of l t).
Proof using H Hx Hs.
  intros Hst. unfold emplace. destruct (udp_sockets_ t !! id) eqn:E; [done|]. rewrite <- (insert_id socks p s Hs). eapply udp_one_socket; try done.
  - apply udp_apart_tab. intros id' Hne. by rewrite lookup_insert_ne.
  - exact the_own.
  - exact udp_the_id.
  - cbn. rewrite lookup_insert_eq. congruence.
  - intros a n q [_ Hin]%list_elem_of_filter. apply (U_binds _ _ _ _ H id a n q) in Hin. congruence.
  - destruct udp_the_ok as [V1 V2 V3 V4 V5 V6 V7 V9]. split; try done.
Qed.

Lemma ProcessUdpBind_leads addr port : fresh_socket s -> binds_of id t = [] -> Forall (fun o => is_bind o = false) (ops_of id t) ->
  leads (ProcessUdpBind id addr port s t).
Proof using H Hx Hs.
  intros Hf Hb Hn. unfold ProcessUdpBind. destruct (handle_closed s) eqn:Ec; [exact udp_leads_same|].
  apply leads_to; [apply udp_apart_res; intros id' Hne [= <-]; done|exact the_own|exact udp_the_id|by right; left|done|].
  destruct udp_the_ok as [V1 V2 V3 V4 V5 V6 V7 V9]. split; try done.
  - intros Hex. apply Exists_exists in Hex as (o & Ho & Eo). rewrite Forall_forall in Hn. rewrite (Hn o Ho) in Eo. done.
  - unfold binds_of in *. cbn. rewrite filter_app, Hb. cbn. rewrite decide_True by done. split; [cbn; lia|done].
Qed.

Lemma ProcessUdpSend_leads data addr port : leads (ProcessUdpSend id data addr port s t).
Proof using H Hx Hs.
  unfold ProcessUdpSend. destruct (_ || _); [exact udp_leads_same|].
  apply leads_to; [by apply udp_apart_res|exact the_own|exact udp_the_id|by right; left|done|].
  assert (binds_of id (set_resolving (resolving t ++ [R_send id data addr port]) t) = binds_of id t) as Eb by (unfold binds_of; cbn; by rewrite filter_app, app_nil_r).
  destruct udp_the_ok as [V1 V2 V3 V4 V5 V6 V7 V9]. split; try done; rewrite ?Eb; done.
Qed.

Lemma ProcessUdpSetOption_leads option value : leads (ProcessUdpSetOption option value s t).
Proof using H Hx Hs.
  unfold ProcessUdpSetOption. pose proof (S_uv _ _ _ _ _ udp_the_ok) as Hu. unfold uv_ok in Hu. destruct (uv_handle s) as [h|]; [|exact udp_leads_same].
  destruct Hu as (u & Hu & _). rewrite Hu. cbn. destruct (_ || _); exact udp_leads_same.
Qed.

(** Changing the libuv handle of the socket, not its state. *)
Lemma sock_ok_put h u s' t' : uv_handle s' = Some h -> uv_handles t' = <[h := u]> (uv_handles t) -> uv_data u = p -> uv_closing u = bool_decide (state s' = CLOSING) ->
  udp_sockets_ t' = udp_sockets_ t -> ops_of id t' = ops_of id t -> binds_of id t' = binds_of id t -> handle_closed s' = handle_closed s ->
  udp_events t' = udp_events t -> state s <> CLOSED -> state s' <> CLOSED -> (state s' = CLOSING -> handle_closed s = true) ->
  (Exists (fun op => is_bind op = true) (ops_of id t) \/ (handle_closed s = false /\ binds_of id t <> []) -> fresh_socket s') ->
  sock_ok t' (evs_of l t') id p s'.
Proof using H Hx Hs.
  intros E1 E2 E3 E4 E5 E6 E7 E8 E9 N1 N2 N3 Hf. destruct udp_the_ok as [V1 V2 V3 V4 V5 V6 [V7 V8] V9]. split; rewrite ?E5, ?E6, ?E7, ?E8; try done.
  - unfold uv_ok. rewrite E1. exists u. rewrite E2, lookup_insert_eq. done.
  - rewrite decide_False by done. rewrite decide_False in V2 by done. unfold evs_of in *. by rewrite E9.
  - intros He. split; [apply Hf; by left|by apply V4].
  - split; [done|]. intros Hc Hb. apply Hf. by right.
  - intros [?|?]; [by apply N3|done].
Qed.

(** The callback of a resolution for [BIND]. *)
Lemma bind_resolved_leads status rc rc_recv : binds_of id t = [] -> (handle_closed s = false -> fresh_socket s /\ Forall (fun o => is_bind o = false) (ops_of id t)) ->
  leads (bind_resolved uv_strerror ares_strerror id p status rc rc_recv s t).
Proof using H Hx Hs.
  intros Hb Hf. unfold bind_resolved. destruct (handle_closed s) eqn:Ec; [exact udp_leads_same|]. destruct (Hf eq_refl) as [[Hst Huv] Hn]. clear Hf.
  destruct (negb (status =? 0)); [by apply udp_leads_event|]. set (h := fresh_addr (uv_handles t)). pose proof (fresh_addr_None (uv_handles t)) as Hh. fold h in Hh.
  set (s1 := set_uv_handle (Some h) s).
  assert (forall u t2 e st, uv_data u = p -> uv_closing u = false -> st = CREATED \/ st = BOUND -> (forall x, e = Some x -> e_handle_id x = id /\ e_type x <> UDP_CLOSED) ->
    t2 = uv_put h u t -> leads (Some (set_state st s1, match e with Some x => PushSocketEvent x t2 | None => t2 end))) as Hput.
  { intros u t2 e st Hd Hc Hor He ->. assert (sock_ok (uv_put h u t) (evs_of l t) id p (set_state st s1)) as Hok.
    { change (evs_of l t) with (evs_of l (uv_put h u t)). eapply (sock_ok_put h u); try done; cbn.
      - rewrite Hc. by destruct Hor as [->| ->].
      - by rewrite Hst.
      - by destruct Hor as [->| ->].
      - by destruct Hor as [->| ->].
      - intros [He1|[_ ?]]; [|done]. apply Exists_exists in He1 as (o & Ho & Eo). rewrite Forall_forall in Hn. rewrite (Hn o Ho) in Eo. done. }
    assert (own p (Some h) (uv_put h u t)) as Hown.
    { intros h' u'. cbn. rewrite lookup_insert_Some. intros [[<- _]|[Hne Hu']] Hd'; [done|]. pose proof (the_own h' u' Hu' Hd'). congruence. }
    assert (apart id p t (uv_put h u t) (evs_of l t) (evs_of l (uv_put h u t))) as Hap by (apply udp_apart_put; [done|intros u0; congruence]).
    destruct e as [x|]; [destruct (He x eq_refl) as [He1 He2]|]; apply leads_to; try done; try exact udp_the_id; try (by right; left).
    - eapply udp_apart_trans; [exact Hap|]. rewrite udp_evs_push. by apply udp_apart_event.
    - rewrite udp_evs_push. by apply sock_ok_event. }
  assert (uv_handles (uv_put h (uv_udp_init p) t) !! h = Some (uv_udp_init p)) as Hl by apply lookup_insert_eq.
  unfold ApplyUdpOptions, uv_open. cbn [uv_handle s1 set_uv_handle]. rewrite Hl. cbn [uv_udp_init uv_closing mbind option_bind].
  assert (s1 = set_state CREATED s1) as Es by (unfold s1, set_state, set_uv_handle; cbn; by rewrite Hst).
  destruct (negb (rc =? 0)); [|destruct (negb (rc_recv =? 0))].
  - rewrite Es at 1. apply (Hput (uv_udp_init p) _ (Some (MakeErrorEvent UDP_ERROR id (plugin_context s) (on_error s) (userdata s) false rc (uv_strerror rc))) CREATED); try done; [by left|].
    by intros x [= <-].
  - rewrite Es at 1. apply (Hput (uv_udp_init p) _ (Some (MakeErrorEvent UDP_ERROR id (plugin_context s) (on_error s) (userdata s) false rc_recv (uv_strerror rc_recv))) CREATED); try done; [by left|].
    by intros x [= <-].
  - unfold uv_udp_recv_start, uv_open. rewrite Hl. cbn [uv_udp_init uv_closing mbind option_bind uv_data uv_sends].
    apply (Hput (mkUv p false true []) _ None BOUND); try done; [by right|]. unfold uv_put, set_uvs. cbn. by rewrite insert_insert_eq.
Qed.

Lemma own_put_same h u : own p (Some h) t -> own p (Some h) (uv_put h u t).
Proof. intros Ho h' u'. cbn. rewrite lookup_insert_Some. intros [[<- _]|[Hne Hu']] Hd; [done|by eapply Ho]. Qed.

(** A queued or resolving bind is one of a fresh socket. *)
Lemma bindable : Exists (fun op => is_bind op = true) (ops_of id t) \/ (handle_closed s = false /\ binds_of id t <> []) -> fresh_socket s.
Proof using H Hx Hs. intros [He|[Hc Hb]]; [by apply (S_binds _ _ _ _ _ udp_the_ok)|by apply (S_res _ _ _ _ _ udp_the_ok)]. Qed.

(** The socket is closed: out of the table, without handle, with its event. *)
Lemma closed_ok s' t1 : state s' = CLOSED -> uv_handle s' = None -> handle_closed s' = true -> handle_id s' = id -> state s <> CLOSED ->
  Forall (fun o => is_bind o = false) (ops_of id t) -> ops_of id t1 = ops_of id t -> binds_of id t1 = binds_of id t -> udp_events t1 = udp_events t ->
  sock_ok (erase id (push_closed s' t1)) (evs_of l (erase id (push_closed s' t1))) id p s'.
Proof using H Hx Hs.
  intros E1 E2 E3 E4 N1 Hn E5 E6 E7. change (evs_of l (erase id (push_closed s' t1))) with (evs_of l (push_closed s' t1)). unfold push_closed at 2. rewrite udp_evs_push.
  set (e := MakeSocketEvent _ _ _ _ _ _). assert (evs_of l t1 = evs_of l t) as -> by (unfold evs_of; by rewrite E7).
  change (ops_of id (erase id (push_closed s' t1))) with (ops_of id t1) in *. destruct udp_the_ok as [V1 V2 V3 V4 V5 V6 [V7 V8] V9].
  assert (Exists (fun op => is_bind op = true) (ops_of id t) -> False) as Hno.
  { intros (o & Ho & Eo)%Exists_exists. rewrite Forall_forall in Hn. rewrite (Hn o Ho) in Eo. done. }
  change (ops_of id (erase id (push_closed s' t1))) with (ops_of id t1). change (binds_of id (erase id (push_closed s' t1))) with (binds_of id t1).
  split; change (ops_of id (erase id (push_closed s' t1))) with (ops_of id t1); change (binds_of id (erase id (push_closed s' t1))) with (binds_of id t1); rewrite ?E5, ?E6; try done.
  - unfold uv_ok. rewrite E2, E1. done.
  - rewrite udp_closed_push, decide_True by done. rewrite length_app, V2, E1. rewrite decide_False by done. by rewrite decide_True.
  - intros _. split_and!; [apply lookup_delete_eq|done|done].
  - split; [done|]. congruence.
Qed.

(** The callback of a resolution for [SEND]. *)
Lemma send_resolved_leads data peer status rc : leads (send_resolved ares_strerror id data peer status rc s t).
Proof using H Hx Hs.
  unfold send_resolved. pose proof (S_uv _ _ _ _ _ udp_the_ok) as Hu. unfold uv_ok in Hu. destruct (uv_handle s) as [h|] eqn:Eh; [|exact udp_leads_same].
  destruct (handle_closed s) eqn:Ec; [exact udp_leads_same|]. destruct (negb (status =? 0)); [by apply udp_leads_event|]. destruct Hu as (u & Hu & Hd & Hcl).
  assert (uv_closing u = false) as Hc0.
  { rewrite Hcl. apply bool_decide_false. intros E. rewrite (S_closing _ _ _ _ _ udp_the_ok (or_introl E)) in Ec. done. }
  unfold uv_udp_send, uv_open. rewrite Hu. cbn [mbind option_bind]. rewrite Hc0. cbn [mbind option_bind]. destruct (rc =? 0); [|exact udp_leads_same].
  set (u' := mkUv _ _ _ _). apply leads_to; try done; try exact udp_the_id; try (by right; left).
  - apply udp_apart_put; [done|intros u0; congruence].
  - rewrite Eh. apply own_put_same. rewrite <- Eh. exact the_own.
  - eapply (sock_ok_put h u'); try done; [by rewrite <- Hcl|..].
    + intros E. rewrite (S_closing _ _ _ _ _ udp_the_ok (or_intror E)) in Ec. done.
    + intros E. rewrite (S_closing _ _ _ _ _ udp_the_ok (or_intror E)) in Ec. done.
    + intros E. exact (S_closing _ _ _ _ _ udp_the_ok (or_introl E)).
    + exact bindable.
Qed.

Lemma ProcessUdpClose_leads : handle_closed s = true -> Forall (fun o => is_bind o = false) (ops_of id t) -> leads (ProcessUdpClose id s t).
Proof using H Hx Hs.
  intros Hc Hn. unfold ProcessUdpClose. destruct (bool_decide (state s = CLOSING) || bool_decide (state s = CLOSED)) eqn:Es; [exact udp_leads_same|].
  apply orb_false_iff in Es as [E1%bool_decide_eq_false E2%bool_decide_eq_false]. cbn [uv_handle set_state]. pose proof (S_uv _ _ _ _ _ udp_the_ok) as Hu. unfold uv_ok in Hu.
  destruct (uv_handle s) as [h|] eqn:Eh.
  - destruct Hu as (u & Hu & Hd & Hcl). rewrite bool_decide_false in Hcl by done. unfold uv_udp_recv_stop, uv_open. rewrite Hu. cbn [mbind option_bind]. rewrite Hcl. cbn [mbind option_bind].
    unfold uv_close, uv_open. cbn [uv_handles uv_put set_uvs]. rewrite lookup_insert_eq. cbn [mbind option_bind uv_closing uv_data uv_sends].
    set (u' := mkUv (uv_data u) true false (uv_sends u)). unfold uv_put, set_uvs. cbn [uv_handles udp_op_queue udp_events udp_sockets_ resolving]. rewrite insert_insert_eq.
    apply leads_to; try done; try exact udp_the_id; try (by right; left).
    + apply (udp_apart_put id p h u' t); [done|intros u0; congruence].
    + cbn [uv_handle set_state]. rewrite Eh. apply own_put_same. rewrite <- Eh. exact the_own.
    + eapply (sock_ok_put h u'); try done. intros [He|[? _]]; [|congruence]. apply Exists_exists in He as (o & Ho & Eo). rewrite Forall_forall in Hn. rewrite (Hn o Ho) in Eo. done.
  - set (s' := set_state CLOSED (set_state CLOSING s)). apply leads_to.
    + eapply udp_apart_trans; [apply (udp_apart_event id p (MakeSocketEvent UDP_CLOSED (handle_id s') (plugin_context s') (on_close s') (userdata s') (handle_closed s'))); exact udp_the_id|].
      unfold erase, push_closed. rewrite <- udp_evs_push. apply udp_apart_tab. intros id' Hne. by rewrite lookup_delete_ne.
    + exact the_own.
    + exact udp_the_id.
    + left. apply lookup_delete_eq.
    + done.
    + apply closed_ok; try done; exact udp_the_id.
Qed.

Lemma OnUdpRead_leads r : leads (OnUdpRead uv_strerror r s t).
Proof using H Hx Hs.
  destruct r as [data ip port| |code]; cbn; [destruct (_ || _)| |]; try exact udp_leads_same; apply udp_leads_event; try done; exact udp_the_id.
Qed.

(** The callback of [uv_close]. *)
Lemma OnUdpClosed_leads h : uv_handle s = Some h -> state s = CLOSING -> leads (OnUdpClosed s t).
Proof using H Hx Hs.
  intros Eh Est. pose proof (S_uv _ _ _ _ _ udp_the_ok) as Hu. unfold uv_ok in Hu. rewrite Eh in Hu. destruct Hu as (u & Hu & Hd & _).
  unfold OnUdpClosed. cbn [uv_handle set_state]. rewrite Eh. cbn [mbind option_bind]. rewrite Hu. cbn [mbind option_bind handle_id set_uv_handle set_state].
  set (s' := set_uv_handle None _). set (t1 := set_uvs _ t). rewrite udp_the_id. apply leads_to.
  - eapply udp_apart_trans; [by apply (udp_apart_del id p h u t)|]. fold t1. change (evs_of l t) with (evs_of l t1).
    eapply udp_apart_trans; [apply (udp_apart_event id p (MakeSocketEvent UDP_CLOSED (handle_id s') (plugin_context s') (on_close s') (userdata s') (handle_closed s'))); exact udp_the_id|].
    unfold erase, push_closed. rewrite <- udp_evs_push. apply udp_apart_tab. intros id' Hne. by rewrite lookup_delete_ne.
  - intros h' u'. cbn. rewrite lookup_delete_Some. intros [Hne Hu'] Hd'. pose proof (the_own h' u' Hu' Hd'). congruence.
  - exact udp_the_id.
  - left. apply lookup_delete_eq.
  - done.
  - apply closed_ok; try done; [apply (S_closing _ _ _ _ _ udp_the_ok); by left|exact udp_the_id|by rewrite Est|]. apply Forall_forall. intros o Ho. destruct (is_bind o) eqn:Eb; [|done].
    destruct (S_binds _ _ _ _ _ udp_the_ok) as [[? _] _]; [apply Exists_exists; by exists o|congruence].
Qed.

End Keeps.
