(* ===== verification/UdpSystem.v ===== *)
(** * UDP as a whole: plugins, the event thread, libuv and frames

    Natives of plugins, operations, resolutions, libuv's callbacks and the parts
    of a dispatch before and after the plugin's function are steps that
    interleave in any order, and so is everything else that happens in the
    world, as long as it leaves the sockets alone.  [udp_may] says when a step
    can happen (what libuv and c-ares do) and what is asked of plugins. *)

From stdpp Require Import base numbers list gmap.
From Stdlib Require Import ZArith Lia.
From S2P Require Import Clock UdpSocket LinkedList LockedQueue MsgPack Prelude HandleManager NodePool DataMap DataValue Float Text DataNode HeaderMap HttpRequest EventLoop HttpState DataRefcount DataCopy JsonText JsonParse DataBuild DataHandle DataIterator Natives NativesJson NativesJsonSafe UdpLoop UdpState UdpSafe.

Import Udp.

Section UdpSystem.

Context {MO : DataMap bytes} {MI : DataMap Z} {P : Type} {PA : NodeAllocator P} {M : Type} {PC : PluginContext M}.
Context (has_function : positive -> Z -> bool) (uv_strerror ares_strerror : Z -> bytes).

#[local] Notation N := (N (P := P) (M := M)).
#[local] Notation world := (world (P := P) (M := M)).
#[local] Notation native := (native (P := P) (M := M)).
#[local] Notation "x <- m ;; k" := (nbind m (fun x => k)) (at level 100, m at next level, right associativity).
#[local] Notation "m ;;; k" := (nbind m (fun _ => k)) (at level 100, right associativity).
Implicit Types (w : world) (s : UdpSocket) (t : UdpLoop) (p : positive) (id : Z) (e : UdpEvent).

(** ** The part of the world that is UDP's *)

Definition as_udp (o : object) : option UdpSocket := match o with OUdpSocket s => Some s | _ => None end.
Definition udp_socks (os : gmap positive object) : gmap positive UdpSocket := omap as_udp os.
Definition udp_handles (used : gmap Z Handle) : gmap Z positive := omap (fun x => if decide (type x = HANDLE_UDP_SOCKET) then Some (pointer x) else None) used.

Lemma socks_Some os p s : udp_socks os !! p = Some s <-> os !! p = Some (OUdpSocket s).
Proof. unfold udp_socks. rewrite lookup_omap. destruct (os !! p) as [[]|]; cbn; naive_solver. Qed.

Lemma socks_insert os p s : udp_socks (<[p := OUdpSocket s]> os) = <[p := s]> (udp_socks os).
Proof. unfold udp_socks. by apply omap_insert_Some. Qed.

Lemma socks_delete os p : udp_socks (delete p os) = delete p (udp_socks os).
Proof. apply omap_delete. Qed.

Lemma udp_handles_Some used id p : udp_handles used !! id = Some p <-> exists x, used !! id = Some x /\ type x = HANDLE_UDP_SOCKET /\ pointer x = p.
Proof.
  unfold udp_handles. rewrite lookup_omap. destruct (used !! id) as [x|]; cbn; [|naive_solver]. case_decide; naive_solver.
Qed.

Record uinv (l : list UdpEvent) w : Prop := {
  V_wf : wf (hm w);
  V_udp : udp_ok (udp_handles (used_handles_ (hm w))) (udp_socks (objects w)) (g_udp w) (evs_of l (g_udp w))
}.

(** The socket [p] of the handle, with its members [s]. *)
Definition socket_at w id p s : Prop := udp_handles (used_handles_ (hm w)) !! id = Some p /\ objects w !! p = Some (OUdpSocket s).

Lemma udp_handle_socket l w id p : uinv l w -> udp_handles (used_handles_ (hm w)) !! id = Some p -> exists s, socket_at w id p s /\ handle_id s = id.
Proof. intros Hi Hx. destruct (U_handle _ _ _ _ (V_udp _ _ Hi) id p Hx) as (s & Hs & Hid & _). exists s. split; [split; [done|by apply socks_Some]|done]. Qed.

Lemma on_socket_keeps l w id p s f : uinv l w -> socket_at w id p s ->
  leads (udp_handles (used_handles_ (hm w))) (udp_socks (objects w)) l p (f s (g_udp w)) -> wp (on_socket p f) (fun _ => uinv l) w.
Proof.
  intros Hi [Hx Ho] (s' & t' & E & Hok). unfold wp, on_socket. rewrite Ho, E. split; [apply Hi|]. cbn [hm objects g_udp set_udp set_objects]. by rewrite socks_insert.
Qed.

Lemma udp_on_registered_keeps l w id f : uinv l w ->
  (forall p s, udp_sockets_ (g_udp w) !! id = Some p -> socket_at w id p s -> leads (udp_handles (used_handles_ (hm w))) (udp_socks (objects w)) l p (f p s (g_udp w))) ->
  wp (on_registered id f) (fun _ => uinv l) w.
Proof.
  intros Hi Hf. unfold on_registered. destruct (udp_sockets_ (g_udp w) !! id) as [p|] eqn:E; [|unfold wp; by rewrite E].
  unfold wp. rewrite E. pose proof (U_table _ _ _ _ (V_udp _ _ Hi) id p E) as Hx. destruct (udp_handle_socket l w id p Hi Hx) as (s & Hat & _).
  apply (on_socket_keeps l w id p s (f p)); [done|done|]. by apply Hf.
Qed.

(** Everything else in the world: it has the same sockets and handles of
    sockets. *)
Definition elsewhere w w' : Prop :=
  wf (hm w') /\ udp_handles (used_handles_ (hm w')) = udp_handles (used_handles_ (hm w)) /\ udp_socks (objects w') = udp_socks (objects w) /\ g_udp w' = g_udp w.

Lemma elsewhere_keeps l w w' : uinv l w -> elsewhere w w' -> uinv l w'.
Proof. intros [_ H] (Hw & E1 & E2 & E3). split; [done|]. by rewrite E1, E2, E3. Qed.

(** ** Operations and callbacks *)

Lemma OnAsyncUdpOp_keeps l w : uinv l w -> queue_ (udp_op_queue (g_udp w)) <> [] -> wp OnAsyncUdpOp_turn (fun _ => uinv l) w.
Proof.
  intros [Hwf H] Hne. destruct (queue_ (udp_op_queue (g_udp w))) as [|op rest] eqn:Eq; [done|]. destruct (Pop_spec _ _ _ Eq) as (q & Ep & Er & _).
  destruct (udp_pop_ok _ _ _ _ op q rest H Eq Er) as (H1 & Hb & Hf). unfold wp, OnAsyncUdpOp_turn. rewrite Ep. set (w1 := set_udp _ w).
  assert (uinv l w1) as Hi1 by (by split). change (wp (process_op op) (fun _ => uinv l) w1). destruct op as [id a n p|id d a n|id|id o v]; cbn [process_op].
  - specialize (Hb id a n p eq_refl). destruct (udp_handle_socket l w1 id p Hi1 Hb) as (s & [_ Ho] & _). apply socks_Some in Ho. destruct (Hf p s Hb Ho) as (F1 & _ & F3).
    destruct (F3 eq_refl) as [Hfr Hbi]. specialize (F1 eq_refl). apply wp_bind. unfold wp at 1, upd_udp.
    assert (uinv l (set_udp (emplace id p (g_udp w1)) w1)) as Hi2.
    { split; [done|]. cbn [hm objects g_udp set_udp]. assert (evs_of l (emplace id p (g_udp w1)) = evs_of l (g_udp w1)) as -> by (unfold emplace; by case_match).
      eapply udp_emplace_ok; [exact H1|exact Hb|exact Ho|]. by rewrite (proj1 Hfr). }
    apply (udp_on_registered_keeps l _ id); [exact Hi2|]. intros p' s' _ [Hx' Ho'].
    assert (p' = p) as -> by (cbn in Hx'; congruence). assert (s' = s) as -> by (cbn in Ho'; apply socks_Some in Ho'; change (udp_socks (objects w1)) with (udp_socks (objects w)) in *; congruence).
    apply (ProcessUdpBind_leads _ _ _ l id p s (V_udp _ _ Hi2) Hb Ho); [done| |]; cbn [g_udp set_udp]; unfold emplace; case_match; done.
  - apply (udp_on_registered_keeps l _ id); [exact Hi1|]. intros p s _ [Hx Ho]. apply socks_Some in Ho. by apply (ProcessUdpSend_leads _ _ _ l id p s (V_udp _ _ Hi1) Hx Ho).
  - apply (udp_on_registered_keeps l _ id); [exact Hi1|]. intros p s _ [Hx Ho]. apply socks_Some in Ho. destruct (Hf p s Hx Ho) as (F1 & F2 & _).
    by apply (ProcessUdpClose_leads _ _ _ l id p s (V_udp _ _ Hi1) Hx Ho); [apply F2|apply F1].
  - apply (udp_on_registered_keeps l _ id); [exact Hi1|]. intros p s _ [Hx Ho]. apply socks_Some in Ho. by apply (ProcessUdpSetOption_leads _ _ _ l id p s (V_udp _ _ Hi1) Hx Ho).
Qed.

Lemma udp_OnResolved_keeps l w i status rc rc' peer : uinv l w -> is_Some (resolving (g_udp w) !! i) ->
  wp (OnResolved uv_strerror ares_strerror i status rc rc' peer) (fun _ => uinv l) w.
Proof.
  intros [Hwf H] [r Hr]. destruct (udp_resolved_ok _ _ _ _ i r H Hr) as [H1 Hb]. unfold wp, OnResolved. rewrite Hr. set (w1 := set_udp _ w).
  assert (uinv l w1) as Hi1 by (by split). destruct r as [id a n|id d a n].
  - apply (udp_on_registered_keeps l w1 id); [exact Hi1|]. intros p s _ [Hx Ho]. apply socks_Some in Ho. destruct (Hb id p s eq_refl Hx Ho) as [B1 B2].
    by apply (bind_resolved_leads uv_strerror ares_strerror _ _ _ l id p s (V_udp _ _ Hi1) Hx Ho).
  - apply (udp_on_registered_keeps l w1 id); [exact Hi1|]. intros p s _ [Hx Ho]. apply socks_Some in Ho.
    by apply (send_resolved_leads ares_strerror _ _ _ l id p s (V_udp _ _ Hi1) Hx Ho).
Qed.

(** The socket of a libuv handle. *)
Lemma uv_socket l w h u : uinv l w -> uv_handles (g_udp w) !! h = Some u ->
  exists id s, socket_at w id (uv_data u) s /\ uv_handle s = Some h /\ uv_closing u = bool_decide (state s = CLOSING).
Proof.
  intros Hi Hu. destruct (U_uv _ _ _ _ (V_udp _ _ Hi) h u Hu) as (s & Hs & Hh). pose proof (U_sock _ _ _ _ (V_udp _ _ Hi) _ _ Hs) as Hx. exists (handle_id s), s.
  split; [split; [done|by apply socks_Some]|]. split; [done|]. destruct (udp_owner_ok _ _ _ _ _ _ s (V_udp _ _ Hi) Hx Hs) as [_ Hv]. pose proof (S_uv _ _ _ _ _ Hv) as Hv1.
  unfold uv_ok in Hv1. rewrite Hh in Hv1. destruct Hv1 as (u' & Hu' & _ & Hc). congruence.
Qed.

Lemma udp_read_keeps l w h u r : uinv l w -> uv_handles (g_udp w) !! h = Some u -> wp (udp_read uv_strerror h r) (fun _ => uinv l) w.
Proof.
  intros Hi Hu. destruct (uv_socket l w h u Hi Hu) as (id & s & Hat & _). unfold udp_read, uv_callback, wp. rewrite Hu.
  apply (on_socket_keeps l w id _ s); [done|done|]. destruct Hat as [Hx Ho%socks_Some]. by apply (OnUdpRead_leads uv_strerror _ _ _ l id _ s (V_udp _ _ Hi) Hx Ho).
Qed.

Lemma udp_closed_keeps l w h u : uinv l w -> uv_handles (g_udp w) !! h = Some u -> uv_closing u = true -> wp (udp_closed h) (fun _ => uinv l) w.
Proof.
  intros Hi Hu Hc. destruct (uv_socket l w h u Hi Hu) as (id & s & Hat & Hh & Hst). rewrite Hc in Hst. symmetry in Hst. apply bool_decide_eq_true in Hst.
  unfold udp_closed, uv_callback, wp. rewrite Hu. apply (on_socket_keeps l w id _ s); [done|done|]. destruct Hat as [Hx Ho%socks_Some].
  by apply (OnUdpClosed_leads _ _ _ l id _ s (V_udp _ _ Hi) Hx Ho h).
Qed.

Lemma udp_send_done_keeps l w h u : uinv l w -> uv_handles (g_udp w) !! h = Some u -> uv_sends u <> [] -> wp (udp_send_done h) (fun _ => uinv l) w.
Proof.
  intros Hi Hu Hne. destruct (uv_socket l w h u Hi Hu) as (id & s & [Hx Ho] & Hh & Hst). apply socks_Some in Ho. unfold wp, udp_send_done, OnUdpSendDone. rewrite Hu. cbn.
  destruct (uv_sends u) as [|x rest]; [done|]. split; [apply Hi|]. cbn [hm objects g_udp set_udp]. set (u' := mkUv _ _ _ _). set (t' := uv_put h u' (g_udp w)).
  pose proof (V_udp _ _ Hi) as H. destruct (udp_owner_ok _ _ _ _ _ _ s H Hx Ho) as [Hid [V1 V2 V3 V4 V5 V6 V7 V9]].
  rewrite <- (insert_id (udp_socks (objects w)) (uv_data u) s Ho).
  eapply (udp_one_socket _ _ (g_udp w) t' _ _ id (uv_data u) s s H Hx Ho); try done.
  - apply udp_apart_put; [done|]. intros u0 Hu0. congruence.
  - rewrite Hh. apply own_put_same. rewrite <- Hh. by eapply udp_own_init.
  - intros q Hq. apply (U_table _ _ _ _ H) in Hq. congruence.
  - intros a n q [_ Hin]%list_elem_of_filter. apply (U_binds _ _ _ _ H id a n q) in Hin. congruence.
  - split; try done. unfold uv_ok in *. rewrite Hh in V1 |- *. exists u'. split; [apply lookup_insert_eq|]. by rewrite <- Hst.
Qed.

(** ** Natives *)

Definition keeps_udp (f : native) (need : list Z -> world -> Prop) : Prop :=
  forall l ctx params w, uinv l w -> need params w -> wp (f ctx params) (fun _ => uinv l) w.

Lemma udp_wp_with_socket l params k w : uinv l w -> 
  (forall id p s, param params 1 = Some id -> socket_at w id p s -> handle_id s = id -> wp (k p s) (fun _ => uinv l) w) -> wp (with_socket params k) (fun _ => uinv l) w.
Proof.
  intros Hi Hk. apply wp_bind, wp_arg. intros id Hid. apply wp_bind. unfold wp at 1, GetUdpSocket. destruct (HandleManager.GetUdpSocket id (hm w)) as [p|] eqn:E; [|done].
  unfold HandleManager.GetUdpSocket, get_typed in E. destruct (used_handles_ (hm w) !! id) as [x|] eqn:Ex; [|done]. case_decide as Ht; [done|]. destruct (HandleManager.closed x); [done|]. injection E as <-.
  destruct (udp_handle_socket l w id (pointer x) Hi) as (s & Hat & Hs); [apply udp_handles_Some; exists x; split_and!; [done| |done]; destruct (decide (type x = HANDLE_UDP_SOCKET)); [done|tauto]|].
  rewrite (proj2 Hat). by apply (Hk id).
Qed.

(** Members that the invariant does not look at, and operations that do not bind. *)
Definition quiet (s s' : UdpSocket) : Prop := handle_id s' = handle_id s /\ uv_handle s' = uv_handle s /\ state s' = state s /\ (handle_closed s = true -> handle_closed s' = true).

Lemma sock_ok_quiet t evs id p s s' ops : sock_ok t evs id p s -> quiet s s' -> Forall (fun op => op_id op = id /\ is_bind op = false /\ (is_close op = true -> handle_closed s' = true)) ops ->
  sock_ok (foldl (fun t op => set_ops (Push op (udp_op_queue t)) t) t ops) evs id p s'.
Proof.
  revert t s. induction ops as [|op ops IH]; intros t s [V1 V2 V3 V4 V5 V6 [V7 V8] V9] Hq Hops; cbn.
  - destruct Hq as (Q1 & Q2 & Q3 & Q4). split; rewrite ?Q3; unfold fresh_socket in *; rewrite ?Q3, ?Q2; try done.
    + unfold uv_ok in *. by rewrite Q2, Q3.
    + auto.
    + split; [done|]. intros Hc. apply V8. destruct (handle_closed s); [by rewrite Q4 in Hc|done].
    + auto.
  - apply Forall_cons in Hops as [(Ho & Hb & Hc) Hops]. apply (IH _ s'); [|by destruct Hq as (Q1 & Q2 & Q3 & Q4); split_and!|done].
    destruct Hq as (Q1 & Q2 & Q3 & Q4). set (t' := set_ops _ t). assert (ops_of id t' = ops_of id t ++ [op]) as Eo by (unfold t'; by rewrite udp_ops_push, decide_True).
    assert (Exists (fun o => is_bind o = true) (ops_of id t') -> Exists (fun o => is_bind o = true) (ops_of id t)) as Hex.
    { rewrite Eo, Exists_app. intros [|Hx%Exists_cons]; [done|]. destruct Hx as [|Hx%Exists_nil]; [congruence|done]. }
    split; rewrite ?Q3; unfold fresh_socket in *; rewrite ?Q3, ?Q2; try done.
    + unfold uv_ok in *. by rewrite Q2, Q3.
    + intros Ec. destruct (V3 Ec) as (? & ? & ?). split_and!; [done|done|]. rewrite Eo. apply Forall_app. split; [done|by apply Forall_singleton].
    + intros He. destruct (V4 (Hex He)) as [? ?]. done.
    + rewrite Eo. apply udp_ordered_snoc; [done|]. by rewrite Hb.
    + rewrite Eo, Exists_app. intros [He|Hx%Exists_cons]; [by apply Q4, V6|]. destruct Hx as [|Hx%Exists_nil]; [by apply Hc|done].
    + split; [done|]. intros Hcl. apply V8. destruct (handle_closed s); [by rewrite Q4 in Hcl|done].
    + auto.
Qed.

Definition queue_all (ops : list UdpOp) t : UdpLoop := foldl (fun t op => set_ops (Push op (udp_op_queue t)) t) t ops.

Lemma queue_all_parts ops t : udp_sockets_ (queue_all ops t) = udp_sockets_ t /\ resolving (queue_all ops t) = resolving t /\ uv_handles (queue_all ops t) = uv_handles t /\
  udp_events (queue_all ops t) = udp_events t /\ queue_ (udp_op_queue (queue_all ops t)) = queue_ (udp_op_queue t) ++ ops.
Proof.
  unfold queue_all. revert t. induction ops as [|op ops IH]; intros t; cbn [foldl]; [by rewrite app_nil_r|]. destruct (IH (set_ops (Push op (udp_op_queue t)) t)) as (-> & -> & -> & -> & ->). cbn. by rewrite <- app_assoc.
Qed.

Lemma quiet_keeps l w id p s s' ops : uinv l w -> socket_at w id p s -> handle_id s = id -> quiet s s' ->
  Forall (fun op => op_id op = id /\ is_bind op = false /\ (is_close op = true -> handle_closed s' = true)) ops ->
  uinv l (set_udp (queue_all ops (g_udp w)) (set_objects (<[p := OUdpSocket s']> (objects w)) w)).
Proof.
  intros Hi [Hx Ho] Hid Hq Hops. apply socks_Some in Ho. pose proof (V_udp _ _ Hi) as H. split; [apply Hi|]. cbn [hm objects g_udp set_udp set_objects]. rewrite socks_insert.
  destruct (udp_owner_ok _ _ _ _ _ _ s H Hx Ho) as [_ Hv]. set (t' := queue_all ops (g_udp w)). destruct (queue_all_parts ops (g_udp w)) as (P1 & P2 & P3 & P4 & P5). fold t' in P1, P2, P3, P4, P5.
  assert (forall id', ops_of id' t' = ops_of id' (g_udp w) ++ filter (fun op => op_id op = id') ops) as Eo by (intros id'; unfold ops_of; by rewrite P5, filter_app).
  assert (evs_of l t' = evs_of l (g_udp w)) as Ee by (unfold evs_of; by rewrite P4). rewrite Ee.
  eapply (udp_one_socket _ _ (g_udp w) t' _ _ id p s s' H Hx Ho).
  - split; try done; intros; rewrite ?P1, ?P3; try done; [|by unfold binds_of; rewrite P2|by left].
    rewrite Eo. replace (filter _ ops) with (@nil UdpOp); [by rewrite app_nil_r|]. symmetry. clear -Hops H0. induction ops as [|op ops IH]; [done|].
    apply Forall_cons in Hops as [(E & _) Hops]. rewrite filter_cons, decide_False by congruence. by apply IH.
  - destruct Hq as (_ & -> & _). pose proof (udp_own_init _ _ _ _ _ _ s H Hx Ho) as Hown. intros h u. rewrite P3. apply Hown.
  - destruct Hq as (-> & _). done.
  - intros q. rewrite P1. intros Hq'%(U_table _ _ _ _ H). congruence.
  - intros a n q. rewrite Eo, elem_of_app. intros [[_ Hin]%list_elem_of_filter|[_ Hin]%list_elem_of_filter]; [apply (U_binds _ _ _ _ H id a n q) in Hin; congruence|].
    rewrite Forall_forall in Hops. by destruct (Hops _ Hin) as (_ & ? & _).
  - by apply sock_ok_quiet with s.
Qed.

(** Storing members and queueing operations. *)
Lemma udp_store_keeps l w id p s s' : uinv l w -> socket_at w id p s -> handle_id s = id -> quiet s s' -> uinv l (set_objects (<[p := OUdpSocket s']> (objects w)) w).
Proof. intros Hi Hat Hid Hq. pose proof (quiet_keeps l w id p s s' [] Hi Hat Hid Hq (Forall_nil_2 _)) as Hk. exact Hk. Qed.

Lemma quiet_refl s : quiet s s.
Proof. by split_and!. Qed.

Lemma queue_keeps l w id p s op : uinv l w -> socket_at w id p s -> handle_id s = id -> op_id op = id -> is_bind op = false -> is_close op = false ->
  uinv l (set_udp (set_ops (Push op (udp_op_queue (g_udp w))) (g_udp w)) w).
Proof.
  intros Hi Hat Hid H1 H2 H3. pose proof (quiet_keeps l w id p s s [op] Hi Hat Hid (quiet_refl s)) as Hk. cbn in Hk. rewrite insert_id in Hk by apply Hat.
  apply Hk. apply Forall_singleton. split_and!; [done|done|congruence].
Qed.

Lemma udp_set_callbacks_keeps : keeps_udp Native_UdpSetCallbacks (fun _ _ => True).
Proof.
  intros l ctx params w Hi _. apply (udp_wp_with_socket l); [done|]. intros id p s _ Hat Hs. do 3 (apply wp_bind, wp_arg; intros ? _).
  apply wp_bind. unfold wp at 1, store_socket, store_object. apply wp_ret. by eapply udp_store_keeps; [exact Hi|exact Hat|done|].
Qed.

(** What binding needs: the socket is new and open, and no bind is under way. *)
Definition bindable_socket w id s : Prop :=
  fresh_socket s /\ handle_closed s = false /\ Forall (fun o => is_bind o = false) (ops_of id (g_udp w)) /\ binds_of id (g_udp w) = [].

Definition bind_need (params : list Z) w : Prop := forall id p s, param params 1 = Some id -> socket_at w id p s -> bindable_socket w id s.

Lemma udp_bind_keeps : keeps_udp Native_UdpBind bind_need.
Proof.
  intros l ctx params w Hi Hn. apply (udp_wp_with_socket l); [done|]. intros id p s Hpar Hat Hs. destruct (Hn id p s Hpar Hat) as (N1 & N2 & N3 & N4).
  apply wp_bind, wp_arg. intros a _. apply wp_bind, wp_local_string. intros addr. apply wp_bind, wp_arg. intros port _. apply wp_bind. unfold wp at 1, EnqueueUdpOp, upd_udp. apply wp_ret.
  destruct Hat as [Hx Ho%socks_Some]. pose proof (V_udp _ _ Hi) as H. split; [apply Hi|]. cbn [hm objects g_udp set_udp]. rewrite Hs. set (op := BIND id addr port p). set (t' := set_ops _ _).
  destruct (udp_owner_ok _ _ _ _ _ _ s H Hx Ho) as [_ [V1 V2 V3 V4 V5 V6 [V7 V8] V9]]. assert (ops_of id t' = ops_of id (g_udp w) ++ [op]) as Eo by (unfold t'; by rewrite udp_ops_push, decide_True).
  rewrite <- (insert_id (udp_socks (objects w)) p s Ho). eapply (udp_one_socket _ _ (g_udp w) t' _ _ id p s s H Hx Ho).
  - by apply udp_apart_op.
  - exact (udp_own_init _ _ _ _ _ _ s H Hx Ho).
  - done.
  - intros q Hq%(U_table _ _ _ _ H). congruence.
  - intros a' n q. rewrite Eo, elem_of_app, list_elem_of_singleton. intros [[_ Hin]%list_elem_of_filter|[= -> -> ->]]; [|done]. apply (U_binds _ _ _ _ H id a' n q) in Hin. congruence.
  - destruct N1 as [N1 N1']. split; try done.
    + intros E. congruence.
    + rewrite Eo. apply udp_ordered_snoc; [done|]. intros _. apply Forall_forall. intros o Ho'. rewrite Forall_forall in N3. rewrite (N3 o Ho'). cbn. destruct (is_close o) eqn:Ec; [|done].
      rewrite V6 in N2; [done|]. apply Exists_exists. by exists o.
    + rewrite Eo, Exists_app. intros [He|Hc%Exists_cons]; [by apply V6|]. destruct Hc as [|Hc%Exists_nil]; done.
Qed.

Lemma udp_send_keeps : keeps_udp Native_UdpSend (fun _ _ => True).
Proof.
  intros l ctx params w Hi _. apply (udp_wp_with_socket l); [done|]. intros id p s _ Hat Hs. apply wp_bind, wp_arg. intros a _.
  apply wp_bind, wp_try_cell. intros [c|] _; [|by apply wp_ret]. apply wp_bind, wp_arg. intros len _. destruct (len <=? 0); [by apply wp_ret|].
  apply wp_bind, wp_arg. intros b _. apply wp_bind, wp_local_string. intros addr. apply wp_bind, wp_arg. intros port _.
  apply wp_bind. unfold wp at 1, local_raw. destruct (read_raw _ _ _); [|done]. apply wp_bind. unfold wp at 1, EnqueueUdpOp, upd_udp. apply wp_ret. by eapply queue_keeps.
Qed.

(** The closing of a socket, by its plugin or with it. *)
Lemma udp_closing_keeps l w id p s : uinv l w -> socket_at w id p s -> handle_id s = id ->
  uinv l (set_udp (set_ops (Push (CLOSE (handle_id s)) (udp_op_queue (g_udp w))) (g_udp w)) (set_objects (<[p := OUdpSocket (set_handle_closed true s)]> (objects w)) w)).
Proof.
  intros Hi Hat Hs. apply (quiet_keeps l w id p s (set_handle_closed true s) [CLOSE (handle_id s)]); [done|done|done|by split_and!|]. by apply Forall_singleton.
Qed.

Lemma udp_close_keeps : keeps_udp Native_UdpClose (fun _ _ => True).
Proof.
  intros l ctx params w Hi _. apply (udp_wp_with_socket l); [done|]. intros id p s _ Hat Hs. apply wp_bind. unfold wp at 1, store_socket, store_object.
  apply wp_bind. unfold wp at 1, EnqueueUdpOp, upd_udp. apply wp_ret. exact (udp_closing_keeps l w id p s Hi Hat Hs).
Qed.

Lemma udp_set_option_keeps : keeps_udp Native_UdpSetOption (fun _ _ => True).
Proof.
  intros l ctx params w Hi _. apply (udp_wp_with_socket l); [done|]. intros id p s _ Hat Hs. do 2 (apply wp_bind, wp_arg; intros ? _).
  assert (forall s' ops, quiet s s' -> Forall (fun op => op_id op = id /\ is_bind op = false /\ (is_close op = true -> handle_closed s' = true)) ops ->
    uinv l (set_udp (queue_all ops (g_udp w)) (set_objects (<[p := OUdpSocket s']> (objects w)) w))) as Hk by (intros s' ops Hq Ho; by eapply quiet_keeps).
  repeat case_match; try (by apply wp_ret); apply wp_bind; unfold wp at 1, store_socket, store_object.
  - apply wp_ret. by apply (Hk _ []).
  - apply wp_ret. by apply (Hk _ []).
  - apply wp_bind. unfold wp at 1, EnqueueUdpOp, upd_udp. apply wp_ret. apply (Hk _ [SET_OPTION (handle_id s) _ _]); [done|]. by apply Forall_singleton.
  - apply wp_bind. unfold wp at 1, EnqueueUdpOp, upd_udp. apply wp_ret. apply (Hk _ [SET_OPTION (handle_id s) _ _]); [done|]. by apply Forall_singleton.
Qed.

(** Numbers of new handles are in no queue: they come round after 2^32. *)
Definition new_ids (l : list UdpEvent) w : Prop :=
  Z.of_nat (size (used_handles_ (hm w))) < 2 ^ 32 - 1 /\
  forall p ty o id m, HandleManager.CreateHandle p ty o (hm w) = Some (id, m) -> ops_of id (g_udp w) = [] /\ binds_of id (g_udp w) = [].

Lemma udp_new_keeps l ctx params w : uinv l w -> new_ids l w -> wp (Native_UdpNew ctx params) (fun _ => uinv l) w.
Proof.
  intros Hi [Hroom Hnew]. apply wp_bind, wp_arg. intros ud _. apply wp_bind. unfold wp at 1, new_object. set (p := fresh_addr (objects w)).
  pose proof (fresh_addr_None (objects w)) as Hp. fold p in Hp. set (s := new_UdpSocket ctx ud). set (w1 := set_objects _ w). apply wp_bind. unfold wp at 1, CreateHandle.
  pose proof (V_wf _ _ Hi) as Hwf. destruct (CreateHandle_spec p HANDLE_UDP_SOCKET (Some ctx) (hm w) (wf_next _ Hwf) Hroom) as (k & Hfree & _ & Hc).
  destruct (wf_Create p HANDLE_UDP_SOCKET (Some ctx) (hm w) Hwf Hroom) as (h' & st' & Hc' & Hwf'). rewrite Hc in Hc'. injection Hc' as <- Est. change (hm w1) with (hm w). rewrite Hc.
  pose proof (hid_range (base_of (next_handle_ (hm w))) k) as [_ Hz]. destruct (Hnew _ _ _ _ _ Hc) as [N1 N2]. set (id := hid _ _) in *.
  rewrite (proj2 (Z.eqb_neq _ _) Hz). apply wp_bind. unfold wp at 1, store_socket, store_object. apply wp_ret. pose proof (V_udp _ _ Hi) as H.
  split; [cbn [hm set_hm set_objects]; by rewrite Est|]. cbn [hm objects g_udp set_hm set_objects w1]. rewrite insert_insert_eq, socks_insert.
  cbn [used_handles_]. unfold udp_handles. rewrite (omap_insert_Some _ _ _ _ p) by done. apply udp_new_ok; try done.
  - fold (udp_handles (used_handles_ (hm w))). apply eq_None_not_Some. intros [q (x & Hx & _)%udp_handles_Some]. congruence.
  - unfold udp_socks. by rewrite lookup_omap, Hp.
  - split_and!; [done|done|]. destruct (closed_of id (evs_of l (g_udp w))) as [|e evs] eqn:Ec; [done|]. assert (e ∈ closed_of id (evs_of l (g_udp w))) as Hin by (rewrite Ec; constructor).
    apply list_elem_of_filter in Hin as [[Hty Hid] Hin]. destruct (U_closed _ _ _ _ H e Hin Hty) as [q (x & Hx & _)%udp_handles_Some]. congruence.
Qed.

(** ** The game thread *)

(** Events of a frame that are left, and the one whose callback is running. *)
Record UdpFrame := mkFrame { drained : list UdpEvent; running : option UdpEvent }.
Definition no_frame : UdpFrame := mkFrame [] None.

Definition unfinished (o : option UdpEvent) : list UdpEvent := match o with Some e => if is_closed e then [e] else [] | None => [] end.
Definition taken_events (F : UdpFrame) : list UdpEvent := unfinished (running F) ++ drained F.

Lemma udp_dispatch_start_keeps l e w : uinv (e :: l) w -> wp (dispatch_start has_function e) (fun _ => uinv (unfinished (Some e) ++ l)) w.
Proof.
  intros [Hwf H]. assert (uinv (unfinished (Some e) ++ l) w) as Hi.
  { cbn. unfold is_closed. case_bool_decide as Hc; [by split|]. split; [done|]. by eapply udp_drop_ok. }
  unfold dispatch_start. destruct (_ && _); [by apply wp_ret|]. apply wp_bind. unfold wp at 1, UdpLoop.GetSourcepawnFunction. by apply wp_ret.
Qed.

Lemma udp_dispatch_end_keeps l e w : uinv (unfinished (Some e) ++ l) w -> wp (dispatch_end e) (fun _ => uinv l) w.
Proof.
  cbn [unfinished]. unfold dispatch_end, is_closed. case_bool_decide as Hc; cbn [app]; [|intros Hi; by apply wp_ret]. intros [Hwf H].
  change (evs_of (e :: l) (g_udp w)) with (e :: evs_of l (g_udp w)) in H. destruct (U_closed _ _ _ _ H e (list_elem_of_here _ _) Hc) as [p Hp].
  destruct (U_handle _ _ _ _ H _ _ Hp) as (s & Hs & _). pose proof (proj1 (udp_handles_Some _ _ _) Hp) as (x & Hx & Hty & Ep). unfold wp, FreeHandle. rewrite Hx, decide_False by (by rewrite Hty).
  apply socks_Some in Hs. unfold delete_object. cbn [objects set_hm]. rewrite Ep, Hs. cbn [release obj_refs foldM]. split; [cbn; by apply wf_Free|].
  cbn [hm objects g_udp set_objects set_nodes set_curls set_hm]. rewrite socks_delete. unfold HandleManager.FreeHandle. rewrite Hx. cbn [used_handles_].
  unfold udp_handles. rewrite omap_delete. by apply udp_free_ok.
Qed.

(** [OnGameFrame], the part about UDP. *)
Definition frame_events : N (list UdpEvent) := fun w => if HasItems (udp_events (g_udp w)) then DrainSocketEvents w else Done [] w.

Lemma udp_frame_events_keeps w : uinv [] w -> wp frame_events uinv w.
Proof.
  intros [Hwf H]. unfold wp, frame_events, DrainSocketEvents. destruct (HasItems _); [|done]. destruct (DrainAll_spec (udp_events (g_udp w))) as (q & -> & Eq & _).
  split; [done|]. cbn [hm objects g_udp set_udp]. unfold evs_of. cbn [udp_events set_events]. rewrite Eq, app_nil_r. destruct H as [H1 H2 H3 H4 H5 H6]. split; try done.
  intros id p Hx. destruct (H1 id p Hx) as (s & Hs & Hid & [V1 V2 V3 V4 V5 V6 V7 V9]). exists s. split_and!; [done|done|]. by split.
Qed.

(** ** Steps *)

Inductive udp_event :=
  | UNew (ctx : positive) (params : list Z)
  | UCall (name : String.string) (f : native) (ctx : positive) (params : list Z)
  | UOp
  | UResolved (i : nat) (status rc rc_recv : Z) (peer : bytes)
  | URead (h : positive) (r : RecvResult)
  | USent (h : positive)
  | UClosed (h : positive)
  | UFrame | UDispatch | UDispatched
  | UUnload (id : Z)
  | UElsewhere (w' : world).

Definition then_frame {A} (F : A -> UdpFrame) (m : N A) : N UdpFrame := x <- m;; nret (F x).

Definition udp_step (F : UdpFrame) (ev : udp_event) : N UdpFrame :=
  let stay {A} (m : N A) := then_frame (fun _ => F) m in
  match ev with
  | UNew ctx params => stay (Native_UdpNew ctx params)
  | UCall _ f ctx params => stay (f ctx params)
  | UOp => stay OnAsyncUdpOp_turn
  | UResolved i status rc rc' peer => stay (OnResolved uv_strerror ares_strerror i status rc rc' peer)
  | URead h r => stay (udp_read uv_strerror h r)
  | USent h => stay (udp_send_done h)
  | UClosed h => stay (udp_closed h)
  | UFrame => then_frame (fun l => mkFrame l None) frame_events
  | UDispatch =>
      match drained F with
      | [] => nret F
      | e :: l => then_frame (fun _ => mkFrame l (Some e)) (dispatch_start has_function e)
      end
  | UDispatched =>
      match running F with None => nret F | Some e => then_frame (fun _ => mkFrame (drained F) None) (dispatch_end e) end
  | UUnload id => fun w => match udp_handles (used_handles_ (hm w)) !! id with Some p => stay (close_udp p) w | None => Done F w end
  | UElsewhere w' => fun _ => Done F w'
  end.

Definition udp_need (name : String.string) : list Z -> world -> Prop :=
  if bool_decide (name = "async2_UdpBind"%string) then bind_need else fun _ _ => True.

(** libuv calls back for what it was asked: it reports datagrams for handles
    that receive, and the callback of [uv_close] comes after those of the sends.
    c-ares answers the resolutions in any order. *)
Definition udp_may (F : UdpFrame) (ev : udp_event) w : Prop :=
  let uv h (Q : uv_udp_t -> Prop) := exists u, uv_handles (g_udp w) !! h = Some u /\ Q u in
  match ev with
  | UNew _ _ => new_ids (taken_events F) w
  | UCall name f ctx params => (name, f) ∈ tail g_UdpNatives /\ udp_need name params w
  | UOp => queue_ (udp_op_queue (g_udp w)) <> []
  | UResolved i _ _ _ _ => is_Some (resolving (g_udp w) !! i)
  | URead h _ => uv h (fun u => uv_receiving u = true)
  | USent h => uv h (fun u => uv_sends u <> [])
  | UClosed h => uv h (fun u => uv_closing u = true /\ uv_sends u = [])
  | UFrame => F = no_frame
  | UDispatch => running F = None
  | UDispatched | UUnload _ => True
  | UElsewhere w' => elsewhere w w'
  end.

(** No UDP socket exists yet. *)
Record udp_initial w : Prop := {
  begin_wf : wf (hm w);
  begin_handles : udp_handles (used_handles_ (hm w)) = ∅;
  begin_socks : udp_socks (objects w) = ∅;
  begin_udp : g_udp w = new_UdpLoop
}.

Inductive udp_runs : UdpFrame -> world -> Prop :=
  | udp_runs_start w : udp_initial w -> udp_runs no_frame w
  | udp_runs_step F w ev F' w' : udp_runs F w -> udp_may F ev w -> udp_step F ev w = Done F' w' -> udp_runs F' w'.

Lemma udp_wp_framed {A} (F : A -> UdpFrame) (m : N A) w : wp m (fun a w' => uinv (taken_events (F a)) w') w -> wp (then_frame F m) (fun F w' => uinv (taken_events F) w') w.
Proof. intros H. apply wp_bind. eapply wp_mono; [exact H|]. intros a w' Hs. by apply wp_ret. Qed.

Lemma udp_natives_keep : Forall (fun e : String.string * native => keeps_udp e.2 (udp_need e.1)) (tail g_UdpNatives).
Proof.
  unfold g_UdpNatives. cbn [tail]. repeat (apply Forall_cons; split); [..|by apply Forall_nil]; cbn [fst snd];
    first [exact udp_set_callbacks_keeps|exact udp_bind_keeps|exact udp_send_keeps|exact udp_close_keeps|exact udp_set_option_keeps].
Qed.

Lemma udp_step_keeps F ev w : uinv (taken_events F) w -> udp_may F ev w -> wp (udp_step F ev) (fun F' w' => uinv (taken_events F') w') w.
Proof.
  intros Hi Hm. destruct ev; cbn [udp_step udp_may] in *.
  - apply udp_wp_framed. by apply udp_new_keeps.
  - destruct Hm as [Hin Hn]. pose proof udp_natives_keep as HF. rewrite Forall_forall in HF. apply udp_wp_framed. exact (HF _ Hin _ ctx params w Hi Hn).
  - by apply udp_wp_framed, OnAsyncUdpOp_keeps.
  - by apply udp_wp_framed, udp_OnResolved_keeps.
  - destruct Hm as (u & Hu & _). apply udp_wp_framed. by eapply udp_read_keeps.
  - destruct Hm as (u & Hu & Hn). apply udp_wp_framed. by eapply udp_send_done_keeps.
  - destruct Hm as (u & Hu & Hc & _). apply udp_wp_framed. by eapply udp_closed_keeps.
  - subst F. by apply udp_wp_framed, udp_frame_events_keeps.
  - destruct F as [[|e l] r]; cbn in Hm; subst r; [by apply wp_ret|]. apply udp_wp_framed. by apply udp_dispatch_start_keeps.
  - destruct F as [l [e|]]; [|by apply wp_ret]. apply udp_wp_framed. by apply udp_dispatch_end_keeps.
  - unfold wp at 1. destruct (udp_handles _ !! id) as [p|] eqn:E; [|done]. destruct (udp_handle_socket _ w id p Hi E) as (s & Hat & Hs).
    apply (udp_wp_framed (fun _ => F)). unfold wp, close_udp. rewrite (proj2 Hat). exact (udp_closing_keeps _ w id p s Hi Hat Hs).
  - by eapply elsewhere_keeps.
Qed.

Lemma udp_runs_uinv F w : udp_runs F w -> uinv (taken_events F) w.
Proof.
  induction 1 as [w [H1 H2 H3 H4]|F w ev F' w' _ Hi Hm Hst].
  - split; [done|]. rewrite H2, H3, H4. apply udp_ok_empty.
  - pose proof (udp_step_keeps F ev w Hi Hm) as Hk. unfold wp in Hk. by rewrite Hst in Hk.
Qed.

(** ** What holds in every state *)

(** C9: UDP is memory safe.  However calls of the UDP natives, operations on the
    event thread, resolutions, libuv's callbacks, frames with their dispatches,
    plugin unloading and everything that leaves the sockets alone interleave, no
    step has undefined behaviour: no use of a deleted socket or libuv handle, no
    work on a handle that is closing, no pop of an empty queue.  The conditions
    are those of [udp_may]: libuv calls back for what it was asked, and a plugin
    binds a socket that is new, open and has no bind under way. *)
Theorem udp_safe (F : UdpFrame) (w : world) (ev : udp_event) : udp_runs F w -> udp_may F ev w -> udp_step F ev w <> UB.
Proof. intros Hi%udp_runs_uinv Hm E. pose proof (udp_step_keeps F ev w Hi Hm) as Hk. unfold wp in Hk. by rewrite E in Hk. Qed.

(** C37: A UDP socket is closed once and nothing of it is left.  In every state UDP
    reaches, each close event under way names a handle of a socket in use; a
    handle has exactly one when its socket is [CLOSED] and none otherwise; a
    closed socket is out of the event loop's table, has no libuv handle and no
    queued operation would register it again; and every libuv handle belongs to
    a socket that exists and points back to it. *)
Theorem udp_closed_once (F : UdpFrame) (w : world) : udp_runs F w ->
  let evs := evs_of (taken_events F) (g_udp w) in let hs := udp_handles (used_handles_ (hm w)) in
  (forall e, e ∈ evs -> e_type e = UDP_CLOSED -> is_Some (hs !! e_handle_id e)) /\
  (forall id p, hs !! id = Some p -> exists s, objects w !! p = Some (OUdpSocket s) /\ handle_id s = id /\
    length (closed_of id evs) = (if decide (state s = CLOSED) then 1 else 0)%nat /\
    (state s = CLOSED -> udp_sockets_ (g_udp w) !! id = None /\ uv_handle s = None /\ Forall (fun op => is_bind op = false) (ops_of id (g_udp w)))) /\
  forall h u, uv_handles (g_udp w) !! h = Some u -> exists s, objects w !! uv_data u = Some (OUdpSocket s) /\ uv_handle s = Some h.
Proof.
  intros Hi%udp_runs_uinv evs hs. pose proof (V_udp _ _ Hi) as H. split; [apply (U_closed _ _ _ _ H)|]. split.
  - intros id p Hx. destruct (U_handle _ _ _ _ H id p Hx) as (s & Hs & Hid & Hv). exists s. split; [by apply socks_Some|]. split; [done|].
    split; [apply (S_closed _ _ _ _ _ Hv)|apply (S_final _ _ _ _ _ Hv)].
  - intros h u Hu. destruct (U_uv _ _ _ _ H h u Hu) as (s & Hs & Hh). exists s. split; [by apply socks_Some|done].
Qed.

End UdpSystem.
