(* ===== verification/WsFacts.v ===== *)
(** * What the event thread does with received frames and with a close

    The pieces of frames that libcurl delivers become the messages they are
    pieces of; a message that is too large ends the connection; the close frame
    that is sent is read back as it was meant. *)

From stdpp Require Import base numbers list gmap.
From Stdlib Require Import ZArith Lia.
From S2P Require Import WsConnection LockedQueue MsgPack Prelude NodePool DataMap DataValue Float Text DataNode HeaderMap HttpRequest DataRefcount JsonParse DataBuild WsLoop.

Import Ws.

(** ** Messages, as the protocol sees them *)

(** A piece of a data frame: its flags, what is left of the frame, its bytes. *)
Definition piece : Type := Z * Z * bytes.

Definition piece_of (r : WsRecv) : option piece :=
  match r with
  | RecvFrame flags remain data => if has_flag flags CURLWS_PING || has_flag flags CURLWS_PONG then None else Some (flags, remain, data)
  | _ => None
  end.

(** The last piece of a message: the frame is final and nothing of it is left. *)
Definition final (p : piece) : bool := negb (has_flag p.1.1 CURLWS_CONT || (p.1.2 >? 0)).

(** The messages that are complete, and the pieces of the one that is not;
    [cur] are pieces of a message that was begun before. *)
Fixpoint split (cur : list piece) (ps : list piece) : list (list piece) * list piece :=
  match ps with
  | [] => ([], cur)
  | p :: ps => if final p then let '(ms, rest) := split [] ps in ((cur ++ [p]) :: ms, rest) else split (cur ++ [p]) ps
  end.

Definition payload_of (m : list piece) : bytes := concat (map snd m).
Definition binary_of (m : list piece) : bool := match m with p :: _ => has_flag p.1.1 CURLWS_BINARY | [] => false end.

Lemma payload_snoc m (p : piece) : payload_of (m ++ [p]) = payload_of m ++ p.2.
Proof. unfold payload_of. rewrite map_app, concat_app. cbn. by rewrite app_nil_r. Qed.

Lemma binary_snoc m p : binary_of (m ++ [p]) = match m with [] => has_flag p.1.1 CURLWS_BINARY | _ => binary_of m end.
Proof. by destruct m. Qed.

(** What an event tells the plugin about a message. *)
Definition message_of (e : WsEvent) : option (bool * bytes) := if decide (e_type e = WS_MESSAGE) then Some (e_is_binary e, e_data e) else None.

Section Frames.

Context {MO : DataMap bytes} {MI : DataMap Z} {P : Type} {PA : NodeAllocator P}.
Context (iterate : bytes -> option od_value) (limit : Z) (curl_easy_strerror : Z -> bytes) (backoff : Z -> Z -> Z -> option Z).

(** The connection has received the pieces [cur] of a message. *)
Definition received (cur : list piece) (c : WsConnection) : Prop :=
  in_fragmented_message_ c = negb (bool_decide (cur = [])) /\ (cur <> [] -> message_buf_ c = payload_of cur /\ is_binary_message_ c = binary_of cur).

(** What stays as it is. *)
Definition same_settings (c c' : WsConnection) : Prop :=
  handle_closed c' = handle_closed c /\ parse_messages c' = parse_messages c /\ max_message_size c' = max_message_size c /\ state c' = state c /\
  curl_handle c' = curl_handle c /\ handle_id c' = handle_id c.

Definition open_raw (c : WsConnection) : Prop := handle_closed c = false /\ parse_messages c = 0 /\ 0 <= max_message_size c < 2 ^ 31.

(** A data frame, a ping, a pong, or a piece libcurl says nothing about. *)
Definition no_close (r : WsRecv) : Prop := match r with RecvFrame flags _ _ => has_flag flags CURLWS_CLOSE = false | RecvNoMeta => True | RecvCode _ => False end.

Definition fits (c : WsConnection) (m : list piece) : Prop := Z.of_nat (length (payload_of m)) <= max_message_size c.

(** One turn with a piece of a message that is not too large. *)
Lemma piece_turn r p cur rc rng conn c t st : no_close r -> piece_of r = Some p -> open_raw c -> received cur c -> fits c (cur ++ [p]) ->
  exists c' e, same_settings c c' /\
    poll_turn curl_easy_strerror backoff iterate limit r rc rng conn c t st = Some (true, c', if final p then PushSocketEvent e t else t, st) /\
    received (if final p then [] else cur ++ [p]) c' /\ message_of e = Some (binary_of (cur ++ [p]), payload_of (cur ++ [p])).
Proof.
  intros Hn Hp (Hc & Hm & Hmax) [Hf Hb] Hfit. destruct r as [flags remain data| |]; try done. cbn in Hn, Hp. unfold poll_turn.
  destruct (has_flag flags CURLWS_PING) eqn:E1; [done|]. destruct (has_flag flags CURLWS_PONG) eqn:E2; [done|]. injection Hp as <-. rewrite Hn, Hc.
  set (c1 := start_message flags c). unfold fits in Hfit. rewrite payload_snoc in Hfit. cbn [snd] in Hfit.
  assert (message_buf_ c1 = payload_of cur /\ is_binary_message_ c1 = binary_of (cur ++ [(flags, remain, data)])) as [Eb Ei].
  { unfold c1, start_message. rewrite Hf, binary_snoc. destruct cur as [|q cur]; [done|]. rewrite bool_decide_false by done. cbn [negb]. by apply Hb. }
  assert (same_settings c c1) as Hs by (unfold c1, start_message; destruct (in_fragmented_message_ c); done).
  destruct Hs as (S1 & S2 & S3 & S4 & S5 & S6). rewrite S3, Eb.
  rewrite length_app in Hfit. assert (uN 64 (max_message_size c) = max_message_size c) as -> by (unfold uN; apply Z.mod_small; split; [lia|]; eapply Z.lt_trans; [apply Hmax|done]).
  assert (Z.of_nat (length (payload_of cur)) + Z.of_nat (length data) >? max_message_size c = false) as -> by (rewrite Z.gtb_ltb; apply Z.ltb_ge; lia).
  unfold final. cbn [fst snd]. destruct (has_flag flags CURLWS_CONT || (remain >? 0)); cbn [negb].
  - exists (set_fragmented true (set_message_buf (payload_of cur ++ data) c1)), (mkEvent WS_MESSAGE 0 1 0 (payload_of (cur ++ [(flags, remain, data)])) 0 [] 0 false (binary_of (cur ++ [(flags, remain, data)])) None 0 0).
    split; [done|]. split; [done|]. split; [|done]. split; [cbn; rewrite bool_decide_false; [done|by destruct cur]|]. intros _. cbn. by rewrite payload_snoc.
  - unfold complete_message, parse_message. cbn [parse_messages set_fragmented set_message_buf]. rewrite S2, Hm. cbn [Z.gtb Z.compare mbind option_bind].
    eexists _, _. split; [|split; [done|]]; [done|]. split; [by split|]. unfold message_of, message_event. cbn. rewrite S2, Hm. cbn. by rewrite Ei, payload_snoc.
Qed.

(** A piece that is not part of a message. *)
Lemma other_turn r rc rng conn c t st : no_close r -> piece_of r = None ->
  exists es, poll_turn curl_easy_strerror backoff iterate limit r rc rng conn c t st = Some (true, c, foldl (fun t e => PushSocketEvent e t) t es, st) /\ omap message_of es = [].
Proof.
  intros Hn Hp. destruct r as [flags remain data| |]; try done; [|by exists []]. cbn in Hn, Hp. unfold poll_turn. rewrite Hn. destruct (has_flag flags CURLWS_PING); [by exists []|].
  destruct (has_flag flags CURLWS_PONG); [|done]. destruct (on_pong c =? 0); [by exists []|]. eexists [_]. by split.
Qed.

Lemma pushed_all es t : ws_events (foldl (fun t e => PushSocketEvent e t) t es) = foldl (fun q e => Push e q) (ws_events t) es.
Proof. revert t. induction es as [|e es IH]; intros t; [done|]. cbn. by rewrite IH. Qed.

Lemma queue_pushed (es : list WsEvent) q : queue_ (foldl (fun q e => Push e q) q es) = queue_ q ++ es.
Proof. revert q. induction es as [|e es IH]; intros q; cbn; [by rewrite app_nil_r|]. rewrite IH. cbn. by rewrite <- app_assoc. Qed.

Lemma open_raw_same c c' : same_settings c c' -> open_raw c -> open_raw c'.
Proof. intros (E1 & E2 & E3 & _) (H1 & H2 & H3). unfold open_raw. by rewrite E1, E2, E3. Qed.

Lemma same_settings_trans a b c : same_settings a b -> same_settings b c -> same_settings a c.
Proof. intros (A1 & A2 & A3 & A4 & A5 & A6) (B1 & B2 & B3 & B4 & B5 & B6). repeat split; congruence. Qed.

(** The first message of a split begins with the pieces that were there. *)
Lemma split_first ps : forall cur c, (let '(ms, rest) := split cur ps in Forall (fits c) (ms ++ [rest])) -> fits c cur.
Proof.
  assert (forall cur m c, fits c (cur ++ m) -> fits c cur) as Hpre.
  { intros cur m c. unfold fits, payload_of. rewrite map_app, concat_app, length_app. intros H. eapply Z.le_trans; [|exact H]. apply inj_le, Nat.le_add_r. }
  induction ps as [|p ps IH]; intros cur c; cbn; [intros H; by inversion H|]. destruct (final p).
  - destruct (split [] ps) as [ms rest]. intros [H _]%Forall_cons. by eapply Hpre.
  - intros H%IH. by eapply Hpre.
Qed.

Lemma split_none r rs cur : piece_of r = None -> split cur (omap piece_of (r :: rs)) = split cur (omap piece_of rs).
Proof. intros E. cbn. by rewrite E. Qed.

Lemma split_some r rs p cur : piece_of r = Some p -> split cur (omap piece_of (r :: rs)) =
  if final p then let '(ms, rest) := split [] (omap piece_of rs) in ((cur ++ [p]) :: ms, rest) else split (cur ++ [p]) (omap piece_of rs).
Proof. intros E. cbn. by rewrite E. Qed.

(** The messages and the rest after some results of libcurl. *)
Definition messages (cur : list piece) (rs : list WsRecv) : list (list piece) := (split cur (omap piece_of rs)).1.
Definition unfinished (cur : list piece) (rs : list WsRecv) : list piece := (split cur (omap piece_of rs)).2.

Lemma reassemble rs : forall cur rc rng conn c t st, Forall no_close rs -> open_raw c -> received cur c -> Forall (fits c) (messages cur rs ++ [unfinished cur rs]) ->
  exists c' t' es, poll_loop curl_easy_strerror backoff iterate limit rs rc rng conn c t st = Some (c', t', st) /\ same_settings c c' /\
    queue_ (ws_events t') = queue_ (ws_events t) ++ es /\ omap message_of es = map (fun m => (binary_of m, payload_of m)) (messages cur rs) /\ received (unfinished cur rs) c'.
Proof.
  unfold messages, unfinished. induction rs as [|r rs IH]; intros cur rc rng conn c t st Hn Ho Hr Hfit.
  - exists c, t, []. cbn. rewrite app_nil_r. by split_and!.
  - apply Forall_cons in Hn as [Hn Hns]. cbn [poll_loop]. destruct (piece_of r) as [p|] eqn:Ep.
    + rewrite (split_some r rs p cur Ep) in Hfit |- *. assert (fits c (cur ++ [p])) as Hfp.
      { destruct (final p); [destruct (split [] (omap piece_of rs)) as [ms rest]; by apply Forall_cons in Hfit as [? _]|].
        apply (split_first (omap piece_of rs)). by destruct (split _ _). }
      destruct (piece_turn r p cur rc rng conn c t st Hn Ep Ho Hr Hfp) as (c1 & e & Hs1 & -> & Hr1 & He). cbn [mbind option_bind].
      assert (forall m, fits c1 m <-> fits c m) as Hfc by (intros m; unfold fits; destruct Hs1 as (_ & _ & -> & _); done).
      assert (forall ms, Forall (fits c1) ms <-> Forall (fits c) ms) as HFc by (intros ms; by rewrite !Forall_forall; setoid_rewrite Hfc).
      pose proof (open_raw_same _ _ Hs1 Ho) as Ho1. destruct (final p).
      * destruct (IH [] rc rng conn c1 (PushSocketEvent e t) st Hns Ho1 Hr1) as (c' & t' & es & -> & Hs' & Hq & Hm & Hr').
        { rewrite HFc. destruct (split [] (omap piece_of rs)) as [ms rest]. by apply Forall_cons in Hfit as [_ ?]. }
        exists c', t', (e :: es). destruct (split [] (omap piece_of rs)) as [ms rest]. cbn in Hm, Hr' |- *. rewrite He, Hm.
        split_and!; [done|by eapply same_settings_trans| |done|done]. rewrite Hq. cbn. by rewrite <- app_assoc.
      * destruct (IH (cur ++ [p]) rc rng conn c1 t st Hns Ho1 Hr1) as (c' & t' & es & -> & Hs' & Hrest); [by rewrite HFc|].
        exists c', t', es. split; [done|]. split; [by eapply same_settings_trans|done].
    + rewrite (split_none r rs cur Ep) in Hfit |- *. destruct (other_turn r rc rng conn c t st Hn Ep) as (es0 & -> & Hes0). cbn [mbind option_bind].
      destruct (IH cur rc rng conn c (foldl (fun t e => PushSocketEvent e t) t es0) st Hns Ho Hr Hfit) as (c' & t' & es & -> & Hs' & Hq & Hm & Hr').
      exists c', t', (es0 ++ es). split; [done|]. split; [done|]. rewrite omap_app, Hes0. split; [|done]. rewrite Hq, pushed_all, queue_pushed. by rewrite <- app_assoc.
Qed.

(** C38: Messages arrive as they were sent.  Whatever pieces libcurl delivers a
    connection in raw mode, with pings, pongs and pieces without metadata
    between them, as long as no message is larger than allowed: the events of
    the loop in [OnWsPollActivity] report exactly the messages, in order and
    each once: the bytes of its pieces one after another, as binary or text as
    its first piece says.  The pieces of the message that is not complete are
    kept, and the next call goes on with them. *)
Theorem ws_messages (rs : list WsRecv) (cur : list piece) (rc rng : Z) (conn : positive) (c : WsConnection) (t : WsLoop) (st : store (P := P)) :
  Forall no_close rs -> open_raw c -> received cur c -> Forall (fits c) (messages cur rs ++ [unfinished cur rs]) ->
  exists c' t' es, poll_loop curl_easy_strerror backoff iterate limit rs rc rng conn c t st = Some (c', t', st) /\ open_raw c' /\
    queue_ (ws_events t') = queue_ (ws_events t) ++ es /\ omap message_of es = map (fun m => (binary_of m, payload_of m)) (messages cur rs) /\
    received (unfinished cur rs) c' /\ forall rs', messages cur (rs ++ rs') = messages cur rs ++ messages (unfinished cur rs) rs'.
Proof.
  intros H1 H2 H3 H4. destruct (reassemble rs cur rc rng conn c t st H1 H2 H3 H4) as (c' & t' & es & E & Hs & Hq & Hm & Hr).
  exists c', t', es. split_and!; [done|by eapply open_raw_same|done|done|done|]. intros rs'. clear. unfold messages, unfinished. rewrite omap_app. revert cur.
  induction (omap piece_of rs) as [|p ps IH]; intros cur; [done|]. cbn. destruct (final p); [|apply IH]. specialize (IH []). destruct (split [] (ps ++ _)), (split [] ps). cbn in *. by rewrite IH.
Qed.

End Frames.

(** ** The close frame *)

(** A close frame fits in a control frame and says what was asked.  The payload
    the plugin's close sends has at most 125 bytes, all of them bytes, and read
    the way [OnWsPollActivity] reads the peer's close frame it is the code (its
    16 low bits) and the reason up to its 123rd byte. *)
Theorem close_frame_roundtrip (code : Z) (reason : bytes) : Forall is_byte reason ->
  (length (close_payload code reason) <= 125)%nat /\ Forall is_byte (close_payload code reason) /\
  close_frame (close_payload code reason) = (uN 16 code, take 123 reason).
Proof.
  intros Hb. assert (forall x, Z.land x 255 = x mod 256) as Hl by (intros x; change 255 with (Z.ones 8); by rewrite Z.land_ones).
  assert (forall x, is_byte (Z.land x 255)) as Hy by (intros x; rewrite Hl; unfold is_byte; apply Z.mod_pos_bound; lia).
  split; [unfold close_payload; rewrite length_app, length_take; cbn [length]; lia|]. split.
  - apply Forall_app. split; [apply Forall_cons; split; [apply Hy|]; apply Forall_singleton; apply Hy|by apply Forall_take].
  - unfold close_payload, close_frame. cbn [app]. f_equal. rewrite lor_add by (try lia; rewrite Hl; apply Z.mod_pos_bound; lia). rewrite !Hl, Z.shiftr_div_pow2 by lia.
    unfold uN. change (2 ^ 8) with 256. change (2 ^ 16) with (256 * 256). rewrite (Z.rem_mul_r code 256 256) by lia. lia.
Qed.
