(* ===== verification/WsState.v ===== *)
(** * The invariant of WebSocket connections

    A connection's timers, poll and easy handle are the ones whose data points
    to it, and its state says which of them it has.  With the handles, the event
    loop's table, the queued operations and the events on their way this is the
    invariant of all connections. *)

From stdpp Require Import base numbers list gmap.
From Stdlib Require Import ZArith Lia.
From S2P Require Import Prelude LockedQueue NodePool WsConnection HandleManager HttpRequest WsLoop.

Import Ws.

Implicit Types (p : positive) (id : Z).

(** ** What a connection holds *)

Definition timer_field (k : TimerKind) (c : WsConnection) : option positive :=
  match k with T_close => close_timer_ c | T_ping => ping_timer_ c | T_reconnect => reconnect_timer_ c end.

(** The members point to what exists, and what points to the connection is what
    its members point to. *)
Record linked p (c : WsConnection) (t : WsLoop) : Prop := {
  L_timer : forall k h, timer_field k c = Some h -> exists x, timers t !! h = Some x /\ t_kind x = k /\ t_data x = p;
  L_timer' : forall h x, timers t !! h = Some x -> t_data x = p -> timer_field (t_kind x) c = Some h;
  L_poll : forall h, uv_poll c = Some h <-> polls t !! h = Some p;
  L_easy : forall e, curl_handle c = Some e <-> easies t !! e = Some p
}.

(** Only what belongs to one connection changes; queues and table stay. *)
Record rstep p (t t' : WsLoop) : Prop := {
  R_ops : ws_op_queue t' = ws_op_queue t;
  R_events : ws_events t' = ws_events t;
  R_table : ws_connections_ t' = ws_connections_ t;
  R_timers : forall h x, t_data x <> p -> timers t' !! h = Some x <-> timers t !! h = Some x;
  R_polls : forall h q, q <> p -> polls t' !! h = Some q <-> polls t !! h = Some q;
  R_easies : forall e q, q <> p -> easies t' !! e = Some q <-> easies t !! e = Some q;
  R_set : forall e q, q <> p -> easies t !! e = Some q -> e ∈ ws_curl_handles_ t' <-> e ∈ ws_curl_handles_ t
}.

Lemma rstep_refl p t : rstep p t t.
Proof. by split. Qed.

Lemma rstep_trans p t1 t2 t3 : rstep p t1 t2 -> rstep p t2 t3 -> rstep p t1 t3.
Proof.
  intros [A1 A2 A3 A4 A5 A6 A7] [B1 B2 B3 B4 B5 B6 B7]. split; [congruence..| | | |].
  - intros h x Hx. by rewrite B4, A4.
  - intros h q Hq. by rewrite B5, A5.
  - intros e q Hq. by rewrite B6, A6.
  - intros e q Hq He. rewrite (B7 e q), (A7 e q); [done|done|done|done|]. by apply A6.
Qed.

(** ** Taking away and adding *)

Lemma linked_same p c c' t : linked p c t -> (forall k, timer_field k c' = timer_field k c) -> uv_poll c' = uv_poll c -> curl_handle c' = curl_handle c -> linked p c' t.
Proof. intros [L1 L2 L3 L4] Hf Hp He. split; [|intros h x; rewrite Hf; apply L2|by rewrite Hp|by rewrite He]. intros k h. rewrite Hf. apply L1. Qed.

(** The loop without a timer, and the connection without it. *)
Lemma timer_removed p c c' t k h : linked p c t -> timer_field k c = Some h -> (forall k', timer_field k' c' = if decide (k' = k) then None else timer_field k' c) ->
  uv_poll c' = uv_poll c -> curl_handle c' = curl_handle c ->
  exists x, timers t !! h = Some x /\ rstep p t (set_timers (delete h (timers t)) t) /\ linked p c' (set_timers (delete h (timers t)) t).
Proof.
  intros [L1 L2 L3 L4] Hk Hf Hp He. destruct (L1 k h Hk) as (x & Hx & Hkx & Hd). exists x. split; [done|]. split.
  - split; try done. intros h' x' Hne. cbn. rewrite lookup_delete_Some. split; [by intros [_ ?]|]. intros Hx'. split; [|done]. intros <-. congruence.
  - split; cbn; [| |by rewrite Hp|by rewrite He].
    + intros k' h'. rewrite Hf. case_decide as Hkk; [done|]. intros Hh'. destruct (L1 k' h' Hh') as (x' & Hx' & Hk' & Hd'). exists x'. split; [|done].
      rewrite lookup_delete_ne; [done|]. intros <-. congruence.
    + intros h' x' [Hne Hx']%lookup_delete_Some Hd'. rewrite Hf. pose proof (L2 h' x' Hx' Hd') as E. case_decide as Hkk; [|done]. rewrite Hkk in E. congruence.
Qed.

Lemma stop_timer_spec p c t k h c' : linked p c t -> timer_field k c = Some h -> (forall k', timer_field k' c' = if decide (k' = k) then None else timer_field k' c) ->
  uv_poll c' = uv_poll c -> curl_handle c' = curl_handle c -> exists t', stop_timer h t = Some t' /\ rstep p t t' /\ linked p c' t'.
Proof.
  intros Hl Hk Hf Hp He. destruct (timer_removed p c c' t k h Hl Hk Hf Hp He) as (x & Hx & Hr & Hl'). unfold stop_timer. rewrite Hx. cbn. eauto.
Qed.

(** A timer is started for the connection. *)
Lemma start_timer_spec p c c' t x : linked p c t -> t_data x = p -> timer_field (t_kind x) c = None ->
  (forall k, timer_field k c' = if decide (k = t_kind x) then Some (fresh_addr (timers t)) else timer_field k c) -> uv_poll c' = uv_poll c -> curl_handle c' = curl_handle c ->
  rstep p t (start_timer x t).2 /\ linked p c' (start_timer x t).2.
Proof.
  intros [L1 L2 L3 L4] Hd Hn Hf Hp He. pose proof (fresh_addr_None (timers t)) as Hfr. cbn. set (h := fresh_addr (timers t)) in *. split.
  - split; try done. intros h' x' Hne. cbn. destruct (decide (h' = h)) as [->|Hh]; [|by rewrite lookup_insert_ne]. rewrite lookup_insert_eq. split; [intros [= <-]; done|congruence].
  - split; cbn; [| |by rewrite Hp|by rewrite He].
    + intros k h'. rewrite Hf. case_decide as Hk; [intros [= <-]; exists x; rewrite lookup_insert_eq; by subst k|]. intros Hh'. destruct (L1 k h' Hh') as (x' & Hx' & Hr).
      exists x'. rewrite lookup_insert_ne; [done|]. intros <-. congruence.
    + intros h' x'. rewrite lookup_insert_Some, Hf. intros [[<- <-]|[Hne Hx']] Hd'; [by rewrite decide_True|]. pose proof (L2 h' x' Hx' Hd') as E. case_decide as Hk; [|done]. congruence.
Qed.

(** Members that are not links. *)
Lemma linked_state p c t s : linked p c t -> linked p (set_state s c) t.
Proof. intros H. apply linked_same with c; [exact H|by intros []|reflexivity|reflexivity]. Qed.
Lemma linked_url p c t u : linked p c t -> linked p (set_url u c) t.
Proof. intros H. apply linked_same with c; [exact H|by intros []|reflexivity|reflexivity]. Qed.
Lemma linked_built p c t b : linked p c t -> linked p (set_built b c) t.
Proof. intros H. apply linked_same with c; [exact H|by intros []|reflexivity|reflexivity]. Qed.
Lemma linked_message_buf p c t b : linked p c t -> linked p (set_message_buf b c) t.
Proof. intros H. apply linked_same with c; [exact H|by intros []|reflexivity|reflexivity]. Qed.
Lemma linked_is_binary p c t b : linked p c t -> linked p (set_is_binary b c) t.
Proof. intros H. apply linked_same with c; [exact H|by intros []|reflexivity|reflexivity]. Qed.
Lemma linked_fragmented p c t b : linked p c t -> linked p (set_fragmented b c) t.
Proof. intros H. apply linked_same with c; [exact H|by intros []|reflexivity|reflexivity]. Qed.
Lemma linked_close_sent p c t b : linked p c t -> linked p (set_close_sent b c) t.
Proof. intros H. apply linked_same with c; [exact H|by intros []|reflexivity|reflexivity]. Qed.
Lemma linked_close_pushed p c t b : linked p c t -> linked p (set_close_pushed b c) t.
Proof. intros H. apply linked_same with c; [exact H|by intros []|reflexivity|reflexivity]. Qed.
Lemma linked_reconnect_count p c t n : linked p c t -> linked p (set_reconnect_count n c) t.
Proof. intros H. apply linked_same with c; [exact H|by intros []|reflexivity|reflexivity]. Qed.
Lemma linked_ping_interval p c t n : linked p c t -> linked p (set_ping_interval n c) t.
Proof. intros H. apply linked_same with c; [exact H|by intros []|reflexivity|reflexivity]. Qed.
Lemma linked_close_timeout p c t n : linked p c t -> linked p (set_close_timeout n c) t.
Proof. intros H. apply linked_same with c; [exact H|by intros []|reflexivity|reflexivity]. Qed.
Lemma linked_auto_pong p c t b : linked p c t -> linked p (set_auto_pong b c) t.
Proof. intros H. apply linked_same with c; [exact H|by intros []|reflexivity|reflexivity]. Qed.
Lemma linked_max_message_size p c t n : linked p c t -> linked p (set_max_message_size n c) t.
Proof. intros H. apply linked_same with c; [exact H|by intros []|reflexivity|reflexivity]. Qed.

Create HintDb links.
#[export] Hint Resolve linked_state linked_url linked_built linked_message_buf linked_is_binary linked_fragmented linked_close_sent linked_close_pushed linked_reconnect_count linked_ping_interval linked_close_timeout linked_auto_pong linked_max_message_size : links.

(** The three timers. *)
Lemma start_close_spec p c t ms r : linked p c t -> close_timer_ c = None ->
  rstep p t (start_timer (mkTimer T_close p ms r) t).2 /\ linked p (set_close_timer (Some (fresh_addr (timers t))) c) (start_timer (mkTimer T_close p ms r) t).2.
Proof. intros Hl Hn. apply (start_timer_spec p c); [exact Hl|reflexivity|exact Hn|by intros []|reflexivity|reflexivity]. Qed.

Lemma start_ping_spec p c t ms r : linked p c t -> ping_timer_ c = None ->
  rstep p t (start_timer (mkTimer T_ping p ms r) t).2 /\ linked p (set_ping_timer (Some (fresh_addr (timers t))) c) (start_timer (mkTimer T_ping p ms r) t).2.
Proof. intros Hl Hn. apply (start_timer_spec p c); [exact Hl|reflexivity|exact Hn|by intros []|reflexivity|reflexivity]. Qed.

Lemma start_reconnect_spec p c t ms r : linked p c t -> reconnect_timer_ c = None ->
  rstep p t (start_timer (mkTimer T_reconnect p ms r) t).2 /\ linked p (set_reconnect_timer (Some (fresh_addr (timers t))) c) (start_timer (mkTimer T_reconnect p ms r) t).2.
Proof. intros Hl Hn. apply (start_timer_spec p c); [exact Hl|reflexivity|exact Hn|by intros []|reflexivity|reflexivity]. Qed.

(** ** Cleaning up *)

Definition without_timers (c : WsConnection) : WsConnection := set_reconnect_timer None (set_ping_timer None (set_close_timer None c)).

Lemma stop_close_spec p c t : linked p c t -> exists t', stop_close_timer c t = Some (set_close_timer None c, t') /\ rstep p t t' /\ linked p (set_close_timer None c) t'.
Proof.
  intros Hl. unfold stop_close_timer. destruct (close_timer_ c) as [h|] eqn:E.
  - destruct (stop_timer_spec p c t T_close h (set_close_timer None c) Hl E) as (t' & -> & Hr & Hl'); [by intros []|done|done|]. eauto.
  - exists t. replace (set_close_timer None c) with c by (destruct c; cbn in *; by subst). split_and!; [done|apply rstep_refl|done].
Qed.

Lemma stop_ping_spec p c t : linked p c t -> exists t', stop_ping_timer c t = Some (set_ping_timer None c, t') /\ rstep p t t' /\ linked p (set_ping_timer None c) t'.
Proof.
  intros Hl. unfold stop_ping_timer. destruct (ping_timer_ c) as [h|] eqn:E.
  - destruct (stop_timer_spec p c t T_ping h (set_ping_timer None c) Hl E) as (t' & -> & Hr & Hl'); [by intros []|done|done|]. eauto.
  - exists t. replace (set_ping_timer None c) with c by (destruct c; cbn in *; by subst). split_and!; [done|apply rstep_refl|done].
Qed.

Lemma stop_reconnect_spec p c t : linked p c t -> exists t', stop_reconnect_timer c t = Some (set_reconnect_timer None c, t') /\ rstep p t t' /\ linked p (set_reconnect_timer None c) t'.
Proof.
  intros Hl. unfold stop_reconnect_timer. destruct (reconnect_timer_ c) as [h|] eqn:E.
  - set (t1 := set_reconnect_timers _ t). assert (linked p c t1) as Hl1 by (by destruct Hl).
    destruct (stop_timer_spec p c t1 T_reconnect h (set_reconnect_timer None c) Hl1 E) as (t' & -> & Hr & Hl'); [by intros []|done|done|].
    exists t'. split_and!; [done| |done]. eapply rstep_trans; [|exact Hr]. by split.
  - exists t. replace (set_reconnect_timer None c) with c by (destruct c; cbn in *; by subst). split_and!; [done|apply rstep_refl|done].
Qed.

Lemma stop_timers_spec p c t : linked p c t -> exists t', WsStopTimers c t = Some (without_timers c, t') /\ rstep p t t' /\ linked p (without_timers c) t'.
Proof.
  intros Hl. unfold WsStopTimers. destruct (stop_close_spec p c t Hl) as (t1 & -> & R1 & L1). cbn [mbind option_bind].
  destruct (stop_ping_spec p _ t1 L1) as (t2 & -> & R2 & L2). cbn [mbind option_bind]. destruct (stop_reconnect_spec p _ t2 L2) as (t3 & -> & R3 & L3).
  exists t3. split_and!; [done| |done]. eapply rstep_trans; [exact R1|]. by eapply rstep_trans.
Qed.

Lemma stop_poll_spec p c t : linked p c t -> exists t', stop_poll c t = Some (set_poll None c, t') /\ rstep p t t' /\ linked p (set_poll None c) t'.
Proof.
  intros Hl. unfold stop_poll. destruct (uv_poll c) as [h|] eqn:E.
  - pose proof (proj1 (L_poll _ _ _ Hl h) E) as Hh. rewrite Hh. cbn. eexists. split; [done|]. split.
    + split; try done. intros h' q Hne. cbn. rewrite lookup_delete_Some. split; [by intros [_ ?]|]. intros Hq. split; [|done]. intros <-. congruence.
    + destruct Hl as [L1 L2 L3 L4]. split; try done. intros h'. cbn. rewrite lookup_delete_Some, <- L3. split; [done|]. intros [Hne ?]. congruence.
  - exists t. replace (set_poll None c) with c by (destruct c; cbn in *; by subst). split_and!; [done|apply rstep_refl|done].
Qed.

(** An easy handle of the connection is destroyed. *)
Lemma easy_cleanup_spec p c t e : linked p c t -> curl_handle c = Some e ->
  exists t', easy_cleanup e (set_curl_handles (ws_curl_handles_ t ∖ {[e]}) t) = Some t' /\ rstep p t t' /\ linked p (set_curl None c) t'.
Proof.
  intros Hl E. pose proof (proj1 (L_easy _ _ _ Hl e) E) as He. unfold easy_cleanup. cbn. rewrite He. cbn. eexists. split; [done|]. split.
  - split; try done.
    + intros e' q Hne. cbn. rewrite lookup_delete_Some. split; [by intros [_ ?]|]. intros Hq. split; [|done]. intros <-. congruence.
    + intros e' q Hne Hq. cbn. assert (e' <> e) by congruence. set_solver.
  - destruct Hl as [L1 L2 L3 L4]. split; try done. intros e'. cbn. rewrite lookup_delete_Some, <- L4. split; [done|]. intros [Hne ?]. congruence.
Qed.

Lemma drop_easy_spec p c t : linked p c t -> exists t', drop_easy c t = Some (set_curl None c, t') /\ rstep p t t' /\ linked p (set_curl None c) t'.
Proof.
  intros Hl. unfold drop_easy. destruct (curl_handle c) as [e|] eqn:E.
  - destruct (easy_cleanup_spec p c t e Hl E) as (t' & -> & Hr & Hl'). cbn. eauto.
  - exists t. replace (set_curl None c) with c by (destruct c; cbn in *; by subst). split_and!; [done|apply rstep_refl|done].
Qed.

(** The connection after a cleanup. *)
Definition cleaned (c : WsConnection) : WsConnection := set_built [] (set_curl None (set_poll None (without_timers c))).
Definition kept (c : WsConnection) : WsConnection := set_state RECONNECTING (set_close_sent false (set_fragmented false (set_message_buf [] (cleaned c)))).

Lemma cleanup_spec p c t keep : linked p c t -> exists t1, rstep p t t1 /\ linked p (cleaned c) t1 /\
  WsCleanup keep c t = Some (if keep then (kept c, t1) else (set_state CLOSED (cleaned c), erase_connection (handle_id c) t1)).
Proof.
  intros Hl. unfold WsCleanup. destruct (stop_timers_spec p c t Hl) as (t1 & -> & R1 & L1). cbn [mbind option_bind].
  destruct (stop_poll_spec p _ t1 L1) as (t2 & -> & R2 & L2). cbn [mbind option_bind]. destruct (drop_easy_spec p _ t2 L2) as (t3 & -> & R3 & L3). cbn [mbind option_bind].
  exists t3. split; [eapply rstep_trans; [exact R1|]; by eapply rstep_trans|]. split; [by eapply linked_same|]. by destruct keep.
Qed.

(** ** One connection *)

Definition op_id (op : WsOp) : Z := match op with CONNECT id _ _ | SEND _ id _ _ | CLOSE id _ _ | SET_OPTION id _ _ => id end.
Definition is_connect (op : WsOp) : bool := match op with CONNECT _ _ _ => true | _ => false end.
Definition is_close (op : WsOp) : bool := match op with CLOSE _ _ _ => true | _ => false end.

Definition ops_of id (t : WsLoop) : list WsOp := filter (fun op => op_id op = id) (queue_ (ws_op_queue t)).
Definition closed_of id (evs : list WsEvent) : list WsEvent := filter (fun e => e_type e = WS_CLOSED /\ e_handle_id e = id) evs.

(** At most one connect is queued, and no close before it. *)
Fixpoint ordered (ops : list WsOp) : Prop :=
  match ops with [] => True | op :: ops => (is_connect op || is_close op = true -> Forall (fun o => is_connect o = false) ops) /\ ordered ops end.

(** Seconds that are an [int] of milliseconds. *)
Definition seconds_ok (n : Z) : Prop := 0 <= n <= 2147483.

Definition option_ok (op : WsOp) : Prop := match op with SET_OPTION _ o v => s_range 32 v /\ v <= 2147483 | _ => True end.

(** The bytes of a message, and a parsed message's bytes in its event. *)
Definition bytes_ok (b : bytes) : Prop := Forall is_byte b /\ Z.of_nat (length b) < 2 ^ 31.
Definition data_ok (e : WsEvent) : Prop := e_parse_mode e <> 0 -> bytes_ok (e_data e).
Definition buffer_ok (c : WsConnection) : Prop := bytes_ok (message_buf_ c) /\ 0 <= max_message_size c < 2 ^ 31.

Section Invariant.

Context (backoff : Z -> Z -> Z -> option Z).

(** The delays of the reconnects that can happen are [int]s. *)
Definition delays_ok (c : WsConnection) : Prop :=
  max_reconnects c = 0 \/ (0 <= reconnect_max_delay_ms c /\ forall n, (max_reconnects c > 0 -> n <= max_reconnects c) -> is_Some (backoff (reconnect_delay_ms c) (reconnect_backoff c) n)).

Definition no_timers (c : WsConnection) : Prop := close_timer_ c = None /\ ping_timer_ c = None /\ reconnect_timer_ c = None.
Definition no_transfer (c : WsConnection) : Prop := curl_handle c = None /\ uv_poll c = None.

(** What a connection has in each state. *)
Definition phase (t : WsLoop) (c : WsConnection) : Prop :=
  match state c with
  | CREATED | CLOSED => no_timers c /\ no_transfer c
  | CONNECTING => no_timers c /\ uv_poll c = None /\ exists e, curl_handle c = Some e /\ e ∈ ws_curl_handles_ t
  | CONNECTED => close_timer_ c = None /\ reconnect_timer_ c = None /\ is_Some (uv_poll c) /\ exists e, curl_handle c = Some e /\ e ∉ ws_curl_handles_ t
  | CLOSING => is_Some (close_timer_ c) /\ reconnect_timer_ c = None /\ is_Some (uv_poll c) /\ exists e, curl_handle c = Some e /\ e ∉ ws_curl_handles_ t
  | RECONNECTING => close_timer_ c = None /\ ping_timer_ c = None /\ is_Some (reconnect_timer_ c) /\ no_transfer c
  end.

Definition is_final (c : WsConnection) : bool := bool_decide (state c = CLOSED).

Record conn_ok (t : WsLoop) (evs : list WsEvent) id p (c : WsConnection) : Prop := {
  C_linked : linked p c t;
  C_phase : phase t c;
  C_closed : length (closed_of id evs) = if is_final c then 1%nat else 0%nat;
  C_pushed : close_event_pushed_ c = is_final c;
  C_final : is_final c = true -> ws_connections_ t !! id = None /\ Forall (fun op => is_connect op = false) (ops_of id t);
  C_connects : Exists (fun op => is_connect op = true) (ops_of id t) -> state c = CREATED;
  C_ordered : ordered (ops_of id t);
  C_closes : Exists (fun op => is_close op = true) (ops_of id t) -> handle_closed c = true;
  C_options : Forall option_ok (ops_of id t);
  C_seconds : seconds_ok (close_timeout c) /\ seconds_ok (ping_interval c);
  C_delays : delays_ok c;
  C_ranges : s_range 32 (reconnect_count c) /\ s_range 32 (max_reconnects c);
  C_buffer : buffer_ok c
}.

(** ** All connections: [hs] are the handles of connections with their pointers *)

Record ws_ok (hs : gmap Z positive) (conns : gmap positive WsConnection) (t : WsLoop) (evs : list WsEvent) : Prop := {
  W_handle : forall id p, hs !! id = Some p -> exists c, conns !! p = Some c /\ handle_id c = id /\ conn_ok t evs id p c;
  W_conn : forall p c, conns !! p = Some c -> hs !! handle_id c = Some p;
  W_table : forall id p, ws_connections_ t !! id = Some p -> hs !! id = Some p;
  W_connects : forall id u p, CONNECT id u p ∈ queue_ (ws_op_queue t) -> hs !! id = Some p;
  W_closed : forall e, e ∈ evs -> e_type e = WS_CLOSED -> is_Some (hs !! e_handle_id e);
  W_data : forall e, e ∈ evs -> data_ok e;
  W_timer : forall h x, timers t !! h = Some x -> is_Some (conns !! t_data x);
  W_poll : forall h q, polls t !! h = Some q -> is_Some (conns !! q);
  W_easy : forall e q, easies t !! e = Some q -> is_Some (conns !! q)
}.

Lemma ws_ok_empty : ws_ok ∅ ∅ new_WsLoop [].
Proof. split; cbn; try (intros ? ?; rewrite lookup_empty; done); [by intros ? ? ? ?%not_elem_of_nil|by intros ? ?%not_elem_of_nil|by intros ? ?%not_elem_of_nil]. Qed.

(** The parts that belong to other connections are as before. *)
Record apart id p (t t' : WsLoop) (evs evs' : list WsEvent) : Prop := {
  O_tab : forall id', id' <> id -> ws_connections_ t' !! id' = ws_connections_ t !! id';
  O_ops : forall id', id' <> id -> ops_of id' t' = ops_of id' t;
  O_closed : forall id', id' <> id -> closed_of id' evs' = closed_of id' evs;
  O_events : forall e, e ∈ evs' -> e ∈ evs \/ (e_handle_id e = id /\ data_ok e);
  O_timers : forall h x, t_data x <> p -> timers t' !! h = Some x <-> timers t !! h = Some x;
  O_polls : forall h q, q <> p -> polls t' !! h = Some q <-> polls t !! h = Some q;
  O_easies : forall e q, q <> p -> easies t' !! e = Some q <-> easies t !! e = Some q;
  O_set : forall e q, q <> p -> easies t !! e = Some q -> e ∈ ws_curl_handles_ t' <-> e ∈ ws_curl_handles_ t
}.

Lemma linked_other id p t t' evs evs' q c : apart id p t t' evs evs' -> q <> p -> linked q c t -> linked q c t'.
Proof.
  intros [_ _ _ _ O5 O6 O7 _] Hne [L1 L2 L3 L4]. split.
  - intros k h Hh. destruct (L1 k h Hh) as (x & Hx & Hk & Hd). exists x. split; [|done]. apply O5; [congruence|done].
  - intros h x Hx Hd. apply L2; [|done]. apply O5; [congruence|done].
  - intros h. rewrite L3. symmetry. by apply O6.
  - intros e. rewrite L4. symmetry. by apply O7.
Qed.

Lemma phase_set t t' c : (forall e, curl_handle c = Some e -> e ∈ ws_curl_handles_ t' <-> e ∈ ws_curl_handles_ t) -> phase t c -> phase t' c.
Proof.
  intros Hs. unfold phase. destruct (state c); try done.
  - intros (? & ? & e & He & Hin). split_and!; [done|done|]. exists e. split; [done|by apply Hs].
  - intros (? & ? & ? & e & He & Hin). split_and!; [done|done|done|]. exists e. split; [done|]. by rewrite Hs.
  - intros (? & ? & ? & e & He & Hin). split_and!; [done|done|done|]. exists e. split; [done|]. by rewrite Hs.
Qed.

Section OneConnection.

Context (hs : gmap Z positive) (conns : gmap positive WsConnection) (t t' : WsLoop) (evs evs' : list WsEvent).
Context (id : Z) (p : positive) (c c' : WsConnection).
Context (H : ws_ok hs conns t evs) (Hx : hs !! id = Some p) (Hc : conns !! p = Some c).

Lemma ws_owner_ok : handle_id c = id /\ conn_ok t evs id p c.
Proof using H Hx Hc. destruct (W_handle _ _ _ _ H id p Hx) as (c0 & Hc0 & E & Hv). rewrite Hc in Hc0. injection Hc0 as <-. done. Qed.

Lemma ws_owner_unique id' : hs !! id' = Some p -> id' = id.
Proof using H Hx Hc. intros Hx'. destruct (W_handle _ _ _ _ H id' p Hx') as (c0 & Hc0 & E & _). rewrite Hc in Hc0. injection Hc0 as <-. destruct ws_owner_ok. congruence. Qed.

Lemma one_connection : apart id p t t' evs evs' -> handle_id c' = id -> (forall q, ws_connections_ t' !! id = Some q -> q = p) ->
  (forall u q, CONNECT id u q ∈ ops_of id t' -> q = p) -> conn_ok t' evs' id p c' -> ws_ok hs (<[p := c']> conns) t' evs'.
Proof using H Hx Hc.
  intros Ho Hid Htab Hcon Hv. pose proof Ho as [O1 O2 O3 O4 O5 O6 O7 O8]. assert (forall q, is_Some (conns !! q) -> is_Some (<[p:=c']> conns !! q)) as Hin.
  { intros q [c0 Hq]. destruct (decide (q = p)) as [->|Hne]; [rewrite lookup_insert_eq|rewrite lookup_insert_ne by done]; eauto. }
  split.
  - intros id' p' Hx'. destruct (decide (id' = id)) as [->|Hne].
    + assert (p' = p) as -> by congruence. exists c'. by rewrite lookup_insert_eq.
    + destruct (W_handle _ _ _ _ H id' p' Hx') as (c0 & Hc0 & E0 & [V1 V2 V3 V4 V5 V6 V7 V8 V9 V10 V11 V12 V13]).
      assert (p' <> p) as Hpp by (intros ->; apply Hne; by apply ws_owner_unique). exists c0. rewrite lookup_insert_ne by done. split_and!; [done..|].
      split; rewrite ?O1, ?O2, ?O3 by done; try done; [by eapply linked_other|]. eapply phase_set; [|exact V2]. intros e He. apply (O8 e p' Hpp). by apply (L_easy _ _ _ V1).
  - intros q c0. rewrite lookup_insert_Some. intros [[<- <-]|[Hne Hq]]; [by rewrite Hid|by apply (W_conn _ _ _ _ H)].
  - intros id' q. destruct (decide (id' = id)) as [->|Hne]; [|rewrite O1 by done; apply (W_table _ _ _ _ H)]. intros Hq. by rewrite (Htab q Hq).
  - intros id' u q Hop. assert (CONNECT id' u q ∈ ops_of id' t') as Hop' by (by apply list_elem_of_filter).
    destruct (decide (id' = id)) as [->|Hne]; [by rewrite (Hcon u q Hop')|]. rewrite O2 in Hop' by done. apply list_elem_of_filter in Hop' as [_ Hop']. by apply (W_connects _ _ _ _ H id' u).
  - intros e He Ht. destruct (O4 e He) as [He'|[-> _]]; [by apply (W_closed _ _ _ _ H e)|by exists p].
  - intros e He. destruct (O4 e He) as [He'|[_ ?]]; [by apply (W_data _ _ _ _ H e)|done].
  - intros h x Hh. apply Hin. destruct (decide (t_data x = p)) as [->|Hne]; [by exists c|]. apply O5 in Hh; [|done]. by apply (W_timer _ _ _ _ H h).
  - intros h q Hh. apply Hin. destruct (decide (q = p)) as [->|Hne]; [by exists c|]. apply O6 in Hh; [|done]. by apply (W_poll _ _ _ _ H h).
  - intros e q He. apply Hin. destruct (decide (q = p)) as [->|Hne]; [by exists c|]. apply O7 in He; [|done]. by apply (W_easy _ _ _ _ H e).
Qed.

End OneConnection.

End Invariant.
