(* ===== verification/WsSafe.v ===== *)
(** * WebSockets: the event thread's functions keep the invariant

    Each function of [WsLoop.v] on a connection is defined and leads to a state
    that satisfies [ws_ok] again. *)

From stdpp Require Import base numbers list gmap.
From Stdlib Require Import ZArith Lia.
From S2P Require Import Prelude LockedQueue NodePool WsConnection HandleManager HttpRequest HeaderMap WsLoop WsState.

Import Ws.

(** The events that are not finished: taken by the game thread, then queued. *)
Definition evs_of (l : list WsEvent) (t : WsLoop) : list WsEvent := l ++ queue_ (ws_events t).

Lemma ws_evs_push l e t : evs_of l (PushSocketEvent e t) = evs_of l t ++ [e].
Proof. unfold evs_of. cbn. by rewrite app_assoc. Qed.

Lemma ws_closed_push id e evs : closed_of id (evs ++ [e]) = closed_of id evs ++ (if decide (e_type e = WS_CLOSED /\ e_handle_id e = id) then [e] else []).
Proof. unfold closed_of. by rewrite filter_app. Qed.

Lemma mul_seconds n : seconds_ok n -> mul_int n 1000 = Some (n * 1000).
Proof. intros [H1 H2]. unfold mul_int. rewrite bool_decide_true; [done|]. unfold s_range. lia. Qed.

(** A frame is given to libcurl: only what was sent changes. *)
Lemma ws_send_spec p c1 easy data flags rc t1 : linked p c1 t1 -> curl_handle c1 = Some easy -> exists t2, curl_ws_send easy data flags rc t1 = Some t2 /\ rstep p t1 t2 /\ linked p c1 t2 /\ ws_curl_handles_ t2 = ws_curl_handles_ t1.
Proof.
  intros Hl He. unfold curl_ws_send. rewrite (proj1 (L_easy _ _ _ Hl easy) He). cbn. eexists. split; [done|]. destruct (rc =? 0); [|split_and!; [apply rstep_refl|done|done]].
  split_and!; [by split|by destruct Hl|done].
Qed.

Lemma init_curl_spec p easy c1 t1 : linked p c1 t1 -> no_transfer c1 -> easies t1 !! easy = None ->
  exists c2 t2, WsInitCurl (Some easy) p c1 t1 = (true, c2, t2) /\ rstep p t1 t2 /\ linked p c2 t2 /\ c2 = set_built (BuildHeaderSlist (headers_ c1) None) (set_state CONNECTING (set_curl (Some easy) c1)) /\
    easy ∈ ws_curl_handles_ t2.
Proof.
  intros Hl [Hn1 Hn2] Hfr. cbn. eexists _, _. split; [done|]. split; [|split; [|split; [done|set_solver]]].
  - split; try done.
    + intros e q Hne. cbn. destruct (decide (e = easy)) as [->|He]; [rewrite lookup_insert_eq; naive_solver congruence|by rewrite lookup_insert_ne].
    + intros e q Hne Hq. cbn. assert (e <> easy) by congruence. set_solver.
  - destruct Hl as [L1 L2 L3 L4]. split; try done. intros e. cbn. destruct (decide (e = easy)) as [->|He]; [by rewrite lookup_insert_eq|]. rewrite lookup_insert_ne by done.
    rewrite <- L4, Hn1. split; [intros [= ->]; done|done].
Qed.

(** A new easy handle stays new while the connection's own parts change. *)
Lemma easy_new p c1 t t1 e : rstep p t t1 -> linked p c1 t1 -> curl_handle c1 = None -> easies t !! e = None -> easies t1 !! e = None.
Proof.
  intros Hr Hl Hn He. destruct (easies t1 !! e) as [q|] eqn:E; [|done]. destruct (decide (q = p)) as [->|Hne].
  - apply (L_easy _ _ _ Hl) in E. congruence.
  - apply (R_easies _ _ _ Hr e q Hne) in E. congruence.
Qed.

(** The queued operations and the nodes of queued events are as they were. *)
Definition kept_refs (t t' : WsLoop) : Prop :=
  ws_op_queue t' = ws_op_queue t /\ omap e_parsed_node (queue_ (ws_events t')) = omap e_parsed_node (queue_ (ws_events t)).

Lemma kept_refs_trans t1 t2 t3 : kept_refs t1 t2 -> kept_refs t2 t3 -> kept_refs t1 t3.
Proof. intros [A1 A2] [B1 B2]. split; congruence. Qed.

Lemma kept_refs_push t t' e : kept_refs t t' -> e_parsed_node e = None -> kept_refs t (PushSocketEvent e t').
Proof. intros [A1 A2] He. split; [done|]. cbn. rewrite omap_app. cbn. by rewrite He, app_nil_r. Qed.

Lemma rstep_refs p t t' : rstep p t t' -> kept_refs t t'.
Proof. intros Hr. split; [apply (R_ops _ _ _ Hr)|by rewrite (R_events _ _ _ Hr)]. Qed.

Section Keeps.

Context (backoff : Z -> Z -> Z -> option Z).
Context (hs : gmap Z positive) (conns : gmap positive WsConnection) (t : WsLoop) (l : list WsEvent) (id : Z) (p : positive) (c : WsConnection).
Context (H : ws_ok backoff hs conns t (evs_of l t)) (Hx : hs !! id = Some p) (Hc : conns !! p = Some c).

Definition leads (r : option (WsConnection * WsLoop)) : Prop :=
  exists c' t', r = Some (c', t') /\ ws_ok backoff hs (<[p := c']> conns) t' (evs_of l t') /\ kept_refs t t'.

Lemma ws_leads_same : leads (Some (c, t)).
Proof using H Hx Hc. exists c, t. split; [done|]. by rewrite insert_id. Qed.

Lemma ws_the_id : handle_id c = id. Proof using H Hx Hc. by destruct (ws_owner_ok _ hs conns t _ id p c H Hx Hc). Qed.
Lemma ws_the_ok : conn_ok backoff t (evs_of l t) id p c. Proof using H Hx Hc. by destruct (ws_owner_ok _ hs conns t _ id p c H Hx Hc). Qed.
Lemma the_linked : linked p c t. Proof using H Hx Hc. apply (C_linked _ _ _ _ _ _ ws_the_ok). Qed.

(** What the functions of the event thread do not change. *)
Definition kept_settings (c' : WsConnection) : Prop :=
  handle_id c' = handle_id c /\ handle_closed c' = handle_closed c /\ seconds_ok (close_timeout c') /\ seconds_ok (ping_interval c') /\
  max_reconnects c' = max_reconnects c /\ reconnect_delay_ms c' = reconnect_delay_ms c /\ reconnect_backoff c' = reconnect_backoff c /\ reconnect_max_delay_ms c' = reconnect_max_delay_ms c /\
  s_range 32 (reconnect_count c') /\ buffer_ok c'.

Lemma kept_self c' : handle_id c' = handle_id c -> handle_closed c' = handle_closed c -> close_timeout c' = close_timeout c -> ping_interval c' = ping_interval c ->
  max_reconnects c' = max_reconnects c -> reconnect_delay_ms c' = reconnect_delay_ms c -> reconnect_backoff c' = reconnect_backoff c -> reconnect_max_delay_ms c' = reconnect_max_delay_ms c ->
  reconnect_count c' = reconnect_count c -> message_buf_ c' = message_buf_ c -> max_message_size c' = max_message_size c -> kept_settings c'.
Proof using H Hx Hc.
  intros. destruct (C_seconds _ _ _ _ _ _ ws_the_ok), (C_ranges _ _ _ _ _ _ ws_the_ok). pose proof (C_buffer _ _ _ _ _ _ ws_the_ok). unfold kept_settings, buffer_ok in *. split_and!; try congruence.
  all: repeat match goal with E : _ = _ |- _ => rewrite E end; by intuition.
Qed.

(** The connection is open in its new state; [es] are the events pushed. *)
Lemma opened_ok c' t1 es : rstep p t t1 -> linked p c' t1 -> kept_settings c' -> is_final c = false -> is_final c' = false -> close_event_pushed_ c' = false -> phase t1 c' ->
  Forall (fun e => e_handle_id e = id /\ e_type e <> WS_CLOSED /\ data_ok e) es -> (Exists (fun op => is_connect op = true) (ops_of id t) -> state c' = CREATED) ->
  let t2 := foldl (fun t e => PushSocketEvent e t) t1 es in ws_ok backoff hs (<[p := c']> conns) t2 (evs_of l t2).
Proof using H Hx Hc.
  intros Hr Hl (K1 & K2 & K3 & K4 & K5 & K6 & K7 & K8 & K9 & K10) N1 N2 N3 Hp Hes Hcr t2.
  assert (ws_op_queue t2 = ws_op_queue t1 /\ ws_connections_ t2 = ws_connections_ t1 /\ timers t2 = timers t1 /\ polls t2 = polls t1 /\ easies t2 = easies t1 /\
    ws_curl_handles_ t2 = ws_curl_handles_ t1 /\ evs_of l t2 = evs_of l t1 ++ es) as (E1 & E2 & E3 & E4 & E5 & E6 & E7).
  { subst t2. clear. revert t1. induction es as [|e es IH]; intros t1; cbn; [by rewrite app_nil_r|].
    destruct (IH (PushSocketEvent e t1)) as (A1 & A2 & A3 & A4 & A5 & A6 & A7). rewrite A1, A2, A3, A4, A5, A6, A7, ws_evs_push, <- app_assoc. done. }
  assert (evs_of l t1 = evs_of l t) as E8 by (unfold evs_of; by rewrite (R_events _ _ _ Hr)). rewrite E8 in E7.
  assert (forall id', closed_of id' (evs_of l t ++ es) = closed_of id' (evs_of l t)) as Ec.
  { intros id'. unfold closed_of. rewrite filter_app. replace (filter _ es) with (@nil WsEvent); [by rewrite app_nil_r|]. clear -Hes. induction es as [|e es IH]; [done|].
    apply Forall_cons in Hes as [(_ & He & _) Hes]. rewrite filter_cons, decide_False by (by intros [? _]). by apply IH. }
  assert (ops_of id t2 = ops_of id t) as Eo by (unfold ops_of; by rewrite E1, (R_ops _ _ _ Hr)).
  eapply (one_connection _ hs conns t t2 _ _ id p c c' H Hx Hc).
  - rewrite E7. destruct Hr as [R1 R2 R3 R4 R5 R6 R7]. split; rewrite ?E2, ?E3, ?E4, ?E5, ?E6, ?R3; try done.
    + intros id' _. unfold ops_of. by rewrite E1, R1.
    + intros e [He|He]%elem_of_app; [by left|]. right. rewrite Forall_forall in Hes. by destruct (Hes e He) as (? & _ & ?).
  - by rewrite K1, ws_the_id.
  - intros q. rewrite E2, (R_table _ _ _ Hr). intros Hq%(W_table _ _ _ _ _ H). congruence.
  - rewrite Eo. intros u q [_ Hin]%list_elem_of_filter. apply (W_connects _ _ _ _ _ H id u q) in Hin. congruence.
  - destruct ws_the_ok as [V1 V2 V3 V4 V5 V6 V7 V8 V9 V10 V11 V12 V13]. split; rewrite ?Eo, ?E7, ?Ec, ?N2; try done.
    + destruct Hl as [L1 L2 L3 L4]. split; by rewrite ?E3, ?E4, ?E5.
    + eapply phase_set; [|exact Hp]. intros e _. by rewrite E6.
    + by rewrite V3, N1.
    + rewrite K2. apply V8.
    + unfold delays_ok in *. by rewrite K5, K6, K7, K8.
    + split; [done|]. rewrite K5. apply V12.
Qed.

Lemma leads_open c' t1 es : rstep p t t1 -> linked p c' t1 -> kept_settings c' -> is_final c = false -> is_final c' = false -> close_event_pushed_ c' = false -> phase t1 c' ->
  Forall (fun e => e_handle_id e = id /\ e_type e <> WS_CLOSED /\ data_ok e /\ e_parsed_node e = None) es -> (Exists (fun op => is_connect op = true) (ops_of id t) -> state c' = CREATED) ->
  leads (Some (c', foldl (fun t e => PushSocketEvent e t) t1 es)).
Proof using H Hx Hc.
  intros Hr Hl Hk N1 N2 N3 Hp Hes Hcr. eexists _, _. split; [done|]. split.
  - apply opened_ok; try done. eapply Forall_impl; [exact Hes|]. by intros e (? & ? & ? & _).
  - apply rstep_refs in Hr as Hk1. clear -Hk1 Hes. revert t1 Hk1. induction es as [|e es IH]; intros t1 Hk1; [done|]. apply Forall_cons in Hes as [(_ & _ & _ & He) Hes].
    apply IH; [done|]. by apply kept_refs_push.
Qed.

(** The connection is closed: nothing of it is left but its event. *)
Lemma leads_closed c' t1 e : rstep p t t1 -> linked p c' t1 -> no_timers c' -> no_transfer c' -> kept_settings c' -> is_final c = false -> state c' = CLOSED -> close_event_pushed_ c' = true ->
  e_type e = WS_CLOSED -> e_handle_id e = id -> e_parse_mode e = 0 -> e_parsed_node e = None -> Forall (fun op => is_connect op = false) (ops_of id t) ->
  leads (Some (c', PushSocketEvent e (erase_connection id t1))).
Proof using H Hx Hc.
  intros Hr Hl Ht Hn (K1 & K2 & K3 & K4 & K5 & K6 & K7 & K8 & K9 & K10) N1 N2 N3 He1 He2 He3 He4 Hops. set (t2 := PushSocketEvent e _).
  assert (evs_of l t2 = evs_of l t ++ [e]) as Ee by (unfold t2; rewrite ws_evs_push; unfold evs_of; cbn; by rewrite (R_events _ _ _ Hr)).
  assert (ops_of id t2 = ops_of id t) as Eo by (unfold ops_of, t2; cbn; by rewrite (R_ops _ _ _ Hr)).
  exists c', t2. split; [done|]. split; [|apply kept_refs_push; [exact (rstep_refs p t t1 Hr)|done]]. eapply (one_connection _ hs conns t t2 _ _ id p c c' H Hx Hc).
  - rewrite Ee. destruct Hr as [R1 R2 R3 R4 R5 R6 R7]. split; try done.
    + intros id' Hne. cbn. by rewrite lookup_delete_ne, R3.
    + intros id' _. unfold ops_of, t2. cbn. by rewrite R1.
    + intros id' Hne. rewrite ws_closed_push, decide_False; [by rewrite app_nil_r|]. intros [_ ?]. congruence.
    + intros e' [He'| ->%list_elem_of_singleton]%elem_of_app; [by left|right]. split; [done|]. intros Hm. by destruct Hm.
  - by rewrite K1, ws_the_id.
  - intros q. cbn. by rewrite lookup_delete_eq.
  - rewrite Eo. intros u q [_ Hin]%list_elem_of_filter. apply (W_connects _ _ _ _ _ H id u q) in Hin. congruence.
  - destruct ws_the_ok as [V1 V2 V3 V4 V5 V6 V7 V8 V9 V10 V11 V12 V13]. assert (is_final c' = true) as Ef by (unfold is_final; by apply bool_decide_true).
    split; rewrite ?Eo, ?Ee, ?Ef; try done.
    + destruct Hl as [L1 L2 L3 L4]. by split.
    + unfold phase. by rewrite N2.
    + rewrite ws_closed_push, decide_True by done. rewrite length_app, V3, N1. done.
    + intros _. split; [apply lookup_delete_eq|done].
    + intros Hex. exfalso. apply Exists_exists in Hex as (o & Ho & Eo'). rewrite Forall_forall in Hops. rewrite (Hops o Ho) in Eo'. done.
    + rewrite K2. apply V8.
    + unfold delays_ok in *. by rewrite K5, K6, K7, K8.
    + split; [done|]. rewrite K5. apply V12.
Qed.

(** A connection that is not new has no connect queued. *)
Lemma no_connects : state c <> CREATED -> Forall (fun op => is_connect op = false) (ops_of id t).
Proof using H Hx Hc.
  intros Hst. apply Forall_forall. intros o Ho. destruct (is_connect o) eqn:E; [|done]. destruct Hst. apply (C_connects _ _ _ _ _ _ ws_the_ok). apply Exists_exists. by exists o.
Qed.

Lemma not_pushed : is_final c = false -> close_event_pushed_ c = false.
Proof using H Hx Hc. intros E. by rewrite (C_pushed _ _ _ _ _ _ ws_the_ok). Qed.

(** [c1] is the connection with some members changed and [t1] the loop after
    that; the rest of the function cleans up and reports the close. *)
Lemma leads_close_with c1 t1 e : rstep p t t1 -> linked p c1 t1 -> kept_settings c1 -> close_event_pushed_ c1 = false -> is_final c = false -> e_type e = WS_CLOSED -> e_handle_id e = id -> e_parse_mode e = 0 -> e_parsed_node e = None ->
  Forall (fun op => is_connect op = false) (ops_of id t) -> leads (close_with e c1 t1).
Proof using H Hx Hc.
  intros Hr Hl Hk Hp Hf He1 He2 He3 He4 Hops. unfold close_with. destruct (cleanup_spec p c1 t1 false Hl) as (t2 & Hr2 & Hl2 & ->). cbn [mbind option_bind].
  unfold PushWsClosedOnce. cbn [close_event_pushed_ set_state cleaned without_timers set_built set_curl set_poll set_reconnect_timer set_ping_timer set_close_timer]. rewrite Hp.
  replace (handle_id c1) with id by (destruct Hk as (-> & _); by rewrite ws_the_id). apply leads_closed; try done; [by eapply rstep_trans|by eapply linked_same].
Qed.

(** The members that decide about a reconnect are as they were. *)
Definition same_fate (c1 : WsConnection) : Prop :=
  kept_settings c1 /\ close_event_pushed_ c1 = false /\ is_final c = false /\ state c1 = state c /\ reconnect_count c1 = reconnect_count c.

Lemma leads_reconnect rng c1 t1 : rstep p t t1 -> linked p c1 t1 -> same_fate c1 -> state c <> CREATED -> WsShouldReconnect c1 = true -> leads (WsStartReconnect backoff rng p c1 t1).
Proof using H Hx Hc.
  intros Hr Hl ((K1 & K2 & K3 & K4 & K5 & K6 & K7 & K8 & K9 & K10) & Hp & Hf & Hs & Hcnt) Hst Hsh. unfold WsStartReconnect.
  destruct (cleanup_spec p c1 t1 true Hl) as (t2 & Hr2 & Hl2 & ->). cbn [mbind option_bind]. set (c2 := set_reconnect_count _ (kept c1)).
  destruct (C_ranges _ _ _ _ _ _ ws_the_ok) as [G1 G2]. unfold WsShouldReconnect in Hsh.
  assert (handle_closed c1 = false) as Hh by (by destruct (handle_closed c1)). rewrite Hh in Hsh. case_bool_decide; [done|].
  rewrite K5 in Hsh. destruct (Z.eqb_spec (max_reconnects c) 0) as [|Hmax]; [done|]. destruct (C_delays _ _ _ _ _ _ ws_the_ok) as [|[Hd Hb]]; [done|].
  assert (s_range 32 (sN 32 (reconnect_count c1 + 1))) as Hrange by (apply s_bounds; lia).
  assert (max_reconnects c > 0 -> sN 32 (reconnect_count c1 + 1) <= max_reconnects c) as Hle.
  { intros Hpos. rewrite (proj2 (Z.gtb_lt _ _)) in Hsh by lia. cbn in Hsh. apply negb_true_iff in Hsh. rewrite Z.geb_leb in Hsh. apply Z.leb_gt in Hsh.
    rewrite Hcnt in *. unfold s_range in G1, G2. rewrite s_id; [lia|lia|]. unfold s_range. lia. }
  destruct (Hb _ Hle) as [scaled Hsc]. rewrite <- K6, <- K7 in Hsc.
  change (reconnect_delay_ms c2) with (reconnect_delay_ms c1). change (reconnect_backoff c2) with (reconnect_backoff c1). change (reconnect_count c2) with (sN 32 (reconnect_count c1 + 1)).
  rewrite Hsc. cbn [mbind option_bind]. change (reconnect_max_delay_ms c2) with (reconnect_max_delay_ms c1). rewrite K8. pose proof (retry_delay_bounds scaled _ Hd) as Hrd.
  unfold uniform. rewrite (proj2 (Z.ltb_ge _ _)) by lia. cbn [mbind option_bind]. set (x := mkTimer T_reconnect p _ 0). unfold start_timer. set (h := fresh_addr (timers t2)).
  set (c3 := set_reconnect_timer (Some h) c2). assert (linked p c2 t2) as Hc2 by (unfold c2, kept; auto 10 with links).
  destruct (start_reconnect_spec p c2 t2 (rng mod (retry_delay scaled (reconnect_max_delay_ms c) + 1)) 0 Hc2 eq_refl) as [Hr3 Hl3].
  unfold start_timer in Hr3, Hl3. cbn [snd] in Hr3, Hl3. fold h x c3 in Hr3, Hl3.
  set (t3 := set_timers _ t2) in *. set (t4 := set_reconnect_timers _ t3). assert (rstep p t t4) as Hr4.
  { eapply rstep_trans; [exact Hr|]. eapply rstep_trans; [exact Hr2|]. eapply rstep_trans; [exact Hr3|]. by split. }
  apply (leads_open c3 t4 []); try done.
  - destruct Hl3 as [L1 L2 L3 L4]. by split.
  - destruct K10 as [_ ?]. unfold kept_settings. by split_and!.
  - intros Hex. destruct Hst. by apply (C_connects _ _ _ _ _ _ ws_the_ok).
Qed.

Lemma leads_disconnect rng code c1 t1 : rstep p t t1 -> linked p c1 t1 -> same_fate c1 -> state c <> CREATED -> leads (WsDisconnectOrReconnect backoff rng p code c1 t1).
Proof using H Hx Hc.
  intros Hr Hl Hs Hst. unfold WsDisconnectOrReconnect. destruct (WsShouldReconnect c1) eqn:E; [by apply leads_reconnect|].
  destruct Hs as (Hk & Hp & Hf & Hs & _). apply leads_close_with; try done; [by destruct code as [[]|]| |by destruct code as [[]|]|by destruct code as [[]|]|by apply no_connects]. destruct code as [[]|]; cbn; destruct Hk as (-> & _); apply ws_the_id.
Qed.

(** The parts of the lemmas above that the invariant gives. *)
Ltac ws_done := first [done | apply rstep_refl | exact the_linked | exact ws_the_id | by apply kept_self | by apply not_pushed | exact (C_phase _ _ _ _ _ _ ws_the_ok) | exact (C_connects _ _ _ _ _ _ ws_the_ok)].

(** An event that does not close. *)
Lemma ws_leads_event e : e_handle_id e = id -> e_type e <> WS_CLOSED -> data_ok e -> e_parsed_node e = None -> is_final c = false -> leads (Some (c, PushSocketEvent e t)).
Proof using H Hx Hc.
  intros He1 He2 He3 He4 Hf. apply (leads_open c t [e]); try ws_done. by apply Forall_singleton.
Qed.

(** The table's entry for the connection changes. *)
Lemma table_ok m : (forall id', id' <> id -> m !! id' = ws_connections_ t !! id') -> (m !! id = None \/ (m !! id = Some p /\ is_final c = false)) ->
  ws_ok backoff hs conns (set_connections m t) (evs_of l t).
Proof using H Hx Hc.
  intros Hm Hid. rewrite <- (insert_id conns p c Hc). eapply (one_connection _ hs conns t _ _ _ id p c c H Hx Hc).
  - split; try done. by left.
  - exact ws_the_id.
  - intros q Hq. cbn in Hq. destruct Hid as [E|[E _]]; congruence.
  - intros u q [_ Hin]%list_elem_of_filter. apply (W_connects _ _ _ _ _ H id u q) in Hin. congruence.
  - destruct ws_the_ok as [V1 V2 V3 V4 V5 V6 V7 V8 V9 V10 V11 V12 V13]. split; try done; [by destruct V1|]. intros Hf. cbn. destruct (V5 Hf) as [_ ?]. split; [|done].
    destruct Hid as [?|[_ ?]]; [done|congruence].
Qed.

(** Work on the connection that changes no member of the invariant. *)
Lemma leads_quiet c' : linked p c' t -> kept_settings c' -> is_final c = false -> state c' = state c -> close_event_pushed_ c' = false -> phase t c' -> leads (Some (c', t)).
Proof using H Hx Hc.
  intros Hl Hk Hf Hs Hp Hph. apply (leads_open c' t []); try ws_done; [unfold is_final in *; by rewrite Hs|]. rewrite Hs. apply (C_connects _ _ _ _ _ _ ws_the_ok).
Qed.

Lemma final_state : is_final c = false <-> state c <> CLOSED.
Proof using c. unfold is_final. by rewrite bool_decide_eq_false. Qed.

Lemma OnWsPingTimer_leads rc : is_final c = false -> leads (OnWsPingTimer rc c t).
Proof using H Hx Hc.
  intros Hf. unfold OnWsPingTimer. destruct (curl_handle c) as [easy|] eqn:E; [|exact ws_leads_same]. destruct (_ || _); [exact ws_leads_same|].
  destruct (ws_send_spec p c easy [] CURLWS_PING rc t the_linked E) as (t2 & -> & Hr & Hl & Es). cbn [mbind option_bind].
  apply (leads_open c t2 []); try ws_done. eapply phase_set; [|apply (C_phase _ _ _ _ _ _ ws_the_ok)]. intros e _. by rewrite Es.
Qed.

Lemma OnWsCloseTimeout_leads h : close_timer_ c = Some h -> leads (OnWsCloseTimeout h c t).
Proof using H Hx Hc.
  intros E. assert (state c = CLOSING) as Hst.
  { pose proof (C_phase _ _ _ _ _ _ ws_the_ok) as Hp. unfold phase, no_timers in Hp. destruct (state c); intuition congruence. }
  unfold OnWsCloseTimeout. destruct (stop_timer_spec p c t T_close h (set_close_timer None c) the_linked E) as (t1 & -> & Hr & Hl); [by intros []|done|done|]. cbn [mbind option_bind].
  assert (is_final c = false) as Hf by (apply final_state; by rewrite Hst). apply leads_close_with; try ws_done. apply no_connects. by rewrite Hst.
Qed.

Lemma event_ok_any e : e_handle_id e = id -> e_type e <> WS_CLOSED -> data_ok e -> is_final c = false -> ws_ok backoff hs conns (PushSocketEvent e t) (evs_of l (PushSocketEvent e t)).
Proof using H Hx Hc.
  intros H1 H2 H3 H4. pose proof (opened_ok c t [e]) as Hok. cbn in Hok. rewrite insert_id in Hok by done. apply Hok; try ws_done. by apply Forall_singleton.
Qed.

Lemma event_ok e : e_handle_id e = id -> e_type e <> WS_CLOSED -> data_ok e -> e_parsed_node e = None -> is_final c = false -> ws_ok backoff hs conns (PushSocketEvent e t) (evs_of l (PushSocketEvent e t)).
Proof using H Hx Hc. intros H1 H2 H3 H4 H5. destruct (ws_leads_event e H1 H2 H3 H4 H5) as (c' & t' & [= <- <-] & Hok & _). by rewrite insert_id in Hok. Qed.

(** The event with which a connection that is not closed reports an error. *)
Lemma error_ok code msg : is_final c = false -> ws_ok backoff hs conns (PushSocketEvent (error_event c code msg) t) (evs_of l (PushSocketEvent (error_event c code msg) t)).
Proof using H Hx Hc. intros Hf. apply event_ok; [exact ws_the_id|done|by intros []|done|done]. Qed.

Lemma fate_self : is_final c = false -> same_fate c.
Proof using H Hx Hc. intros Hf. split; [by apply kept_self|]. split; [by apply not_pushed|done]. Qed.

Lemma fate_curl e : is_final c = false -> same_fate (set_curl e c).
Proof using H Hx Hc. intros Hf. split; [by apply kept_self|]. split; [by apply not_pushed|done]. Qed.

Lemma fate_close_sent b : is_final c = false -> same_fate (set_close_sent b c).
Proof using H Hx Hc. intros Hf. split; [by apply kept_self|]. split; [by apply not_pushed|done]. Qed.

Lemma leads_from t0 r : kept_refs t0 t -> leads r -> exists c' t', r = Some (c', t') /\ ws_ok backoff hs (<[p := c']> conns) t' (evs_of l t') /\ kept_refs t0 t'.
Proof using. clear. intros Hk (c' & t' & E & Hok & Hk'). exists c', t'. split_and!; [done|done|]. by eapply kept_refs_trans. Qed.

End Keeps.

Lemma rstep_push p t t1 e : rstep p t t1 -> rstep p (PushSocketEvent e t) (PushSocketEvent e t1).
Proof. intros [R1 R2 R3 R4 R5 R6 R7]. split; try done. cbn. by rewrite R2. Qed.

Lemma linked_push p c t e : linked p c t -> linked p c (PushSocketEvent e t).
Proof. by intros [L1 L2 L3 L4]. Qed.

#[export] Hint Resolve rstep_refl rstep_push linked_push : links.

Lemma push_closed_once e c t : close_event_pushed_ c = false -> PushWsClosedOnce e c t = (set_close_pushed true c, PushSocketEvent e t).
Proof. intros E. unfold PushWsClosedOnce. by rewrite E. Qed.

(** ** The functions *)

Section Functions.

Context (backoff : Z -> Z -> Z -> option Z).
Context (hs : gmap Z positive) (conns : gmap positive WsConnection) (t : WsLoop) (l : list WsEvent) (id : Z) (p : positive) (c : WsConnection).
Context (H : ws_ok backoff hs conns t (evs_of l t)) (Hx : hs !! id = Some p) (Hc : conns !! p = Some c).

#[local] Notation leads := (leads backoff hs conns t l p).
#[local] Notation ok := (ws_the_ok backoff hs conns t l id p c H Hx Hc).
#[local] Notation links := (the_linked backoff hs conns t l id p c H Hx Hc).
#[local] Notation its_id := (ws_the_id backoff hs conns t l id p c H Hx Hc).

Lemma open_not_final : state c <> CLOSED -> is_final c = false.
Proof. apply final_state. Qed.

Lemma phase_is : phase t c.
Proof using H Hx Hc. exact (C_phase _ _ _ _ _ _ ok). Qed.

(** The states in which a connection has a timer, a poll, an easy handle. *)
Lemma has_reconnect_timer h : reconnect_timer_ c = Some h -> state c = RECONNECTING.
Proof using H Hx Hc. intros E. pose proof phase_is as Hp. unfold phase, no_timers in Hp. destruct (state c); intuition congruence. Qed.

Lemma has_poll h : uv_poll c = Some h -> (state c = CONNECTED \/ state c = CLOSING) /\ is_Some (curl_handle c).
Proof using H Hx Hc.
  intros E. pose proof phase_is as Hp. unfold phase, no_transfer in Hp. destruct (state c); try (intuition congruence); destruct Hp as (_ & _ & _ & e & He & _); (split; [auto|by exists e]).
Qed.

Lemma has_waiting_easy e : curl_handle c = Some e -> e ∈ ws_curl_handles_ t -> state c = CONNECTING.
Proof using H Hx Hc.
  intros E Hin. pose proof phase_is as Hp. unfold phase, no_transfer in Hp. destruct (state c); try done; try (intuition congruence);
    destruct Hp as (_ & _ & _ & e' & He & Hn); by assert (e' = e) as -> by congruence.
Qed.

(** A reconnect that fails or finds the connection closed. *)
Lemma reconnect_closed e t1 : rstep p t t1 -> linked p (set_reconnect_timer None c) t1 -> state c = RECONNECTING -> e_type e = WS_CLOSED -> e_handle_id e = id -> e_parse_mode e = 0 -> e_parsed_node e = None ->
  leads (Some (PushWsClosedOnce e (set_state CLOSED (set_reconnect_timer None c)) (erase_connection id t1))).
Proof using H Hx Hc.
  intros Hr Hl Hst He1 He2 He3 He4. assert (is_final c = false) as Hf by (apply open_not_final; by rewrite Hst). pose proof phase_is as Hp. unfold phase in Hp. rewrite Hst in Hp.
  destruct Hp as (P1 & P2 & _ & P3). rewrite push_closed_once by exact (not_pushed backoff hs conns t l id p c H Hx Hc Hf).
  eapply (leads_closed backoff hs conns t l id p c H Hx Hc); try done.
  - auto 10 with links.
  - by eapply (kept_self backoff hs conns t l id p c H Hx Hc).
  - eapply (no_connects backoff hs conns t l id p c H Hx Hc). by rewrite Hst.
Qed.

End Functions.


(** ** Timers and connects *)

Section Callbacks.

Context (backoff : Z -> Z -> Z -> option Z).
Context (hs : gmap Z positive) (conns : gmap positive WsConnection) (t : WsLoop) (l : list WsEvent) (id : Z) (p : positive) (c : WsConnection).
Context (H : ws_ok backoff hs conns t (evs_of l t)) (Hx : hs !! id = Some p) (Hc : conns !! p = Some c).

#[local] Notation leads := (leads backoff hs conns t l p).
#[local] Notation ok := (ws_the_ok backoff hs conns t l id p c H Hx Hc).
#[local] Notation links := (the_linked backoff hs conns t l id p c H Hx Hc).
#[local] Notation its_id := (ws_the_id backoff hs conns t l id p c H Hx Hc).
#[local] Notation its_phase := (phase_is backoff hs conns t l id p c H Hx Hc).
#[local] Notation kept := (kept_self backoff hs conns t l id p c H Hx Hc).
#[local] Notation pushed := (not_pushed backoff hs conns t l id p c H Hx Hc).

(** What the lemmas on one connection ask for and the invariant gives. *)
Ltac ws_side := first [done | exact links | exact its_id | by apply kept | by apply pushed | exact its_phase | exact (C_connects _ _ _ _ _ _ ok) | by (pose proof links; auto 10 with links)].

(** The connection with its new easy handle. *)
Lemma leads_connecting c1 t1 e : rstep p t t1 -> linked p c1 t1 -> kept_settings c c1 -> no_timers c1 -> no_transfer c1 -> is_final c = false -> close_event_pushed_ c1 = false ->
  easies t !! e = None -> Forall (fun op => is_connect op = false) (ops_of id t) -> forall c2 t2, WsInitCurl (Some e) p c1 t1 = (true, c2, t2) -> leads (Some (c2, t2)).
Proof using H Hx Hc.
  intros Hr Hl Hk Ht Hn Hf Hp He Hops c2 t2 E. destruct (init_curl_spec p e c1 t1 Hl Hn) as (c2' & t2' & E' & Hr2 & Hl2 & -> & Hin); [by eapply easy_new; [..|apply Hn|]|].
  rewrite E in E'. injection E' as -> ->. eapply (leads_open backoff hs conns t l id p c H Hx Hc _ t2' []); try done.
  - by eapply rstep_trans.
  - unfold phase. cbn [state set_built set_state]. split_and!; [apply Ht..|apply Hn|]. by exists e.
  - intros Hex. exfalso. apply Exists_exists in Hex as (o & Ho & Eo). rewrite Forall_forall in Hops. by rewrite (Hops o Ho) in Eo.
Qed.

Lemma OnWsReconnectTimer_leads h easy : reconnect_timer_ c = Some h -> (forall e, easy = Some e -> easies t !! e = None) -> leads (OnWsReconnectTimer h easy p c t).
Proof using H Hx Hc.
  intros E Hfr. pose proof (has_reconnect_timer backoff hs conns t l id p c H Hx Hc h E) as Hst. assert (is_final c = false) as Hf by (apply final_state; by rewrite Hst).
  assert (Forall (fun op => is_connect op = false) (ops_of id t)) as Hops by (apply (no_connects backoff hs conns t l id p c H Hx Hc); by rewrite Hst).
  destruct (stop_reconnect_spec p c t links) as (t1 & E1 & Hr & Hl). unfold stop_reconnect_timer in E1. rewrite E in E1. unfold OnWsReconnectTimer.
  destruct (stop_timer h _) as [t1'|]; [|done]. injection E1 as ->. cbn [mbind option_bind]. change (handle_closed (set_reconnect_timer None c)) with (handle_closed c).
  change (handle_id (set_state CLOSED (set_reconnect_timer None c))) with (handle_id c). rewrite its_id. destruct (handle_closed c).
  - apply (reconnect_closed backoff hs conns t l id p c H Hx Hc); ws_side.
  - unfold WsReconnect. pose proof its_phase as Hp. unfold phase in Hp. rewrite Hst in Hp. destruct Hp as (P1 & P2 & _ & P3). destruct easy as [e|].
    + destruct (WsInitCurl (Some e) p _ t1) as [[[] c2] t2] eqn:Ei; [|by cbn in Ei]. eapply leads_connecting; [..|exact Ei]; try ws_side.
    + cbn [WsInitCurl]. change (handle_id (set_state CLOSED (set_reconnect_timer None c))) with (handle_id c). rewrite its_id.
      set (err := error_event _ _ _). eapply (leads_from _ _ _ (PushSocketEvent err t)); [by apply kept_refs_push|]. apply (reconnect_closed backoff hs conns (PushSocketEvent err t) l id p c); try done; try ws_side.
      exact (error_ok backoff hs conns t l id p c H Hx Hc (-1) _ Hf).
Qed.

(** The connection is entered into the table, or is there already. *)
Lemma ws_emplace_ok : is_final c = false -> ws_ok backoff hs conns (emplace id p t) (evs_of l (emplace id p t)).
Proof using H Hx Hc.
  intros Hf. unfold emplace. destruct (ws_connections_ t !! id) eqn:E; [done|]. apply (table_ok backoff hs conns t l id p c H Hx Hc).
  - intros id' Hne. by rewrite lookup_insert_ne.
  - right. split; [apply lookup_insert_eq|done].
Qed.

Lemma send_data_leads curl_easy_strerror k data rc : can_send c = true -> leads (send_data curl_easy_strerror k data rc c t).
Proof using H Hx Hc.
  intros Hs. unfold can_send in Hs. apply andb_true_iff in Hs as [Hs Hst]. apply andb_true_iff in Hs as [_ Hn]. apply bool_decide_eq_true in Hst.
  apply negb_true_iff, bool_decide_eq_false in Hn. unfold send_data. destruct (curl_handle c) as [easy|] eqn:E; [|done]. cbn [mbind option_bind].
  destruct (ws_send_spec p c easy data (send_flags k) rc t links E) as (t2 & -> & Hr & Hl & Es). cbn [mbind option_bind].
  assert (is_final c = false) as Hf by (apply final_state; by rewrite Hst).
  assert (phase t2 c) as Hp by (eapply phase_set; [|exact its_phase]; intros e _; by rewrite Es). destruct (_ && _).
  - apply (leads_open backoff hs conns t l id p c H Hx Hc c t2 [error_event c rc (curl_easy_strerror rc)]); try ws_side.
    apply Forall_cons. split; [|done]. split_and!; [exact its_id|done|by intros []|done].
  - apply (leads_open backoff hs conns t l id p c H Hx Hc c t2 []); ws_side.
Qed.

End Callbacks.


(** ** Operations *)

Section Operations.

Context (backoff : Z -> Z -> Z -> option Z).
Context (hs : gmap Z positive) (conns : gmap positive WsConnection) (t : WsLoop) (l : list WsEvent) (id : Z) (p : positive) (c : WsConnection).
Context (H : ws_ok backoff hs conns t (evs_of l t)) (Hx : hs !! id = Some p) (Hc : conns !! p = Some c).

#[local] Notation leads := (leads backoff hs conns t l p).
#[local] Notation ok := (ws_the_ok backoff hs conns t l id p c H Hx Hc).
#[local] Notation links := (the_linked backoff hs conns t l id p c H Hx Hc).
#[local] Notation its_id := (ws_the_id backoff hs conns t l id p c H Hx Hc).
#[local] Notation its_phase := (phase_is backoff hs conns t l id p c H Hx Hc).
#[local] Notation kept := (kept_self backoff hs conns t l id p c H Hx Hc).
#[local] Notation pushed := (not_pushed backoff hs conns t l id p c H Hx Hc).

Ltac ws_side := first [done | exact links | exact its_id | by apply kept | by apply pushed | exact its_phase | exact (C_connects _ _ _ _ _ _ ok) | by (pose proof links; auto 10 with links)].

(** A member that the states do not depend on changes. *)
Lemma leads_member c' : linked p c' t -> kept_settings c c' -> is_final c = false -> close_event_pushed_ c' = false -> state c' = state c ->
  (forall k, timer_field k c' = timer_field k c) -> uv_poll c' = uv_poll c -> curl_handle c' = curl_handle c -> leads (Some (c', t)).
Proof using H Hx Hc.
  intros Hl Hk Hf Hp Hs Ht Hu He. apply (leads_quiet backoff hs conns t l id p c H Hx Hc); try done. pose proof its_phase as Hph. unfold phase, no_timers, no_transfer in *.
  rewrite Hs, Hu, He, (Ht T_close : close_timer_ c' = _), (Ht T_ping : ping_timer_ c' = _), (Ht T_reconnect : reconnect_timer_ c' = _). exact Hph.
Qed.

(** A connect that was queued: the connection is new, and no other connect is
    queued. *)
Lemma connect_leads url easy msg : state c = CREATED -> Forall (fun op => is_connect op = false) (ops_of id t) -> (forall e, easy = Some e -> easies t !! e = None) ->
  leads (let c := set_url url c in
    if handle_closed c then Some (c, t) else
    match WsInitCurl easy p c t with
    | (true, c, t) => Some (c, t)
    | (false, c, t) => Some (c, erase_connection id (PushSocketEvent (error_event c (-1) msg) t))
    end).
Proof using H Hx Hc.
  intros Hst Hops Hfr. cbv zeta. change (handle_closed (set_url url c)) with (handle_closed c). assert (is_final c = false) as Hf by (apply final_state; by rewrite Hst).
  assert (leads (Some (set_url url c, t))) as Hurl by (apply leads_member; try ws_side; by intros []).
  destruct (handle_closed c); [done|]. pose proof its_phase as Hp. unfold phase in Hp. rewrite Hst in Hp. destruct easy as [e|].
  - destruct (WsInitCurl (Some e) p _ t) as [[[] c2] t2] eqn:Ei; [|by cbn in Ei].
    eapply (leads_connecting backoff hs conns t l id p c H Hx Hc (set_url url c) t e); [..|exact Ei]; try ws_side; try (by apply Hfr); by destruct Hp.
  - cbn [WsInitCurl]. set (c1 := set_url url c) in *. set (err := error_event c1 _ _). destruct Hurl as (? & ? & [= <- <-] & Hok & _).
    assert (<[p:=c1]> conns !! p = Some c1) as Hc1 by apply lookup_insert_eq.
    pose proof (error_ok backoff hs _ t l id p c1 Hok Hx Hc1 (-1) msg Hf) as H1. fold err in H1.
    exists c1, (erase_connection id (PushSocketEvent err t)). split; [done|]. split; [|exact (kept_refs_push t t err (conj eq_refl eq_refl) eq_refl)].
    apply (table_ok backoff hs _ (PushSocketEvent err t) l id p c1 H1 Hx Hc1); [|left; apply lookup_delete_eq]. intros id' Hne. by rewrite lookup_delete_ne.
Qed.

Lemma ProcessWsClose_leads code reason rc : Forall (fun op => is_connect op = false) (ops_of id t) -> leads (ProcessWsClose code reason rc p c t).
Proof using H Hx Hc.
  intros Hops. unfold ProcessWsClose. destruct (_ || _) eqn:E0; [exact (ws_leads_same backoff hs conns t l id p c H Hx Hc)|]. apply orb_false_iff in E0 as [E0 E0'].
  apply bool_decide_eq_false in E0, E0'. pose proof (proj2 (final_state c) E0') as Hf.
  assert (leads (close_with (closed_event c (handle_closed c)) c t)) as Hcw by (apply (leads_close_with backoff hs conns t l id p c H Hx Hc); ws_side).
  case_bool_decide as Er.
  - destruct (stop_timers_spec p c t links) as (t1 & -> & Hr & Hl). cbn [mbind option_bind]. change (handle_id (set_state CLOSED (without_timers c))) with (handle_id c). rewrite its_id.
    rewrite push_closed_once by exact (pushed Hf). pose proof its_phase as Hp. unfold phase in Hp. rewrite Er in Hp. destruct Hp as (_ & _ & _ & P).
    apply (leads_closed backoff hs conns t l id p c H Hx Hc); ws_side.
  - destruct (curl_handle c) as [easy|] eqn:Ee; [|done]. destruct (uv_poll c) as [h|] eqn:Eu; [|done]. destruct (_ && _) eqn:Es; [|done].
    apply andb_true_iff in Es as [Es%bool_decide_eq_true _]. destruct (ws_send_spec p c easy (close_payload code reason) CURLWS_CLOSE rc t links Ee) as (t2 & -> & Hr & Hl & E2).
    cbn [mbind option_bind]. set (c2 := set_close_sent true (set_state CLOSING c)). destruct (C_seconds _ _ _ _ _ _ ok) as [Hsec _].
    change (close_timeout c2) with (close_timeout c). rewrite (mul_seconds _ Hsec). cbn [mbind option_bind]. set (ms := _ * 1000).
    pose proof its_phase as Hp. unfold phase in Hp. rewrite Es in Hp. destruct Hp as (P1 & P2 & P3 & e & Pe & Pn).
    destruct (start_close_spec p c2 t2 ms 0) as [Hr3 Hl3]; [unfold c2; auto with links|done|]. unfold start_timer in *. cbn [snd] in Hr3, Hl3.
    apply (leads_open backoff hs conns t l id p c H Hx Hc _ _ []); try ws_side.
    + by eapply rstep_trans.
    + unfold phase. cbn [state c2 set_close_timer set_close_sent set_state]. split_and!; [by eexists|done|by eexists|]. exists e. split; [done|]. cbn. by rewrite E2.
    + intros Hex. exfalso. apply (C_connects _ _ _ _ _ _ ok) in Hex. congruence.
Qed.

Lemma positive_or_seconds value d : seconds_ok d -> value <= 2147483 -> seconds_ok (positive_or value d).
Proof using. intros Hd Hv. unfold positive_or. destruct (Z.gtb_spec value 0); [|done]. unfold seconds_ok. lia. Qed.

Lemma ProcessWsSetOption_leads option value : is_final c = false -> s_range 32 value -> value <= 2147483 -> leads (ProcessWsSetOption option value p c t).
Proof using H Hx Hc.
  intros Hf Hv Hle. destruct ok as [V1 V2 V3 V4 V5 V6 V7 V8 V9 [V10 V10'] V11 V12 [V13 V13']] eqn:Eok. clear Eok. unfold s_range in Hv. unfold ProcessWsSetOption.
  assert (forall c', linked p c' t -> kept_settings c c' -> close_event_pushed_ c' = false -> state c' = state c ->
    (forall k, timer_field k c' = timer_field k c) -> uv_poll c' = uv_poll c -> curl_handle c' = curl_handle c -> leads (Some (c', t))) as Hm by (intros; by apply leads_member).
  pose proof (pushed Hf) as Hp. destruct (option =? 0); [|destruct (option =? 1); [|destruct (option =? 2); [|destruct (option =? 3)]]].
  - apply Hm; [by auto with links| |done|done|by intros []|done|done]. unfold kept_settings. split_and!; try done; try apply V12. split; [apply V13|]. cbn. unfold positive_or. destruct (Z.gtb_spec value 0); lia.
  - apply Hm; [by auto with links| |done|done|by intros []|done|done]. by apply kept.
  - set (c1 := set_ping_interval _ c). assert (seconds_ok (positive_or value 0)) as Hs by (apply positive_or_seconds; [split; lia|done]).
    assert (kept_settings c c1) as Hk1 by (unfold kept_settings; split_and!; try done; apply V12). assert (linked p c1 t) as Hl1 by (unfold c1; auto with links).
    case_bool_decide as Est; [|apply Hm; [done|done|done|done|by intros []|done|done]].
    destruct (stop_ping_spec p c1 t Hl1) as (t1 & E1 & Hr1 & Hl1'). rewrite E1. cbn [mbind option_bind]. set (c2 := set_ping_timer None c1) in *.
    assert (ws_curl_handles_ t1 = ws_curl_handles_ t) as Et1.
    { unfold stop_ping_timer, stop_timer in E1. destruct (ping_timer_ c1) as [h|]; [|by injection E1 as _ <-]. destruct (timers t !! h); [|done]. by injection E1 as <-. }
    unfold phase in V2. change (state c = CONNECTED) in Est. rewrite Est in V2. destruct V2 as (P1 & P2 & P3 & e & Pe & Pn).
    assert (forall c' t', linked p c' t' -> rstep p t t' -> kept_settings c c' -> close_event_pushed_ c' = false -> state c' = CONNECTED -> close_timer_ c' = None -> reconnect_timer_ c' = None ->
      uv_poll c' = uv_poll c -> curl_handle c' = curl_handle c -> ws_curl_handles_ t' = ws_curl_handles_ t -> leads (Some (c', t'))) as Hopen.
    { intros c' t' A1 A2 A3 A4 A5 A6 A7 A8 A9 A10. apply (leads_open backoff hs conns t l id p c H Hx Hc _ _ []); try done; [unfold is_final; by rewrite A5| |].
      - unfold phase. rewrite A5, A6, A7, A8, A9, A10. split_and!; [done..|]. by exists e.
      - intros Hex%V6. congruence. }
    destruct (ping_interval c2 >? 0); [|by apply Hopen]. unfold WsStartPingTimer. change (ping_interval c2) with (positive_or value 0). rewrite (mul_seconds _ Hs). cbn [mbind option_bind].
    set (ms := _ * 1000). destruct (start_ping_spec p c2 t1 ms ms Hl1' eq_refl) as [Hr3 Hl3]. unfold start_timer in *. cbn [snd] in Hr3, Hl3. apply Hopen; try done. by eapply rstep_trans.
  - apply Hm; [by auto with links| |done|done|by intros []|done|done]. unfold kept_settings. split_and!; try done; try apply V12. apply positive_or_seconds; [split; lia|done].
  - apply (ws_leads_same backoff hs conns t l id p c H Hx Hc).
Qed.

End Operations.

Lemma ProcessWsConnect_leads backoff hs conns t l id p c url easy : ws_ok backoff hs conns t (evs_of l t) -> hs !! id = Some p -> conns !! p = Some c -> state c = CREATED ->
  Forall (fun op => is_connect op = false) (ops_of id t) -> (forall e, easy = Some e -> easies t !! e = None) -> leads backoff hs conns t l p (ProcessWsConnect id url easy p c t).
Proof.
  intros H Hx Hc Hst Hops Hfr. assert (is_final c = false) as Hf by (apply final_state; by rewrite Hst). pose proof (ws_emplace_ok backoff hs conns t l id p c H Hx Hc Hf) as H1.
  eapply (leads_from _ _ _ (emplace id p t)); [unfold emplace; by case_match|]. apply (connect_leads backoff hs conns (emplace id p t) l id p c H1 Hx Hc); [done| |]; unfold emplace; by case_match.
Qed.


(** ** Transfers and received frames *)

(** libcurl is done with the easy handle's transfer. *)
Lemma rstep_done p c t e : linked p c t -> curl_handle c = Some e -> rstep p t (set_curl_handles (ws_curl_handles_ t ∖ {[e]}) t).
Proof.
  intros Hl E. pose proof (proj1 (L_easy _ _ _ Hl e) E) as He. split; try done. intros e' q Hne Hq. cbn. assert (e' <> e) by congruence. set_solver.
Qed.

(** The poll of a socket starts. *)
Lemma start_poll_spec p c t : linked p c t -> uv_poll c = None -> let h := fresh_addr (polls t) in let t' := set_polls (<[h := p]> (polls t)) t in
  rstep p t t' /\ linked p (set_poll (Some h) c) t'.
Proof.
  intros [L1 L2 L3 L4] Hn h t'. pose proof (fresh_addr_None (polls t)) as Hfr. fold h in Hfr. split.
  - split; try done. intros h' q Hne. cbn. destruct (decide (h' = h)) as [->|Hh]; [|by rewrite lookup_insert_ne]. rewrite lookup_insert_eq. split; [intros [= <-]; done|congruence].
  - split; cbn; try done. intros h'. destruct (decide (h' = h)) as [->|Hh]; [by rewrite lookup_insert_eq|]. rewrite lookup_insert_ne by done.
    rewrite <- L3, Hn. split; [intros [= ->]; done|done].
Qed.

Section Transfers.

Context (curl_easy_strerror : Z -> bytes) (backoff : Z -> Z -> Z -> option Z).
Context (hs : gmap Z positive) (conns : gmap positive WsConnection) (t : WsLoop) (l : list WsEvent) (id : Z) (p : positive) (c : WsConnection).
Context (H : ws_ok backoff hs conns t (evs_of l t)) (Hx : hs !! id = Some p) (Hc : conns !! p = Some c).

#[local] Notation leads := (leads backoff hs conns t l p).
#[local] Notation ok := (ws_the_ok backoff hs conns t l id p c H Hx Hc).
#[local] Notation links := (the_linked backoff hs conns t l id p c H Hx Hc).
#[local] Notation its_id := (ws_the_id backoff hs conns t l id p c H Hx Hc).
#[local] Notation its_phase := (phase_is backoff hs conns t l id p c H Hx Hc).
#[local] Notation kept := (kept_self backoff hs conns t l id p c H Hx Hc).
#[local] Notation pushed := (not_pushed backoff hs conns t l id p c H Hx Hc).

Ltac ws_side := first [done | exact links | exact its_id | by apply kept | by apply pushed | exact its_phase | exact (C_connects _ _ _ _ _ _ ok) | by (pose proof links; auto 10 with links)].

(** The connection is there: its events, its ping timer if it has one. *)
Lemma leads_connected easy e : curl_handle c = Some easy -> state c = CONNECTING -> e_handle_id e = id -> e_type e <> WS_CLOSED -> data_ok e -> e_parsed_node e = None ->
  leads (let t := set_curl_handles (ws_curl_handles_ t ∖ {[easy]}) t in
    let h := fresh_addr (polls t) in
    let t := set_polls (<[h := p]> (polls t)) t in
    let c := set_reconnect_count 0 (set_state CONNECTED (set_poll (Some h) c)) in
    let? (c, t) := if ping_interval c >? 0 then WsStartPingTimer p c t else Some (c, t) in
    Some (c, PushSocketEvent e t)).
Proof using H Hx Hc.
  intros E Hst He1 He2 He3 He4. cbv zeta. set (t1 := set_curl_handles _ t). pose proof its_phase as Hp. unfold phase in Hp. rewrite Hst in Hp. destruct Hp as ((P1 & P2 & P3) & P4 & _).
  assert (is_final c = false) as Hf by (apply final_state; by rewrite Hst). pose proof (rstep_done p c t easy links E) as Hr1. fold t1 in Hr1.
  assert (linked p c t1) as Hl1 by (by destruct links). destruct (start_poll_spec p c t1 Hl1 P4) as [Hr2 Hl2]. set (h := fresh_addr (polls t1)) in *. set (t2 := set_polls _ t1) in *.
  set (c2 := set_reconnect_count 0 _). assert (linked p c2 t2) as Hl2' by (unfold c2; auto with links). assert (rstep p t t2) as Hr by (by eapply rstep_trans).
  destruct (C_seconds _ _ _ _ _ _ ok) as [S1 S2]. pose proof (C_buffer _ _ _ _ _ _ ok) as Hb.
  assert (forall tm t3, rstep p t t3 -> ws_curl_handles_ t3 = ws_curl_handles_ t2 -> linked p (set_ping_timer tm c2) t3 -> leads (Some (set_ping_timer tm c2, PushSocketEvent e t3))) as Hgo.
  { intros tm t3 A1 A2 A3. apply (leads_open backoff hs conns t l id p c H Hx Hc _ t3 [e]); try ws_side.
    - unfold phase. cbn [state c2 set_ping_timer set_reconnect_count set_state]. split_and!; [done|done|by eexists|]. exists easy. split; [done|]. rewrite A2. cbn. set_solver.
    - intros Hex%(C_connects _ _ _ _ _ _ ok). congruence. }
  destruct (ping_interval c2 >? 0).
  - unfold WsStartPingTimer. change (ping_interval c2) with (ping_interval c). rewrite (mul_seconds _ S2). cbn [mbind option_bind]. set (ms := _ * 1000).
    destruct (start_ping_spec p c2 t2 ms ms Hl2' P2) as [Hr3 Hl3]. unfold start_timer in *. cbn [snd] in Hr3, Hl3. apply Hgo; [by eapply rstep_trans|done|done].
  - cbn [mbind option_bind]. assert (c2 = set_ping_timer None c2) as Ec by (unfold c2, set_ping_timer, set_reconnect_count, set_state, set_poll; cbn; by rewrite P2).
    rewrite Ec at 1. apply Hgo; [done|done|]. by rewrite <- Ec.
Qed.

Lemma ws_completed_leads easy result rng : curl_handle c = Some easy -> easy ∈ ws_curl_handles_ t -> leads (ws_completed curl_easy_strerror backoff easy result rng p c t).
Proof using H Hx Hc.
  intros E Hin. pose proof (has_waiting_easy backoff hs conns t l id p c H Hx Hc easy E Hin) as Hst. assert (is_final c = false) as Hf by (apply final_state; by rewrite Hst).
  assert (state c <> CREATED) as Hnc by (by rewrite Hst). pose proof (no_connects backoff hs conns t l id p c H Hx Hc Hnc) as Hops. unfold ws_completed. cbv zeta. destruct (handle_closed c).
  - destruct (easy_cleanup_spec p c t easy links E) as (t1 & -> & Hr & Hl). cbn [mbind option_bind]. change (handle_id (set_state CLOSED (set_curl None c))) with (handle_id c). rewrite its_id.
    rewrite push_closed_once by exact (pushed Hf). pose proof its_phase as Hp. unfold phase in Hp. rewrite Hst in Hp. destruct Hp as (P1 & P2 & _).
    apply (leads_closed backoff hs conns t l id p c H Hx Hc); ws_side.
  - destruct (result =? CURLE_OK).
    + pose proof (leads_connected easy (MakeSocketEvent WS_CONNECTED (handle_id c) (plugin_context c) (on_connect c) (userdata c) false) E Hst its_id) as Hl. cbv zeta in Hl.
      set (c2 := set_reconnect_count 0 _) in *. unfold WsStartPingTimer, start_timer in *. destruct (ping_interval c2 >? 0).
      * destruct (mul_int (ping_interval c2) 1000) as [ms|]; cbn [mbind option_bind] in *; [|by destruct Hl as (? & ? & ? & _)]. apply Hl; [done|by intros []|done].
      * apply Hl; [done|by intros []|done].
    + set (err := error_event c _ _). pose proof (error_ok backoff hs conns t l id p c H Hx Hc result (curl_easy_strerror result) Hf) as H1. fold err in H1.
      eapply (leads_from _ _ _ (PushSocketEvent err t)); [by apply kept_refs_push|].
      destruct (easy_cleanup_spec p c (PushSocketEvent err t) easy (linked_push _ _ _ _ links) E) as (t1 & E1 & Hr & Hl).
      change (PushSocketEvent err (set_curl_handles (ws_curl_handles_ t ∖ {[easy]}) t)) with (set_curl_handles (ws_curl_handles_ (PushSocketEvent err t) ∖ {[easy]}) (PushSocketEvent err t)).
      rewrite E1. cbn [mbind option_bind]. apply (leads_disconnect backoff hs conns (PushSocketEvent err t) l id p c H1 Hx Hc); [done|done| |done].
      by apply (fate_curl backoff hs conns (PushSocketEvent err t) l id p c H1 Hx Hc).
Qed.

End Transfers.

(** * Queues and handles

    The game thread queues operations and changes members of a connection, the
    event thread takes operations out, events are finished, handles are made and
    freed; each keeps [ws_ok]. *)

(** ** The queue of operations *)

Lemma ws_ops_push id op t : ops_of id (set_ops (Push op (ws_op_queue t)) t) = ops_of id t ++ (if decide (op_id op = id) then [op] else []).
Proof. unfold ops_of. cbn. by rewrite filter_app. Qed.

Lemma ws_ops_pop id op q t rest : queue_ (ws_op_queue t) = op :: rest -> queue_ q = rest -> ops_of id t = (if decide (op_id op = id) then [op] else []) ++ ops_of id (set_ops q t).
Proof. intros E1 E2. unfold ops_of. cbn. rewrite E1, E2, filter_cons. by case_decide. Qed.

Lemma ordered_app pre ops : ordered (pre ++ ops) -> ordered ops.
Proof. induction pre as [|o pre IH]; [done|]. intros [_ Ho]. by apply IH. Qed.

Lemma ws_ordered_snoc ops op : ordered ops -> (is_connect op = true -> Forall (fun o => is_connect o || is_close o = false) ops) -> ordered (ops ++ [op]).
Proof.
  induction ops as [|o ops IH]; cbn; [by intros _ _; split|]. intros [H1 H2] Hop. split.
  - intros Ho. apply Forall_app. split; [by apply H1|]. apply Forall_singleton. destruct (is_connect op) eqn:E; [|done]. specialize (Hop eq_refl). apply Forall_cons in Hop as [Hop _]. congruence.
  - apply IH; [done|]. intros E. specialize (Hop E). by apply Forall_cons in Hop as [_ ?].
Qed.

Section Queues.

Context (backoff : Z -> Z -> Z -> option Z).

#[local] Notation ws_ok := (ws_ok backoff).
#[local] Notation conn_ok := (conn_ok backoff).

(** Fewer operations. *)
Lemma conn_ok_less t q evs id p c : conn_ok t evs id p c -> (exists pre, ops_of id t = pre ++ ops_of id (set_ops q t)) -> conn_ok (set_ops q t) evs id p c.
Proof.
  intros [V1 V2 V3 V4 V5 V6 V7 V8 V9 V10 V11 V12 V13] [pre E]. split; try done.
  - by destruct V1.
  - intros Hf. destruct (V5 Hf) as [? Hn]. split; [done|]. rewrite E in Hn. by apply Forall_app in Hn as [_ ?].
  - intros Hex. apply V6. rewrite E. apply Exists_app. by right.
  - rewrite E in V7. by apply ordered_app in V7.
  - intros Hex. apply V8. rewrite E. apply Exists_app. by right.
  - rewrite E in V9. by apply Forall_app in V9 as [_ ?].
Qed.

(** The operation at the head of the queue. *)
Lemma ws_pop_ok hs conns t evs op q rest : ws_ok hs conns t evs -> queue_ (ws_op_queue t) = op :: rest -> queue_ q = rest ->
  ws_ok hs conns (set_ops q t) evs /\
  (forall id u p, op = CONNECT id u p -> hs !! id = Some p) /\
  (forall p c, hs !! op_id op = Some p -> conns !! p = Some c ->
    (is_connect op || is_close op = true -> Forall (fun o => is_connect o = false) (ops_of (op_id op) (set_ops q t))) /\
    (is_connect op = true -> state c = CREATED) /\ option_ok op).
Proof.
  intros H Eq Er. assert (ops_of (op_id op) t = op :: ops_of (op_id op) (set_ops q t)) as Heq by (by rewrite (ws_ops_pop (op_id op) op q t rest Eq Er), decide_True).
  split_and!.
  - split; cbn; try apply H.
    + intros id p Hx. destruct (W_handle _ _ _ _ _ H id p Hx) as (c & Hc & Hid & Hv). exists c. split_and!; [done|done|].
      eapply conn_ok_less; [exact Hv|]. eexists. by apply (ws_ops_pop id op q t rest).
    + intros id u p Hin. apply (W_connects _ _ _ _ _ H id u p). rewrite Eq. constructor 2. by rewrite <- Er.
  - intros id u p ->. apply (W_connects _ _ _ _ _ H id u). rewrite Eq. constructor.
  - intros p c Hx Hc. destruct (ws_owner_ok backoff hs conns t evs (op_id op) p c H Hx Hc) as [_ [V1 V2 V3 V4 V5 V6 V7 V8 V9 V10 V11 V12 V13]]. rewrite Heq in V6, V7, V9. split_and!.
    + apply V7.
    + intros Hb. apply V6. by constructor.
    + by apply Forall_cons in V9 as [? _].
Qed.

(** ** One connection's members *)

Definition settings_ok (c : WsConnection) : Prop :=
  seconds_ok (close_timeout c) /\ seconds_ok (ping_interval c) /\ delays_ok backoff c /\ s_range 32 (reconnect_count c) /\ s_range 32 (max_reconnects c) /\ buffer_ok c.

(** Members that are neither links nor states change. *)
Definition quiet (c c' : WsConnection) : Prop :=
  handle_id c' = handle_id c /\ (forall k, timer_field k c' = timer_field k c) /\ uv_poll c' = uv_poll c /\ curl_handle c' = curl_handle c /\ state c' = state c /\
  close_event_pushed_ c' = close_event_pushed_ c /\ (handle_closed c = true -> handle_closed c' = true) /\ settings_ok c'.

Section One.

Context (hs : gmap Z positive) (conns : gmap positive WsConnection) (t : WsLoop) (evs : list WsEvent) (id : Z) (p : positive) (c : WsConnection).
Context (H : ws_ok hs conns t evs) (Hx : hs !! id = Some p) (Hc : conns !! p = Some c).

Lemma ws_apart_refl : apart id p t t evs evs.
Proof using. split; try done. by left. Qed.

Lemma settings_self : settings_ok c.
Proof using H Hx Hc. destruct (ws_owner_ok backoff hs conns t evs id p c H Hx Hc) as [_ [V1 V2 V3 V4 V5 V6 V7 V8 V9 [? ?] V11 [? ?] V13]]. by unfold settings_ok. Qed.

Lemma store_ok c' : quiet c c' -> ws_ok hs (<[p := c']> conns) t evs.
Proof using H Hx Hc.
  intros (Q1 & Q2 & Q3 & Q4 & Q5 & Q6 & Q7 & Q8 & Q9 & Q10 & Q11 & Q12 & Q13). destruct (ws_owner_ok backoff hs conns t evs id p c H Hx Hc) as [Hid [V1 V2 V3 V4 V5 V6 V7 V8 V9 V10 V11 V12 V13]].
  assert (is_final c' = is_final c) as Ef by (unfold is_final; by rewrite Q5).
  eapply (one_connection backoff hs conns t t evs evs id p c c' H Hx Hc ws_apart_refl); [by rewrite Q1| | |].
  - intros q Hq%(W_table _ _ _ _ _ H). congruence.
  - intros u q [_ Hin]%list_elem_of_filter. apply (W_connects _ _ _ _ _ H id u q) in Hin. congruence.
  - split; rewrite ?Ef, ?Q5, ?Q6; try done.
    + by eapply linked_same.
    + unfold phase, no_timers, no_transfer in *. by rewrite Q5, Q3, Q4, (Q2 T_close : close_timer_ c' = _), (Q2 T_ping : ping_timer_ c' = _), (Q2 T_reconnect : reconnect_timer_ c' = _).
    + auto.
Qed.

(** The game thread queues an operation on the connection; it connects when the
    connection is new and open and no connect is queued. *)
Definition connectable : Prop := state c = CREATED /\ handle_closed c = false /\ Forall (fun o => is_connect o = false) (ops_of id t).

Lemma push_ok op : op_id op = id -> option_ok op -> (is_close op = true -> handle_closed c = true) -> (is_connect op = true -> connectable /\ exists u, op = CONNECT id u p) ->
  ws_ok hs conns (set_ops (Push op (ws_op_queue t)) t) evs.
Proof using H Hx Hc.
  intros Hop Hopt Hcl Hcon. set (t' := set_ops _ t). destruct (ws_owner_ok backoff hs conns t evs id p c H Hx Hc) as [Hid [V1 V2 V3 V4 V5 V6 V7 V8 V9 V10 V11 V12 V13]].
  assert (ops_of id t' = ops_of id t ++ [op]) as Eo by (unfold t'; by rewrite ws_ops_push, decide_True). rewrite <- (insert_id conns p c Hc).
  assert (forall o, o ∈ [op] -> o = op) as Hin by (by intros o ->%list_elem_of_singleton).
  eapply (one_connection backoff hs conns t t' evs evs id p c c H Hx Hc); [|done| | |].
  - split; try done; [|by left]. intros id' Hne. unfold t'. rewrite ws_ops_push, decide_False by congruence. apply app_nil_r.
  - intros q Hq%(W_table _ _ _ _ _ H). congruence.
  - rewrite Eo. intros u q [[_ Hq]%list_elem_of_filter|Hq%list_elem_of_singleton]%elem_of_app; [apply (W_connects _ _ _ _ _ H id u q) in Hq; congruence|].
    destruct Hcon as [_ [u' E]]; [by rewrite <- Hq|]. congruence.
  - split; rewrite ?Eo; try done.
    + by destruct V1.
    + intros Hf. destruct (V5 Hf) as [? ?]. split; [done|]. apply Forall_app. split; [done|]. apply Forall_singleton. destruct (is_connect op) eqn:E; [|done].
      destruct (Hcon eq_refl) as [[Hs _] _]. unfold is_final in Hf. apply bool_decide_eq_true in Hf. congruence.
    + rewrite Exists_app. intros [Hex|Hex]; [by apply V6|]. apply Exists_cons in Hex as [E|Hex%Exists_nil]; [|done]. by destruct (Hcon E) as [[? _] _].
    + apply ws_ordered_snoc; [done|]. intros E. destruct (Hcon E) as [(_ & Hh & Hn) _]. apply Forall_forall. intros o Ho. rewrite Forall_forall in Hn. rewrite (Hn o Ho). cbn.
      destruct (is_close o) eqn:Ec; [|done]. rewrite V8 in Hh; [done|]. apply Exists_exists. by exists o.
    + rewrite Exists_app. intros [Hex|Hex]; [by apply V8|]. apply Exists_cons in Hex as [E|Hex%Exists_nil]; [|done]. by apply Hcl.
    + apply Forall_app. split; [done|]. by apply Forall_singleton.
Qed.

End One.

(** ** Events and handles *)

(** An event that closes nothing is done. *)
Lemma ws_drop_ok hs conns t e evs : ws_ok hs conns t (e :: evs) -> e_type e <> WS_CLOSED -> ws_ok hs conns t evs.
Proof.
  intros H He. split; try apply H.
  - intros id p Hx. destruct (W_handle _ _ _ _ _ H id p Hx) as (c & Hc & Hid & [V1 V2 V3 V4 V5 V6 V7 V8 V9 V10 V11 V12 V13]). exists c. split_and!; [done|done|]. split; try done.
    rewrite <- V3. unfold closed_of. rewrite filter_cons, decide_False; [done|]. by intros [? _].
  - intros e' He'. apply (W_closed _ _ _ _ _ H e'). by constructor.
  - intros e' He'. apply (W_data _ _ _ _ _ H e'). by constructor.
Qed.

(** The events are taken out of the queue. *)
Lemma drain_ok hs conns t q evs : ws_ok hs conns t evs -> ws_ok hs conns (set_events q t) evs.
Proof.
  intros H. split; try apply H. intros id p Hx. destruct (W_handle _ _ _ _ _ H id p Hx) as (c & Hc & Hid & [V1 V2 V3 V4 V5 V6 V7 V8 V9 V10 V11 V12 V13]). exists c. split_and!; [done|done|]. split; try done. by destruct V1.
Qed.

(** The connection that a close event names has nothing left. *)
Lemma closed_conn hs conns t e evs p : ws_ok hs conns t (e :: evs) -> e_type e = WS_CLOSED -> hs !! e_handle_id e = Some p ->
  exists c, conns !! p = Some c /\ curl_handle c = None /\ (forall h x, timers t !! h = Some x -> t_data x <> p) /\ (forall h, polls t !! h <> Some p) /\ (forall e, easies t !! e <> Some p) /\
    ws_connections_ t !! e_handle_id e = None /\ Forall (fun op => is_connect op = false) (ops_of (e_handle_id e) t) /\ closed_of (e_handle_id e) evs = [].
Proof.
  intros H He Hx. destruct (W_handle _ _ _ _ _ H _ _ Hx) as (c & Hc & Hid & [V1 V2 V3 V4 V5 V6 V7 V8 V9 V10 V11 V12 V13]).
  assert (closed_of (e_handle_id e) (e :: evs) = e :: closed_of (e_handle_id e) evs) as Ec by (unfold closed_of; by rewrite filter_cons, decide_True).
  rewrite Ec in V3. cbn in V3. destruct (is_final c) eqn:Ef; [|done]. destruct (V5 eq_refl) as [Htab Hops].
  unfold is_final in Ef. apply bool_decide_eq_true in Ef. unfold phase in V2. rewrite Ef in V2. destruct V2 as [(T1 & T2 & T3) [N1 N2]]. destruct V1 as [L1 L2 L3 L4]. exists c. split_and!; [done|done| | | |done|done|].
  - intros h x Hh Hd. pose proof (L2 h x Hh Hd) as E. destruct (t_kind x); cbn in E; congruence.
  - intros h Hh. apply L3 in Hh. congruence.
  - intros e' Hh. apply L4 in Hh. congruence.
  - apply nil_length_inv. lia.
Qed.

Lemma ws_free_ok hs conns t e evs p : ws_ok hs conns t (e :: evs) -> e_type e = WS_CLOSED -> hs !! e_handle_id e = Some p ->
  ws_ok (delete (e_handle_id e) hs) (delete p conns) t evs.
Proof.
  intros H He Hx. destruct (closed_conn _ _ _ _ _ _ H He Hx) as (c & Hc & _ & Ht & Hp & Hea & Htab & Hops & Enil).
  assert (forall q, q <> p -> is_Some (conns !! q) -> is_Some (delete p conns !! q)) as Hdel by (intros q Hne; by rewrite lookup_delete_ne by done).
  split.
  - intros id q. rewrite lookup_delete_Some. intros [Hne Hq]. destruct (W_handle _ _ _ _ _ H id q Hq) as (c0 & Hc0 & Hid0 & [V1 V2 V3 V4 V5 V6 V7 V8 V9 V10 V11 V12 V13]). exists c0.
    rewrite lookup_delete_ne. 2:{ intros <-. rewrite Hc in Hc0. injection Hc0 as <-. destruct (W_handle _ _ _ _ _ H _ _ Hx) as (c1 & Hc1 & Hid1 & _). congruence. }
    split_and!; [done..|]. split; try done. rewrite <- V3. unfold closed_of. rewrite filter_cons, decide_False; [done|]. intros [_ ?]. congruence.
  - intros q c0 [Hne Hq]%lookup_delete_Some. rewrite lookup_delete_ne; [by apply (W_conn _ _ _ _ _ H)|]. intros E. pose proof (W_conn _ _ _ _ _ H q c0 Hq). congruence.
  - intros id q Hq. rewrite lookup_delete_ne; [by apply (W_table _ _ _ _ _ H)|]. intros <-. congruence.
  - intros id u q Hin. rewrite lookup_delete_ne; [by apply (W_connects _ _ _ _ _ H id u)|]. intros E. rewrite Forall_forall in Hops.
    specialize (Hops (CONNECT id u q)). rewrite E in Hops. discriminate Hops. by apply list_elem_of_filter.
  - intros e' He' Hc'. assert (e_handle_id e' <> e_handle_id e) as Hne.
    { intros E. assert (e' ∈ closed_of (e_handle_id e) evs) as Hin by (by apply list_elem_of_filter). rewrite Enil in Hin. by apply not_elem_of_nil in Hin. }
    rewrite lookup_delete_ne by done. apply (W_closed _ _ _ _ _ H e'); [by constructor|done].
  - intros e' He'. apply (W_data _ _ _ _ _ H e'). by constructor.
  - intros h x Hh. apply Hdel; [by eapply Ht|by apply (W_timer _ _ _ _ _ H h)].
  - intros h q Hh. apply Hdel; [intros ->; by eapply Hp|by apply (W_poll _ _ _ _ _ H h)].
  - intros e' q Hh. apply Hdel; [intros ->; by eapply Hea|by apply (W_easy _ _ _ _ _ H e')].
Qed.

(** A new connection whose number nothing refers to. *)
Definition new_id id t (evs : list WsEvent) : Prop := ops_of id t = [] /\ closed_of id evs = [].

Lemma ws_new_ok hs conns t evs id p c : ws_ok hs conns t evs -> hs !! id = None -> conns !! p = None -> new_id id t evs -> handle_id c = id ->
  state c = CREATED -> no_timers c -> no_transfer c -> close_event_pushed_ c = false -> settings_ok c -> ws_ok (<[id := p]> hs) (<[p := c]> conns) t evs.
Proof.
  intros H Hx Hp (N1 & N2) Hid Hst Ht Hn Hcp (S1 & S2 & S3 & S4 & S5 & S6).
  assert (forall q, is_Some (conns !! q) -> is_Some (<[p := c]> conns !! q)) as Hin.
  { intros q [c0 Hq]. destruct (decide (q = p)) as [->|Hne]; [rewrite lookup_insert_eq|rewrite lookup_insert_ne by done]; eauto. }
  split.
  - intros id' q. rewrite lookup_insert_Some. intros [[<- <-]|[Hne Hq]].
    + exists c. rewrite lookup_insert_eq. split_and!; [done|done|]. assert (is_final c = false) as Ef by (apply final_state; by rewrite Hst). split; rewrite ?N1, ?N2, ?Ef; try done.
      * destruct Ht as (T1 & T2 & T3), Hn as [A1 A2]. split.
        -- intros k h. destruct k; cbn; congruence.
        -- intros h x Hh Hd. destruct (W_timer _ _ _ _ _ H h x Hh) as [? E]. congruence.
        -- intros h. rewrite A2. split; [done|]. intros Hh. destruct (W_poll _ _ _ _ _ H h p Hh). congruence.
        -- intros e. rewrite A1. split; [done|]. intros Hh. destruct (W_easy _ _ _ _ _ H e p Hh). congruence.
      * unfold phase. by rewrite Hst.
      * by intros ?%Exists_nil.
    + destruct (W_handle _ _ _ _ _ H id' q Hq) as (c0 & Hc0 & Hv). exists c0. rewrite lookup_insert_ne; [done|]. intros <-. congruence.
  - intros q c0. rewrite lookup_insert_Some. intros [[<- <-]|[Hne Hq]]; [by rewrite Hid, lookup_insert_eq|].
    pose proof (W_conn _ _ _ _ _ H q c0 Hq) as E. rewrite lookup_insert_ne; [done|]. congruence.
  - intros id' q Hq. pose proof (W_table _ _ _ _ _ H id' q Hq) as E. rewrite lookup_insert_ne; [done|]. intros <-. congruence.
  - intros id' u q Hq. pose proof (W_connects _ _ _ _ _ H id' u q Hq) as E. rewrite lookup_insert_ne; [done|]. intros <-. congruence.
  - intros e He Hc. destruct (W_closed _ _ _ _ _ H e He Hc) as [q Hq]. exists q. rewrite lookup_insert_ne; [done|]. congruence.
  - apply (W_data _ _ _ _ _ H).
  - intros h x Hh. apply Hin. by apply (W_timer _ _ _ _ _ H h).
  - intros h q Hh. apply Hin. by apply (W_poll _ _ _ _ _ H h).
  - intros e q Hh. apply Hin. by apply (W_easy _ _ _ _ _ H e).
Qed.

End Queues.
