(* ===== verification/WsRecv.v ===== *)
(** * WebSockets: received frames keep the invariant

    The loop of [OnWsPollActivity] on any results of libcurl is defined, keeps
    the invariant of connections, and the only nodes it makes are those of the
    messages it reports. *)

From stdpp Require Import base numbers list gmap.
From Stdlib Require Import ZArith Lia.
From S2P Require Import Prelude LockedQueue NodePool WsConnection HandleManager HttpRequest HeaderMap MsgPack DataMap DataValue Float Text DataNode DataRefcount JsonParse DataBuild ParsedNodes WsLoop WsState WsSafe.

Import Ws.

(** A connection with other members about the message that arrives. *)
Definition rebuf (f : bool) (b : bytes) (i : bool) (c : WsConnection) : WsConnection := set_fragmented f (set_message_buf b (set_is_binary i c)).

Lemma rebuf_self c : c = rebuf (in_fragmented_message_ c) (message_buf_ c) (is_binary_message_ c) c.
Proof. by destruct c. Qed.

Lemma start_message_rebuf flags c : buffer_ok c -> exists b i, start_message flags c = rebuf (in_fragmented_message_ c) b i c /\ bytes_ok b.
Proof.
  intros [Hb _]. unfold start_message. destruct (in_fragmented_message_ c) eqn:E.
  - exists (message_buf_ c), (is_binary_message_ c). split; [|done]. rewrite <- E. apply rebuf_self.
  - exists [], (has_flag flags CURLWS_BINARY). split; [destruct c; cbn in E; by subst|]. by split.
Qed.

Lemma linked_rebuf p c t f b i : linked p c t -> linked p (rebuf f b i c) t.
Proof. intros Hl. unfold rebuf. auto with links. Qed.
#[export] Hint Resolve linked_rebuf : links.

(** The events queued hold their nodes; [R] are the other references. *)
Definition refs_ok {MO : DataMap bytes} {MI : DataMap Z} {P : Type} {PA : NodeAllocator P} (R : list loc) (t : WsLoop) (st : store (P := P)) : Prop :=
  exists L, inv st (omap e_parsed_node (queue_ (ws_events t)) ++ L ++ R).

(** What libcurl delivers are bytes. *)
Definition recv_ok (r : WsRecv) : Prop := match r with RecvFrame _ _ data => Forall is_byte data | _ => True end.

Section Frames.

Context {MO : DataMap bytes} {MI : DataMap Z} {P : Type} {PA : NodeAllocator P}.
Context (iterate : bytes -> option od_value) (limit : Z) (uv_strerror curl_easy_strerror : Z -> bytes) (backoff : Z -> Z -> Z -> option Z).
Context (R : list loc) (hs : gmap Z positive) (l : list WsEvent) (id : Z) (p : positive) (Hx : hs !! id = Some p).

#[local] Notation heap := (store (P := P)).

Lemma refs_kept t t' (st : heap) : kept_refs t t' -> refs_ok R t st -> refs_ok R t' st.
Proof. intros [_ E] [L Hi]. exists L. by rewrite E. Qed.

Lemma parse_message_refs c t (st : heap) : bytes_ok (message_buf_ c) -> refs_ok R t st ->
  exists n st', parse_message iterate limit c st = Some (n, st') /\ forall e, e_parsed_node e = n -> refs_ok R (PushSocketEvent e t) st'.
Proof.
  intros [Hb Hl] [L Hi]. set (ns := omap _ _) in Hi. assert (forall n st' L', inv st' (option_list n ++ L' ++ ns ++ L ++ R) -> forall e, e_parsed_node e = n -> refs_ok R (PushSocketEvent e t) st') as Hend.
  { intros n st' L' Hs e <-. exists (L' ++ L). cbn. rewrite omap_app. fold ns. eapply inv_perm; [|exact Hs]. cbn. rewrite <- !app_assoc.
    assert ((match e_parsed_node e with Some y => [y] | None => [] end) = option_list (e_parsed_node e)) as -> by (by destruct (e_parsed_node e)).
    rewrite (Permutation_app_swap_app L' ns). rewrite (Permutation_app_swap_app (option_list _) ns). rewrite ?app_nil_r. done. }
  unfold parse_message. destruct (_ >? 0); [|by exists None, st; split; [|apply (Hend None st [])]]. destruct (is_binary_message_ c); [|destruct (_ =? 1); [|destruct (_ =? 2)]].
  - destruct (Make_inv st _ (PBinary (message_buf_ c)) Hi eq_refl) as (n & st' & Hm & Hs & _). unfold MakeBinary. rewrite Hm. cbn. exists (Some n), st'. split; [done|]. by apply (Hend (Some n) st' []).
  - destruct (DataParseJson_builds iterate (message_buf_ c) st _ Hi) as (n & st' & L' & -> & Hs & _). exists n, st'. split; [done|]. by apply (Hend n st' L').
  - assert (len (message_buf_ c) + 2 ^ 32 <= 2 ^ 64) as Hlen by (unfold len; lia).
    destruct (ParseMsgPack_inv limit (message_buf_ c) st _ Hlen Hb Hi) as (n & st' & -> & Hs). exists n, st'. split; [done|]. by apply (Hend n st' []).
  - exists None, st. split; [done|]. by apply (Hend None st []).
Qed.

Definition poll_leads (conns : gmap positive WsConnection) (c : WsConnection) (t : WsLoop) (r : option (bool * WsConnection * WsLoop * heap)) : Prop :=
  exists more c' t' st', r = Some (more, c', t', st') /\ ws_ok backoff hs (<[p := c']> conns) t' (evs_of l t') /\ ws_op_queue t' = ws_op_queue t /\ refs_ok R t' st' /\
    (more = true -> uv_poll c' = uv_poll c).

Lemma stop_lifts conns c t (st : heap) r : leads backoff hs conns t l p r -> refs_ok R t st -> poll_leads conns c t (let? (c, t) := r in Some (false, c, t, st)).
Proof. intros (c' & t' & -> & Hok & Hk) Hr. exists false, c', t', st. split_and!; [done|done|apply Hk|by eapply refs_kept|done]. Qed.

Lemma go_on_lifts conns c c' t t' (st : heap) : leads backoff hs conns t l p (Some (c', t')) -> refs_ok R t st -> uv_poll c' = uv_poll c -> poll_leads conns c t (Some (true, c', t', st)).
Proof. intros (? & ? & [= <- <-] & Hok & Hk) Hr Hp. exists true, c', t', st. split_and!; [done|done|apply Hk|by eapply refs_kept|done]. Qed.

Section Turn.

Context (conns : gmap positive WsConnection) (t : WsLoop) (c : WsConnection) (h : positive).
Context (H : ws_ok backoff hs conns t (evs_of l t)) (Hc : conns !! p = Some c) (Hh : uv_poll c = Some h).

Lemma open_state : state c <> CREATED /\ is_final c = false /\ is_Some (curl_handle c).
Proof using Hx H Hc Hh. destruct (has_poll backoff hs conns t l id p c H Hx Hc h Hh) as [[Hs|Hs] He]; (split; [by rewrite Hs|]; split; [apply final_state; by rewrite Hs|done]). Qed.

Lemma recv_close_leads data rc rng : leads backoff hs conns t l p (recv_close backoff data rc rng p c t).
Proof using Hx H Hc Hh.
  destruct open_state as (Hs & Hf & [easy He]). unfold recv_close. pose proof (the_linked backoff hs conns t l id p c H Hx Hc) as Hl. destruct (close_sent_ c).
  - cbn [mbind option_bind]. apply (leads_disconnect backoff hs conns t l id p c H Hx Hc); [apply rstep_refl|done| |done]. by apply (fate_self backoff hs conns t l id p c H Hx Hc).
  - rewrite He. cbn [mbind option_bind]. set (d := if bool_decide _ then _ else _).
    destruct (ws_send_spec p c easy d CURLWS_CLOSE rc t Hl He) as (t2 & -> & Hr & Hl2 & _). cbn [mbind option_bind].
    apply (leads_disconnect backoff hs conns t l id p c H Hx Hc); [done|auto with links| |done]. by apply (fate_close_sent backoff hs conns t l id p c H Hx Hc).
Qed.

Lemma kept_rebuf f b i : bytes_ok b -> kept_settings c (rebuf f b i c).
Proof using Hx H Hc. 
  intros Hb. destruct (ws_the_ok backoff hs conns t l id p c H Hx Hc) as [V1 V2 V3 V4 V5 V6 V7 V8 V9 [V10 V10'] V11 [V12 V12'] [V13 V13']]. unfold kept_settings. by split_and!.
Qed.

Lemma message_too_big_leads f b i rc : bytes_ok b -> leads backoff hs conns t l p (message_too_big rc (rebuf f b i c) t).
Proof using Hx H Hc Hh.
  intros Hb. destruct open_state as (Hs & Hf & [easy He]). unfold message_too_big. set (c1 := rebuf f b i c). change (curl_handle c1) with (curl_handle c). rewrite He. cbn [mbind option_bind].
  set (err := error_event c1 _ _). pose proof (error_ok backoff hs conns t l id p c H Hx Hc 1009 _ Hf : ws_ok backoff hs conns (PushSocketEvent err t) (evs_of l (PushSocketEvent err t))) as H1.
  pose proof (the_linked backoff hs conns _ l id p c H1 Hx Hc) as Hl. eapply (leads_from _ _ _ (PushSocketEvent err t)); [by apply kept_refs_push|].
  destruct (ws_send_spec p c easy [3; 241] CURLWS_CLOSE rc _ Hl He) as (t2 & -> & Hr & Hl2 & _). cbn [mbind option_bind]. 
  apply (leads_close_with backoff hs conns (PushSocketEvent err t) l id p c H1 Hx Hc); try done.
  - unfold c1. auto with links.
  - exact (kept_rebuf f b i Hb).
  - by apply (not_pushed backoff hs conns _ l id p c H1 Hx Hc).
  - exact (ws_the_id backoff hs conns _ l id p c H Hx Hc).
  - by apply (no_connects backoff hs conns _ l id p c H1 Hx Hc).
Qed.

(** The message grew by a piece, or is complete. *)
Lemma rebuf_leads f b i : bytes_ok b -> leads backoff hs conns t l p (Some (rebuf f b i c, t)).
Proof using Hx H Hc Hh.
  intros Hb. destruct open_state as (_ & Hf & _). apply (leads_member backoff hs conns t l id p c H Hx Hc); try done.
  - apply linked_rebuf, (the_linked backoff hs conns t l id p c H Hx Hc).
  - by apply kept_rebuf.
  - by apply (not_pushed backoff hs conns t l id p c H Hx Hc).
Qed.

Lemma complete_leads f b i (st : heap) : bytes_ok b -> refs_ok R t st ->
  poll_leads conns c t (let? (c, t, st) := complete_message iterate limit (rebuf f b i c) t st in Some (true, c, t, st)).
Proof using Hx H Hc Hh.
  intros Hb Hr. unfold complete_message. change (set_fragmented false (rebuf f b i c)) with (rebuf false b i c). set (c1 := rebuf false b i c).
  destruct (parse_message_refs c1 t st Hb Hr) as (n & st' & -> & Hn). cbn [mbind option_bind].
  change (set_message_buf [] c1) with (rebuf false [] i c). destruct open_state as (_ & Hf & _). assert (bytes_ok []) as Hb0 by by split.
  destruct (rebuf_leads false [] i Hb0) as (? & ? & [= <- <-] & Hok & _).
  exists true, (rebuf false [] i c), (PushSocketEvent (message_event c1 n) t), st'. split_and!; [done| |done|by apply Hn|done].
  set (c2 := rebuf false [] i c) in *. pose proof (event_ok_any backoff hs (<[p:=c2]> conns) t l id p c2 Hok Hx (lookup_insert_eq _ _ _)) as He. apply He.
  - exact (ws_the_id backoff hs conns _ l id p c H Hx Hc).
  - done.
  - intros _. cbn. destruct n; [by split|]. change (message_buf_ c1) with b. repeat case_match; try done; by split.
  - exact Hf.
Qed.

Lemma poll_turn_leads r rc rng (st : heap) : recv_ok r -> refs_ok R t st ->
  poll_leads conns c t (poll_turn curl_easy_strerror backoff iterate limit r rc rng p c t st).
Proof using Hx H Hc Hh.
  intros Hrecv Hr. destruct open_state as (Hs & Hf & _). pose proof (ws_leads_same backoff hs conns t l id p c H Hx Hc) as Hsame.
  assert (forall t0, leads backoff hs conns t l p (Some (c, t0)) -> forall code, leads backoff hs conns t l p (WsDisconnectOrReconnect backoff rng p code c t0)) as Hdis.
  { intros t0 (? & ? & [= <- <-] & H0 & Hk) code. rewrite insert_id in H0 by done. eapply (leads_from _ _ _ t0); [done|].
    apply (leads_disconnect backoff hs conns t0 l id p c H0 Hx Hc); [apply rstep_refl|apply (the_linked backoff hs conns t0 l id p c H0 Hx Hc)| |done].
    by apply (fate_self backoff hs conns t0 l id p c H0 Hx Hc). }
  destruct r as [flags remain data| |code]; cbn [poll_turn].
  - cbn in Hrecv. destruct (has_flag flags CURLWS_CLOSE); [by apply stop_lifts; [apply recv_close_leads|]|]. destruct (has_flag flags CURLWS_PING); [by apply go_on_lifts|].
    destruct (has_flag flags CURLWS_PONG).
    { apply go_on_lifts; [|done|done]. destruct (on_pong c =? 0); [done|]. apply (ws_leads_event backoff hs conns t l id p c H Hx Hc); try done.
      exact (ws_the_id backoff hs conns t l id p c H Hx Hc). }
    destruct (handle_closed c); [by apply (stop_lifts conns c t st (Some (c, t)))|].
    destruct (C_buffer _ _ _ _ _ _ (ws_the_ok backoff hs conns t l id p c H Hx Hc)) as [Hb0 Hmax]. destruct (start_message_rebuf flags c (conj Hb0 Hmax)) as (b & i & -> & Hb).
    set (f := in_fragmented_message_ c). change (message_buf_ (rebuf f b i c)) with b. change (max_message_size (rebuf f b i c)) with (max_message_size c).
    assert (uN 64 (max_message_size c) = max_message_size c) as -> by (unfold uN; apply Z.mod_small; split; [lia|]; eapply Z.lt_trans; [apply Hmax|done]).
    destruct (Z.gtb_spec (Z.of_nat (length b) + Z.of_nat (length data)) (max_message_size c)) as [Hbig|Hfit]; [by apply stop_lifts; [apply message_too_big_leads|]|].
    assert (bytes_ok (b ++ data)) as Hbd by (destruct Hb as [Hb1 Hb2]; split; [by apply Forall_app|]; rewrite length_app; lia).
    change (set_message_buf (b ++ data) (rebuf f b i c)) with (rebuf f (b ++ data) i c). destruct (_ || _); [|by apply complete_leads].
    change (set_fragmented true (rebuf f (b ++ data) i c)) with (rebuf true (b ++ data) i c). apply go_on_lifts; [by apply rebuf_leads|done|done].
  - by apply go_on_lifts.
  - destruct (code =? CURLE_AGAIN); [by apply (stop_lifts conns c t st (Some (c, t)))|]. destruct (code =? CURLE_GOT_NOTHING); [by apply stop_lifts; [apply Hdis|]|].
    apply stop_lifts; [|done]. apply Hdis. apply (ws_leads_event backoff hs conns t l id p c H Hx Hc); try done. exact (ws_the_id backoff hs conns t l id p c H Hx Hc).
Qed.

End Turn.

Definition heap_leads (conns : gmap positive WsConnection) (t : WsLoop) (r : option (WsConnection * WsLoop * heap)) : Prop :=
  exists c' t' st', r = Some (c', t', st') /\ ws_ok backoff hs (<[p := c']> conns) t' (evs_of l t') /\ ws_op_queue t' = ws_op_queue t /\ refs_ok R t' st'.

Lemma poll_loop_leads rs rc rng h : Forall recv_ok rs -> forall conns t c (st : heap), ws_ok backoff hs conns t (evs_of l t) -> conns !! p = Some c -> uv_poll c = Some h -> refs_ok R t st ->
  heap_leads conns t (poll_loop curl_easy_strerror backoff iterate limit rs rc rng p c t st).
Proof using Hx.
  induction 1 as [|r rs Hr Hrs IH]; intros conns t c st H Hc Hh Href.
  - exists c, t, st. split; [done|]. by rewrite insert_id.
  - cbn [poll_loop]. destruct (poll_turn_leads conns t c h H Hc Hh r rc rng st Hr Href) as (more & c1 & t1 & st1 & -> & H1 & Eq & Href1 & Hp). cbn [mbind option_bind].
    destruct more; [|exists c1, t1, st1; by split_and!]. rewrite <- (Hp eq_refl) in Hh.
    destruct (IH _ t1 c1 st1 H1 (lookup_insert_eq _ _ _) Hh Href1) as (c2 & t2 & st2 & -> & H2 & Eq2 & Href2). exists c2, t2, st2. rewrite insert_insert_eq in H2. split_and!; [done|done|congruence|done].
Qed.

Lemma OnWsPollActivity_leads conns t c h status rs rc rng (st : heap) : ws_ok backoff hs conns t (evs_of l t) -> conns !! p = Some c -> uv_poll c = Some h -> Forall recv_ok rs -> refs_ok R t st ->
  heap_leads conns t (OnWsPollActivity uv_strerror curl_easy_strerror backoff iterate limit status rs rc rng p c t st).
Proof using Hx.
  intros H Hc Hh Hrs Href. destruct (open_state conns t c h H Hc Hh) as (Hs & Hf & _). unfold OnWsPollActivity.
  assert (forall r, leads backoff hs conns t l p r -> heap_leads conns t (let? (c, t) := r in Some (c, t, st))) as Hplain.
  { intros r (c' & t' & -> & Hok & Hk). exists c', t', st. split_and!; [done|done|apply Hk|by eapply refs_kept]. }
  pose proof (the_linked backoff hs conns t l id p c H Hx Hc) as Hl. destruct (handle_closed c); [|destruct (status <? 0); [|by eapply poll_loop_leads]].
  - apply Hplain, (leads_close_with backoff hs conns t l id p c H Hx Hc); try done.
    + by apply (kept_self backoff hs conns t l id p c H Hx Hc).
    + by apply (not_pushed backoff hs conns t l id p c H Hx Hc).
    + exact (ws_the_id backoff hs conns t l id p c H Hx Hc).
    + by apply (no_connects backoff hs conns t l id p c H Hx Hc).
  - apply Hplain. set (err := error_event c _ _). pose proof (error_ok backoff hs conns t l id p c H Hx Hc status (uv_strerror status) Hf) as H1. fold err in H1.
    eapply (leads_from _ _ _ (PushSocketEvent err t)); [by apply kept_refs_push|]. apply (leads_disconnect backoff hs conns (PushSocketEvent err t) l id p c H1 Hx Hc); [apply rstep_refl|by apply linked_push| |done].
    by apply (fate_self backoff hs conns (PushSocketEvent err t) l id p c H1 Hx Hc).
Qed.

End Frames.
