(* ===== verification/WsWorld.v ===== *)
(** * WebSockets in the world: the event thread

    [winv] joins the invariant of the connections with that of the heap, the
    handles and the objects: what is queued, what is under way and what the
    objects hold are all the references to nodes.  The event thread's turns keep
    it. *)

From stdpp Require Import base numbers list gmap.
From Stdlib Require Import ZArith Lia.
From S2P Require Import Clock WsConnection LinkedList LockedQueue MsgPack Prelude HandleManager NodePool DataMap DataValue Float Text DataNode HeaderMap HttpRequest EventLoop HttpState DataRefcount DataCopy JsonText JsonParse DataBuild ParsedNodes DataMerge DataHandle DataIterator Natives NativesJson NativesJsonSafe NativesHttpSafe WsLoop WsState WsSafe WsRecv NativesWs.

Import Ws.

(** Two concatenations of the same lists. *)
Lemma perm_nil {A} (a b : list A) : a ++ [] ≡ₚ b ++ [] -> a ≡ₚ b.
Proof. by rewrite !app_nil_r. Qed.

Ltac perm_step := lazymatch goal with |- _ ≡ₚ ?y ++ _ => first [apply Permutation_app_head | rewrite (Permutation_app_swap_app _ y); perm_step] end.
Ltac perm := apply perm_nil; rewrite <- ?app_assoc; cbn [app]; repeat perm_step; reflexivity.

Section WsWorld.

Context {MO : DataMap bytes} {MI : DataMap Z} {P : Type} {PA : NodeAllocator P} {M : Type} {PC : PluginContext M}.
Context (uv_strerror curl_easy_strerror : Z -> bytes) (backoff : Z -> Z -> Z -> option Z) (iterate : bytes -> option od_value).

#[local] Notation N := (N (P := P) (M := M)).
#[local] Notation world := (world (P := P) (M := M)).
#[local] Notation native := (native (P := P) (M := M)).
#[local] Notation heap := (store (P := P)).
#[local] Notation "x <- m ;; k" := (nbind m (fun x => k)) (at level 100, m at next level, right associativity).
#[local] Notation "m ;;; k" := (nbind m (fun _ => k)) (at level 100, right associativity).
Implicit Types (w : world) (c : WsConnection) (t : WsLoop) (p : positive) (id : Z).

(** ** The part of the world that is the WebSockets' *)

Definition as_ws (o : object) : option WsConnection := match o with OWsConnection c => Some c | _ => None end.
Definition ws_conns (os : gmap positive object) : gmap positive WsConnection := omap as_ws os.
Definition ws_handles (used : gmap Z Handle) : gmap Z positive := omap (fun x => if decide (type x = HANDLE_WS_SOCKET) then Some (pointer x) else None) used.

Lemma conns_Some os p c : ws_conns os !! p = Some c <-> os !! p = Some (OWsConnection c).
Proof. unfold ws_conns. rewrite lookup_omap. destruct (os !! p) as [[]|]; cbn; naive_solver. Qed.

Lemma conns_insert os p c : ws_conns (<[p := OWsConnection c]> os) = <[p := c]> (ws_conns os).
Proof. unfold ws_conns. by apply omap_insert_Some. Qed.

Lemma conns_insert_other os p o : as_ws o = None -> (forall o', os !! p = Some o' -> as_ws o' = None) -> ws_conns (<[p := o]> os) = ws_conns os.
Proof.
  intros Ho Hp. unfold ws_conns. rewrite omap_insert_None by done. apply delete_id. rewrite lookup_omap. destruct (os !! p) as [o'|]; [|done]. cbn. by apply Hp.
Qed.

Lemma conns_delete os p : ws_conns (delete p os) = delete p (ws_conns os).
Proof. apply omap_delete. Qed.

Lemma ws_handles_Some used id p : ws_handles used !! id = Some p <-> exists x, used !! id = Some x /\ type x = HANDLE_WS_SOCKET /\ pointer x = p.
Proof using. clear. unfold ws_handles. rewrite lookup_omap. destruct (used !! id) as [x|]; cbn; [|naive_solver]. case_decide; naive_solver. Qed.

Definition op_body (op : WsOp) : option loc := match op with SEND _ _ _ b => b | _ => None end.

(** The references of the events under way, [l] among them, and of the queued
    operations. *)
Definition refs (l : list WsEvent) t : list loc := omap e_parsed_node (evs_of l t) ++ omap op_body (queue_ (ws_op_queue t)).

(** [X] are references of the code that runs. *)
Record winv (X : list loc) (l : list WsEvent) w : Prop := {
  V_heap : exists (FR : Frame) L, Inv (FR := FR) (X ++ refs l (g_ws w) ++ L) w;
  V_ws : ws_ok backoff (ws_handles (used_handles_ (hm w))) (ws_conns (objects w)) (g_ws w) (evs_of l (g_ws w))
}.

#[local] Notation hs w := (ws_handles (used_handles_ (hm w))).
#[local] Notation cs w := (ws_conns (objects w)).

(** The connection [p] of the handle, with its members [c]. *)
Definition conn_at w id p c : Prop := hs w !! id = Some p /\ cs w !! p = Some c.

Lemma conn_object w id p c : conn_at w id p c -> objects w !! p = Some (OWsConnection c).
Proof. intros [_ Hc]. by apply conns_Some. Qed.

Lemma handle_conn X l w id p : winv X l w -> hs w !! id = Some p -> exists c, conn_at w id p c /\ handle_id c = id.
Proof. intros Hi Hx. destruct (W_handle _ _ _ _ _ (V_ws _ _ _ Hi) id p Hx) as (c & Hc & Hid & _). by exists c. Qed.

Lemma pointer_conn X l w p : winv X l w -> is_Some (cs w !! p) -> exists id c, conn_at w id p c /\ linked p c (g_ws w).
Proof.
  intros Hi [c Hc]. pose proof (W_conn _ _ _ _ _ (V_ws _ _ _ Hi) p c Hc) as Hx. exists (handle_id c), c. split; [done|].
  destruct (ws_owner_ok backoff _ _ _ _ _ _ c (V_ws _ _ _ Hi) Hx Hc) as [_ Hv]. apply (C_linked _ _ _ _ _ _ Hv).
Qed.

(** ** The world after a turn *)

Lemma Inv_turn {FR : Frame} L L' w p c c' t (st : heap) : Inv L w -> objects w !! p = Some (OWsConnection c) -> inv st (world_refs (objects w) ++ L') ->
  Inv L' (set_nodes st (set_ws t (set_objects (<[p := OWsConnection c']> (objects w)) w))).
Proof.
  intros Hi Ho Hs. assert (Inv L (set_objects (<[p := OWsConnection c']> (objects w)) w)) as Hi1 by (by eapply Inv_replace; [exact Hi|exact Ho|split_and!| |]).
  set (w1 := set_objects _ w) in *. assert (Inv L (set_ws t w1)) as Hi2 by (by destruct Hi1). apply (Inv_nodes L); [exact Hi2|]. eapply inv_perm; [|exact Hs].
  cbn [objects set_ws]. unfold w1. cbn [objects set_objects]. symmetry. by rewrite (world_refs_update _ _ _ (OWsConnection c') Ho).
Qed.

Lemma refs_eq l t t' : kept_refs t t' -> refs l t' = refs l t.
Proof. intros [E1 E2]. unfold refs, evs_of. by rewrite E1, !omap_app, E2. Qed.

Lemma on_conn_keeps X l w id p c f : winv X l w -> conn_at w id p c -> leads backoff (hs w) (cs w) (g_ws w) l p (f c (g_ws w)) -> wp (on_conn p f) (fun _ => winv X l) w.
Proof.
  intros Hi Hat (c' & t' & E & Hok & Hk). pose proof (conn_object _ _ _ _ Hat) as Ho. unfold wp, on_conn, on_conn_heap. rewrite Ho, E. cbn [mbind option_bind].
  destruct Hi as [(FR & L & Hi) H]. split; cbn [hm objects g_ws set_nodes set_ws set_objects].
  - exists FR, L. rewrite (refs_eq l _ _ Hk). eapply Inv_turn; [exact Hi|exact Ho|]. apply (I_heap _ _ Hi).
  - by rewrite conns_insert.
Qed.

Lemma on_conn_heap_keeps X l w id p c f : winv X l w -> conn_at w id p c ->
  (forall R, refs_ok R (g_ws w) (nodes w) -> heap_leads backoff R (hs w) l p (cs w) (g_ws w) (f c (g_ws w) (nodes w))) -> wp (on_conn_heap p f) (fun _ => winv X l) w.
Proof.
  intros Hi Hat Hf. pose proof (conn_object _ _ _ _ Hat) as Ho. destruct Hi as [(FR & L & Hi) H]. set (bodies := omap op_body (queue_ (ws_op_queue (g_ws w)))).
  destruct (Hf (world_refs (objects w) ++ X ++ omap e_parsed_node l ++ bodies ++ L)) as (c' & t' & st' & E & Hok & Eq & [L' Hst]).
  { exists []. eapply inv_perm; [|exact (I_heap _ _ Hi)]. unfold refs, evs_of. rewrite omap_app. fold bodies. perm. }
  unfold wp, on_conn_heap. rewrite Ho, E. split; cbn [hm objects g_ws set_nodes set_ws set_objects]; [|by rewrite conns_insert].
  exists FR, (L' ++ L). eapply Inv_turn; [exact Hi|exact Ho|]. eapply inv_perm; [|exact Hst]. unfold refs, evs_of. rewrite omap_app, Eq. fold bodies. perm.
Qed.

Lemma ws_on_registered_keeps X l w id f : winv X l w ->
  (forall p c, ws_connections_ (g_ws w) !! id = Some p -> conn_at w id p c -> leads backoff (hs w) (cs w) (g_ws w) l p (f p c (g_ws w))) ->
  wp (on_registered id f) (fun _ => winv X l) w.
Proof.
  intros Hi Hf. unfold on_registered, wp. destruct (ws_connections_ (g_ws w) !! id) as [p|] eqn:E; [|done].
  pose proof (W_table _ _ _ _ _ (V_ws _ _ _ Hi) id p E) as Hx. destruct (handle_conn X l w id p Hi Hx) as (c & Hat & _).
  apply (on_conn_keeps X l w id p c (f p)); [done|done|]. by apply Hf.
Qed.

(** A connection in the table is not closed. *)
Lemma registered_open X l w id p c : winv X l w -> conn_at w id p c -> ws_connections_ (g_ws w) !! id = Some p -> is_final c = false.
Proof.
  intros Hi [Hx Hc] Ht. destruct (ws_owner_ok backoff _ _ _ _ _ _ c (V_ws _ _ _ Hi) Hx Hc) as [_ Hv]. destruct (is_final c) eqn:E; [|done].
  destruct (C_final _ _ _ _ _ _ Hv E) as [? _]. congruence.
Qed.

(** The running code lets a node go. *)
Lemma drop_keeps X n l w : winv (n :: X) l w -> wp (wr (Decref (Some n))) (fun _ w' => exists s, w' = set_nodes s w /\ winv X l w') w.
Proof.
  intros [(FR & L & Hi) H]. apply (wp_Decref (X ++ refs l (g_ws w) ++ L) n); [exact Hi|]. intros s Hs. exists s. split; [done|]. split; [by exists FR, L|done].
Qed.

Lemma drop_body_keeps X b l w : winv (option_list b ++ X) l w -> wp (drop_body b) (fun _ w' => exists s, w' = set_nodes s w /\ winv X l w') w.
Proof. intros Hi. destruct b as [n|]; [by apply drop_keeps|]. exists (nodes w). split; [by destruct w|done]. Qed.

(** A node that the running code holds. *)
Lemma holds_live X n l w : winv X l w -> n ∈ X -> live n w.
Proof.
  intros [(FR & L & Hi) _] Hn. destruct (minv_live _ _ n (inv_m _ _ (I_heap _ _ Hi))) as (c & Hc); [|by exists c]. apply elem_of_app. right. apply elem_of_app. by left.
Qed.

Lemma holds_value X n l w : winv X l w -> n ∈ X -> acyclic (cells (nodes w)) -> exists v, repr (cells (nodes w)) n v.
Proof. intros Hi Hn Ha. pose proof (holds_live _ _ _ _ Hi Hn) as Hl. destruct Hi as [(FR & L & Hi) _]. apply acyclic_repr; [|done|done]. by eapply inv_closed, I_heap. Qed.

(** ** Operations *)

(** What the nodes of a message need to be serialized: MessagePack's writer walks
    the whole tree. *)
Definition op_need (op : WsOp) w : Prop := match op with SEND SEND_MSGPACK _ _ (Some _) => acyclic (cells (nodes w)) | _ => True end.

Lemma ProcessWsSend_keeps l k id data body rc w : winv (option_list body) l w -> op_need (SEND k id data body) w ->
  wp (ProcessWsSend curl_easy_strerror k id data body rc) (fun _ => winv [] l) w.
Proof.
  intros Hi Hn. assert (winv (option_list body ++ []) l w) as Hi' by (by rewrite app_nil_r).
  assert (forall w', (exists s, w' = set_nodes s w /\ winv [] l w') -> winv [] l w') as Hend by (by intros w' (s & _ & ?)).
  unfold wp, ProcessWsSend. destruct (ws_connections_ (g_ws w) !! id) as [p|] eqn:E.
  2:{ apply (wp_mono (drop_body body) _ _ w (drop_body_keeps [] body l w Hi')). auto. }
  pose proof (W_table _ _ _ _ _ (V_ws _ _ _ Hi) id p E) as Hx. destruct (handle_conn _ l w id p Hi Hx) as (c & Hat & _). rewrite (conn_object _ _ _ _ Hat).
  destruct (negb (can_send c)) eqn:Ec; [apply (wp_mono (drop_body body) _ _ w (drop_body_keeps [] body l w Hi')); auto|]. apply negb_false_iff in Ec.
  match goal with |- match ?m w with _ => _ end => change (wp m (fun _ => winv [] l) w) end.
  assert (forall d, wp (drop_body body;;; on_conn p (send_data curl_easy_strerror k d rc)) (fun _ => winv [] l) w) as Hsend.
  { intros d. apply wp_bind. eapply wp_mono; [exact (drop_body_keeps [] body l w Hi')|]. intros _ w' (s & -> & Hi1).
    apply (on_conn_keeps [] l _ id p c); [exact Hi1|exact Hat|]. destruct Hat as [Hx' Hc']. by apply (send_data_leads backoff _ _ _ l id p c (V_ws _ _ _ Hi1) Hx' Hc'). }
  apply wp_bind. destruct body as [n|]; [|by apply wp_ret, Hsend]. assert (n ∈ option_list (Some n)) as Hin by constructor.
  destruct k; try (by apply wp_ret, Hsend); apply wp_rd.
  - destruct (V_heap _ _ _ Hi) as (FR & L & HI). destruct (DataSerializeJson_total (nodes w) _ n false (I_heap _ _ HI)) as [d Hd]; [by apply (holds_live _ n l w Hi)|]. exists d. split; [done|]. apply Hsend.
  - destruct (holds_value _ n l w Hi Hin Hn) as [v Hv]. eexists. split; [unfold SerializeMsgPack; by rewrite (node_value_repr _ _ _ Hv)|apply Hsend].
Qed.

Lemma OnAsyncWsOp_keeps l easy rc w : winv [] l w -> queue_ (ws_op_queue (g_ws w)) <> [] -> (forall e, easy = Some e -> easies (g_ws w) !! e = None) ->
  Forall (fun op => op_need op w) (queue_ (ws_op_queue (g_ws w))) ->
  wp (OnAsyncWsOp_turn curl_easy_strerror easy rc) (fun _ => winv [] l) w.
Proof.
  intros Hi Hne Hfr Hneed. destruct (queue_ (ws_op_queue (g_ws w))) as [|op rest] eqn:Eq; [done|]. destruct (Pop_spec _ _ _ Eq) as (q & Ep & Er & _).
  destruct (ws_pop_ok backoff _ _ _ _ op q rest (V_ws _ _ _ Hi) Eq Er) as (H1 & Hb & Hf). unfold wp, OnAsyncWsOp_turn. rewrite Ep. set (w1 := set_ws _ w).
  assert (winv (option_list (op_body op)) l w1) as Hi1.
  { split; [|exact H1]. destruct (V_heap _ _ _ Hi) as (FR & L & HI). exists FR, L. assert (Inv (FR := FR) ([] ++ refs l (g_ws w) ++ L) w1) as HI1 by (by destruct HI). eapply Inv_perm; [|exact HI1].
    unfold refs, w1. cbn [g_ws set_ws ws_op_queue set_ops]. change (evs_of l (set_ops q (g_ws w))) with (evs_of l (g_ws w)). rewrite Eq, Er. cbn [omap list_omap].
    assert (forall (o : option loc) (r : list loc), match o with Some y => y :: r | None => r end = option_list o ++ r) as -> by (by intros [] ?). perm. }
  change (wp (process_op curl_easy_strerror easy rc op) (fun _ => winv [] l) w1). destruct op as [id u p|k id d b|id code reason|id o v]; cbn [process_op op_body option_list] in *.
  - specialize (Hb id u p eq_refl). destruct (handle_conn _ l w1 id p Hi1 Hb) as (c & Hat & _). destruct Hat as [Hx Hc]. destruct (Hf p c Hx Hc) as (F1 & F2 & _).
    apply (on_conn_keeps [] l w1 id p c); [exact Hi1|done|]. apply ProcessWsConnect_leads; [exact H1|done|done|by apply F2|by apply F1|done].
  - apply ProcessWsSend_keeps; [exact Hi1|]. by apply Forall_cons in Hneed as [? _].
  - apply (ws_on_registered_keeps [] l _ id); [exact Hi1|]. intros p c _ [Hx Hc]. destruct (Hf p c Hx Hc) as (F1 & _).
    by apply (ProcessWsClose_leads backoff _ _ _ l id p c (V_ws _ _ _ Hi1) Hx Hc), F1.
  - apply (ws_on_registered_keeps [] l _ id); [exact Hi1|]. intros p c Ht Hat. pose proof (registered_open _ l w1 id p c Hi1 Hat Ht) as Hfin. destruct Hat as [Hx Hc].
    destruct (Hf p c Hx Hc) as (_ & _ & F3 & F4). by apply (ProcessWsSetOption_leads backoff _ _ _ l id p c (V_ws _ _ _ Hi1) Hx Hc).
Qed.

(** ** Callbacks *)

Lemma completed_keeps l easy result rng w : winv [] l w -> is_Some (easies (g_ws w) !! easy) -> easy ∈ ws_curl_handles_ (g_ws w) ->
  wp (CheckCompletedJobs_ws curl_easy_strerror backoff easy result rng) (fun _ => winv [] l) w.
Proof.
  intros Hi [p He] Hin. unfold wp, CheckCompletedJobs_ws. rewrite He. destruct (pointer_conn _ l w p Hi) as (id & c & Hat & Hl); [by apply (W_easy _ _ _ _ _ (V_ws _ _ _ Hi) easy)|].
  apply (on_conn_keeps [] l w id p c); [done|done|]. destruct Hat as [Hx Hc]. apply (ws_completed_leads curl_easy_strerror backoff _ _ _ l id p c (V_ws _ _ _ Hi) Hx Hc); [|done].
  by apply (L_easy _ _ _ Hl).
Qed.

Lemma poll_keeps l h status rs rc rng w : winv [] l w -> is_Some (polls (g_ws w) !! h) -> Forall recv_ok rs ->
  wp (poll_callback uv_strerror curl_easy_strerror backoff iterate h status rs rc rng) (fun _ => winv [] l) w.
Proof.
  intros Hi [p Hh] Hrs. unfold wp, poll_callback. rewrite Hh. destruct (pointer_conn _ l w p Hi) as (id & c & Hat & Hl); [by apply (W_poll _ _ _ _ _ (V_ws _ _ _ Hi) h)|].
  apply (on_conn_heap_keeps [] l w id p c); [done|done|]. intros R HR. destruct Hat as [Hx Hc].
  apply (OnWsPollActivity_leads iterate (g_max_container_elements w) uv_strerror curl_easy_strerror backoff R _ l id p Hx _ _ c h); [exact (V_ws _ _ _ Hi)|done| |done|done].
  by apply (L_poll _ _ _ Hl).
Qed.

Lemma timer_keeps l h easy rc w : winv [] l w -> is_Some (timers (g_ws w) !! h) -> (forall e, easy = Some e -> easies (g_ws w) !! e = None) ->
  wp (timer_callback h easy rc) (fun _ => winv [] l) w.
Proof.
  intros Hi [x Hh] Hfr. unfold wp, timer_callback. rewrite Hh. destruct (pointer_conn _ l w (t_data x) Hi) as (id & c & Hat & Hl); [by apply (W_timer _ _ _ _ _ (V_ws _ _ _ Hi) h)|].
  pose proof (L_timer' _ _ _ Hl h x Hh eq_refl) as Hk. apply (on_conn_keeps [] l w id (t_data x) c); [done|done|]. destruct Hat as [Hx Hc]. pose proof (V_ws _ _ _ Hi) as H.
  destruct (t_kind x); cbn [timer_field] in Hk.
  - by apply (OnWsCloseTimeout_leads backoff _ _ _ l id (t_data x) c H Hx Hc).
  - apply (OnWsPingTimer_leads backoff _ _ _ l id (t_data x) c H Hx Hc). apply final_state. intros Hs. pose proof (phase_is backoff _ _ _ l id (t_data x) c H Hx Hc) as Hp. unfold phase in Hp. rewrite Hs in Hp.
    destruct Hp as [(_ & Hp & _) _]. congruence.
  - by apply (OnWsReconnectTimer_leads backoff _ _ _ l id (t_data x) c H Hx Hc).
Qed.

End WsWorld.
