(* ===== verification/WsSystem.v ===== *)
(** * WebSockets as a whole: plugins, the event thread, libuv, libcurl and frames

    Natives of plugins, operations, completed transfers, polls, timers and the
    parts of a dispatch before and after the plugin's function are steps that
    interleave in any order, and so is everything else that happens in the
    world, as long as it leaves the connections alone.  [ws_may] says when a
    step can happen (what libuv and libcurl do) and what is asked of plugins. *)

From stdpp Require Import base numbers list gmap.
From Stdlib Require Import ZArith Lia.
From S2P Require Import Clock WsConnection LinkedList LockedQueue MsgPack Prelude HandleManager NodePool DataMap DataValue Float Text DataNode HeaderMap HttpRequest EventLoop HttpState DataRefcount DataCopy JsonText JsonParse DataBuild ParsedNodes DataMerge DataHandle DataIterator Natives NativesJson NativesJsonSafe NativesHttpSafe WsLoop WsState WsSafe WsRecv NativesWs WsWorld.

Import Ws.

Section WsSystem.

Context {MO : DataMap bytes} {MI : DataMap Z} {P : Type} {PA : NodeAllocator P} {M : Type} {PC : PluginContext M}.
Context (uv_strerror curl_easy_strerror : Z -> bytes) (backoff : Z -> Z -> Z -> option Z) (iterate : bytes -> option od_value).
Context (has_function : positive -> Z -> bool) (parse_error : bytes -> bytes).

#[local] Notation N := (N (P := P) (M := M)).
#[local] Notation world := (world (P := P) (M := M)).
#[local] Notation native := (native (P := P) (M := M)).
#[local] Notation "x <- m ;; k" := (nbind m (fun x => k)) (at level 100, m at next level, right associativity).
#[local] Notation "m ;;; k" := (nbind m (fun _ => k)) (at level 100, right associativity).
#[local] Notation winv := (winv backoff).
#[local] Notation hs w := (ws_handles (used_handles_ (hm w))).
#[local] Notation cs w := (ws_conns (objects w)).
Implicit Types (w : world) (c : WsConnection) (t : WsLoop) (p : positive) (id : Z).

(** ** Natives *)

Definition keeps_ws (f : native) (need : list Z -> world -> Prop) : Prop :=
  forall l ctx params w, winv [] l w -> need params w -> wp (f ctx params) (fun _ => winv [] l) w.

Definition none_needed : list Z -> world -> Prop := fun _ _ => True.

Lemma wp_with_conn l missing params k w : winv [] l w ->
  (forall id p c, param params 1 = Some id -> conn_at w id p c -> handle_id c = id -> settings_ok backoff c -> wp (k p c) (fun _ => winv [] l) w) ->
  wp (with_conn missing params k) (fun _ => winv [] l) w.
Proof.
  intros Hi Hk. apply wp_bind, wp_arg. intros id Hid. apply wp_bind. unfold wp at 1, GetWsSocket. destruct (HandleManager.GetWsSocket id (hm w)) as [p|] eqn:E; [|done].
  unfold HandleManager.GetWsSocket, get_typed in E. destruct (used_handles_ (hm w) !! id) as [x|] eqn:Ex; [|done]. case_decide as Ht; [done|]. destruct (closed x); [done|]. injection E as <-.
  assert (hs w !! id = Some (pointer x)) as Hx0 by (apply ws_handles_Some; exists x; split_and!; [done| |done]; destruct (decide (type x = HANDLE_WS_SOCKET)); [done|tauto]).
  destruct (handle_conn backoff [] l w id (pointer x) Hi Hx0) as (c & Hat & Hs).
  rewrite (conn_object _ _ _ _ Hat). apply (Hk id); [done|done|done|]. destruct Hat as [Hx Hc]. by apply (settings_self backoff _ _ _ _ id (pointer x) c (V_ws _ _ _ _ Hi)).
Qed.

(** Storing members and queueing operations. *)
Lemma ws_store_keeps X l w id p c c' : winv X l w -> conn_at w id p c -> quiet backoff c c' -> winv X l (set_objects (<[p := OWsConnection c']> (objects w)) w).
Proof.
  intros Hi Hat Hq. pose proof (conn_object _ _ _ _ Hat) as Ho. destruct Hat as [Hx Hc], Hi as [(FR & L & Hi) H]. split; cbn [hm objects g_ws set_objects].
  - exists FR, L. by eapply Inv_replace; [exact Hi|exact Ho|split_and!| |].
  - rewrite conns_insert. by apply (store_ok backoff _ _ _ _ id p c H Hx Hc).
Qed.

Lemma conn_at_stored w id p c c' : conn_at w id p c -> conn_at (set_objects (<[p := OWsConnection c']> (objects w)) w) id p c'.
Proof. intros [Hx Hc]. split; [done|]. cbn [objects set_objects]. rewrite conns_insert. apply lookup_insert_eq. Qed.

Lemma push_keeps X l w id p c op : winv (option_list (op_body op) ++ X) l w -> conn_at w id p c -> op_id op = id -> option_ok op -> (is_close op = true -> handle_closed c = true) ->
  (is_connect op = true -> connectable (g_ws w) id c /\ exists u, op = CONNECT id u p) ->
  winv X l (set_ws (set_ops (Push op (ws_op_queue (g_ws w))) (g_ws w)) w).
Proof.
  intros [(FR & L & Hi) H] [Hx Hc] H1 H2 H3 H4. split; cbn [hm objects g_ws set_ws].
  - exists FR, L. set (t' := set_ops _ (g_ws w)). assert (Inv (FR := FR) ((option_list (op_body op) ++ X) ++ refs l (g_ws w) ++ L) (set_ws t' w)) as Hi1 by (by destruct Hi). eapply Inv_perm; [|exact Hi1].
    unfold refs. change (evs_of l t') with (evs_of l (g_ws w)). unfold t'. cbn [ws_op_queue set_ops queue_ Push]. rewrite omap_app. cbn [omap list_omap].
    assert ((match op_body op with Some y => [y] | None => [] end) = option_list (op_body op)) as -> by (by destruct (op_body op)). perm.
  - by apply (push_ok backoff _ _ _ _ id p c H Hx Hc).
Qed.

(** The members of [c'] that the invariant mentions are those of [c]. *)
Ltac quiet_settings := split_and!; [reflexivity|by intros []|reflexivity|reflexivity|reflexivity|reflexivity|done|].
Ltac step_store := apply wp_bind; unfold wp at 1, store_conn, store_object.
Ltac step_push := apply wp_bind; unfold wp at 1, EnqueueWsOp, upd_ws.

Lemma ws_set_callbacks_keeps : keeps_ws Native_WsSetCallbacks none_needed.
Proof.
  intros l ctx params w Hi _. apply (wp_with_conn l); [done|]. intros id p c _ Hat Hs Hset. do 5 (apply wp_bind, wp_arg; intros ? _). step_store. apply wp_ret.
  eapply ws_store_keeps; [exact Hi|exact Hat|]. quiet_settings. exact Hset.
Qed.

(** The natives that change the headers. *)
Lemma headers_keep l w id p c h : winv [] l w -> conn_at w id p c -> settings_ok backoff c -> winv [] l (set_objects (<[p := OWsConnection (set_headers h c)]> (objects w)) w).
Proof. intros Hi Hat Hset. eapply ws_store_keeps; [exact Hi|exact Hat|]. quiet_settings. exact Hset. Qed.

Lemma set_header_keeps : keeps_ws Native_WsSetHeader none_needed.
Proof.
  intros l ctx params w Hi _. apply (wp_with_conn l); [done|]. intros id p c _ Hat Hs Hset. repeat nat_step. by eapply headers_keep.
Qed.
Lemma remove_header_keeps : keeps_ws Native_WsRemoveHeader none_needed.
Proof.
  intros l ctx params w Hi _. apply (wp_with_conn l); [done|]. intros id p c _ Hat Hs Hset. repeat nat_step. by eapply headers_keep.
Qed.
Lemma clear_headers_keeps : keeps_ws Native_WsClearHeaders none_needed.
Proof.
  intros l ctx params w Hi _. apply (wp_with_conn l); [done|]. intros id p c _ Hat Hs Hset. step_store. apply wp_ret. by eapply headers_keep.
Qed.

(** A plugin connects a connection once, while it is open. *)
Definition connect_need : list Z -> world -> Prop := fun params w => forall id p c, param params 1 = Some id -> conn_at w id p c -> connectable (g_ws w) id c.

Lemma ws_connect_keeps : keeps_ws Native_WsConnect connect_need.
Proof.
  intros l ctx params w Hi Hn. apply (wp_with_conn l); [done|]. intros id p c Hpar Hat Hs Hset. apply wp_bind, wp_arg. intros a _. apply wp_bind, wp_local_string. intros url. step_push. apply wp_ret.
  rewrite Hs. eapply push_keeps; [exact Hi|exact Hat|done|done|done|]. intros _. split; [by apply (Hn id p)|by exists url].
Qed.

(** Operations without nodes. *)
Lemma send_bytes_keeps l w id p c k data : winv [] l w -> conn_at w id p c -> handle_id c = id ->
  winv [] l (set_ws (set_ops (Push (SEND k (handle_id c) data None) (ws_op_queue (g_ws w))) (g_ws w)) w).
Proof. intros Hi Hat Hs. by eapply push_keeps; [exact Hi|exact Hat|..]. Qed.

Lemma send_text_keeps : keeps_ws Native_WsSendText none_needed.
Proof.
  intros l ctx params w Hi _. apply (wp_with_conn l); [done|]. intros id p c _ Hat Hs Hset. apply wp_bind, wp_arg. intros a _. apply wp_bind, wp_local_string. intros data.
  apply wp_bind, wp_arg. intros n _. apply wp_bind. destruct (n <? 0); [apply wp_ret|apply wp_local_raw; intros b _ _]; step_push; apply wp_ret; by eapply send_bytes_keeps.
Qed.

Lemma send_binary_keeps : keeps_ws Native_WsSendBinary none_needed.
Proof.
  intros l ctx params w Hi _. apply (wp_with_conn l); [done|]. intros id p c _ Hat Hs Hset. apply wp_bind, wp_arg. intros a _. apply wp_bind, wp_try_cell. intros [x|] _; [|by apply wp_ret].
  apply wp_bind, wp_arg. intros n _. destruct (n <=? 0); [by apply wp_ret|]. apply wp_bind, wp_local_raw. intros b _ _. step_push. apply wp_ret. by eapply send_bytes_keeps.
Qed.

Lemma send_ping_keeps : keeps_ws Native_WsSendPing none_needed.
Proof.
  intros l ctx params w Hi _. apply (wp_with_conn l); [done|]. intros id p c _ Hat Hs Hset. apply wp_bind, wp_arg. intros a _. apply wp_bind, wp_try_cell. intros [x|] _; [|by apply wp_ret].
  apply wp_bind, wp_arg. intros n _. cbv zeta. apply wp_bind. destruct ((if n >? 125 then 125 else n) >? 0); [apply wp_local_raw; intros b _ _|apply wp_ret]; step_push; apply wp_ret; by eapply send_bytes_keeps.
Qed.

(** The closing of a connection, by its plugin or with it. *)
Lemma ws_closing_keeps l w id p c code reason : winv [] l w -> conn_at w id p c -> handle_id c = id -> settings_ok backoff c ->
  winv [] l (set_ws (set_ops (Push (CLOSE (handle_id c) code reason) (ws_op_queue (g_ws w))) (g_ws w)) (set_objects (<[p := OWsConnection (set_handle_closed true c)]> (objects w)) w)).
Proof.
  intros Hi Hat Hs Hset. assert (winv [] l (set_objects (<[p := OWsConnection (set_handle_closed true c)]> (objects w)) w)) as Hi1.
  { eapply ws_store_keeps; [exact Hi|exact Hat|]. quiet_settings. exact Hset. }
  eapply (push_keeps [] l _ id p (set_handle_closed true c) (CLOSE (handle_id c) code reason) Hi1); [by eapply conn_at_stored|done..].
Qed.

Lemma ws_close_keeps : keeps_ws Native_WsClose none_needed.
Proof.
  intros l ctx params w Hi _. apply (wp_with_conn l); [done|]. intros id p c _ Hat Hs Hset. step_store. apply wp_bind, wp_arg. intros b _. apply wp_bind, wp_local_string. intros reason.
  apply wp_bind, wp_arg. intros code _. step_push. apply wp_ret. exact (ws_closing_keeps l w id p c code reason Hi Hat Hs Hset).
Qed.

(** Times are given in seconds that are an [int] of milliseconds. *)
Definition seconds_need : list Z -> world -> Prop := fun params _ =>
  forall o v, param params 2 = Some o -> param params 3 = Some v -> o = 2 \/ o = 3 \/ o = 7 -> v <= 2147483.

Lemma stored_keeps l w id p c c' op : winv [] l w -> conn_at w id p c -> handle_id c = id -> quiet backoff c c' -> option_ok op -> op_id op = id -> is_connect op = false -> is_close op = false -> op_body op = None ->
  winv [] l (set_ws (set_ops (Push op (ws_op_queue (g_ws w))) (g_ws w)) (set_objects (<[p := OWsConnection c']> (objects w)) w)).
Proof.
  intros Hi Hat Hs Hq H1 H2 H3 H4 H5. eapply (push_keeps [] l (set_objects (<[p := OWsConnection c']> (objects w)) w) id p c' op); [|by eapply conn_at_stored|done|done|congruence|congruence].
  rewrite H5. by eapply ws_store_keeps.
Qed.

Lemma ws_set_option_keeps : keeps_ws Native_WsSetOption seconds_need.
Proof.
  intros l ctx params w Hi Hn. apply (wp_with_conn l); [done|]. intros id p c _ Hat Hs (S1 & S2 & S3 & S4 & S5 & S6 & S7). apply wp_bind, wp_arg. intros o Ho. apply wp_bind, wp_arg. intros v Hv.
  pose proof (param_range _ _ _ Hv) as Hr. specialize (Hn o v Ho Hv).
  assert (forall c', quiet backoff c c' -> wp (store_conn p c';;; (if o =? 2 then EnqueueWsOp (SET_OPTION (handle_id c') o v);;; nret 0 else nret 0)) (fun _ => winv [] l) w) as Hend.
  { intros c' Hq. step_store. destruct (Z.eqb_spec o 2) as [->|_]; [|apply wp_ret; by eapply ws_store_keeps]. step_push. apply wp_ret. replace (handle_id c') with id by (destruct Hq as (-> & _); done).
    apply (stored_keeps l w id p c c' (SET_OPTION id 2 v) Hi Hat Hs Hq); try done. split; [done|]. apply Hn. auto. }
  apply wp_bind. repeat match goal with |- wp (if ?o =? ?k then _ else _) _ _ => destruct (Z.eqb_spec o k) as [->|_] end.
  - apply wp_ret, Hend. quiet_settings. split_and!; [done..|]. split; [done|]. cbn. unfold positive_or. unfold s_range in Hr. destruct (Z.gtb_spec v 0); cbn in Hr; lia.
  - apply wp_ret, Hend. quiet_settings. by split_and!.
  - apply wp_ret, Hend. quiet_settings. split_and!; try done. apply positive_or_seconds; [split; lia|auto].
  - apply wp_ret, Hend. quiet_settings. split_and!; try done. apply positive_or_seconds; [split; lia|auto].
  - apply wp_ret, Hend. quiet_settings. by split_and!.
  - apply wp_ret, Hend. quiet_settings. by split_and!.
  - apply wp_ret, Hend. quiet_settings. by split_and!.
  - destruct (Z.gtb_spec v 0).
    + apply wp_bind. rewrite mul_seconds by (split; [lia|auto]). apply wp_nonnull, wp_ret, Hend. quiet_settings. by split_and!.
    + apply wp_ret, Hend. quiet_settings. by split_and!.
  - apply wp_ret, Hend. quiet_settings. by split_and!.
Qed.

(** The settings a plugin asks for. *)
Definition with_reconnect (params : list Z) c : WsConnection :=
  let get i := default 0 (param params i) in
  let c := set_max_reconnects (get 2%nat) c in
  let c := if get 0%nat >=? 3 then set_reconnect_delay (get 3%nat) c else c in
  let c := if get 0%nat >=? 4 then set_reconnect_backoff (uN 32 (get 4%nat)) c else c in
  if get 0%nat >=? 5 then set_reconnect_max_delay (get 5%nat) c else c.

Definition reconnect_need : list Z -> world -> Prop := fun params w => forall id p c, param params 1 = Some id -> conn_at w id p c -> delays_ok backoff (with_reconnect params c).

Lemma set_reconnect_keeps : keeps_ws Native_WsSetReconnect reconnect_need.
Proof.
  intros l ctx params w Hi Hn. apply (wp_with_conn l); [done|]. intros id p c Hpar Hat Hs (S1 & S2 & S3 & S4 & S5 & S6 & S7). specialize (Hn id p c Hpar Hat).
  apply wp_bind, wp_arg. intros n E0. apply wp_bind, wp_arg. intros m E2. pose proof (param_range _ _ _ E2) as Hm. cbv zeta.
  unfold with_reconnect in Hn. cbv zeta in Hn. rewrite E0, E2 in Hn. cbn [default from_option Datatypes.id] in Hn.
  assert (forall c', (handle_id c' = handle_id c /\ (forall k, timer_field k c' = timer_field k c) /\ uv_poll c' = uv_poll c /\ curl_handle c' = curl_handle c /\ state c' = state c /\
    close_event_pushed_ c' = close_event_pushed_ c /\ handle_closed c' = handle_closed c /\ close_timeout c' = close_timeout c /\ ping_interval c' = ping_interval c /\ reconnect_count c' = reconnect_count c /\
    max_reconnects c' = m /\ message_buf_ c' = message_buf_ c /\ max_message_size c' = max_message_size c) -> delays_ok backoff c' ->
    wp (store_conn p c';;; nret 0) (fun _ => winv [] l) w) as Hend.
  { intros c' (Q1 & Q2 & Q3 & Q4 & Q5 & Q6 & Q7 & Q8 & Q9 & Q10 & Q11 & Q12 & Q13) Hd. step_store. apply wp_ret. eapply ws_store_keeps; [exact Hi|exact Hat|]. unfold quiet, settings_ok, buffer_ok.
    rewrite Q7, Q8, Q9, Q10, Q11, Q12, Q13. destruct S6 as [? ?], S7 as [? ?]. by split_and!. }
  apply wp_bind. destruct (n >=? 3); [apply wp_bind, wp_arg; intros x3 E3; rewrite E3 in Hn; cbn [default from_option Datatypes.id] in Hn|]; apply wp_ret; apply wp_bind;
    (destruct (n >=? 4); [apply wp_bind, wp_arg; intros x4 E4; rewrite E4 in Hn; cbn [default from_option Datatypes.id] in Hn|]); apply wp_ret; apply wp_bind;
    (destruct (n >=? 5); [apply wp_bind, wp_arg; intros x5 E5; rewrite E5 in Hn; cbn [default from_option Datatypes.id] in Hn|]); apply wp_ret; (apply Hend; [split_and!; first [reflexivity|by intros []]|exact Hn]).
Qed.

Lemma get_count_keeps : keeps_ws Native_WsGetReconnectCount none_needed.
Proof. intros l ctx params w Hi _. apply (wp_with_conn l); [done|]. intros id p c _ _ _ _. by apply wp_ret. Qed.
Lemma get_state_keeps : keeps_ws Native_WsGetState none_needed.
Proof. intros l ctx params w Hi _. apply (wp_with_conn l); [done|]. intros id p c _ _ _ _. by apply wp_ret. Qed.

(** ** Handles *)

Lemma FreeHandle_world h w w' : FreeHandle h w = Done tt w' -> g_ws w' = g_ws w /\
  (used_handles_ (hm w) !! h = None -> objects w' = objects w) /\
  (forall x, used_handles_ (hm w) !! h = Some x -> type x <> HANDLE_NONE -> objects w' = delete (pointer x) (objects w)).
Proof using.
  unfold FreeHandle. destruct (used_handles_ (hm w) !! h) as [x|]; [|intros [= <-]; by split_and!]. case_decide as Hn.
  - intros [= <-]. split_and!; [done|done|]. by intros y [= ->].
  - unfold delete_object. cbn [objects set_hm]. destruct (objects w !! pointer x) as [o|]; [|done]. destruct (release o _) as [cu|]; [|done]. destruct (foldM _ _ _); [|done].
    intros [= <-]. split_and!; [done|done|]. by intros y [= ->].
Qed.

(** The handle of a value, or none. *)
Definition json_handle (h : Z) w : Prop := forall x, used_handles_ (hm w) !! h = Some x -> type x = HANDLE_JSON_VALUE.

Lemma ws_free_json_keeps X l h w : winv X l w -> json_handle h w -> wp (FreeHandle h) (fun _ => winv X l) w.
Proof.
  intros [(FR & L & Hi) H] Hj. assert (forall x c, used_handles_ (hm w) !! h = Some x -> objects w !! pointer x <> Some (OWsConnection c)) as Hnw.
  { intros x c Hx E. destruct (I_object _ _ Hi h x Hx) as (o & Ho & Et). rewrite (Hj x Hx) in Et. rewrite E in Ho. by injection Ho as <-. }
  assert (may_free h w) as Hf by (intros x Hx; split; [by rewrite (Hj x Hx)|]; intros c E; by destruct (Hnw x c Hx)).
  pose proof (wp_FreeHandle _ h w Hi Hf) as Hw. unfold wp in *. destruct (FreeHandle h w) as [[] w'| |] eqn:E; [|done|done]. destruct Hw as (Hi' & Eu & _).
  destruct (FreeHandle_world h w w' E) as (Eg & E0 & E1). split; rewrite Eg; [by exists FR, L|].
  assert (hs w' = hs w) as ->.
  { unfold ws_handles. rewrite Eu, omap_delete. apply delete_id. rewrite lookup_omap. destruct (used_handles_ (hm w) !! h) as [x|] eqn:Ex; [|done]. cbn. by rewrite (Hj x Ex). }
  assert (cs w' = cs w) as ->; [|done]. destruct (used_handles_ (hm w) !! h) as [x|] eqn:Ex; [|by rewrite E0]. rewrite (E1 x eq_refl) by (by rewrite (Hj x Ex)). rewrite conns_delete. apply delete_id.
  destruct (cs w !! pointer x) as [c|] eqn:Ec; [|done]. apply conns_Some in Ec. by destruct (Hnw x c eq_refl).
Qed.

Lemma make_handle_world ctx o w h w' : as_ws o = None -> make_handle ctx o w = Done h w' -> g_ws w' = g_ws w /\ cs w' = cs w.
Proof using.
  intros Ho. unfold make_handle, nbind, new_object. set (p := fresh_addr (objects w)). pose proof (fresh_addr_None (objects w)) as Hp. fold p in Hp.
  assert (ws_conns (<[p := o]> (objects w)) = cs w) as Ec by (apply conns_insert_other; [done|congruence]).
  unfold CreateHandle. destruct (HandleManager.CreateHandle _ _ _ _) as [[h' m]|]; [|done]. destruct (h' =? 0).
  - unfold delete_object. cbn [objects set_hm set_objects]. rewrite lookup_insert_eq. destruct (release o _); [|done]. destruct (foldM _ _ _); [|done]. intros [= _ <-]. split; [done|]. cbn [objects set_objects].
    rewrite conns_delete, Ec. apply delete_id. unfold ws_conns. by rewrite lookup_omap, Hp.
  - intros [= _ <-]. done.
Qed.

Lemma make_json_keeps X l ctx n w : winv (n :: X) l w -> Z.of_nat (size (used_handles_ (hm w))) < 2 ^ 32 - 1 -> wp (make_handle ctx (ODataHandle (Some n))) (fun _ => winv X l) w.
Proof.
  intros [(FR & L & Hi) H] Hroom. pose proof (wp_make_handle (X ++ refs l (g_ws w) ++ L) ctx (ODataHandle (Some n)) w Hi ltac:(by eexists) eq_refl Hroom) as Hm. unfold wp in *.
  destruct (make_handle ctx (ODataHandle (Some n)) w) as [h w'| |] eqn:E; [|done|done]. destruct Hm as (Hi' & _ & x & Eu & Hfr & Et & _). destruct (make_handle_world ctx (ODataHandle (Some n)) w h w' eq_refl E) as [Eg Ec].
  split; rewrite Eg; [by exists FR, L|]. rewrite Ec. assert (hs w' = hs w) as ->; [|done]. unfold ws_handles. rewrite Eu. rewrite omap_insert_None by (by rewrite Et). apply delete_id.
  rewrite lookup_omap. destruct (used_handles_ (hm w) !! h) eqn:Eh; [|done]. congruence.
Qed.

(** The nodes to send have no cycle, and the handle given as data is one of a
    value when there is no connection. *)
Definition send_need : list Z -> world -> Prop := fun params w =>
  acyclic (cells (nodes w)) /\
  forall h d, param params 1 = Some h -> param params 2 = Some d -> HandleManager.GetWsSocket h (hm w) = None -> json_handle d w.

Lemma send_node_keeps l params k w : winv [] l w -> send_need params w -> wp (WsSendNode params k) (fun _ => winv [] l) w.
Proof.
  intros Hi [Ha Hn]. unfold WsSendNode. apply wp_bind, wp_arg. intros h Hh. apply wp_bind. unfold wp at 1, GetWsSocket. destruct (HandleManager.GetWsSocket h (hm w)) as [p|] eqn:E.
  2:{ apply wp_bind, wp_arg. intros d Hd. apply wp_bind. eapply wp_mono; [apply (ws_free_json_keeps [] l d w Hi); by apply (Hn h d)|]. intros u w' Hi'. by apply wp_ret. }
  unfold HandleManager.GetWsSocket, get_typed in E. destruct (used_handles_ (hm w) !! h) as [x|] eqn:Ex; [|done]. case_decide as Ht; [done|]. destruct (closed x); [done|]. injection E as <-.
  assert (hs w !! h = Some (pointer x)) as Hx0 by (apply ws_handles_Some; exists x; split_and!; [done| |done]; destruct (decide (type x = HANDLE_WS_SOCKET)); [done|tauto]).
  destruct (handle_conn backoff [] l w h (pointer x) Hi Hx0) as (c & Hat & Hs). rewrite (conn_object _ _ _ _ Hat). apply wp_bind, wp_arg. intros d Hd. apply wp_bind.
  destruct (V_heap _ _ _ _ Hi) as (FR & L & HI). apply (wp_GetDataHandle _ d _ w HI); [by apply wp_ret|]. intros n Hnode Hheld. apply wp_bind, wp_wr'.
  destruct (node_value_of _ w n HI Hheld Ha) as [u Hu]. destruct (DeepCopy_copies (nodes w) _ n u (I_heap _ _ HI) Hu) as (n' & s & Hcopy & Hinv & _). exists n', s. split; [exact Hcopy|].
  assert (winv (option_list (Some n') ++ []) l (set_nodes s w)) as Hi1.
  { split; [|exact (V_ws _ _ _ _ Hi)]. exists FR, L. apply (Inv_nodes ([] ++ refs l (g_ws w) ++ L)); [exact HI|]. eapply inv_perm; [|exact Hinv]. cbn [option_list app]. by rewrite Permutation_middle. }
  step_push. cbv beta. assert (winv [] l (set_ws (set_ops (Push (SEND k (handle_id c) [] (Some n')) (ws_op_queue (g_ws (set_nodes s w)))) (g_ws (set_nodes s w))) (set_nodes s w))) as Hi2 by
    (by eapply (push_keeps [] l (set_nodes s w) h (pointer x) c (SEND k (handle_id c) [] (Some n')))).
  apply wp_bind. eapply wp_mono; [apply (ws_free_json_keeps [] l d _ Hi2)|intros u0 w' Hi'; by apply wp_ret].
  intros y Hy. unfold node_of, HandleManager.GetDataHandle in Hnode. destruct (get_typed _ d (hm w)) as [q|] eqn:Eg; [|done]. unfold get_typed in Eg. cbn [hm set_ws set_nodes] in Hy. rewrite Hy in Eg.
  case_decide as Hty; [done|]. destruct (decide (type y = HANDLE_JSON_VALUE)); [done|tauto].
Qed.

(** Numbers of new handles are in no queue: they come round after 2^32. *)
Definition new_ids w : Prop :=
  Z.of_nat (size (used_handles_ (hm w))) < 2 ^ 32 - 1 /\
  forall p ty o id m, HandleManager.CreateHandle p ty o (hm w) = Some (id, m) -> ops_of id (g_ws w) = [].

(** Reconnects are off until they are asked for. *)
Lemma settings_new ctx ud id : settings_ok backoff (set_handle_id id (new_WsConnection ctx ud)).
Proof using. clear. split_and!; try done. by left. Qed.

Lemma ws_new_keeps l ctx params w : winv [] l w -> new_ids w -> wp (Native_WsNew ctx params) (fun _ => winv [] l) w.
Proof.
  intros [(FR & L & Hi) H] [Hroom Hnew]. apply wp_bind, wp_arg. intros ud _. set (c := new_WsConnection ctx ud).
  pose proof (wp_make_handle ([] ++ refs l (g_ws w) ++ L) ctx (OWsConnection c) w Hi I eq_refl Hroom) as Hm. unfold wp, make_handle, nbind, new_object in Hm. cbn [otype] in Hm.
  apply wp_bind. unfold wp at 1, new_object. set (p := fresh_addr (objects w)) in *. pose proof (fresh_addr_None (objects w)) as Hp. fold p in Hp. set (w1 := set_objects _ w) in *.
  apply wp_bind. unfold wp at 1. destruct (CreateHandle p HANDLE_WS_SOCKET ctx w1) as [id w2| |] eqn:E; [|done|done]. unfold CreateHandle in E.
  destruct (HandleManager.CreateHandle p HANDLE_WS_SOCKET (Some ctx) (hm w1)) as [[id' m]|] eqn:Ec; [|done]. injection E as <- <-.
  destruct (CreateHandle_spec p HANDLE_WS_SOCKET (Some ctx) (hm w) (wf_next _ (I_table _ _ Hi)) Hroom) as (k & _ & _ & Hk). pose proof Ec as Ec'. change (hm w1) with (hm w) in Ec'.
  rewrite Ec' in Hk. injection Hk as Eid Em. assert (id' <> 0) as Hz by (rewrite Eid; apply hid_range).
  rewrite (proj2 (Z.eqb_neq _ _) Hz) in Hm |- *. destruct Hm as (Hi2 & _ & x & Eu & Hfree & Ety & _ & Hpt). apply wp_bind. unfold wp at 1, store_conn, store_object. apply wp_ret.
  assert (pointer x = p) as Epx.
  { cbn in Eu. rewrite Em in Eu. cbn in Eu. apply (f_equal (fun m => m !! id')) in Eu. rewrite <- Eid, !lookup_insert_eq in Eu. by injection Eu as <-. }
  split; cbn [hm objects g_ws set_hm set_objects w1].
  - exists FR, L. eapply (Inv_replace _ _ (set_hm m w1) p (OWsConnection c)); [exact Hi2|apply lookup_insert_eq|by split_and!|done|done].
  - rewrite insert_insert_eq, conns_insert. cbn in Eu. rewrite Eu. unfold ws_handles. rewrite (omap_insert_Some _ _ _ _ p) by (rewrite Ety; cbn; by rewrite Epx). apply ws_new_ok; try done.
    + apply eq_None_not_Some. intros [q (y & Hy & _)%ws_handles_Some]. congruence.
    + unfold ws_conns. by rewrite lookup_omap, Hp.
    + split; [by eapply Hnew|]. destruct (closed_of id' (evs_of l (g_ws w))) as [|e evs] eqn:El; [done|]. assert (e ∈ closed_of id' (evs_of l (g_ws w))) as Hin by (rewrite El; constructor).
      apply list_elem_of_filter in Hin as [[Hty Hid] Hin]. destruct (W_closed _ _ _ _ _ H e Hin Hty) as [q (y & Hy & _)%ws_handles_Some]. congruence.
    + apply settings_new.
Qed.

(** ** The game thread *)

(** The node of an event that is no close goes to the running code, and an event
    without one can stay. *)
Lemma take_event X e l w : winv X (e :: l) w -> e_type e <> WS_CLOSED -> winv (option_list (e_parsed_node e) ++ X) l w.
Proof.
  intros [(FR & L & Hi) H] He. split; [|by eapply ws_drop_ok]. exists FR, L. eapply Inv_perm; [|exact Hi]. unfold refs. change (evs_of (e :: l) (g_ws w)) with (e :: evs_of l (g_ws w)). cbn [omap list_omap].
  assert (forall (o : option loc) (r : list loc), match o with Some y => y :: r | None => r end = option_list o ++ r) as -> by (by intros [] ?). perm.
Qed.

Lemma keep_event X e l w : winv X l w -> e_type e <> WS_CLOSED -> data_ok e -> e_parsed_node e = None -> winv X (e :: l) w.
Proof.
  intros [(FR & L & Hi) H] He Hd Hn. split.
  - exists FR, L. unfold refs. change (evs_of (e :: l) (g_ws w)) with (e :: evs_of l (g_ws w)). cbn [omap list_omap]. by rewrite Hn.
  - change (evs_of (e :: l) (g_ws w)) with (e :: evs_of l (g_ws w)). split; try apply H.
    + intros id p Hx. destruct (W_handle _ _ _ _ _ H id p Hx) as (c & Hc & Hid & [V1 V2 V3 V4 V5 V6 V7 V8 V9 V10 V11 V12 V13]). exists c. split_and!; [done|done|]. split; try done.
      rewrite <- V3. unfold closed_of. rewrite filter_cons, decide_False; [done|]. by intros [? _].
    + intros e' [->|He']%elem_of_cons Hc; [done|by apply (W_closed _ _ _ _ _ H e')].
    + intros e' [->|He']%elem_of_cons; [done|by apply (W_data _ _ _ _ _ H e')].
Qed.

(** The second parse of a message. *)
Lemma ws_fallback_keeps l e w : winv (option_list (e_parsed_node e)) l w -> data_ok e ->
  wp (fallback iterate e) (fun n w' => winv (option_list n) l w' /\ hm w' = hm w) w.
Proof.
  intros Hi Hd. unfold fallback. destruct (e_parsed_node e) as [n|]; [by apply wp_ret|]. destruct (_ && _); [|by apply wp_ret]. destruct (V_heap _ _ _ _ Hi) as (FR & L & HI).
  assert (forall n s L', inv s (option_list n ++ L' ++ world_refs (objects w) ++ [] ++ refs l (g_ws w) ++ L) -> winv (option_list n) l (set_nodes s w) /\ hm (set_nodes s w) = hm w) as Hend.
  { intros n s L' Hs. split; [|done]. split; [|exact (V_ws _ _ _ _ Hi)]. exists FR, (L' ++ L). apply (Inv_nodes ([] ++ refs l (g_ws w) ++ L)); [exact HI|]. eapply inv_perm; [|exact Hs].
    change (g_ws (set_nodes s w)) with (g_ws w). set (r := refs l (g_ws w)). perm. }
  destruct (Z.eqb_spec (e_parse_mode e) 1) as [E1|_]; [|destruct (Z.eqb_spec (e_parse_mode e) 2) as [E2|_]; [|by apply wp_ret]].
  - apply wp_wr'. destruct (DataParseJson_builds iterate (e_data e) (nodes w) _ (I_heap _ _ HI)) as (n & s & L' & Hp & Hs & _). exists n, s. split; [done|]. by apply (Hend n s L').
  - destruct Hd as [Hb Hl]; [by rewrite E2|]. apply (wp_self (fun w => wr' (ParseMsgPack (g_max_container_elements w) (e_data e)))), wp_wr'.
    assert (len (e_data e) + 2 ^ 32 <= 2 ^ 64) as Hlen by (unfold len; lia).
    destruct (ParseMsgPack_inv (g_max_container_elements w) (e_data e) (nodes w) _ Hlen Hb (I_heap _ _ HI)) as (n & s & Hp & Hs). exists n, s. split; [done|]. by apply (Hend n s []).
Qed.

Lemma dispatch_parsed_keeps l e w : winv (option_list (e_parsed_node e)) l w -> data_ok e -> Z.of_nat (size (used_handles_ (hm w))) < 2 ^ 32 - 1 ->
  wp (dispatch_parsed iterate has_function parse_error e) (fun _ => winv [] l) w.
Proof.
  intros Hi Hd Hroom. apply wp_bind. eapply wp_mono; [exact (ws_fallback_keeps l e w Hi Hd)|]. intros [n|] w1 [Hi1 Eh].
  - apply wp_bind. eapply wp_mono; [apply (make_json_keeps [] l (e_plugin_ctx e) n w1 Hi1); by rewrite Eh|]. intros h w2 Hi2. by apply wp_ret.
  - apply wp_bind. unfold wp at 1, GetSourcepawnFunction. by apply wp_ret.
Qed.

Lemma ws_dispatch_start_keeps l e w : winv [] (e :: l) w -> Z.of_nat (size (used_handles_ (hm w))) < 2 ^ 32 - 1 ->
  wp (dispatch_start iterate has_function parse_error e) (fun r => winv [] (option_list r.2 ++ l)) w.
Proof.
  intros Hi Hroom. unfold dispatch_start. destruct (_ && _) eqn:Ec.
  - apply andb_true_iff in Ec as [_ Ec%negb_true_iff%bool_decide_eq_false]. apply wp_bind. pose proof (take_event [] e l w Hi Ec) as Ht. eapply wp_mono; [exact (drop_body_keeps backoff [] _ l w Ht)|].
    intros u w' (s & _ & Hi'). by apply wp_ret.
  - apply wp_bind. unfold wp at 1, GetSourcepawnFunction. match goal with |- wp (if ?b then _ else _) _ _ => destruct b; [|exact Hi] end.
    match goal with |- wp (if ?b then _ else _) _ _ => destruct b eqn:Em; [|exact Hi] end.
    apply andb_true_iff in Em as [Em%bool_decide_eq_true _]. assert (e_type e <> WS_CLOSED) as Hne by (by rewrite Em).
    assert (data_ok e) as Hd by (apply (W_data _ _ _ _ _ (V_ws _ _ _ _ Hi)); constructor). apply wp_bind. pose proof (take_event [] e l w Hi Hne) as Ht. rewrite app_nil_r in Ht.
    eapply wp_mono; [exact (dispatch_parsed_keeps l e w Ht Hd Hroom)|]. intros call w' Hi'. apply wp_ret. by apply (keep_event [] (without_node e)).
Qed.

Lemma ws_dispatch_end_keeps l e w : winv [] (e :: l) w -> wp (dispatch_end e) (fun _ => winv [] l) w.
Proof.
  intros Hi. unfold dispatch_end, is_closed. apply wp_bind.
  assert (forall w', winv (option_list (e_parsed_node e)) l w' -> wp (delete_event e) (fun _ => winv [] l) w') as Hdel.
  { intros w' Hi'. rewrite <- (app_nil_r (option_list _)) in Hi'. eapply wp_mono; [exact (drop_body_keeps backoff [] _ l w' Hi')|]. by intros u w2 (s & _ & ?). }
  case_bool_decide as Hc; [|apply wp_ret, Hdel; pose proof (take_event [] e l w Hi Hc) as Ht; by rewrite app_nil_r in Ht].
  destruct Hi as [(FR & L & Hi) H]. change (evs_of (e :: l) (g_ws w)) with (e :: evs_of l (g_ws w)) in H. destruct (W_closed _ _ _ _ _ H e (list_elem_of_here _ _) Hc) as [p Hp].
  destruct (closed_conn _ _ _ _ _ _ _ H Hc Hp) as (c & Hcn & Hcu & _). pose proof (proj1 (ws_handles_Some _ _ _) Hp) as (x & Hx & Hty & Ep). pose proof (proj1 (conns_Some _ _ _) Hcn) as Ho.
  assert (may_free (e_handle_id e) w) as Hf by (intros y Hy; assert (y = x) as -> by congruence; split; [by rewrite Hty|]; intros c0 Hc0; rewrite Ep in Hc0; congruence).
  pose proof (wp_FreeHandle _ (e_handle_id e) w Hi Hf) as Hw. unfold wp in Hw. unfold wp at 1. destruct (FreeHandle (e_handle_id e) w) as [[] w'| |] eqn:E; [|done|done]. destruct Hw as (Hi' & Eu & _).
  destruct (FreeHandle_world _ w w' E) as (Eg & _ & E1). apply Hdel. split; rewrite Eg.
  - exists FR, L. eapply Inv_perm; [|exact Hi']. unfold refs. change (evs_of (e :: l) (g_ws w)) with (e :: evs_of l (g_ws w)). cbn [omap list_omap].
    assert (forall (o : option loc) (r : list loc), match o with Some y => y :: r | None => r end = option_list o ++ r) as -> by (by intros [] ?). perm.
  - rewrite (E1 x Hx) by (by rewrite Hty). rewrite Ep, conns_delete. unfold ws_handles. rewrite Eu, omap_delete. by apply ws_free_ok.
Qed.

(** [OnGameFrame], the part about WebSockets. *)
Definition frame_events : N (list WsEvent) := fun w => if HasItems (ws_events (g_ws w)) then DrainSocketEvents w else Done [] w.

Lemma ws_frame_events_keeps w : winv [] [] w -> wp frame_events (winv []) w.
Proof.
  intros [(FR & L & Hi) H]. unfold wp, frame_events, DrainSocketEvents. destruct (HasItems _); [|split; [by exists FR, L|done]]. destruct (DrainAll_spec (ws_events (g_ws w))) as (q & -> & Eq & _).
  assert (evs_of (queue_ (ws_events (g_ws w))) (set_events q (g_ws w)) = evs_of [] (g_ws w)) as Ee by (unfold evs_of; cbn; by rewrite Eq, app_nil_r).
  split; cbn [hm objects g_ws set_ws]; rewrite ?Ee; [|by apply drain_ok]. exists FR, L. unfold refs. rewrite Ee. by destruct Hi.
Qed.

(** Events of a frame that are left, and the one whose callback is running. *)
Record WsFrame := mkFrame { drained : list WsEvent; running : option WsEvent }.
Definition no_frame : WsFrame := mkFrame [] None.
Definition taken_events (F : WsFrame) : list WsEvent := option_list (running F) ++ drained F.

(** ** Steps *)

Inductive ws_event :=
  | WNew (ctx : positive) (params : list Z)
  | WCall (name : String.string) (f : native) (ctx : positive) (params : list Z)
  | WOp (easy : option positive) (rc : Z)
  | WCompleted (easy : positive) (result rng : Z)
  | WPoll (h : positive) (status : Z) (rs : list WsRecv) (rc rng : Z)
  | WTimer (h : positive) (easy : option positive) (rc : Z)
  | WFrame | WDispatch | WDispatched
  | WUnload (id : Z)
  | WElsewhere (w' : world).

Definition then_frame {A} (F : A -> WsFrame) (m : N A) : N WsFrame := x <- m;; nret (F x).

Definition ws_step (F : WsFrame) (ev : ws_event) : N WsFrame :=
  let stay {A} (m : N A) := then_frame (fun _ => F) m in
  match ev with
  | WNew ctx params => stay (Native_WsNew ctx params)
  | WCall _ f ctx params => stay (f ctx params)
  | WOp easy rc => stay (OnAsyncWsOp_turn curl_easy_strerror easy rc)
  | WCompleted easy result rng => stay (CheckCompletedJobs_ws curl_easy_strerror backoff easy result rng)
  | WPoll h status rs rc rng => stay (poll_callback uv_strerror curl_easy_strerror backoff iterate h status rs rc rng)
  | WTimer h easy rc => stay (timer_callback h easy rc)
  | WFrame => then_frame (fun l => mkFrame l None) frame_events
  | WDispatch =>
      match drained F with
      | [] => nret F
      | e :: l => then_frame (fun r => mkFrame l r.2) (dispatch_start iterate has_function parse_error e)
      end
  | WDispatched =>
      match running F with None => nret F | Some e => then_frame (fun _ => mkFrame (drained F) None) (dispatch_end e) end
  | WUnload id => fun w => match hs w !! id with Some p => stay (close_ws p) w | None => Done F w end
  | WElsewhere w' => fun _ => Done F w'
  end.

Definition ws_need (name : String.string) : list Z -> world -> Prop :=
  if bool_decide (name = "async2_WsConnect"%string) then connect_need
  else if bool_decide (name = "async2_WsSetOption"%string) then seconds_need
  else if bool_decide (name = "async2_WsSetReconnect"%string) then reconnect_need
  else if bool_decide (name = "async2_WsSendJson"%string) || bool_decide (name = "async2_WsSendMsgPack"%string) then send_need
  else none_needed.

(** Everything else in the world: the heap, the handles and the objects are
    consistent with what the WebSockets hold, and the connections are as they
    were. *)
Definition elsewhere (F : WsFrame) w w' : Prop :=
  (exists (FR : Frame) L, Inv (FR := FR) (refs (taken_events F) (g_ws w) ++ L) w') /\ hs w' = hs w /\ cs w' = cs w /\ g_ws w' = g_ws w.

(** libuv calls back for timers and polls that are active, libcurl reports the
    end of transfers that were added and makes easy handles that are new. *)
Definition ws_may (F : WsFrame) (ev : ws_event) w : Prop :=
  let fresh easy := forall e, easy = Some e -> easies (g_ws w) !! e = None in
  match ev with
  | WNew _ _ => new_ids w
  | WCall name f ctx params => (name, f) ∈ tail g_WsNatives /\ ws_need name params w
  | WOp easy _ => queue_ (ws_op_queue (g_ws w)) <> [] /\ fresh easy /\ Forall (fun op => op_need op w) (queue_ (ws_op_queue (g_ws w)))
  | WCompleted easy _ _ => is_Some (easies (g_ws w) !! easy) /\ easy ∈ ws_curl_handles_ (g_ws w)
  | WPoll h _ rs _ _ => is_Some (polls (g_ws w) !! h) /\ Forall recv_ok rs
  | WTimer h easy _ => is_Some (timers (g_ws w) !! h) /\ fresh easy
  | WFrame => F = no_frame
  | WDispatch => running F = None /\ Z.of_nat (size (used_handles_ (hm w))) < 2 ^ 32 - 1
  | WDispatched | WUnload _ => True
  | WElsewhere w' => elsewhere F w w'
  end.

(** No WebSocket exists yet. *)
Record ws_initial w : Prop := {
  begin_inv : exists (FR : Frame) L, Inv (FR := FR) L w;
  begin_handles : hs w = ∅;
  begin_conns : cs w = ∅;
  begin_ws : g_ws w = new_WsLoop
}.

Inductive ws_runs : WsFrame -> world -> Prop :=
  | ws_runs_start w : ws_initial w -> ws_runs no_frame w
  | ws_runs_step F w ev F' w' : ws_runs F w -> ws_may F ev w -> ws_step F ev w = Done F' w' -> ws_runs F' w'.

Lemma ws_wp_framed {A} (F : A -> WsFrame) (m : N A) w : wp m (fun a w' => winv [] (taken_events (F a)) w') w -> wp (then_frame F m) (fun F w' => winv [] (taken_events F) w') w.
Proof. intros H. apply wp_bind. eapply wp_mono; [exact H|]. intros a w' Hs. by apply wp_ret. Qed.

Lemma ws_natives_keep : Forall (fun e : String.string * native => keeps_ws e.2 (ws_need e.1)) (tail g_WsNatives).
Proof.
  unfold g_WsNatives. cbn [tail]. repeat (apply Forall_cons; split); [..|by apply Forall_nil]; cbn [fst snd];
    first [exact ws_set_callbacks_keeps|exact set_header_keeps|exact remove_header_keeps|exact clear_headers_keeps|exact ws_connect_keeps|exact send_text_keeps|exact send_binary_keeps
          |exact send_ping_keeps|exact ws_close_keeps|exact ws_set_option_keeps|exact set_reconnect_keeps|exact get_count_keeps|exact get_state_keeps
          |intros l ctx params w Hi Hn; by apply send_node_keeps].
Qed.

Lemma ws_step_keeps F ev w : winv [] (taken_events F) w -> ws_may F ev w -> wp (ws_step F ev) (fun F' w' => winv [] (taken_events F') w') w.
Proof.
  intros Hi Hm. destruct ev; cbn [ws_step ws_may] in *.
  - apply ws_wp_framed. by apply ws_new_keeps.
  - destruct Hm as [Hin Hn]. pose proof ws_natives_keep as HF. rewrite Forall_forall in HF. apply ws_wp_framed. exact (HF _ Hin _ ctx params w Hi Hn).
  - destruct Hm as (H1 & H2 & H3). by apply ws_wp_framed, OnAsyncWsOp_keeps.
  - destruct Hm as [H1 H2]. by apply ws_wp_framed, completed_keeps.
  - destruct Hm as [H1 H2]. by apply ws_wp_framed, poll_keeps.
  - destruct Hm as [H1 H2]. by apply ws_wp_framed, timer_keeps.
  - subst F. by apply ws_wp_framed, ws_frame_events_keeps.
  - destruct Hm as [Hr Hroom], F as [[|e l] r]; cbn in Hr; subst r; [by apply wp_ret|]. apply ws_wp_framed. exact (ws_dispatch_start_keeps l e w Hi Hroom).
  - destruct F as [l [e|]]; [|by apply wp_ret]. apply ws_wp_framed. by apply ws_dispatch_end_keeps.
  - unfold wp at 1. destruct (hs w !! id) as [p|] eqn:E; [|done]. destruct (handle_conn backoff [] _ w id p Hi E) as (c & Hat & Hs). apply (ws_wp_framed (fun _ => F)). unfold wp, close_ws.
    rewrite (conn_object _ _ _ _ Hat). apply (ws_closing_keeps _ w id p c 1001 [] Hi Hat Hs). destruct Hat as [Hx Hc]. exact (settings_self backoff _ _ _ _ id p c (V_ws _ _ _ _ Hi) Hx Hc).
  - destruct Hm as ((FR & L & HI) & E1 & E2 & E3). split; rewrite E3; [by exists FR, L|]. rewrite E1, E2. apply (V_ws _ _ _ _ Hi).
Qed.

Lemma ws_runs_winv F w : ws_runs F w -> winv [] (taken_events F) w.
Proof.
  induction 1 as [w [(FR & L & HI) H2 H3 H4]|F w ev F' w' _ Hi Hm Hst].
  - split; rewrite H4; [exists FR, L; exact HI|]. rewrite H2, H3. apply ws_ok_empty.
  - pose proof (ws_step_keeps F ev w Hi Hm) as Hk. unfold wp in Hk. by rewrite Hst in Hk.
Qed.

(** ** What holds in every state *)

(** C7: WebSockets are memory safe.  However calls of the WebSocket natives,
    operations on the event thread, completed transfers, polls with any frames,
    timers, frames with their dispatches, plugin unloading and everything that
    leaves the connections alone interleave, no step has undefined behaviour: no
    use of a deleted connection, node, timer, poll or easy handle, none of them
    released twice, no [int] that overflows, no pop of an empty queue.  The
    conditions are those of [ws_may]: libuv and libcurl call back for what they
    were asked, a plugin connects a connection once while it is open, times and
    reconnect delays are [int]s of milliseconds, the nodes it sends have no
    cycle and come as a value. *)
Theorem ws_safe (F : WsFrame) (w : world) (ev : ws_event) : ws_runs F w -> ws_may F ev w -> ws_step F ev w <> UB.
Proof. intros Hi%ws_runs_winv Hm E. pose proof (ws_step_keeps F ev w Hi Hm) as Hk. unfold wp in Hk. by rewrite E in Hk. Qed.

(** C8: A connection is what its state says, and is closed once.  In every state
    WebSockets reach, each connection has exactly the timers, the poll and the
    easy handle of its state ([phase]); a handle has one close event under way
    when its connection is [CLOSED] and none otherwise; a closed connection is
    out of the event loop's table and no queued operation would register it
    again; and every timer, poll and easy handle belongs to a connection that
    exists and points back to it. *)
Theorem ws_states (F : WsFrame) (w : world) : ws_runs F w ->
  let evs := evs_of (taken_events F) (g_ws w) in
  (forall id p, hs w !! id = Some p -> exists c, objects w !! p = Some (OWsConnection c) /\ handle_id c = id /\ phase (g_ws w) c /\
    length (closed_of id evs) = (if decide (state c = CLOSED) then 1 else 0)%nat /\
    (state c = CLOSED -> ws_connections_ (g_ws w) !! id = None /\ Forall (fun op => is_connect op = false) (ops_of id (g_ws w)))) /\
  (forall e, e ∈ evs -> e_type e = WS_CLOSED -> is_Some (hs w !! e_handle_id e)) /\
  (forall h x, timers (g_ws w) !! h = Some x -> exists c, objects w !! t_data x = Some (OWsConnection c) /\ timer_field (t_kind x) c = Some h) /\
  (forall h p, polls (g_ws w) !! h = Some p -> exists c, objects w !! p = Some (OWsConnection c) /\ uv_poll c = Some h) /\
  (forall e p, easies (g_ws w) !! e = Some p -> exists c, objects w !! p = Some (OWsConnection c) /\ curl_handle c = Some e).
Proof.
  intros Hi%ws_runs_winv evs. pose proof (V_ws _ _ _ _ Hi) as H. split_and!.
  - intros id p Hx. destruct (W_handle _ _ _ _ _ H id p Hx) as (c & Hc & Hid & [V1 V2 V3 V4 V5 V6 V7 V8 V9 V10 V11 V12 V13]). exists c. split; [by apply conns_Some|].
    unfold is_final in V3, V5. split_and!; [done|done| |].
    + unfold evs. rewrite V3. case_bool_decide as Hcl; by case_decide.
    + intros Hs. apply V5. by apply bool_decide_eq_true.
  - apply (W_closed _ _ _ _ _ H).
  - intros h x Hh. destruct (pointer_conn backoff [] _ w (t_data x) Hi (W_timer _ _ _ _ _ H h x Hh)) as (id & c & Hat & Hl). exists c. split; [by eapply conn_object|]. by apply (L_timer' _ _ _ Hl).
  - intros h p Hh. destruct (pointer_conn backoff [] _ w p Hi (W_poll _ _ _ _ _ H h p Hh)) as (id & c & Hat & Hl). exists c. split; [by eapply conn_object|]. by apply (L_poll _ _ _ Hl).
  - intros e p Hh. destruct (pointer_conn backoff [] _ w p Hi (W_easy _ _ _ _ _ H e p Hh)) as (id & c & Hat & Hl). exists c. split; [by eapply conn_object|]. by apply (L_easy _ _ _ Hl).
Qed.

End WsSystem.
