(* ===== verification/System.v ===== *)
(** * The extension as a whole: game thread, event thread, plugins

    A state is the world and what the game thread is doing (the frame).  The
    game thread calls natives on behalf of plugins, also inside a callback, runs
    frames and handles plugins and clients; the event thread works on the queues
    and libcurl's transfers.  The steps of both interleave: a native, one turn
    of a loop over a queue, one message of libcurl, one timer, the part of a
    callback before and after the plugin's code is one step. *)

From stdpp Require Import base numbers list gmap.
From Stdlib Require Import ZArith Lia.
From S2P Require Import DnsResolver LinkedList LockedQueue MsgPack Prelude HandleManager NodePool DataMap DataValue Float Text DataNode HeaderMap HttpRequest EventLoop HttpState DataRefcount DataCopy JsonText JsonParse DataBuild ParsedNodes DataMerge DataHandle DataIterator Natives NativesJson NativesJsonSafe NativesLinkedList NativesJsonTable NativesHttp NativesHttpSafe NativesText NativesTextSafe NativesDns NativesCurl HttpLoop HttpLoopSafe GameFrame GameFrameSafe.

Section System.

Context {MO : DataMap bytes} {MI : DataMap Z} {P : Type} {PA : NodeAllocator P} {M : Type} {PC : PluginContext M}.

(** simdjson, the file system, zlib, libcurl, the retry delay, the plugins' functions. *)
Context (iterate : bytes -> option od_value) (read_file : bytes -> option (Z * bytes)) (compress2 : bytes -> option bytes)
        (curl_easy_init : gset positive -> option positive) (response_code : positive -> Z) (backoff : HttpRequest -> option Z)
        (GetFunctionById : positive -> Z -> option (list Z -> N (P := P) (M := M) unit)).

(** libcurl's new handles are not among the existing ones. *)
Context (init_fresh : forall live c, curl_easy_init live = Some c -> c ∉ live).

#[local] Notation N := (N (P := P) (M := M)).
#[local] Notation world := (world (P := P) (M := M)).
#[local] Notation native := (native (P := P) (M := M)).
#[local] Notation "x <- m ;; k" := (nbind m (fun x => k)) (at level 100, m at next level, right associativity).
#[local] Notation "m ;;; k" := (nbind m (fun _ => k)) (at level 100, right associativity).
Implicit Types (w : world) (L : list loc).

Inductive event :=
  | Call (name : String.string) (f : native) (ctx : positive) (params : list Z)
  | Add | Cancel | Settings | DnsOps (rc : Z)
  | Data (easy : positive) (data : bytes) | Header (easy : positive) (data : bytes)
  | Message (easy : positive) (result httpcode : Z) (timer : positive)
  | Timer (timer : positive)
  | FrameStart | CallbackStart | CallbackEnd
  | Disconnect (client : Z) | Load (ctx : positive) | Unload (ctx : positive).

Definition then_frame {A} (F : A -> Frame) (m : N A) : N Frame := x <- m;; nret (F x).

Definition step (FR : Frame) (ev : event) : N Frame :=
  let stay {A} (m : N A) := then_frame (fun _ => FR) m in
  match ev with
  | Call _ f ctx params => stay (f ctx params)
  | Add => stay (nbind (pop_queue pending_queue set_pending) (add_one compress2))
  | Cancel => stay (nbind (pop_queue cancel_queue set_cancel) cancel_one)
  | Settings => stay settings_turn
  | DnsOps rc => stay (OnAsyncDnsOp_turn rc)
  | Data easy data => stay (receive_data easy data)
  | Header easy data => stay (receive_header easy data)
  | Message easy result httpcode timer => stay (complete_job iterate backoff easy result httpcode timer)
  | Timer timer => stay (OnRetryTimer timer)
  | FrameStart => then_frame (fun l => mkFrame l None) drain_completed
  | CallbackStart =>
      match drained (Frame := FR) with
      | [] => nret FR
      | p :: l => then_frame (fun c => mkFrame l (match c with Some _ => Some p | None => None end))
                    (begin_callback iterate GetFunctionById response_code p)
      end
  | CallbackEnd =>
      match running (Frame := FR) with
      | None => nret FR
      | Some p => then_frame (fun _ => mkFrame (drained (Frame := FR)) None) (end_callback p)
      end
  | Disconnect client => stay (OnClientDisconnecting client)
  | Load ctx => stay (OnPluginLoaded ctx)
  | Unload ctx => stay (OnPluginUnloaded ctx)
  end.

(** The natives modelled, and what a call of each needs.  The surroundings of
    [text_natives], such as the time, and libcurl's answers may differ from call
    to call. *)
Definition natives : list (String.string * native) :=
  g_JsonNatives iterate read_file ++ g_LinkedListNatives ++ g_HttpNatives curl_easy_init ++ g_MsgPackNatives.

Definition call_ok (FR : Frame) (name : String.string) (params : list Z) w : Prop :=
  requires name params w /\ http_needs (FR := FR) name params w /\ text_needs read_file name params w.

Definition in_tables (name : String.string) (f : native) (params : list Z) : Prop :=
  (name, f) ∈ natives \/ (exists env no_simd has_avx2, curl_sizes env /\ (name, f) ∈ text_natives env no_simd has_avx2 read_file) \/
  (exists capacity bucket_count, (name, f) ∈ g_DnsNatives capacity bucket_count) \/
  (exists api, (name, f) ∈ g_CurlNatives api /\ curl_needs api name params).

(** When a step can happen, and what is asked of the plugins' calls: libcurl
    reports transfers it has; a callback does not close or send its own request
    again, nor get its plugin or client removed. *)
Definition may (FR : Frame) (ev : event) w : Prop :=
  let e := g_event_loop w in
  match ev with
  | Call name f ctx params => in_tables name f params /\ room w /\ call_ok FR name params w
  | Add => queue_ (pending_queue e) <> [] /\ acyclic (cells (nodes w))
  | Cancel => queue_ (cancel_queue e) <> []
  | Settings => queue_ (option_queue e) <> []
  | DnsOps _ => queue_ (Dns.dns_op_queue (g_dns w)) <> []
  | Data easy data => is_Some (curl_multi_ e !! easy) /\ fits_body easy data w
  | Header easy data => is_Some (curl_multi_ e !! easy)
  | Message easy result httpcode timer =>
      is_Some (curl_multi_ e !! easy) /\ retry_timers_ e !! timer = None /\ can_retry backoff easy result httpcode w
  | Timer timer => is_Some (retry_timers_ e !! timer)
  | FrameStart => FR = no_frame
  | CallbackStart => running (Frame := FR) = None /\ Z.of_nat (size (used_handles_ (hm w))) < 2 ^ 32 - 1
  | CallbackEnd => True
  | Disconnect client => leave_ok (FR := FR) client w
  | Load _ => True
  | Unload ctx => unload_ok (FR := FR) ctx w
  end.

(** The extension after loading: no handles, no requests. *)
Record initial w : Prop := {
  start_handles : hm w = new_HandleManager;
  start_objects : objects w = ∅;
  start_nodes : inv (nodes w) [];
  start_loop : g_event_loop w = new_EventLoop;
  start_pool : g_curl_pool (curls w) = [];
  start_clients : g_client_handles w = ∅
}.

Inductive runs : Frame -> world -> Prop :=
  | runs_start w : initial w -> runs no_frame w
  | runs_step FR w ev FR' w' : runs FR w -> may FR ev w -> step FR ev w = Done FR' w' -> runs FR' w'.

(** ** Every step keeps the invariant *)

Lemma initial_Inv w : initial w -> Inv (FR := no_frame) [] w.
Proof.
  intros [H1 H2 H3 H4 H5 H6]. destruct (curls w) as [pool n] eqn:Ec. cbn in H5. subst pool.
  split; rewrite ?H1, ?H2, ?H4, ?H6, ?Ec.
  - apply wf_new.
  - intros h x Hx. discriminate Hx.
  - intros h h' x x' Hx. discriminate Hx.
  - intros p [o Ho]. by rewrite lookup_empty in Ho.
  - intros p o Ho. by rewrite lookup_empty in Ho.
  - exact H3.
  - exists ∅. unfold requests. rewrite omap_empty. apply http_ok_empty.
Qed.

(** What a step leaves: the invariant for the new frame. *)
Definition stepped L (FR : Frame) w : Prop := exists L', Inv (FR := FR) (L' ++ L) w.

Lemma wp_then {A} (F : A -> Frame) (m : N A) L w : wp m (fun a w' => stepped L (F a) w') w -> wp (then_frame F m) (fun FR w' => stepped L FR w') w.
Proof. intros H. apply wp_bind. eapply wp_mono; [exact H|]. intros a w' Hs. by apply wp_ret. Qed.

Lemma wp_stay {A} (FR : Frame) (m : N A) (Q : A -> world -> Prop) L w : wp m Q w -> (forall a w', Q a w' -> Inv (FR := FR) L w') ->
  wp (then_frame (fun _ => FR) m) (fun FR w' => stepped L FR w') w.
Proof. intros Hm HQ. apply wp_then. eapply wp_mono; [exact Hm|]. intros a w' Ha. exists []. exact (HQ a w' Ha). Qed.

Lemma native_keeps (FR : Frame) name f ctx params L w : Inv (FR := FR) L w -> in_tables name f params -> room w -> call_ok FR name params w ->
  wp (f ctx params) (fun _ w' => stepped L FR w') w.
Proof using init_fresh.
  intros Hi [Hin|[(env & ns & ha & Henv & Hin)|[(cap & bc & Hin)|(api & Hin & Hn)]]] Hroom (H1 & H2 & H3).
  4: { pose proof (curl_table_keeps (P := P) (M := M) (FR := FR) api) as HF. rewrite Forall_forall in HF.
       eapply wp_mono; [exact (HF (name, f) Hin ctx params L w Hi Hroom Hn)|]. intros r w' Hi'. exists []. exact Hi'. }
  3: { pose proof (dns_natives_keep (P := P) (M := M) (FR := FR) cap bc) as HF. rewrite Forall_forall in HF.
       eapply wp_mono; [exact (HF (name, f) Hin ctx params L w Hi Hroom I)|]. intros r w' Hi'. exists []. exact Hi'. }
  2: { pose proof (text_table_keeps (P := P) (M := M) (FR := FR) env ns ha read_file Henv) as HF. rewrite Forall_forall in HF.
       eapply wp_mono; [exact (HF (name, f) Hin ctx params L w Hi Hroom H3)|]. intros r w' Hi'. exists []. exact Hi'. }
  unfold natives in Hin. rewrite !elem_of_app in Hin.
  assert (keeps (FR := FR) f (http_needs (FR := FR) name) -> wp (f ctx params) (fun _ w' => stepped L FR w') w) as Hk.
  { intros Hk. eapply wp_mono; [exact (Hk ctx params L w Hi Hroom H2)|]. intros r w' Hi'. exists []. exact Hi'. }
  destruct Hin as [Hin|[Hin|[Hin|Hin]]].
  - eapply wp_mono; [exact (table_entry_safe (FR := FR) iterate read_file name f Hin ctx params L w Hi Hroom H1)|].
    intros r w' (L' & Hi' & _). exists L'. exact Hi'.
  - pose proof (list_table_keeps (P := P) (M := M) (FR := FR)) as HF. rewrite Forall_forall in HF. specialize (HF (name, f) Hin). cbn in HF.
    eapply wp_mono; [exact (HF ctx params L w Hi Hroom I)|]. intros r w' Hi'. exists []. exact Hi'.
  - pose proof (http_table_keeps (P := P) (M := M) (FR := FR) curl_easy_init init_fresh) as HF. rewrite Forall_forall in HF. exact (Hk (HF (name, f) Hin)).
  - pose proof (msgpack_table_keeps (P := P) (M := M) (FR := FR)) as HF. rewrite Forall_forall in HF. exact (Hk (HF (name, f) Hin)).
Qed.

Lemma step_keeps (FR : Frame) ev L w : Inv (FR := FR) L w -> may FR ev w -> wp (step FR ev) (fun FR' w' => stepped L FR' w') w.
Proof using init_fresh.
  intros Hi Hm. destruct ev; cbn [step may] in *.
  - destruct Hm as (Hin & Hroom & Hok). apply wp_then. eapply wp_mono; [by eapply native_keeps|]. done.
  - destruct Hm as [Hne Ha]. destruct (queue_ (pending_queue (g_event_loop w))) as [|p rest] eqn:Eq; [done|].
    eapply wp_stay; [exact (add_one_keeps (FR := FR) compress2 L p rest w Hi Ha Eq)|]. by intros _ w' (Hi' & _).
  - destruct (queue_ (cancel_queue (g_event_loop w))) as [|p rest] eqn:Eq; [done|].
    eapply wp_stay; [exact (cancel_one_keeps (FR := FR) L p rest w Hi Eq)|]. by intros _ w' ((Hi' & _) & _).
  - eapply wp_stay; [exact (settings_turn_keeps (FR := FR) L w Hi Hm)|]. done.
  - eapply wp_stay; [exact (dns_turn_keeps (FR := FR) L w rc Hi Hm)|]. done.
  - destruct Hm as [He Hf]. eapply wp_stay; [exact (receive_data_keeps (FR := FR) L easy data w Hi He Hf)|]. by intros _ w' (Hi' & _).
  - eapply wp_stay; [exact (receive_header_keeps (FR := FR) L easy data w Hi Hm)|]. by intros _ w' (Hi' & _).
  - destruct Hm as (He & Ht & Hc). apply wp_then. eapply wp_mono; [exact (complete_job_keeps (FR := FR) iterate backoff L easy result httpcode timer w Hi He Ht Hc)|].
    by intros _ w' [HL _].
  - eapply wp_stay; [exact (OnRetryTimer_keeps (FR := FR) L timer w Hi Hm)|]. by intros _ w' (Hi' & _).
  - rewrite Hm in Hi. apply wp_then. eapply wp_mono; [exact (drain_keeps L w Hi)|]. intros l w' (Hi' & _). exists []. exact Hi'.
  - destruct Hm as [Hrun Hroom]. destruct FR as [[|p l] run]; cbn in Hrun; subst run; [apply wp_ret; exists []; exact Hi|]. apply wp_then.
    eapply wp_mono; [exact (wp_begin_callback iterate GetFunctionById response_code p l L w Hi Hroom)|]. intros [c|] w' HL; exact HL.
  - destruct FR as [l [p|]]; cbn [running drained]; [|apply wp_ret; exists []; exact Hi]. apply wp_then.
    eapply wp_mono; [exact (wp_end_callback p l L w Hi)|]. intros _ w' (Hi' & _). exists []. exact Hi'.
  - eapply wp_stay; [exact (OnClientDisconnecting_keeps (FR := FR) client L w Hi Hm)|]. by intros _ w' (Hi' & _).
  - eapply wp_stay; [exact (OnPluginLoaded_keeps (FR := FR) ctx L w Hi)|]. done.
  - eapply wp_stay; [exact (OnPluginUnloaded_keeps (FR := FR) ctx L w Hi Hm)|]. done.
Qed.

Lemma runs_Inv (FR : Frame) w : runs FR w -> exists L, Inv (FR := FR) L w.
Proof using init_fresh.
  induction 1 as [w Hs|FR w ev FR' w' _ [L Hi] Hm Hst]; [exists []; by apply initial_Inv|].
  pose proof (step_keeps FR ev L w Hi Hm) as Hk. unfold wp in Hk. rewrite Hst in Hk. destruct Hk as [L' Hi']. by exists (L' ++ L).
Qed.

(** ** What holds in every state *)


(** C4: A handle always means what its type says.  In every state the extension
    reaches, the object behind a handle exists and has the type the handle was
    created with, two handles never share an object, and every object has its
    handle; so the typed getters of [HandleManager] never return a pointer to
    an object of another type or to a deleted one. *)
Theorem handles_typed (FR : Frame) (w : world) : runs FR w ->
  (forall t h p, get_typed t h (hm w) = Some p -> exists o, objects w !! p = Some o /\ otype o = t) /\
  (forall h h' x x', used_handles_ (hm w) !! h = Some x -> used_handles_ (hm w) !! h' = Some x' -> pointer x = pointer x' -> h = h') /\
  (forall p, is_Some (objects w !! p) -> exists h x, used_handles_ (hm w) !! h = Some x /\ pointer x = p).
Proof using init_fresh.
  intros [L Hi]%runs_Inv. split_and!; [|exact (I_unique _ _ Hi)|exact (I_handle _ _ Hi)].
  intros t h p Hg. destruct (Inv_get (FR := FR) L w t h p Hi Hg) as (o & Ho & Ht & _). by exists o.
Qed.

(** Where requests in flight are. *)
Definition in_queues (FR : Frame) w : list positive :=
  let e := g_event_loop w in
  queue_ (pending_queue e) ++ (map_to_list (curl_multi_ e)).*2 ++ (map_to_list (retry_timers_ e)).*2 ++ drained (Frame := FR) ++ queue_ (done_queue e).

Lemma NoDup_places {FR : Frame} pl reqs handles e c cl qs : http_ok pl reqs handles e c cl -> NoDup qs -> Idle ∉ qs -> NoDup (concat (members e <$> qs)).
Proof.
  intros H. induction qs as [|q qs IH]; intros Hnd Hid; [constructor|]. apply NoDup_cons in Hnd as [Hq Hnd]. apply not_elem_of_cons in Hid as [Hi0 Hid].
  cbn. apply list.NoDup_app. split_and!; [apply (K_nodup _ _ _ _ _ _ H)| |by apply IH].
  intros x Hx Hin. apply list_elem_of_In, in_concat in Hin as (l & Hl & Hxl). apply list_elem_of_In in Hl, Hxl.
  apply list_elem_of_fmap in Hl as (q' & -> & Hq'). apply (K_members _ _ _ _ _ _ H) in Hx; [|done].
  apply (K_members _ _ _ _ _ _ H) in Hxl; [|by intros ->]. assert (q = q') as -> by congruence. done.
Qed.

Lemma in_queues_members (FR : Frame) w : in_queues FR w = concat (members (FR := FR) (g_event_loop w) <$> [Pend; Multi; Wait; Finished]).
Proof. unfold in_queues. cbn. by rewrite app_nil_r. Qed.

(** C2: Every request is at exactly one place.  In every state the extension
    reaches, the requests that are in flight ([in_event_thread]) are exactly
    the ones in the pending queue, in libcurl's multi handle, at a retry timer,
    or among the completed ones, each of them once and at one of these places
    only; so a request sent once is completed and called back at most once, and
    none is lost.  The counters [stats_pending] and [stats_active] are the
    numbers of the queued requests and of the running transfers (as 32-bit
    integers), the set of HTTP easy handles is the multi handle's, and
    each queue's flag tells whether it is empty. *)
Theorem requests_accounted (FR : Frame) (w : world) : runs FR w ->
  let e := g_event_loop w in
  NoDup (in_queues FR w) /\
  (forall p, p ∈ in_queues FR w <-> exists r, objects w !! p = Some (OHttpRequest r) /\ in_event_thread r = true) /\
  stats_pending e = sN 32 (Z.of_nat (length (queue_ (pending_queue e)))) /\
  stats_active e = sN 32 (Z.of_nat (size (curl_multi_ e))) /\
  http_curl_handles_ e = dom (curl_multi_ e) /\
  HasItems (pending_queue e) = negb (Empty (pending_queue e)) /\ HasItems (done_queue e) = negb (Empty (done_queue e)).
Proof using init_fresh.
  intros [L Hi]%runs_Inv e. destruct (I_http _ _ Hi) as [pl H]. rewrite in_queues_members.
  assert (forall p, p ∈ concat (members (FR := FR) (g_event_loop w) <$> [Pend; Multi; Wait; Finished]) <-> exists q, in_flight q = true /\ p ∈ members (FR := FR) e q) as Hc.
  { intros p. cbn [fmap list_fmap concat]. rewrite !elem_of_app. split.
    - intros [?|[?|[?|[?|?%not_elem_of_nil]]]]; [by exists Pend|by exists Multi|by exists Wait|by exists Finished|done].
    - intros ([] & Hq & Hp); try done; tauto. }
  split; [|split].
  - apply (NoDup_places _ _ _ _ _ _ _ H); [repeat (apply NoDup_cons; split; [set_solver|]); constructor|set_solver].
  - intros p. rewrite Hc. split.
    + intros (q & Hq & Hp). destruct (at_place H p q) as (r & Hr & _ & Hok); [by intros ->|done|]. exists r.
      split; [by apply requests_Some|]. by rewrite (R_thread _ _ _ _ _ Hok).
    + intros (r & Ho & Ht). destruct (flying_place H p r) as (q & _ & Hq & Hp); [by apply requests_Some|done|]. by exists q.
  - destruct (K_stats _ _ _ _ _ _ H) as [S1 S2]. destruct (K_flags _ _ _ _ _ _ H) as (F1 & _ & F3). split_and!; try done.
    + etrans; [exact S2|]. cbn. by rewrite length_fmap, length_map_to_list.
    + apply (K_handles _ _ _ _ _ _ H).
Qed.

End System.
