(* ===== verification/HttpAnswer.v ===== *)
(** * A closed request is answered

    The event thread's work on the queues neither deletes a request nor changes
    who is to be told; with the invariant, a request that was closed in flight
    ends among the completed ones, and its callback says that it was aborted. *)

From stdpp Require Import base numbers list gmap.
From Stdlib Require Import ZArith Lia.
From S2P Require Import LinkedList LockedQueue MsgPack Prelude HandleManager NodePool DataMap DataValue Float Text DataNode HeaderMap HttpRequest EventLoop HttpState DataRefcount DataCopy JsonText JsonParse DataBuild DataMerge DataHandle DataIterator Natives NativesJson NativesJsonSafe NativesHttp NativesHttpSafe HttpLoop HttpLoopSafe GameFrame GameFrameSafe System.

Section Calm.

Context {MO : DataMap bytes} {MI : DataMap Z} {P : Type} {PA : NodeAllocator P} {M : Type} {PC : PluginContext M}.

#[local] Notation N := (N (P := P) (M := M)).
#[local] Notation world := (world (P := P) (M := M)).
#[local] Notation "x <- m ;; k" := (nbind m (fun x => k)) (at level 100, m at next level, right associativity).
#[local] Notation "m ;;; k" := (nbind m (fun _ => k)) (at level 100, right associativity).
Implicit Types (w : world).

(** What the plugin set stays. *)
Definition fixed (r r' : HttpRequest) : Prop :=
  handle_closed r' = handle_closed r /\ in_event_thread r' = in_event_thread r /\ handle_id r' = handle_id r /\
  plugin_context r' = plugin_context r /\ callback_id r' = callback_id r /\ userdata r' = userdata r /\ parse_mode r' = parse_mode r.

#[export] Instance fixed_preorder : PreOrder fixed.
Proof. split; [done|]. intros r r' r'' H H'. unfold fixed in *. intuition congruence. Qed.

Definition has w (p : positive) (r : HttpRequest) : Prop := exists r', objects w !! p = Some (OHttpRequest r') /\ fixed r r'.

Definition evolves w w' : Prop := forall p r, has w p r -> has w' p r.

#[export] Instance evolves_preorder : PreOrder evolves.
Proof. split; [by intros w p r|]. intros w1 w2 w3 H12 H23 p r Hr. by apply H23, H12. Qed.

(** [m] runs on worlds in which [K] holds: it keeps requests, and never fails
    for an argument. *)
Definition calm (K : world -> Prop) {A} (m : N A) : Prop := forall w, K w ->
  match m w with Done _ w' => evolves w w' | BadArg => False | UB => True end.

Definition stable (K : world -> Prop) : Prop := forall w w', evolves w w' -> K w -> K w'.

Lemma stable_has p r : stable (fun w => has w p r).
Proof. intros w w' He. apply He. Qed.

Lemma stable_any : stable (fun _ => True).
Proof. done. Qed.

Lemma calm_bind K {A B} (m : N A) (k : A -> N B) : stable K -> calm K m -> (forall a, calm K (k a)) -> calm K (nbind m k).
Proof.
  intros HK Hm Hk w Hw. specialize (Hm w Hw). unfold nbind. destruct (m w) as [a w1| |]; [|done|done].
  specialize (Hk a w1 (HK _ _ Hm Hw)). destruct (k a w1) as [b w2| |]; [|done|done]. by etrans.
Qed.

Lemma calm_assoc K {A B C} (m : N A) (k : A -> N B) (j : B -> N C) : calm K (nbind m (fun a => nbind (k a) j)) -> calm K (nbind (nbind m k) j).
Proof. intros H w Hw. specialize (H w Hw). unfold nbind in *. by destruct (m w). Qed.

(** A computation that reads first knows what it read. *)
Lemma calm_load K p {B} (k : HttpRequest -> N B) : (forall r, calm (fun w => has w p r) (k r)) -> calm K (nbind (load_request p) k).
Proof.
  intros Hk w Hw. unfold nbind, load_request. destruct (objects w !! p) as [[]|] eqn:E; try done. apply Hk. by exists r.
Qed.

Lemma calm_store r0 p r : fixed r0 r -> calm (fun w => has w p r0) (store_request p r).
Proof.
  intros Hf w (r1 & H1 & Hf1). cbn. intros q r2 (r3 & H3 & Hf3). unfold has. cbn [objects set_objects].
  destruct (decide (q = p)) as [->|Hq]; [|exists r3; by rewrite lookup_insert_ne]. exists r. rewrite lookup_insert_eq. split; [done|].
  assert (r3 = r1) as -> by congruence. unfold fixed in *. intuition congruence.
Qed.

Section Any.

Context (K : world -> Prop).

Lemma calm_ret {A} (a : A) : calm K (nret a).
Proof. by intros w _ p r. Qed.
Lemma calm_loop f : calm K (upd_loop f).
Proof. by intros w _ p r. Qed.
Lemma calm_get : calm K get_loop.
Proof. by intros w _ p r. Qed.
Lemma calm_nonnull {A} (x : option A) : calm K (nonnull x).
Proof. intros w _. unfold nonnull. destruct x; [by intros p r|done]. Qed.
Lemma calm_rd {A} (f : store -> option A) : calm K (rd f).
Proof. intros w _. unfold rd. destruct (f (nodes w)); [by intros p r|done]. Qed.
Lemma calm_wr f : calm K (wr f).
Proof. intros w _. unfold wr. destruct (f (nodes w)); [by intros p r|done]. Qed.
Lemma calm_UB {A} : calm K (A := A) (fun _ => UB).
Proof. by intros w. Qed.

End Any.

Create HintDb calm.
#[local] Hint Resolve stable_has stable_any calm_ret calm_loop calm_get calm_nonnull calm_rd calm_wr calm_UB : calm.

Ltac calm_step := lazymatch goal with
  | |- calm _ (nbind (load_request _) _) => apply calm_load; intros ?
  | |- calm _ (nbind _ _) => apply calm_bind; [solve [auto with calm]|try solve [auto with calm]|intros ?]
  | |- calm _ (match ?x with _ => _ end) => destruct x
  | |- _ => solve [auto with calm]
  end.

Lemma calm_finish r0 p r : fixed r0 r -> calm (fun w => has w p r0) (finish p r).
Proof.
  intros Hf. unfold finish. calm_step; [|repeat calm_step].
  apply calm_store. etrans; [exact Hf|]. unfold OnCompleted. by destruct (in_retry_wait r).
Qed.

Lemma finish_setup_fixed compress2 r : fixed r (finish_setup compress2 r).
Proof.
  unfold finish_setup. transitivity (compress_step compress2 r).
  - unfold compress_step. destruct (post_body r); [done|]. destruct (_ && _); [|done]. by destruct (compress2 _).
  - by destruct (post_body (compress_step compress2 r)).
Qed.

Lemma calm_setup compress2 K p : calm K (SetupCurl compress2 p).
Proof.
  unfold SetupCurl. apply calm_load. intros r0. destruct (body_node r0) as [n|].
  - apply calm_assoc. calm_step; [repeat calm_step|]. apply calm_assoc. calm_step.
    apply (calm_store r0). transitivity (set_body_node None (set_post_body a r0)); [done|]. apply finish_setup_fixed.
  - apply (calm_store r0). apply finish_setup_fixed.
Qed.

Lemma calm_add_one compress2 p : calm (fun _ => True) (add_one compress2 p).
Proof.
  unfold add_one. do 3 calm_step. destruct (handle_closed r) eqn:Ec.
  - calm_step; [repeat calm_step|]. by apply calm_finish.
  - calm_step; [apply calm_setup|]. unfold ProcessCurlJob, add_easy. repeat calm_step.
Qed.

Lemma calm_cancel_one p : calm (fun _ => True) (cancel_one p).
Proof.
  unfold cancel_one. calm_step. destruct (decide _); [|repeat calm_step]. calm_step. calm_step.
  - destruct (in_retry_wait r); unfold remove_easy; repeat calm_step.
  - by apply calm_finish.
Qed.

Lemma calm_queue get set body : (forall p, calm (fun _ => True) (body p)) -> forall fuel, calm (fun _ => True) (queue_loop get set body fuel).
Proof.
  intros Hb. induction fuel as [|fuel IH]; [by intros w|]. cbn [queue_loop]. calm_step. destruct (Empty _); [repeat calm_step|].
  calm_step; [unfold pop_queue; repeat calm_step|]. calm_step. exact IH.
Qed.

Lemma calm_OnAsyncAdd compress2 : calm (fun _ => True) (OnAsyncAdd compress2).
Proof. unfold OnAsyncAdd. calm_step. apply calm_queue, calm_add_one. Qed.

Lemma calm_OnAsyncCancel : calm (fun _ => True) OnAsyncCancel.
Proof. unfold OnAsyncCancel. calm_step. apply calm_queue, calm_cancel_one. Qed.

End Calm.

(** ** Answers *)

Section Answer.

Context {MO : DataMap bytes} {MI : DataMap Z} {P : Type} {PA : NodeAllocator P} {M : Type} {PC : PluginContext M}.
Context (iterate : bytes -> option od_value) (read_file : bytes -> option (Z * bytes)) (compress2 : bytes -> option bytes)
        (curl_easy_init : gset positive -> option positive) (response_code : positive -> Z) (backoff : HttpRequest -> option Z)
        (GetFunctionById : positive -> Z -> option (list Z -> N (P := P) (M := M) unit)).
Context (init_fresh : forall live c, curl_easy_init live = Some c -> c ∉ live).

#[local] Notation world := (world (P := P) (M := M)).
#[local] Notation runs := (runs iterate read_file compress2 curl_easy_init response_code backoff GetFunctionById).
Implicit Types (w : world) (L : list loc).

(** With both queues empty, a closed request in flight is a completed one. *)
Lemma closed_finished {FR : Frame} L w p r : Inv L w -> objects w !! p = Some (OHttpRequest r) -> in_event_thread r = true -> handle_closed r = true ->
  queue_ (pending_queue (g_event_loop w)) = [] -> queue_ (cancel_queue (g_event_loop w)) = [] -> p ∈ members (g_event_loop w) Finished.
Proof.
  intros Hi Ho Ht Hc Hp Hca. destruct (I_http _ _ Hi) as [pl H]. pose proof (proj2 (requests_Some _ _ _) Ho) as Hr.
  destruct (flying_place H p r Hr Ht) as (q & Hq & Hf & Hm). destruct (K_req _ _ _ _ _ _ H p r Hr) as (q' & Hq' & Hok).
  assert (q' = q) as -> by congruence. destruct (R_closed _ _ _ _ _ Hok Hc) as [_ Hin]. rewrite Hca in Hin.
  destruct q; try done; [cbn in Hm; rewrite Hp in Hm| |]; exfalso; eapply not_elem_of_nil; eauto.
Qed.

(** The cancellation leaves the pending queue alone. *)
Lemma cancel_pending L w {FR : Frame} : Inv L w -> queue_ (pending_queue (g_event_loop w)) = [] ->
  wp OnAsyncCancel (fun _ w' => queue_ (pending_queue (g_event_loop w')) = []) w.
Proof.
  intros Hi Hp. apply wp_bind. unfold wp at 1, get_loop.
  eapply wp_mono; [apply (wp_queue_loop (fun w' => Inv L w' /\ queue_ (pending_queue (g_event_loop w')) = [])); [|done|lia]|]; [|by intros _ w' [[_ ?] _]].
  intros w1 q rest [Hi1 Hp1] E. pose proof (cancel_one_keeps L q rest w1 Hi1 E) as Hk. revert Hk.
  unfold wp, nbind, pop_queue, get_loop, nonnull, upd_loop, nret, nbind. destruct (Pop_spec _ _ _ E) as (qu & -> & _). cbn [fst snd].
  unfold cancel_one, nbind, get_loop, load_request. cbn [g_event_loop set_loop objects]. destruct (decide _); [|by intros ((Hi2 & _) & E2)].
  change (objects (set_loop (set_cancel qu (g_event_loop w1)) w1)) with (objects w1). destruct (objects w1 !! q) as [[| |r1| | | |]|]; try done. destruct (in_retry_wait r1).
  - intros ((Hi2 & _) & E2). split; [split|]; [exact Hi2|exact Hp1|exact E2].
  - unfold nonnull. destruct (curl r1); [|done]. intros ((Hi2 & _) & E2). split; [split|]; [exact Hi2|exact Hp1|exact E2].
Qed.


(** What a callback is told about a closed request.  The function of a loaded
    plugin is called with the request's handle, [CURLE_ABORTED_BY_CALLBACK], status
    0, no data (neither a size nor a [Json]) and the user data, in either
    response mode; nothing is parsed and no handle is created. *)
Theorem closed_request_callback (w : world) (p : positive) (r : HttpRequest) (fn : list Z -> N (P := P) (M := M) unit) :
  objects w !! p = Some (OHttpRequest r) -> handle_closed r = true -> plugin_context r ∈ g_plugin_contexts w ->
  GetFunctionById (plugin_context r) (callback_id r) = Some fn ->
  exists w', begin_callback iterate GetFunctionById response_code p w =
      Done (Some (fn, [handle_id r; CURLE_ABORTED_BY_CALLBACK; 0; 0; userdata r])) w' /\ nodes w' = nodes w /\ hm w' = hm w.
Proof.
  intros Ho Hc Hin Hf. unfold begin_callback, nbind, load_request. rewrite Ho. unfold store_request, store_object, GetSourcepawnFunction.
  cbn [g_plugin_contexts set_objects plugin_context set_in_event_thread callback_id]. rewrite decide_True, Hf by done.
  cbn [handle_closed set_in_event_thread]. rewrite Hc. unfold callback_cells, nbind, json_result.
  cbn [handle_closed set_curlcode set_in_event_thread]. rewrite Hc. cbn [negb andb]. destruct (_ >? 0); by eexists.
Qed.

End Answer.
