(* ===== verification/PluginMemory.v ===== *)
(** * A flat plugin memory

    An instance of [PluginContext]: the data section of a plugin as an array of
    bytes, cells being four bytes in little-endian order, with the bounds checks
    the virtual machine makes.  The witnesses of the theorems about natives run
    in it. *)

From stdpp Require Import base numbers list gmap.
From Stdlib Require Import ZArith Lia.
From S2P Require Import Prelude HandleManager NodePool DataMap DataValue Float Text DataNode DataRefcount JsonText JsonParse DataHandle DataIterator Natives.

Definition flat_memory : Type := list Z.

Definition cell_bytes (c : Z) : bytes := [uN 8 c; uN 8 (Z.shiftr c 8); uN 8 (Z.shiftr c 16); uN 8 (Z.shiftr c 24)].

Fixpoint get_cells (n : nat) (m : flat_memory) : option (list Z) :=
  match n, m with
  | O, _ => Some []
  | S n, b0 :: b1 :: b2 :: b3 :: m =>
      let? cs := get_cells n m in Some (sN 32 (b0 + 2 ^ 8 * b1 + 2 ^ 16 * b2 + 2 ^ 24 * b3) :: cs)
  | _, _ => None
  end.

Definition flat_read (m : flat_memory) (addr : Z) (n : nat) : option (list Z) :=
  if addr <? 0 then None else get_cells n (drop (Z.to_nat addr) m).

(** The machine's addresses are 32-bit integers. *)
Definition flat_valid (m : flat_memory) : bool := Z.of_nat (length m) <? 2 ^ 31.

Definition flat_raw (m : flat_memory) (addr : Z) (n : nat) : option bytes :=
  if flat_valid m && (0 <=? addr) && (addr + Z.of_nat n <=? Z.of_nat (length m)) then Some (uN 8 <$> take n (drop (Z.to_nat addr) m)) else None.

Definition flat_write (addr : Z) (b : bytes) (m : flat_memory) : option flat_memory :=
  if flat_valid m && (0 <=? addr) && (addr + Z.of_nat (length b) <=? Z.of_nat (length m)) then
    Some (take (Z.to_nat addr) m ++ b ++ drop (Z.to_nat addr + length b) m)
  else None.

Definition flat_string (m : flat_memory) (addr : Z) : option bytes :=
  if flat_valid m && (0 <=? addr) && (addr <? Z.of_nat (length m)) then Some (cstr (uN 8 <$> drop (Z.to_nat addr) m)) else None.

Definition flat_StringToLocal (addr maxlen : Z) (s : bytes) (m : flat_memory) : flat_memory :=
  if maxlen <=? 0 then m else default m (flat_write addr (take (Z.to_nat (maxlen - 1)) (cstr s) ++ [0]) m).

Lemma cell_bytes_value c : s_range 32 c ->
  sN 32 (uN 8 c + 2 ^ 8 * uN 8 (Z.shiftr c 8) + 2 ^ 16 * uN 8 (Z.shiftr c 16) + 2 ^ 24 * uN 8 (Z.shiftr c 24)) = c.
Proof.
  unfold s_range, sN, uN. intros Hc. rewrite !Z.shiftr_div_pow2 by lia. simpl (2 ^ _) in *. Z.div_mod_to_equations. lia.
Qed.

Lemma get_cells_bytes cs rest : Forall (s_range 32) cs -> get_cells (length cs) (concat (cell_bytes <$> cs) ++ rest) = Some cs.
Proof.
  induction 1 as [|c cs Hc _ IH]; [done|]. cbn -[Z.pow]. rewrite IH. cbn -[Z.pow]. by rewrite cell_bytes_value.
Qed.

Lemma get_cells_range n m cs : get_cells n m = Some cs -> Forall (s_range 32) cs.
Proof.
  revert m cs. induction n as [|n IH]; intros m cs H; [by injection H as <-|].
  destruct m as [|b0 [|b1 [|b2 [|b3 m]]]]; try done. cbn -[Z.pow] in H.
  destruct (get_cells n m) as [cs'|] eqn:E; [|done]. injection H as <-. constructor; [by apply s_bounds|eauto].
Qed.

Lemma flat_read_range m addr n cs : flat_read m addr n = Some cs -> Forall (s_range 32) cs.
Proof. unfold flat_read. destruct (addr <? 0); [done|]. apply get_cells_range. Qed.

Lemma flat_read_write m addr cs m' : Forall (s_range 32) cs ->
  flat_write addr (concat (cell_bytes <$> cs)) m = Some m' -> flat_read m' addr (length cs) = Some cs.
Proof.
  intros Hcs. unfold flat_read, flat_write. destruct (flat_valid m); [|done]. destruct (Z.leb_spec 0 addr); [|done].
  destruct (Z.leb_spec (addr + Z.of_nat (length (concat (cell_bytes <$> cs)))) (Z.of_nat (length m))); [|done].
  intros [= <-]. destruct (Z.ltb_spec addr 0); [lia|].
  rewrite drop_app_length' by (rewrite length_take; lia). by apply get_cells_bytes.
Qed.

Lemma flat_raw_bytes m addr n b : flat_raw m addr n = Some b -> Forall is_byte b /\ length b = n.
Proof.
  unfold flat_raw. destruct (flat_valid m); [|done]. destruct (Z.leb_spec 0 addr); [|done]. destruct (Z.leb_spec (addr + Z.of_nat n) (Z.of_nat (length m))); [|done].
  intros [= <-]. split; [|rewrite length_fmap, length_take, length_drop; lia].
  apply Forall_forall. intros c (x & -> & _)%list_elem_of_fmap. by apply (u_bounds 8).
Qed.

Lemma cstr_text s : Forall is_byte s -> Forall (fun c => 0 < c < 256) (cstr s).
Proof. unfold is_byte. induction 1 as [|c s Hc _ IH]; [constructor|]. cbn. destruct (Z.eqb_spec c 0); constructor; [lia|done]. Qed.

Lemma cstr_app s rest : Forall (fun c => 0 < c < 256) s -> cstr (s ++ 0 :: rest) = s.
Proof. induction 1 as [|c s Hc _ IH]; [done|]. cbn. destruct (Z.eqb_spec c 0); [lia|]. by rewrite IH. Qed.

Lemma uN_bytes (m : flat_memory) : Forall is_byte (uN 8 <$> m).
Proof. apply Forall_forall. intros c (x & -> & _)%list_elem_of_fmap. by apply (u_bounds 8). Qed.

Lemma cstr_length s : (length (cstr s) <= length s)%nat.
Proof. induction s as [|c s IH]; [done|]. cbn. destruct (c =? 0); cbn; lia. Qed.

Lemma flat_valid_spec m : flat_valid m = true <-> Z.of_nat (length m) < 2 ^ 31.
Proof. apply Z.ltb_lt. Qed.

Lemma flat_string_Some m addr : is_Some (flat_string m addr) <-> flat_valid m = true /\ 0 <= addr < Z.of_nat (length m).
Proof.
  unfold flat_string. destruct (flat_valid m), (Z.leb_spec 0 addr), (Z.ltb_spec addr (Z.of_nat (length m))); cbn; split; try done; try lia; try (by intros [? ?]).
Qed.

Lemma flat_string_text m addr s : flat_string m addr = Some s -> Forall (fun c => 0 < c < 256) s /\ Z.of_nat (length s) < 2 ^ 31.
Proof.
  intros E. destruct (proj1 (flat_string_Some m addr) ltac:(by eexists)) as [Hv%flat_valid_spec _]. unfold flat_string in E. destruct (_ && _); [|done].
  injection E as <-. split; [apply cstr_text, uN_bytes|]. pose proof (cstr_length (uN 8 <$> drop (Z.to_nat addr) m)) as Hl.
  rewrite length_fmap, length_drop in Hl. lia.
Qed.

Lemma flat_raw_Some m addr n b : flat_raw m addr n = Some b <->
  flat_valid m = true /\ 0 <= addr /\ addr + Z.of_nat n <= Z.of_nat (length m) /\ b = (uN 8 <$> take n (drop (Z.to_nat addr) m)).
Proof.
  unfold flat_raw. destruct (flat_valid m), (Z.leb_spec 0 addr), (Z.leb_spec (addr + Z.of_nat n) (Z.of_nat (length m))); cbn; split; try done; try lia.
  - by intros [= <-].
  - by intros (_ & _ & _ & ->).
Qed.

Lemma flat_raw_string m addr s : Forall (fun c => 0 < c < 256) s -> Z.of_nat (length s) < 2 ^ 31 ->
  flat_raw m addr (S (length s)) = Some (s ++ [0]) -> flat_string m addr = Some s.
Proof.
  intros Hs Hl (Hv & H1 & H2 & E)%flat_raw_Some. unfold flat_string. rewrite Hv, (proj2 (Z.leb_le _ _) H1), (proj2 (Z.ltb_lt _ _)) by lia. cbn [andb].
  rewrite <- (take_drop (S (length s)) (drop (Z.to_nat addr) m)), fmap_app, <- E, <- app_assoc. f_equal. by apply cstr_app.
Qed.

Lemma flat_raw_app m addr n k x : flat_raw m addr (n + k) = Some x <->
  exists y z, x = y ++ z /\ flat_raw m addr n = Some y /\ flat_raw m (addr + Z.of_nat n) k = Some z.
Proof.
  setoid_rewrite flat_raw_Some.
  assert (forall d : flat_memory, uN 8 <$> take (n + k) d = (uN 8 <$> take n d) ++ (uN 8 <$> take k (drop n d))) as Ht
    by (intros d; rewrite <- fmap_app; by rewrite take_take_drop).
  assert (0 <= addr -> drop n (drop (Z.to_nat addr) m) = drop (Z.to_nat (addr + Z.of_nat n)) m) as Hd by (intros; rewrite drop_drop; f_equal; lia).
  split.
  - intros (Hv & H1 & H2 & ->). eexists _, _. split; [apply Ht|]. rewrite (Hd H1). split_and!; try done; lia.
  - intros (y & z & -> & (Hv & H1 & _ & ->) & (_ & _ & H2 & ->)). split_and!; [done|done|lia|]. by rewrite Ht, Hd.
Qed.

Lemma flat_write_Some addr b m m' : flat_write addr b m = Some m' ->
  flat_valid m = true /\ 0 <= addr /\ addr + Z.of_nat (length b) <= Z.of_nat (length m) /\ m' = take (Z.to_nat addr) m ++ b ++ drop (Z.to_nat addr + length b) m.
Proof.
  unfold flat_write. destruct (flat_valid m), (Z.leb_spec 0 addr), (Z.leb_spec (addr + Z.of_nat (length b)) (Z.of_nat (length m))); try done. by intros [= <-].
Qed.

Lemma flat_write_length addr b m m' : flat_write addr b m = Some m' -> length m' = length m.
Proof. intros (_ & H1 & H2 & ->)%flat_write_Some. rewrite !length_app, length_take, length_drop. lia. Qed.

Lemma flat_raw_write m addr b m' : flat_write addr b m = Some m' -> Forall is_byte b -> flat_raw m' addr (length b) = Some b.
Proof.
  intros Hw Hb. pose proof (flat_write_length _ _ _ _ Hw) as El. apply flat_write_Some in Hw as (Hv & H1 & H2 & ->). apply flat_raw_Some.
  split_and!; [unfold flat_valid in *; by rewrite El|done|lia|].
  rewrite drop_app_length' by (rewrite length_take; lia). rewrite take_app_length. symmetry. clear H1 H2 El. induction Hb as [|c b Hc _ IH]; [done|]. cbn.
  rewrite (u_id 8) by done. by f_equal.
Qed.

Lemma flat_write_other m addr b m' addr' n : flat_write addr b m = Some m' ->
  addr' + Z.of_nat n <= addr \/ addr + Z.of_nat (length b) <= addr' -> flat_raw m' addr' n = flat_raw m addr' n.
Proof.
  intros Hw Hd. pose proof (flat_write_length _ _ _ _ Hw) as El. apply flat_write_Some in Hw as (_ & H1 & H2 & Em). unfold flat_raw, flat_valid. rewrite El.
  destruct (_ <? _), (Z.leb_spec 0 addr'), (Z.leb_spec (addr' + Z.of_nat n) (Z.of_nat (length m))); cbn; try done. subst m'. do 2 f_equal. destruct Hd.
  - rewrite drop_app_le by (rewrite length_take; lia). rewrite take_app_le by (rewrite length_drop, length_take; lia).
    rewrite skipn_firstn_comm, take_take. f_equal. lia.
  - rewrite drop_app_ge by (rewrite length_take; lia). rewrite length_take. rewrite drop_app_ge by lia. rewrite drop_drop. do 2 f_equal. lia.
Qed.

Lemma flat_writable m addr n x b : flat_raw m addr n = Some x -> length b = n -> is_Some (flat_write addr b m).
Proof.
  intros (Hv & H1 & H2 & _)%flat_raw_Some <-. unfold flat_write. rewrite Hv, (proj2 (Z.leb_le _ _) H1), (proj2 (Z.leb_le _ _) H2). by eexists.
Qed.

Lemma flat_write_string m addr b m' addr' : flat_write addr b m = Some m' -> is_Some (flat_string m addr') -> is_Some (flat_string m' addr').
Proof. intros Hw. rewrite !flat_string_Some. unfold flat_valid. by rewrite (flat_write_length _ _ _ _ Hw). Qed.

#[export] Instance flat_context : PluginContext flat_memory := {|
  LocalToString := flat_string;
  read_cells := flat_read;
  read_raw := flat_raw;
  write_cells addr cs := flat_write addr (concat (cell_bytes <$> cs));
  write_bytes := flat_write;
  StringToLocal := flat_StringToLocal;
  read_cells_range := flat_read_range;
  read_raw_bytes := flat_raw_bytes;
  read_write_cells := flat_read_write;
  LocalToString_text := flat_string_text;
  raw_string := flat_raw_string;
  raw_app := flat_raw_app;
  raw_write := flat_raw_write;
  raw_write_other := flat_write_other;
  raw_writable := flat_writable;
  write_string := flat_write_string
|}.
