(* ===== verification/NativesScenarios.v ===== *)
(** * The JSON natives in concrete plugins

    Sequences of calls run from the extension's initial state in a flat plugin
    memory: the witnesses of the safety theorems, and the calls that show that
    conditions in [needs] cannot be dropped. *)

From stdpp Require Import base numbers list gmap.
From Stdlib Require Import ZArith Lia.
From S2P Require Import DnsResolver UdpSocket WsConnection Clock TcpSocket LinkedList LockedQueue HeaderMap HttpRequest EventLoop MsgPack Prelude HandleManager HttpState NodePool DataMap DataValue Float Text DataNode DataRefcount DataCopy JsonText JsonParse DataMerge DataHandle DataIterator Natives NativesJson NativesJsonSafe NativesJsonTable NativesLinkedList PluginMemory.

#[local] Instance pool0 : NodeAllocator FixedPool := pool_allocator 0.
#[local] Instance frame0 : Frame := no_frame.

#[local] Notation world := (world (P := FixedPool) (M := flat_memory)).

(** No JSON library and no files: these scenarios do not parse. *)
Definition no_json (_ : bytes) : option od_value := None.
Definition no_file (_ : bytes) : option (Z * bytes) := None.

#[local] Notation table := (g_JsonNatives (P := FixedPool) (M := flat_memory) no_json no_file).

(** The world when the extension is loaded; the plugin's memory holds the
    strings ["k"] at 0 and ["j"] at 4, and buffers of 28 bytes at 8 and 36. *)
Definition world0 : world :=
  mkWorld new_HandleManager ∅ empty_store ([107; 0; 0; 0; 106; 0; 0; 0] ++ replicate 56 0) None false []
    (mkCurlPool [] 0) new_EventLoop ∅ ∅ 0 default_max_elements (InitAnchoredClock 0 0) Tcp.new_TcpLoop Udp.new_UdpLoop Ws.new_WsLoop Dns.new_DnsLoop.

Lemma world0_Inv : Inv [] world0.
Proof.
  split; cbn [world0 hm objects nodes].
  - apply wf_new.
  - intros h x Hx. discriminate Hx.
  - intros h h' x x' Hx. discriminate Hx.
  - intros p [o Ho]. by rewrite lookup_empty in Ho.
  - intros p o Ho. by rewrite lookup_empty in Ho.
  - exact empty_inv.
  - exists ∅. apply http_ok_empty.
Qed.

(** A call by name; the calls of a script in order, with their results. *)
Definition call (name : String.string) (params : list Z) : Natives.N (P := FixedPool) (M := flat_memory) Z :=
  match List.find (fun e => String.eqb e.1 name) table with
  | Some (_, f) => f 1%positive params
  | None => fun _ => BadArg
  end.

Fixpoint calls (cs : list (String.string * list Z)) (w : world) : outcome (P := FixedPool) (M := flat_memory) (list Z) :=
  match cs with
  | [] => Done [] w
  | (name, params) :: cs =>
      match call name params w with
      | Done r w => match calls cs w with Done rs w => Done (r :: rs) w | BadArg => BadArg | UB => UB end
      | BadArg => BadArg
      | UB => UB
      end
  end.

Lemma calls_one name params w rs w' : calls [(name, params)] w = Done rs w' -> exists r, rs = [r] /\ call name params w = Done r w'.
Proof. cbn [calls]. destruct (call name params w) as [r w1| |]; [|discriminate|discriminate]. intros [= <- <-]. by exists r. Qed.

(** What a script ends with: its results, or [None] after undefined behaviour. *)
Inductive verdict := Results (rs : list Z) | Refused | Undefined.
Definition judge (cs : list (String.string * list Z)) : verdict :=
  match calls cs world0 with Done rs _ => Results rs | BadArg => Refused | UB => Undefined end.

(** ** Witnesses *)

(** [new JsonObject] (handle 1). *)
Definition create_object : list (String.string * list Z) := [("async2_JsonCreateObject"%string, [0])].

Lemma world0_room : room world0.
Proof.
  split; cbn [world0 hm nodes objects]; [vm_compute; reflexivity| |]; intros l c Hc; discriminate Hc.
Qed.

Lemma created : exists w, calls create_object world0 = Done [1] w /\
  reach no_json no_file false w /\ room w /\ acyclic (cells (nodes w)).
Proof.
  assert (match calls create_object world0 with
          | Done rs w => rs = [1] /\ size (used_handles_ (hm w)) = 1%nat /\ map_to_list (objects w) = [(2%positive, ODataHandle (Some 128%nat))] /\
              map_to_list (cells (nodes w)) = [(128%nat, mkNode 0 1 (PObject dm_new))]
          | _ => False end) as H by (vm_compute; repeat split).
  destruct (calls create_object world0) as [rs w| |] eqn:E; [|destruct H|destruct H].
  destruct H as (-> & Es & Eo & El). exists w. split; [reflexivity|].
  assert (forall l c, cells (nodes w) !! l = Some c -> c = mkNode 0 1 (PObject dm_new)) as Hc.
  { intros l c Hl. apply elem_of_map_to_list in Hl. rewrite El in Hl. apply list_elem_of_singleton in Hl. congruence. }
  split; [|split].
  - apply (reach_call no_json no_file false world0 "async2_JsonCreateObject"%string Native_JsonCreateObject 1%positive [0] 1 w).
    + apply reach_start, world0_Inv.
    + apply (list_elem_of_lookup_2 _ 3). reflexivity.
    + reflexivity.
    + exact world0_room.
    + exact I.
    + apply calls_one in E as (r & [= <-] & E). exact E.
  - split; [rewrite Es; reflexivity|intros l c Hl%Hc; subst c; reflexivity|].
    intros p l Hp. apply elem_of_map_to_list in Hp. rewrite Eo in Hp. apply list_elem_of_singleton in Hp. discriminate Hp.
  - exists (fun _ => 0%nat). intros p q (c & Hl%Hc & Hq). subst c. simpl in Hq. destruct (not_elem_of_nil _ Hq).
Qed.


Lemma json_natives_no_leak_witness : exists w, calls create_object world0 = Done [1] w /\
  (used_handles_ (hm w) = ∅ -> cells (nodes w) = ∅).
Proof.
  destruct created as (w & E & Hr & _ & Ha). exists w. split; [exact E|].
  exact (proj2 (json_natives_no_leak no_json no_file w Hr Ha)).
Defined.

(** [new LinkedList] (handle 1), as its constructor leaves it. *)
Lemma created_list : exists w, Native_LinkedListCreate (P := FixedPool) (M := flat_memory) 1%positive [0] world0 = Done 1 w /\
  Inv [] w /\ room w /\ holds w 1 [].
Proof.
  pose proof (new_list_keeps [] 1%positive new_LinkedList [] world0 world0_Inv world0_room rep_new) as Hk. unfold wp in Hk.
  assert (match Native_LinkedListCreate (P := FixedPool) (M := flat_memory) 1%positive [0] world0 with
          | Done r w => r = 1 /\ size (used_handles_ (hm w)) = 1%nat /\ map_to_list (objects w) = [(2%positive, OLinkedList new_LinkedList)] /\
              cells (nodes w) = ∅ /\ HandleManager.GetLinkedList 1 (hm w) = Some 2%positive /\
              objects w !! 2%positive = Some (OLinkedList new_LinkedList)
          | _ => False end) as H by (vm_compute; repeat split).
  change (make_handle 1%positive (OLinkedList new_LinkedList) world0)
    with (Native_LinkedListCreate (P := FixedPool) (M := flat_memory) 1%positive [0] world0) in Hk.
  destruct (Native_LinkedListCreate _ _ _) as [r w| |] eqn:E; [|destruct H|destruct H].
  destruct H as (-> & Es & Eo & Ec & Eg & E2). exists w. split_and!; [reflexivity|exact Hk| |].
  - split; [rewrite Es; reflexivity|intros l c Hl; rewrite Ec in Hl; discriminate Hl|].
    intros p l Hp. apply elem_of_map_to_list in Hp. rewrite Eo in Hp. apply list_elem_of_singleton in Hp. injection Hp as _ ->.
    vm_compute. reflexivity.
  - exists 2%positive, new_LinkedList. split_and!; [exact Eg|exact E2|exact rep_new].
Qed.

Lemma list_natives_refine_witness : exists w r w' l',
  Native_LinkedListPushBack (P := FixedPool) (M := flat_memory) 1%positive [2; 1; 7] w = Done (cell r) w' /\
  spec (OPushBack 7) [] r l' /\ holds w' 1 l'.
Proof.
  destruct created_list as (w & _ & Hi & Hroom & Hh). exists w.
  destruct (list_natives_refine [] w 1%positive (OPushBack 7) 1 [] Hi Hroom) as (r & w' & l' & H1 & H2 & H3 & _);
    [unfold s_range; lia|cbn; unfold s_range; lia|exact Hh|].
  exists r, w', l'. split_and!; [exact H1|exact H2|exact H3].
Defined.

(** ** The conditions are needed *)

(** [a = new JsonObject; b = new JsonObject; a.AppendObject(b)] on the natives. *)
Definition append_to_object : list (String.string * list Z) := [
  ("async2_JsonCreateObject"%string, [0]); ("async2_JsonCreateObject"%string, [0]);
  ("async2_JsonArrayAppendObject"%string, [2; 1; 2])].

(** Iterate, remove the key the iterator stands on, read its value. *)
Definition read_removed : list (String.string * list Z) := [
  ("async2_JsonCreateObject"%string, [0]); ("async2_JsonSetInt"%string, [3; 1; 0; 5]);
  ("async2_ObjectIterCreate"%string, [1; 1]); ("async2_IterNext"%string, [3; 2; 8; 28]);
  ("async2_JsonRemoveKey"%string, [2; 1; 0]); ("async2_IterGetInt"%string, [1; 2])].

(** Iterate over one object while another is merged into it. *)
Definition merge_while_iterating : list (String.string * list Z) := [
  ("async2_JsonCreateObject"%string, [0]); ("async2_JsonSetInt"%string, [3; 1; 0; 5]);
  ("async2_ObjectIterCreate"%string, [1; 1]);
  ("async2_JsonCreateObject"%string, [0]); ("async2_JsonSetInt"%string, [3; 3; 4; 6]);
  ("async2_JsonObjectMerge"%string, [3; 1; 3; 0]); ("async2_IterNext"%string, [3; 2; 8; 28])].

(** Three of the conditions on calls cannot be dropped, because the natives do
    not test for them: appending to a handle that is not an array, reading the
    value of an iterator after its key was removed, and advancing an iterator
    after a merge into its container (which, unlike the other changes, does not
    invalidate the iterator) are undefined behaviour. *)
Theorem conditions_needed :
  judge append_to_object = Undefined /\ judge read_removed = Undefined /\ judge merge_while_iterating = Undefined.
Proof. vm_compute. repeat split. Qed.
