(* ===== verification/HttpScenarios.v ===== *)
(** * Requests in concrete runs

    Runs of the whole system from the extension's initial state: the witnesses
    of the theorems about requests, and the runs that show what the conditions
    on callbacks are for. *)

From stdpp Require Import base numbers list gmap.
From Stdlib Require Import ZArith Lia.
From S2P Require Import DnsResolver UdpSocket WsConnection Clock TcpSocket LinkedList LockedQueue HeaderMap HttpRequest EventLoop MsgPack Prelude HandleManager HttpState NodePool DataMap DataValue Float Text DataNode DataRefcount DataCopy JsonText JsonParse DataBuild DataMerge DataHandle DataIterator Natives NativesJson NativesJsonSafe NativesLinkedList NativesJsonTable NativesHttp NativesHttpSafe HttpLoop HttpLoopSafe GameFrame GameFrameSafe System HttpAnswer PluginMemory NativesScenarios.

#[local] Instance pool1 : NodeAllocator FixedPool := pool_allocator 0.

#[local] Notation world := (world (P := FixedPool) (M := flat_memory)).
#[local] Notation N := (N (P := FixedPool) (M := flat_memory)).

(** libcurl gives out handles nobody has; responses have status 200; bodies are
    not compressed; a retry waits 100 ms. *)
Definition next_easy (live : gset positive) : option positive := Some (fresh_addr (gset_to_gmap tt live)).
Definition status_ok (_ : positive) : Z := 200.
Definition no_compression (_ : bytes) : option bytes := None.
Definition delay_100 (_ : HttpRequest) : option Z := Some 100.

Lemma next_easy_fresh live c : next_easy live = Some c -> c ∉ live.
Proof.
  intros [= <-] Hin. pose proof (fresh_addr_None (gset_to_gmap tt live)) as Hn. apply lookup_gset_to_gmap_None in Hn. done.
Qed.

(** The plugin with context 1 has a function 7, which returns at once. *)
Definition functions (ctx : positive) (id : Z) : option (list Z -> N unit) :=
  if bool_decide (ctx = 1%positive /\ id = 7) then Some (fun _ => nret tt) else None.

(** The plugin's memory holds ["GET"] at 0 and ["u"] at 4. *)
Definition http_world : world :=
  mkWorld new_HandleManager ∅ empty_store ([71; 69; 84; 0; 117; 0; 0; 0] ++ replicate 56 0) None false []
    (mkCurlPool [] 0) new_EventLoop ∅ {[1%positive]} 0 default_max_elements (InitAnchoredClock 0 0) Tcp.new_TcpLoop Udp.new_UdpLoop Ws.new_WsLoop Dns.new_DnsLoop.

#[local] Notation table := (natives (P := FixedPool) (M := flat_memory) no_json no_file next_easy).
#[local] Notation event := (event (P := FixedPool) (M := flat_memory)).
#[local] Notation step := (step (P := FixedPool) (M := flat_memory) no_json no_compression status_ok delay_100 functions).
#[local] Notation may := (may (P := FixedPool) (M := flat_memory) no_json no_file next_easy delay_100).
#[local] Notation runs := (runs (P := FixedPool) (M := flat_memory) no_json no_file no_compression next_easy status_ok delay_100 functions).

Definition http_call (name : String.string) (params : list Z) : event :=
  match List.find (fun e => String.eqb e.1 name) table with
  | Some (_, f) => Call name f 1%positive params
  | None => Call name (fun _ _ _ => BadArg) 1%positive params
  end.

Fixpoint run (evs : list event) (FR : Frame) : N Frame :=
  match evs with [] => nret FR | ev :: evs => nbind (step FR ev) (run evs) end.

(** [HttpRequest r = new HttpRequest(); r.Execute("GET", "u", callback);] *)
Definition send : list event := [http_call "async2_HttpNew" [1; 5]; http_call "async2_HttpExecute" [4; 1; 0; 4; 7]].

(** ... the transfer succeeds and the next frame starts the callback. *)
Definition complete : list event := [Add; Message 2 0 200 1; FrameStart; CallbackStart].

Definition faults (evs : list event) : bool := match run evs no_frame http_world with UB => true | _ => false end.

(** ** What callbacks must not do *)


(** A request is closed when its transfer has already ended; its successor, at the
    same address, is sent before the event thread looks at the cancellation. *)
Definition stale : list event :=
  send ++ [Add; Message 2 0 200 1; http_call "async2_HttpClose" [1; 1]; FrameStart; CallbackStart; CallbackEnd;
           http_call "async2_HttpNew" [1; 5]; http_call "async2_HttpExecute" [4; 2; 0; 4; 7]; Add; Cancel].

(** A cancellation can hit another request.  The queue of cancellations holds
    addresses; in the run [stale] the second request, which nobody closed, is
    taken out of libcurl's hands and completed, because it has the address of a
    closed one that was deleted before the event thread read the queue. *)
Theorem stale_cancellation :
  match run stale no_frame http_world with
  | Done _ w => match objects w !! 2%positive with
                | Some (OHttpRequest r) => handle_id r = 2 /\ handle_closed r = false /\ completed r = true /\
                    queue_ (done_queue (g_event_loop w)) = [2%positive] /\ map_to_list (curl_multi_ (g_event_loop w)) = []
                | _ => False
                end
  | _ => False
  end.
Proof. vm_compute. repeat split. Qed.

(** ** Witnesses *)

(** Few handles, no nodes, no lists. *)
Definition small (w : world) : bool :=
  (Nat.ltb (size (used_handles_ (hm w))) 100) && (match map_to_list (cells (nodes w)) with [] => true | _ => false end) &&
  forallb (fun o => match o with OLinkedList _ => false | _ => true end) (map_to_list (objects w)).*2.

Lemma small_cells w : small w = true -> cells (nodes w) = ∅.
Proof.
  unfold small. destruct (map_to_list (cells (nodes w))) eqn:E; [|rewrite andb_false_r; done]. intros _. by apply map_to_list_empty_iff.
Qed.

Lemma small_room w : small w = true -> room w.
Proof.
  intros Hs. pose proof (small_cells w Hs) as Hc. unfold small in Hs. apply andb_prop in Hs as [Hs Hl]. apply andb_prop in Hs as [Hn _].
  apply Nat.ltb_lt in Hn. split; [lia|intros l c; by rewrite Hc|]. intros p l Hp. rewrite forallb_forall in Hl.
  assert (false = true) as [=]. apply (Hl (OLinkedList l)). apply list_elem_of_In, list_elem_of_fmap. exists (p, OLinkedList l).
  by rewrite elem_of_map_to_list.
Qed.

Lemma small_acyclic w : small w = true -> acyclic (cells (nodes w)).
Proof. intros Hs. rewrite (small_cells w Hs). exists (fun _ => 0%nat). intros d l (c & Hc & _). discriminate Hc. Qed.

(** Calls outside a callback, from states that are small. *)
Definition request_natives : list String.string := ["async2_HttpNew"; "async2_HttpExecute"; "async2_HttpClose"]%string.

Fixpoint run_calls (cs : list (String.string * list Z)) (w : world) : option world :=
  match cs with
  | [] => Some w
  | (name, params) :: cs =>
      if small w && existsb (String.eqb name) request_natives then
        match List.find (fun e => String.eqb e.1 name) table with
        | Some (_, f) => match f 1%positive params w with Done _ w => run_calls cs w | _ => None end
        | None => None
        end
      else None
  end.

Lemma request_needs name params (w : world) : existsb (String.eqb name) request_natives = true -> call_ok no_file no_frame name params w.
Proof.
  intros H. apply existsb_exists in H as (n & Hin & Heq). apply String.eqb_eq in Heq. subst n.
  destruct Hin as [<-|[<-|[<-|[]]]].
  all: split_and!; [exact I| |exact I]; first [exact I|intros h p _ _ Hrun; discriminate Hrun].
Qed.

Lemma run_calls_runs cs : forall w w', runs no_frame w -> run_calls cs w = Some w' -> runs no_frame w'.
Proof.
  induction cs as [|[name params] cs IH]; intros w w' Hr Hc; [by injection Hc as <-|]. cbn [run_calls] in Hc.
  destruct (small w && _) eqn:Es; [|done]. apply andb_prop in Es as [Es En]. destruct (List.find _ _) as [[name' f]|] eqn:Ef; [|done].
  apply List.find_some in Ef as [Hin Heq]. apply String.eqb_eq in Heq. cbn in Heq. subst name'.
  destruct (f 1%positive params w) as [x w1| |] eqn:E; [|done|done]. apply (IH w1); [|done].
  apply (runs_step _ _ _ _ _ _ _ no_frame w (Call name f 1%positive params)); [done| |cbn; unfold then_frame, nbind; by rewrite E].
  split_and!; [left; by apply list_elem_of_In|by apply small_room|by apply request_needs].
Qed.

Lemma http_start : runs no_frame http_world.
Proof. apply runs_start. split; try done. Qed.

Definition closed_calls : list (String.string * list Z) :=
  [("async2_HttpNew"%string, [1; 5]); ("async2_HttpExecute"%string, [4; 1; 0; 4; 7]); ("async2_HttpClose"%string, [1; 1])].

(** A state with a request that was closed in flight. *)
Lemma closed_state : exists w r, runs no_frame w /\ small w = true /\ objects w !! 2%positive = Some (OHttpRequest r) /\
  in_event_thread r = true /\ handle_closed r = true /\ plugin_context r = 1%positive /\ callback_id r = 7 /\ handle_id r = 1 /\ userdata r = 5 /\
  g_plugin_contexts w = {[1%positive]} /\ queue_ (cancel_queue (g_event_loop w)) = [2%positive].
Proof.
  assert (match run_calls closed_calls http_world with
          | Some w => match objects w !! 2%positive with
              | Some (OHttpRequest r) => small w = true /\ in_event_thread r = true /\ handle_closed r = true /\ plugin_context r = 1%positive /\
                  callback_id r = 7 /\ handle_id r = 1 /\ userdata r = 5 /\ g_plugin_contexts w = {[1%positive]} /\
                  queue_ (cancel_queue (g_event_loop w)) = [2%positive]
              | _ => False end
          | None => False end) as H by (vm_compute; repeat split).
  destruct (run_calls closed_calls http_world) as [w|] eqn:E; [|destruct H]. destruct (objects w !! 2%positive) as [[| |r| | | |]|] eqn:Eo; try done.
  destruct H as (H1 & H2 & H3 & H4 & H5 & H6 & H7 & H8 & H9). exists w, r. split_and!; try done. by apply (run_calls_runs closed_calls http_world); [apply http_start|].
Qed.


Lemma handles_typed_witness : exists w, runs no_frame w /\
  (forall t h p, get_typed t h (hm w) = Some p -> exists o, objects w !! p = Some o /\ otype o = t).
Proof.
  destruct closed_state as (w & r & Hr & _). exists w. split; [exact Hr|].
  exact (proj1 (handles_typed no_json no_file no_compression next_easy status_ok delay_100 functions next_easy_fresh no_frame w Hr)).
Defined.

Lemma requests_accounted_witness : exists w, runs no_frame w /\ NoDup (in_queues no_frame w).
Proof.
  destruct closed_state as (w & r & Hr & _). exists w. split; [exact Hr|].
  exact (proj1 (requests_accounted no_json no_file no_compression next_easy status_ok delay_100 functions next_easy_fresh no_frame w Hr)).
Defined.


Lemma closed_request_callback_witness : exists w fn w',
  begin_callback no_json functions status_ok 2%positive w = Done (Some (fn, [1; CURLE_ABORTED_BY_CALLBACK; 0; 0; 5])) w'.
Proof.
  destruct closed_state as (w & r & Hr & Hs & Ho & Ht & Hc & Hp & Hcb & Hh & Hu & Hpl & _). exists w.
  destruct (closed_request_callback no_json status_ok functions w 2%positive r (fun _ => nret tt) Ho Hc) as (w' & Hb & _).
  - rewrite Hp, Hpl. apply elem_of_singleton. reflexivity.
  - rewrite Hp, Hcb. reflexivity.
  - exists (fun _ => nret tt), w'. rewrite Hb, Hh, Hu. reflexivity.
Defined.
