(* ===== verification/TextScenarios.v ===== *)
(** * The text natives at work

    A percent encoding as libcurl's, a flat plugin memory, and the theorems about
    texts and query strings applied to them; and what happens when base64 is
    asked of too much. *)

From stdpp Require Import base numbers list gmap.
From Stdlib Require Import ZArith Lia.
From S2P Require Import DnsResolver UdpSocket WsConnection Clock TcpSocket LinkedList LockedQueue MsgPack Prelude HandleManager NodePool DataMap DataValue Float Text DataNode HeaderMap HttpRequest EventLoop HttpState DataRefcount DataCopy JsonText JsonParse DataBuild HjsonScan Hjson HjsonNodes DataHandle DataIterator Natives NativesJson NativesHttp NativesText QueryNodes NativesTextSafe NativesTextFacts QueryText PluginMemory.

(** ** A concrete escaping *)

Definition upper_hex (d : Z) : byte := if d <? 10 then 48 + d else 55 + d.

Definition percent_byte (c : byte) : bytes :=
  if unreserved c then [c] else [37; upper_hex (c / 16); upper_hex (c mod 16)].
Definition percent_encode (s : bytes) : bytes := concat (percent_byte <$> s).

Fixpoint percent_decode (s : bytes) : bytes :=
  match s with
  | 37 :: ((a :: b :: s') as rest) =>
      match hex_value [a; b] with Some v => v :: percent_decode s' | None => 37 :: percent_decode rest end
  | c :: s => c :: percent_decode s
  | [] => []
  end.

Definition percent_env : Env :=
  mkEnv (fun _ => ([], 0)) (fun _ => ([], 0)) (fun _ _ => None) (fun _ _ _ => None) (fun _ => 0)
    (fun s => Some (percent_encode s)) (fun s => Some (percent_decode s)) 0 0 None None 4096 (fun _ => None).

(** A property of all bytes, by trying them. *)
Lemma all_bytes (p : byte -> bool) : forallb (fun i => p (Z.of_nat i)) (seq 0 256) = true -> forall b, is_byte b -> p b = true.
Proof.
  intros H b [Hb1 Hb2]. rewrite forallb_forall in H. specialize (H (Z.to_nat b)). rewrite in_seq, Z2Nat.id in H by lia. apply H. lia.
Qed.

Lemma percent_byte_chars c : is_byte c -> Forall (fun c => unreserved c = true \/ c = 37) (percent_byte c).
Proof.
  intros Hc. pose proof (all_bytes (fun c => forallb (fun x => unreserved x || (x =? 37)) (percent_byte c)) ltac:(vm_compute; reflexivity) c Hc) as H. cbn beta in H.
  rewrite forallb_forall in H. apply Forall_forall. intros x Hx%list_elem_of_In%H. apply orb_prop in Hx as [Hx|Hx%Z.eqb_eq]; auto.
Qed.

Lemma percent_decode_byte c s : is_byte c -> percent_decode (percent_byte c ++ s) = c :: percent_decode s.
Proof.
  intros Hc. unfold percent_byte. destruct (unreserved c) eqn:E.
  - cbn [app]. destruct c as [|q|q]; [done| |done]. repeat (destruct q as [q|q|]; try done).
  - assert (unreserved c || match hex_value [upper_hex (c / 16); upper_hex (c mod 16)] with Some v => v =? c | None => false end = true) as H.
    { apply (all_bytes (fun c => unreserved c || match hex_value [upper_hex (c / 16); upper_hex (c mod 16)] with Some v => v =? c | None => false end)); [|done].
      vm_compute. reflexivity. }
    rewrite E in H. cbn [orb] in H. cbn [app percent_decode]. destruct (hex_value _) as [v|]; [|done]. apply Z.eqb_eq in H as ->. done.
Qed.

Lemma length_percent c : (1 <= length (percent_byte c) <= 3)%nat.
Proof. unfold percent_byte. destruct (unreserved c); cbn; lia. Qed.

Lemma length_encode s : (length s <= length (percent_encode s) <= 3 * length s)%nat.
Proof. unfold percent_encode. induction s as [|c s IH]; [done|]. cbn [fmap list_fmap concat]. rewrite length_app. pose proof (length_percent c). cbn [length]. lia. Qed.

Lemma percent_codec : curl_codec percent_env.
Proof.
  split; cbn [percent_env curl_escape curl_unescape].
  - by eexists.
  - intros s e Hs [= <-]. unfold percent_encode. induction Hs as [|c s Hc _ IH]; [constructor|]. cbn [fmap list_fmap concat].
    apply Forall_app_2; [by apply percent_byte_chars|done].
  - intros s e [= <-]. apply length_encode.
  - intros s e Hs [= <-]. f_equal. unfold percent_encode. induction Hs as [|c s Hc _ IH]; [done|]. cbn [fmap list_fmap concat].
    by rewrite percent_decode_byte, IH.
Qed.

Lemma percent_evp : evp_sizes percent_env.
Proof.
  split; cbn [percent_env EVP_EncodeBlock EVP_DecodeBlock digest hmac]; try done; intros d out n [= <- <-]; cbn [length];
    Z.div_mod_to_equations; lia.
Qed.

(** ** Witnesses *)

Lemma text_ok s : s <> [] -> forallb (fun c => (0 <=? c) && (c <? 256)) s = true -> (length s < 100)%nat -> query_text s.
Proof.
  intros Hn Hb Hl. split_and!; [done| |lia]. rewrite forallb_forall in Hb. apply Forall_forall. intros c Hc%list_elem_of_In%Hb.
  apply andb_prop in Hc as [?%Z.leb_le ?%Z.ltb_lt]. done.
Qed.

Definition some_entries : list (bytes * list bytes) := [(str "q", [str "a b"; str "&="]); (str "[]", [str "1"])].


Lemma query_empty_value_witness : exists fuel,
  query_pairs percent_env (str "a=&b=1") = (str "a", str "&b=1") :: query_loop percent_env fuel (str "b=1") /\ (length (str "b=1") <= fuel)%nat.
Proof.
  apply (query_empty_value percent_env (str "a") (str "a") (str "&b=1") (str "b=1")); [exact percent_codec| |reflexivity..].
  apply text_ok; [done|reflexivity|cbn; lia].
Defined.

#[local] Instance pool0 : NodeAllocator FixedPool := pool_allocator 0.

Lemma query_string_object_witness : exists node m st', query_object percent_env (str "?a=1&b=2&a=3") (empty_store (P := FixedPool)) = Some (Some node, st') /\
  deref node st' = Some (PObject m) /\ member_ok st' [str "1"; str "3"] (dm_map m !! str "a").
Proof.
  destruct (query_string_object percent_env (str "?a=1&b=2&a=3") (empty_store (P := FixedPool)) [] empty_inv) as (node & m & st' & H1 & _ & H2 & H3 & _).
  exists node, m, st'. split_and!; [exact H1|exact H2|exact (H3 (str "a"))].
Defined.

(** The plugin's memory holds ["\xff a"] at 0 and zeros. *)
Definition text_world : world (P := FixedPool) (M := flat_memory) :=
  mkWorld new_HandleManager ∅ empty_store ([255; 32; 97; 0] ++ replicate 60 0) None false []
    (mkCurlPool [] 0) new_EventLoop ∅ ∅ 0 default_max_elements (InitAnchoredClock 0 0) Tcp.new_TcpLoop Udp.new_UdpLoop Ws.new_WsLoop Dns.new_DnsLoop.

Lemma hex_natives_roundtrip_witness : exists m,
  hex_there_and_back 1%positive 0 (Z.of_nat 4) 8 16 32 8 text_world = Done (2 * Z.of_nat 4, Z.of_nat 4) (set_memory m text_world) /\
  read_raw m 32 5 = Some [255; 32; 97; 0; 0].
Proof.
  destruct (hex_natives_roundtrip 1%positive 0 8 32 16 8 4%nat [255; 32; 97; 0] text_world) as (m & H1 & H2 & _).
  - repeat (apply Forall_cons; split); [..|by apply Forall_nil]; unfold s_range; cbn; lia.
  - lia.
  - lia.
  - lia.
  - lia.
  - repeat (apply Forall_cons; split); [..|by apply Forall_nil]; by eexists.
  - vm_compute. reflexivity.
  - by eexists.
  - by eexists.
  - lia.
  - lia.
  - exists m. split; [exact H1|exact H2].
Defined.


(** ** Too much base64 *)

Section Overflow.

Context {MO : DataMap bytes} {MI : DataMap Z} {P : Type} {PA : NodeAllocator P} {M : Type} {PC : PluginContext M}.

(** [Base64Encode] computes the size it needs in [int] without a test.  A length
    from 1610612734 on overflows before the buffer sizes are compared, however
    small the buffers are, while [HexEncode] has the test and returns 0. *)
Theorem base64_encode_overflow (env : Env) (ctx : positive) (a n b maxlen : Z) (w : world (P := P) (M := M)) :
  Forall (s_range 32) [a; n; b; maxlen] -> 1610612734 <= n -> Forall (fun x => is_Some (LocalToString (memory w) x)) [a; b] ->
  Native_Base64Encode env ctx [4; a; n; b; maxlen] w = UB /\ Native_HexEncode ctx [4; a; n; b; maxlen] w = Done 0 w.
Proof.
  intros Hs Hn Hstr. rewrite !Forall_cons in Hs. destruct Hs as (Ha & Hnr & Hb & Hm & _). rewrite !Forall_cons in Hstr. destruct Hstr as ([sa Hsa] & [sb Hsb] & _).
  assert (n < 2 ^ 31) as Hn2 by (unfold s_range in Hnr; cbn in *; lia).
  unfold Native_Base64Encode, Native_HexEncode, nbind, arg.
  rewrite (param_is [4; a; n; b; maxlen] 1 a eq_refl Ha), (param_is [4; a; n; b; maxlen] 2 n eq_refl Hnr), (param_is [4; a; n; b; maxlen] 3 b eq_refl Hb),
    (param_is [4; a; n; b; maxlen] 4 maxlen eq_refl Hm). unfold local_string. rewrite Hsa. destruct (Z.leb_spec n 0); [lia|]. rewrite Hsb. split.
  - unfold int_of. destruct (Z.ltb_spec (n + 2) (2 ^ 31)); [|by rewrite andb_false_r]. rewrite (proj2 (Z.leb_le (- 2 ^ 31) (n + 2))) by lia. cbn [andb].
    assert (2 ^ 31 <= 4 * ((n + 2) / 3)) as Ho by (Z.div_mod_to_equations; lia).
    rewrite (proj2 (Z.ltb_ge (4 * ((n + 2) / 3)) (2 ^ 31)) Ho), andb_false_r. done.
  - destruct (Z.gtb_spec n ((INT_MAX - 1) / 2)) as [_|Hg]; [done|]. change ((INT_MAX - 1) / 2) with 1073741823 in Hg. lia.
Qed.

End Overflow.

Lemma base64_encode_overflow_witness : Native_Base64Encode percent_env 1%positive [4; 0; 1610612734; 8; 20] text_world = UB /\
  Native_HexEncode 1%positive [4; 0; 1610612734; 8; 20] text_world = Done 0 text_world.
Proof.
  apply (base64_encode_overflow percent_env 1%positive 0 1610612734 8 20 text_world); [|lia|].
  - repeat (apply Forall_cons; split); [..|by apply Forall_nil]; unfold s_range; cbn; lia.
  - repeat (apply Forall_cons; split); [..|by apply Forall_nil]; by eexists.
Defined.
