(* ===== verification/TcpScenarios.v ===== *)
(** * TCP in concrete runs

    Runs of TCP from the extension's initial state: the witnesses of the theorems
    about sockets, and the runs that show what the conditions on plugins are
    for. *)

From stdpp Require Import base numbers list gmap.
From Stdlib Require Import ZArith Lia.
From S2P Require Import DnsResolver UdpSocket WsConnection Clock TcpSocket LinkedList LockedQueue HeaderMap HttpRequest EventLoop MsgPack Prelude HandleManager HttpState NodePool DataMap DataValue Float Text DataNode DataRefcount DataCopy JsonText JsonParse DataBuild DataMerge DataHandle DataIterator Natives NativesJson NativesJsonSafe TcpLoop GameFrame GameFrameSafe TcpState TcpSafe TcpSteps TcpSystem PluginMemory NativesScenarios.

Import Tcp.

#[local] Instance pool1 : NodeAllocator FixedPool := pool_allocator 0.

#[local] Notation world := (world (P := FixedPool) (M := flat_memory)).
#[local] Notation N := (N (P := FixedPool) (M := flat_memory)).

(** The plugin with context 1 has a function 7; error texts are empty. *)
Definition has_seven (ctx : positive) (id : Z) : bool := bool_decide (ctx = 1%positive /\ id = 7).
Definition no_text (_ : Z) : bytes := [].

(** The plugin's memory holds ["host"] at 0 and data at 8. *)
Definition tcp_world : world :=
  mkWorld new_HandleManager ∅ empty_store ([104; 111; 115; 116; 0; 0; 0; 0; 1; 2; 3; 4] ++ replicate 52 0) None false []
    (mkCurlPool [] 0) new_EventLoop ∅ {[1%positive]} 0 default_max_elements (InitAnchoredClock 0 0) new_TcpLoop Udp.new_UdpLoop Ws.new_WsLoop Dns.new_DnsLoop.

#[local] Notation tcp_event := (tcp_event (P := FixedPool) (M := flat_memory)).
#[local] Notation tcp_step := (tcp_step (P := FixedPool) (M := flat_memory) has_seven no_text no_text).
#[local] Notation tcp_may := (tcp_may (P := FixedPool) (M := flat_memory)).
#[local] Notation tcp_runs := (tcp_runs (P := FixedPool) (M := flat_memory) has_seven no_text no_text).

Definition tcp_call (name : String.string) (params : list Z) : tcp_event :=
  match List.find (fun e => String.eqb e.1 name) g_TcpNatives with
  | Some (_, f) => TCall name f 1%positive params
  | None => TCall name (fun _ _ _ => BadArg) 1%positive params
  end.

Fixpoint tcp_run (evs : list tcp_event) (F : Frame) : N Frame :=
  match evs with [] => nret F | ev :: evs => nbind (tcp_step F ev) (tcp_run evs) end.

Definition new_socket : list tcp_event := [tcp_call "async2_TcpNew" [1; 5]; tcp_call "async2_TcpSetCallbacks" [5; 1; 7; 7; 7; 7]].
Definition connect : tcp_event := tcp_call "async2_TcpConnect" [3; 1; 0; 80].

(** [connect], which succeeds. *)
Definition connected : list tcp_event := new_socket ++ [connect; TOp 0; TResolved 0 0 0 0; TConnected 2 0].

(** The peer closes the connection. *)
Definition peer_close : list tcp_event := [TRead 2 ReadEof; TClosed 2].

(** The steps complete, and the one after them is undefined. *)
Definition ub_after (evs : list tcp_event) (last : tcp_event) : bool :=
  match tcp_run evs no_frame tcp_world with
  | Done F w => match tcp_step F last w with UB => true | _ => false end
  | _ => false
  end.

(** The plugin connects the socket again in its close callback. *)
Definition reconnect_in_callback : list tcp_event := connected ++ peer_close ++ [TFrame; TDispatch; TDispatched; TDispatch; connect; TDispatched].

(** The plugin binds a socket and connects it; the name of the peer is resolved
    first, then [uv_tcp_bind] fails. *)
Definition bind_race : list tcp_event :=
  new_socket ++ [tcp_call "async2_TcpBind" [3; 1; 0; 0]; connect; TOp 0; TOp 0; TResolved 1 0 0 0; TResolved 0 0 (-22) 0].

(** The plugin listens with a socket it has bound, and closes it. *)
Definition bind_listen : list tcp_event :=
  new_socket ++ [tcp_call "async2_TcpBind" [3; 1; 0; 0]; TOp 0; TResolved 0 0 0 0; tcp_call "async2_TcpListen" [5; 1; 0; 80; 7; 16]; TOp 0; TResolved 0 0 0 0;
                 tcp_call "async2_TcpClose" [1; 1]; TOp 0; TClosed 3; TFrame; TDispatch; TDispatched].

(** What is left after a run: handles, libuv handles, and work. *)
Definition left_over (evs : list tcp_event) : option (nat * nat * nat) :=
  match tcp_run evs no_frame tcp_world with
  | Done F w => Some (size (used_handles_ (hm w)), size (uv_handles (g_tcp w)),
      (length (drained F) + length (queue_ (tcp_op_queue (g_tcp w))) + length (resolving (g_tcp w)) + length (queue_ (socket_done_queue (g_tcp w))))%nat)
  | _ => None
  end.


(** A socket that was never connected, bound or made to listen is not in the
    event loop's table: its close operation is ignored, no close event comes and
    its handle is never freed. *)
Theorem unregistered_close_leaks : left_over (new_socket ++ [tcp_call "async2_TcpClose" [1; 1]; TOp 0]) = Some (1, 0, 0)%nat.
Proof. vm_compute. reflexivity. Qed.

(** ** Witnesses *)

Definition uv_check (w : world) (h : positive) (Q : uv_tcp_t -> bool) : bool := match uv_handles (g_tcp w) !! h with Some u => Q u | None => false end.

Definition idle_check (w : world) (params : list Z) : bool :=
  match param params 1 with
  | None => false
  | Some id =>
      match used_handles_ (hm w) !! id with
      | None => false
      | Some x =>
          match objects w !! pointer x with
          | Some (OTcpSocket s) =>
              bool_decide (state s = CREATED) && negb (handle_closed s) && (length (regs (ops_of id (g_tcp w))) =? 0)%nat && (length (res_of id (g_tcp w)) =? 0)%nat
          | _ => false
          end
      end
  end.

Definition fresh_check (w : world) (params : list Z) : bool :=
  idle_check w params &&
  match param params 1 with
  | Some id =>
      bool_decide (tcp_sockets_ (g_tcp w) !! id = None) &&
      match used_handles_ (hm w) !! id with
      | Some x => match objects w !! pointer x with Some (OTcpSocket s) => bool_decide (uv_handle s = None) | _ => false end
      | None => false
      end
  | None => false
  end.

Definition new_check (w : world) : bool :=
  (size (used_handles_ (hm w)) <? 100)%nat &&
  match scan (S (size (used_handles_ (hm w)))) (used_handles_ (hm w)) (next_handle_ (hm w)) (next_handle_ (hm w)) with
  | Some id => (length (ops_of id (g_tcp w)) =? 0)%nat && (length (res_of id (g_tcp w)) =? 0)%nat
  | None => false
  end.

(** Steps that may happen, decided. *)
Definition may_check (F : Frame) (ev : tcp_event) (w : world) : bool :=
  match ev with
  | TCall name f ctx params =>
      match tcp_need_of name with NoNeed => true | NewHandle => new_check w | IdleSocket => idle_check w params | Unregistered => fresh_check w params end
  | TOp _ => negb (Empty (tcp_op_queue (g_tcp w)))
  | TResolved i _ _ _ => (i <? length (resolving (g_tcp w)))%nat
  | TConnected h status => uv_check w h (fun u => bool_decide (is_Some (uv_connect u)) && bool_decide (uv_closing u = None))
  | TAlloc h | TRead h _ => uv_check w h uv_reading
  | TWritten h _ => uv_check w h (fun u => negb (length (uv_writes u) =? 0)%nat)
  | TClosed h => uv_check w h (fun u => bool_decide (is_Some (uv_closing u)) && bool_decide (uv_connect u = None) && (length (uv_writes u) =? 0)%nat)
  | TConnection h _ _ _ _ => uv_check w h uv_listening
  | TFrame => match F with TcpSystem.mkFrame [] None => true | _ => false end
  | TDispatch => bool_decide (running F = None) && match drained F with e :: _ => bool_decide (e_type e <> TCP_ACCEPTED) || new_check w | [] => true end
  | TDispatched | TLoad _ | TUnload _ => true
  end.

Lemma length_nil {A} (l : list A) : (length l =? 0)%nat = true -> l = [].
Proof. by destruct l. Qed.

Lemma new_check_ok w : new_check w = true -> new_ids w.
Proof.
  unfold new_check, new_ids. intros [Hs Hc]%andb_prop. apply Nat.ltb_lt in Hs. split; [lia|]. intros p ty o id m Hm. unfold HandleManager.CreateHandle in Hm.
  destruct (scan _ _ _ _) as [c|]; [|done]. cbn in Hm. apply andb_prop in Hc as [H1%length_nil H2%length_nil]. destruct (c =? 0) eqn:E; injection Hm as <- <-; [|done].
  apply Z.eqb_eq in E. by subst c.
Qed.

Lemma idle_check_ok params w : idle_check w params = true -> socket_need idle_socket params w.
Proof.
  unfold idle_check. intros Hc id p s Hid [(x & Hx & Hp) Ho]. rewrite Hid, Hx, Hp, Ho in Hc. apply andb_prop in Hc as [Hc H4%length_nil]. apply andb_prop in Hc as [Hc H3%length_nil].
  apply andb_prop in Hc as [H1%bool_decide_eq_true_1 H2%negb_true_iff]. done.
Qed.

Lemma fresh_check_ok params w : fresh_check w params = true -> socket_need unregistered params w.
Proof.
  unfold fresh_check. intros [Hi Hc]%andb_prop id p s Hid Hat. split; [by apply (idle_check_ok params w Hi id p s)|]. destruct Hat as [(x & Hx & Hp) Ho].
  rewrite Hid, Hx, Hp, Ho in Hc. apply andb_prop in Hc as [H1%bool_decide_eq_true_1 H2%bool_decide_eq_true_1]. done.
Qed.

Lemma uv_check_ok w h Q : uv_check w h Q = true -> exists u, uv_handles (g_tcp w) !! h = Some u /\ Q u = true.
Proof. unfold uv_check. destruct (_ !! h) as [u|]; [|done]. by exists u. Qed.

Lemma may_check_ok F ev w : (forall name f ctx params, ev = TCall name f ctx params -> (name, f) ∈ g_TcpNatives) -> may_check F ev w = true -> tcp_may F ev w.
Proof.
  intros Hin Hc. destruct ev; cbn [may_check TcpSystem.tcp_may] in *; try done.
  - split; [by eapply Hin|]. unfold tcp_needs. destruct (tcp_need_of name); cbn in *; [done|by apply new_check_ok|by apply idle_check_ok|by apply fresh_check_ok].
  - unfold Empty in Hc. by destruct (queue_ _).
  - apply Nat.ltb_lt in Hc. by apply lookup_lt_is_Some.
  - apply uv_check_ok in Hc as (u & Hu & [H1%bool_decide_eq_true_1 H2%bool_decide_eq_true_1]%andb_prop). by exists u.
  - by apply uv_check_ok in Hc.
  - by apply uv_check_ok in Hc.
  - apply uv_check_ok in Hc as (u & Hu & Hl). exists u. split; [done|]. by destruct (uv_writes u).
  - apply uv_check_ok in Hc as (u & Hu & Hl). apply andb_prop in Hl as [Hl H3%length_nil]. apply andb_prop in Hl as [H1%bool_decide_eq_true_1 H2%bool_decide_eq_true_1]. by exists u.
  - by apply uv_check_ok in Hc.
  - by destruct F as [[|] [|]].
  - apply andb_prop in Hc as [Hr%bool_decide_eq_true_1 Hd]. split; [done|]. destruct (drained F) as [|e l]; [done|]. intros Hty. apply new_check_ok.
    apply orb_prop in Hd as [Hd%bool_decide_eq_true_1|Hd]; done.
Qed.

(** A run whose steps may happen. *)
Inductive script := SCall (name : String.string) (params : list Z) | SStep (ev : tcp_event).

Definition of_script (c : script) : option tcp_event :=
  match c with
  | SCall name params => match List.find (fun e => String.eqb e.1 name) g_TcpNatives with Some (n, f) => Some (TCall n f 1%positive params) | None => None end
  | SStep (TCall _ _ _ _) => None
  | SStep ev => Some ev
  end.

Fixpoint checked_run (cs : list script) (F : Frame) (w : world) : option (Frame * world) :=
  match cs with
  | [] => Some (F, w)
  | c :: cs =>
      match of_script c with
      | Some ev => if may_check F ev w then match tcp_step F ev w with Done F w => checked_run cs F w | _ => None end else None
      | None => None
      end
  end.

Lemma of_script_may c ev F w : of_script c = Some ev -> may_check F ev w = true -> tcp_may F ev w.
Proof.
  intros Hs Hc. apply may_check_ok; [|done]. intros name f ctx params ->. destruct c as [n ps|ev']; unfold of_script in Hs; [|by destruct ev'].
  destruct (List.find _ _) as [[n' f']|] eqn:E; [|done]. injection Hs as -> -> <- <-. apply List.find_some in E as [Hin _]. by apply list_elem_of_In.
Qed.

Lemma checked_runs cs : forall F w F' w', tcp_runs F w -> checked_run cs F w = Some (F', w') -> tcp_runs F' w'.
Proof.
  induction cs as [|c cs IH]; intros F w F' w' Hr Hc; cbn in Hc; [by injection Hc as <- <-|]. destruct (of_script c) as [ev|] eqn:Es; [|done].
  destruct (may_check F ev w) eqn:Em; [|done]. destruct (tcp_step F ev w) as [F1 w1| |] eqn:Est; [|done|done]. eapply IH; [|exact Hc].
  eapply tcp_runs_step; [exact Hr|by eapply of_script_may|exact Est].
Qed.

Lemma tcp_world_runs : tcp_runs no_frame tcp_world.
Proof. apply tcp_runs_start. by split. Qed.

(** A connection is made, some data goes out and comes in, and the plugin closes it. *)
Definition session : list script :=
  [SCall "async2_TcpNew" [1; 5]; SCall "async2_TcpSetCallbacks" [5; 1; 7; 7; 7; 7]; SCall "async2_TcpSetOption" [3; 1; 0; 2]; SCall "async2_TcpConnect" [3; 1; 0; 80];
   SStep (TOp 0); SStep (TOp 0); SStep (TResolved 0 0 0 0); SStep (TConnected 2 0); SCall "async2_TcpSetOption" [3; 1; 0; 2]; SCall "async2_TcpSend" [3; 1; 8; 4]; SStep (TOp 0); SStep (TOp 0);
   SStep (TAlloc 2); SStep (TRead 2 (ReadData [9; 8; 7])); SStep (TWritten 2 0); SCall "async2_TcpClose" [1; 1]].

Lemma checked cs (Q : Frame -> world -> Prop) : match checked_run cs no_frame tcp_world with Some (F, w) => Q F w | None => False end -> exists F w, tcp_runs F w /\ Q F w.
Proof.
  destruct (checked_run cs no_frame tcp_world) as [[F w]|] eqn:E; [|done]. intros HQ. exists F, w. split; [|exact HQ]. eapply checked_runs; [exact tcp_world_runs|exact E].
Qed.

(** The close operation of the session, and that it may happen. *)
Lemma tcp_safe_witness : exists F (w : world), tcp_runs F w /\ tcp_may F (TOp 0) w /\ tcp_step F (TOp 0) w <> UB.
Proof.
  destruct (checked session (fun F w => may_check F (TOp 0) w = true)) as (F & w & Hr & Hc); [vm_compute; reflexivity|].
  assert (tcp_may F (TOp 0) w) as Hm by (by apply may_check_ok). exists F, w. split; [exact Hr|]. split; [exact Hm|]. by apply (tcp_safe has_seven no_text no_text).
Defined.

(** The session goes on until the close event is being dispatched. *)
Definition farewell : list script :=
  [SStep (TOp 0); SStep (TClosed 2); SStep TFrame; SStep TDispatch; SStep TDispatched; SStep TDispatch; SStep TDispatched; SStep TDispatch; SStep TDispatched; SStep TDispatch].

(** In the callback of the close event, the handle is there with its one close event. *)
Lemma tcp_closed_once_witness : exists F (w : world), tcp_runs F w /\ (e_type <$> running F) = Some TCP_CLOSED /\
  exists s, objects w !! 2%positive = Some (OTcpSocket s) /\ length (closed_of 1 (evs_of (taken_events F) (g_tcp w))) = (if decide (state s = CLOSED) then 1 else 0)%nat.
Proof.
  destruct (checked (session ++ farewell) (fun F w => (e_type <$> running F) = Some TCP_CLOSED /\ (pointer <$> used_handles_ (hm w) !! 1) = Some 2%positive)) as (F & w & Hr & He & Hx);
    [vm_compute; split; reflexivity|].
  exists F, w. split; [exact Hr|]. split; [exact He|]. destruct (tcp_closed_once has_seven no_text no_text F w Hr) as [_ H].
  destruct (used_handles_ (hm w) !! 1) as [x|] eqn:Ex; [|done]. injection Hx as Hp. destruct (H 1 x Ex) as (s & Hs & _ & Hl & _). rewrite Hp in Hs. by exists s.
Defined.

(** A listener takes a connection; the second one it takes while the first has its handle. *)
Definition accepting : list script :=
  [SCall "async2_TcpNew" [1; 5]; SCall "async2_TcpListen" [5; 1; 0; 80; 7; 16]; SStep (TOp 0); SStep (TResolved 0 0 0 0); SStep (TConnection 2 0 0 [] 1);
   SStep TFrame; SStep TDispatch; SStep TDispatched; SStep (TOp 0); SStep (TRead 3 (ReadData [1])); SStep (TConnection 2 0 0 [] 2); SStep (TConnection 2 0 (-1) [] 2); SStep (TClosed 5)].

Lemma tcp_handles_owned_witness : exists F (w : world), tcp_runs F w /\ exists p s h u, accepted_of (evs_of (taken_events F) (g_tcp w)) = [p] /\ objects w !! p = Some (OTcpSocket s) /\
  state s = CONNECTED /\ uv_handle s = Some h /\ uv_handles (g_tcp w) !! h = Some u /\ idle u.
Proof.
  destruct (checked accepting (fun F w => length (accepted_of (evs_of (taken_events F) (g_tcp w))) = 1%nat)) as (F & w & Hr & Hc); [vm_compute; reflexivity|].
  destruct (accepted_of _) as [|p [|]] eqn:Ea; try done. destruct (tcp_handles_owned has_seven no_text no_text F w Hr) as (_ & _ & _ & H).
  destruct (H p) as (s & h & u & Hs); [rewrite Ea; constructor|]. exists F, w. split; [exact Hr|]. exists p, s, h, u. split; [exact Ea|exact Hs].
Defined.

(** Three bytes that arrive in chunks of two. *)
Lemma tcp_read_chunks_witness : exists (w : world) s, objects w !! 2%positive = Some (OTcpSocket s) /\ max_chunk_size s = 2 /\
  exists w', OnTcpRead no_text 2 (ReadData [9; 8; 7]) w = Done tt w' /\ (length (queue_ (socket_done_queue (g_tcp w'))) >= 2)%nat.
Proof.
  destruct (checked session (fun F w => match uv_handles (g_tcp w) !! 2%positive with Some u => uv_data u = 2%positive | None => False end /\
    match objects w !! 2%positive with Some (OTcpSocket s) => max_chunk_size s = 2 | _ => False end /\ (length (queue_ (socket_done_queue (g_tcp w))) >= 2)%nat)) as (F & w & Hr & Hu & Ho & Hl);
    [vm_compute; split; [|split]; [reflexivity|reflexivity|repeat constructor]|].
  destruct (uv_handles (g_tcp w) !! 2%positive) as [u|] eqn:Eu; [|done]. destruct (objects w !! 2%positive) as [[| | | |s| |]|] eqn:Es; try done.
  destruct (tcp_read_chunks no_text w 2 u s [9; 8; 7] Eu) as (q & cs & Hrd & Hq & _); [by rewrite Hu|]. exists w, s. split; [done|]. split; [exact Ho|].
  eexists. split; [exact Hrd|]. cbn [g_tcp set_tcp socket_done_queue set_events]. rewrite Hq, length_app. lia.
Defined.

(** The close operation of the session. *)
Lemma tcp_close_progress_witness : exists F (w w' : world), tcp_runs F w /\ tcp_step F (TOp 0) w = Done F w' /\ closing_or_closed 2%positive w'.
Proof.
  destruct (checked session (fun F w => queue_ (tcp_op_queue (g_tcp w)) = [CLOSE 1] /\ tcp_sockets_ (g_tcp w) !! 1 = Some 2%positive)) as (F & w & Hr & Hq & Ht); [vm_compute; split; reflexivity|].
  destruct (tcp_close_progress has_seven no_text no_text F w Hr) as [H _]. destruct (H 1 2%positive [] 0 Hq Ht) as (w' & Hs & Hc). by exists F, w, w'.
Defined.
