(* ===== verification/UdpScenarios.v ===== *)
(** * UDP in concrete runs

    Runs of UDP from the extension's initial state: the witnesses of the
    theorems, and the runs that show what the condition on plugins is for. *)

From stdpp Require Import base numbers list gmap.
From Stdlib Require Import ZArith Lia.
From S2P Require Import DnsResolver UdpSocket WsConnection Clock TcpSocket LinkedList LockedQueue HeaderMap HttpRequest EventLoop MsgPack Prelude HandleManager HttpState NodePool DataMap DataValue Float Text DataNode DataRefcount DataCopy JsonText JsonParse DataBuild DataMerge DataHandle DataIterator Natives NativesJson NativesJsonSafe UdpLoop UdpState UdpSafe UdpSystem PluginMemory NativesScenarios.

Import Udp.

#[local] Instance udp_pool : NodeAllocator FixedPool := pool_allocator 0.

#[local] Notation world := (world (P := FixedPool) (M := flat_memory)).
#[local] Notation N := (N (P := FixedPool) (M := flat_memory)).

(** The plugin with context 1 has a function 7; error texts are empty. *)
Definition udp_function (ctx : positive) (id : Z) : bool := bool_decide (ctx = 1%positive /\ id = 7).
Definition udp_text (_ : Z) : bytes := [].

(** The plugin's memory holds ["host"] at 0 and data at 8. *)
Definition udp_world : world :=
  mkWorld new_HandleManager ∅ empty_store ([104; 111; 115; 116; 0; 0; 0; 0; 1; 2; 3; 4] ++ replicate 52 0) None false []
    (mkCurlPool [] 0) new_EventLoop ∅ {[1%positive]} 0 default_max_elements (InitAnchoredClock 0 0) Tcp.new_TcpLoop new_UdpLoop Ws.new_WsLoop Dns.new_DnsLoop.

#[local] Notation udp_event := (udp_event (P := FixedPool) (M := flat_memory)).
#[local] Notation udp_step := (udp_step (P := FixedPool) (M := flat_memory) udp_function udp_text udp_text).
#[local] Notation udp_may := (udp_may (P := FixedPool) (M := flat_memory)).
#[local] Notation udp_runs := (udp_runs (P := FixedPool) (M := flat_memory) udp_function udp_text udp_text).

(** A call of a native of the table by the plugin. *)
Definition udp_call (name : String.string) (params : list Z) : udp_event :=
  match List.find (fun e => String.eqb e.1 name) (tail g_UdpNatives) with
  | Some (n, f) => UCall n f 1%positive params
  | None => UNew 1%positive params
  end.

Definition made : list udp_event := [UNew 1%positive [1; 5]; udp_call "async2_UdpSetCallbacks" [4; 1; 7; 7; 7]].
Definition bind : udp_event := udp_call "async2_UdpBind" [3; 1; 0; 0].

Fixpoint udp_run (evs : list udp_event) (F : UdpFrame) : N UdpFrame :=
  match evs with [] => nret F | ev :: evs => nbind (udp_step F ev) (udp_run evs) end.

(** The steps complete, and the one after them is undefined. *)
Definition udp_ub_after (evs : list udp_event) (last : udp_event) : bool :=
  match udp_run evs no_frame udp_world with
  | Done F w => match udp_step F last w with UB => true | _ => false end
  | _ => false
  end.

(** What is left after a run: handles, libuv handles, and work. *)
Definition udp_left (evs : list udp_event) : option (nat * nat * nat) :=
  match udp_run evs no_frame udp_world with
  | Done F w => Some (size (used_handles_ (hm w)), size (uv_handles (g_udp w)),
      (length (drained F) + length (queue_ (udp_op_queue (g_udp w))) + length (resolving (g_udp w)) + length (queue_ (udp_events (g_udp w))))%nat)
  | _ => None
  end.

Definition closing : list udp_event := [udp_call "async2_UdpClose" [1; 1]; UOp].

(** The plugin binds its socket twice and closes it. *)
Definition bound_twice : list udp_event := made ++ [bind; UOp; UResolved 0 0 0 0 []; bind; UOp; UResolved 0 0 0 0 []] ++ closing ++ [UClosed 3; UFrame; UDispatch; UDispatched].

(** [uv_udp_bind] fails, the plugin binds again and closes the socket. *)
Definition bound_again : list udp_event := made ++ [bind; UOp; UResolved 0 0 (-98) 0 []; UFrame; UDispatch; bind; UDispatched; UOp; UResolved 0 0 0 0 []] ++ closing ++ [UClosed 3; UFrame; UDispatch; UDispatched].

(** The condition on plugins is needed.  A plugin that binds its socket twice
    leaves the first libuv handle receiving: after the socket is closed and
    freed, a datagram that arrives there makes [OnUdpRead] use the deleted
    socket.  One that binds again after [uv_udp_bind] has failed leaks the first
    libuv handle: the socket is gone, nothing is left to do and the handle is
    still open.  And a socket that was never bound is not in the event loop's
    table: its close operation is ignored, no close event comes and its handle
    is never freed. *)
Theorem udp_condition_needed : udp_ub_after bound_twice (URead 2 (RecvData [1] [] 9)) = true /\ udp_left bound_again = Some (0, 1, 0)%nat /\
  udp_left (made ++ closing) = Some (1, 0, 0)%nat.
Proof. vm_compute. repeat split. Qed.

(** ** Witnesses *)

Definition uv_holds (w : world) (h : positive) (Q : uv_udp_t -> bool) : bool := match uv_handles (g_udp w) !! h with Some u => Q u | None => false end.

Definition bindable_check (w : world) (params : list Z) : bool :=
  match param params 1 with
  | None => false
  | Some id =>
      match udp_handles (used_handles_ (hm w)) !! id with
      | None => false
      | Some p =>
          match objects w !! p with
          | Some (OUdpSocket s) =>
              bool_decide (state s = CREATED) && bool_decide (uv_handle s = None) && negb (handle_closed s) &&
              forallb (fun o => negb (is_bind o)) (ops_of id (g_udp w)) && (length (binds_of id (g_udp w)) =? 0)%nat
          | _ => false
          end
      end
  end.

Definition ids_check (w : world) : bool :=
  (size (used_handles_ (hm w)) <? 100)%nat &&
  match scan (S (size (used_handles_ (hm w)))) (used_handles_ (hm w)) (next_handle_ (hm w)) (next_handle_ (hm w)) with
  | Some id => (length (ops_of id (g_udp w)) =? 0)%nat && (length (binds_of id (g_udp w)) =? 0)%nat
  | None => false
  end.

(** Steps that may happen, decided. *)
Definition udp_check (F : UdpFrame) (ev : udp_event) (w : world) : bool :=
  match ev with
  | UNew _ _ => ids_check w
  | UCall name f ctx params => negb (bool_decide (name = "async2_UdpBind"%string)) || bindable_check w params
  | UOp => negb (Empty (udp_op_queue (g_udp w)))
  | UResolved i _ _ _ _ => (i <? length (resolving (g_udp w)))%nat
  | URead h _ => uv_holds w h uv_receiving
  | USent h => uv_holds w h (fun u => negb (length (uv_sends u) =? 0)%nat)
  | UClosed h => uv_holds w h (fun u => uv_closing u && (length (uv_sends u) =? 0)%nat)
  | UFrame => match F with UdpSystem.mkFrame [] None => true | _ => false end
  | UDispatch => bool_decide (running F = None)
  | UDispatched | UUnload _ => true
  | UElsewhere _ => false
  end.

Lemma udp_len0 {A} (l : list A) : (length l =? 0)%nat = true -> l = [].
Proof. by destruct l. Qed.

Lemma udp_ids_check_ok l w : ids_check w = true -> new_ids l w.
Proof.
  unfold ids_check, new_ids. intros [Hs Hc]%andb_prop. apply Nat.ltb_lt in Hs. split; [lia|]. intros p ty o id m Hm. unfold HandleManager.CreateHandle in Hm.
  destruct (scan _ _ _ _) as [c|]; [|done]. cbn in Hm. apply andb_prop in Hc as [H1%udp_len0 H2%udp_len0]. destruct (c =? 0) eqn:E; injection Hm as <- <-; [|done].
  apply Z.eqb_eq in E. by subst c.
Qed.

Lemma bindable_check_ok params w : bindable_check w params = true -> bind_need params w.
Proof.
  unfold bindable_check. intros Hc id p s Hid [Hx Ho]. rewrite Hid, Hx, Ho in Hc. apply andb_prop in Hc as [Hc H5%udp_len0]. apply andb_prop in Hc as [Hc H4].
  apply andb_prop in Hc as [Hc H3%negb_true_iff]. apply andb_prop in Hc as [H1%bool_decide_eq_true_1 H2%bool_decide_eq_true_1]. split_and!; [by split|done| |done].
  apply Forall_forall. intros o Ho'. rewrite forallb_forall in H4. apply negb_true_iff, H4. by apply list_elem_of_In.
Qed.

Lemma uv_holds_ok w h Q : uv_holds w h Q = true -> exists u, uv_handles (g_udp w) !! h = Some u /\ Q u = true.
Proof. unfold uv_holds. destruct (_ !! h) as [u|]; [|done]. by exists u. Qed.

Lemma udp_check_ok F ev w : (forall name f ctx params, ev = UCall name f ctx params -> (name, f) ∈ tail g_UdpNatives) -> udp_check F ev w = true -> udp_may F ev w.
Proof.
  intros Hin Hc. destruct ev; cbn [udp_check UdpSystem.udp_may] in *; try done.
  - by apply udp_ids_check_ok.
  - split; [by eapply Hin|]. unfold udp_need. case_bool_decide; [|done]. by apply bindable_check_ok.
  - unfold Empty in Hc. by destruct (queue_ _).
  - apply Nat.ltb_lt in Hc. by apply lookup_lt_is_Some.
  - by apply uv_holds_ok in Hc.
  - apply uv_holds_ok in Hc as (u & Hu & Hl). exists u. split; [done|]. by destruct (uv_sends u).
  - apply uv_holds_ok in Hc as (u & Hu & [H1 H2%udp_len0]%andb_prop). by exists u.
  - by destruct F as [[|] [|]].
  - by apply bool_decide_eq_true_1 in Hc.
Qed.

(** A run whose steps may happen. *)
Inductive udp_script := SCall (name : String.string) (params : list Z) | SStep (ev : udp_event).

Definition of_udp_script (c : udp_script) : option udp_event :=
  match c with
  | SCall name params => match List.find (fun e => String.eqb e.1 name) (tail g_UdpNatives) with Some (n, f) => Some (UCall n f 1%positive params) | None => None end
  | SStep (UCall _ _ _ _) => None
  | SStep ev => Some ev
  end.

Fixpoint udp_checked (cs : list udp_script) (F : UdpFrame) (w : world) : option (UdpFrame * world) :=
  match cs with
  | [] => Some (F, w)
  | c :: cs =>
      match of_udp_script c with
      | Some ev => if udp_check F ev w then match udp_step F ev w with Done F w => udp_checked cs F w | _ => None end else None
      | None => None
      end
  end.

Lemma udp_checked_runs cs : forall F w F' w', udp_runs F w -> udp_checked cs F w = Some (F', w') -> udp_runs F' w'.
Proof.
  induction cs as [|c cs IH]; intros F w F' w' Hr Hc; cbn in Hc; [by injection Hc as <- <-|]. destruct (of_udp_script c) as [ev|] eqn:Es; [|done].
  destruct (udp_check F ev w) eqn:Em; [|done]. destruct (udp_step F ev w) as [F1 w1| |] eqn:Est; [|done|done]. eapply IH; [|exact Hc].
  eapply udp_runs_step; [exact Hr| |exact Est]. apply udp_check_ok; [|done]. intros name f ctx params ->. destruct c as [n ps|ev']; unfold of_udp_script in Es; [|by destruct ev'].
  destruct (List.find _ _) as [[n' f']|] eqn:E; [|done]. injection Es as -> -> <- <-. apply List.find_some in E as [Hin _]. by apply list_elem_of_In.
Qed.

Lemma udp_reached cs (Q : UdpFrame -> world -> Prop) : match udp_checked cs no_frame udp_world with Some (F, w) => Q F w | None => False end -> exists F w, udp_runs F w /\ Q F w.
Proof.
  destruct (udp_checked cs no_frame udp_world) as [[F w]|] eqn:E; [|done]. intros HQ. exists F, w. split; [|exact HQ]. eapply udp_checked_runs; [|exact E].
  apply udp_runs_start. split; [apply wf_new|vm_compute; reflexivity|vm_compute; reflexivity|reflexivity].
Qed.

(** A socket is bound, sends and receives a datagram, and is closed. *)
Definition udp_session : list udp_script :=
  [SStep (UNew 1%positive [1; 5]); SCall "async2_UdpSetCallbacks" [4; 1; 7; 7; 7]; SCall "async2_UdpSetOption" [3; 1; 0; 1]; SCall "async2_UdpSetOption" [3; 1; 2; 4096];
   SCall "async2_UdpBind" [3; 1; 0; 0]; SStep UOp; SStep UOp; SStep (UResolved 0 0 0 0 []); SCall "async2_UdpSend" [5; 1; 8; 4; 0; 53]; SStep UOp; SStep (UResolved 0 0 0 0 [9]);
   SStep (URead 2 (RecvData [6; 5] [49] 53)); SCall "async2_UdpClose" [1; 1]; SStep UOp; SStep (USent 2)].

Lemma udp_safe_witness : exists F (w : world), udp_runs F w /\ udp_may F (UClosed 2) w /\ udp_step F (UClosed 2) w <> UB.
Proof.
  destruct (udp_reached udp_session (fun F w => udp_check F (UClosed 2) w = true)) as (F & w & Hr & Hc); [vm_compute; reflexivity|].
  assert (udp_may F (UClosed 2) w) as Hm by (by apply udp_check_ok). exists F, w. split; [exact Hr|]. split; [exact Hm|]. by apply (udp_safe udp_function udp_text udp_text).
Defined.

(** In the callback of the close event, the handle is there with its one close event. *)
Lemma udp_closed_once_witness : exists F (w : world), udp_runs F w /\ (e_type <$> running F) = Some UDP_CLOSED /\
  exists s, objects w !! 2%positive = Some (OUdpSocket s) /\ length (closed_of 1 (evs_of (taken_events F) (g_udp w))) = (if decide (state s = CLOSED) then 1 else 0)%nat.
Proof.
  destruct (udp_reached (udp_session ++ [SStep (UClosed 2); SStep UFrame; SStep UDispatch; SStep UDispatched; SStep UDispatch])
    (fun F w => (e_type <$> running F) = Some UDP_CLOSED /\ udp_handles (used_handles_ (hm w)) !! 1 = Some 2%positive)) as (F & w & Hr & He & Hx); [vm_compute; split; reflexivity|].
  exists F, w. split; [exact Hr|]. split; [exact He|]. destruct (udp_closed_once udp_function udp_text udp_text F w Hr) as (_ & H & _).
  destruct (H 1 2%positive Hx) as (s & Hs & _ & Hl & _). by exists s.
Defined.
