(* ===== verification/WsScenarios.v ===== *)
(** * WebSockets in concrete runs

    Runs of WebSockets from the extension's initial state: the witnesses of the
    theorems, and the runs that show what the conditions on plugins are for. *)

From stdpp Require Import base numbers list gmap.
From Stdlib Require Import ZArith Lia.
From S2P Require Import DnsResolver UdpSocket WsConnection Clock TcpSocket LinkedList LockedQueue HeaderMap HttpRequest EventLoop MsgPack Prelude HandleManager HttpState NodePool DataMap DataValue Float Text DataNode DataRefcount DataCopy JsonText JsonParse DataBuild DataMerge DataHandle DataIterator Natives NativesJson NativesJsonSafe System WsLoop WsState WsSafe WsRecv NativesWs WsWorld WsSystem WsFacts PluginMemory NativesScenarios.

Import Ws.

#[local] Instance ws_pool : NodeAllocator FixedPool := pool_allocator 0.

#[local] Notation world := (world (P := FixedPool) (M := flat_memory)).
#[local] Notation N := (N (P := FixedPool) (M := flat_memory)).

(** The plugin with context 1 has a function 7; error texts are empty, a
    reconnect takes a second. *)
Definition ws_function (ctx : positive) (id : Z) : bool := bool_decide (ctx = 1%positive /\ id = 7).
Definition ws_text (_ : Z) : bytes := [].
Definition ws_backoff (_ _ _ : Z) : option Z := Some 1000.
Definition ws_iterate (_ : bytes) : option od_value := None.
Definition ws_parse_error (_ : bytes) : bytes := [].

(** The plugin's memory holds ["ws:h"] at 0 and data at 8. *)
Definition ws_world : world :=
  mkWorld new_HandleManager ∅ empty_store ([119; 115; 58; 104; 0; 0; 0; 0; 1; 2; 3; 4] ++ replicate 52 0) None false []
    (mkCurlPool [] 0) new_EventLoop ∅ {[1%positive]} 0 default_max_elements (InitAnchoredClock 0 0) Tcp.new_TcpLoop Udp.new_UdpLoop new_WsLoop Dns.new_DnsLoop.

#[local] Notation ws_event := (ws_event (P := FixedPool) (M := flat_memory)).
#[local] Notation ws_step := (ws_step (P := FixedPool) (M := flat_memory) ws_text ws_text ws_backoff ws_iterate ws_function ws_parse_error).
#[local] Notation ws_may := (ws_may (P := FixedPool) (M := flat_memory) ws_backoff).
#[local] Notation ws_runs := (ws_runs (P := FixedPool) (M := flat_memory) ws_text ws_text ws_backoff ws_iterate ws_function ws_parse_error).

(** A call of a native of the table by the plugin. *)
Definition ws_call (name : String.string) (params : list Z) : ws_event :=
  match List.find (fun e => String.eqb e.1 name) (tail g_WsNatives) with
  | Some (n, f) => WCall n f 1%positive params
  | None => WNew 1%positive params
  end.

Fixpoint ws_run (evs : list ws_event) (F : WsFrame) : N WsFrame :=
  match evs with [] => nret F | ev :: evs => nbind (ws_step F ev) (ws_run evs) end.

(** The steps complete, and the one after them is undefined. *)
Definition ws_ub_after (evs : list ws_event) (last : ws_event) : bool :=
  match ws_run evs WsSystem.no_frame ws_world with
  | Done F w => match ws_step F last w with UB => true | _ => false end
  | _ => false
  end.

(** What is left after a run: handles, and work. *)
Definition ws_left (evs : list ws_event) : option (nat * nat) :=
  match ws_run evs WsSystem.no_frame ws_world with
  | Done F w => Some (size (used_handles_ (hm w)), (length (WsSystem.drained F) + length (queue_ (ws_op_queue (g_ws w))) + length (queue_ (ws_events (g_ws w))) +
      size (timers (g_ws w)) + size (polls (g_ws w)) + size (easies (g_ws w)))%nat)
  | _ => None
  end.

Definition made : list ws_event := [WNew 1%positive [1; 5]; ws_call "async2_WsSetCallbacks" [6; 1; 7; 7; 7; 7; 7]].
Definition connect : ws_event := ws_call "async2_WsConnect" [2; 1; 0].
Definition closing : list ws_event := [ws_call "async2_WsClose" [3; 1; 1000; 4]; WOp None 0].

(** The plugin connects twice and closes before either transfer ends. *)
Definition connected_twice : list ws_event := made ++ [connect; connect; WOp (Some 5%positive) 0; WOp (Some 6%positive) 0] ++ closing ++ [WFrame; WDispatch; WDispatched].

(** A connection is open; the plugin passes it as the data of a message to a
    socket that does not exist. *)
Definition opened : list ws_event := made ++ [connect; WOp (Some 5%positive) 0; WCompleted 5 0 0].

(** The conditions on plugins are needed.  A plugin that connects its
    connection twice and closes it: the first easy handle stays in libcurl, and
    when its transfer ends [CheckCompletedJobs] uses the deleted connection.
    [WsSendJson] with an invalid socket frees whatever handle is given as data:
    an open connection is deleted under the event thread.  A ping interval of
    2147484 seconds overflows an [int] of milliseconds when it is set.  And a
    connection that never was connected is not in the event loop's table: its
    close is ignored, no close event comes and its handle is never freed. *)
Theorem ws_condition_needed : ws_ub_after connected_twice (WCompleted 5 0 0) = true /\ ws_ub_after opened (ws_call "async2_WsSendJson" [2; 99; 1]) = true /\
  ws_ub_after (opened ++ [ws_call "async2_WsSetOption" [3; 1; 2; 2147484]]) (WOp None 0) = true /\ ws_left (made ++ closing) = Some (1, 0)%nat.
Proof. vm_compute. repeat split. Qed.

(** ** Witnesses *)

(** The connection that a native's first parameter names. *)
Definition named (w : world) (params : list Z) (Q : Z -> WsConnection -> bool) : bool :=
  match param params 1 with
  | None => false
  | Some id =>
      match ws_handles (used_handles_ (hm w)) !! id with
      | None => false
      | Some p => match ws_conns (objects w) !! p with Some c => Q id c | None => false end
      end
  end.

Definition connectable_check (w : world) (id : Z) (c : WsConnection) : bool :=
  bool_decide (state c = CREATED) && negb (handle_closed c) && forallb (fun o => negb (is_connect o)) (ops_of id (g_ws w)).

Definition seconds_check (params : list Z) : bool :=
  match param params 2, param params 3 with
  | Some o, Some v => negb ((o =? 2) || (o =? 3) || (o =? 7)) || (v <=? 2147483)
  | _, _ => true
  end.

Definition ids_check (w : world) : bool :=
  (size (used_handles_ (hm w)) <? 100)%nat &&
  match scan (S (size (used_handles_ (hm w)))) (used_handles_ (hm w)) (next_handle_ (hm w)) (next_handle_ (hm w)) with
  | Some id => (length (ops_of id (g_ws w)) =? 0)%nat
  | None => false
  end.

Definition fresh_check (w : world) (easy : option positive) : bool :=
  match easy with Some e => bool_decide (easies (g_ws w) !! e = None) | None => true end.

Definition byte_check (b : Z) : bool := (0 <=? b) && (b <? 256).
Definition recv_check (r : WsRecv) : bool := match r with RecvFrame _ _ data => forallb byte_check data | _ => true end.
Definition op_check (op : WsOp) : bool := match op with SEND SEND_MSGPACK _ _ (Some _) => false | _ => true end.

(** Steps that may happen, decided. *)
Definition ws_check (F : WsFrame) (ev : ws_event) (w : world) : bool :=
  match ev with
  | WNew _ _ => ids_check w
  | WCall name f ctx params =>
      if bool_decide (name = "async2_WsConnect"%string) then named w params (connectable_check w)
      else if bool_decide (name = "async2_WsSetOption"%string) then seconds_check params
      else if bool_decide (name = "async2_WsSetReconnect"%string) then named w params (fun _ c => 0 <=? reconnect_max_delay_ms (with_reconnect params c))
      else negb (bool_decide (name = "async2_WsSendJson"%string) || bool_decide (name = "async2_WsSendMsgPack"%string))
  | WOp easy _ => negb (Empty (ws_op_queue (g_ws w))) && fresh_check w easy && forallb op_check (queue_ (ws_op_queue (g_ws w)))
  | WCompleted easy _ _ => bool_decide (is_Some (easies (g_ws w) !! easy)) && bool_decide (easy ∈ ws_curl_handles_ (g_ws w))
  | WPoll h _ rs _ _ => bool_decide (is_Some (polls (g_ws w) !! h)) && forallb recv_check rs
  | WTimer h easy _ => match timers (g_ws w) !! h with Some _ => fresh_check w easy | None => false end
  | WFrame => match F with WsSystem.mkFrame [] None => true | _ => false end
  | WDispatch => match WsSystem.running F with None => (size (used_handles_ (hm w)) <? 100)%nat | Some _ => false end
  | WDispatched | WUnload _ => true
  | WElsewhere _ => false
  end.

Lemma ws_len0 {A} (l : list A) : (length l =? 0)%nat = true -> l = [].
Proof. by destruct l. Qed.

Lemma ws_ids_check_ok w : ids_check w = true -> new_ids w.
Proof.
  unfold ids_check, new_ids. intros [Hs Hc]%andb_prop. apply Nat.ltb_lt in Hs. split; [lia|]. intros p ty o id m Hm. unfold HandleManager.CreateHandle in Hm.
  destruct (scan _ _ _ _) as [c|]; [|done]. cbn in Hm. apply ws_len0 in Hc. destruct (c =? 0) eqn:E; injection Hm as <- <-; [|done].
  apply Z.eqb_eq in E. by subst c.
Qed.

Lemma named_ok w params Q : named w params Q = true -> forall id p c, param params 1 = Some id -> conn_at w id p c -> Q id c = true.
Proof. unfold named. intros Hc id p c Hid [Hx Ho]. by rewrite Hid, Hx, Ho in Hc. Qed.

Lemma connectable_check_ok w id c : connectable_check w id c = true -> connectable (g_ws w) id c.
Proof.
  unfold connectable_check. intros [[H1%bool_decide_eq_true_1 H2%negb_true_iff]%andb_prop H3]%andb_prop. split_and!; [done|done|]. apply Forall_forall. intros o Ho.
  rewrite forallb_forall in H3. apply negb_true_iff, H3. by apply list_elem_of_In.
Qed.

Lemma ws_fresh_check_ok w easy : fresh_check w easy = true -> forall e, easy = Some e -> easies (g_ws w) !! e = None.
Proof. intros H e ->. by apply bool_decide_eq_true_1 in H. Qed.

Lemma ws_check_ok F ev w : (forall name f ctx params, ev = WCall name f ctx params -> (name, f) ∈ tail g_WsNatives) -> ws_check F ev w = true -> ws_may F ev w.
Proof.
  intros Hin Hc. destruct ev; cbn [ws_check WsSystem.ws_may] in *; try done.
  - by apply ws_ids_check_ok.
  - split; [by eapply Hin|]. unfold ws_need. case_bool_decide; [intros id p c Hid Hat; apply connectable_check_ok; by eapply (named_ok _ _ _ Hc)|].
    case_bool_decide.
    { intros o v Ho Hv Hor. unfold seconds_check in Hc. rewrite Ho, Hv in Hc. apply orb_prop in Hc as [Hc%negb_true_iff|Hc%Z.leb_le]; [|done].
      apply orb_false_iff in Hc as [[?%Z.eqb_neq ?%Z.eqb_neq]%orb_false_iff ?%Z.eqb_neq]. lia. }
    case_bool_decide; [|by destruct (_ || _)]. intros id p c Hid Hat. right. pose proof (named_ok _ _ _ Hc id p c Hid Hat) as Hle. apply Z.leb_le in Hle. split; [done|]. by eexists.
  - apply andb_prop in Hc as [[H1 H2]%andb_prop H3]. split_and!; [unfold Empty in H1; by destruct (queue_ _)|by apply ws_fresh_check_ok|]. apply Forall_forall. intros op Hop.
    rewrite forallb_forall in H3. apply list_elem_of_In, H3 in Hop. by destruct op as [|[] ? ? []| |].
  - by apply andb_prop in Hc as [H1%bool_decide_eq_true_1 H2%bool_decide_eq_true_1].
  - apply andb_prop in Hc as [H1%bool_decide_eq_true_1 H2]. split; [done|]. apply Forall_forall. intros r Hr. rewrite forallb_forall in H2. apply list_elem_of_In, H2 in Hr. destruct r; try done. cbn in Hr |- *.
    apply Forall_forall. intros b Hb. rewrite forallb_forall in Hr. apply list_elem_of_In, Hr in Hb. unfold byte_check in Hb. apply andb_prop in Hb as [?%Z.leb_le ?%Z.ltb_lt]. unfold is_byte. lia.
  - destruct (timers (g_ws w) !! h) eqn:E; [|done]. split; [by eexists|by apply ws_fresh_check_ok].
  - by destruct F as [[|] [|]].
  - destruct (WsSystem.running F); [done|]. apply Nat.ltb_lt in Hc. split; [done|]. lia.
Qed.

(** A run whose steps may happen. *)
Inductive ws_script := SCall (name : String.string) (params : list Z) | SStep (ev : ws_event).

Definition of_ws_script (c : ws_script) : option ws_event :=
  match c with
  | SCall name params => match List.find (fun e => String.eqb e.1 name) (tail g_WsNatives) with Some (n, f) => Some (WCall n f 1%positive params) | None => None end
  | SStep (WCall _ _ _ _) => None
  | SStep ev => Some ev
  end.

Fixpoint ws_checked (cs : list ws_script) (F : WsFrame) (w : world) : option (WsFrame * world) :=
  match cs with
  | [] => Some (F, w)
  | c :: cs =>
      match of_ws_script c with
      | Some ev => if ws_check F ev w then match ws_step F ev w with Done F w => ws_checked cs F w | _ => None end else None
      | None => None
      end
  end.

Lemma ws_checked_runs cs : forall F w F' w', ws_runs F w -> ws_checked cs F w = Some (F', w') -> ws_runs F' w'.
Proof.
  induction cs as [|c cs IH]; intros F w F' w' Hr Hc; cbn in Hc; [by injection Hc as <- <-|]. destruct (of_ws_script c) as [ev|] eqn:Es; [|done].
  destruct (ws_check F ev w) eqn:Em; [|done]. destruct (ws_step F ev w) as [F1 w1| |] eqn:Est; [|done|done]. eapply IH; [|exact Hc].
  eapply ws_runs_step; [exact Hr| |exact Est]. apply ws_check_ok; [|done]. intros name f ctx params ->. destruct c as [n ps|ev']; unfold of_ws_script in Es; [|by destruct ev'].
  destruct (List.find _ _) as [[n' f']|] eqn:E; [|done]. injection Es as -> -> <- <-. apply List.find_some in E as [Hin _]. by apply list_elem_of_In.
Qed.

Lemma ws_world_initial : ws_initial ws_world.
Proof.
  split; [exists HttpState.no_frame, []; apply initial_Inv; split; try reflexivity; apply empty_inv|vm_compute; reflexivity|vm_compute; reflexivity|reflexivity].
Qed.

Lemma ws_reached cs (Q : WsFrame -> world -> Prop) : match ws_checked cs WsSystem.no_frame ws_world with Some (F, w) => Q F w | None => False end -> exists F w, ws_runs F w /\ Q F w.
Proof.
  destruct (ws_checked cs WsSystem.no_frame ws_world) as [[F w]|] eqn:E; [|done]. intros HQ. exists F, w. split; [|exact HQ]. eapply ws_checked_runs; [|exact E].
  apply ws_runs_start, ws_world_initial.
Qed.

(** A connection is configured, connects, loses its connection and reconnects,
    pings, sends and receives a message in two pieces, and is closed. *)
Definition ws_session : list ws_script :=
  [SStep (WNew 1%positive [1; 5]); SCall "async2_WsSetCallbacks" [6; 1; 7; 7; 7; 7; 7]; SCall "async2_WsSetOption" [3; 1; 2; 30]; SCall "async2_WsSetReconnect" [2; 1; 3];
   SCall "async2_WsConnect" [2; 1; 0]; SStep (WOp None 0); SStep (WOp (Some 5%positive) 0); SStep (WCompleted 5 7 3); SStep (WTimer 2 (Some 6%positive) 0); SStep (WCompleted 6 0 0);
   SStep (WTimer 2 None 0); SCall "async2_WsSendText" [3; 1; 8; 4]; SStep (WOp None 0); SStep (WPoll 2 0 [RecvFrame 5 0 [104; 105]; RecvFrame 1 0 [33]; RecvCode 81] 0 0);
   SCall "async2_WsClose" [3; 1; 1000; 4]; SStep (WOp None 0)].

Lemma ws_safe_witness : exists F (w : world), ws_runs F w /\ ws_may F (WTimer 3 None 0) w /\ ws_step F (WTimer 3 None 0) w <> UB.
Proof.
  destruct (ws_reached ws_session (fun F w => ws_check F (WTimer 3 None 0) w = true)) as (F & w & Hr & Hc); [vm_compute; reflexivity|].
  assert (ws_may F (WTimer 3 None 0) w) as Hm by (by apply ws_check_ok). exists F, w. split; [exact Hr|]. split; [exact Hm|]. by apply (ws_safe ws_text ws_text ws_backoff ws_iterate ws_function ws_parse_error).
Defined.

(** The connection that closes has its close timer and its poll. *)
Lemma ws_states_witness : exists F (w : world) c, ws_runs F w /\ objects w !! 2%positive = Some (OWsConnection c) /\ state c = CLOSING /\ phase (g_ws w) c /\
  length (closed_of 1 (evs_of (taken_events F) (g_ws w))) = 0%nat.
Proof.
  destruct (ws_reached ws_session (fun F w => ws_handles (used_handles_ (hm w)) !! 1 = Some 2%positive /\
    (match objects w !! 2%positive with Some (OWsConnection c) => state c | _ => CREATED end) = CLOSING)) as (F & w & Hr & Hx & Hs); [vm_compute; split; reflexivity|].
  destruct (ws_states ws_text ws_text ws_backoff ws_iterate ws_function ws_parse_error F w Hr) as (H & _). destruct (H 1 2%positive Hx) as (c & Ho & _ & Hp & Hl & _).
  rewrite Ho in Hs. exists F, w, c. split; [exact Hr|]. split; [exact Ho|]. split; [exact Hs|]. split; [exact Hp|]. by rewrite decide_False in Hl by (rewrite Hs; discriminate).
Defined.

(** The pieces of a text message, a ping between them, and the start of a binary
    one. *)
Definition pieces : list WsRecv := [RecvFrame 5 0 [104; 105]; RecvFrame 16 0 []; RecvFrame 1 0 [33]; RecvFrame 2 4 [1; 2]].

Lemma ws_messages_witness : exists c' t' es, poll_loop ws_text ws_backoff ws_iterate 0 pieces 0 0 2%positive (new_WsConnection 1%positive 0) new_WsLoop (empty_store (P := FixedPool)) = Some (c', t', empty_store) /\
  omap message_of es = [(false, [104; 105; 33])] /\ queue_ (ws_events t') = [] ++ es /\ received [(2, 4, [1; 2])] c'.
Proof.
  destruct (ws_messages (P := FixedPool) ws_iterate 0 ws_text ws_backoff pieces [] 0 0 2%positive (new_WsConnection 1%positive 0) new_WsLoop empty_store) as (c' & t' & es & E & _ & Hq & Hm & Hr & _).
  - repeat constructor.
  - split; [reflexivity|]. split; [reflexivity|]. cbn. lia.
  - split; [reflexivity|]. intros []. reflexivity.
  - repeat constructor; vm_compute; discriminate.
  - exists c', t', es. split; [exact E|]. split; [exact Hm|]. split; [exact Hq|exact Hr].
Defined.

Lemma close_frame_roundtrip_witness : close_frame (close_payload 1000 [98; 121; 101]) = (1000, [98; 121; 101]).
Proof.
  assert (Forall is_byte [98; 121; 101]) as Hb by (repeat constructor; lia). destruct (close_frame_roundtrip 1000 [98; 121; 101] Hb) as (_ & _ & E). exact E.
Defined.
