(* ===== verification/Shutdown.v ===== *)
(** * [EventLoop::Stop] of [src/event_loop.cpp]: the extension is unloaded

    The event thread has ended; what it left is taken down on the game thread:
    timers, polls and sockets are closed, transfers removed, the resolver shut
    down, libuv runs once more for the callbacks of what was closed, and the
    queues and tables are emptied.  It is one computation on the world, in the
    order of the source. *)

From stdpp Require Import base numbers list gmap.
From Stdlib Require Import ZArith Lia.
From S2P Require Import Clock DnsResolver TcpSocket UdpSocket WsConnection LinkedList LockedQueue MsgPack Prelude HandleManager NodePool DataMap DataValue Float Text DataNode HeaderMap HttpRequest EventLoop HttpState DataRefcount DataCopy JsonText JsonParse DataBuild DataHandle DataIterator Natives NativesJson NativesJsonSafe TcpLoop UdpLoop WsLoop NativesWs NativesDns GameFrame WsState WsSafe WsWorld TcpSystem TcpScenarios WsSystem WsScenarios PluginMemory NativesScenarios.

Section Shutdown.

Context {MO : DataMap bytes} {MI : DataMap Z} {P : Type} {PA : NodeAllocator P} {M : Type} {PC : PluginContext M}.

(** The texts of error codes. *)
Context (uv_strerror ares_strerror : Z -> bytes).

#[local] Notation N := (N (P := P) (M := M)).
#[local] Notation world := (world (P := P) (M := M)).
#[local] Notation "x <- m ;; k" := (nbind m (fun x => k)) (at level 100, m at next level, right associativity).
#[local] Notation "m ;;; k" := (nbind m (fun _ => k)) (at level 100, right associativity).

Definition UV_ECANCELED : Z := -125.

(** ** Closing *)

(** A WebSocket connection of the table: its timers and its poll. *)
Definition stop_ws (e : Z * positive) : N unit :=
  on_conn e.2 (fun c t => let? (c, t) := WsStopTimers c t in stop_poll c t).

(** [uv_close(sock->uv_handle, nullptr)]; the socket forgets the handle. *)
Definition stop_tcp (e : Z * positive) : N unit :=
  s <- load_socket e.2;;
  match Tcp.uv_handle s with
  | None => nret tt
  | Some h => TcpLoop.uv_close h Tcp.CB_null;;; upd_socket e.2 (Tcp.set_uv_handle None)
  end.

Definition stop_udp (e : Z * positive) : N unit :=
  on_socket e.2 (fun s t =>
    match Udp.uv_handle s with
    | None => Some (s, t)
    | Some h => let? t := UdpLoop.uv_close h t in Some (Udp.set_uv_handle None s, t)
    end).

(** The transfers of requests leave the multi handle, the ones that connect a
    WebSocket are destroyed. *)
Definition remove_http : N unit :=
  upd_loop (fun e => set_handles ∅ (set_multi (foldr delete (curl_multi_ e) (elements (http_curl_handles_ e))) e)).

Definition destroy_easy (easy : positive) : N unit := fun w =>
  match easy_cleanup easy (g_ws w) with Some t => Done tt (set_ws t w) | None => UB end.

(** ** The resolver and libuv *)

(** [ares_destroy] answers what was waiting. *)
Fixpoint repeat (n : nat) (m : N unit) : N unit := match n with O => nret tt | S n => m;;; repeat n m end.

Definition shutdown_dns : N unit := fun w =>
  (repeat (length (Tcp.resolving (g_tcp w))) (TcpLoop.OnResolved uv_strerror ares_strerror 0 Dns.ARES_EDESTRUCTION 0 0);;;
   repeat (length (Udp.resolving (g_udp w))) (UdpLoop.OnResolved uv_strerror ares_strerror 0 Dns.ARES_EDESTRUCTION 0 0 []);;;
   upd_resolver (fun r => (Dns.Shutdown r).2)) w.

(** [uv_run]: a handle that is closing gets the callbacks of its requests, which
    are cancelled, and then that of the close. *)
Definition run_tcp (e : positive * Tcp.uv_tcp_t) : N unit :=
  let '(h, u) := e in
  match Tcp.uv_closing u with
  | None => nret tt
  | Some _ =>
      (match Tcp.uv_connect u with Some _ => OnTcpConnected uv_strerror h UV_ECANCELED | None => nret tt end);;;
      for_each (Tcp.uv_writes u) (fun _ => OnTcpWriteDone uv_strerror h UV_ECANCELED);;;
      OnClosed h
  end.

Definition run_udp (e : positive * Udp.uv_udp_t) : N unit :=
  let '(h, u) := e in if Udp.uv_closing u then for_each (Udp.uv_sends u) (fun _ => udp_send_done h) else nret tt.

Definition run_loop : N unit := fun w =>
  (for_each (map_to_list (Tcp.uv_handles (g_tcp w))) run_tcp;;; for_each (map_to_list (Udp.uv_handles (g_udp w))) run_udp) w.

(** ** Queues and tables *)

(** [drain_http_queue]: a request in several queues is deleted once. *)
Fixpoint drain_http (l : list positive) (deleted : gset positive) : N (gset positive) :=
  match l with
  | [] => nret deleted
  | req :: l =>
      if decide (req ∈ deleted) then drain_http l deleted else
      r <- load_request req;; FreeHandle (handle_id r);;; drain_http l ({[req]} ∪ deleted)
  end.

Definition drain_http_queue (get : EventLoop -> LockedQueue positive) (set : LockedQueue positive -> EventLoop -> EventLoop) (deleted : gset positive) : N (gset positive) := fun w =>
  match DrainAll (get (g_event_loop w)) with
  | Some (l, q) => drain_http l deleted (set_loop (set q (g_event_loop w)) w)
  | None => UB
  end.

(** The operations and events that are left are deleted; those of WebSockets
    release their nodes. *)
Definition drop_queues : N unit := fun w =>
  (upd_loop (set_options new_LockedQueue);;;
   upd_tcp (fun t => Tcp.set_events new_LockedQueue (Tcp.set_ops new_LockedQueue t));;;
   upd_udp (fun t => Udp.set_events new_LockedQueue (Udp.set_ops new_LockedQueue t));;;
   for_each (queue_ (Ws.ws_events (g_ws w))) delete_event;;; upd_ws (Ws.set_events new_LockedQueue);;;
   upd_dns (fun d => Dns.mkDnsLoop new_LockedQueue (Dns.dns_resolver_ d));;;
   for_each (queue_ (Ws.ws_op_queue (g_ws w))) (fun op => drop_body (op_body op));;; upd_ws (Ws.set_ops new_LockedQueue)) w.

Definition free_ws (e : Z * positive) : N unit :=
  on_conn e.2 (fun c t => Some (Ws.set_curl None c, t));;; FreeHandle e.1.

Definition free_sockets : N unit := fun w =>
  (for_each (map_to_list (Tcp.tcp_sockets_ (g_tcp w))) (fun e => FreeHandle e.1);;; upd_tcp (Tcp.set_sockets ∅);;;
   for_each (map_to_list (Udp.udp_sockets_ (g_udp w))) (fun e => FreeHandle e.1);;; upd_udp (Udp.set_sockets ∅);;;
   for_each (map_to_list (Ws.ws_connections_ (g_ws w))) free_ws;;; upd_ws (Ws.set_connections ∅)) w.

(** ** Stop *)

Definition close_all : N unit := fun w =>
  (upd_loop (set_timers ∅);;; upd_ws (Ws.set_reconnect_timers ∅);;;
   for_each (map_to_list (Ws.ws_connections_ (g_ws w))) stop_ws;;;
   for_each (map_to_list (Tcp.tcp_sockets_ (g_tcp w))) stop_tcp;;;
   for_each (map_to_list (Udp.udp_sockets_ (g_udp w))) stop_udp;;;
   remove_http;;;
   for_each (elements (Ws.ws_curl_handles_ (g_ws w))) destroy_easy;;; upd_ws (Ws.set_curl_handles ∅)) w.

Definition drain_requests : N unit :=
  deleted <- drain_http_queue pending_queue set_pending ∅;;
  deleted <- drain_http_queue cancel_queue set_cancel deleted;;
  _ <- drain_http_queue done_queue set_done deleted;; nret tt.

Definition Stop : N unit := close_all;;; shutdown_dns;;; run_loop;;; drain_requests;;; drop_queues;;; free_sockets.

End Shutdown.

(** ** What Stop needs and what it leaves *)

Section Stopping.

Context {MO : DataMap bytes} {MI : DataMap Z} {P : Type} {PA : NodeAllocator P} {M : Type} {PC : PluginContext M}.
Context (uv_strerror ares_strerror : Z -> bytes).

#[local] Notation N := (N (P := P) (M := M)).
#[local] Notation world := (world (P := P) (M := M)).
#[local] Notation "x <- m ;; k" := (nbind m (fun x => k)) (at level 100, m at next level, right associativity).
#[local] Notation "m ;;; k" := (nbind m (fun _ => k)) (at level 100, right associativity).
Implicit Types (w : world) (L : list loc).

#[local] Notation used w := (used_handles_ (hm w)).

(** Total triples: the computation completes. *)
Definition ok {A} (m : N A) (Q : A -> world -> Prop) w : Prop := exists a w', m w = Done a w' /\ Q a w'.

Lemma ok_bind {A B} (m : N A) (k : A -> N B) (R : A -> world -> Prop) Q w : ok m R w -> (forall a w', R a w' -> ok (k a) Q w') -> ok (nbind m k) Q w.
Proof. intros (a & w1 & E & HR) Hk. destruct (Hk a w1 HR) as (b & w2 & E2 & HQ). exists b, w2. unfold nbind. by rewrite E. Qed.

Lemma ok_upd (m : N unit) f (Q : unit -> world -> Prop) w : m = (fun w => Done tt (f w)) -> Q tt (f w) -> ok m Q w.
Proof. intros -> HQ. by exists tt, (f w). Qed.

Lemma ok_upd_bind {B} (m : N unit) f (k : unit -> N B) Q w : m = (fun w => Done tt (f w)) -> ok (k tt) Q (f w) -> ok (nbind m k) Q w.
Proof. by intros -> HQ. Qed.

(** A computation that starts by looking at the world. *)
Ltac here d :=
  unfold d; lazymatch goal with |- ok ?f ?Q ?w => let t := eval cbv beta in (f w) in lazymatch t with ?m w => change (ok m Q w) end end.

(** The rule for loops: an invariant of the rest of the list. *)
Lemma ok_for_each {A} (body : A -> N unit) (I : list A -> world -> Prop) l : (forall x l w, I (x :: l) w -> ok (body x) (fun _ => I l) w) ->
  forall w, I l w -> ok (for_each l body) (fun _ => I []) w.
Proof.
  intros Hb. induction l as [|x l IH]; intros w HI; [by exists tt, w|]. cbn [for_each]. apply (ok_bind _ _ (fun _ => I l)); [by apply Hb|]. intros _ w' HI'. by apply IH.
Qed.

Definition kind w (p : positive) : option HandleType := otype <$> objects w !! p.

(** The part of the invariant that does not speak of what is in flight. *)
Record core L w : Prop := {
  O_object : forall h x, used w !! h = Some x -> kind w (pointer x) = Some (type x);
  O_unique : forall h h' x x', used w !! h = Some x -> used w !! h' = Some x' -> pointer x = pointer x' -> h = h';
  O_ok : forall p o, objects w !! p = Some o -> obj_ok o;
  O_heap : inv (nodes w) (world_refs (objects w) ++ L);
  O_self : forall p r, objects w !! p = Some (OHttpRequest r) -> exists x, used w !! handle_id r = Some x /\ pointer x = p
}.

Lemma Inv_core {FR : HttpState.Frame} L w : Inv L w -> core L w.
Proof.
  intros [H1 H2 H3 H4 H5 H6 [pl H7]]. split; try done.
  - intros h x Hx. destruct (H2 h x Hx) as (o & Ho & E). unfold kind. by rewrite Ho, <- E.
  - intros p r Hr%requests_Some. destruct (K_req _ _ _ _ _ _ H7 p r Hr) as (q & _ & Hok). destruct (R_self _ _ _ _ _ Hok) as (x & Hx & Ep & _). by exists x.
Qed.

(** Loops and queues change. *)
Lemma core_same L w w' : core L w -> hm w' = hm w -> objects w' = objects w -> nodes w' = nodes w -> core L w'.
Proof. intros [] E1 E2 E3. unfold kind in *. split; unfold kind; rewrite ?E1, ?E2, ?E3; done. Qed.

(** Members of a socket change. *)
Definition socket_kind (t : HandleType) : Prop := t = HANDLE_TCP_SOCKET \/ t = HANDLE_UDP_SOCKET \/ t = HANDLE_WS_SOCKET.

Lemma kind_insert w p o o' q : objects w !! p = Some o -> otype o' = otype o -> kind (set_objects (<[p := o']> (objects w)) w) q = kind w q.
Proof.
  intros Ho E. unfold kind. cbn. destruct (decide (q = p)) as [->|Hne]; [by rewrite lookup_insert_eq, Ho; cbn; rewrite E|by rewrite lookup_insert_ne].
Qed.

Lemma core_insert L w p o o' : core L w -> objects w !! p = Some o -> otype o' = otype o -> socket_kind (otype o) -> core L (set_objects (<[p := o']> (objects w)) w).
Proof.
  intros [H1 H2 H3 H4 H5] Ho Et Hk. split; [|exact H2| | |]; cbn [hm set_objects objects nodes].
  - intros h x Hx. rewrite (kind_insert w p o) by done. exact (H1 h x Hx).
  - intros q o1 [[<- <-]|[_ Hq]]%lookup_insert_Some; [|by eapply H3]. rewrite <- Et in Hk. destruct o'; cbn in *; try done; by destruct Hk as [?|[?|?]].
  - eapply inv_perm; [|exact H4]. rewrite (world_refs_update _ _ _ o' Ho); [done|]. assert (forall o, socket_kind (otype o) -> obj_refs o = []) as Hr.
    { intros o1 Hk1. destruct o1; cbn in *; try done; by destruct Hk1 as [?|[?|?]]. }
    by rewrite !Hr by (rewrite ?Et; done).
  - intros q r [[<- ->]|[_ Hq]]%lookup_insert_Some; [|by apply H5]. rewrite <- Et in Hk. by destruct Hk as [?|[?|?]].
Qed.

(** [FreeHandle] of a handle in use. *)
Lemma free_core L w h x : core L w -> used w !! h = Some x -> (forall c, objects w !! pointer x = Some (OWsConnection c) -> Ws.curl_handle c = None) ->
  ok (FreeHandle h) (fun _ w' => core L w' /\ used w' = delete h (used w) /\ objects w' = delete (pointer x) (objects w) /\
    g_event_loop w' = g_event_loop w /\ g_tcp w' = g_tcp w /\ g_udp w' = g_udp w /\ g_ws w' = g_ws w /\ g_dns w' = g_dns w) w.
Proof.
  intros Hc Hx Hw. pose proof (O_object _ _ Hc h x Hx) as Hk. unfold kind in Hk. destruct (objects w !! pointer x) as [o|] eqn:Ho; [|done]. cbn in Hk. injection Hk as Et.
  unfold ok, FreeHandle. rewrite Hx, decide_False by (intros E; rewrite E in Et; by destruct o). unfold delete_object. cbn [objects set_hm nodes curls]. rewrite Ho.
  destruct (release_ok o (curls w) (O_ok _ _ Hc _ _ Ho)) as [cs Hcs]; [by intros c ->; apply Hw|]. rewrite Hcs.
  destruct (Decrefs_inv (obj_refs o) (nodes w) (world_refs (delete (pointer x) (objects w)) ++ L)) as (s & -> & Hs & _).
  { eapply inv_perm; [|exact (O_heap _ _ Hc)]. rewrite (world_refs_lookup _ _ _ Ho). by rewrite app_assoc. }
  assert (used_handles_ (HandleManager.FreeHandle h (hm w)) = delete h (used w)) as Eu by (unfold HandleManager.FreeHandle; by rewrite Hx).
  eexists tt, _. split; [done|]. cbn [hm objects nodes set_hm set_objects set_nodes set_curls g_event_loop g_tcp g_udp g_ws g_dns]. split; [|done].
  destruct Hc as [H1 H2 H3 H4 H5]. split; unfold kind in *; cbn [hm objects nodes set_hm set_objects set_nodes set_curls]; rewrite ?Eu.
  - intros h1 x1 [Hne Hx1]%lookup_delete_Some. rewrite lookup_delete_ne; [exact (H1 h1 x1 Hx1)|]. intros Ep. destruct Hne. by eapply H2.
  - intros h1 h2 x1 x2 [_ Hx1]%lookup_delete_Some [_ Hx2]%lookup_delete_Some. by apply H2.
  - intros q o1 [_ Hq]%lookup_delete_Some. by eapply H3.
  - exact Hs.
  - intros q r [Hq Hr]%lookup_delete_Some. destruct (H5 q r Hr) as (y & Hy & Ep). exists y. split; [|done]. rewrite lookup_delete_ne; [done|]. intros ->. congruence.
Qed.

(** What stays away stays away, and handles of other types stay. *)
Definition in_flight_type (t : HandleType) : Prop := socket_kind t \/ t = HANDLE_HTTP_REQUEST.
Record later w w' : Prop := {
  Y_handles : forall h, used w !! h = None -> used w' !! h = None;
  Y_objects : forall p, objects w !! p = None -> objects w' !! p = None;
  Y_others : forall h x, used w !! h = Some x -> ~ in_flight_type (type x) -> used w' !! h = Some x
}.

Lemma later_refl w : later w w.
Proof. by split. Qed.
Lemma later_trans w1 w2 w3 : later w1 w2 -> later w2 w3 -> later w1 w3.
Proof. intros [A1 A2 A3] [B1 B2 B3]. split; eauto. Qed.
Lemma later_same w w' : hm w' = hm w -> objects w' = objects w -> later w w'.
Proof. intros E1 E2. split; by rewrite ?E1, ?E2. Qed.
Lemma later_insert w w' p o o' : objects w !! p = Some o -> hm w' = hm w -> objects w' = <[p := o']> (objects w) -> later w w'.
Proof. intros Ho E1 E2. split; rewrite ?E1, ?E2; try done. intros q Hq. rewrite lookup_insert_ne; [done|]. intros <-. congruence. Qed.
Lemma later_free w w' h x : used w !! h = Some x -> in_flight_type (type x) -> used w' = delete h (used w) -> objects w' = delete (pointer x) (objects w) -> later w w'.
Proof.
  intros Hx Ht E1 E2. split; rewrite ?E1, ?E2.
  - intros h' Hh'. by apply lookup_delete_None; right.
  - intros p Hp. by apply lookup_delete_None; right.
  - intros h' x' Hx' Hn. rewrite lookup_delete_ne; [done|]. intros <-. congruence.
Qed.

(** The entries of a table that are left to do: each names a handle in use of
    the type. *)
Record owns (t : HandleType) (l : list (Z * positive)) w : Prop := {
  Z_nodup : NoDup l.*1;
  Z_owns : forall id p, (id, p) ∈ l -> exists x, used w !! id = Some x /\ pointer x = p /\ type x = t
}.

Lemma owns_same t l w w' : owns t l w -> used w' = used w -> owns t l w'.
Proof. intros [] E. split; [done|]. by rewrite E. Qed.

Lemma owns_nil t w : owns t [] w.
Proof. split; [constructor|]. by intros ? ? ?%not_elem_of_nil. Qed.

Lemma owns_kind L t l w id p : core L w -> owns t l w -> (id, p) ∈ l -> kind w p = Some t.
Proof. intros Hc Ho Hin. destruct (Z_owns _ _ _ Ho id p Hin) as (x & Hx & <- & <-). by eapply O_object. Qed.

Lemma owns_tail t e l w : owns t (e :: l) w -> owns t l w.
Proof. intros [H1 H2]. split; [by apply NoDup_cons in H1 as [_ ?]|]. intros id p Hin. apply H2. by right. Qed.

(** Another handle was freed. *)
Lemma owns_free t l w w' h : owns t l w -> (forall x, used w !! h = Some x -> type x <> t) -> used w' = delete h (used w) -> owns t l w'.
Proof.
  intros [H1 H2] Ht E. split; [done|]. intros id p Hin. destruct (H2 id p Hin) as (x & Hx & Hp & Hty). exists x. rewrite E, lookup_delete_ne; [done|].
  intros ->. by apply (Ht x Hx).
Qed.

Lemma owns_next t id p l w w' : owns t ((id, p) :: l) w -> used w' = delete id (used w) -> owns t l w'.
Proof.
  intros [H1 H2] E. cbn in H1. apply NoDup_cons in H1 as [Hn H1]. split; [done|]. intros id' p' Hin. destruct (H2 id' p') as (x & Hx & Hp & Hty); [by right|]. exists x.
  rewrite E, lookup_delete_ne; [done|]. intros ->. apply Hn. apply list_elem_of_fmap. by exists (id', p').
Qed.

(** Two entries of a table name two objects. *)
Lemma owns_distinct L t id p id' p' l w : core L w -> owns t ((id, p) :: l) w -> (id', p') ∈ l -> p' <> p.
Proof.
  intros Hc [H1 H2] Hin ->. cbn in H1. apply NoDup_cons in H1 as [Hn _]. destruct (H2 id p) as (x & Hx & Hp & _); [by left|]. destruct (H2 id' p) as (y & Hy & Hq & _); [by right|].
  assert (id' = id) as -> by (eapply O_unique; [exact Hc|exact Hy|exact Hx|congruence]). apply Hn, list_elem_of_fmap. by exists (id, p).
Qed.

(** *** What holds all along *)

(** A handle that is not closing, or is closed by [Stop]; no request of it is
    under way. *)
Definition quiet (u : Tcp.uv_tcp_t) : Prop := Tcp.uv_connect u = None /\ Tcp.uv_writes u = [] /\ (Tcp.uv_closing u = None \/ Tcp.uv_closing u = Some Tcp.CB_null).

Definition queued w : list positive := queue_ (pending_queue (g_event_loop w)) ++ queue_ (cancel_queue (g_event_loop w)) ++ queue_ (done_queue (g_event_loop w)).

Definition tables w : gmap Z positive * gmap Z positive * gmap Z positive := (Tcp.tcp_sockets_ (g_tcp w), Udp.udp_sockets_ (g_udp w), Ws.ws_connections_ (g_ws w)).

Record calm L w0 w : Prop := {
  A_core : core (refs [] (g_ws w) ++ L) w;
  A_tcp : owns HANDLE_TCP_SOCKET (map_to_list (Tcp.tcp_sockets_ (g_tcp w))) w;
  A_udp : owns HANDLE_UDP_SOCKET (map_to_list (Udp.udp_sockets_ (g_udp w))) w;
  A_ws : owns HANDLE_WS_SOCKET (map_to_list (Ws.ws_connections_ (g_ws w))) w;
  A_later : later w0 w;
  A_quiet : forall h u, Tcp.uv_handles (g_tcp w) !! h = Some u -> quiet u;
  A_requests : forall q, q ∈ queued w -> kind w q = Some HANDLE_HTTP_REQUEST;
  A_queued : queued w = queued w0;
  A_tables : tables w = tables w0
}.

(** The same objects but for members of one socket. *)
Definition touched w w' : Prop :=
  objects w' = objects w \/ exists p o o', objects w !! p = Some o /\ otype o' = otype o /\ socket_kind (otype o) /\ objects w' = <[p := o']> (objects w).

Lemma kind_touched w w' q : touched w w' -> kind w' q = kind w q.
Proof.
  intros [E|(p & o & o' & Ho & Et & _ & E)]; unfold kind; rewrite E; [done|]. destruct (decide (q = p)) as [->|Hne]; [by rewrite lookup_insert_eq, Ho; cbn; rewrite Et|by rewrite lookup_insert_ne].
Qed.

Lemma later_touched w w' : touched w w' -> hm w' = hm w -> later w w'.
Proof. intros [E|(p & o & o' & Ho & _ & _ & E)] Eh; [by apply later_same|by eapply later_insert]. Qed.

Lemma core_touched L w w' : core L w -> touched w w' -> hm w' = hm w -> nodes w' = nodes w -> core L w'.
Proof.
  intros Hc [E|(p & o & o' & Ho & Et & Hk & E)] Eh En; [by eapply core_same|]. eapply (core_same L (set_objects (<[p := o']> (objects w)) w)); [by eapply core_insert|done..].
Qed.

Lemma calm_step L w0 w w' : calm L w0 w -> touched w w' -> hm w' = hm w -> nodes w' = nodes w -> queued w' = queued w ->
  Tcp.tcp_sockets_ (g_tcp w') = Tcp.tcp_sockets_ (g_tcp w) -> Udp.udp_sockets_ (g_udp w') = Udp.udp_sockets_ (g_udp w) -> Ws.ws_connections_ (g_ws w') = Ws.ws_connections_ (g_ws w) ->
  refs [] (g_ws w') = refs [] (g_ws w) -> (forall h u, Tcp.uv_handles (g_tcp w') !! h = Some u -> quiet u) -> calm L w0 w'.
Proof.
  intros [H1 H2 H3 H4 H5 H6 H7 H8 H9] Ht Eh En Eq E1 E2 E3 Er Hq. split; rewrite ?E1, ?E2, ?E3, ?Er, ?Eq; [|by eapply owns_same; [|by rewrite Eh]..| |exact Hq| |done|by rewrite <- H9; unfold tables; rewrite E1, E2, E3].
  - by eapply core_touched.
  - eapply later_trans; [exact H5|]. by apply later_touched.
  - intros q Hin. rewrite (kind_touched w w') by done. by apply H7.
Qed.

(** *** Closing *)

Record closing L w0 (lw lt lu : list (Z * positive)) (le : list positive) w : Prop := {
  G_calm : calm L w0 w;
  G_ws : owns HANDLE_WS_SOCKET lw w;
  G_linked : forall id p, (id, p) ∈ lw -> exists c, objects w !! p = Some (OWsConnection c) /\ linked p c (g_ws w);
  G_tcp : owns HANDLE_TCP_SOCKET lt w;
  G_open : forall id p, (id, p) ∈ lt -> exists s, objects w !! p = Some (OTcpSocket s) /\
    forall h, Tcp.uv_handle s = Some h -> exists u, Tcp.uv_handles (g_tcp w) !! h = Some u /\ Tcp.uv_data u = p /\ Tcp.uv_closing u = None;
  G_udp : owns HANDLE_UDP_SOCKET lu w;
  G_uopen : forall id p, (id, p) ∈ lu -> exists s, objects w !! p = Some (OUdpSocket s) /\
    forall h, Udp.uv_handle s = Some h -> exists u, Udp.uv_handles (g_udp w) !! h = Some u /\ Udp.uv_data u = p /\ Udp.uv_closing u = false;
  G_nodup : NoDup le;
  G_easy : forall e, e ∈ le -> is_Some (Ws.easies (g_ws w) !! e)
}.

Lemma stop_timer_easies h t t' : stop_timer h t = Some t' -> Ws.easies t' = Ws.easies t.
Proof. unfold stop_timer. destruct (Ws.timers t !! h); cbn; [|done]. by intros [= <-]. Qed.

Lemma stop_links p c t : linked p c t -> exists c' t', (let? (c, t) := WsStopTimers c t in stop_poll c t) = Some (c', t') /\ rstep p t t' /\ Ws.easies t' = Ws.easies t.
Proof.
  intros Hl. destruct (stop_timers_spec p c t Hl) as (t1 & E1 & R1 & L1). destruct (stop_poll_spec p _ t1 L1) as (t2 & E2 & R2 & _). exists (Ws.set_poll None (without_timers c)), t2.
  rewrite E1. cbn [mbind option_bind]. split; [done|]. split; [by eapply rstep_trans|]. transitivity (Ws.easies t1).
  - unfold stop_poll in E2. destruct (Ws.uv_poll _); [|congruence]. destruct (Ws.polls t1 !! p0); cbn in E2; by simplify_eq.
  - unfold WsStopTimers in E1. apply bind_Some in E1 as ([c1 t3] & F1 & E1). apply bind_Some in E1 as ([c2 t4] & F2 & E1).
    unfold stop_close_timer in F1. unfold stop_ping_timer in F2. unfold stop_reconnect_timer in E1.
    transitivity (Ws.easies t4); [|transitivity (Ws.easies t3)].
    + destruct (Ws.reconnect_timer_ c2); [|congruence]. apply bind_Some in E1 as (t5 & F%stop_timer_easies & E1). cbn in F. congruence.
    + destruct (Ws.ping_timer_ c1); [|congruence]. apply bind_Some in F2 as (t5 & F%stop_timer_easies & E). congruence.
    + destruct (Ws.close_timer_ c); [|congruence]. apply bind_Some in F1 as (t5 & F%stop_timer_easies & E). congruence.
Qed.

Lemma linked_elsewhere p q c t t' : rstep p t t' -> q <> p -> linked q c t -> linked q c t'.
Proof.
  intros [_ _ _ R4 R5 R6 _] Hq [L1 L2 L3 L4]. split.
  - intros k h Hk. destruct (L1 k h Hk) as (x & Hx & Ek & Ed). exists x. split; [|done]. apply R4; congruence.
  - intros h x Hx Ed. apply L2; [|done]. apply R4; congruence.
  - intros h. by rewrite L3, R5.
  - intros e. by rewrite L4, R6.
Qed.

Lemma refs_rstep p t t' : rstep p t t' -> refs [] t' = refs [] t.
Proof. intros [E1 E2 _ _ _ _ _]. unfold refs, evs_of. by rewrite E1, E2. Qed.

(** What a loop over one table does to what the others need. *)
Ltac elsewhere H :=
  let id' := fresh "id'" in let p' := fresh "p'" in let Hin := fresh "Hin" in let s := fresh "s" in let Hs := fresh "Hs" in let Hu := fresh "Hu" in
  intros id' p' Hin; destruct (H id' p' Hin) as (s & Hs & Hu); exists s; rewrite lookup_insert_ne by congruence; done.

Lemma stop_ws_ok L w0 lt lu le e lw w : closing L w0 (e :: lw) lt lu le w -> ok (stop_ws e) (fun _ => closing L w0 lw lt lu le) w.
Proof.
  destruct e as [id p]. intros [H1 H2 H3 H4 H5 H6 H7 H8 H9]. destruct (H3 id p) as (c & Hc & Hl); [by left|]. destruct (stop_links p c (g_ws w) Hl) as (c' & t' & E & Hr & Ee).
  unfold ok, stop_ws, on_conn, on_conn_heap. cbn [snd]. rewrite Hc, E. cbn [mbind option_bind]. eexists tt, _. split; [done|].
  split; cbn [g_tcp g_udp g_ws objects hm nodes set_nodes set_ws set_objects]; try done.
  - apply (calm_step L w0 w); try done; cbn.
    + right. exists p, (OWsConnection c), (OWsConnection c'). split_and!; [done|done|by right; right|done].
    + by rewrite (R_table _ _ _ Hr).
    + by apply refs_rstep with p.
    + apply (A_quiet _ _ _ H1).
  - by eapply owns_tail, owns_same.
  - intros id' p' Hin. assert (p' <> p) by (eapply owns_distinct; [apply (A_core _ _ _ H1)|exact H2|exact Hin]). destruct (H3 id' p') as (c1 & Hc1 & Hl1); [by right|].
    exists c1. rewrite lookup_insert_ne by done. split; [done|]. by eapply linked_elsewhere.
  - by eapply owns_same.
  - elsewhere H5.
  - by eapply owns_same.
  - elsewhere H7.
  - by rewrite Ee.
Qed.

Lemma stop_tcp_ok L w0 lw lu le e lt w : closing L w0 lw (e :: lt) lu le w -> ok (stop_tcp e) (fun _ => closing L w0 lw lt lu le) w.
Proof.
  destruct e as [id p]. intros [H1 H2 H3 H4 H5 H6 H7 H8 H9]. destruct (H5 id p) as (s & Hs & Ho); [by left|]. unfold ok, stop_tcp, nbind at 1, load_socket at 1. cbn [snd]. rewrite Hs.
  destruct (Tcp.uv_handle s) as [h|] eqn:Eh.
  2:{ eexists tt, w. split; [done|]. split; try done; [by eapply owns_tail|]. intros id' p' Hin. apply (H5 id' p'). by right. }
  destruct (Ho h eq_refl) as (u & Hu & Ed & Ec). unfold TcpLoop.uv_close, TcpLoop.uv_open, TcpLoop.uv_get, TcpLoop.uv_put, upd_tcp, upd_socket, load_socket, store_object, nbind. rewrite Hu, Ec.
  cbn [nret set_tcp objects]. rewrite Hs. eexists tt, _. split; [done|].
  split; cbn [g_tcp g_udp g_ws objects hm nodes set_tcp set_objects]; try done.
  - apply (calm_step L w0 w); try done; cbn.
    + right. exists p, (OTcpSocket s), (OTcpSocket (Tcp.set_uv_handle None s)). split_and!; [done|done|by left|done].
    + intros h' u' [[<- <-]|[_ Hu']]%lookup_insert_Some; [|by eapply A_quiet]. destruct (A_quiet _ _ _ H1 h u Hu) as (Q1 & Q2 & _). split_and!; [done|done|by right].
  - by eapply owns_same.
  - elsewhere H3.
  - by eapply owns_tail, owns_same.
  - intros id' p' Hin. assert (p' <> p) by (eapply owns_distinct; [apply (A_core _ _ _ H1)|exact H4|exact Hin]). destruct (H5 id' p') as (s1 & Hs1 & Ho1); [by right|].
    exists s1. rewrite lookup_insert_ne by done. split; [done|]. intros h' Hh'. destruct (Ho1 h' Hh') as (u' & Hu' & Ed' & Ec'). exists u'. cbn. rewrite lookup_insert_ne; [done|]. intros <-. congruence.
  - by eapply owns_same.
  - elsewhere H7.
Qed.

Lemma stop_udp_ok L w0 lw lt le e lu w : closing L w0 lw lt (e :: lu) le w -> ok (stop_udp e) (fun _ => closing L w0 lw lt lu le) w.
Proof.
  destruct e as [id p]. intros [H1 H2 H3 H4 H5 H6 H7 H8 H9]. destruct (H7 id p) as (s & Hs & Ho); [by left|].
  assert (exists s' t, match Udp.uv_handle s with None => Some (s, g_udp w) | Some h => let? t := UdpLoop.uv_close h (g_udp w) in Some (Udp.set_uv_handle None s, t) end = Some (s', t) /\
    Udp.udp_sockets_ t = Udp.udp_sockets_ (g_udp w) /\ forall h u, Udp.uv_data u <> p -> Udp.uv_handles (g_udp w) !! h = Some u -> Udp.uv_handles t !! h = Some u) as (s' & t & E & Et & Hk).
  { destruct (Udp.uv_handle s) as [h|]; [|by exists s, (g_udp w)]. destruct (Ho h eq_refl) as (u & Hu & Ed & Ec). unfold UdpLoop.uv_close, UdpLoop.uv_open. rewrite Hu. cbn [mbind option_bind]. rewrite Ec.
    cbn. eexists _, _. split; [done|]. split; [done|]. intros h' u' Hd Hu'. cbn. rewrite lookup_insert_ne; [done|]. intros <-. congruence. }
  unfold ok, stop_udp, on_socket. cbn [snd]. rewrite Hs, E. eexists tt, _. split; [done|].
  split; cbn [g_tcp g_udp g_ws objects hm nodes set_udp set_objects]; try done.
  - apply (calm_step L w0 w); try done; cbn; [|apply (A_quiet _ _ _ H1)].
    right. exists p, (OUdpSocket s), (OUdpSocket s'). split_and!; [done|done|by right; left|done].
  - by eapply owns_same.
  - elsewhere H3.
  - by eapply owns_same.
  - elsewhere H5.
  - by eapply owns_tail, owns_same.
  - intros id' p' Hin. assert (p' <> p) by (eapply owns_distinct; [apply (A_core _ _ _ H1)|exact H6|exact Hin]). destruct (H7 id' p') as (s1 & Hs1 & Ho1); [by right|].
    exists s1. rewrite lookup_insert_ne by done. split; [done|]. intros h' Hh'. destruct (Ho1 h' Hh') as (u' & Hu' & Ed' & Ec'). exists u'. split; [|done]. apply Hk; [congruence|done].
Qed.

Lemma destroy_easy_ok L w0 e le w : closing L w0 [] [] [] (e :: le) w -> ok (destroy_easy e) (fun _ => closing L w0 [] [] [] le) w.
Proof.
  intros [H1 H2 H3 H4 H5 H6 H7 H8 H9]. apply NoDup_cons in H8 as [Hn H8]. destruct (H9 e) as [p Hp]; [by left|]. unfold ok, destroy_easy, easy_cleanup. rewrite Hp. cbn [mbind option_bind].
  eexists tt, _. split; [done|]. split; [|apply owns_nil|by intros ? ? ?%not_elem_of_nil|apply owns_nil|by intros ? ? ?%not_elem_of_nil|apply owns_nil|by intros ? ? ?%not_elem_of_nil|exact H8|].
  - apply (calm_step L w0 w); try done; [by left|apply (A_quiet _ _ _ H1)].
  - intros e' Hin. cbn. rewrite lookup_delete_ne; [apply H9; by right|]. intros ->. done.
Qed.

(** Timers, sets of handles. *)
Lemma calm_queues L w0 w e : calm L w0 w -> pending_queue e = pending_queue (g_event_loop w) -> cancel_queue e = cancel_queue (g_event_loop w) -> done_queue e = done_queue (g_event_loop w) ->
  calm L w0 (set_loop e w).
Proof. intros H E1 E2 E3. apply (calm_step L w0 w); try done; [by left| |apply (A_quiet _ _ _ H)]. unfold queued. cbn. by rewrite E1, E2, E3. Qed.

Lemma closing_timers L w0 lw lt lu le w : closing L w0 lw lt lu le w -> closing L w0 lw lt lu le (set_loop (set_timers ∅ (g_event_loop w)) w).
Proof. intros [H1 H2 H3 H4 H5 H6 H7 H8 H9]. split; try done; [by apply calm_queues|by eapply owns_same..]. Qed.

Lemma closing_reconnects L w0 lw lt lu le w : closing L w0 lw lt lu le w -> closing L w0 lw lt lu le (set_ws (Ws.set_reconnect_timers ∅ (g_ws w)) w).
Proof.
  intros [H1 H2 H3 H4 H5 H6 H7 H8 H9]. split; try done; [|by eapply owns_same| |by eapply owns_same..].
  - apply (calm_step L w0 w); try done; [by left|apply (A_quiet _ _ _ H1)].
  - intros id p Hin. destruct (H3 id p Hin) as (c & Hc & [L1 L2 L3 L4]). by exists c.
Qed.

Lemma remove_http_ok L w0 lw lt lu le w : closing L w0 lw lt lu le w -> ok remove_http (fun _ => closing L w0 lw lt lu le) w.
Proof.
  intros [H1 H2 H3 H4 H5 H6 H7 H8 H9]. eapply ok_upd; [done|]. split; try done; [|by eapply owns_same..]. by apply (calm_queues L w0 w).
Qed.

(** *** [close_all] *)

Lemma close_all_ok L w : closing L w (map_to_list (Ws.ws_connections_ (g_ws w))) (map_to_list (Tcp.tcp_sockets_ (g_tcp w))) (map_to_list (Udp.udp_sockets_ (g_udp w))) (elements (Ws.ws_curl_handles_ (g_ws w))) w ->
  ok close_all (fun _ => calm L w) w.
Proof.
  intros H. here @close_all. set (lw := map_to_list _) in *. set (lt := map_to_list (Tcp.tcp_sockets_ _)) in *. set (lu := map_to_list (Udp.udp_sockets_ _)) in *. set (le := elements _) in *.
  apply (ok_bind _ _ (fun _ => closing L w lw lt lu le)); [eapply ok_upd; [done|by apply closing_timers]|]. intros _ w1 H1.
  apply (ok_bind _ _ (fun _ => closing L w lw lt lu le)); [eapply ok_upd; [done|by apply closing_reconnects]|]. intros _ w2 H2.
  apply (ok_bind _ _ (fun _ => closing L w [] lt lu le)); [by apply (ok_for_each stop_ws (fun l => closing L w l lt lu le)); [intros; apply stop_ws_ok|]|]. intros _ w3 H3.
  apply (ok_bind _ _ (fun _ => closing L w [] [] lu le)); [by apply (ok_for_each stop_tcp (fun l => closing L w [] l lu le)); [intros; apply stop_tcp_ok|]|]. intros _ w4 H4.
  apply (ok_bind _ _ (fun _ => closing L w [] [] [] le)); [by apply (ok_for_each stop_udp (fun l => closing L w [] [] l le)); [intros; apply stop_udp_ok|]|]. intros _ w5 H5.
  apply (ok_bind _ _ (fun _ => closing L w [] [] [] le)); [by apply remove_http_ok|]. intros _ w6 H6.
  apply (ok_bind _ _ (fun _ => closing L w [] [] [] [])); [by apply (ok_for_each destroy_easy (fun l => closing L w [] [] [] l)); [intros; apply destroy_easy_ok|]|]. intros _ w7 H7.
  eapply ok_upd; [done|]. pose proof (G_calm _ _ _ _ _ _ _ H7) as Hc. apply (calm_step L w w7); try done; [by left|apply (A_quiet _ _ _ Hc)].
Qed.

(** *** The resolver *)

Lemma ok_repeat (m : N unit) (I : nat -> world -> Prop) n : (forall n w, I (S n) w -> ok m (fun _ => I n) w) -> forall w, I n w -> ok (repeat n m) (fun _ => I O) w.
Proof.
  intros Hm. induction n as [|n IH]; intros w HI; [by exists tt, w|]. cbn [repeat]. apply (ok_bind _ _ (fun _ => I n)); [by apply Hm|]. intros _ w' HI'. by apply IH.
Qed.

Lemma tcp_entry L w0 w id p : calm L w0 w -> Tcp.tcp_sockets_ (g_tcp w) !! id = Some p -> exists s, objects w !! p = Some (OTcpSocket s).
Proof.
  intros H Hp. pose proof (owns_kind _ _ _ _ id p (A_core _ _ _ H) (A_tcp _ _ _ H)) as Hk. rewrite elem_of_map_to_list in Hk. specialize (Hk Hp). unfold kind in Hk.
  destruct (objects w !! p) as [[]|]; try done. eauto.
Qed.

Lemma udp_entry L w0 w id p : calm L w0 w -> Udp.udp_sockets_ (g_udp w) !! id = Some p -> exists s, objects w !! p = Some (OUdpSocket s).
Proof.
  intros H Hp. pose proof (owns_kind _ _ _ _ id p (A_core _ _ _ H) (A_udp _ _ _ H)) as Hk. rewrite elem_of_map_to_list in Hk. specialize (Hk Hp). unfold kind in Hk.
  destruct (objects w !! p) as [[]|]; try done. eauto.
Qed.

(** Only what waits for an answer, and events, change. *)
Lemma calm_tcp L w0 w t : calm L w0 w -> Tcp.tcp_sockets_ t = Tcp.tcp_sockets_ (g_tcp w) -> Tcp.uv_handles t = Tcp.uv_handles (g_tcp w) -> calm L w0 (set_tcp t w).
Proof. intros H E1 E2. apply (calm_step L w0 w); try done; [by left|]. cbn. rewrite E2. apply (A_quiet _ _ _ H). Qed.

Lemma calm_udp L w0 w t : calm L w0 w -> Udp.udp_sockets_ t = Udp.udp_sockets_ (g_udp w) -> calm L w0 (set_udp t w).
Proof. intros H E1. apply (calm_step L w0 w); try done; [by left|]. apply (A_quiet _ _ _ H). Qed.

Definition waiting L w0 (n m : nat) w : Prop := calm L w0 w /\ length (Tcp.resolving (g_tcp w)) = n /\ length (Udp.resolving (g_udp w)) = m.

Lemma tcp_answer L w0 id w n m k : waiting L w0 n m w -> (forall p s, objects w !! p = Some (OTcpSocket s) -> k p s w = Done tt w \/ exists q, k p s w = Done tt (set_tcp (Tcp.set_events q (g_tcp w)) w)) ->
  ok (sock <- find_socket id;; match sock with None => nret tt | Some (p, s) => k p s end) (fun _ => waiting L w0 n m) w.
Proof.
  intros (Hc & En & Em) Hk. unfold ok, nbind, find_socket. destruct (Tcp.tcp_sockets_ (g_tcp w) !! id) as [p|] eqn:Ep; [|by exists tt, w].
  destruct (tcp_entry _ _ _ _ _ Hc Ep) as [s Hs]. unfold nbind, load_socket. rewrite Hs. cbn. destruct (Hk p s Hs) as [->|[q ->]]; [by exists tt, w|]. eexists tt, _. split; [done|]. split; [|done]. by apply calm_tcp.
Qed.

Lemma tcp_resolved L w0 n m w : waiting L w0 (S n) m w -> ok (TcpLoop.OnResolved uv_strerror ares_strerror 0 Dns.ARES_EDESTRUCTION 0 0) (fun _ => waiting L w0 n m) w.
Proof.
  intros (Hc & En & Em). unfold ok, TcpLoop.OnResolved. destruct (Tcp.resolving (g_tcp w)) as [|r rest] eqn:Er; [done|]. cbn [lookup list_lookup delete list_delete].
  set (w1 := set_tcp _ w). assert (waiting L w0 n m w1) as H1. { split; [by apply calm_tcp|]. split; [cbn in *; lia|done]. }
  destruct r; [apply (tcp_answer L w0 _ w1 n m _ H1)..]; intros p s Hs; (destruct (Tcp.handle_closed s) eqn:Ecl; [by left|]); cbn; right; by eexists.
Qed.

Lemma udp_answer L w0 id w n m f : waiting L w0 n m w -> (forall p s, f p s (g_udp w) = Some (s, g_udp w) \/ exists q, f p s (g_udp w) = Some (s, Udp.set_events q (g_udp w))) ->
  ok (UdpLoop.on_registered id f) (fun _ => waiting L w0 n m) w.
Proof.
  intros (Hc & En & Em) Hf. unfold ok, UdpLoop.on_registered. destruct (Udp.udp_sockets_ (g_udp w) !! id) as [p|] eqn:Ep; [|by exists tt, w].
  destruct (udp_entry _ _ _ _ _ Hc Ep) as [s Hs]. unfold on_socket. rewrite Hs.
  assert (exists t, f p s (g_udp w) = Some (s, t) /\ Udp.udp_sockets_ t = Udp.udp_sockets_ (g_udp w) /\ Udp.resolving t = Udp.resolving (g_udp w)) as (t & -> & E1 & E2).
  { destruct (Hf p s) as [->|[q ->]]; by eexists. }
  eexists tt, _. split; [done|]. split; [|cbn; by rewrite E2]. rewrite insert_id by done. apply (calm_step L w0 w); try done; [by left|apply (A_quiet _ _ _ Hc)].
Qed.

Lemma udp_resolved L w0 n m w : waiting L w0 n (S m) w -> ok (UdpLoop.OnResolved uv_strerror ares_strerror 0 Dns.ARES_EDESTRUCTION 0 0 []) (fun _ => waiting L w0 n m) w.
Proof.
  intros (Hc & En & Em). unfold ok, UdpLoop.OnResolved. destruct (Udp.resolving (g_udp w)) as [|r rest] eqn:Er; [done|]. cbn [lookup list_lookup delete list_delete].
  set (w1 := set_udp _ w). assert (waiting L w0 n m w1) as H1. { split; [by apply calm_udp|]. split; [done|cbn in *; lia]. }
  destruct r; apply (udp_answer L w0 _ w1 n m _ H1); intros p s.
  - unfold UdpLoop.bind_resolved. destruct (Udp.handle_closed s); [by left|]. right. by eexists.
  - unfold UdpLoop.send_resolved. destruct (Udp.uv_handle s); [|by left]. destruct (Udp.handle_closed s); [by left|]. right. by eexists.
Qed.

Lemma shutdown_dns_ok L w0 w : calm L w0 w -> ok (shutdown_dns uv_strerror ares_strerror) (fun _ => waiting L w0 0 0) w.
Proof.
  intros H. here @shutdown_dns. set (n := length (Tcp.resolving _)). set (m := length (Udp.resolving _)).
  apply (ok_bind _ _ (fun _ => waiting L w0 0 m)); [by apply (ok_repeat _ (fun n => waiting L w0 n m)); [intros; apply tcp_resolved|]|]. intros _ w1 H1.
  apply (ok_bind _ _ (fun _ => waiting L w0 0 0)); [by apply (ok_repeat _ (fun m => waiting L w0 0 m)); [intros; apply udp_resolved|]|]. intros _ w2 (H2 & En & Em).
  eapply ok_upd; [done|]. split; [|done]. apply (calm_step L w0 w2); try done; [by left|apply (A_quiet _ _ _ H2)].
Qed.

(** *** libuv *)

Lemma run_tcp_ok L w0 e l w : waiting L w0 0 0 w -> (forall h u, (h, u) ∈ e :: l -> Tcp.uv_handles (g_tcp w) !! h = Some u) ->
  ok (run_tcp uv_strerror e) (fun _ w' => w' = w /\ forall h u, (h, u) ∈ l -> Tcp.uv_handles (g_tcp w) !! h = Some u) w.
Proof.
  destruct e as [h u]. intros H Hl. assert (Tcp.uv_handles (g_tcp w) !! h = Some u) as Hu by (apply Hl; by left). destruct (A_quiet _ _ _ (proj1 H) h u Hu) as (E1 & E2 & E3).
  exists tt, w. split; [|split; [done|]; intros h' u' Hin; apply Hl; by right]. unfold run_tcp. rewrite E1, E2. destruct E3 as [E3|E3]; rewrite E3; [done|]. cbn.
  unfold nbind, nret, OnClosed, nbind, TcpLoop.uv_get. by rewrite Hu, E3.
Qed.

Lemma send_done_ok L w0 h (l : list (positive * Udp.uv_udp_t)) x rest w : (waiting L w0 0 0 w /\ (exists u, Udp.uv_handles (g_udp w) !! h = Some u /\ Udp.uv_sends u = x :: rest) /\ forall h' u', (h', u') ∈ l -> h' <> h /\ Udp.uv_handles (g_udp w) !! h' = Some u') ->
  ok (udp_send_done h) (fun _ w => waiting L w0 0 0 w /\ (exists u, Udp.uv_handles (g_udp w) !! h = Some u /\ Udp.uv_sends u = rest) /\ forall h' u', (h', u') ∈ l -> h' <> h /\ Udp.uv_handles (g_udp w) !! h' = Some u') w.
Proof.
  intros ((Hc & En & Em) & (u & Hu & Es) & Hl). unfold ok, udp_send_done, OnUdpSendDone. rewrite Hu. cbn [mbind option_bind]. rewrite Es. eexists tt, _. split; [done|]. split_and!.
  - split; [by apply calm_udp|done].
  - eexists. cbn. rewrite lookup_insert_eq. done.
  - intros h' u' Hin. destruct (Hl h' u' Hin) as [Hne Hu']. cbn. by rewrite lookup_insert_ne.
Qed.

Lemma run_udp_ok L w0 e l w : (waiting L w0 0 0 w /\ NoDup (e :: l).*1 /\ forall h u, (h, u) ∈ e :: l -> Udp.uv_handles (g_udp w) !! h = Some u) ->
  ok (run_udp e) (fun _ w => waiting L w0 0 0 w /\ NoDup l.*1 /\ forall h u, (h, u) ∈ l -> Udp.uv_handles (g_udp w) !! h = Some u) w.
Proof.
  destruct e as [h u]. intros (H & Hn & Hl). cbn in Hn. apply NoDup_cons in Hn as [Hh Hn]. cbn. destruct (Udp.uv_closing u).
  2:{ exists tt, w. split; [done|]. split_and!; [done|done|]. intros h' u' Hin. apply Hl. by right. }
  destruct (ok_for_each (fun _ => udp_send_done h) (fun sends w => waiting L w0 0 0 w /\ (exists u, Udp.uv_handles (g_udp w) !! h = Some u /\ Udp.uv_sends u = sends) /\
    forall h' u', (h', u') ∈ l -> h' <> h /\ Udp.uv_handles (g_udp w) !! h' = Some u') (Udp.uv_sends u)) with w as (a & w1 & E & H1 & _ & H2).
  - intros x rest w1. apply send_done_ok.
  - split_and!; [done| |]; [exists u; split; [apply Hl; by left|done]|]. intros h' u' Hin. split; [|apply Hl; by right]. intros ->. apply Hh, list_elem_of_fmap. by exists (h, u').
  - exists a, w1. split; [done|]. split_and!; [done|done|]. intros h' u' Hin. by destruct (H2 h' u' Hin).
Qed.

Lemma run_loop_ok L w0 w : waiting L w0 0 0 w -> ok (run_loop uv_strerror) (fun _ => waiting L w0 0 0) w.
Proof.
  intros H. here @run_loop. set (lu := map_to_list (Udp.uv_handles _)). apply (ok_bind _ _ (fun _ w => waiting L w0 0 0 w /\ forall h u, (h, u) ∈ lu -> Udp.uv_handles (g_udp w) !! h = Some u)).
  - destruct (ok_for_each (run_tcp uv_strerror) (fun l w' => w' = w /\ forall h u, (h, u) ∈ l -> Tcp.uv_handles (g_tcp w) !! h = Some u) (map_to_list (Tcp.uv_handles (g_tcp w)))) with w as (a & w1 & E & -> & _).
    + intros e l w1 [-> Hl]. by apply (run_tcp_ok L w0).
    + split; [done|]. intros h u. by rewrite elem_of_map_to_list.
    + exists a, w. split; [done|]. split; [done|]. intros h u. by unfold lu; rewrite elem_of_map_to_list.
  - intros _ w1 [H1 Hl]. destruct (ok_for_each run_udp (fun l w => waiting L w0 0 0 w /\ NoDup l.*1 /\ forall h u, (h, u) ∈ l -> Udp.uv_handles (g_udp w) !! h = Some u) lu) with w1 as (a & w2 & E & H2 & _).
    + intros e l w2. apply run_udp_ok.
    + split_and!; [done|apply NoDup_fst_map_to_list|done].
    + by exists a, w2.
Qed.

(** *** Requests *)

(** Only handles, objects and nodes change. *)
Definition loops_same w w' : Prop := g_event_loop w' = g_event_loop w /\ g_tcp w' = g_tcp w /\ g_udp w' = g_udp w /\ g_ws w' = g_ws w /\ g_dns w' = g_dns w.

Lemma loops_trans w1 w2 w3 : loops_same w1 w2 -> loops_same w2 w3 -> loops_same w1 w3.
Proof. unfold loops_same. naive_solver congruence. Qed.

(** Some requests are deleted, those of a list and of the queues are left. *)
Record drained L w0 (D : gset positive) (l : list positive) w : Prop := {
  D_core : core (refs [] (g_ws w) ++ L) w;
  D_tcp : owns HANDLE_TCP_SOCKET (map_to_list (Tcp.tcp_sockets_ (g_tcp w))) w;
  D_udp : owns HANDLE_UDP_SOCKET (map_to_list (Udp.udp_sockets_ (g_udp w))) w;
  D_ws : owns HANDLE_WS_SOCKET (map_to_list (Ws.ws_connections_ (g_ws w))) w;
  D_later : later w0 w;
  D_left : forall q, q ∈ l ++ queued w -> q ∈ D \/ kind w q = Some HANDLE_HTTP_REQUEST;
  D_gone : forall q, q ∈ D -> objects w !! q = None;
  D_all : forall q, q ∈ queued w0 -> q ∈ D \/ q ∈ l ++ queued w;
  D_tables : tables w = tables w0
}.

Lemma drained_start L w0 w : waiting L w0 0 0 w -> drained L w0 ∅ [] w.
Proof.
  intros ([H1 H2 H3 H4 H5 H6 H7 H8 H9] & _). split; try done; cbn [app].
  - intros q Hq. right. by apply H7.
  - intros q Hq. right. by rewrite H8.
Qed.

Lemma drained_skip L w0 D q l w : q ∈ D -> drained L w0 D (q :: l) w -> drained L w0 D l w.
Proof.
  intros Hq [H1 H2 H3 H4 H5 H6 H7 H8 H9]. split; try done; [intros q' Hq'; apply H6; by right|]. intros q' Hq'. destruct (H8 q' Hq') as [?|[->|?]%elem_of_cons]; auto.
Qed.

Lemma drained_free L w0 D q l w r : drained L w0 D (q :: l) w -> objects w !! q = Some (OHttpRequest r) ->
  ok (FreeHandle (handle_id r)) (fun _ w' => drained L w0 ({[q]} ∪ D) l w' /\ loops_same w w') w.
Proof.
  intros [H1 H2 H3 H4 H5 H6 H7 H8 H9] Hr. destruct (O_self _ _ H1 q r Hr) as (x & Hx & Ep). pose proof (O_object _ _ H1 _ x Hx) as Ek. rewrite Ep in Ek. unfold kind in Ek. rewrite Hr in Ek. injection Ek as Et. cbn in Et.
  destruct (free_core _ w (handle_id r) x H1 Hx) as (a & w' & E & Hc & Eu & Eo & E1 & E2 & E3 & E4 & E5); [intros c Hc; congruence|]. exists a, w'. split; [done|]. split; [|by split_and!].
  rewrite Ep in Eo. assert (queued w' = queued w) as Eq by (unfold queued; by rewrite E1).
  split; rewrite ?E2, ?E3, ?E4, ?Eq; [done|by eapply owns_free; [done| |done]; intros y Hy; rewrite Hx in Hy; injection Hy as <-; rewrite <- Et..| | | | |by rewrite <- H9; unfold tables; rewrite E2, E3, E4].
  - eapply later_trans; [exact H5|]. eapply later_free; [exact Hx|right; by rewrite <- Et|done|by rewrite Ep].
  - intros q' Hq'. destruct (decide (q' = q)) as [->|Hne]; [left; set_solver|]. destruct (H6 q') as [?|Hk]; [by right|left; set_solver|]. right. unfold kind. by rewrite Eo, lookup_delete_ne.
  - intros q' [->%elem_of_singleton|Hq']%elem_of_union; rewrite Eo; [apply lookup_delete_eq|]. apply lookup_delete_None. right. by apply H7.
  - intros q' Hq'. destruct (H8 q' Hq') as [?|[->|?]%elem_of_cons]; [left; set_solver|left; set_solver|by right].
Qed.

Lemma drain_http_ok L w0 l : forall D w, drained L w0 D l w -> ok (drain_http l D) (fun D' w' => drained L w0 D' [] w' /\ loops_same w w') w.
Proof.
  induction l as [|q l IH]; intros D w H; [by exists D, w|]. cbn [drain_http]. case_decide as Hq; [by apply IH; eapply drained_skip|].
  destruct (D_left _ _ _ _ _ H q) as [?|Hk]; [by left|done|]. unfold kind in Hk. destruct (objects w !! q) as [o|] eqn:Ho; [|done]. destruct o; try done.
  apply (ok_bind _ _ (fun r' w' => r' = r /\ w' = w)). { exists r, w. split; [|done]. unfold load_request. by rewrite Ho. }
  intros r' w' [-> ->]. apply (ok_bind _ _ (fun _ w' => drained L w0 ({[q]} ∪ D) l w' /\ loops_same w w')); [by apply drained_free|]. intros _ w1 [H1 S1].
  destruct (IH _ w1 H1) as (D' & w2 & E & H2 & S2). exists D', w2. split; [done|]. split; [done|]. by eapply loops_trans.
Qed.

Lemma drain_queue_ok L w0 D w get set :
  (forall q', queue_ q' = [] -> forall x, x ∈ queue_ (get (g_event_loop w)) ++ queued (set_loop (set q' (g_event_loop w)) w) <-> x ∈ queued w) -> drained L w0 D [] w ->
  ok (drain_http_queue get set D) (fun D' w' => drained L w0 D' [] w' /\ exists q', queue_ q' = [] /\ loops_same (set_loop (set q' (g_event_loop w)) w) w') w.
Proof.
  intros Hm [H1 H2 H3 H4 H5 H6 H7 H8 H9]. unfold ok, drain_http_queue. destruct (DrainAll_spec (get (g_event_loop w))) as (q' & -> & Eq & _). set (w1 := set_loop (set q' (g_event_loop w)) w).
  destruct (drain_http_ok L w0 (queue_ (get (g_event_loop w))) D w1) as (D' & w2 & E & H & S).
  - split; [by eapply core_same|by eapply owns_same..|by destruct H5| |done| |done].
    + intros x Hx. apply H6. by apply (Hm q' Eq).
    + intros x Hx. destruct (H8 x Hx); [by left|right]. by apply (Hm q' Eq).
  - exists D', w2. split; [done|]. split; [done|]. by exists q'.
Qed.

Lemma drain_requests_ok L w0 w : waiting L w0 0 0 w -> ok drain_requests (fun _ w' => exists D, drained L w0 D [] w' /\ queued w' = []) w.
Proof.
  intros H%drained_start. apply (ok_bind _ _ (fun D w' => drained L w0 D [] w' /\ queue_ (pending_queue (g_event_loop w')) = [])).
  { destruct (drain_queue_ok L w0 ∅ w pending_queue set_pending) as (D & w1 & E & H1 & q & Eq & S & _); [|done|exists D, w1; by rewrite S]. intros q Eq x. unfold queued. cbn. rewrite Eq. set_solver. }
  intros D w1 [H1 E1]. apply (ok_bind _ _ (fun D w' => drained L w0 D [] w' /\ queue_ (pending_queue (g_event_loop w')) = [] /\ queue_ (cancel_queue (g_event_loop w')) = [])).
  { destruct (drain_queue_ok L w0 D w1 cancel_queue set_cancel) as (D' & w2 & E & H2 & q & Eq & S & _); [|done|exists D', w2; by rewrite S]. intros q Eq x. unfold queued. cbn. rewrite Eq. set_solver. }
  intros D' w2 (H2 & E2 & E3). apply (ok_bind _ _ (fun D w' => drained L w0 D [] w' /\ queued w' = [])).
  { destruct (drain_queue_ok L w0 D' w2 done_queue set_done) as (D3 & w3 & E & H3 & q & Eq & S & _); [| |exists D3, w3; unfold queued; rewrite S; cbn; by rewrite E2, E3, Eq]; [|done].
    intros x Ex y. unfold queued. cbn. rewrite Ex. set_solver. }
  intros D3 w3 [H3 E4]. exists tt, w3. split; [done|]. by exists D3.
Qed.

(** *** Operations and events *)

(** [R] are the references that are left. *)
Record ending (R : list loc) w0 w : Prop := {
  E_core : core R w;
  E_tcp : owns HANDLE_TCP_SOCKET (map_to_list (Tcp.tcp_sockets_ (g_tcp w))) w;
  E_udp : owns HANDLE_UDP_SOCKET (map_to_list (Udp.udp_sockets_ (g_udp w))) w;
  E_ws : owns HANDLE_WS_SOCKET (map_to_list (Ws.ws_connections_ (g_ws w))) w;
  E_later : later w0 w;
  E_gone : forall q, q ∈ queued w0 -> objects w !! q = None;
  E_queued : queued w = [];
  E_tables : tables w = tables w0
}.

Lemma ending_start L w0 D w : drained L w0 D [] w -> queued w = [] -> ending (refs [] (g_ws w) ++ L) w0 w.
Proof.
  intros [H1 H2 H3 H4 H5 H6 H7 H8 H9] Eq. split; try done. intros q Hq. destruct (H8 q Hq) as [Hd|Hin]; [by apply H7|]. rewrite Eq in Hin. by apply not_elem_of_nil in Hin.
Qed.

Lemma ending_step R w0 w w' : ending R w0 w -> hm w' = hm w -> objects w' = objects w -> nodes w' = nodes w -> queued w' = queued w ->
  Tcp.tcp_sockets_ (g_tcp w') = Tcp.tcp_sockets_ (g_tcp w) -> Udp.udp_sockets_ (g_udp w') = Udp.udp_sockets_ (g_udp w) -> Ws.ws_connections_ (g_ws w') = Ws.ws_connections_ (g_ws w) -> ending R w0 w'.
Proof.
  intros [H1 H2 H3 H4 H5 H6 H7 H8] Eh Eo En Eq E1 E2 E3. split; rewrite ?E1, ?E2, ?E3, ?Eo, ?Eq; [by eapply core_same|by eapply owns_same; [|by rewrite Eh]..| |done|done|by rewrite <- H8; unfold tables; rewrite E1, E2, E3].
  eapply later_trans; [exact H5|]. by apply later_same.
Qed.

(** The destructor of an event or an operation. *)
Lemma drop_body_ok o R w0 w : ending (option_list o ++ R) w0 w -> ok (drop_body o) (fun _ w' => ending R w0 w' /\ loops_same w w') w.
Proof.
  intros H. destruct o as [l|]; [|by exists tt, w]. destruct H as [H1 H2 H3 H4 H5 H6 H7 H8]. unfold ok, drop_body, wr.
  destruct (Decref_inv (nodes w) (world_refs (objects w) ++ R) l) as (s & -> & Hs & _).
  { eapply inv_perm; [|exact (O_heap _ _ H1)]. cbn. symmetry. apply Permutation_middle. }
  eexists tt, _. split; [done|]. split; [|done]. split; try done; [by destruct H1|by eapply owns_same..|by destruct H5].
Qed.

Lemma drop_all_ok {A} (f : A -> option loc) l R w0 w : ending (omap f l ++ R) w0 w -> ok (for_each l (fun x => drop_body (f x))) (fun _ w' => ending R w0 w' /\ loops_same w w') w.
Proof.
  intros H. destruct (ok_for_each (fun x => drop_body (f x)) (fun l w' => ending (omap f l ++ R) w0 w' /\ loops_same w w') l) with w as (a & w' & E & H' & S); [| |by exists a, w'].
  - intros x l' w1 [H1 S1]. destruct (drop_body_ok (f x) (omap f l' ++ R) w0 w1) as (a & w2 & E & H2 & S2).
    { replace (option_list (f x) ++ omap f l' ++ R) with (omap f (x :: l') ++ R); [done|]. cbn. by destruct (f x). }
    exists a, w2. split; [done|]. split; [done|]. by eapply loops_trans.
  - split; [done|]. by split_and!.
Qed.

(** No operation and no event is left. *)
Definition empty_queues w : Prop :=
  queue_ (option_queue (g_event_loop w)) = [] /\ queue_ (Tcp.tcp_op_queue (g_tcp w)) = [] /\ queue_ (Tcp.socket_done_queue (g_tcp w)) = [] /\ queue_ (Udp.udp_op_queue (g_udp w)) = [] /\
  queue_ (Udp.udp_events (g_udp w)) = [] /\ queue_ (Ws.ws_op_queue (g_ws w)) = [] /\ queue_ (Ws.ws_events (g_ws w)) = [] /\ queue_ (Dns.dns_op_queue (g_dns w)) = [].

Lemma drop_queues_ok L w0 w : ending (refs [] (g_ws w) ++ L) w0 w -> ok drop_queues (fun _ w' => ending L w0 w' /\ empty_queues w') w.
Proof.
  intros H. here @drop_queues. set (evs := queue_ (Ws.ws_events (g_ws w))). set (ops := queue_ (Ws.ws_op_queue (g_ws w))).
  assert (ending (omap Ws.e_parsed_node evs ++ omap op_body ops ++ L) w0 w) as H0. { replace (omap Ws.e_parsed_node evs ++ omap op_body ops ++ L) with (refs [] (g_ws w) ++ L); [done|]. unfold refs, evs_of. by rewrite <- app_assoc. }
  do 3 (eapply ok_upd_bind; [done|]). lazymatch goal with |- ok _ _ ?x => set (w1 := x) end. assert (ending (omap Ws.e_parsed_node evs ++ omap op_body ops ++ L) w0 w1) as H1 by (by apply (ending_step _ w0 w)).
  eapply ok_bind; [exact (drop_all_ok Ws.e_parsed_node evs _ w0 w1 H1)|]. intros _ w2 [H2 (S1 & S2 & S3 & S4 & S5)].
  do 2 (eapply ok_upd_bind; [done|]). lazymatch goal with |- ok _ _ ?x => set (w3 := x) end. assert (ending (omap op_body ops ++ L) w0 w3) as H3 by (by apply (ending_step _ w0 w2)).
  eapply ok_bind; [exact (drop_all_ok op_body ops _ w0 w3 H3)|]. intros _ w4 [H4 (T1 & T2 & T3 & T4 & T5)].
  eapply ok_upd; [done|]. split; [by apply (ending_step _ w0 w4)|]. unfold empty_queues. cbn. rewrite T1, T2, T3, T4, T5. cbn. rewrite S1, S2, S3. by cbn.
Qed.

(** *** Handles of sockets *)

Definition gone w (e : Z * positive) : Prop := used w !! e.1 = None /\ objects w !! e.2 = None.

Lemma gone_later w w' e : later w w' -> gone w e -> gone w' e.
Proof. intros [] []. split; eauto. Qed.

(** Handles of type [t] were freed. *)
Record freed (t : HandleType) w w' : Prop := {
  F_later : later w w';
  F_loops : loops_same w w';
  F_tables : forall t' l, t' <> t -> owns t' l w -> owns t' l w'
}.

Lemma freed_refl t w : freed t w w.
Proof. split; [apply later_refl|by split_and!|done]. Qed.
Lemma freed_trans t w1 w2 w3 : freed t w1 w2 -> freed t w2 w3 -> freed t w1 w3.
Proof. intros [A1 A2 A3] [B1 B2 B3]. split; [by eapply later_trans|by eapply loops_trans|eauto]. Qed.

Lemma free_entry L t id p l w : socket_kind t -> core L w -> owns t ((id, p) :: l) w -> (forall c, objects w !! p = Some (OWsConnection c) -> Ws.curl_handle c = None) ->
  ok (FreeHandle id) (fun _ w' => core L w' /\ owns t l w' /\ freed t w w' /\ gone w' (id, p)) w.
Proof.
  intros Hk Hc Ho Hw. destruct (Z_owns _ _ _ Ho id p) as (x & Hx & Ep & Et); [by left|]. destruct (free_core L w id x Hc Hx) as (a & w' & E & Hc' & Eu & Eo & S); [by rewrite Ep|].
  exists a, w'. split; [done|]. rewrite Ep in Eo. split_and!; [done|by eapply owns_next| |].
  - split; [|done|].
    + eapply later_free; [exact Hx|left; by rewrite Et|done|by rewrite Ep].
    + intros t' l' Hne Ho'. eapply owns_free; [exact Ho'| |exact Eu]. intros y Hy. congruence.
  - split; [rewrite Eu|rewrite Eo]; apply lookup_delete_eq.
Qed.

Lemma free_ws_ok L e l w : core L w -> owns HANDLE_WS_SOCKET (e :: l) w -> ok (free_ws e) (fun _ w' => core L w' /\ owns HANDLE_WS_SOCKET l w' /\ freed HANDLE_WS_SOCKET w w' /\ gone w' e) w.
Proof.
  destruct e as [id p]. intros Hc Ho. pose proof (owns_kind L _ _ w id p Hc Ho ltac:(by left)) as Hk. unfold kind in Hk. destruct (objects w !! p) as [o|] eqn:Hp; [|done]. destruct o as [| | | | | |c]; try done.
  set (w1 := set_nodes (nodes w) (set_ws (g_ws w) (set_objects (<[p := OWsConnection (Ws.set_curl None c)]> (objects w)) w))).
  unfold free_ws. cbn [fst snd]. apply (ok_bind _ _ (fun _ w' => w' = w1)). { exists tt, w1. split; [|done]. unfold on_conn, on_conn_heap. by rewrite Hp. } intros _ w' ->.
  assert (touched w w1) as Ht. { right. exists p, (OWsConnection c), (OWsConnection (Ws.set_curl None c)). split_and!; [done|done|by right; right|done]. }
  destruct (free_entry L HANDLE_WS_SOCKET id p l w1) as (a & w2 & E & H1 & H2 & H3 & H4); [by right; right|by apply (core_touched L w)|by eapply owns_same| |].
  - intros c'. cbn. rewrite lookup_insert_eq. by intros [= <-].
  - exists a, w2. split; [done|]. split_and!; [done|done| |done]. eapply freed_trans; [|exact H3]. split; [by apply later_touched|by split_and!|]. intros t' l' _ Ho'. by eapply owns_same.
Qed.

Lemma free_all L t body full w : (forall e l w, core L w -> owns t (e :: l) w -> ok (body e) (fun _ w' => core L w' /\ owns t l w' /\ freed t w w' /\ gone w' e) w) ->
  core L w -> owns t full w -> ok (for_each full body) (fun _ w' => core L w' /\ freed t w w' /\ forall e, e ∈ full -> gone w' e) w.
Proof.
  intros Hb Hc Ho. destruct (ok_for_each body (fun l w' => core L w' /\ owns t l w' /\ freed t w w' /\ forall e, e ∈ full -> e ∈ l \/ gone w' e) full) with w as (a & w' & E & H1 & _ & H2 & H3).
  - intros e l w1 (C1 & O1 & F1 & G1). destruct (Hb e l w1 C1 O1) as (a & w2 & E & C2 & O2 & F2 & G2). exists a, w2. split; [done|]. split_and!; [done|done|by eapply freed_trans|].
    intros e' Hin. destruct (G1 e' Hin) as [[->|?]%elem_of_cons|Hg]; [by right|by left|right]. by eapply gone_later; [apply (F_later _ _ _ F2)|].
  - split_and!; [done|done|apply freed_refl|auto].
  - exists a, w'. split; [done|]. split_and!; [done|done|]. intros e Hin. by destruct (H3 e Hin) as [?%not_elem_of_nil|?].
Qed.

(** ** The theorem *)

(** What [Stop] relies on: the handles and the node heap are consistent, the
    queued requests exist, the tables name handles in use of their types; the
    sockets' libuv handles are theirs and open, and none has a connect or a
    write under way; connections are linked, and the easy handles that connect
    exist.  The loop closes the handles that are closing before it ends. *)
Record ready L w : Prop := {
  B_core : core (refs [] (g_ws w) ++ L) w;
  B_requests : forall q, q ∈ queued w -> kind w q = Some HANDLE_HTTP_REQUEST;
  B_tcp : forall id p, Tcp.tcp_sockets_ (g_tcp w) !! id = Some p -> exists x, used w !! id = Some x /\ pointer x = p /\ type x = HANDLE_TCP_SOCKET;
  B_uv : forall id p s h, Tcp.tcp_sockets_ (g_tcp w) !! id = Some p -> objects w !! p = Some (OTcpSocket s) -> Tcp.uv_handle s = Some h ->
    exists u, Tcp.uv_handles (g_tcp w) !! h = Some u /\ Tcp.uv_data u = p;
  B_quiet : forall h u, Tcp.uv_handles (g_tcp w) !! h = Some u -> Tcp.uv_connect u = None /\ Tcp.uv_writes u = [] /\ Tcp.uv_closing u = None;
  B_udp : forall id p, Udp.udp_sockets_ (g_udp w) !! id = Some p -> exists x, used w !! id = Some x /\ pointer x = p /\ type x = HANDLE_UDP_SOCKET;
  B_uuv : forall id p s h, Udp.udp_sockets_ (g_udp w) !! id = Some p -> objects w !! p = Some (OUdpSocket s) -> Udp.uv_handle s = Some h ->
    exists u, Udp.uv_handles (g_udp w) !! h = Some u /\ Udp.uv_data u = p /\ Udp.uv_closing u = false;
  B_ws : forall id p, Ws.ws_connections_ (g_ws w) !! id = Some p -> exists x, used w !! id = Some x /\ pointer x = p /\ type x = HANDLE_WS_SOCKET;
  B_linked : forall id p c, Ws.ws_connections_ (g_ws w) !! id = Some p -> objects w !! p = Some (OWsConnection c) -> linked p c (g_ws w);
  B_easy : forall e, e ∈ Ws.ws_curl_handles_ (g_ws w) -> is_Some (Ws.easies (g_ws w) !! e)
}.

(** What is left: the registered sockets and the queued requests are deleted
    and their handles free, handles of other types stay; no table and no queue
    holds anything, and of the nodes only those that remaining objects or [L]
    refer to exist. *)
Record stopped L w w' : Prop := {
  S_core : core L w';
  S_tcp : forall id p, Tcp.tcp_sockets_ (g_tcp w) !! id = Some p -> gone w' (id, p);
  S_udp : forall id p, Udp.udp_sockets_ (g_udp w) !! id = Some p -> gone w' (id, p);
  S_ws : forall id p, Ws.ws_connections_ (g_ws w) !! id = Some p -> gone w' (id, p);
  S_requests : forall q, q ∈ queued w -> objects w' !! q = None;
  S_others : forall h x, used w !! h = Some x -> ~ in_flight_type (type x) -> used w' !! h = Some x;
  S_tables : Tcp.tcp_sockets_ (g_tcp w') = ∅ /\ Udp.udp_sockets_ (g_udp w') = ∅ /\ Ws.ws_connections_ (g_ws w') = ∅;
  S_queues : queued w' = [] /\ empty_queues w'
}.

Lemma table_owns t (tab : gmap Z positive) w : (forall id p, tab !! id = Some p -> exists x, used w !! id = Some x /\ pointer x = p /\ type x = t) -> owns t (map_to_list tab) w.
Proof. intros H. split; [apply NoDup_fst_map_to_list|]. intros id p. rewrite elem_of_map_to_list. apply H. Qed.

Lemma ready_calm L w : ready L w -> calm L w w.
Proof.
  intros [H1 H2 H3 H4 H5 H6 H7 H8 H9 H10]. split; try done; [by apply table_owns..|]. intros h u Hu. destruct (H5 h u Hu) as (? & ? & ?). split_and!; auto.
Qed.

Lemma ready_closing L w : ready L w ->
  closing L w (map_to_list (Ws.ws_connections_ (g_ws w))) (map_to_list (Tcp.tcp_sockets_ (g_tcp w))) (map_to_list (Udp.udp_sockets_ (g_udp w))) (elements (Ws.ws_curl_handles_ (g_ws w))) w.
Proof.
  intros H. pose proof (ready_calm L w H) as Hc. pose proof Hc as [A1 A2 A3 A4 _ _ _ _ _]. destruct H as [H1 H2 H3 H4 H5 H6 H7 H8 H9 H10]. split; try done.
  - intros id p Hin. pose proof (owns_kind _ _ _ _ id p A1 A4 Hin) as Hk. apply elem_of_map_to_list in Hin. unfold kind in Hk. destruct (objects w !! p) as [[]|] eqn:Hp; try done. eauto.
  - intros id p Hin. destruct (tcp_entry L w w id p Hc) as [s Hs]; [by apply elem_of_map_to_list|]. apply elem_of_map_to_list in Hin. exists s. split; [done|]. intros h Hh.
    destruct (H4 id p s h Hin Hs Hh) as (u & Hu & Ed). exists u. by destruct (H5 h u Hu) as (_ & _ & ?).
  - intros id p Hin. destruct (udp_entry L w w id p Hc) as [s Hs]; [by apply elem_of_map_to_list|]. apply elem_of_map_to_list in Hin. exists s. split; [done|]. intros h Hh. by apply (H7 id p s h).
  - apply NoDup_elements.
  - intros e He. apply H10. by apply elem_of_elements.
Qed.

Lemma free_sockets_ok L w0 w : ending L w0 w -> empty_queues w -> ok free_sockets (fun _ w' => core L w' /\ later w w' /\ queued w' = [] /\ empty_queues w' /\
  (Tcp.tcp_sockets_ (g_tcp w') = ∅ /\ Udp.udp_sockets_ (g_udp w') = ∅ /\ Ws.ws_connections_ (g_ws w') = ∅) /\
  (forall e, e ∈ map_to_list (Tcp.tcp_sockets_ (g_tcp w)) -> gone w' e) /\ (forall e, e ∈ map_to_list (Udp.udp_sockets_ (g_udp w)) -> gone w' e) /\
  forall e, e ∈ map_to_list (Ws.ws_connections_ (g_ws w)) -> gone w' e) w.
Proof.
  intros [H1 H2 H3 H4 H5 H6 H7 H8] (Q1 & Q2 & Q3 & Q4 & Q5 & Q6 & Q7 & Q8). here @free_sockets. set (lt := map_to_list (Tcp.tcp_sockets_ _)) in *. set (lu := map_to_list (Udp.udp_sockets_ _)) in *. set (lw := map_to_list (Ws.ws_connections_ _)) in *.
  eapply ok_bind; [apply (free_all L HANDLE_TCP_SOCKET (fun e => FreeHandle e.1) lt w); [|exact H1|exact H2]|].
  { intros [id p] l w1 Hc Ho. apply free_entry; [by left|done|done|]. intros c Hp. pose proof (owns_kind L _ _ w1 id p Hc Ho ltac:(by left)) as Hk. unfold kind in Hk. by rewrite Hp in Hk. }
  intros _ w1 (C1 & F1 & G1). eapply ok_upd_bind; [done|]. lazymatch goal with |- ok _ _ ?x => set (v1 := x) end.
  assert (core L v1) as C1' by (by eapply core_same). assert (owns HANDLE_UDP_SOCKET lu v1) as U1 by (eapply owns_same; [by apply (F_tables _ _ _ F1)|done]).
  assert (owns HANDLE_WS_SOCKET lw v1) as W1 by (eapply owns_same; [by apply (F_tables _ _ _ F1)|done]).
  eapply ok_bind; [apply (free_all L HANDLE_UDP_SOCKET (fun e => FreeHandle e.1) lu v1); [|exact C1'|exact U1]|].
  { intros [id p] l w2 Hc Ho. apply free_entry; [by right; left|done|done|]. intros c Hp. pose proof (owns_kind L _ _ w2 id p Hc Ho ltac:(by left)) as Hk. unfold kind in Hk. by rewrite Hp in Hk. }
  intros _ w2 (C2 & F2 & G2). eapply ok_upd_bind; [done|]. lazymatch goal with |- ok _ _ ?x => set (v2 := x) end.
  assert (core L v2) as C2' by (by eapply core_same). assert (owns HANDLE_WS_SOCKET lw v2) as W2 by (eapply owns_same; [by apply (F_tables _ _ _ F2)|done]).
  eapply ok_bind; [apply (free_all L HANDLE_WS_SOCKET free_ws lw v2); [|exact C2'|exact W2]|]; [intros; by apply free_ws_ok|].
  intros _ w3 (C3 & F3 & G3). destruct F1 as [Y1 (S1 & S2 & S3 & S4 & S5) _], F2 as [Y2 (T1 & T2 & T3 & T4 & T5) _], F3 as [Y3 (V1 & V2 & V3 & V4 & V5) _].
  assert (later v1 w3) as Y4. { eapply later_trans; [exact Y2|]. by destruct Y3. }
  assert (later w1 w3) as Y5 by (by destruct Y4). assert (later w2 w3) as Y6 by (by destruct Y3).
  eapply ok_upd; [done|]. unfold empty_queues, queued in *. cbn -[lookup]. rewrite V1, V2, V3, V4, V5. cbn -[lookup]. rewrite T1, T2, T3, T4, T5. cbn -[lookup]. rewrite S1, S3, S4, S5, S2. cbn -[lookup].
  split_and!; try done; [by eapply core_same| | |].
  - eapply later_trans; [exact Y1|]. by destruct Y5.
  - intros e He. destruct (gone_later w1 w3 e Y5 (G1 e He)). by split.
  - intros e He. destruct (gone_later w2 w3 e Y6 (G2 e He)). by split.
Qed.


(** The invariant of WebSockets gives what they need. *)
Lemma winv_ready backoff w : winv backoff [] [] w -> Tcp.tcp_sockets_ (g_tcp w) = ∅ -> Tcp.uv_handles (g_tcp w) = ∅ -> Udp.udp_sockets_ (g_udp w) = ∅ ->
  queue_ (cancel_queue (g_event_loop w)) = [] -> (forall e, e ∈ Ws.ws_curl_handles_ (g_ws w) -> is_Some (Ws.easies (g_ws w) !! e)) -> exists L, ready L w.
Proof.
  intros [(FR & L & HI) Hws] E1 E2 E3 E4 He. exists L. cbn [app] in HI. pose proof (Inv_core _ _ HI) as Hc. split; rewrite ?E1, ?E2, ?E3; try done.
  - intros q Hq. unfold queued in Hq. rewrite E4 in Hq. destruct HI as [_ _ _ _ _ _ [pl Hh]]. assert (exists r, requests (objects w) !! q = Some r) as [r Hr%requests_Some].
    { apply elem_of_app in Hq as [Hq|[Hq|Hq]%elem_of_app]; [|by apply not_elem_of_nil in Hq|].
      - destruct (at_place Hh q Pend) as (r & Hr & _); [done|done|by exists r].
      - destruct (at_place Hh q Finished) as (r & Hr & _); [done|apply elem_of_app; by right|by exists r]. }
    unfold kind. by rewrite Hr.
  - intros id p Hp. apply (W_table _ _ _ _ _ Hws) in Hp. apply ws_handles_Some in Hp as (x & Hx & Et & Ep). by exists x.
  - intros id p c Hp Hc'. apply (W_table _ _ _ _ _ Hws) in Hp. destruct (W_handle _ _ _ _ _ Hws id p Hp) as (c1 & Hc1%conns_Some & _ & Hok). rewrite Hc' in Hc1. injection Hc1 as <-. by apply (C_linked _ _ _ _ _ _ Hok).
Qed.

End Stopping.

(** ** Runs *)

Module ShutdownScenarios.

#[local] Instance pool1 : NodeAllocator FixedPool := pool_allocator 0.

#[local] Notation world := (world (P := FixedPool) (M := flat_memory)).
#[local] Notation tcp_event := (tcp_event (P := FixedPool) (M := flat_memory)).

#[local] Notation ws_runs := (ws_runs (P := FixedPool) (M := flat_memory) ws_text ws_text ws_backoff ws_iterate ws_function ws_parse_error).

(** The extension is unloaded after a run of TCP: the handles that are left, or
    [None] when that is undefined. *)
Definition stop_after (evs : list tcp_event) : option nat :=
  match tcp_run evs TcpSystem.no_frame tcp_world with
  | Done _ w => match Stop no_text no_text w with UB => None | Done _ w => Some (size (used_handles_ (hm w))) | BadArg => Some 99%nat end
  | _ => Some 99%nat
  end.

Definition send : tcp_event := tcp_call "async2_TcpSend" [3; 1; 8; 4].

(** Handles and easy handles that are left after a run of WebSockets. *)
Definition stop_ws_after (cs : list ws_script) : option (nat * nat) :=
  match ws_checked cs WsSystem.no_frame ws_world with
  | Some (_, w) => match Stop no_text no_text w with Done _ w => Some (size (used_handles_ (hm w)), size (Ws.easies (g_ws w))) | _ => None end
  | None => None
  end.


Definition easies_check (w : world) : bool := forallb (fun e => bool_decide (is_Some (Ws.easies (g_ws w) !! e))) (elements (Ws.ws_curl_handles_ (g_ws w))).

Lemma easies_check_ok w : easies_check w = true -> forall e, e ∈ Ws.ws_curl_handles_ (g_ws w) -> is_Some (Ws.easies (g_ws w) !! e).
Proof.
  intros H e He. unfold easies_check in H. rewrite forallb_forall in H. specialize (H e). rewrite <- list_elem_of_In, elem_of_elements in H. by apply bool_decide_eq_true in H.
Qed.


End ShutdownScenarios.
